(* ===== verification/_CoqProject ===== *)
-Q . S2P
Prelude.v
Bits.v
EliasDelta.v
Leb128.v
Helper.v
RangeFrame.v
UndoPayload.v
Bitmap.v
SpentIds.v
TaggedHash.v
OutputHash.v
LightBlock.v
LightValid.v
LightFilter.v
CutThrough.v
LightWire.v
P2trIndexer.v
P2trFacts.v
Indexer.v
ScriptClassify.v
ScriptType.v
SpTweak.v
Decimal.v
Kv.v
IndexStore.v
PrevoutStore.v
Tasks.v
ArchiveBackend.v
FileArchive.v
JsonWire.v
Server.v
ServerFacts.v
ServerSync.v
Sources.v
MultiSource.v
IndexerCache.v
Profile.v
LightIndexer.v
LightIndexerFacts.v
LightIndexerSync.v
LightIndexerToy.v
LightIndexerFrame.v
LightIndexerRun.v
LightIndexerCrash.v
Histogram.v
TaprootSpend.v
UtxoHash.v
CodecCost.v
BlockStats.v
ScanBlock.v
Checkpoint.v
StatsSinks.v
StatsScan.v
StatsScanRuns.v
Text.v
Node.v
RestSource.v
RpcSource.v
RpcAuth.v
EsploraSource.v
EsploraThrottle.v
IpcSource.v
MultiServes.v
SourceBuild.v
ToyNode.v
StatsMain.v
F64.v
Report.v
FetchMain.v
IndexerMain.v
ArchiveStats.v
StatsWire.v
BlockWire.v
Fixture.v
ArchiveCoins.v
ServedArchive.v
ScanMetrics.v
UnitTests.v
CommandLine.v
