(* ===== verification/Prelude.v ===== *)
(** * bitcoin-data: a verification library

    bitcoin-data reads blocks from Bitcoin nodes and makes two things of them: an archive
    of compact blocks for Silent Payments light clients, with the HTTP server that serves
    it (crate [light-server]), and statistics of the chain (crate [stats]).  Both read
    blocks through the source trait of crate [core], implemented by the adapters of crate
    [sources]; crate [cli] streams blocks, crate [encoding] puts them on the wire.

    ** How the parts interact

    A node answers over REST, JSON-RPC, Esplora's HTTP API or IPC; an adapter makes it a
    [BlockSource]; several sources stand behind a [MultiSource]; [build_source] makes one
    source of a command line.  [light-indexer run] asks a source for the finalized blocks
    and their spent outputs, decodes them, computes the scan point of each transaction,
    applies them to the P2TR index, and writes block files, spent heights, the database
    and the manifest.  [light-server] answers from the files.  [btc-data-stats] runs the
    scanner over a source: preparation, the serial commit, the CSV row, the checkpoint.

    ** The files

    Shared theory.  [Prelude]: outcomes of Rust computations, integers at their width,
    byte orders, lists.  [Bits]: bit streams.  [Decimal], [Text]: numbers and text.
    [Tasks]: tokio tasks that complete in any order.  [Kv]: the key-value store.

    Codecs.  [EliasDelta], [Leb128]: [codec/*.rs].  [Helper]: [helper.rs], [types.rs].
    [RangeFrame]: [range.rs].  [UndoPayload]: [core/src/block.rs].  [TaggedHash]:
    [tagged_hash.rs].

    Light blocks ([light-server/src/index.rs]).  [Bitmap], [SpentIds], [OutputHash]: the
    three streams of a block.  [LightBlock]: data, validators, responses.  [LightValid]:
    what the validators accept.  [LightFilter]: what a response contains.  [CutThrough]:
    responses folded over a range.  [LightWire]: the messages.

    The index.  [P2trIndexer] with [P2trFacts], [Indexer], [IndexerCache]:
    [p2tr_indexer.rs].  [ScriptClassify]: [script_classify.rs].  [SpTweak]:
    [sp_tweak.rs].  [IndexStore], [PrevoutStore]: the files of these names.

    The archive and its server.  [ArchiveBackend]: the trait of [storage/backend.rs].
    [FileArchive]: [storage/files.rs].  [JsonWire]: [json_wire.rs].  [Server] with
    [ServerFacts], [ServerSync]: [server.rs].  [Profile]: [profile.rs].  [ArchiveStats]:
    [bin/light_archive_stats.rs].

    The indexer binary ([bin/light_indexer.rs]).  [LightIndexer]: the definitions.
    [LightIndexerFacts], [LightIndexerFrame], [LightIndexerSync], [LightIndexerRun],
    [LightIndexerCrash]: decoding, chunks, passes, the run, an interrupted flush;
    the first also has the line logged for a range.
    [LightIndexerToy]: inputs of the witnesses.  [IndexerMain]: the command line.
    [ArchiveCoins], [ServedArchive]: the
    archive it leaves, as a light client reads it from the files and over HTTP.
    [Fixture]: the fixture command.  [CommandLine]: the [main] functions of the indexer
    and of [bin/light_server.rs] over one disk, with the router of [server.rs].

    Sources.  [Sources]: the traits and streams of [core] and the polling watcher.
    [Node]: what a source promises.  [RestSource], [RpcSource] with [RpcAuth],
    [EsploraSource] with [EsploraThrottle], [IpcSource]: the adapters.  [MultiSource]
    with [MultiServes]: several sources.  [SourceBuild]: the command line.  [ToyNode]: a
    concrete node behind the four interfaces, for the witnesses.  [FetchMain]:
    [cli/src/main.rs], [cli/src/simulation.rs].

    Statistics.  [ScriptType]: [script.rs].  [Histogram]: [histogram.rs].
    [TaprootSpend]: [transaction.rs].  [UtxoHash]: [utxo_hash.rs].  [CodecCost],
    [BlockStats]: [block.rs].  [ScanBlock], [StatsScan] with [StatsScanRuns]:
    [scan.rs]; [ScanMetrics]: its timers.  [F64], [Report]: floating
    point and the printed report.  [Checkpoint]: [checkpoint.rs].  [StatsSinks]:
    [sinks.rs], [sinks/csv.rs], [sinks/fanout.rs].  [StatsMain]: [bin/main.rs].
    [StatsWire]: [stats.rs].  [BlockWire]: [encoding/capnp/src/block.rs].

    Unit tests.  [UnitTests]: the tests of the crates, run on the model with SHA-256.

    A definition has the name of the Rust item it models, with a prefix where a record
    field or a method would clash; the comment of a file names its source.

    ** What the theorems show

    Commands.  From honest nodes: the indexer leaves the archive of all finalized blocks
    ([index_main_archives]), the statistics command the rows of the chain
    ([stats_main_writes]), the fetching command the right totals ([fetch_main_totals]);
    the archive report counts what the server sends ([archive_stats_rows]).

    Light clients.  The archive that the indexer leaves is consistent, so that cutting
    spent coins out of the responses is transparent, and a client that folds the archived
    blocks has the coins of the chain ([archive_client_coins]); so has a wallet that pages
    through the deployed server on the disk of the command ([deployed_wallet_synced]); a response
    contains the stored block minus the omitted coins ([filtered_bytes_correct]); paging
    ends with every block ([sync_completes], [range_page], [range_rejects]).

    Restarts and crashes.  Batches, caches and the division into commands change nothing
    ([run_command_refines], [scan_runs_ideal]); an interrupted flush or scan is repaired
    by the next run ([interrupted_flush_recovers], [interrupted_scan_recovers]).

    The index.  Invariants, UIDs, spends and validity of every indexed block
    ([indexer_*], [decoded_block_wf], [scan_point_bip352]); the stores refine maps
    ([commit_refines], [apply_pending_refines], [mark_spent_outputs_refines]).

    Sources.  Each adapter over an honest node serves its chain ([rest_serves],
    [rpc_serves], [esplora_serves], [ipc_serves]); a multi source answers when one of its
    sources does ([multi_source_tells]); throttle and retries are bounded
    ([throttle_rate], [retry_ends]).

    Reports and logs.  No printed report shows [NaN] or [inf] ([report_prints_numbers]);
    the intervals of the progress lines partition a run ([progress_partitions_run]); the
    payload bytes logged are those of the memory budget ([logged_payload_bytes]).

    Codecs.  Round trips and totality ([elias_delta_roundtrip], [range_frame_iff],
    [spent_txouts_iff], [stored_block_roundtrip] and others).

    ** Conventions

    [res] is the outcome of a Rust computation: a value, an error, a panic.  State is
    passed explicitly; where an operation that fails leaves effects behind (files, rows,
    database), the state is returned with the outcome; the in-memory state of a failed
    call is dropped by every caller and is not returned.  An integer is a [Z]; unchecked
    sums are wrapped at their width, as in an optimised build; checked, saturating and
    converting operations are the functions of [Prelude].  A length or index in memory is
    a [nat].

    Fuel.  LEB128: ten bytes hold a [u64].  Elias delta: the prefix loop stops at 64
    zeros.  Decimal digits: 20 for 64 bits, 39 for 128.  The scan and chunk loops: every
    pass moves a height up, so as many passes as heights.  The retry loop: its eight
    attempts.  Polling: the list of the polls.  The theorems show the fuel is enough.

    ** Parameters

    Third-party code is a class with the behaviour the code relies on as laws, and each
    law has a concrete instance in a witness: [CapnpPacked] (capnp), [KvStore] (RocksDB),
    [Secp], [Sha256], [Hash160], [ScriptTemplates], [RustBitcoin], [BlockAccessors]
    (rust-bitcoin), [ManifestJson], [JsonOut], [ChainInfoJson] (serde_json), [Postcard],
    [Hex] and [HexDecode], [BufWriter] (tokio's), [Scheduler] (the order in which tasks
    complete), [HttpClient], [RpcTransport], [EsploraServer], [ChainClient] (what a node
    answers), [NodeInit] (what it answers to a connection), [Backends] (what a URL or a
    socket leads to), [Axum] (the extractors).  The rank of a percentile is an argument
    that [Report] computes in [f64]; the width of the output hashes,
    computed in [f64] from an exact integer, is [Z.log2_up] ([OutputHash] says why).

    ** Not modelled

    Argument parsing (clap); log lines other than those of a scan and of an indexed range;
    what a clock measures, the binding of sockets and axum's extractors, which are
    arguments; failures of the disk other than missing files; an empty batch of
    [buffer_unordered], which never completes; [types.rs] beyond the bytes; the trait of
    [stats/src/sync.rs], which nothing implements; the empty modules of the JSON and
    protobuf crates. *)

From stdpp Require Export base decidable list strings gmap sorting.
From Stdlib Require Export ZArith Lia ZifyNat.
Open Scope Z_scope.

(** [lia] decides goals with division and remainder by constants. *)
Ltac Zify.zify_post_hook ::= Z.to_euclidean_division_equations.

#[global] Arguments Nat.div : simpl never.
#[global] Arguments Nat.modulo : simpl never.
#[global] Arguments Nat.mul : simpl never.
#[global] Arguments Nat.sub : simpl never.
#[global] Arguments Z.of_nat : simpl never.
#[global] Arguments Z.mul : simpl never.
#[global] Arguments Z.add : simpl never.
#[global] Arguments Z.sub : simpl never.
#[global] Arguments Z.pow : simpl never.
#[global] Arguments Z.div : simpl never.
#[global] Arguments Z.modulo : simpl never.
#[global] Arguments Z.shiftl : simpl never.
#[global] Arguments Z.shiftr : simpl never.
#[global] Arguments Z.land : simpl never.
#[global] Arguments Z.lor : simpl never.
#[global] Arguments Z.to_nat : simpl never.

(** ** The outcome of a Rust computation

    [Ok] is a returned value, [Err] an [anyhow] (or crate specific) error value
    and [Panic] an unwinding: slice index out of range, [expect]/[unwrap] on an
    absent value.  Error messages keep the literal text of the source without
    the interpolated arguments. *)
Inductive res (A : Type) : Type :=
| Ok (a : A)
| Err (msg : string)
| Panic (msg : string).
Arguments Ok {A} a.
Arguments Err {A} msg.
Arguments Panic {A} msg.

#[export] Instance res_ret : MRet res := @Ok.
#[export] Instance res_bind : MBind res := λ A B f m,
  match m with Ok a => f a | Err e => Err e | Panic p => Panic p end.
#[export] Instance res_fmap : FMap res := λ A B f m,
  match m with Ok a => Ok (f a) | Err e => Err e | Panic p => Panic p end.

(** [anyhow::ensure!(cond, msg)]. *)
Definition ensure (b : bool) (msg : string) : res unit :=
  if b then Ok tt else Err msg.

(** [opt.ok_or_else(|| anyhow!(msg))]. *)
Definition ok_or {A} (o : option A) (msg : string) : res A :=
  match o with Some a => Ok a | None => Err msg end.

(** [opt.expect(msg)], [opt.unwrap()] and indexing through [opt]. *)
Definition expect {A} (o : option A) (msg : string) : res A :=
  match o with Some a => Ok a | None => Panic msg end.

Definition is_ok {A} (r : res A) : bool :=
  match r with Ok _ => true | _ => false end.

Definition is_err {A} (r : res A) : bool :=
  match r with Err _ => true | _ => false end.

Definition no_panic {A} (r : res A) : Prop :=
  ∀ p, r ≠ Panic p.

(** [iter.map(f).collect::<Result<Vec<_>, _>>()]: stops at the first failure. *)
Fixpoint map_res {A B} (f : A → res B) (l : list A) : res (list B) :=
  match l with
  | [] => Ok []
  | x :: l => y ← f x; ys ← map_res f l; Ok (y :: ys)
  end.

(** A [for] loop over a list whose body can return early with an error. *)
Fixpoint fold_res {A S} (f : S → A → res S) (s : S) (l : list A) : res S :=
  match l with
  | [] => Ok s
  | x :: l => s' ← f s x; fold_res f s' l
  end.

Lemma bind_Ok {A B} (f : A → res B) (m : res A) (b : B) :
  m ≫= f = Ok b ↔ ∃ a, m = Ok a ∧ f a = Ok b.
Proof. destruct m; simpl; naive_solver. Qed.

Lemma ensure_Ok (b : bool) msg u : ensure b msg = Ok u ↔ b = true.
Proof. destruct b, u; simpl; naive_solver. Qed.

Lemma ensure_ok (P : Prop) `{!Decision P} msg : P → ensure (bool_decide P) msg = Ok tt.
Proof. intros. by rewrite bool_decide_true. Qed.

Lemma ok_or_Ok {A} (o : option A) msg a : ok_or o msg = Ok a ↔ o = Some a.
Proof. destruct o; simpl; naive_solver. Qed.

Lemma expect_Ok {A} (o : option A) msg a : expect o msg = Ok a ↔ o = Some a.
Proof. destruct o; simpl; naive_solver. Qed.

(** Splits every successful bind, [ensure], [ok_or] and [expect] of the context. *)
Ltac res_step :=
  match goal with
  | H : (_ ≫= _) = Ok _ |- _ => apply bind_Ok in H as (? & ? & ?)
  | H : ensure _ _ = Ok _ |- _ => apply ensure_Ok in H
  | H : ok_or _ _ = Ok _ |- _ => apply ok_or_Ok in H
  | H : expect _ _ = Ok _ |- _ => apply expect_Ok in H
  | H : Ok _ = Ok _ |- _ => injection H as H; subst
  | H : Err _ = Ok _ |- _ => discriminate H
  | H : Panic _ = Ok _ |- _ => discriminate H
  | H : (let (_, _) := ?x in _) = Ok _ |- _ => destruct x as [? ?]
  end.
Ltac res_inv := repeat res_step.

(** Runs the monadic glue of the goal without unfolding the operations. *)
Ltac rsimpl := cbn [mbind res_bind mret res_ret ensure ok_or expect option_bind].

Lemma map_res_Ok {A B} (f : A → res B) l ys :
  map_res f l = Ok ys ↔ Forall2 (λ x y, f x = Ok y) l ys.
Proof.
  revert ys; induction l as [|x l IH]; intros ys; simpl.
  - split; [intros [= <-]; constructor | by inversion 1].
  - split.
    + intros H; res_inv. constructor; [done|by apply IH].
    + inversion 1 as [|? y ? ys' Hx Hl]; subst. rewrite Hx; simpl.
      apply IH in Hl as ->. done.
Qed.

Lemma map_res_length {A B} (f : A → res B) l ys :
  map_res f l = Ok ys → length ys = length l.
Proof. intros H%map_res_Ok. symmetry. by eapply Forall2_length. Qed.

Lemma map_res_total {A B} (f : A → res B) (g : A → B) l :
  (∀ x, x ∈ l → f x = Ok (g x)) → map_res f l = Ok (g <$> l).
Proof.
  intros H. apply map_res_Ok. induction l as [|x l IH]; simpl; constructor.
  - apply H; set_solver.
  - apply IH. intros y Hy. apply H; set_solver.
Qed.

Lemma fold_res_app {A S} (f : S → A → res S) s l1 l2 :
  fold_res f s (l1 ++ l2) = (s' ← fold_res f s l1; fold_res f s' l2).
Proof.
  revert s; induction l1 as [|x l1 IH]; intros s; simpl; [done|].
  destruct (f s x); simpl; [apply IH|done|done].
Qed.

(** The rule for loops: an invariant of the body holds after the loop. *)
Lemma fold_res_ind {A S} (f : S → A → res S) (P : list A → S → Prop) s l s' :
  P [] s →
  (∀ done x s1 s2, P done s1 → f s1 x = Ok s2 → P (done ++ [x]) s2) →
  fold_res f s l = Ok s' → P l s'.
Proof.
  intros H0 Hstep.
  cut (∀ rest pre s1, P pre s1 → fold_res f s1 rest = Ok s' → P (pre ++ rest) s').
  { intros Hg. apply (Hg l [] s H0). }
  induction rest as [|x rest IH]; intros pre s1 HP Hf; simpl in Hf; res_inv.
  - by rewrite app_nil_r.
  - rewrite cons_middle, app_assoc. eapply IH; [|done]. by eapply Hstep.
Qed.

(** A loop of checks succeeds when every element passes. *)
Lemma fold_ensure {A} (P : A → Prop) `{!∀ x, Decision (P x)} msg (l : list A) :
  fold_res (λ _ x, ensure (bool_decide (P x)) msg) tt l = Ok tt ↔ Forall P l.
Proof.
  induction l as [|x l IH]; simpl; [split; by constructor|].
  rewrite Forall_cons. case_bool_decide; simpl; [rewrite IH|]; naive_solver.
Qed.

(** ** Machine integers

    A [w]-bit unsigned integer is a [Z] in [0, 2^w).  The operators below are
    the Rust standard library's; the plain [+], [-], [*] of an optimised build
    wrap ([wrap]). *)
Definition umax (w : Z) : Z := 2 ^ w - 1.
Definition in_width (w x : Z) : Prop := 0 ≤ x < 2 ^ w.
#[export] Instance in_width_dec w x : Decision (in_width w x).
Proof. unfold in_width. apply _. Defined.

Definition wrap (w x : Z) : Z := x mod 2 ^ w.
Definition checked_add (w a b : Z) : option Z :=
  if bool_decide (a + b < 2 ^ w) then Some (a + b) else None.
Definition checked_sub (a b : Z) : option Z :=
  if bool_decide (b ≤ a) then Some (a - b) else None.
Definition saturating_add (w a b : Z) : Z := Z.min (a + b) (umax w).
Definition saturating_sub (a b : Z) : Z := Z.max 0 (a - b).
Definition saturating_mul (w a b : Z) : Z := Z.min (a * b) (umax w).
(** [uW::try_from(x)] for a non-negative [x]. *)
Definition try_from (w x : Z) : res Z :=
  if bool_decide (x < 2 ^ w) then Ok x
  else Err "out of range integral type conversion attempted".

Lemma checked_add_Some w a b c :
  checked_add w a b = Some c ↔ c = a + b ∧ a + b < 2 ^ w.
Proof. unfold checked_add; case_bool_decide; naive_solver. Qed.
Lemma checked_sub_Some a b c :
  checked_sub a b = Some c ↔ c = a - b ∧ b ≤ a.
Proof. unfold checked_sub; case_bool_decide; naive_solver. Qed.
Lemma checked_add_ok w a b : a + b < 2 ^ w → checked_add w a b = Some (a + b).
Proof. intros. by apply checked_add_Some. Qed.
Lemma checked_sub_ok a b : b ≤ a → checked_sub a b = Some (a - b).
Proof. intros. by apply checked_sub_Some. Qed.
Lemma try_from_Ok w x y : try_from w x = Ok y ↔ y = x ∧ x < 2 ^ w.
Proof. unfold try_from; case_bool_decide; naive_solver. Qed.
Lemma try_from_ok w x : x < 2 ^ w → try_from w x = Ok x.
Proof. intros. by apply try_from_Ok. Qed.
Lemma wrap_small w x : in_width w x → wrap w x = x.
Proof. apply Z.mod_small. Qed.
Lemma wrap_width w x : 0 ≤ w → in_width w (wrap w x).
Proof. intros. apply Z.mod_pos_bound. by apply Z.pow_pos_nonneg. Qed.

(** Length of a Rust slice as an integer. *)
Abbreviation len l := (Z.of_nat (length l)).

(** ** Bytes *)
Abbreviation bytes := (list Z).
Definition is_byte (b : Z) : Prop := 0 ≤ b < 256.
#[export] Instance is_byte_dec b : Decision (is_byte b).
Proof. unfold is_byte. apply _. Defined.
Abbreviation bytes_wf := (Forall is_byte).

(** [&l[a..b]]: panics when the range is not inside the slice. *)
Definition slice {A} (l : list A) (a b : nat) : res (list A) :=
  if bool_decide (a ≤ b)%nat && bool_decide (b ≤ length l)%nat
  then Ok (take (b - a) (drop a l))
  else Panic "range out of bounds for slice".

(** [l[i]]. *)
Definition index {A} (l : list A) (i : nat) : res A :=
  expect (l !! i) "index out of bounds".

Lemma index_Ok {A} (l : list A) i x : index l i = Ok x ↔ l !! i = Some x.
Proof. apply expect_Ok. Qed.
Lemma index_ok {A} (l : list A) i x : l !! i = Some x → index l i = Ok x.
Proof. apply index_Ok. Qed.

Lemma slice_Ok {A} (l : list A) a b s :
  slice l a b = Ok s ↔ s = take (b - a) (drop a l) ∧ (a ≤ b ≤ length l)%nat.
Proof.
  unfold slice. repeat case_bool_decide; simpl; naive_solver lia.
Qed.
Lemma slice_ok {A} (l : list A) a b :
  (a ≤ b ≤ length l)%nat → slice l a b = Ok (take (b - a) (drop a l)).
Proof. intros. by apply slice_Ok. Qed.
Lemma slice_length {A} (l s : list A) a b :
  slice l a b = Ok s → length s = (b - a)%nat.
Proof. intros [-> ?]%slice_Ok. rewrite length_take, length_drop. lia. Qed.

(** [x.to_le_bytes()], [from_le_bytes], and their big-endian versions. *)
Fixpoint le_bytes (n : nat) (x : Z) : bytes :=
  match n with
  | O => []
  | S n => x mod 256 :: le_bytes n (x / 256)
  end.
Fixpoint from_le (l : bytes) : Z :=
  match l with
  | [] => 0
  | b :: l => b + 256 * from_le l
  end.
Definition be_bytes (n : nat) (x : Z) : bytes := reverse (le_bytes n x).
Definition from_be (l : bytes) : Z := from_le (reverse l).

Lemma length_le_bytes n x : length (le_bytes n x) = n.
Proof. revert x; induction n; intros; simpl; [done|by rewrite IHn]. Qed.
Lemma length_be_bytes n x : length (be_bytes n x) = n.
Proof. unfold be_bytes. by rewrite length_reverse, length_le_bytes. Qed.
Lemma le_bytes_wf n x : bytes_wf (le_bytes n x).
Proof.
  revert x; induction n; intros; simpl; constructor; [|done].
  unfold is_byte. apply Z.mod_pos_bound; lia.
Qed.
Lemma be_bytes_wf n x : bytes_wf (be_bytes n x).
Proof. apply Forall_reverse, le_bytes_wf. Qed.

Lemma pow_256_succ n : 256 ^ Z.of_nat (S n) = 256 * 256 ^ Z.of_nat n.
Proof. rewrite Nat2Z.inj_succ, Z.pow_succ_r; lia. Qed.

Lemma from_le_le_bytes n x :
  0 ≤ x < 256 ^ Z.of_nat n → from_le (le_bytes n x) = x.
Proof.
  revert x; induction n as [|n IH]; intros x Hx; simpl.
  - simpl in Hx. lia.
  - rewrite pow_256_succ in Hx. rewrite IH.
    + pose proof (Z.div_mod x 256). lia.
    + split; [apply Z.div_pos; lia|apply Z.div_lt_upper_bound; lia].
Qed.
Lemma from_le_bound l : bytes_wf l → 0 ≤ from_le l < 256 ^ len l.
Proof.
  induction 1 as [|b l Hb Hl IH]; [simpl; lia|].
  cbn [from_le length]. rewrite pow_256_succ. unfold is_byte in Hb. lia.
Qed.
Lemma le_bytes_from_le l : bytes_wf l → le_bytes (length l) (from_le l) = l.
Proof.
  induction 1 as [|b l Hb Hl IH]; simpl; [done|]. unfold is_byte in Hb.
  rewrite (Z.mul_comm 256), Z.mod_add, Z.mod_small, Z.div_add, Z.div_small by lia.
  by rewrite Z.add_0_l, IH.
Qed.
Lemma from_be_be_bytes n x :
  0 ≤ x < 256 ^ Z.of_nat n → from_be (be_bytes n x) = x.
Proof. intros. unfold from_be, be_bytes. rewrite reverse_involutive. by apply from_le_le_bytes. Qed.
Lemma from_be_bound l : bytes_wf l → 0 ≤ from_be l < 256 ^ len l.
Proof. intros H. unfold from_be. rewrite <- (length_reverse l). by apply from_le_bound, Forall_reverse. Qed.
Lemma be_bytes_from_be l : bytes_wf l → be_bytes (length l) (from_be l) = l.
Proof.
  intros H. unfold be_bytes, from_be. rewrite <- (length_reverse l).
  rewrite le_bytes_from_le by by apply Forall_reverse. apply reverse_involutive.
Qed.

(** ** Lists *)
Lemma take_app_exact {A} (l k : list A) n : n = length l → take n (l ++ k) = l.
Proof. intros ->. by rewrite take_app_length. Qed.
Lemma drop_app_exact {A} (l k : list A) n : n = length l → drop n (l ++ k) = k.
Proof. intros ->. by rewrite drop_app_length. Qed.

(** A slice that cuts a list exactly at a concatenation. *)
Lemma slice_middle {A} (pre x post : list A) a b :
  a = length pre → b = (length pre + length x)%nat → slice (pre ++ x ++ post) a b = Ok x.
Proof.
  intros -> ->. rewrite slice_ok by (rewrite !length_app; lia).
  rewrite drop_app_length, take_app_exact; [done|lia].
Qed.
Lemma slice_prefix {A} (x post : list A) b : b = length x → slice (x ++ post) 0 b = Ok x.
Proof. apply (slice_middle [] x post 0 b eq_refl). Qed.
Lemma slice_suffix {A} (pre x : list A) a b :
  a = length pre → b = (length pre + length x)%nat → slice (pre ++ x) a b = Ok x.
Proof. intros Ha Hb. rewrite <-(app_nil_r x) at 1. by apply slice_middle. Qed.

Lemma take_drop_split {A} (l : list A) n : l = take n l ++ drop n l.
Proof. by rewrite take_drop. Qed.

Lemma Forall_sublist_sub {A} (P : A → Prop) l k : l `sublist_of` k → Forall P k → Forall P l.
Proof. induction 1; inversion 1; subst; auto. Qed.
Lemma sublist_fmap {A B} (f : A → B) l k : l `sublist_of` k → (f <$> l) `sublist_of` (f <$> k).
Proof. induction 1; cbn; by constructor. Qed.

Lemma filter_ext_elem {A} (P Q : A → Prop) `{!∀ x, Decision (P x), !∀ x, Decision (Q x)} (l : list A) :
  (∀ x, x ∈ l → P x ↔ Q x) → filter P l = filter Q l.
Proof.
  induction l as [|x l IH]; intros Hpq; [done|]. rewrite !filter_cons.
  rewrite IH by (intros; apply Hpq; by constructor).
  pose proof (Hpq x ltac:(constructor)). repeat case_decide; tauto.
Qed.

(** Concatenations of blocks of one size. *)
Lemma length_bind_const {A B} (F : A → list B) k l :
  Forall (λ x, length (F x) = k) l → length (l ≫= F) = (length l * k)%nat.
Proof. induction 1 as [|x l Hx _ IH]; [done|]. rewrite bind_cons, length_app. simpl. lia. Qed.
Lemma bind_const_block {A B} (F : A → list B) k l i x :
  Forall (λ x, length (F x) = k) l → l !! i = Some x →
  take k (drop (i * k) (l ≫= F)) = F x.
Proof.
  intros H. revert i. induction H as [|y l Hy _ IH]; intros i Hi; [done|]. rewrite bind_cons.
  destruct i as [|i]; simpl in Hi.
  - injection Hi as ->. by rewrite Nat.mul_0_l, drop_0, take_app_exact.
  - replace (S i * k)%nat with (length (F y) + i * k)%nat by lia.
    rewrite <- (drop_drop _ (i * k)), drop_app_length. by apply IH.
Qed.

Create HintDb widths.
#[export] Hint Rewrite length_le_bytes length_be_bytes @length_app @length_take
  @length_drop @length_insert @length_replicate : widths.
Ltac len_tac := autorewrite with widths in *; simpl in *; lia.

(** ** Bit operations on machine integers *)

(** [x.leading_zeros()] of a [w]-bit integer. *)
Definition leading_zeros (w x : Z) : Z :=
  if bool_decide (x = 0) then w else w - 1 - Z.log2 x.

Lemma lor_pow2_add k x : 0 ≤ x < 2 ^ k → Z.lor (2 ^ k) x = 2 ^ k + x.
Proof.
  intros Hx. assert (0 ≤ k) by (destruct (decide (0 ≤ k)); [done|rewrite Z.pow_neg_r in Hx; lia]).
  assert (Z.land (2 ^ k) x = 0) as Hl.
  { apply Z.bits_inj'. intros n Hn. rewrite Z.land_spec, Z.testbit_0_l.
    rewrite Z.pow2_bits_eqb by done. destruct (Z.eqb_spec k n) as [->|]; [|done].
    simpl. destruct (decide (x = 0)) as [->|]; [by rewrite Z.testbit_0_l|].
    apply Z.bits_above_log2; [lia|]. apply Z.log2_lt_pow2; lia. }
  pose proof (Z.add_lor_land (2 ^ k) x). lia.
Qed.

Lemma lxor_pow2_sub k x : 0 ≤ k → 2 ^ k ≤ x < 2 ^ (k + 1) → Z.lxor x (2 ^ k) = x - 2 ^ k.
Proof.
  intros Hk Hx. rewrite Z.pow_add_r in Hx by lia. simpl in Hx.
  replace x with (Z.lor (2 ^ k) (x - 2 ^ k)) at 1 by (rewrite lor_pow2_add; lia).
  apply Z.bits_inj'. intros n Hn. rewrite Z.lxor_spec, Z.lor_spec.
  rewrite Z.pow2_bits_eqb by done. destruct (Z.eqb_spec k n) as [->|]; simpl.
  - symmetry. destruct (decide (x - 2 ^ n = 0)) as [->|]; [by rewrite Z.testbit_0_l|].
    apply Z.bits_above_log2; [lia|]. apply Z.log2_lt_pow2; lia.
  - by destruct (Z.testbit _ _).
Qed.

Lemma land_1_r x : Z.land x 1 = x mod 2.
Proof. change 1 with (Z.ones 1). by rewrite Z.land_ones. Qed.

(** [((b >> n) & 1) == 1] is the bit [n] of [b]. *)
Lemma shiftr_land_1 b n : 0 ≤ n → bool_decide (Z.land (Z.shiftr b n) 1 = 1) = Z.testbit b n.
Proof.
  intros Hn. rewrite Z.testbit_eqb, Z.shiftr_div_pow2 by done.
  rewrite land_1_r. case_bool_decide as H; [by rewrite H|]. symmetry. by apply Z.eqb_neq.
Qed.
Lemma shiftr_land_1_ne b n : 0 ≤ n → bool_decide (Z.land (Z.shiftr b n) 1 ≠ 0) = Z.testbit b n.
Proof.
  intros Hn. rewrite <- (shiftr_land_1 b n Hn). apply bool_decide_ext.
  rewrite land_1_r.
  pose proof (Z.mod_pos_bound (Z.shiftr b n) 2). lia.
Qed.
