(* ===== verification/Bits.v ===== *)
(** * Bit streams

    The common theory of the MSB-first bit streams of the program: the
    Elias-delta writer and reader ([light-server/src/codec/elias_delta.rs]) and
    the packed truncated output hashes ([light-server/src/index.rs]).  A stream
    is a [list bool]; [pack] and [unpack] relate it to bytes. *)

From S2P Require Import Prelude.

(** ** Bit lists as big-endian numbers *)
Definition bits_to_Z (l : list bool) : Z :=
  foldl (λ acc b, 2 * acc + Z.b2z b) 0 l.

(** The low [n] bits of [v], most significant first. *)
Fixpoint Z_to_bits (n : nat) (v : Z) : list bool :=
  match n with
  | O => []
  | S n => Z.testbit v (Z.of_nat n) :: Z_to_bits n v
  end.

Lemma bits_to_Z_snoc l b : bits_to_Z (l ++ [b]) = 2 * bits_to_Z l + Z.b2z b.
Proof. unfold bits_to_Z. by rewrite foldl_app. Qed.

Lemma length_Z_to_bits n v : length (Z_to_bits n v) = n.
Proof. induction n; simpl; [done|by rewrite IHn]. Qed.

Lemma bits_to_Z_app l k :
  bits_to_Z (l ++ k) = bits_to_Z l * 2 ^ len k + bits_to_Z k.
Proof.
  induction k as [|b k IH] using rev_ind.
  - rewrite app_nil_r. cbn. lia.
  - rewrite app_assoc, !bits_to_Z_snoc, IH, length_app, Nat2Z.inj_add.
    rewrite Z.pow_add_r by lia. simpl. lia.
Qed.

Lemma bits_to_Z_bound l : 0 ≤ bits_to_Z l < 2 ^ len l.
Proof.
  induction l as [|b l IH] using rev_ind; [by cbn|].
  rewrite bits_to_Z_snoc, length_app, Nat2Z.inj_add, Z.pow_add_r by lia.
  destruct b; simpl; lia.
Qed.

Lemma bits_to_Z_to_bits n v : bits_to_Z (Z_to_bits n v) = v mod 2 ^ Z.of_nat n.
Proof.
  induction n as [|n IH]; [cbn; by rewrite Z.mod_1_r|].
  change (Z_to_bits (S n) v) with ([Z.testbit v (Z.of_nat n)] ++ Z_to_bits n v).
  rewrite bits_to_Z_app, IH, length_Z_to_bits.
  rewrite Nat2Z.inj_succ, Z.pow_succ_r, Z.mul_comm with (n := 2) by lia.
  rewrite Z.rem_mul_r by lia. rewrite <- Z.testbit_spec' by lia.
  unfold bits_to_Z; simpl. lia.
Qed.

(** Leading zeros do not change the number. *)
Lemma bits_to_Z_leading n l : bits_to_Z (replicate n false ++ l) = bits_to_Z l.
Proof.
  rewrite bits_to_Z_app. induction n as [|n IH]; [cbn; lia|].
  rewrite replicate_S_end, bits_to_Z_snoc. simpl Z.b2z. nia.
Qed.

Definition nbit (l : list bool) (k : nat) : bool := default false (l !! k).

Lemma nbit_ge l k : (length l ≤ k)%nat → nbit l k = false.
Proof. intros. unfold nbit. by rewrite lookup_ge_None_2. Qed.
Lemma nbit_snoc l b k :
  nbit (l ++ [b]) k = if decide (k = length l) then b else nbit l k.
Proof.
  unfold nbit. case_decide as Hk.
  - subst. by rewrite lookup_app_r, Nat.sub_diag by lia.
  - destruct (decide (k < length l)%nat); [by rewrite lookup_app_l|].
    rewrite !lookup_ge_None_2; [done|lia|rewrite length_app; simpl; lia].
Qed.

Lemma testbit_bits_to_Z l (i : nat) :
  (i < length l)%nat → Z.testbit (bits_to_Z l) (len l - 1 - Z.of_nat i) = nbit l i.
Proof.
  revert i; induction l as [|b l IH] using rev_ind; intros i Hi; [simpl in Hi; lia|].
  rewrite bits_to_Z_snoc, length_app, nbit_snoc in *. simpl in *.
  case_decide; subst.
  - replace (_ - 1 - _) with 0 by lia. apply Z.testbit_0_r.
  - replace (Z.of_nat (length l + 1) - 1 - Z.of_nat i)
      with (Z.succ (len l - 1 - Z.of_nat i)) by lia.
    rewrite Z.testbit_succ_r by lia. apply IH. lia.
Qed.

Lemma testbit_high n w v : 0 ≤ v < 2 ^ w → w ≤ n → Z.testbit v n = false.
Proof.
  intros Hv Hn. destruct (decide (w < 0)); [rewrite Z.pow_neg_r in Hv by lia; lia|].
  rewrite <- (Z.mod_small v (2 ^ w)) by done. apply Z.mod_pow2_bits_high. lia.
Qed.

(** ** Bytes of a bit stream *)
Definition byte_at (l : list bool) (i : nat) : Z :=
  bits_to_Z ((λ j, nbit l (8 * i + j)) <$> seq 0 8).

Definition bytes_for (nbits : nat) : nat := ((nbits + 7) / 8)%nat.

(** The bytes of a stream, the last one padded with zero bits. *)
Definition pack (l : list bool) : bytes := byte_at l <$> seq 0 (bytes_for (length l)).

Definition unpack (bs : bytes) : list bool := bs ≫= Z_to_bits 8.

Lemma length_pack l : length (pack l) = bytes_for (length l).
Proof. unfold pack. by rewrite length_fmap, length_seq. Qed.

Lemma byte_at_bound l i : is_byte (byte_at l i).
Proof.
  pose proof (bits_to_Z_bound ((λ j, nbit l (8 * i + j)) <$> seq 0 8)) as H.
  by rewrite length_fmap, length_seq in H.
Qed.

Lemma pack_wf l : bytes_wf (pack l).
Proof. apply Forall_fmap, Forall_forall. intros i _. apply byte_at_bound. Qed.

Lemma byte_at_testbit l i n :
  (n < 8)%nat → Z.testbit (byte_at l i) (7 - Z.of_nat n) = nbit l (8 * i + n).
Proof.
  intros Hn. unfold byte_at. set (k := (λ j, nbit l (8 * i + j)) <$> seq 0 8).
  assert (length k = 8)%nat as Hk by done.
  replace (7 - Z.of_nat n) with (len k - 1 - Z.of_nat n) by (rewrite Hk; lia).
  rewrite testbit_bits_to_Z by lia. unfold nbit, k.
  rewrite list_lookup_fmap, lookup_seq_lt by lia. done.
Qed.

Lemma byte_at_ext l k i :
  (∀ n, (n < 8)%nat → nbit l (8 * i + n) = nbit k (8 * i + n)) → byte_at l i = byte_at k i.
Proof.
  intros H. unfold byte_at. f_equal. apply list_fmap_ext.
  intros j x Hx%lookup_seq. apply H. lia.
Qed.

(** Two bytes with the same bits are equal. *)
Lemma byte_ext a b :
  is_byte a → is_byte b →
  (∀ n : nat, (n < 8)%nat → Z.testbit a (7 - Z.of_nat n) = Z.testbit b (7 - Z.of_nat n)) →
  a = b.
Proof.
  intros Ha Hb H. apply Z.bits_inj'. intros n Hn. destruct (decide (n < 8)).
  - specialize (H (Z.to_nat (7 - n)) ltac:(lia)).
    by replace (7 - Z.of_nat (Z.to_nat (7 - n))) with n in H by lia.
  - rewrite !(testbit_high n 8); done || lia.
Qed.

Lemma byte_at_overflow l i : (length l ≤ 8 * i)%nat → byte_at l i = 0.
Proof.
  intros H. apply byte_ext; [apply byte_at_bound|done|].
  intros n Hn. rewrite byte_at_testbit by done. rewrite nbit_ge by lia.
  by rewrite Z.testbit_0_l.
Qed.

(** Setting bit [length l] of a byte vector that holds [l]: the effect of
    [bytes[pos / 8] |= 1 << (7 - pos % 8)]. *)
Lemma byte_at_set l q r :
  length l = (8 * q + r)%nat → (r < 8)%nat →
  Z.lor (byte_at l q) (Z.shiftl 1 (Z.of_nat (7 - r))) = byte_at (l ++ [true]) q.
Proof.
  intros Hl Hr. rewrite Z.shiftl_1_l. apply byte_ext.
  - pose proof (byte_at_bound l q) as Hb. unfold is_byte in *. split.
    + apply Z.lor_nonneg. lia.
    + apply (Z.log2_lt_cancel _ 256). rewrite Z.log2_lor by lia.
      apply Z.max_lub_lt.
      * destruct (decide (byte_at l q = 0)) as [->|]; [done|].
        apply Z.log2_lt_pow2; simpl; lia.
      * rewrite Z.log2_pow2 by lia. simpl. lia.
  - apply byte_at_bound.
  - intros n Hn. rewrite Z.lor_spec, !byte_at_testbit, nbit_snoc by done.
    rewrite Z.pow2_bits_eqb by lia. case_decide.
    + replace (_ =? _) with true by (symmetry; apply Z.eqb_eq; lia). by rewrite orb_true_r.
    + replace (_ =? _) with false by (symmetry; apply Z.eqb_neq; lia). by rewrite orb_false_r.
Qed.

Lemma set_bit_step n (l : list bool) (b : bool) :
  (length l / 8 < n)%nat →
  (if b
   then <[(length l / 8)%nat :=
            Z.lor (byte_at l (length l / 8)) (Z.shiftl 1 (Z.of_nat (7 - length l mod 8)))]>
          (byte_at l <$> seq 0 n)
   else byte_at l <$> seq 0 n) = byte_at (l ++ [b]) <$> seq 0 n.
Proof.
  intros Hn. pose proof (Nat.div_mod_eq (length l) 8) as Hd.
  pose proof (Nat.mod_upper_bound (length l) 8) as Hm.
  assert (∀ i, i ≠ (length l / 8)%nat ∨ b = false → byte_at l i = byte_at (l ++ [b]) i) as Hext.
  { intros i Hi. apply byte_at_ext. intros k Hk. rewrite nbit_snoc. case_decide as Hkl; [|done].
    destruct Hi as [Hi| ->]; [lia|]. apply nbit_ge. lia. }
  destruct b.
  - apply list_eq. intros i. rewrite !list_lookup_fmap.
    destruct (decide (i = length l / 8)%nat) as [->|Hi].
    + rewrite list_lookup_insert_eq by (rewrite length_fmap, length_seq; lia).
      rewrite lookup_seq_lt by lia. apply (f_equal Some). apply byte_at_set; [done|lia].
    + rewrite list_lookup_insert_ne, list_lookup_fmap by done.
      destruct (seq 0 n !! i) as [j|] eqn:Hj; [|done]. simpl.
      apply lookup_seq in Hj as [-> ?]. f_equal. apply Hext. left. simpl. done.
  - apply list_fmap_ext. intros i j [-> ?]%lookup_seq. apply Hext. by right.
Qed.

Lemma unpack_nil : unpack [] = [].
Proof. done. Qed.
Lemma unpack_cons b bs : unpack (b :: bs) = Z_to_bits 8 b ++ unpack bs.
Proof. done. Qed.
Lemma unpack_app bs cs : unpack (bs ++ cs) = unpack bs ++ unpack cs.
Proof. apply bind_app. Qed.

Lemma length_unpack bs : length (unpack bs) = (8 * length bs)%nat.
Proof.
  induction bs as [|b bs IH]; [done|].
  rewrite unpack_cons, length_app, IH, length_Z_to_bits. simpl. lia.
Qed.

Lemma lookup_Z_to_bits n v (i : nat) :
  (i < n)%nat → Z_to_bits n v !! i = Some (Z.testbit v (Z.of_nat n - 1 - Z.of_nat i)).
Proof.
  revert i; induction n as [|n IH]; intros i Hi; [lia|]. destruct i as [|i]; simpl.
  - do 2 f_equal; lia.
  - rewrite IH by lia. do 2 f_equal; lia.
Qed.

(** Bit [q * 8 + r] of the stream is bit [7 - r] of byte [q]. *)
Lemma lookup_unpack bs q r :
  (r < 8)%nat →
  unpack bs !! (8 * q + r)%nat = (λ b, Z.testbit b (7 - Z.of_nat r)) <$> bs !! q.
Proof.
  intros Hr. revert q; induction bs as [|b bs IH]; intros q; [done|].
  rewrite unpack_cons. destruct q as [|q].
  - rewrite lookup_app_l by (rewrite length_Z_to_bits; lia).
    rewrite lookup_Z_to_bits by lia. simpl. do 2 f_equal; lia.
  - rewrite lookup_app_r; rewrite length_Z_to_bits; [|lia].
    replace (8 * S q + r - 8)%nat with (8 * q + r)%nat by lia. by rewrite IH.
Qed.

(** Reading the bytes back yields the stream followed by its zero padding. *)
Lemma unpack_pack l :
  unpack (pack l) = l ++ replicate (8 * bytes_for (length l) - length l) false.
Proof.
  unfold bytes_for. pose proof (Nat.div_mod_eq (length l + 7) 8).
  pose proof (Nat.mod_upper_bound (length l + 7) 8).
  apply list_eq. intros k.
  pose proof (Nat.div_mod_eq k 8) as Hk. pose proof (Nat.mod_upper_bound k 8).
  generalize dependent (k mod 8)%nat. generalize dependent (k / 8)%nat.
  intros q r -> Hr. rewrite lookup_unpack by lia. unfold pack, bytes_for.
  rewrite list_lookup_fmap.
  destruct (decide (q < (length l + 7) / 8)%nat).
  - rewrite lookup_seq_lt by lia.
    change (Some (Z.testbit (byte_at l q) (7 - Z.of_nat r))
            = (l ++ replicate (8 * ((length l + 7) / 8) - length l) false) !! (8 * q + r)%nat).
    rewrite byte_at_testbit by lia. unfold nbit.
    destruct (decide (8 * q + r < length l)%nat) as [Hlt|].
    + rewrite lookup_app_l by done. by destruct (lookup_lt_is_Some_2 l _ Hlt) as [x ->].
    + rewrite lookup_app_r, lookup_replicate_2 by lia. by rewrite lookup_ge_None_2 by lia.
  - rewrite lookup_seq_ge by lia. symmetry. apply lookup_ge_None_2.
    rewrite length_app, length_replicate. lia.
Qed.
