(* ===== verification/EliasDelta.v ===== *)
(** * The Elias-delta codec of the spent-UID stream

    Model of [light-server/src/codec/elias_delta.rs]: the MSB-first bit writer
    and reader, the encoder and the decoder.  Bit and byte positions ([usize])
    are [nat]; code words are [u64] values in [Z]. *)

From S2P Require Import Prelude Bits.

(** ** Writer *)
Record BitWriter := { bw_bytes : bytes; bw_bit_len : nat }.
Definition bw_default : BitWriter := {| bw_bytes := []; bw_bit_len := 0 |}.

Definition push_bit (w : BitWriter) (bit : bool) : res BitWriter :=
  let bs := if bool_decide (bw_bit_len w mod 8 = 0)%nat
            then bw_bytes w ++ [0] else bw_bytes w in
  bs ← (if bit then
          let byte := (bw_bit_len w / 8)%nat in
          let shift := (7 - bw_bit_len w mod 8)%nat in
          b ← index bs byte;
          Ok (<[byte := Z.lor b (Z.shiftl 1 (Z.of_nat shift))]> bs)
        else Ok bs);
  Ok {| bw_bytes := bs; bw_bit_len := S (bw_bit_len w) |}.

(** [for i in (0..bits).rev() { self.push_bit(((value >> i) & 1) == 1) }]. *)
Fixpoint push_bits (w : BitWriter) (value : Z) (bits : nat) : res BitWriter :=
  match bits with
  | O => Ok w
  | S i =>
      w ← push_bit w (bool_decide (Z.land (Z.shiftr value (Z.of_nat i)) 1 = 1));
      push_bits w value i
  end.

(** [for _ in 0..n { w.push_bit(false) }]. *)
Fixpoint push_zeros (w : BitWriter) (n : nat) : res BitWriter :=
  match n with
  | O => Ok w
  | S n => w ← push_bit w false; push_zeros w n
  end.

Definition encode_one (w : BitWriter) (value : Z) : res BitWriter :=
  _ ← ensure (bool_decide (1 ≤ value)) "Elias-delta only encodes positive integers";
  let n_bits := 64 - leading_zeros 64 value in
  let len_bits := 32 - leading_zeros 32 n_bits in
  w ← push_zeros w (Z.to_nat (len_bits - 1));
  w ← push_bits w n_bits (Z.to_nat len_bits);
  if bool_decide (1 < n_bits)
  then push_bits w (Z.lxor value (Z.shiftl 1 (n_bits - 1))) (Z.to_nat (n_bits - 1))
  else Ok w.

Definition encode_elias_delta_values (values : list Z) : res bytes :=
  w ← fold_res encode_one bw_default values; Ok (bw_bytes w).

(** ** Reader *)
Record BitReader := { br_bytes : bytes; br_bit_pos : nat }.

Definition read_bit (r : BitReader) : option (bool * BitReader) :=
  if bool_decide (length (br_bytes r) * 8 ≤ br_bit_pos r)%nat then None
  else
    let byte := (br_bit_pos r / 8)%nat in
    let shift := (7 - br_bit_pos r mod 8)%nat in
    b ← br_bytes r !! byte;
    Some (bool_decide (Z.land (Z.shiftr b (Z.of_nat shift)) 1 = 1),
          {| br_bytes := br_bytes r; br_bit_pos := S (br_bit_pos r) |}).

Fixpoint read_bits_from (r : BitReader) (v : Z) (bits : nat) : option (Z * BitReader) :=
  match bits with
  | O => Some (v, r)
  | S n =>
      '(b, r) ← read_bit r;
      read_bits_from r (Z.lor (wrap 64 (Z.shiftl v 1)) (Z.b2z b)) n
  end.
Definition read_bits (r : BitReader) (bits : nat) : option (Z * BitReader) :=
  read_bits_from r 0 bits.

(** The prefix loop; it reads at most 64 bits, hence the fuel of [decode_one]. *)
Fixpoint decode_prefix (fuel : nat) (r : BitReader) (zeros : Z) : res (Z * BitReader) :=
  match fuel with
  | O => Panic "out of fuel"
  | S fuel =>
      match read_bit r with
      | Some (false, r) =>
          let zeros := zeros + 1 in
          _ ← ensure (bool_decide (zeros ≤ 63)) "invalid Elias-delta prefix";
          decode_prefix fuel r zeros
      | Some (true, r) => Ok (zeros, r)
      | None => Err "truncated Elias-delta prefix"
      end
  end.

Definition decode_one (r : BitReader) : res (Z * BitReader) :=
  '(zeros, r) ← decode_prefix 64 r 0;
  let n_bits := Z.shiftl 1 zeros in
  '(n_bits, r) ←
    (if bool_decide (0 < zeros) then
       '(low, r) ← ok_or (read_bits r (Z.to_nat zeros)) "truncated Elias-delta length";
       Ok (Z.lor n_bits low, r)
     else Ok (n_bits, r));
  _ ← ensure (bool_decide (1 ≤ n_bits) && bool_decide (n_bits ≤ 64))
        "invalid Elias-delta length";
  let tail_bits := n_bits - 1 in
  '(tail, r) ←
    (if bool_decide (tail_bits = 0) then Ok (0, r)
     else ok_or (read_bits r (Z.to_nat tail_bits)) "truncated Elias-delta value");
  Ok (Z.lor (Z.shiftl 1 tail_bits) tail, r).

Fixpoint decode_values (r : BitReader) (count : nat) : res (list Z) :=
  match count with
  | O => Ok []
  | S n => '(v, r) ← decode_one r; vs ← decode_values r n; Ok (v :: vs)
  end.
Definition decode_elias_delta_values (bs : bytes) (count : nat) : res (list Z) :=
  decode_values {| br_bytes := bs; br_bit_pos := 0 |} count.

#[global] Arguments push_bit : simpl never.
#[global] Arguments encode_one : simpl never.
#[global] Arguments read_bit : simpl never.
#[global] Arguments decode_one : simpl never.

(** ** Specification: the code word of a value as a bit list *)
Definition delta_bits (v : Z) : list bool :=
  let n := Z.log2 v + 1 in
  let l := Z.log2 n + 1 in
  replicate (Z.to_nat (l - 1)) false
    ++ Z_to_bits (Z.to_nat l) n ++ Z_to_bits (Z.to_nat (n - 1)) (v - 2 ^ (n - 1)).

Definition delta_stream (vs : list Z) : list bool := vs ≫= delta_bits.

(** ** Writer lemmas *)
Definition bw_repr (w : BitWriter) (l : list bool) : Prop :=
  bw_bit_len w = length l ∧ bw_bytes w = pack l.

Lemma bw_default_repr : bw_repr bw_default [].
Proof. done. Qed.

Lemma push_bit_repr w l b :
  bw_repr w l → ∃ w', push_bit w b = Ok w' ∧ bw_repr w' (l ++ [b]).
Proof.
  intros [Hn Hb]. unfold push_bit. rewrite Hn, Hb.
  pose proof (Nat.div_mod_eq (length l) 8). pose proof (Nat.mod_upper_bound (length l) 8).
  set (bs := if bool_decide _ then _ else _).
  assert (bs = byte_at l <$> seq 0 (S (length l / 8))) as ->.
  { subst bs. unfold pack, bytes_for. case_bool_decide as Hm.
    - rewrite seq_S, fmap_app. simpl. rewrite byte_at_overflow by lia.
      by replace ((length l + 7) / 8)%nat with (length l / 8)%nat by lia.
    - by replace ((length l + 7) / 8)%nat with (S (length l / 8)) by lia. }
  assert (pack (l ++ [b]) = byte_at (l ++ [b]) <$> seq 0 (S (length l / 8))) as Hp.
  { unfold pack, bytes_for. rewrite length_app. simpl length.
    by replace ((length l + 1 + 7) / 8)%nat with (S (length l / 8)) by lia. }
  pose proof (set_bit_step (S (length l / 8)) l b (Nat.lt_succ_diag_r _)) as Hs.
  destruct b; cbv beta iota zeta in *.
  - unfold index. rewrite list_lookup_fmap, lookup_seq_lt by lia.
    eexists; split; [done|]. split; simpl; [rewrite length_app; simpl; lia|].
    rewrite Hp. apply Hs.
  - eexists; split; [done|]. split; simpl; [rewrite length_app; simpl; lia|].
    rewrite Hp. apply Hs.
Qed.

Lemma push_zeros_repr w l n :
  bw_repr w l → ∃ w', push_zeros w n = Ok w' ∧ bw_repr w' (l ++ replicate n false).
Proof.
  revert w l; induction n as [|n IH]; intros w l Hw; cbn [push_zeros push_bits replicate Z_to_bits].
  - exists w. by rewrite app_nil_r.
  - destruct (push_bit_repr w l false Hw) as (w1 & -> & H1); rsimpl.
    destruct (IH w1 _ H1) as (w2 & -> & H2). exists w2. by rewrite <- app_assoc in H2.
Qed.

Lemma push_bits_repr w l v n :
  bw_repr w l → ∃ w', push_bits w v n = Ok w' ∧ bw_repr w' (l ++ Z_to_bits n v).
Proof.
  revert w l; induction n as [|n IH]; intros w l Hw; cbn [push_zeros push_bits replicate Z_to_bits].
  - exists w. by rewrite app_nil_r.
  - rewrite shiftr_land_1 by lia.
    destruct (push_bit_repr w l (Z.testbit v (Z.of_nat n)) Hw) as (w1 & -> & H1); rsimpl.
    destruct (IH w1 _ H1) as (w2 & -> & H2). exists w2. by rewrite <- app_assoc in H2.
Qed.

Lemma n_bits_log2 v : 1 ≤ v → 64 - leading_zeros 64 v = Z.log2 v + 1.
Proof. intros. unfold leading_zeros. rewrite bool_decide_false by lia. lia. Qed.
Lemma len_bits_log2 n : 1 ≤ n → 32 - leading_zeros 32 n = Z.log2 n + 1.
Proof. intros. unfold leading_zeros. rewrite bool_decide_false by lia. lia. Qed.

Lemma encode_one_repr w l v :
  1 ≤ v → bw_repr w l → ∃ w', encode_one w v = Ok w' ∧ bw_repr w' (l ++ delta_bits v).
Proof.
  intros Hv Hw. unfold encode_one. rewrite (bool_decide_true (1 ≤ v)) by lia. rsimpl.
  pose proof (Z.log2_nonneg v). rewrite n_bits_log2 by done. rewrite len_bits_log2 by lia.
  set (n := Z.log2 v + 1). set (k := Z.log2 n + 1).
  destruct (push_zeros_repr w l (Z.to_nat (k - 1)) Hw) as (w1 & -> & H1); rsimpl.
  destruct (push_bits_repr w1 _ n (Z.to_nat k) H1) as (w2 & -> & H2); rsimpl.
  pose proof (Z.log2_spec v ltac:(lia)) as Hlog.
  case_bool_decide.
  - rewrite Z.shiftl_1_l, lxor_pow2_sub.
    + destruct (push_bits_repr w2 _ (v - 2 ^ (n - 1)) (Z.to_nat (n - 1)) H2) as (w3 & -> & H3).
      exists w3. split; [done|]. unfold delta_bits. fold n. fold k. by rewrite <- !app_assoc in H3.
    + lia.
    + unfold n. replace (Z.log2 v + 1 - 1) with (Z.log2 v) by lia. by rewrite Z.add_1_r.
  - exists w2. split; [done|]. unfold delta_bits. fold n. fold k.
    replace (n - 1) with 0 by lia. simpl Z_to_bits. rewrite app_nil_r.
    by rewrite <- !app_assoc in H2.
Qed.

Lemma encode_values_repr w l vs :
  Forall (λ v, 1 ≤ v) vs → bw_repr w l →
  ∃ w', fold_res encode_one w vs = Ok w' ∧ bw_repr w' (l ++ delta_stream vs).
Proof.
  intros Hvs. revert w l; induction Hvs as [|v vs Hv Hvs IH]; intros w l Hw; simpl.
  - exists w. by rewrite app_nil_r.
  - destruct (encode_one_repr w l v Hv Hw) as (w1 & -> & H1); rsimpl.
    destruct (IH w1 _ H1) as (w2 & -> & H2). exists w2. by rewrite <- app_assoc in H2.
Qed.

(** The encoder writes exactly the packed code words. *)
Lemma encode_elias_delta_spec vs :
  Forall (λ v, 1 ≤ v) vs → encode_elias_delta_values vs = Ok (pack (delta_stream vs)).
Proof.
  intros Hvs. unfold encode_elias_delta_values.
  destruct (encode_values_repr _ _ vs Hvs bw_default_repr) as (w & -> & _ & Hb).
  simpl. by rewrite Hb.
Qed.

Lemma encode_elias_delta_zero vs :
  0 ∈ vs → Forall (λ v, 0 ≤ v) vs →
  encode_elias_delta_values vs = Err "Elias-delta only encodes positive integers".
Proof.
  intros (pre & post & -> & Hpre)%list_elem_of_split_l Hvs.
  unfold encode_elias_delta_values. rewrite fold_res_app.
  assert (Forall (λ v, 1 ≤ v) pre) as Hp.
  { apply Forall_app in Hvs as [Hvs _]. rewrite Forall_forall in *. intros v Hv.
    specialize (Hvs v Hv). destruct (decide (v = 0)) as [->|]; [done|lia]. }
  by destruct (encode_values_repr _ _ pre Hp bw_default_repr) as (w & -> & _).
Qed.

(** ** Reader lemmas *)
Definition rbits (r : BitReader) : list bool := drop (br_bit_pos r) (unpack (br_bytes r)).
Definition adv (r : BitReader) (n : nat) : BitReader :=
  {| br_bytes := br_bytes r; br_bit_pos := (br_bit_pos r + n)%nat |}.

Lemma rbits_adv r n : rbits (adv r n) = drop n (rbits r).
Proof. unfold rbits, adv. simpl. by rewrite drop_drop. Qed.
Lemma adv_adv r n m : adv (adv r n) m = adv r (n + m).
Proof. unfold adv. simpl. f_equal. lia. Qed.

Lemma read_bit_spec r :
  read_bit r = match rbits r with [] => None | b :: _ => Some (b, adv r 1) end.
Proof.
  unfold read_bit, rbits. case_bool_decide as Hp.
  - rewrite drop_ge by (rewrite length_unpack; lia). done.
  - set (p := br_bit_pos r) in *.
    pose proof (Nat.div_mod_eq p 8) as Hd. pose proof (Nat.mod_upper_bound p 8) as Hm.
    destruct (lookup_lt_is_Some_2 (br_bytes r) (p / 8)) as [b Hb]; [lia|].
    pose proof (lookup_unpack (br_bytes r) (p / 8) (p mod 8) ltac:(lia)) as Hl.
    rewrite <- Hd, Hb in Hl. cbn [fmap option_fmap option_map] in Hl.
    rewrite (drop_S _ _ _ Hl), Hb. rsimpl.
    rewrite shiftr_land_1 by lia. unfold adv. fold p. rewrite Nat.add_1_r.
    do 3 f_equal. f_equal. lia.
Qed.

Lemma lor_double v b : Z.lor (2 * v) (Z.b2z b) = 2 * v + Z.b2z b.
Proof.
  pose proof (Z.add_lor_land (2 * v) (Z.b2z b)) as H. destruct b; simpl in *.
  - rewrite land_1_r in H. lia.
  - rewrite Z.land_0_r in H. lia.
Qed.

Lemma read_bits_from_spec r v l rest :
  0 ≤ v → (v + 1) * 2 ^ len l ≤ 2 ^ 64 → rbits r = l ++ rest →
  read_bits_from r v (length l) = Some (v * 2 ^ len l + bits_to_Z l, adv r (length l)).
Proof.
  revert r v; induction l as [|b l IH]; intros r v Hv Hb Hr; cbn [read_bits_from length].
  - unfold adv. rewrite Nat.add_0_r, Z.pow_0_r. destruct r; simpl. do 2 f_equal.
    unfold bits_to_Z; simpl. lia.
  - rewrite read_bit_spec, Hr. cbn [app]. rsimpl.
    cbn [length] in *. rewrite Nat2Z.inj_succ, Z.pow_succ_r in * by lia.
    assert (1 ≤ 2 ^ len l) by (pose proof (Z.pow_pos_nonneg 2 (len l)); lia).
    rewrite wrap_small, Z.shiftl_mul_pow2 by (rewrite ?Z.shiftl_mul_pow2; unfold in_width; nia).
    change (2 ^ 1) with 2. rewrite (Z.mul_comm v 2), lor_double.
    rewrite IH; rewrite ?adv_adv.
    + f_equal. f_equal. change (b :: l) with ([b] ++ l). rewrite bits_to_Z_app.
      unfold bits_to_Z at 2. simpl. lia.
    + destruct b; simpl; lia.
    + destruct b; simpl; nia.
    + by rewrite rbits_adv, Hr.
Qed.

Lemma read_bits_spec r l rest :
  (length l ≤ 64)%nat → rbits r = l ++ rest →
  read_bits r (length l) = Some (bits_to_Z l, adv r (length l)).
Proof.
  intros Hl Hr. unfold read_bits. rewrite (read_bits_from_spec r 0 l rest); [| lia | |done].
  - by rewrite Z.mul_0_l.
  - rewrite Z.mul_1_l. apply Z.pow_le_mono_r; lia.
Qed.

Lemma decode_prefix_spec fuel r z k rest :
  (k < fuel)%nat → z + Z.of_nat k ≤ 63 →
  rbits r = replicate k false ++ true :: rest →
  decode_prefix fuel r z = Ok (z + Z.of_nat k, adv r (S k)).
Proof.
  revert fuel r z; induction k as [|k IH]; intros fuel r z Hf Hz Hr;
    (destruct fuel as [|fuel]; [lia|]); cbn [decode_prefix];
    rewrite read_bit_spec, Hr; cbn [replicate app].
  - by rewrite Z.add_0_r.
  - rewrite bool_decide_true by lia. rsimpl. rewrite IH.
    + rewrite adv_adv. by replace (z + 1 + Z.of_nat k) with (z + Z.of_nat (S k)) by lia.
    + lia.
    + lia.
    + by rewrite rbits_adv, Hr.
Qed.

Lemma rbits_adv_app r l rest : rbits r = l ++ rest → rbits (adv r (length l)) = rest.
Proof. intros H. by rewrite rbits_adv, H, drop_app_length. Qed.

(** A number with top bit [k] is that bit and its [k] low bits. *)
Lemma top_bit k n : 0 ≤ k → 2 ^ k ≤ n < 2 ^ (k + 1) →
  Z.testbit n k = true ∧ n mod 2 ^ k = n - 2 ^ k.
Proof.
  intros Hk Hn. rewrite Z.pow_add_r in Hn by lia. change (2 ^ 1) with 2 in Hn.
  assert (n / 2 ^ k = 1) as Hq by (symmetry; apply (Z.div_unique_pos n (2 ^ k) 1 (n - 2 ^ k)); lia).
  split; [apply Z.testbit_true; [done|]; by rewrite Hq|].
  rewrite Z.mod_eq, Hq by lia. lia.
Qed.

Lemma lor_top_bits k n :
  2 ^ Z.of_nat k ≤ n < 2 ^ (Z.of_nat k + 1) →
  Z.lor (2 ^ Z.of_nat k) (bits_to_Z (Z_to_bits k n)) = n.
Proof.
  intros Hn. destruct (top_bit (Z.of_nat k) n ltac:(lia) Hn) as [_ Hm].
  rewrite bits_to_Z_to_bits, lor_pow2_add; [lia|]. apply Z.mod_pos_bound. lia.
Qed.

Lemma log2_bounds v w : 1 ≤ v < 2 ^ w → 0 ≤ Z.log2 v < w ∧ 2 ^ Z.log2 v ≤ v < 2 ^ (Z.log2 v + 1).
Proof.
  intros Hv. pose proof (Z.log2_nonneg v). pose proof (Z.log2_spec v ltac:(lia)) as Hs.
  assert (Z.log2 v < w) by (apply Z.log2_lt_pow2; lia). rewrite <- Z.add_1_r in Hs. lia.
Qed.

(** The code word: the prefix with its stop bit, the rest of the length field
    and the tail. *)
Lemma delta_bits_eq v (z t : nat) :
  1 ≤ v → Z.of_nat t = Z.log2 v → Z.of_nat z = Z.log2 (Z.of_nat t + 1) →
  delta_bits v = (replicate z false ++ [true]) ++ Z_to_bits z (Z.of_nat t + 1)
                   ++ Z_to_bits t (v - 2 ^ Z.of_nat t).
Proof.
  intros Hv Ht Hz. unfold delta_bits. rewrite <- Ht, <- Hz.
  replace (Z.to_nat (Z.of_nat z + 1 - 1)) with z by lia.
  replace (Z.to_nat (Z.of_nat z + 1)) with (S z) by lia.
  replace (Z.to_nat (Z.of_nat t + 1 - 1)) with t by lia.
  replace (Z.of_nat t + 1 - 1) with (Z.of_nat t) by lia.
  cbn [Z_to_bits]. pose proof (Z.log2_spec (Z.of_nat t + 1) ltac:(lia)) as Hs.
  rewrite <- Hz, <- Z.add_1_r in Hs.
  destruct (top_bit (Z.of_nat z) (Z.of_nat t + 1) ltac:(lia) ltac:(lia)) as [-> _].
  by rewrite <- !app_assoc.
Qed.

Lemma read_tail r t v rest :
  (t ≤ 63)%nat → 2 ^ Z.of_nat t ≤ v < 2 ^ (Z.of_nat t + 1) →
  rbits r = Z_to_bits t (v - 2 ^ Z.of_nat t) ++ rest →
  (if bool_decide (Z.of_nat t = 0) then Ok (0, r)
   else ok_or (read_bits r t) "truncated Elias-delta value") = Ok (v - 2 ^ Z.of_nat t, adv r t).
Proof.
  intros Ht Hv Hr. rewrite Z.pow_add_r in Hv by lia. change (2 ^ 1) with 2 in Hv.
  case_bool_decide as H0.
  - assert (t = 0%nat) as -> by lia. change (2 ^ Z.of_nat 0) with 1 in *.
    assert (v = 1) as -> by lia. unfold adv. rewrite Nat.add_0_r. by destruct r.
  - pose proof (length_Z_to_bits t (v - 2 ^ Z.of_nat t)) as Hl.
    apply read_bits_spec in Hr; [|lia]. rewrite Hl in Hr. rewrite Hr. rsimpl.
    by rewrite bits_to_Z_to_bits, Z.mod_small by lia.
Qed.

Lemma read_length r z n rest :
  (z ≤ 63)%nat → 2 ^ Z.of_nat z ≤ n < 2 ^ (Z.of_nat z + 1) →
  rbits r = Z_to_bits z n ++ rest →
  (if bool_decide (0 < Z.of_nat z) then
     '(low, r) ← ok_or (read_bits r z) "truncated Elias-delta length";
     Ok (Z.lor (2 ^ Z.of_nat z) low, r)
   else Ok (2 ^ Z.of_nat z, r)) = Ok (n, adv r z).
Proof.
  intros Hz Hn Hr. case_bool_decide as H0.
  - pose proof (length_Z_to_bits z n) as Hl.
    apply read_bits_spec in Hr; [|lia]. rewrite Hl in Hr. rewrite Hr. rsimpl.
    by rewrite lor_top_bits by done.
  - assert (z = 0%nat) as -> by lia. change (2 ^ Z.of_nat 0) with 1 in *.
    change (2 ^ (Z.of_nat 0 + 1)) with 2 in *. assert (n = 1) as -> by lia.
    unfold adv. rewrite Nat.add_0_r. by destruct r.
Qed.

Lemma decode_one_spec r v rest :
  1 ≤ v < 2 ^ 64 → rbits r = delta_bits v ++ rest →
  decode_one r = Ok (v, adv r (length (delta_bits v))).
Proof.
  intros Hv Hr. destruct (log2_bounds v 64 Hv) as [Ht Hvt].
  destruct (log2_bounds (Z.log2 v + 1) 7) as [Hz Htz]; [lia|].
  destruct (Z_of_nat_complete (Z.log2 v)) as [t Et]; [lia|]. rewrite Et in *.
  destruct (Z_of_nat_complete (Z.log2 (Z.of_nat t + 1))) as [z Ez]; [lia|]. rewrite Ez in *.
  rewrite (delta_bits_eq v z t) in Hr |- * by lia.
  rewrite <- !app_assoc in Hr. unfold decode_one.
  rewrite (decode_prefix_spec 64 r 0 z _ ltac:(lia) ltac:(lia) Hr). rsimpl.
  rewrite app_assoc in Hr. apply rbits_adv_app in Hr as Hr1.
  rewrite length_app, length_replicate in Hr1. cbn [length] in Hr1. rewrite Nat.add_1_r in Hr1.
  rewrite Z.add_0_l, Z.shiftl_1_l, Nat2Z.id.
  rewrite (read_length _ z (Z.of_nat t + 1) _ ltac:(lia) Htz Hr1). rsimpl.
  rewrite (bool_decide_true (1 ≤ _)), (bool_decide_true (_ ≤ 64)) by lia. cbn [andb]. rsimpl.
  replace (Z.of_nat t + 1 - 1) with (Z.of_nat t) by lia.
  apply rbits_adv_app in Hr1 as Hr2. rewrite length_Z_to_bits in Hr2.
  rewrite Nat2Z.id, (read_tail _ t v _ ltac:(lia) Hvt Hr2). rsimpl.
  rewrite Z.pow_add_r in Hvt by lia. change (2 ^ 1) with 2 in Hvt.
  rewrite Z.shiftl_1_l, lor_pow2_add, !adv_adv by lia.
  rewrite !length_app, length_replicate, !length_Z_to_bits. cbn [length].
  f_equal. f_equal; [lia|]. f_equal. lia.
Qed.

Lemma decode_values_spec r vs rest :
  Forall (λ v, 1 ≤ v < 2 ^ 64) vs → rbits r = delta_stream vs ++ rest →
  decode_values r (length vs) = Ok vs.
Proof.
  intros Hvs. revert r. induction Hvs as [|v vs Hv Hvs IH]; intros r Hr; [done|].
  cbn [decode_values length]. change (delta_stream (v :: vs)) with (delta_bits v ++ delta_stream vs) in Hr.
  rewrite <- app_assoc in Hr. rewrite (decode_one_spec _ _ _ Hv Hr). rsimpl.
  by rewrite (IH _ (rbits_adv_app _ _ _ Hr)).
Qed.

Lemma read_bits_from_bound r v n v' r' :
  0 ≤ v → (v + 1) * 2 ^ Z.of_nat n ≤ 2 ^ 64 →
  read_bits_from r v n = Some (v', r') →
  v * 2 ^ Z.of_nat n ≤ v' < (v + 1) * 2 ^ Z.of_nat n.
Proof.
  revert r v; induction n as [|n IH]; intros r v Hv Hb H; cbn [read_bits_from] in H.
  - injection H as <- <-. change (2 ^ Z.of_nat 0) with 1. lia.
  - rewrite read_bit_spec in H. destruct (rbits r) as [|b l]; [done|]. cbn in H.
    rewrite Nat2Z.inj_succ, Z.pow_succ_r in * by lia.
    assert (1 ≤ 2 ^ Z.of_nat n) by (pose proof (Z.pow_pos_nonneg 2 (Z.of_nat n)); lia).
    rewrite wrap_small, Z.shiftl_mul_pow2 in H by (rewrite ?Z.shiftl_mul_pow2; unfold in_width; nia).
    change (2 ^ 1) with 2 in H. rewrite (Z.mul_comm v 2), lor_double in H.
    apply IH in H; destruct b; simpl in *; nia.
Qed.

Lemma read_bits_bound r n v' r' :
  (n ≤ 64)%nat → read_bits r n = Some (v', r') → 0 ≤ v' < 2 ^ Z.of_nat n.
Proof.
  intros Hn H. apply read_bits_from_bound in H; [lia|lia|].
  rewrite Z.mul_1_l. apply Z.pow_le_mono_r; lia.
Qed.

(** The fuel of the prefix loop never runs out. *)
Lemma decode_prefix_total fuel r z :
  0 ≤ z → Z.of_nat fuel = 64 - z → (0 < fuel)%nat →
  match decode_prefix fuel r z with
  | Ok (z', _) => 0 ≤ z' ≤ 63 | Err _ => True | Panic _ => False
  end.
Proof.
  revert r z; induction fuel as [|fuel IH]; intros r z Hz Hf H0; [lia|]. cbn [decode_prefix].
  destruct (read_bit r) as [[[] r']|]; [lia| |done].
  case_bool_decide; rsimpl; [|done]. apply IH; lia.
Qed.

Lemma decode_one_total r :
  match decode_one r with
  | Ok (v, _) => 1 ≤ v < 2 ^ 64 | Err _ => True | Panic _ => False
  end.
Proof.
  unfold decode_one. pose proof (decode_prefix_total 64 r 0 ltac:(lia) ltac:(lia) ltac:(lia)) as Hp.
  destruct (decode_prefix 64 r 0) as [[z r1]| |]; rsimpl; [|done|done].
  set (len_read := if bool_decide (0 < z) then _ else _).
  assert (∀ p, len_read ≠ Panic p) as Hl.
  { intros p. subst len_read. case_bool_decide; [|done]. by destruct (read_bits _ _) as [[]|]. }
  destruct len_read as [[n r2]|e|p] eqn:E; rsimpl; [|done|by destruct (Hl p)].
  destruct (bool_decide (1 ≤ n) && bool_decide (n ≤ 64)) eqn:Hn; rsimpl; [|done].
  apply andb_prop in Hn as [H1%bool_decide_eq_true_1 H2%bool_decide_eq_true_1].
  assert (2 * 2 ^ (n - 1) ≤ 2 ^ 64) as Hle.
  { rewrite <- Z.pow_succ_r by lia. apply Z.pow_le_mono_r; lia. }
  assert (0 < 2 ^ (n - 1)) by (apply Z.pow_pos_nonneg; lia).
  assert (∀ t, 0 ≤ t < 2 ^ (n - 1) → 1 ≤ Z.lor (Z.shiftl 1 (n - 1)) t < 2 ^ 64) as Ht.
  { intros t Ht. rewrite Z.shiftl_1_l, lor_pow2_add by done. lia. }
  case_bool_decide; rsimpl; [by apply Ht; lia|].
  destruct (read_bits r2 (Z.to_nat (n - 1))) as [[t r3]|] eqn:Er; rsimpl; [|done].
  apply read_bits_bound in Er; [|lia]. apply Ht. by rewrite Z2Nat.id in Er by lia.
Qed.

Lemma decode_elias_delta_spec vs rest :
  Forall (λ v, 1 ≤ v < 2 ^ 64) vs →
  decode_elias_delta_values (pack (delta_stream vs) ++ rest) (length vs) = Ok vs.
Proof.
  intros Hvs. unfold decode_elias_delta_values. eapply decode_values_spec; [done|].
  unfold rbits. cbn [br_bit_pos br_bytes drop]. rewrite unpack_app, unpack_pack.
  by rewrite <- app_assoc.
Qed.

Lemma decode_values_total r n :
  match decode_values r n with
  | Ok vs => length vs = n ∧ Forall (λ v, 1 ≤ v < 2 ^ 64) vs
  | Err _ => True
  | Panic _ => False
  end.
Proof.
  revert r. induction n as [|n IH]; intros r; cbn [decode_values]; [done|].
  pose proof (decode_one_total r) as Hd.
  destruct (decode_one r) as [[v r']| |]; rsimpl; [|done|done].
  specialize (IH r'). destruct (decode_values r' n) as [vs| |]; rsimpl; [|done|done].
  destruct IH as [<- ?]. split; [done|by constructor].
Qed.

(** ** Properties *)

(** C34: the spent-UID codec loses nothing.  Every stream of positive [u64]
    values is accepted by the encoder, which emits exactly the packed code
    words, and the decoder asked for that many values returns them, whatever
    bytes follow the stream. *)
Theorem elias_delta_roundtrip (vs : list Z) (rest : bytes) :
  Forall (λ v, 1 ≤ v < 2 ^ 64) vs →
  ∃ bs, encode_elias_delta_values vs = Ok bs ∧ bytes_wf bs ∧
    length bs = bytes_for (length (delta_stream vs)) ∧
    decode_elias_delta_values (bs ++ rest) (length vs) = Ok vs.
Proof.
  intros Hvs. exists (pack (delta_stream vs)). split_and!.
  - apply encode_elias_delta_spec. by eapply Forall_impl; [exact Hvs|]; intros v []%id.
  - apply pack_wf.
  - apply length_pack.
  - by apply decode_elias_delta_spec.
Qed.

Lemma elias_delta_roundtrip_witness :
  ∃ bs, encode_elias_delta_values [1; 17; 65535; 2 ^ 64 - 1] = Ok bs ∧ bytes_wf bs ∧
    length bs = bytes_for (length (delta_stream [1; 17; 65535; 2 ^ 64 - 1])) ∧
    decode_elias_delta_values (bs ++ [255]) 4 = Ok [1; 17; 65535; 2 ^ 64 - 1].
Proof.
  apply (elias_delta_roundtrip [1; 17; 65535; 2 ^ 64 - 1] [255]).
  repeat (constructor; [lia|]). constructor.
Defined.

(** The decoder is total on hostile input: on any bytes and any count it
    returns the requested number of values, each a positive [u64], or an error;
    it never panics and its prefix loop never runs out of fuel. *)
Theorem decode_elias_delta_total (bs : bytes) (count : nat) :
  match decode_elias_delta_values bs count with
  | Ok vs => length vs = count ∧ Forall (λ v, 1 ≤ v < 2 ^ 64) vs
  | Err _ => True
  | Panic _ => False
  end.
Proof. apply decode_values_total. Qed.
