(* ===== verification/Leb128.v ===== *)
(** * The LEB128 codec

    Model of [light-server/src/codec/leb128.rs].  Values are [u64]; a value
    takes at most ten bytes, which is the fuel of both loops. *)

From S2P Require Import Prelude.

(** The [loop] of [encode_one]: seven bits per byte, low bits first, the top
    bit of a byte set when more follow. *)
Fixpoint encode_loop (fuel : nat) (value : Z) (out : bytes) : bytes :=
  match fuel with
  | O => out
  | S fuel =>
      let byte := Z.land value 127 in
      let value := Z.shiftr value 7 in
      let byte := if bool_decide (value ≠ 0) then Z.lor byte 128 else byte in
      let out := out ++ [byte] in
      if bool_decide (value = 0) then out else encode_loop fuel value out
  end.
Definition encode_one (value : Z) (out : bytes) : bytes := encode_loop 10 value out.

Definition encode_leb128_values (values : list Z) : bytes :=
  foldl (λ out v, encode_one v out) [] values.

(** The inner [loop] of the decoder at read position [i]. *)
Fixpoint decode_loop (fuel : nat) (bs : bytes) (i : nat) (shift value : Z) : res (Z * nat) :=
  match fuel with
  | O => Panic "out of fuel"
  | S fuel =>
      _ ← ensure (bool_decide (i < length bs)%nat) "truncated LEB128 stream";
      byte ← index bs i;
      let i := S i in
      let value := Z.lor value (wrap 64 (Z.shiftl (Z.land byte 127) shift)) in
      if bool_decide (Z.land byte 128 = 0) then Ok (value, i)
      else
        let shift := shift + 7 in
        _ ← ensure (bool_decide (shift < 64)) "LEB128 value is too large";
        decode_loop fuel bs i shift value
  end.

Fixpoint decode_values (bs : bytes) (i count : nat) : res (list Z) :=
  match count with
  | O => Ok []
  | S n => '(v, i) ← decode_loop 10 bs i 0 0; vs ← decode_values bs i n; Ok (v :: vs)
  end.
Definition decode_leb128_values (bs : bytes) (count : nat) : res (list Z) :=
  decode_values bs 0 count.

#[global] Arguments encode_one : simpl never.

(** ** Specification: the bytes of one value *)
Fixpoint leb_bytes (fuel : nat) (v : Z) : bytes :=
  match fuel with
  | O => []
  | S fuel => if bool_decide (v < 128) then [v] else (v mod 128 + 128) :: leb_bytes fuel (v / 128)
  end.

Lemma land_127 v : Z.land v 127 = v mod 128.
Proof. change 127 with (Z.ones 7). by rewrite Z.land_ones. Qed.
Lemma shiftr_7 v : Z.shiftr v 7 = v / 128.
Proof. by rewrite Z.shiftr_div_pow2. Qed.
Lemma lor_128 x : 0 ≤ x < 128 → Z.lor x 128 = x + 128.
Proof. intros. rewrite Z.lor_comm. rewrite (Z.add_comm x). by apply (lor_pow2_add 7 x). Qed.
Lemma land_128_low x : 0 ≤ x < 128 → Z.land x 128 = 0.
Proof.
  intros Hx. rewrite Z.land_comm. pose proof (Z.add_lor_land 128 x) as H.
  assert (Z.lor 128 x = 128 + x) as E by (apply (lor_pow2_add 7 x); lia). lia.
Qed.
Lemma land_128_high x : 0 ≤ x < 128 → Z.land (x + 128) 128 = 128.
Proof.
  intros Hx. rewrite <- lor_128 by done. rewrite Z.land_lor_distr_l, land_128_low by done. done.
Qed.

Lemma encode_loop_spec fuel v out :
  (0 < fuel)%nat → 0 ≤ v < 128 ^ Z.of_nat fuel →
  encode_loop fuel v out = out ++ leb_bytes fuel v.
Proof.
  revert v out; induction fuel as [|fuel IH]; intros v out Hf Hv; [lia|].
  cbn [encode_loop leb_bytes]. rewrite land_127, shiftr_7.
  rewrite Nat2Z.inj_succ, Z.pow_succ_r in Hv by lia.
  destruct (decide (v < 128)).
  - rewrite Z.div_small, Z.mod_small, (bool_decide_true (v < 128)) by lia.
    by rewrite (bool_decide_false (0 ≠ 0)), (bool_decide_true (0 = 0)) by lia.
  - rewrite (bool_decide_true (_ ≠ 0)), (bool_decide_false (_ = 0)), (bool_decide_false (v < 128)) by lia.
    destruct fuel as [|fuel]; [change (128 ^ Z.of_nat 0) with 1 in Hv; lia|].
    rewrite IH, lor_128, <- app_assoc by lia. done.
Qed.

Lemma leb_encode_values_spec vs out :
  Forall (in_width 64) vs →
  foldl (λ out v, encode_one v out) out vs = out ++ (vs ≫= leb_bytes 10).
Proof.
  intros Hvs. revert out. induction Hvs as [|v vs Hv Hvs IH]; intros out; cbn [foldl].
  - by rewrite app_nil_r.
  - rewrite IH. unfold encode_one, in_width in *. rewrite encode_loop_spec; [|lia|].
    + by rewrite <- app_assoc.
    + change (128 ^ Z.of_nat 10) with (2 ^ 70). lia.
Qed.

(** The decoder on the bytes of a value [v], of which [acc] holds the bits
    below [shift] already read. *)
Lemma decode_loop_spec fuel bs pre rest v acc s :
  (0 < fuel)%nat → bs = pre ++ leb_bytes fuel v ++ rest →
  0 ≤ v < 128 ^ Z.of_nat fuel → 0 ≤ s → s + 7 * Z.of_nat fuel ≤ 70 →
  0 ≤ acc < 2 ^ s → v * 2 ^ s < 2 ^ 64 →
  decode_loop fuel bs (length pre) s acc = Ok (acc + v * 2 ^ s, (length pre + length (leb_bytes fuel v))%nat).
Proof.
  revert pre v acc s; induction fuel as [|fuel IH]; intros pre v acc s Hf Hbs Hv Hs Hfs Hacc Hm; [lia|].
  assert (0 < 2 ^ s) by (apply Z.pow_pos_nonneg; lia).
  cbn [decode_loop leb_bytes] in *. rewrite Nat2Z.inj_succ, Z.pow_succ_r in Hv by lia.
  assert (∀ x, 0 ≤ x → x * 2 ^ s < 2 ^ 64 →
    Z.lor acc (wrap 64 (Z.shiftl x s)) = acc + x * 2 ^ s) as Hlor.
  { intros x Hx Hxs. rewrite wrap_small, Z.shiftl_mul_pow2 by (rewrite ?Z.shiftl_mul_pow2; unfold in_width; nia).
    pose proof (Z.add_lor_land acc (x * 2 ^ s)) as Ha.
    enough (Z.land acc (x * 2 ^ s) = 0) by lia.
    apply Z.bits_inj'. intros n Hn. rewrite Z.land_spec, Z.testbit_0_l.
    destruct (decide (n < s)).
    - by rewrite Z.mul_pow2_bits_low, andb_false_r by done.
    - rewrite <- (Z.mod_small acc (2 ^ s)) by done. by rewrite Z.mod_pow2_bits_high by lia. }
  revert Hbs. destruct (bool_decide_reflect (v < 128)) as [Hv128|Hv128]; intros Hbs; cbn [app] in Hbs; subst bs;
    rewrite (bool_decide_true (_ < length _)%nat) by (rewrite length_app; simpl; lia).
  - unfold index. rewrite list_lookup_middle by done. rsimpl.
    rewrite land_127, Z.mod_small, land_128_low, bool_decide_true, Hlor by lia.
    by rewrite Nat.add_1_r.
  - unfold index. rewrite list_lookup_middle by done. rsimpl.
    pose proof (Z.mod_pos_bound v 128). rewrite land_127.
    replace ((v mod 128 + 128) mod 128) with (v mod 128) by lia.
    rewrite land_128_high by lia. rewrite (bool_decide_false (128 = 0)) by lia.
    destruct fuel as [|fuel]; [change (128 ^ Z.of_nat 0) with 1 in Hv; lia|].
    assert (2 ^ (s + 7) = 128 * 2 ^ s) as Hs7 by (rewrite Z.pow_add_r by lia; lia).
    rewrite Hlor by nia.
    assert (s + 7 < 64).
    { destruct (decide (s + 7 < 64)); [done|]. assert (2 ^ 64 ≤ 2 ^ (s + 7)) by (apply Z.pow_le_mono_r; lia). nia. }
    rewrite bool_decide_true by done. rsimpl.
    replace (S (length pre)) with (length (pre ++ [v mod 128 + 128])) by (rewrite length_app; simpl; lia).
    rewrite (IH (pre ++ [v mod 128 + 128]) (v / 128) (acc + v mod 128 * 2 ^ s) (s + 7)).
    + rewrite length_app, Hs7. cbn [length].
      replace (acc + v mod 128 * 2 ^ s + v / 128 * (128 * 2 ^ s)) with (acc + v * 2 ^ s) by nia.
      by replace (length pre + 1 + length (leb_bytes (S fuel) (v / 128)))%nat
        with (length pre + S (length (leb_bytes (S fuel) (v / 128))))%nat by lia.
    + lia.
    + by rewrite <- app_assoc.
    + lia.
    + lia.
    + lia.
    + rewrite Hs7. nia.
    + rewrite Hs7. nia.
Qed.

Lemma leb_decode_values_spec bs pre rest vs :
  Forall (in_width 64) vs → bs = pre ++ (vs ≫= leb_bytes 10) ++ rest →
  decode_values bs (length pre) (length vs) = Ok vs.
Proof.
  intros Hvs. revert pre. induction Hvs as [|v vs Hv Hvs IH]; intros pre Hbs; [done|].
  cbn [decode_values length]. cbn in Hbs. rewrite <- app_assoc in Hbs.
  unfold in_width in Hv. change (2 ^ 64) with 18446744073709551616 in Hv.
  rewrite (decode_loop_spec 10 bs pre _ v 0 0 ltac:(lia) Hbs); [|lia..]. rsimpl.
  rewrite <- length_app, (IH (pre ++ leb_bytes 10 v)) by (by rewrite <- app_assoc).
  rsimpl. do 2 f_equal. lia.
Qed.

(** LEB128 round trip.  Decoding the encoding of any [u64] values, with any
    bytes after it, returns the values. *)
Theorem leb128_roundtrip (vs : list Z) (rest : bytes) :
  Forall (in_width 64) vs →
  decode_leb128_values (encode_leb128_values vs ++ rest) (length vs) = Ok vs.
Proof.
  intros Hvs. unfold decode_leb128_values, encode_leb128_values.
  rewrite leb_encode_values_spec by done. by apply (leb_decode_values_spec _ [] rest).
Qed.

Lemma leb128_roundtrip_witness :
  decode_leb128_values (encode_leb128_values [0; 127; 128; 2 ^ 64 - 1] ++ [7]) 4
  = Ok [0; 127; 128; 2 ^ 64 - 1].
Proof.
  apply (leb128_roundtrip [0; 127; 128; 2 ^ 64 - 1] [7]).
  repeat (constructor; [vm_compute; split; congruence|]). constructor.
Defined.

(** The decoder's size check is too weak.  The ten-byte encoding of
    [2^70 - 1], which no [u64] holds, is not rejected with "LEB128 value is too
    large": the high bits are dropped and [2^64 - 1] is returned. *)
Theorem leb128_oversized_accepted :
  decode_leb128_values (replicate 9 255 ++ [127]) 1 = Ok [2 ^ 64 - 1] ∧
  leb_bytes 10 (2 ^ 70 - 1) = replicate 9 255 ++ [127].
Proof. split; vm_compute; reflexivity. Qed.
