(* ===== verification/Helper.v ===== *)
(** * Fixed-size byte readers

    Model of [light-server/src/helper.rs] and of the byte-array newtypes of
    [light-server/src/types.rs].  [BlockHashBytes], [TxidBytes] and [TxTweak]
    wrap arrays of 32, 32 and 33 bytes; the model keeps the bytes and states the
    length where it matters. *)

From S2P Require Import Prelude.

(** [BlockHashBytes], [TxidBytes]: [byte32_type!]; [TxTweak]. *)
Definition array_wf (n : nat) (bs : bytes) : Prop := length bs = n ∧ bytes_wf bs.
#[export] Instance array_wf_dec n bs : Decision (array_wf n bs).
Proof. unfold array_wf. apply _. Defined.
Abbreviation hash_wf := (array_wf 32).
Abbreviation tweak_wf := (array_wf 33).

Definition read_32 (bs : bytes) (label : string) : res bytes :=
  _ ← ensure (bool_decide (len bs = 32)) label; Ok bs.
Definition read_u16_le (bs : bytes) (label : string) : res Z :=
  _ ← ensure (bool_decide (len bs = 2)) label; Ok (from_le bs).
Definition read_u32_le (bs : bytes) (label : string) : res Z :=
  _ ← ensure (bool_decide (len bs = 4)) label; Ok (from_le bs).
Definition read_u32_be (bs : bytes) (label : string) : res Z :=
  _ ← ensure (bool_decide (len bs = 4)) label; Ok (from_be bs).
Definition read_u64_be (bs : bytes) (label : string) : res Z :=
  _ ← ensure (bool_decide (len bs = 8)) label; Ok (from_be bs).

Lemma read_32_ok bs label : length bs = 32%nat → read_32 bs label = Ok bs.
Proof. intros H. unfold read_32. by rewrite H. Qed.
Lemma read_u16_le_bytes x label : in_width 16 x → read_u16_le (le_bytes 2 x) label = Ok x.
Proof.
  intros Hx. unfold read_u16_le. rewrite length_le_bytes. rsimpl.
  by rewrite from_le_le_bytes.
Qed.
Lemma read_u32_le_bytes x label : in_width 32 x → read_u32_le (le_bytes 4 x) label = Ok x.
Proof.
  intros Hx. unfold read_u32_le. rewrite length_le_bytes. rsimpl.
  by rewrite from_le_le_bytes.
Qed.
Lemma read_u32_be_bytes x label : in_width 32 x → read_u32_be (be_bytes 4 x) label = Ok x.
Proof.
  intros Hx. unfold read_u32_be. rewrite length_be_bytes. rsimpl.
  by rewrite from_be_be_bytes.
Qed.
Lemma read_u64_be_bytes x label : in_width 64 x → read_u64_be (be_bytes 8 x) label = Ok x.
Proof.
  intros Hx. unfold read_u64_be. rewrite length_be_bytes. rsimpl.
  by rewrite from_be_be_bytes.
Qed.
#[export] Hint Resolve read_32_ok read_u16_le_bytes read_u32_le_bytes read_u32_be_bytes
  read_u64_be_bytes : readers.

(** Reading then writing back: the readers are injective on byte strings. *)
Lemma read_u32_le_inv bs label x :
  bytes_wf bs → read_u32_le bs label = Ok x → bs = le_bytes 4 x ∧ in_width 32 x.
Proof.
  intros Hw H. unfold read_u32_le in H. res_inv. apply bool_decide_eq_true_1 in H.
  assert (length bs = 4)%nat as H4 by lia. split.
  - rewrite <- H4. symmetry. by apply le_bytes_from_le.
  - pose proof (from_le_bound bs Hw) as Hb. by rewrite H4 in Hb.
Qed.
Lemma read_u16_le_inv bs label x :
  bytes_wf bs → read_u16_le bs label = Ok x → bs = le_bytes 2 x ∧ in_width 16 x.
Proof.
  intros Hw H. unfold read_u16_le in H. res_inv. apply bool_decide_eq_true_1 in H.
  assert (length bs = 2)%nat as H2 by lia. split.
  - rewrite <- H2. symmetry. by apply le_bytes_from_le.
  - pose proof (from_le_bound bs Hw) as Hb. by rewrite H2 in Hb.
Qed.
