(* ===== verification/RangeFrame.v ===== *)
(** * The range frame of [/blocks/light]

    Model of [light-server/src/range.rs]: the server's [frame_range] and the
    client's [parse_range]. *)

From S2P Require Import Prelude Helper.

(** [RANGE_MAGIC] is [b"BDSR"]; [RANGE_VERSION] is 1 ([light-server/src/lib.rs]). *)
Definition RANGE_MAGIC : bytes := [66; 68; 83; 82].
Definition RANGE_VERSION : Z := 1.

Definition frame_item (out msg : bytes) : res bytes :=
  len ← try_from 32 (len msg);
  Ok (out ++ le_bytes 4 len ++ msg).

Definition frame_range (messages : list bytes) : res bytes :=
  count ← try_from 32 (len messages);
  fold_res frame_item (RANGE_MAGIC ++ le_bytes 2 RANGE_VERSION ++ le_bytes 4 count) messages.

(** The [for _ in 0..count] loop from read position [pos]. *)
Fixpoint parse_items (bs : bytes) (pos count : nat) (out : list bytes) : res (list bytes * nat) :=
  match count with
  | O => Ok (out, pos)
  | S count =>
      _ ← ensure (bool_decide (pos + 4 ≤ length bs)%nat) "truncated range item length";
      field ← slice bs pos (pos + 4);
      len ← read_u32_le field "range item length";
      let len := Z.to_nat len in
      let pos := (pos + 4)%nat in
      _ ← ensure (bool_decide (pos + len ≤ length bs)%nat) "truncated range item body";
      item ← slice bs pos (pos + len);
      parse_items bs (pos + len) count (out ++ [item])
  end.

Definition parse_range (bs : bytes) : res (list bytes) :=
  _ ← ensure (bool_decide (10 ≤ length bs)%nat) "range frame too short";
  magic ← slice bs 0 4;
  _ ← ensure (bool_decide (magic = RANGE_MAGIC)) "bad range magic";
  field ← slice bs 4 6;
  version ← read_u16_le field "range version";
  _ ← ensure (bool_decide (version = RANGE_VERSION)) "unsupported range version";
  field ← slice bs 6 10;
  count ← read_u32_le field "range item count";
  '(out, pos) ← parse_items bs 10 (Z.to_nat count) [];
  _ ← ensure (bool_decide (pos = length bs)) "trailing bytes after range frame";
  Ok out.

(** ** Specification: the frame as one byte string *)
Definition item_bytes (m : bytes) : bytes := le_bytes 4 (len m) ++ m.
Definition range_bytes (ms : list bytes) : bytes :=
  RANGE_MAGIC ++ le_bytes 2 RANGE_VERSION ++ le_bytes 4 (len ms) ++ (ms ≫= item_bytes).

Definition frameable (ms : list bytes) : Prop :=
  len ms < 2 ^ 32 ∧ Forall (λ m : bytes, len m < 2 ^ 32) ms.

Lemma frame_item_ok out m : len m < 2 ^ 32 → frame_item out m = Ok (out ++ item_bytes m).
Proof. intros. unfold frame_item. by rewrite try_from_ok by done. Qed.

Lemma frame_items_spec ms out :
  Forall (λ m : bytes, len m < 2 ^ 32) ms →
  fold_res frame_item out ms = Ok (out ++ (ms ≫= item_bytes)).
Proof.
  intros Hms. revert out. induction Hms as [|m ms Hm Hms IH]; intros out; cbn [fold_res].
  - by rewrite app_nil_r.
  - rewrite frame_item_ok by done. rsimpl. rewrite IH.
    by rewrite <- app_assoc.
Qed.

Lemma frame_range_spec ms : frameable ms → frame_range ms = Ok (range_bytes ms).
Proof.
  intros [Hn Hms]. unfold frame_range. rewrite try_from_ok by done. rsimpl.
  rewrite frame_items_spec by done. unfold range_bytes. by rewrite <- !app_assoc.
Qed.

Lemma parse_items_spec ms pre rest out :
  Forall (λ m : bytes, len m < 2 ^ 32) ms →
  parse_items (pre ++ (ms ≫= item_bytes) ++ rest) (length pre) (length ms) out
  = Ok (out ++ ms, length (pre ++ (ms ≫= item_bytes))).
Proof.
  intros Hms. revert pre out. induction Hms as [|m ms Hm Hms IH]; intros pre out.
  - cbn [parse_items length]. by rewrite !app_nil_r.
  - cbn [parse_items length].
    change ((m :: ms) ≫= item_bytes) with (item_bytes m ++ (ms ≫= item_bytes)).
    set (B := ms ≫= item_bytes) in *. unfold item_bytes. rewrite <- !app_assoc.
    rewrite bool_decide_true by (rewrite !length_app, length_le_bytes; lia). rsimpl.
    rewrite slice_middle by (rewrite ?length_le_bytes; lia). rsimpl.
    rewrite read_u32_le_bytes by (split; [lia|done]). rsimpl. rewrite Nat2Z.id.
    rewrite bool_decide_true by (rewrite !length_app, length_le_bytes; lia). rsimpl.
    rewrite (app_assoc pre). rewrite slice_middle by (rewrite ?length_app, ?length_le_bytes; lia). rsimpl.
    rewrite (app_assoc _ m).
    replace (length pre + 4 + length m)%nat with (length ((pre ++ le_bytes 4 (len m)) ++ m))
      by (rewrite !length_app, length_le_bytes; lia).
    rewrite IH. by rewrite <- !app_assoc.
Qed.

Lemma parse_range_bytes ms : frameable ms → parse_range (range_bytes ms) = Ok ms.
Proof.
  intros [Hn Hms]. unfold parse_range, range_bytes.
  rewrite bool_decide_true by (rewrite !length_app, !length_le_bytes; simpl; lia). rsimpl.
  rewrite slice_prefix by done. rsimpl.
  rewrite (bool_decide_true (RANGE_MAGIC = _)) by done. rsimpl.
  rewrite (slice_middle RANGE_MAGIC _ _ 4 6) by (rewrite ?length_le_bytes; done). rsimpl.
  rewrite read_u16_le_bytes by done. rsimpl.
  rewrite (bool_decide_true (RANGE_VERSION = _)) by done. rsimpl.
  rewrite (app_assoc RANGE_MAGIC), slice_middle by (rewrite ?length_app, ?length_le_bytes; done). rsimpl.
  rewrite read_u32_le_bytes by (split; [lia|done]). rsimpl. rewrite Nat2Z.id.
  rewrite app_assoc. set (hdr := (RANGE_MAGIC ++ _) ++ _).
  pose proof (parse_items_spec ms hdr [] [] Hms) as Hp. rewrite app_nil_r in Hp.
  change (length hdr) with 10%nat in Hp. rewrite Hp. rsimpl.
  by rewrite bool_decide_true by done.
Qed.

(** Range frames round trip: the client's parser returns exactly the framed messages. *)
Theorem range_roundtrip (ms : list bytes) :
  frameable ms → ∃ bs, frame_range ms = Ok bs ∧ parse_range bs = Ok ms.
Proof. intros Hms. exists (range_bytes ms). split; [by apply frame_range_spec|by apply parse_range_bytes]. Qed.

Lemma range_roundtrip_witness :
  ∃ bs, frame_range [[97]; []; [98; 99]] = Ok bs ∧ parse_range bs = Ok [[97]; []; [98; 99]].
Proof.
  apply (range_roundtrip [[97]; []; [98; 99]]).
  split; [reflexivity|]. repeat (constructor; [reflexivity|]). constructor.
Defined.

(** What the item loop consumed is the framing of what it returned. *)
Lemma parse_items_inv bs count pos out out' pos' :
  bytes_wf bs → (pos ≤ length bs)%nat → parse_items bs pos count out = Ok (out', pos') →
  ∃ ms, out' = out ++ ms ∧ length ms = count ∧ Forall (λ m : bytes, len m < 2 ^ 32) ms ∧
    drop pos bs = (ms ≫= item_bytes) ++ drop pos' bs ∧ (pos' ≤ length bs)%nat.
Proof.
  intros Hw. revert pos out. induction count as [|count IH]; intros pos out Hpos H; cbn [parse_items] in H.
  - res_inv. exists []. by rewrite app_nil_r.
  - res_inv.
    repeat match goal with H : bool_decide _ = true |- _ => apply bool_decide_eq_true_1 in H end.
    match goal with H : slice _ _ (pos + 4) = Ok _ |- _ => apply slice_Ok in H as [-> _] end.
    match goal with H : read_u32_le _ _ = Ok ?n |- _ => apply read_u32_le_inv in H as [Hf Hn];
      [|by apply Forall_take, Forall_drop]; set (l := n) in * end.
    match goal with H : slice _ _ _ = Ok _ |- _ => apply slice_Ok in H as [-> _] end.
    match goal with H : parse_items _ _ _ _ = Ok _ |- _ => apply IH in H as (ms & -> & Hc & Hms & Hd & Hle); [|done] end.
    replace (pos + 4 - pos)%nat with 4%nat in Hf by lia.
    replace (pos + 4 + Z.to_nat l - (pos + 4))%nat with (Z.to_nat l) in * by lia.
    set (m := take (Z.to_nat l) (drop (pos + 4) bs)) in *.
    assert (length m = Z.to_nat l) as Hlm by (subst m; rewrite length_take, length_drop; lia).
    unfold in_width in Hn.
    exists (m :: ms). rewrite <- app_assoc. split_and!; [done|simpl; lia| |..].
    + constructor; [rewrite Hlm; lia|done].
    + change ((m :: ms) ≫= item_bytes) with (item_bytes m ++ (ms ≫= item_bytes)).
      rewrite <- app_assoc, <- Hd. unfold item_bytes. rewrite Hlm, Z2Nat.id, <- Hf by lia.
      rewrite <- app_assoc. subst m. rewrite <- (drop_drop bs (Z.to_nat l) (pos + 4)), take_drop.
      by rewrite <- (drop_drop bs 4 pos), take_drop.
    + done.
Qed.

(** The frame grammar is unambiguous: accepted bytes are the framing of the returned
    messages. *)
Theorem parse_range_canonical (bs : bytes) (ms : list bytes) :
  bytes_wf bs → parse_range bs = Ok ms → frame_range ms = Ok bs.
Proof.
  intros Hw H. unfold parse_range in H. res_inv.
  repeat match goal with H : bool_decide _ = true |- _ => apply bool_decide_eq_true_1 in H end.
  repeat match goal with H : slice _ _ _ = Ok _ |- _ => apply slice_Ok in H as [-> _] end.
  match goal with H : read_u16_le _ _ = Ok _ |- _ => apply read_u16_le_inv in H as [Hv _] end;
    [|by apply Forall_take, Forall_drop].
  match goal with H : read_u32_le _ _ = Ok _ |- _ => apply read_u32_le_inv in H as [Hc Hcw] end;
    [|by apply Forall_take, Forall_drop].
  match goal with H : _ = RANGE_VERSION |- _ => rewrite H in Hv end.
  match goal with H : parse_items _ _ _ _ = Ok _ |- _ => apply parse_items_inv in H as (ms' & -> & Hl & Hms & Hd & _) end;
    [|done|done].
  match goal with H : _ = length bs |- _ => rewrite H in Hd end.
  unfold in_width in Hcw. rewrite frame_range_spec by (split; [cbn [app]; lia|done]).
  f_equal. unfold range_bytes. cbn [app]. rewrite drop_all, app_nil_r in Hd. rewrite <- Hd, Hl, Z2Nat.id by lia.
  rewrite <- Hv, <- Hc. 
  match goal with H : take _ _ = RANGE_MAGIC |- _ => rewrite <- H end.
  rewrite drop_0. change (4 - 0)%nat with 4%nat. change (6 - 4)%nat with 2%nat. change (10 - 6)%nat with 4%nat.
  transitivity (take 4 bs ++ take 2 (drop 4 bs) ++ take 4 (drop 6 bs) ++ drop 10 bs); [done|].
  rewrite <- (drop_drop bs 4 6 : drop 4 (drop 6 bs) = drop 10 bs), take_drop.
  rewrite <- (drop_drop bs 2 4 : drop 2 (drop 4 bs) = drop 6 bs), take_drop. apply take_drop.
Qed.

Lemma parse_range_canonical_witness :
  frame_range [[97]] = Ok [66; 68; 83; 82; 1; 0; 1; 0; 0; 0; 1; 0; 0; 0; 97].
Proof.
  apply (parse_range_canonical [66; 68; 83; 82; 1; 0; 1; 0; 0; 0; 1; 0; 0; 0; 97] [[97]]).
  - repeat (constructor; [vm_compute; split; congruence|]). constructor.
  - vm_compute. reflexivity.
Defined.

Lemma frame_items_inv ms out bs : fold_res frame_item out ms = Ok bs → Forall (λ m : bytes, len m < 2 ^ 32) ms.
Proof.
  revert out. induction ms as [|m ms IH]; intros out H; [constructor|]. cbn [fold_res] in H.
  apply bind_Ok in H as (o & Hi & H). apply IH in H. unfold frame_item in Hi.
  apply bind_Ok in Hi as (n & [_ Hn]%try_from_Ok & _). by constructor.
Qed.
Lemma frame_range_inv ms bs : frame_range ms = Ok bs → frameable ms.
Proof.
  unfold frame_range. intros (n & [_ Hn]%try_from_Ok & H%frame_items_inv)%bind_Ok. by split.
Qed.

(** C35: the client's parser is the exact inverse of the server's framing: it accepts
    precisely the byte strings that [frame_range] writes, and returns the messages in
    order.  Truncated, padded and re-headed frames are rejected, and [frame_range] is
    defined on every list of fewer than [2^32] messages each shorter than [2^32] bytes. *)
Theorem range_frame_iff (bs : bytes) (ms : list bytes) :
  bytes_wf bs → (parse_range bs = Ok ms ↔ frame_range ms = Ok bs) ∧ ((∃ bs', frame_range ms = Ok bs') ↔ frameable ms).
Proof.
  intros Hw. split; split.
  - by apply parse_range_canonical.
  - intros H. pose proof (frame_range_inv ms bs H) as Hf. rewrite frame_range_spec in H by done.
    injection H as <-. by apply parse_range_bytes.
  - intros [bs' H]. by eapply frame_range_inv.
  - intros Hf. by eexists; apply frame_range_spec.
Qed.

Lemma range_frame_iff_witness :
  (parse_range [66; 68; 83; 82; 1; 0; 1; 0; 0; 0; 1; 0; 0; 0; 97] = Ok [[97]] ↔
   frame_range [[97]] = Ok [66; 68; 83; 82; 1; 0; 1; 0; 0; 0; 1; 0; 0; 0; 97]) ∧
  ((∃ bs', frame_range [[97]] = Ok bs') ↔ frameable [[97]]).
Proof.
  apply (range_frame_iff [66; 68; 83; 82; 1; 0; 1; 0; 0; 0; 1; 0; 0; 0; 97] [[97]]).
  repeat (constructor; [vm_compute; split; congruence|]). constructor.
Defined.
