(* ===== verification/UndoPayload.v ===== *)
(** * The [/rest/spenttxouts] undo payload

    Model of [core/src/block.rs]: the byte cursor, CompactSize, and the decoder
    of per-block spent outputs.  A count read from the wire is a [u64] in [Z];
    a loop over it stops at the first element that does not fit in the remaining
    bytes, so the remaining byte count is fuel enough ([decode_..._total]). *)

From S2P Require Import Prelude.

Record SpentTxOut := { value_sat : Z; script_pubkey : bytes }.
Record BlockSpentTxOuts := { undo_txs : list (list SpentTxOut) }.

#[export] Instance SpentTxOut_eq_dec : EqDecision SpentTxOut.
Proof. solve_decision. Defined.
#[export] Instance BlockSpentTxOuts_eq_dec : EqDecision BlockSpentTxOuts.
Proof. solve_decision. Defined.

(** [Vec::with_capacity(n)] of a type of [size] bytes panics beyond [isize::MAX]. *)
Definition isize_max : Z := 2 ^ 63 - 1.
Definition with_capacity (size n : Z) : res unit :=
  if bool_decide (size * n ≤ isize_max) then Ok tt else Panic "capacity overflow".

(** ** Cursor *)
Record Cursor := { cur_bytes : bytes; cur_pos : nat }.
Definition cursor_new (bs : bytes) : Cursor := {| cur_bytes := bs; cur_pos := 0 |}.
Definition remaining (c : Cursor) : nat := (length (cur_bytes c) - cur_pos c)%nat.
Definition is_empty (c : Cursor) : bool := bool_decide (cur_pos c = length (cur_bytes c)).

Definition read_u8 (c : Cursor) : res (Z * Cursor) :=
  byte ← ok_or (cur_bytes c !! cur_pos c) "unexpected EOF while decoding spenttxouts";
  Ok (byte, {| cur_bytes := cur_bytes c; cur_pos := S (cur_pos c) |}).

Definition read_exact (c : Cursor) (n : Z) : res (bytes * Cursor) :=
  _ ← ensure (bool_decide (n ≤ Z.of_nat (remaining c)))
        "unexpected EOF while decoding spenttxouts: need, have";
  let start := cur_pos c in
  bs ← slice (cur_bytes c) start (start + Z.to_nat n);
  Ok (bs, {| cur_bytes := cur_bytes c; cur_pos := (start + Z.to_nat n)%nat |}).

Definition read_compact_size (c : Cursor) : res (Z * Cursor) :=
  '(first, c) ← read_u8 c;
  if bool_decide (first ≤ 252) then Ok (first, c)
  else if bool_decide (first = 253) then
    '(b, c) ← read_exact c 2;
    let value := from_le b in
    _ ← ensure (bool_decide (253 ≤ value)) "non-canonical CompactSize";
    Ok (value, c)
  else if bool_decide (first = 254) then
    '(b, c) ← read_exact c 4;
    let value := from_le b in
    _ ← ensure (bool_decide (65535 < value)) "non-canonical CompactSize";
    Ok (value, c)
  else
    '(b, c) ← read_exact c 8;
    let value := from_le b in
    _ ← ensure (bool_decide (4294967295 < value)) "non-canonical CompactSize";
    Ok (value, c).

(** [i64::from_le_bytes]. *)
Definition i64_from_le (b : bytes) : Z :=
  let u := from_le b in if bool_decide (u < 2 ^ 63) then u else u - 2 ^ 64.

Definition read_txout_value (c : Cursor) : res (Z * Cursor) :=
  '(b, c) ← read_exact c 8;
  let value := i64_from_le b in
  _ ← ensure (bool_decide (0 ≤ value)) "spenttxouts contains negative txout value";
  Ok (value, c).

Definition read_raw_script (c : Cursor) : res (bytes * Cursor) :=
  '(len, c) ← read_compact_size c;
  read_exact c len.

(** The inner loop: [input_count] spent outputs. *)
Fixpoint read_inputs (fuel : nat) (count : Z) (c : Cursor) : res (list SpentTxOut * Cursor) :=
  if bool_decide (count = 0) then Ok ([], c)
  else match fuel with
  | O => Panic "out of fuel"
  | S fuel =>
      '(value, c) ← read_txout_value c;
      '(script, c) ← read_raw_script c;
      '(inputs, c) ← read_inputs fuel (count - 1) c;
      Ok ({| value_sat := value; script_pubkey := script |} :: inputs, c)
  end.

(** The outer loop: [tx_count] transactions. *)
Fixpoint read_txs (fuel : nat) (count : Z) (c : Cursor) : res (list (list SpentTxOut) * Cursor) :=
  if bool_decide (count = 0) then Ok ([], c)
  else match fuel with
  | O => Panic "out of fuel"
  | S fuel =>
      '(input_count, c) ← read_compact_size c;
      _ ← with_capacity 32 input_count;
      '(inputs, c) ← read_inputs (S (remaining c)) input_count c;
      '(txs, c) ← read_txs fuel (count - 1) c;
      Ok (inputs :: txs, c)
  end.

Definition decode_spent_txouts_payload (bs : bytes) : res BlockSpentTxOuts :=
  let cursor := cursor_new bs in
  '(tx_count, cursor) ← read_compact_size cursor;
  _ ← with_capacity 24 tx_count;
  '(txs, cursor) ← read_txs (S (remaining cursor)) tx_count cursor;
  _ ← ensure (is_empty cursor) "spenttxouts payload has trailing bytes";
  Ok {| undo_txs := txs |}.

#[global] Arguments read_exact : simpl never.
#[global] Arguments read_compact_size : simpl never.
#[global] Arguments read_txout_value : simpl never.
#[global] Arguments read_raw_script : simpl never.

(** ** Specification: the payload grammar as an encoder *)
Definition compact_size (n : Z) : bytes :=
  if bool_decide (n ≤ 252) then [n]
  else if bool_decide (n ≤ 65535) then 253 :: le_bytes 2 n
  else if bool_decide (n ≤ 4294967295) then 254 :: le_bytes 4 n
  else 255 :: le_bytes 8 n.
Definition txout_bytes (o : SpentTxOut) : bytes :=
  le_bytes 8 (value_sat o) ++ compact_size (len (script_pubkey o)) ++ script_pubkey o.
Definition tx_bytes (ins : list SpentTxOut) : bytes :=
  compact_size (len ins) ++ (ins ≫= txout_bytes).
Definition payload_bytes (p : BlockSpentTxOuts) : bytes :=
  compact_size (len (undo_txs p)) ++ (undo_txs p ≫= tx_bytes).

Definition txout_wf (o : SpentTxOut) : Prop :=
  0 ≤ value_sat o < 2 ^ 63 ∧ len (script_pubkey o) < 2 ^ 64.
Definition payload_wf (p : BlockSpentTxOuts) : Prop :=
  24 * len (undo_txs p) ≤ isize_max ∧
  Forall (λ ins, 32 * len ins ≤ isize_max ∧ Forall txout_wf ins) (undo_txs p).

(** ** Cursor lemmas *)
Definition crest (c : Cursor) : bytes := drop (cur_pos c) (cur_bytes c).
Definition cadv (c : Cursor) (n : nat) : Cursor :=
  {| cur_bytes := cur_bytes c; cur_pos := (cur_pos c + n)%nat |}.
(** The position is inside the buffer: kept by every read. *)
Definition cwf (c : Cursor) : Prop := (cur_pos c ≤ length (cur_bytes c))%nat.

Lemma crest_cadv c n : crest (cadv c n) = drop n (crest c).
Proof. unfold crest, cadv. simpl. by rewrite drop_drop. Qed.
Lemma length_crest c : length (crest c) = remaining c.
Proof. apply length_drop. Qed.

Lemma read_u8_spec c :
  read_u8 c = match crest c with
              | [] => Err "unexpected EOF while decoding spenttxouts"
              | b :: _ => Ok (b, cadv c 1) end.
Proof.
  unfold read_u8, crest, cadv. rewrite Nat.add_1_r.
  destruct (cur_bytes c !! cur_pos c) as [b|] eqn:E; rsimpl.
  - by rewrite (drop_S _ _ _ E).
  - apply lookup_ge_None in E. by rewrite drop_ge.
Qed.

Lemma read_exact_spec c n :
  cwf c → 0 ≤ n →
  read_exact c n =
    if bool_decide (n ≤ len (crest c)) then Ok (take (Z.to_nat n) (crest c), cadv c (Z.to_nat n))
    else Err "unexpected EOF while decoding spenttxouts: need, have".
Proof.
  unfold cwf, read_exact. intros Hc Hn. rewrite length_crest.
  case_bool_decide as Hr; rsimpl; [|done]. unfold remaining in Hr.
  rewrite slice_ok by lia. rsimpl. unfold crest, cadv.
  by replace (cur_pos c + Z.to_nat n - cur_pos c)%nat with (Z.to_nat n) by lia.
Qed.

Lemma cwf_cadv c n : (n ≤ length (crest c))%nat → cwf c → cwf (cadv c n).
Proof. rewrite length_crest. unfold cwf, cadv, remaining. simpl. lia. Qed.

Lemma read_exact_app c x rest :
  cwf c → crest c = x ++ rest → read_exact c (len x) = Ok (x, cadv c (length x)).
Proof.
  intros Hc Hr. rewrite read_exact_spec, Hr, length_app, bool_decide_true by (done || lia).
  by rewrite Nat2Z.id, take_app_length.
Qed.

(** A reader [P] is [complete] for an encoder when it returns what was encoded
    and stops right after it, and [sound] when what it accepts is an encoding. *)
Definition complete {A} (P : Cursor → res (A * Cursor)) (enc : A → bytes) (V : A → Prop) : Prop :=
  ∀ c a rest, cwf c → V a → crest c = enc a ++ rest →
    ∃ c', P c = Ok (a, c') ∧ crest c' = rest ∧ cwf c'.
Definition sound {A} (P : Cursor → res (A * Cursor)) (enc : A → bytes) (V : A → Prop) : Prop :=
  ∀ c a c', cwf c → bytes_wf (crest c) → P c = Ok (a, c') →
    crest c = enc a ++ crest c' ∧ cwf c' ∧ V a.

Lemma cadv_app c x rest : cwf c → crest c = x ++ rest →
  crest (cadv c (length x)) = rest ∧ cwf (cadv c (length x)).
Proof.
  intros Hc Hr. rewrite crest_cadv, Hr, drop_app_length. split; [done|].
  apply cwf_cadv; [rewrite Hr, length_app; lia|done].
Qed.

Lemma read_exact_complete n :
  complete (λ c, read_exact c (Z.of_nat n)) id (λ x, length x = n).
Proof.
  intros c x rest Hc <- Hr. exists (cadv c (length x)).
  rewrite (read_exact_app c x rest) by done. split; [done|]. by apply cadv_app.
Qed.

Lemma read_exact_inv c n x c' :
  cwf c → 0 ≤ n → read_exact c n = Ok (x, c') →
  crest c = x ++ crest c' ∧ cwf c' ∧ len x = n.
Proof.
  intros Hc Hn H. rewrite read_exact_spec in H by done. case_bool_decide; [|done].
  injection H as <- <-. rewrite crest_cadv, take_drop, length_take.
  split; [done|]. split; [apply cwf_cadv; [lia|done]|lia].
Qed.

Lemma read_u8_complete : complete read_u8 (λ b, [b]) (λ _, True).
Proof.
  intros c b rest Hc _ Hr. rewrite read_u8_spec, Hr. cbn [app]. exists (cadv c 1). split; [done|].
  by apply (cadv_app c [b] rest).
Qed.

Lemma read_u8_inv c b c' :
  cwf c → read_u8 c = Ok (b, c') → crest c = b :: crest c' ∧ cwf c'.
Proof.
  intros Hc H. rewrite read_u8_spec in H. destruct (crest c) as [|b' rest] eqn:E; [done|].
  injection H as <- <-. destruct (cadv_app c [b'] rest Hc E) as [H1 H2]. cbn [length] in *.
  by rewrite H1.
Qed.

Lemma compact_size_complete :
  complete read_compact_size compact_size (λ n, 0 ≤ n < 2 ^ 64).
Proof.
  intros c n rest Hc Hn Hr. unfold read_compact_size, compact_size in *.
  assert (∀ b k, crest c = (b :: le_bytes k n) ++ rest → ∃ c1 c2,
    read_u8 c = Ok (b, c1) ∧ read_exact c1 (Z.of_nat k) = Ok (le_bytes k n, c2) ∧
    crest c2 = rest ∧ cwf c2) as He.
  { intros b k Hk. destruct (read_u8_complete c b (le_bytes k n ++ rest) Hc I Hk) as (c1 & H1 & Hr1 & Hc1).
    destruct (read_exact_complete k c1 (le_bytes k n) rest Hc1 (length_le_bytes k n) Hr1)
      as (c2 & H2 & ? & ?). exists c1, c2. by split_and!. }
  destruct (bool_decide_reflect (n ≤ 252)) as [H1|H1].
  { destruct (read_u8_complete c n rest Hc I Hr) as (c1 & -> & ? & ?). rsimpl.
    rewrite bool_decide_true by lia. eexists. by split_and!. }
  destruct (bool_decide_reflect (n ≤ 65535)) as [H2|H2].
  { destruct (He 253 2%nat Hr) as (c1 & c2 & -> & Hx & ? & ?). rsimpl.
    change (bool_decide (253 ≤ 252)) with false. change (bool_decide (253 = 253)) with true.
    cbv iota. change (Z.of_nat 2) with 2 in Hx. rewrite Hx. rsimpl.
    rewrite from_le_le_bytes, bool_decide_true by (simpl; lia). rsimpl. eexists. by split_and!. }
  destruct (bool_decide_reflect (n ≤ 4294967295)) as [H3|H3].
  { destruct (He 254 4%nat Hr) as (c1 & c2 & -> & Hx & ? & ?). rsimpl.
    change (bool_decide (254 ≤ 252)) with false. change (bool_decide (254 = 253)) with false.
    change (bool_decide (254 = 254)) with true. cbv iota. change (Z.of_nat 4) with 4 in Hx. rewrite Hx. rsimpl.
    rewrite from_le_le_bytes, bool_decide_true by (simpl; lia). rsimpl. eexists. by split_and!. }
  destruct (He 255 8%nat Hr) as (c1 & c2 & -> & Hx & ? & ?). rsimpl.
  change (bool_decide (255 ≤ 252)) with false. change (bool_decide (255 = 253)) with false.
  change (bool_decide (255 = 254)) with false. cbv iota. change (Z.of_nat 8) with 8 in Hx. rewrite Hx. rsimpl.
  rewrite from_le_le_bytes, bool_decide_true by (simpl; lia). rsimpl. eexists. by split_and!.
Qed.

(** The length field of a wide CompactSize: tag, [k] little-endian bytes and
    the check [Q] that no shorter form would do. *)
Lemma compact_field_inv c tag c1 k (Q : Z → Prop) `{!∀ x, Decision (Q x)} msg n c' :
  cwf c1 → bytes_wf (crest c) → crest c = tag :: crest c1 →
  ('(b, c0) ← read_exact c1 (Z.of_nat k);
   let value := from_le b in
   _ ← ensure (bool_decide (Q value)) msg;
   Ok (value, c0)) = Ok (n, c') →
  crest c = (tag :: le_bytes k n) ++ crest c' ∧ cwf c' ∧ 0 ≤ n < 256 ^ Z.of_nat k ∧ Q n.
Proof.
  intros Hc Hw Hu Hb. apply bind_Ok in Hb as ([b c2] & He & Hb).
  apply bind_Ok in Hb as ([] & HQ%ensure_Ok%bool_decide_eq_true_1 & [= <- <-]).
  apply read_exact_inv in He as (He & Hc2 & Hl); [|done|lia].
  rewrite Hu, He in Hw. apply Forall_cons in Hw as [_ Hw]. apply Forall_app in Hw as [Hw _].
  assert (length b = k) as <- by lia. rewrite le_bytes_from_le, Hu, He by done.
  pose proof (from_le_bound b Hw). split_and!; done || lia.
Qed.

Lemma compact_size_1 n : n ≤ 252 → compact_size n = [n].
Proof. intros. unfold compact_size. by rewrite bool_decide_true. Qed.
Lemma compact_size_3 n : 253 ≤ n ≤ 65535 → compact_size n = 253 :: le_bytes 2 n.
Proof. intros. unfold compact_size. by rewrite bool_decide_false, bool_decide_true by lia. Qed.
Lemma compact_size_5 n : 65535 < n ≤ 4294967295 → compact_size n = 254 :: le_bytes 4 n.
Proof.
  intros. unfold compact_size.
  by rewrite bool_decide_false, bool_decide_false, bool_decide_true by lia.
Qed.
Lemma compact_size_9 n : 4294967295 < n → compact_size n = 255 :: le_bytes 8 n.
Proof.
  intros. unfold compact_size.
  by rewrite bool_decide_false, bool_decide_false, bool_decide_false by lia.
Qed.

Lemma compact_size_sound : sound read_compact_size compact_size (λ n, 0 ≤ n < 2 ^ 64).
Proof.
  intros c n c' Hc Hw H. unfold read_compact_size in H.
  apply bind_Ok in H as ([z c1] & Hu & H). apply read_u8_inv in Hu as [Hu Hc1]; [|done].
  assert (is_byte z) as Hz by (rewrite Hu in Hw; by apply Forall_cons in Hw as [? _]).
  unfold is_byte in Hz.
  destruct (bool_decide_reflect (z ≤ 252)) as [H1|H1].
  { injection H as -> ->. rewrite compact_size_1 by done. split_and!; [done|done|lia|lia]. }
  destruct (bool_decide_reflect (z = 253)) as [->|H2].
  { apply (compact_field_inv c 253 c1 2 (λ x, 253 ≤ x)) in H as (He & ? & Hb & ?); [|done..].
    cbn in Hb. rewrite compact_size_3 by lia. split_and!; [done|done|lia|lia]. }
  destruct (bool_decide_reflect (z = 254)) as [->|H3].
  { apply (compact_field_inv c 254 c1 4 (λ x, 65535 < x)) in H as (He & ? & Hb & ?); [|done..].
    cbn in Hb. rewrite compact_size_5 by lia. split_and!; [done|done|lia|lia]. }
  assert (z = 255) as -> by lia.
  apply (compact_field_inv c 255 c1 8 (λ x, 4294967295 < x)) in H as (He & ? & Hb & ?); [|done..].
  cbn in Hb. rewrite compact_size_9 by lia. split_and!; [done|done|lia|lia].
Qed.


(** ** Elements and loops *)
Lemma i64_from_le_bytes v : 0 ≤ v < 2 ^ 63 → i64_from_le (le_bytes 8 v) = v.
Proof.
  intros. unfold i64_from_le. rewrite from_le_le_bytes by (simpl; lia).
  by rewrite bool_decide_true by lia.
Qed.

Lemma read_txout_value_complete :
  complete read_txout_value (le_bytes 8) (λ v, 0 ≤ v < 2 ^ 63).
Proof.
  intros c v rest Hc Hv Hr. unfold read_txout_value.
  destruct (read_exact_complete 8 c (le_bytes 8 v) rest Hc (length_le_bytes 8 v) Hr)
    as (c' & He & ? & ?).
  change (Z.of_nat 8) with 8 in He. rewrite He. rsimpl.
  rewrite i64_from_le_bytes, bool_decide_true by lia. rsimpl. eexists. by split_and!.
Qed.

Lemma read_txout_value_sound :
  sound read_txout_value (le_bytes 8) (λ v, 0 ≤ v < 2 ^ 63).
Proof.
  intros c v c' Hc Hw H. unfold read_txout_value in H.
  apply bind_Ok in H as ([b c1] & He & H).
  apply bind_Ok in H as ([] & Hv%ensure_Ok%bool_decide_eq_true_1 & [= <- <-]).
  apply read_exact_inv in He as (He & Hc1 & Hl); [|done|lia].
  rewrite He in Hw. apply Forall_app in Hw as [Hw _].
  pose proof (from_le_bound b Hw) as Hb. rewrite Hl in Hb. cbn in Hb.
  assert (i64_from_le b = from_le b) as E.
  { unfold i64_from_le in *. case_bool_decide; [done|lia]. }
  rewrite E in *. unfold i64_from_le in E. case_bool_decide; [|lia].
  assert (length b = 8%nat) as H8 by lia. rewrite <- H8 at 1.
  rewrite le_bytes_from_le by done. split_and!; [done|done|lia|lia].
Qed.

Definition script_bytes (s : bytes) : bytes := compact_size (len s) ++ s.

Lemma read_raw_script_complete :
  complete read_raw_script script_bytes (λ s, len s < 2 ^ 64).
Proof.
  intros c s rest Hc Hs Hr. unfold read_raw_script, script_bytes in *.
  rewrite <- app_assoc in Hr.
  destruct (compact_size_complete c (len s) _ Hc ltac:(cbv beta in *; lia) Hr) as (c1 & -> & Hr1 & Hc1). rsimpl.
  by apply (read_exact_complete (length s)).
Qed.

Lemma read_raw_script_sound :
  sound read_raw_script script_bytes (λ s, len s < 2 ^ 64).
Proof.
  intros c s c' Hc Hw H. unfold read_raw_script in H.
  apply bind_Ok in H as ([n c1] & Hn & H).
  apply compact_size_sound in Hn as (Hn & Hc1 & Hb); [|done..].
  apply read_exact_inv in H as (He & Hc' & Hl); [|done|lia].
  unfold script_bytes. rewrite Hl, Hn, He, app_assoc. split_and!; [done|done|lia].
Qed.

Lemma sound_bytes_wf {A} (P : Cursor → res (A * Cursor)) enc V c a c' :
  sound P enc V → cwf c → bytes_wf (crest c) → P c = Ok (a, c') →
  crest c = enc a ++ crest c' ∧ cwf c' ∧ V a ∧ bytes_wf (crest c').
Proof.
  intros Hs Hc Hw H. destruct (Hs c a c' Hc Hw H) as (He & ? & ?). split_and!; try done.
  rewrite He in Hw. by apply Forall_app in Hw as [_ ?].
Qed.

Lemma length_compact_size n : (1 ≤ length (compact_size n))%nat.
Proof. unfold compact_size. repeat case_bool_decide; simpl; lia. Qed.
Lemma length_txout_bytes o : (9 ≤ length (txout_bytes o))%nat.
Proof.
  unfold txout_bytes. rewrite !length_app, length_le_bytes.
  pose proof (length_compact_size (len (script_pubkey o))). lia.
Qed.

Lemma read_inputs_complete fuel ins c rest :
  cwf c → Forall txout_wf ins → (length ins ≤ fuel)%nat →
  crest c = (ins ≫= txout_bytes) ++ rest →
  ∃ c', read_inputs fuel (len ins) c = Ok (ins, c') ∧ crest c' = rest ∧ cwf c'.
Proof.
  intros Hc Hw. revert fuel c Hc. induction Hw as [|o ins [Hv Hs] Hw IH]; intros fuel c Hc Hf Hr.
  { destruct fuel; eexists; by split_and!. }
  destruct fuel as [|fuel]; cbn [length] in Hf; [lia|].
  rewrite bind_cons in Hr. unfold txout_bytes in Hr. rewrite <- !app_assoc in Hr.
  cbn [read_inputs length]. rewrite bool_decide_false by lia.
  destruct (read_txout_value_complete c _ _ Hc Hv Hr) as (c1 & -> & Hr1 & Hc1). rsimpl.
  rewrite app_assoc in Hr1.
  destruct (read_raw_script_complete c1 _ _ Hc1 Hs Hr1) as (c2 & -> & Hr2 & Hc2). rsimpl.
  replace (Z.of_nat (S (length ins)) - 1) with (len ins) by lia.
  destruct (IH fuel c2 Hc2 ltac:(lia) Hr2) as (c3 & -> & ? & ?). rsimpl.
  exists c3. by destruct o.
Qed.

Lemma read_inputs_sound fuel count c ins c' :
  cwf c → bytes_wf (crest c) → read_inputs fuel count c = Ok (ins, c') →
  crest c = (ins ≫= txout_bytes) ++ crest c' ∧ cwf c' ∧ len ins = count ∧ Forall txout_wf ins.
Proof.
  revert count c ins c'. induction fuel as [|fuel IH]; intros count c ins c' Hc Hw H; cbn [read_inputs] in H;
    (destruct (bool_decide_reflect (count = 0)) as [->|]; [by injection H as <- <-|]); [done|].
  apply bind_Ok in H as ([v c1] & Hv & H).
  apply (sound_bytes_wf _ _ _ _ _ _ read_txout_value_sound) in Hv as (Hv & Hc1 & Vv & Hw1); [|done..].
  apply bind_Ok in H as ([s c2] & Hs & H).
  apply (sound_bytes_wf _ _ _ _ _ _ read_raw_script_sound) in Hs as (Hs & Hc2 & Vs & Hw2); [|done..].
  apply bind_Ok in H as ([l c3] & Hl & [= <- <-]).
  apply IH in Hl as (Hl & Hc3 & Hn & Hf); [|done..].
  rewrite bind_cons. unfold txout_bytes at 1. cbn [value_sat script_pubkey].
  fold (script_bytes s). rewrite Hv, Hs, Hl, <- !app_assoc. cbn [length].
  split_and!; [done|done|lia|by constructor].
Qed.

Lemma read_txs_complete fuel txs c rest :
  cwf c → Forall (λ ins, 32 * len ins ≤ isize_max ∧ Forall txout_wf ins) txs →
  (length txs ≤ fuel)%nat → crest c = (txs ≫= tx_bytes) ++ rest →
  ∃ c', read_txs fuel (len txs) c = Ok (txs, c') ∧ crest c' = rest ∧ cwf c'.
Proof.
  intros Hc Hw. revert fuel c Hc. induction Hw as [|ins txs [Hn Hi] Hw IH]; intros fuel c Hc Hf Hr.
  { destruct fuel; eexists; by split_and!. }
  destruct fuel as [|fuel]; cbn [length] in Hf; [lia|].
  rewrite bind_cons in Hr. unfold tx_bytes at 1 in Hr. rewrite <- !app_assoc in Hr.
  cbn [read_txs length]. rewrite bool_decide_false by lia. unfold isize_max in Hn.
  destruct (compact_size_complete c (len ins) _ Hc ltac:(cbv beta in *; lia) Hr) as (c1 & -> & Hr1 & Hc1). rsimpl.
  unfold with_capacity, isize_max. rewrite bool_decide_true by lia. rsimpl.
  assert (length ins ≤ length (ins ≫= txout_bytes))%nat as Hl.
  { clear. induction ins as [|o ins IH]; [done|]. rewrite bind_cons, length_app. cbn [length].
    pose proof (length_txout_bytes o). lia. }
  destruct (read_inputs_complete (S (remaining c1)) ins c1 ((txs ≫= tx_bytes) ++ rest) Hc1 Hi) as (c2 & -> & Hr2 & Hc2);
    [|exact Hr1|rsimpl].
  { rewrite <- length_crest, Hr1, length_app. lia. }
  replace (Z.of_nat (S (length txs)) - 1) with (len txs) by lia.
  destruct (IH fuel c2 Hc2 ltac:(lia) Hr2) as (c3 & -> & ? & ?). rsimpl. by exists c3.
Qed.

Lemma read_txs_sound fuel count c txs c' :
  cwf c → bytes_wf (crest c) → read_txs fuel count c = Ok (txs, c') →
  crest c = (txs ≫= tx_bytes) ++ crest c' ∧ cwf c' ∧ len txs = count ∧
  Forall (λ ins, 32 * len ins ≤ isize_max ∧ Forall txout_wf ins) txs.
Proof.
  revert count c txs c'. induction fuel as [|fuel IH]; intros count c txs c' Hc Hw H; cbn [read_txs] in H;
    (destruct (bool_decide_reflect (count = 0)) as [->|]; [by injection H as <- <-|]); [done|].
  apply bind_Ok in H as ([m c1] & Hn & H).
  apply (sound_bytes_wf _ _ _ _ _ _ compact_size_sound) in Hn as (Hn & Hc1 & Vn & Hw1); [|done..].
  apply bind_Ok in H as ([] & Hcap & H). unfold with_capacity in Hcap.
  case_bool_decide as Hcap'; [|done]. clear Hcap.
  apply bind_Ok in H as ([l c2] & Hl & H).
  apply read_inputs_sound in Hl as (Hl & Hc2 & Hln & Hf); [|done..].
  rewrite Hl in Hw1. apply Forall_app in Hw1 as [_ Hw2].
  apply bind_Ok in H as ([ls c3] & Hls & [= <- <-]).
  apply IH in Hls as (Hls & Hc3 & Hlsn & Hfs); [|done..].
  rewrite bind_cons. unfold tx_bytes at 1. rewrite Hn, Hl, Hls, Hln, <- !app_assoc. cbn [length].
  split_and!; [done|done|lia|]. constructor; [|done]. split; [lia|done].
Qed.

(** ** Absence of panics *)

(** [m] does not panic, except for a capacity overflow, and [Q] holds of what it returns. *)
Definition wp {A} (m : res (A * Cursor)) (Q : A → Cursor → Prop) : Prop :=
  match m with
  | Ok (a, c) => Q a c
  | Err _ => True
  | Panic p => p = "capacity overflow"
  end.

Lemma wp_bind {A B} (m : res (A * Cursor)) (F : A * Cursor → res (B * Cursor)) Q :
  wp m (λ a c, wp (F (a, c)) Q) → wp (m ≫= F) Q.
Proof. by destruct m as [[]| |]. Qed.
Lemma wp_mono {A} (m : res (A * Cursor)) (Q R : A → Cursor → Prop) :
  wp m Q → (∀ a c, Q a c → R a c) → wp m R.
Proof. destruct m as [[]| |]; simpl; auto. Qed.

(** After a read that consumed at least [k] bytes of [c]. *)
Definition after (c : Cursor) (k : nat) (c' : Cursor) : Prop :=
  cwf c' ∧ bytes_wf (cur_bytes c') ∧ (remaining c' + k ≤ remaining c)%nat.

Lemma wp_read_exact c n :
  cwf c → bytes_wf (cur_bytes c) → 0 ≤ n →
  wp (read_exact c n) (λ b c', after c (Z.to_nat n) c' ∧ bytes_wf b).
Proof.
  intros Hc Hw Hn. rewrite read_exact_spec by done. case_bool_decide as Hr; [|done].
  cbn. split; [|by apply Forall_take, Forall_drop]. split_and!; [apply cwf_cadv; [lia|done]|done|].
  rewrite <- !length_crest, crest_cadv, length_drop. lia.
Qed.

Lemma wp_read_u8 c :
  cwf c → bytes_wf (cur_bytes c) → wp (read_u8 c) (λ b c', after c 1 c' ∧ is_byte b).
Proof.
  intros Hc Hw. rewrite read_u8_spec. destruct (crest c) as [|b r] eqn:E; [done|].
  cbn. split.
  - split_and!; [apply cwf_cadv; [rewrite E; simpl; lia|done]|done|].
    rewrite <- !length_crest, crest_cadv, E, length_drop. simpl. lia.
  - assert (bytes_wf (crest c)) as Hf by by apply Forall_drop.
    rewrite E in Hf. by apply Forall_cons in Hf as [? _].
Qed.

Lemma after_weaken c c1 c2 j k m : after c j c1 → after c1 k c2 → (m ≤ j + k)%nat → after c m c2.
Proof. unfold after. naive_solver lia. Qed.

Lemma wp_ensure {A} b msg (m : res (A * Cursor)) Q :
  (b = true → wp m Q) → wp (_ ← ensure b msg; m) Q.
Proof. destruct b; simpl; auto. Qed.

(** The wide forms of CompactSize: [n] bytes, then a check. *)
Lemma wp_compact_field c n (Q : Z → Prop) `{!∀ x, Decision (Q x)} msg :
  cwf c → bytes_wf (cur_bytes c) → 0 ≤ n →
  wp ('(bs, c0) ← read_exact c n;
      let value := from_le bs in _ ← ensure (bool_decide (Q value)) msg; Ok (value, c0))
     (λ v c', after c 0 c' ∧ 0 ≤ v).
Proof.
  intros. apply wp_bind. eapply wp_mono; [by apply wp_read_exact|].
  intros bs c0 [Ha Hb]. apply wp_ensure. intros _. simpl.
  split; [|by apply from_le_bound]. unfold after in *. naive_solver lia.
Qed.

Lemma wp_read_compact_size c :
  cwf c → bytes_wf (cur_bytes c) → wp (read_compact_size c) (λ v c', after c 1 c' ∧ 0 ≤ v).
Proof.
  intros Hc Hw. unfold read_compact_size. apply wp_bind.
  eapply wp_mono; [by apply wp_read_u8|]. intros b c1 [Ha Hb]. unfold is_byte in Hb.
  pose proof Ha as (? & ? & ?).
  assert (∀ v c', after c1 0 c' ∧ 0 ≤ v → after c 1 c' ∧ 0 ≤ v) as Hk.
  { intros v c' [? ?]. split; [|done]. eapply after_weaken; [done..|lia]. }
  case_bool_decide; [simpl; split; [done|lia]|].
  case_bool_decide; [|case_bool_decide]; (eapply wp_mono; [|exact Hk]).
  - apply (wp_compact_field c1 2 (λ v, 253 ≤ v)); done || lia.
  - apply (wp_compact_field c1 4 (λ v, 65535 < v)); done || lia.
  - apply (wp_compact_field c1 8 (λ v, 4294967295 < v)); done || lia.
Qed.

Lemma wp_read_txout_value c :
  cwf c → bytes_wf (cur_bytes c) → wp (read_txout_value c) (λ _ c', after c 8 c').
Proof.
  intros. unfold read_txout_value. apply wp_bind. eapply wp_mono; [by apply wp_read_exact|].
  intros b c0 [Ha _]. by apply wp_ensure.
Qed.

Lemma wp_read_raw_script c :
  cwf c → bytes_wf (cur_bytes c) → wp (read_raw_script c) (λ _ c', after c 1 c').
Proof.
  intros. unfold read_raw_script. apply wp_bind. eapply wp_mono; [by apply wp_read_compact_size|].
  intros n c0 [Ha Hn]. pose proof Ha as (? & ? & ?). eapply wp_mono; [by apply wp_read_exact|].
  intros bs c1 [Hb _]. eapply after_weaken; [done..|lia].
Qed.

(** Fuel: one more than the remaining bytes is enough, whatever the count. *)
Lemma wp_read_inputs fuel count c :
  cwf c → bytes_wf (cur_bytes c) → (remaining c < fuel)%nat →
  wp (read_inputs fuel count c) (λ _ c', after c 0 c').
Proof.
  revert count c. induction fuel as [|fuel IH]; intros count c Hc Hw Hf; [lia|].
  cbn [read_inputs]. case_bool_decide; [unfold wp, after; naive_solver lia|].
  apply wp_bind. eapply wp_mono; [by apply wp_read_txout_value|]. intros v c1 A1.
  pose proof A1 as (? & ? & ?). apply wp_bind. eapply wp_mono; [by apply wp_read_raw_script|].
  intros s c2 A2. pose proof A2 as (? & ? & ?). apply wp_bind.
  eapply wp_mono; [apply IH; done || lia|]. intros l c3 A3. simpl.
  destruct A3 as (? & ? & ?). split_and!; [done|done|lia].
Qed.

Lemma wp_read_txs fuel count c :
  cwf c → bytes_wf (cur_bytes c) → (remaining c < fuel)%nat →
  wp (read_txs fuel count c) (λ _ c', after c 0 c').
Proof.
  revert count c. induction fuel as [|fuel IH]; intros count c Hc Hw Hf; [lia|].
  cbn [read_txs]. case_bool_decide; [unfold wp, after; naive_solver lia|].
  apply wp_bind. eapply wp_mono; [by apply wp_read_compact_size|]. intros n c1 [A1 _].
  pose proof A1 as (? & ? & ?). unfold with_capacity. case_bool_decide; rsimpl; [|done].
  apply wp_bind. eapply wp_mono; [apply wp_read_inputs; done || lia|].
  intros s c2 A2. pose proof A2 as (? & ? & ?). apply wp_bind.
  eapply wp_mono; [apply IH; done || lia|]. intros l c3 A3. simpl.
  destruct A3 as (? & ? & ?). split_and!; [done|done|lia].
Qed.

(** ** Properties *)

(** The payload of a block's spent outputs, laid out as the module documents
    (CompactSize counts, signed 8-byte values, CompactSize-prefixed scripts),
    decodes to exactly those outputs. *)
Theorem spent_txouts_roundtrip (p : BlockSpentTxOuts) (H : payload_wf p) :
  decode_spent_txouts_payload (payload_bytes p) = Ok p.
Proof.
  destruct H as [Hn Hf]. unfold decode_spent_txouts_payload, payload_bytes.
  set (c := cursor_new _). assert (cwf c) as Hc by (unfold cwf; simpl; lia).
  unfold isize_max in Hn.
  destruct (compact_size_complete c (len (undo_txs p)) (undo_txs p ≫= tx_bytes) Hc
    ltac:(cbv beta; lia) eq_refl) as (c1 & -> & Hr1 & Hc1). rsimpl.
  unfold with_capacity, isize_max. rewrite bool_decide_true by lia. rsimpl.
  assert (length (undo_txs p) ≤ length (undo_txs p ≫= tx_bytes))%nat as Hl.
  { generalize (undo_txs p). clear. intros l. induction l as [|o l IH]; [done|].
    rewrite bind_cons, length_app. cbn [length]. unfold tx_bytes at 1. rewrite length_app.
    pose proof (length_compact_size (len o)). lia. }
  destruct (read_txs_complete (S (remaining c1)) (undo_txs p) c1 [] Hc1 Hf) as (c2 & -> & Hr2 & Hc2);
    [|by rewrite app_nil_r|rsimpl].
  { rewrite <- length_crest, Hr1. lia. }
  unfold is_empty. rewrite bool_decide_true; [by destruct p|].
  apply (f_equal length) in Hr2. rewrite length_crest in Hr2. unfold remaining, cwf in *.
  simpl in Hr2. lia.
Qed.

Lemma spent_txouts_roundtrip_witness :
  decode_spent_txouts_payload (payload_bytes
    {| undo_txs := [[]; [{| value_sat := 1309258; script_pubkey := [81; 32] ++ replicate 32 66 |}]] |})
  = Ok {| undo_txs := [[]; [{| value_sat := 1309258; script_pubkey := [81; 32] ++ replicate 32 66 |}]] |}.
Proof.
  apply spent_txouts_roundtrip. split; [vm_compute; discriminate|].
  repeat constructor; vm_compute; congruence.
Defined.

(** The decoder accepts no second encoding: whatever payload it accepts is the
    canonical layout of the outputs it returns, with nothing left over. *)
Theorem spent_txouts_canonical (bs : bytes) (p : BlockSpentTxOuts)
  (Hbs : bytes_wf bs) (H : decode_spent_txouts_payload bs = Ok p) :
  payload_bytes p = bs ∧ payload_wf p.
Proof.
  unfold decode_spent_txouts_payload in H. change bs with (crest (cursor_new bs)) in Hbs.
  assert (cwf (cursor_new bs)) as Hc by (unfold cwf; simpl; lia).
  apply bind_Ok in H as ([n c1] & Hn & H).
  apply (sound_bytes_wf _ _ _ _ _ _ compact_size_sound) in Hn as (Hn & Hc1 & Vn & Hw1); [|done..].
  apply bind_Ok in H as ([] & Hcap & H). unfold with_capacity in Hcap.
  case_bool_decide as Hcap'; [|done].
  apply bind_Ok in H as ([l c2] & Hl & H).
  apply read_txs_sound in Hl as (Hl & Hc2 & Hln & Hf); [|done..].
  apply bind_Ok in H as ([] & He%ensure_Ok%bool_decide_eq_true_1 & [= <-]).
  change bs with (crest (cursor_new bs)). unfold payload_bytes, payload_wf. cbn [undo_txs].
  assert (crest c2 = []) as E by (unfold crest; rewrite He; apply drop_all).
  rewrite Hn, Hl, E, Hln, app_nil_r. split_and!; [done|lia|done].
Qed.

Lemma spent_txouts_canonical_witness :
  payload_bytes {| undo_txs := [[]; []] |} = [2; 0; 0] ∧ payload_wf {| undo_txs := [[]; []] |}.
Proof.
  apply (spent_txouts_canonical [2; 0; 0]); [repeat constructor; vm_compute; congruence|reflexivity].
Defined.

(** C36: the decoder is the exact inverse of the documented layout (CompactSize counts,
    signed 8-byte values, CompactSize-prefixed scripts): it accepts precisely the
    canonical payload of each block's spent outputs and returns these outputs; a second
    encoding, a truncation or trailing bytes are rejected. *)
Theorem spent_txouts_iff (bs : bytes) (p : BlockSpentTxOuts) (Hbs : bytes_wf bs) :
  decode_spent_txouts_payload bs = Ok p ↔ payload_wf p ∧ bs = payload_bytes p.
Proof.
  split; [|by intros [Hp ->]; apply spent_txouts_roundtrip].
  intros H. by destruct (spent_txouts_canonical bs p Hbs H) as [<- Hp].
Qed.

Lemma spent_txouts_iff_witness :
  decode_spent_txouts_payload [2; 0; 0] = Ok {| undo_txs := [[]; []] |} ↔
  payload_wf {| undo_txs := [[]; []] |} ∧ [2; 0; 0] = payload_bytes {| undo_txs := [[]; []] |}.
Proof. apply (spent_txouts_iff [2; 0; 0]). repeat constructor; vm_compute; congruence. Defined.

(** On any byte string the decoder terminates with a block or an error value;
    the one panic it can raise is the [capacity overflow] of allocating a
    vector for a count read from the wire. *)
Theorem decode_spent_txouts_total (bs : bytes) (Hbs : bytes_wf bs) :
  match decode_spent_txouts_payload bs with
  | Ok _ | Err _ => True
  | Panic p => p = "capacity overflow"
  end.
Proof.
  assert (cwf (cursor_new bs)) as Hc by (unfold cwf; simpl; lia).
  pose proof (wp_read_compact_size _ Hc Hbs) as H1. unfold decode_spent_txouts_payload.
  destruct (read_compact_size _) as [[n c1]| |]; rsimpl; [|done..]. destruct H1 as ((? & ? & ?) & _).
  unfold with_capacity. case_bool_decide; rsimpl; [|done].
  pose proof (wp_read_txs (S (remaining c1)) n c1) as Hr.
  destruct (read_txs _ _ _) as [[l c2]| |]; rsimpl; [|done|apply Hr; done || lia].
  unfold is_empty. by case_bool_decide.
Qed.

Lemma decode_spent_txouts_total_witness :
  match decode_spent_txouts_payload [1; 2; 3] with
  | Ok _ | Err _ => True
  | Panic p => p = "capacity overflow"
  end.
Proof. apply decode_spent_txouts_total. repeat constructor; vm_compute; congruence. Defined.

(** Nine bytes are enough to make it panic: a transaction count of 2^64 - 1. *)
Theorem decode_spent_txouts_capacity_panic :
  decode_spent_txouts_payload (replicate 9 255) = Panic "capacity overflow".
Proof. reflexivity. Qed.
