(* ===== verification/Bitmap.v ===== *)
(** * The skipped-transaction bitmap

    Model of the bitmap functions of [light-server/src/index.rs]: one bit per
    transaction of a block, least significant bit first, a set bit meaning that
    the transaction has no dense tweak entry.  [skip_flag] and [bitmap_wf] are the
    abstract view the operations are specified against. *)

From S2P Require Import Prelude.

Definition skipped_tx_bitmap_len (tx_count : Z) : res nat :=
  bits ← ok_or (checked_add 64 tx_count 7) "skipped tx bitmap length overflow";
  Ok (Z.to_nat (bits / 8)).

Definition validate_skipped_txs_for_tweaks (tx_count : Z) (bitmap : bytes) : res unit :=
  expected_len ← skipped_tx_bitmap_len tx_count;
  _ ← ensure (bool_decide (length bitmap = expected_len))
        "skipped tx bitmap byte length does not match expected for tx_count";
  let used_bits := tx_count mod 8 in
  if bool_decide (0 < used_bits) && negb (bool_decide (bitmap = [])) then
    let used_mask := Z.shiftl 1 used_bits - 1 in
    let padding_mask := Z.lxor 255 used_mask in
    last ← index bitmap (length bitmap - 1);
    ensure (bool_decide (Z.land last padding_mask = 0))
      "skipped tx bitmap has non-zero padding bits"
  else Ok tt.

Definition empty_skipped_txs_for_tweaks_bitmap (tx_count : Z) : res bytes :=
  n ← skipped_tx_bitmap_len tx_count;
  Ok (replicate n 0).

Definition set_skipped_tx_in_bitmap (tx_count : Z) (bitmap : bytes) (tx_index : Z) : res bytes :=
  _ ← validate_skipped_txs_for_tweaks tx_count bitmap;
  _ ← ensure (bool_decide (tx_index < tx_count)) "skipped tx index is outside tx_count";
  let byte := Z.to_nat (tx_index / 8) in
  let shift := tx_index mod 8 in
  b ← index bitmap byte;
  Ok (<[byte := Z.lor b (Z.shiftl 1 shift)]> bitmap).

Definition is_skipped_tx_in_bitmap (tx_count : Z) (bitmap : bytes) (tx_index : Z) : res bool :=
  _ ← validate_skipped_txs_for_tweaks tx_count bitmap;
  _ ← ensure (bool_decide (tx_index < tx_count)) "skipped tx index is outside tx_count";
  let byte := Z.to_nat (tx_index / 8) in
  let shift := tx_index mod 8 in
  b ← index bitmap byte;
  Ok (bool_decide (Z.land (Z.shiftr b shift) 1 ≠ 0)).

Definition skipped_txs_for_tweaks_count (tx_count : Z) (bitmap : bytes) : res Z :=
  _ ← validate_skipped_txs_for_tweaks tx_count bitmap;
  fold_res (λ count tx_index,
    skipped ← is_skipped_tx_in_bitmap tx_count bitmap tx_index;
    if (skipped : bool) then ok_or (checked_add 16 count 1) "skipped tx count overflow"
    else Ok count) 0 (seqZ 0 tx_count).

Definition skipped_txs_for_tweaks_indexes (tx_count : Z) (bitmap : bytes) : res (list Z) :=
  _ ← validate_skipped_txs_for_tweaks tx_count bitmap;
  fold_res (λ skipped tx_index,
    s ← is_skipped_tx_in_bitmap tx_count bitmap tx_index;
    Ok (if (s : bool) then skipped ++ [tx_index] else skipped)) [] (seqZ 0 tx_count).

(** The [while] loop: [tx_index] grows at every step, so [tx_count] steps are enough. *)
Fixpoint derive_indexes_loop (fuel : nat) (tx_count : Z) (bitmap : bytes) (tweak_count : nat)
    (tx_index : Z) (indexes : list Z) : res (list Z) :=
  if bool_decide (tx_index < tx_count) && bool_decide (length indexes < tweak_count)%nat then
    match fuel with
    | O => Panic "out of fuel"
    | S fuel =>
        skipped ← is_skipped_tx_in_bitmap tx_count bitmap tx_index;
        let indexes := if (skipped : bool) then indexes else indexes ++ [tx_index] in
        tx_index ← ok_or (checked_add 16 tx_index 1) "stored tweak tx index overflow";
        derive_indexes_loop fuel tx_count bitmap tweak_count tx_index indexes
    end
  else Ok indexes.

Definition derive_stored_tweak_tx_indexes (tx_count : Z) (skipped_txs_for_tweaks : bytes)
    (tweak_count : nat) : res (list Z) :=
  _ ← validate_skipped_txs_for_tweaks tx_count skipped_txs_for_tweaks;
  indexes ← derive_indexes_loop (Z.to_nat tx_count) tx_count skipped_txs_for_tweaks tweak_count 0 [];
  _ ← ensure (bool_decide (length indexes = tweak_count))
    "tx_count/skipped bitmap does not leave enough non-skipped transactions for stored tweaks";
  Ok indexes.

#[global] Arguments validate_skipped_txs_for_tweaks : simpl never.
#[global] Arguments is_skipped_tx_in_bitmap : simpl never.
#[global] Arguments set_skipped_tx_in_bitmap : simpl never.

(** ** The abstract view *)

Definition skip_flag (bitmap : bytes) (i : Z) : bool :=
  Z.testbit (default 0 (bitmap !! Z.to_nat (i / 8))) (i mod 8).
Definition skip_flags (n : Z) (bitmap : bytes) : list bool := skip_flag bitmap <$> seqZ 0 n.
Definition skipped_indexes (n : Z) (bitmap : bytes) : list Z :=
  filter (λ i, skip_flag bitmap i = true) (seqZ 0 n).
Definition dense_indexes (n : Z) (bitmap : bytes) : list Z :=
  filter (λ i, skip_flag bitmap i = false) (seqZ 0 n).

(** A bitmap of the right size, with no bit set beyond the last transaction. *)
Definition bitmap_wf (n : Z) (bitmap : bytes) : Prop :=
  bytes_wf bitmap ∧ length bitmap = Z.to_nat ((n + 7) / 8) ∧
  ∀ i, n ≤ i → skip_flag bitmap i = false.

Lemma bitmap_len n : in_width 16 n → skipped_tx_bitmap_len n = Ok (Z.to_nat ((n + 7) / 8)).
Proof.
  unfold in_width. intros. unfold skipped_tx_bitmap_len, checked_add.
  rewrite bool_decide_true by lia. done.
Qed.

Lemma byte_lookup bitmap i b :
  bytes_wf bitmap → bitmap !! i = Some b → is_byte b.
Proof. intros H. by apply Forall_lookup_1. Qed.

Lemma is_byte_testbit b k : is_byte b → 8 ≤ k → Z.testbit b k = false.
Proof.
  unfold is_byte. intros Hb Hk. destruct (decide (b = 0)) as [->|]; [apply Z.testbit_0_l|].
  apply Z.bits_above_log2; [lia|]. apply Z.log2_lt_pow2; [lia|].
  pose proof (Z.pow_le_mono_r 2 8 k). lia.
Qed.

(** The padding test of the last byte. *)
Lemma padding_clear b u :
  is_byte b → 0 < u < 8 →
  Z.land b (Z.lxor 255 (Z.shiftl 1 u - 1)) = 0 ↔ ∀ k, u ≤ k → Z.testbit b k = false.
Proof.
  intros Hb Hu. replace (Z.shiftl 1 u - 1) with (Z.ones u)
    by (rewrite Z.ones_equiv, Z.shiftl_1_l; lia). change 255 with (Z.ones 8). split.
  - intros H k Hk. destruct (decide (8 ≤ k)); [by apply is_byte_testbit|].
    apply (f_equal (λ z, Z.testbit z k)) in H.
    rewrite Z.land_spec, Z.lxor_spec, Z.testbit_0_l in H.
    rewrite (Z.ones_spec_low 8), (Z.ones_spec_high u) in H by lia.
    by rewrite andb_true_r in H.
  - intros H. apply Z.bits_inj'. intros k Hk. rewrite Z.land_spec, Z.lxor_spec, Z.testbit_0_l.
    destruct (decide (u ≤ k)); [by rewrite H|].
    rewrite !Z.ones_spec_low by lia. by rewrite andb_false_r.
Qed.

Lemma skip_flag_high n bitmap i :
  length bitmap = Z.to_nat ((n + 7) / 8) → 0 ≤ n → n ≤ i → (n + 7) / 8 ≤ i / 8 →
  skip_flag bitmap i = false.
Proof.
  intros Hl Hn Hi Hd. unfold skip_flag. rewrite lookup_ge_None_2 by (rewrite Hl; lia).
  apply Z.testbit_0_l.
Qed.

Lemma validate_skipped_ok n bitmap :
  in_width 16 n → bytes_wf bitmap →
  validate_skipped_txs_for_tweaks n bitmap = Ok tt ↔ bitmap_wf n bitmap.
Proof.
  intros Hn Hw. unfold validate_skipped_txs_for_tweaks, bitmap_wf. rewrite bitmap_len by done.
  unfold in_width in Hn. rsimpl. rewrite bind_Ok. unfold ensure at 1.
  destruct (bool_decide_reflect (length bitmap = Z.to_nat ((n + 7) / 8))) as [Hl|Hl]; [|naive_solver].
  destruct (bool_decide_reflect (0 < n mod 8)) as [Hu|Hu]; cycle 1.
  { cbn [andb]. split; [intros _|by eexists]. split_and!; try done. intros i Hi.
    apply (skip_flag_high n); [done|lia..]. }
  destruct (bool_decide_reflect (bitmap = [])) as [->|Hne]; [simpl in Hl; lia|]. cbn [andb negb].
  destruct (lookup_lt_is_Some_2 bitmap (length bitmap - 1)) as [b Hb].
  { destruct bitmap; [done|simpl; lia]. }
  unfold index. rewrite Hb. rsimpl. fold (ensure (bool_decide (Z.land b (Z.lxor 255
    (Z.shiftl 1 (n mod 8) - 1)) = 0)) "skipped tx bitmap has non-zero padding bits").
  assert (is_byte b) as Hbb by by eapply byte_lookup.
  pose proof (padding_clear b (n mod 8) Hbb ltac:(lia)) as Hp.
  split.
  - intros (? & _ & H%ensure_Ok%bool_decide_eq_true_1). split_and!; [done..|]. intros i Hi.
    destruct (decide ((n + 7) / 8 ≤ i / 8)); [by apply (skip_flag_high n); [|lia..]|].
    unfold skip_flag. replace (Z.to_nat (i / 8)) with (length bitmap - 1)%nat by lia.
    rewrite Hb. apply Hp; [done|lia].
  - intros (_ & _ & H). exists tt. split; [done|]. apply ensure_Ok, bool_decide_eq_true_2, Hp.
    intros k Hk. destruct (decide (8 ≤ k)); [by apply is_byte_testbit|].
    specialize (H (8 * (n / 8) + k)). unfold skip_flag in H.
    replace (Z.to_nat ((8 * (n / 8) + k) / 8)) with (length bitmap - 1)%nat in H by lia.
    replace ((8 * (n / 8) + k) mod 8) with k in H by lia. rewrite Hb in H. apply H. lia.
Qed.

Lemma bitmap_byte n bitmap i :
  bitmap_wf n bitmap → 0 ≤ i < n → ∃ b, bitmap !! Z.to_nat (i / 8) = Some b ∧ is_byte b.
Proof.
  intros (Hw & Hl & _) Hi. destruct (lookup_lt_is_Some_2 bitmap (Z.to_nat (i / 8))) as [b Hb].
  { rewrite Hl. lia. }
  exists b. split; [done|]. by eapply byte_lookup.
Qed.

Lemma is_skipped_spec n bitmap i :
  in_width 16 n → bitmap_wf n bitmap → 0 ≤ i < n →
  is_skipped_tx_in_bitmap n bitmap i = Ok (skip_flag bitmap i).
Proof.
  intros Hn Hw Hi. unfold is_skipped_tx_in_bitmap.
  rewrite (proj2 (validate_skipped_ok n bitmap Hn (proj1 Hw)) Hw). rsimpl.
  rewrite bool_decide_true by lia. rsimpl.
  destruct (bitmap_byte n bitmap i Hw Hi) as (b & Hb & _). unfold index. rewrite Hb. rsimpl.
  unfold skip_flag. by rewrite shiftr_land_1_ne, Hb by lia.
Qed.

Lemma lor_bit_byte b k : is_byte b → 0 ≤ k < 8 → is_byte (Z.lor b (Z.shiftl 1 k)).
Proof.
  intros Hb Hk. unfold is_byte in *. rewrite Z.shiftl_1_l.
  assert (0 ≤ Z.lor b (2 ^ k)) by (apply Z.lor_nonneg; lia). split; [done|].
  destruct (decide (Z.lor b (2 ^ k) = 0)); [lia|]. change 256 with (2 ^ 8).
  apply Z.log2_lt_pow2; [lia|]. rewrite Z.log2_lor by lia. rewrite Z.log2_pow2 by lia.
  destruct (decide (b = 0)) as [->|]; [simpl; lia|].
  assert (Z.log2 b < 8) by (apply Z.log2_lt_pow2; simpl; lia). lia.
Qed.

Lemma set_skipped_spec n bitmap i :
  in_width 16 n → bitmap_wf n bitmap → 0 ≤ i < n →
  ∃ bitmap', set_skipped_tx_in_bitmap n bitmap i = Ok bitmap' ∧ bitmap_wf n bitmap' ∧
    ∀ j, 0 ≤ j → skip_flag bitmap' j = bool_decide (i = j) || skip_flag bitmap j.
Proof.
  intros Hn Hw Hi. unfold set_skipped_tx_in_bitmap.
  rewrite (proj2 (validate_skipped_ok n bitmap Hn (proj1 Hw)) Hw). rsimpl.
  rewrite bool_decide_true by lia. rsimpl.
  destruct (bitmap_byte n bitmap i Hw Hi) as (b & Hb & Hbb). unfold index. rewrite Hb. rsimpl.
  eexists. split; [done|].
  assert (∀ j, 0 ≤ j → skip_flag (<[Z.to_nat (i / 8):=Z.lor b (Z.shiftl 1 (i mod 8))]> bitmap) j =
    bool_decide (i = j) || skip_flag bitmap j) as Hf.
  { intros j Hj. unfold skip_flag.
    destruct (decide (Z.to_nat (i / 8) = Z.to_nat (j / 8))) as [E|E].
    - rewrite <- E. rewrite list_lookup_insert_eq by (by eapply lookup_lt_Some).
      rewrite Hb. cbn [default from_option id].
      rewrite Z.lor_spec, Z.shiftl_1_l, Z.pow2_bits_eqb by lia.
      rewrite orb_comm. f_equal. apply eq_bool_prop_intro.
      rewrite Is_true_true, Z.eqb_eq, bool_decide_spec. lia.
    - rewrite list_lookup_insert_ne by done. rewrite (bool_decide_false (i = j)) by (intros ->; by apply E). done. }
  split; [|done]. destruct Hw as (H1 & H2 & H3). split_and!.
  - apply Forall_insert; [done|]. apply lor_bit_byte; [done|lia].
  - by rewrite length_insert.
  - intros j Hj. unfold in_width in Hn. rewrite Hf by lia.
    rewrite bool_decide_false by lia. by apply H3.
Qed.

Lemma empty_bitmap_spec n :
  in_width 16 n →
  ∃ bitmap, empty_skipped_txs_for_tweaks_bitmap n = Ok bitmap ∧ bitmap_wf n bitmap ∧
    ∀ i, skip_flag bitmap i = false.
Proof.
  intros Hn. unfold empty_skipped_txs_for_tweaks_bitmap. rewrite bitmap_len by done. rsimpl.
  eexists. split; [done|].
  assert (∀ k i, skip_flag (replicate k 0) i = false) as Hf.
  { intros k i. unfold skip_flag.
    destruct (replicate k 0 !! Z.to_nat (i / 8)) as [b|] eqn:E; [|apply Z.testbit_0_l].
    apply lookup_replicate in E as [-> _]. apply Z.testbit_0_l. }
  split; [|by apply Hf]. split_and!; [|by rewrite length_replicate|by intros; apply Hf].
  apply Forall_replicate. unfold is_byte. lia.
Qed.

(** A well-formed bitmap is determined by its flags. *)
Lemma bitmap_ext n bm1 bm2 :
  0 ≤ n → bitmap_wf n bm1 → bitmap_wf n bm2 → skip_flags n bm1 = skip_flags n bm2 → bm1 = bm2.
Proof.
  intros Hn (Hw1 & Hl1 & Hp1) (Hw2 & Hl2 & Hp2) H. apply list_eq. intros k.
  destruct (decide (k < length bm1)%nat) as [Hk|]; [|by rewrite !lookup_ge_None_2 by lia].
  destruct (lookup_lt_is_Some_2 bm1 k Hk) as [b1 Hb1].
  destruct (lookup_lt_is_Some_2 bm2 k) as [b2 Hb2]; [lia|].
  rewrite Hb1, Hb2. f_equal. apply Z.bits_inj'. intros j Hj.
  destruct (decide (8 ≤ j)).
  { by rewrite !is_byte_testbit by first [done | eapply byte_lookup; [|eassumption]; done]. }
  assert (∀ bm b, bm !! k = Some b → skip_flag bm (8 * Z.of_nat k + j) = Z.testbit b j) as Hs.
  { intros bm b Hb. unfold skip_flag. replace (Z.to_nat ((8 * Z.of_nat k + j) / 8)) with k by lia.
    rewrite Hb. by replace ((8 * Z.of_nat k + j) mod 8) with j by lia. }
  rewrite <- (Hs bm1 b1 Hb1), <- (Hs bm2 b2 Hb2).
  destruct (decide (8 * Z.of_nat k + j < n)); [|by rewrite Hp1, Hp2 by lia].
  unfold skip_flags in H. apply (f_equal (.!! Z.to_nat (8 * Z.of_nat k + j))) in H.
  rewrite !list_lookup_fmap, !lookup_seqZ_lt in H by lia. simpl in H.
  replace (0 + Z.of_nat (Z.to_nat (8 * Z.of_nat k + j))) with (8 * Z.of_nat k + j) in H by lia.
  by injection H.
Qed.

(** ** Loops *)
Lemma filter_seqZ_snoc (P : Z → Prop) `{!∀ x, Decision (P x)} (i : nat) :
  filter P (seqZ 0 (Z.of_nat (S i))) = filter P (seqZ 0 (Z.of_nat i)) ++
    (if decide (P (Z.of_nat i)) then [Z.of_nat i] else []).
Proof.
  replace (Z.of_nat (S i)) with (Z.of_nat i + 1) by lia. rewrite seqZ_app by lia.
  rewrite filter_app. change (seqZ (0 + Z.of_nat i) 1) with [0 + Z.of_nat i].
  by rewrite Z.add_0_l, filter_cons, filter_nil.
Qed.

Lemma count_loop n bitmap i :
  in_width 16 n → bitmap_wf n bitmap → Z.of_nat i ≤ n →
  fold_res (λ count tx_index,
    skipped ← is_skipped_tx_in_bitmap n bitmap tx_index;
    if (skipped : bool) then ok_or (checked_add 16 count 1) "skipped tx count overflow"
    else Ok count) 0 (seqZ 0 (Z.of_nat i))
  = Ok (len (skipped_indexes (Z.of_nat i) bitmap)).
Proof.
  intros Hn Hw. induction i as [|i IH]; intros Hi; [done|].
  replace (Z.of_nat (S i)) with (Z.of_nat i + 1) at 1 by lia.
  rewrite seqZ_app, fold_res_app, IH by lia. rsimpl.
  change (seqZ (0 + Z.of_nat i) 1) with [0 + Z.of_nat i]. rewrite Z.add_0_l. cbn [fold_res].
  rewrite is_skipped_spec by (done || lia). rsimpl.
  unfold skipped_indexes. rewrite (filter_seqZ_snoc (λ i, skip_flag bitmap i = true)), length_app.
  pose proof (length_filter (λ i, skip_flag bitmap i = true) (seqZ 0 (Z.of_nat i))) as Hl.
  rewrite length_seqZ in Hl. unfold in_width in Hn.
  destruct (skip_flag bitmap (Z.of_nat i)); case_decide; try done.
  - unfold checked_add. rewrite bool_decide_true by lia. rsimpl. f_equal. simpl. lia.
  - rsimpl. f_equal. simpl. lia.
Qed.

Lemma indexes_loop n bitmap i :
  in_width 16 n → bitmap_wf n bitmap → Z.of_nat i ≤ n →
  fold_res (λ skipped tx_index,
    s ← is_skipped_tx_in_bitmap n bitmap tx_index;
    Ok (if (s : bool) then skipped ++ [tx_index] else skipped)) [] (seqZ 0 (Z.of_nat i))
  = Ok (skipped_indexes (Z.of_nat i) bitmap).
Proof.
  intros Hn Hw. induction i as [|i IH]; intros Hi; [done|].
  replace (Z.of_nat (S i)) with (Z.of_nat i + 1) at 1 by lia.
  rewrite seqZ_app, fold_res_app, IH by lia. rsimpl.
  change (seqZ (0 + Z.of_nat i) 1) with [0 + Z.of_nat i]. rewrite Z.add_0_l. cbn [fold_res].
  rewrite is_skipped_spec by (done || lia). rsimpl.
  unfold skipped_indexes. rewrite (filter_seqZ_snoc (λ i, skip_flag bitmap i = true)).
  destruct (skip_flag bitmap (Z.of_nat i)); case_decide; try done. by rewrite app_nil_r.
Qed.

Lemma skipped_count_spec n bitmap :
  in_width 16 n → bitmap_wf n bitmap →
  skipped_txs_for_tweaks_count n bitmap = Ok (len (skipped_indexes n bitmap)).
Proof.
  intros Hn Hw. unfold skipped_txs_for_tweaks_count.
  rewrite (proj2 (validate_skipped_ok n bitmap Hn (proj1 Hw)) Hw). rsimpl.
  unfold in_width in Hn. pose proof (count_loop n bitmap (Z.to_nat n) Hn Hw) as H.
  rewrite Z2Nat.id in H by lia. apply H. lia.
Qed.

Lemma skipped_indexes_spec n bitmap :
  in_width 16 n → bitmap_wf n bitmap →
  skipped_txs_for_tweaks_indexes n bitmap = Ok (skipped_indexes n bitmap).
Proof.
  intros Hn Hw. unfold skipped_txs_for_tweaks_indexes.
  rewrite (proj2 (validate_skipped_ok n bitmap Hn (proj1 Hw)) Hw). rsimpl.
  unfold in_width in Hn. pose proof (indexes_loop n bitmap (Z.to_nat n) Hn Hw) as H.
  rewrite Z2Nat.id in H by lia. apply H. lia.
Qed.

(** Every transaction is skipped or dense. *)
Lemma skipped_dense_length n bitmap :
  0 ≤ n → len (skipped_indexes n bitmap) + len (dense_indexes n bitmap) = n.
Proof.
  intros Hn. unfold skipped_indexes, dense_indexes.
  assert (∀ l : list Z, length (filter (λ i, skip_flag bitmap i = true) l) +
    length (filter (λ i, skip_flag bitmap i = false) l) = length l)%nat as H.
  { induction l as [|x l IH]; [done|]. rewrite !filter_cons.
    destruct (skip_flag bitmap x); simpl; lia. }
  specialize (H (seqZ 0 n)). rewrite length_seqZ in H. lia.
Qed.

Lemma derive_loop_spec fuel n bitmap k i :
  in_width 16 n → bitmap_wf n bitmap → Z.of_nat i ≤ n → (Z.to_nat n ≤ fuel + i)%nat →
  (length (dense_indexes (Z.of_nat i) bitmap) ≤ k)%nat →
  derive_indexes_loop fuel n bitmap k (Z.of_nat i) (dense_indexes (Z.of_nat i) bitmap)
  = Ok (take k (dense_indexes n bitmap)).
Proof.
  intros Hn Hw. revert i. induction fuel as [|fuel IH]; intros i Hi Hf Hk; cbn [derive_indexes_loop].
  { unfold in_width in Hn. rewrite bool_decide_false by lia. cbn [andb].
    replace (Z.of_nat i) with n in * by lia. by rewrite take_ge. }
  destruct (bool_decide_reflect (Z.of_nat i < n)); cbn [andb]; cycle 1.
  { replace (Z.of_nat i) with n in * by lia. by rewrite take_ge. }
  destruct (bool_decide_reflect (length (dense_indexes (Z.of_nat i) bitmap) < k)%nat); cycle 1.
  { replace k with (length (dense_indexes (Z.of_nat i) bitmap)) by lia.
    replace n with (Z.of_nat i + (n - Z.of_nat i)) by lia. unfold dense_indexes.
    rewrite seqZ_app, filter_app by lia. by rewrite take_app_length. }
  rewrite is_skipped_spec by (done || lia). rsimpl.
  unfold checked_add, in_width in *. rewrite bool_decide_true by lia. rsimpl.
  replace (Z.of_nat i + 1) with (Z.of_nat (S i)) by lia.
  assert (dense_indexes (Z.of_nat (S i)) bitmap =
    if skip_flag bitmap (Z.of_nat i) then dense_indexes (Z.of_nat i) bitmap
    else dense_indexes (Z.of_nat i) bitmap ++ [Z.of_nat i]) as E.
  { unfold dense_indexes. rewrite (filter_seqZ_snoc (λ i, skip_flag bitmap i = false)).
    destruct (skip_flag bitmap (Z.of_nat i)); case_decide; try done. by rewrite app_nil_r. }
  rewrite <- E. apply IH; [lia|lia|]. rewrite E.
  destruct (skip_flag bitmap (Z.of_nat i)); [lia|]. rewrite length_app. simpl. lia.
Qed.

Lemma derive_indexes_spec n bitmap k :
  in_width 16 n → bitmap_wf n bitmap → (k ≤ length (dense_indexes n bitmap))%nat →
  derive_stored_tweak_tx_indexes n bitmap k = Ok (take k (dense_indexes n bitmap)).
Proof.
  intros Hn Hw Hk. unfold derive_stored_tweak_tx_indexes.
  rewrite (proj2 (validate_skipped_ok n bitmap Hn (proj1 Hw)) Hw). rsimpl.
  unfold in_width in Hn. pose proof (derive_loop_spec (Z.to_nat n) n bitmap k 0) as H.
  change (Z.of_nat 0) with 0 in H. change (dense_indexes 0 bitmap) with (@nil Z) in H.
  rewrite H by (done || simpl; lia). rsimpl.
  by rewrite bool_decide_true by (rewrite length_take; lia).
Qed.
