(* ===== verification/SpentIds.v ===== *)
(** * The spent-UID stream of a light block

    Model of [encode_spent_ids_elias_delta_ascending_absolute] and its decoder
    ([light-server/src/index.rs]): UIDs sorted ascending, the first as [uid + 1],
    the others as differences, the values Elias-delta encoded. *)

From S2P Require Import Prelude Bits EliasDelta.

(** One iteration over the sorted UIDs: the state is [prev] and [values]. *)
Definition spent_step (st : option Z * list Z) (uid : Z) : res (option Z * list Z) :=
  let '(prev, values) := st in
  value ← match prev with
          | None => ok_or (checked_add 64 uid 1) "spent uid overflow while encoding first value"
          | Some prev_uid => ok_or (checked_sub uid prev_uid) "spent ids are not sorted ascending"
          end;
  _ ← ensure (bool_decide (0 < value))
        "duplicate spent uid cannot be Elias-delta encoded as a positive delta";
  Ok (Some uid, values ++ [value]).

Definition encode_spent_ids_elias_delta_ascending_absolute (spent_ids : list Z) : res (Z * bytes) :=
  let ids := merge_sort Z.le spent_ids in
  if bool_decide (ids = []) then Ok (0, [])
  else
    '(_, values) ← fold_res spent_step (None, []) ids;
    count ← try_from 32 (len values);
    stream ← encode_elias_delta_values values;
    Ok (count, stream).

(** One iteration over [values[1..]]: the state is [uid] and [out]. *)
Definition unspent_step (st : Z * list Z) (delta : Z) : res (Z * list Z) :=
  let '(uid, out) := st in
  uid ← ok_or (checked_add 64 uid delta) "spent uid delta overflow";
  Ok (uid, out ++ [uid]).

Definition decode_spent_ids_elias_delta_ascending_absolute (spent_count : Z) (spent_ids : bytes)
    : res (list Z) :=
  if bool_decide (spent_count = 0) then
    _ ← ensure (bool_decide (spent_ids = [])) "empty spent stream must have no bytes";
    Ok []
  else
    values ← decode_elias_delta_values spent_ids (Z.to_nat spent_count);
    v0 ← index values 0;
    first ← ok_or (checked_sub v0 1) "invalid first spent id value";
    '(_, out) ← fold_res unspent_step (first, [first]) (drop 1 values);
    Ok out.

#[global] Arguments encode_spent_ids_elias_delta_ascending_absolute : simpl never.
#[global] Arguments decode_spent_ids_elias_delta_ascending_absolute : simpl never.

(** ** The deltas of an ascending list, after [p] *)
Fixpoint deltas (p : Z) (l : list Z) : list Z :=
  match l with
  | [] => []
  | u :: l => u - p :: deltas u l
  end.

Lemma length_deltas p l : length (deltas p l) = length l.
Proof. revert p; induction l as [|u l IH]; intros p; simpl; [done|]. by rewrite IH. Qed.

Lemma deltas_width p l :
  -1 ≤ p → StronglySorted Z.lt (p :: l) → Forall (λ u, u < 2 ^ 64) l → ¬ (p = -1 ∧ head l = Some (2 ^ 64 - 1)) →
  Forall (λ v, 1 ≤ v < 2 ^ 64) (deltas p l).
Proof.
  revert p; induction l as [|u l IH]; intros p Hp Hs Hw Hh; simpl; [constructor|].
  apply StronglySorted_inv in Hs as [Hs Hu]. apply Forall_cons in Hu as [Hu _].
  apply Forall_cons in Hw as [Hu' Hw]. constructor.
  - split; [lia|]. destruct (decide (p = -1)) as [->|]; [|lia].
    destruct (decide (u = 2 ^ 64 - 1)) as [->|]; [|lia]. destruct Hh. done.
  - apply IH; try done; lia.
Qed.

Lemma default_last_cons (p u : Z) l : default p (last (u :: l)) = default u (last l).
Proof. rewrite last_cons. by destruct (last l). Qed.

Lemma spent_step_some p u vs :
  spent_step (Some p, vs) u =
    if bool_decide (p < u) then Ok (Some u, vs ++ [u - p])
    else if bool_decide (p = u)
    then Err "duplicate spent uid cannot be Elias-delta encoded as a positive delta"
    else Err "spent ids are not sorted ascending".
Proof.
  unfold spent_step, checked_sub. repeat (case_bool_decide; rsimpl); done || lia.
Qed.
Lemma spent_step_none u vs :
  0 ≤ u →
  spent_step (None, vs) u =
    if bool_decide (u + 1 < 2 ^ 64) then Ok (Some u, vs ++ [u + 1])
    else Err "spent uid overflow while encoding first value".
Proof.
  intros. unfold spent_step, checked_add. repeat (case_bool_decide; rsimpl); done || lia.
Qed.
Lemma unspent_step_eq u d out :
  unspent_step (u, out) d =
    if bool_decide (u + d < 2 ^ 64) then Ok (u + d, out ++ [u + d])
    else Err "spent uid delta overflow".
Proof. unfold unspent_step, checked_add. by case_bool_decide. Qed.

Lemma spent_steps_some p l vs :
  StronglySorted Z.lt (p :: l) →
  fold_res spent_step (Some p, vs) l = Ok (Some (default p (last l)), vs ++ deltas p l).
Proof.
  revert p vs; induction l as [|u l IH]; intros p vs Hs; cbn [fold_res deltas].
  { by rewrite app_nil_r. }
  apply StronglySorted_inv in Hs as [Hs Hu]. apply Forall_cons in Hu as [Hu _].
  rewrite spent_step_some, bool_decide_true by lia. rsimpl. rewrite IH by done.
  rewrite <- app_assoc. by rewrite default_last_cons.
Qed.

(** A repeated UID is an error. *)
Lemma spent_steps_dup p l vs :
  StronglySorted Z.le (p :: l) → ¬ NoDup (p :: l) → is_err (fold_res spent_step (Some p, vs) l).
Proof.
  revert p vs; induction l as [|u l IH]; intros p vs Hs Hd.
  { destruct Hd. apply NoDup_singleton. }
  apply StronglySorted_inv in Hs as [Hs Hu]. apply Forall_cons in Hu as [Hu Hl].
  cbn [fold_res]. rewrite spent_step_some. case_bool_decide; rsimpl; [|by case_bool_decide].
  apply IH; [done|]. intros Hn. apply Hd.
  apply NoDup_cons. split; [|done]. apply StronglySorted_inv in Hs as [_ Hs].
  rewrite Forall_forall in Hs. intros [->|Hin]%elem_of_cons; [lia|]. apply Hs in Hin. lia.
Qed.

Lemma sorted_lt l : StronglySorted Z.le l → NoDup l → StronglySorted Z.lt l.
Proof.
  induction 1 as [|x l Hs IH Hx]; intros Hn; [constructor|].
  apply NoDup_cons in Hn as [Hni Hn]. constructor; [by apply IH|].
  rewrite !Forall_forall in *. intros y Hy. specialize (Hx y Hy).
  assert (x ≠ y) by (intros ->; done). lia.
Qed.

Lemma sorted_ids_lt ids :
  NoDup ids → StronglySorted Z.lt (merge_sort Z.le ids).
Proof.
  intros Hn. apply sorted_lt; [apply (StronglySorted_merge_sort Z.le)|].
  by rewrite merge_sort_Permutation.
Qed.

Definition uids_wf (ids : list Z) : Prop := Forall (in_width 64) ids.

Lemma encode_spent_ids_spec ids :
  uids_wf ids → NoDup ids → ids ≠ [2 ^ 64 - 1] →
  encode_spent_ids_elias_delta_ascending_absolute ids
  = (count ← try_from 32 (len ids);
     Ok (count, pack (delta_stream (deltas (-1) (merge_sort Z.le ids))))) ∧
  Forall (λ v, 1 ≤ v < 2 ^ 64) (deltas (-1) (merge_sort Z.le ids)).
Proof.
  intros Hw Hn Hmax. pose proof (sorted_ids_lt ids Hn) as Hs.
  pose proof (merge_sort_Permutation Z.le ids) as Hp.
  unfold encode_spent_ids_elias_delta_ascending_absolute.
  assert (length (merge_sort Z.le ids) = length ids) as Hlen by (by rewrite Hp).
  assert (uids_wf (merge_sort Z.le ids)) as Hw' by (unfold uids_wf; by rewrite Hp).
  assert (merge_sort Z.le ids ≠ [2 ^ 64 - 1]) as Hmax'.
  { intros E. rewrite E in Hp. by apply Permutation_singleton_l in Hp. }
  rewrite <- Hlen in *. clear Hp Hlen Hmax Hw Hn.
  generalize dependent (merge_sort Z.le ids). intros l Hs Hw Hmax.
  destruct l as [|u l]; [done|]. rewrite bool_decide_false by done.
  apply Forall_cons in Hw as [Hu Hw].
  assert (u < 2 ^ 64 - 1) as Hu1.
  { unfold in_width in Hu. destruct (decide (u = 2 ^ 64 - 1)) as [->|]; [|lia].
    destruct l as [|v l]; [done|]. apply StronglySorted_inv in Hs as [_ Hs].
    apply Forall_cons in Hs as [? _]. apply Forall_cons in Hw as [[] _]. lia. }
  assert (Forall (λ v, 1 ≤ v < 2 ^ 64) (deltas (-1) (u :: l))) as Hd.
  { unfold in_width in Hu. apply deltas_width; [lia| | |].
    - constructor; [done|]. apply StronglySorted_inv in Hs as [_ Hs].
      constructor; [lia|]. eapply Forall_impl; [exact Hs|]. intros; lia.
    - constructor; [lia|]. eapply Forall_impl; [exact Hw|]. intros ? []; lia.
    - intros [_ [= ->]]. lia. }
  split; [|done]. cbn [fold_res]. unfold in_width in Hu.
  rewrite spent_step_none, bool_decide_true by lia. rsimpl. rewrite spent_steps_some by done. rsimpl.
  cbn [app]. cbn [deltas] in Hd |- *. replace (u - -1) with (u + 1) in * by lia.
  cbn [length]. rewrite length_deltas. destruct (try_from _ _); rsimpl; [|done..].
  by rewrite encode_elias_delta_spec by (eapply Forall_impl; [exact Hd|]; intros ? []; done).
Qed.

Lemma encode_spent_ids_dup ids :
  uids_wf ids → ¬ NoDup ids → is_err (encode_spent_ids_elias_delta_ascending_absolute ids).
Proof.
  intros Hw Hn. unfold encode_spent_ids_elias_delta_ascending_absolute.
  pose proof (merge_sort_Permutation Z.le ids) as Hp.
  pose proof (StronglySorted_merge_sort Z.le ids) as Hs.
  unfold uids_wf in Hw. rewrite <- Hp in Hn, Hw. destruct (merge_sort Z.le ids) as [|u l]; [by destruct Hn; constructor|].
  rewrite bool_decide_false by done. cbn [fold_res]. apply Forall_cons in Hw as [[] _].
  rewrite spent_step_none by done.
  case_bool_decide; rsimpl; [|done].
  pose proof (spent_steps_dup u l ([] ++ [u + 1]) Hs Hn) as He.
  by destruct (fold_res _ _ _) as [[]| |].
Qed.

Lemma encode_spent_ids_max :
  is_err (encode_spent_ids_elias_delta_ascending_absolute [2 ^ 64 - 1]).
Proof. done. Qed.

(** ** Decoding *)
Lemma unspent_steps_deltas u l out :
  StronglySorted Z.lt (u :: l) → Forall (in_width 64) l →
  fold_res unspent_step (u, out) (deltas u l) = Ok (default u (last l), out ++ l).
Proof.
  revert u out; induction l as [|v l IH]; intros u out Hs Hw; cbn [fold_res deltas].
  { by rewrite app_nil_r. }
  apply StronglySorted_inv in Hs as [Hs _]. apply Forall_cons in Hw as [Hv Hw].
  unfold in_width in Hv. rewrite unspent_step_eq, bool_decide_true by lia. rsimpl.
  replace (u + (v - u)) with v by lia. rewrite IH, <- app_assoc by done.
  by rewrite default_last_cons.
Qed.

Lemma decode_spent_ids_spec l rest :
  StronglySorted Z.lt l → uids_wf l → l ≠ [] →
  Forall (λ v, 1 ≤ v < 2 ^ 64) (deltas (-1) l) →
  decode_spent_ids_elias_delta_ascending_absolute (len l)
    (pack (delta_stream (deltas (-1) l)) ++ rest) = Ok l.
Proof.
  intros Hs Hw Hne Hd. unfold decode_spent_ids_elias_delta_ascending_absolute.
  rewrite bool_decide_false by (destruct l; [done|simpl; lia]).
  rewrite Nat2Z.id, <- (length_deltas (-1)), decode_elias_delta_spec by done. rsimpl.
  destruct l as [|u l]; [done|]. cbn [deltas index lookup list_lookup]. unfold index. simpl. rsimpl.
  apply Forall_cons in Hw as [Hu Hw]. unfold in_width in Hu.
  unfold checked_sub. rewrite bool_decide_true by lia. rsimpl.
  replace (u - -1 - 1) with u by lia. rewrite drop_0. by rewrite unspent_steps_deltas.
Qed.

Lemma snoc_sorted_lt out u v :
  StronglySorted Z.lt (out ++ [u]) → u < v → StronglySorted Z.lt ((out ++ [u]) ++ [v]).
Proof.
  intros Hs Hv. apply StronglySorted_app. split_and!; [|done|repeat constructor].
  intros x y Hx ->%list_elem_of_singleton.
  apply elem_of_app in Hx as [Hx|Hx%list_elem_of_singleton]; [|lia].
  apply (StronglySorted_app_1_elem_of _ _ _ x u) in Hs; [lia|done|by apply list_elem_of_singleton].
Qed.

(** What the decoder returns is strictly ascending and fits in 64 bits. *)
Lemma unspent_steps_total ds u out :
  Forall (λ d, 1 ≤ d) ds → in_width 64 u → StronglySorted Z.lt (out ++ [u]) → uids_wf out →
  match fold_res unspent_step (u, out ++ [u]) ds with
  | Ok (_, l) => length l = (length out + 1 + length ds)%nat ∧ StronglySorted Z.lt l ∧ uids_wf l
  | Err _ => True
  | Panic _ => False
  end.
Proof.
  revert u out; induction ds as [|d ds IH]; intros u out Hd Hu Hs Hw; cbn [fold_res].
  { rewrite length_app. simpl. split_and!; [lia|done|]. apply Forall_app. split; [done|].
    by constructor. }
  apply Forall_cons in Hd as [Hd1 Hd]. rewrite unspent_step_eq.
  case_bool_decide as Hlt; rsimpl; [|done].
  assert (in_width 64 (u + d)) as Hud by (unfold in_width in *; lia).
  specialize (IH (u + d) (out ++ [u]) Hd Hud (snoc_sorted_lt out u (u + d) Hs ltac:(lia))).
  rewrite length_app in IH. cbn [length] in *.
  assert (uids_wf (out ++ [u])) as Hw' by (apply Forall_app; split; [done|by constructor]).
  specialize (IH Hw'). destruct (fold_res _ _ _) as [[? l]| |]; [|done..].
  destruct IH as (Hl & ? & ?). split_and!; [lia|done|done].
Qed.

Lemma decode_spent_ids_len (count : Z) (stream : bytes) :
  in_width 32 count →
  match decode_spent_ids_elias_delta_ascending_absolute count stream with
  | Ok ids => len ids = count ∧ StronglySorted Z.lt ids ∧ uids_wf ids
  | Err _ => True
  | Panic _ => False
  end.
Proof.
  intros Hc.
  unfold decode_spent_ids_elias_delta_ascending_absolute, in_width in *.
  case_bool_decide as H0.
  { unfold ensure. case_bool_decide; rsimpl; [|done]. subst. split_and!; [done|constructor|constructor]. }
  pose proof (decode_values_total {| br_bytes := stream; br_bit_pos := 0 |} (Z.to_nat count)) as Hv.
  unfold decode_elias_delta_values. destruct (decode_values _ _) as [vs| |]; rsimpl; [|done..].
  destruct Hv as [Hl Hv]. destruct vs as [|v vs]; [simpl in Hl; lia|].
  apply Forall_cons in Hv as [Hv0 Hv]. cbn [index]. unfold index, checked_sub.
  cbn [lookup list_lookup]. rsimpl. rewrite bool_decide_true by lia. rsimpl. change (drop 1 (v :: vs)) with vs.
  pose proof (unspent_steps_total vs (v - 1) []) as Ht. cbn [app] in Ht.
  destruct (fold_res _ _ _) as [[? l]| |]; rsimpl; [|done|].
  - destruct Ht as (? & ? & ?); [by eapply Forall_impl; [exact Hv|]; intros ? []|
      unfold in_width; lia|repeat constructor|constructor|].
    cbn [length] in *. split_and!; [lia|done|done].
  - apply Ht; [by eapply Forall_impl; [exact Hv|]; intros ? []|
      unfold in_width; lia|repeat constructor|constructor].
Qed.

(** When the encoder succeeds. *)
Lemma encode_spent_ids_ok_iff ids :
  uids_wf ids →
  is_ok (encode_spent_ids_elias_delta_ascending_absolute ids) = true ↔
  NoDup ids ∧ ids ≠ [2 ^ 64 - 1] ∧ len ids < 2 ^ 32.
Proof.
  intros Hw. destruct (decide (NoDup ids)) as [Hn|Hn]; cycle 1.
  { pose proof (encode_spent_ids_dup ids Hw Hn) as He.
    destruct (encode_spent_ids_elias_delta_ascending_absolute ids); [done| |done].
    naive_solver. }
  destruct (decide (ids = [2 ^ 64 - 1])) as [->|Hm].
  { split; [done|naive_solver]. }
  destruct (encode_spent_ids_spec ids Hw Hn Hm) as [-> _]. unfold try_from.
  case_bool_decide; rsimpl; simpl; naive_solver lia.
Qed.

Lemma encode_spent_ids_no_panic ids :
  uids_wf ids → no_panic (encode_spent_ids_elias_delta_ascending_absolute ids).
Proof.
  intros Hw. destruct (decide (NoDup ids)) as [Hn|Hn]; cycle 1.
  { pose proof (encode_spent_ids_dup ids Hw Hn) as He.
    by destruct (encode_spent_ids_elias_delta_ascending_absolute ids). }
  destruct (decide (ids = [2 ^ 64 - 1])) as [->|Hm]; [by vm_compute|].
  destruct (encode_spent_ids_spec ids Hw Hn Hm) as [-> _]. unfold try_from.
  by case_bool_decide.
Qed.

Lemma spent_ids_encode_decode ids :
  uids_wf ids → NoDup ids → len ids < 2 ^ 32 → ids ≠ [2 ^ 64 - 1] →
  ∃ stream, encode_spent_ids_elias_delta_ascending_absolute ids = Ok (len ids, stream) ∧
    decode_spent_ids_elias_delta_ascending_absolute (len ids) stream = Ok (merge_sort Z.le ids).
Proof.
  intros Hw Hn Hl Hm. destruct (encode_spent_ids_spec ids Hw Hn Hm) as [He Hd].
  rewrite try_from_ok in He by done. eexists. split; [exact He|].
  pose proof (merge_sort_Permutation Z.le ids) as Hp.
  destruct (decide (ids = [])) as [->|Hne]; [done|].
  assert (length (merge_sort Z.le ids) = length ids) as Hlen by (by rewrite Hp).
  rewrite <- Hlen, <- (app_nil_r (pack _)). apply decode_spent_ids_spec.
  - by apply sorted_ids_lt.
  - unfold uids_wf. by rewrite Hp.
  - intros E. rewrite E in Hp. by apply Permutation_nil_l in Hp.
  - done.
Qed.

Lemma spent_ids_decode_encoded ids count stream :
  uids_wf ids → encode_spent_ids_elias_delta_ascending_absolute ids = Ok (count, stream) →
  in_width 32 count ∧
  decode_spent_ids_elias_delta_ascending_absolute count stream = Ok (merge_sort Z.le ids).
Proof.
  intros Hw He. destruct (proj1 (encode_spent_ids_ok_iff ids Hw)) as (Hn & Hm & Hl); [by rewrite He|].
  destruct (spent_ids_encode_decode ids Hw Hn Hl Hm) as (stream' & He' & Hd).
  rewrite He in He'. injection He' as -> ->. split; [unfold in_width; lia|done].
Qed.

(** ** Properties *)

(** The spent-UID stream loses nothing.  Any duplicate-free set of 64-bit UIDs,
    in any order, is encoded (the lone UID 2^64 - 1 excepted), and decoding the
    stream with its count gives the UIDs back in ascending order. *)
Theorem spent_ids_roundtrip (ids : list Z) :
  uids_wf ids → NoDup ids → len ids < 2 ^ 32 → ids ≠ [2 ^ 64 - 1] →
  ∃ stream, encode_spent_ids_elias_delta_ascending_absolute ids = Ok (len ids, stream) ∧
    decode_spent_ids_elias_delta_ascending_absolute (len ids) stream = Ok (merge_sort Z.le ids).
Proof. by apply spent_ids_encode_decode. Qed.

Lemma spent_ids_roundtrip_witness :
  ∃ stream, encode_spent_ids_elias_delta_ascending_absolute [7; 0; 2 ^ 64 - 1] = Ok (3, stream) ∧
    decode_spent_ids_elias_delta_ascending_absolute 3 stream = Ok [0; 7; 2 ^ 64 - 1].
Proof.
  apply (spent_ids_roundtrip [7; 0; 2 ^ 64 - 1]); [|vm_compute; repeat constructor; set_solver|done|done].
  repeat (constructor; [vm_compute; split; congruence|]). constructor.
Defined.

(** The encoder fails exactly on a repeated UID, on the lone UID 2^64 - 1
    (whose successor does not fit) and on 2^32 UIDs or more; it never panics. *)
Theorem encode_spent_ids_fails_iff (ids : list Z) (Hw : uids_wf ids) :
  (is_ok (encode_spent_ids_elias_delta_ascending_absolute ids) = false ↔
     ¬ NoDup ids ∨ ids = [2 ^ 64 - 1] ∨ 2 ^ 32 ≤ len ids) ∧
  no_panic (encode_spent_ids_elias_delta_ascending_absolute ids).
Proof.
  split; [|by apply encode_spent_ids_no_panic].
  pose proof (encode_spent_ids_ok_iff ids Hw) as H.
  destruct (is_ok _); (destruct (decide (NoDup ids)); [|naive_solver]);
    (destruct (decide (ids = [2 ^ 64 - 1])); [naive_solver|]);
    (destruct (decide (len ids < 2 ^ 32)); naive_solver lia).
Qed.

Lemma encode_spent_ids_fails_iff_witness :
  (is_ok (encode_spent_ids_elias_delta_ascending_absolute [5; 5]) = false ↔
     ¬ NoDup [5; 5] ∨ [5; 5] = [2 ^ 64 - 1] ∨ 2 ^ 32 ≤ len [5; 5]) ∧
  no_panic (encode_spent_ids_elias_delta_ascending_absolute [5; 5]).
Proof. apply encode_spent_ids_fails_iff. repeat (constructor; [vm_compute; split; congruence|]). constructor. Defined.

(** The decoder is total: on any count and bytes it returns exactly that many
    64-bit UIDs in strictly ascending order, or an error; it never panics. *)
Theorem decode_spent_ids_total (count : Z) (stream : bytes) (Hc : in_width 32 count) :
  match decode_spent_ids_elias_delta_ascending_absolute count stream with
  | Ok ids => len ids = count ∧ StronglySorted Z.lt ids ∧ uids_wf ids
  | Err _ => True
  | Panic _ => False
  end.
Proof. by apply decode_spent_ids_len. Qed.

Lemma decode_spent_ids_total_witness :
  match decode_spent_ids_elias_delta_ascending_absolute 2 [255; 0] with
  | Ok ids => len ids = 2 ∧ StronglySorted Z.lt ids ∧ uids_wf ids
  | Err _ => True
  | Panic _ => False
  end.
Proof. apply decode_spent_ids_total. vm_compute. split; congruence. Defined.
