(* ===== verification/TaggedHash.v ===== *)
(** * Tagged SHA-256

    Model of [light-server/src/tagged_hash.rs].  SHA-256 itself (the [sha2] crate)
    is a parameter: the class [Sha256] holds the function from the absorbed bytes
    to the digest, with the digest size as its only law. *)

From S2P Require Import Prelude Helper.

Class Sha256 := {
  sha256 : bytes → bytes;
  sha256_wf : ∀ m, array_wf 32 (sha256 m)
}.

Definition BIP352_INPUTS_TAG_HASH : bytes :=
  [30; 123; 150; 235; 22; 10; 104; 129; 159; 151; 118; 75; 67; 213; 215; 126;
   102; 89; 215; 88; 119; 157; 67; 168; 167; 117; 95; 91; 228; 90; 126; 51].
Definition TAPROOT_NUMS_H_XONLY : bytes :=
  [80; 146; 155; 116; 193; 160; 73; 84; 183; 139; 75; 96; 53; 233; 122; 94;
   7; 138; 90; 15; 40; 236; 150; 213; 71; 191; 238; 154; 206; 128; 58; 192].
Definition TRUNCATED_OUTPUT_HASH_TAG_HASH : bytes :=
  [10; 231; 105; 215; 65; 233; 180; 223; 254; 126; 10; 107; 158; 160; 8; 16;
   207; 80; 86; 116; 235; 123; 225; 112; 31; 194; 94; 169; 252; 41; 140; 217].

(** A hasher is the bytes it has absorbed; [base] has absorbed the tag hash twice. *)
Record TaggedSha256 := { base : bytes }.

Definition from_tag_hash (tag_hash : bytes) : TaggedSha256 := {| base := tag_hash ++ tag_hash |}.
Definition hasher (t : TaggedSha256) : bytes := base t.
Definition digest_32 `{!Sha256} (t : TaggedSha256) (data : bytes) : bytes :=
  sha256 (hasher t ++ data).

Lemma digest_32_wf `{!Sha256} t data : array_wf 32 (digest_32 t data).
Proof. apply sha256_wf. Qed.

(** An instance for concrete evaluation: not SHA-256, but a function with its type
    and digest size. *)
Definition sum_digest (m : bytes) : bytes :=
  let s := foldr Z.add 0 m in (λ i, (s + Z.of_nat i) mod 256) <$> seq 0 32.

Definition toy_sha256 : Sha256.
Proof.
  refine {| sha256 := sum_digest |}. intros m. split; [done|].
  apply Forall_fmap, Forall_forall. intros i _. unfold is_byte. simpl. lia.
Defined.
