(* ===== verification/OutputHash.v ===== *)
(** * Truncated output hashes

    Model of the truncated-output-hash functions of [light-server/src/index.rs]:
    the width chosen from the raw block size and the label budget, the packed
    length, and the packing itself, most significant bit first.

    [choose_truncated_output_hash_bits] computes [value.log2().ceil()] in [f64].
    Its argument is the product of 4, a [u32] and a [u16]: an integer multiple of 4
    below 2^50, exact in an [f64], and the logarithm of such a number that is not a
    power of two is further from any integer than the rounding error of [log2];
    the result is therefore [Z.log2_up]. *)

From S2P Require Import Prelude Bits Helper TaggedHash.

Definition RESPONSE_LABEL_BUDGET_TWO : Z := 2.
Definition RESPONSE_LABEL_BUDGET_HUNDRED : Z := 100.

Definition response_label_budget (labels : option Z) : Z :=
  match labels with
  | Some labels =>
      if bool_decide (labels ≤ RESPONSE_LABEL_BUDGET_TWO) then RESPONSE_LABEL_BUDGET_TWO
      else RESPONSE_LABEL_BUDGET_HUNDRED
  | None => RESPONSE_LABEL_BUDGET_HUNDRED
  end.

Definition choose_truncated_output_hash_bits (output_count : nat) (raw_block_bytes label_budget : Z) : Z :=
  if bool_decide (output_count = 0%nat) || bool_decide (raw_block_bytes = 0) then 0
  else
    let value := 4 * raw_block_bytes * Z.max label_budget 1 in
    Z.max 1 (Z.min (Z.log2_up value) 255).

Definition checked_mul (w a b : Z) : option Z :=
  if bool_decide (a * b < 2 ^ w) then Some (a * b) else None.

Definition packed_truncated_output_hash_len (output_count : nat) (bits : Z) : res nat :=
  if bool_decide (output_count = 0%nat) || bool_decide (bits = 0) then Ok 0%nat
  else
    total_bits ← ok_or (checked_mul 64 (Z.of_nat output_count) bits)
      "truncated output hash bit length overflow";
    Ok (Z.to_nat ((total_bits + 7) / 8)).

(** One bit of one key: the state is [out] and [out_bit]. *)
Definition pack_hash_bit (digest : bytes) (st : bytes * nat) (bit : nat) : res (bytes * nat) :=
  let '(out, out_bit) := st in
  d ← index digest (bit / 8);
  let src := Z.land (Z.shiftr d (Z.of_nat (7 - bit mod 8))) 1 in
  if bool_decide (src ≠ 0) then
    let byte := (out_bit / 8)%nat in
    let shift := Z.of_nat (7 - out_bit mod 8) in
    b ← index out byte;
    Ok (<[byte := Z.lor b (Z.shiftl 1 shift)]> out, S out_bit)
  else Ok (out, S out_bit).

Section packing.
Context `{!Sha256}.

Definition truncated_output_hash_hasher : TaggedSha256 :=
  from_tag_hash TRUNCATED_OUTPUT_HASH_TAG_HASH.

Definition pack_truncated_output_hash_from_keys (keys : list bytes) (bits : Z) : res bytes :=
  if bool_decide (bits = 0) then Ok []
  else
    n ← packed_truncated_output_hash_len (length keys) bits;
    '(out, _) ← fold_res (λ st key,
      let digest := digest_32 truncated_output_hash_hasher key in
      fold_res (pack_hash_bit digest) st (seq 0 (Z.to_nat bits))) (replicate n 0, 0%nat) keys;
    Ok out.

(** ** Specification: the packed stream *)

(** The first [bits] bits of the tagged hash of a key. *)
Definition key_hash_bits (bits : Z) (key : bytes) : list bool :=
  take (Z.to_nat bits) (unpack (digest_32 truncated_output_hash_hasher key)).

Definition hash_stream (bits : Z) (keys : list bytes) : bytes :=
  pack (keys ≫= key_hash_bits bits).

Lemma length_key_hash_bits bits key :
  0 ≤ bits ≤ 256 → length (key_hash_bits bits key) = Z.to_nat bits.
Proof.
  intros. unfold key_hash_bits. rewrite length_take, length_unpack.
  rewrite (proj1 (digest_32_wf _ _)). lia.
Qed.

Lemma length_stream_bits bits keys :
  0 ≤ bits ≤ 256 → length (keys ≫= key_hash_bits bits) = (length keys * Z.to_nat bits)%nat.
Proof.
  intros. induction keys as [|k keys IH]; [done|].
  rewrite bind_cons, length_app, IH, length_key_hash_bits by done. simpl. lia.
Qed.

(** The buffer of [n] bytes after the bits [l] were pushed. *)
Definition buffer (n : nat) (l : list bool) : bytes := byte_at l <$> seq 0 n.

Lemma buffer_nil n : buffer n [] = replicate n 0.
Proof.
  unfold buffer. rewrite (list_fmap_ext (byte_at []) (λ _, 0)).
  - rewrite <- (length_seq n 0) at 2. apply const_fmap. done.
  - intros i x _. apply byte_at_overflow. simpl. lia.
Qed.

Lemma pack_hash_bit_spec digest n l bit b :
  unpack digest !! bit = Some b → (length l < 8 * n)%nat →
  pack_hash_bit digest (buffer n l, length l) bit = Ok (buffer n (l ++ [b]), S (length l)).
Proof.
  intros Hb Hn. unfold pack_hash_bit. rsimpl.
  rewrite (Nat.div_mod_eq bit 8) in Hb. pose proof (Nat.mod_upper_bound bit 8).
  rewrite lookup_unpack in Hb by lia.
  apply fmap_Some in Hb as (d & Hd & ->). rewrite (index_ok _ _ _ Hd). rsimpl.
  rewrite shiftr_land_1_ne by lia.
  replace (7 - Z.of_nat (bit mod 8)) with (Z.of_nat (7 - bit mod 8)) by lia.
  pose proof (set_bit_step n l (Z.testbit d (Z.of_nat (7 - bit mod 8))) ltac:(lia)) as Hs.
  destruct (Z.testbit d _); [|unfold buffer; by rewrite <- Hs].
  rewrite (index_ok _ _ (byte_at l (length l / 8)))
    by (unfold buffer; rewrite list_lookup_fmap, lookup_seq_lt by lia; done).
  rsimpl. unfold buffer. by rewrite <- Hs.
Qed.

Lemma pack_hash_bits_spec digest n l k m :
  (m + k ≤ length (unpack digest))%nat → (length l + k ≤ 8 * n)%nat →
  fold_res (pack_hash_bit digest) (buffer n l, length l) (seq m k)
  = Ok (buffer n (l ++ take k (drop m (unpack digest))), (length l + k)%nat).
Proof.
  revert l m; induction k as [|k IH]; intros l m Hd Hn; cbn [seq fold_res].
  { by rewrite take_0, app_nil_r, Nat.add_0_r. }
  destruct (lookup_lt_is_Some_2 (unpack digest) m) as [b Hb]; [lia|].
  rewrite (pack_hash_bit_spec digest n l m b) by (done || lia). rsimpl.
  replace (S (length l)) with (length (l ++ [b])) by (rewrite length_app; simpl; lia).
  rewrite IH by (rewrite ?length_app; simpl; lia). rewrite (drop_S _ _ _ Hb). cbn [take].
  rewrite <- app_assoc. cbn [app]. do 2 f_equal. rewrite length_app. simpl. lia.
Qed.

Lemma packed_len_spec n bits :
  0 ≤ bits < 256 → Z.of_nat n < 2 ^ 56 →
  packed_truncated_output_hash_len n bits = Ok (bytes_for (n * Z.to_nat bits)).
Proof.
  intros Hb Hn. unfold packed_truncated_output_hash_len, bytes_for.
  destruct (bool_decide_reflect (n = 0%nat)) as [->|]; [done|]. cbn [orb].
  case_bool_decide; [subst; f_equal; lia|].
  unfold checked_mul. rewrite bool_decide_true by nia. rsimpl. f_equal.
  replace (Z.of_nat n * bits) with (Z.of_nat (n * Z.to_nat bits)) by lia. lia.
Qed.

Lemma pack_keys_loop n bits keys l :
  0 ≤ bits < 256 → (length l + length keys * Z.to_nat bits ≤ 8 * n)%nat →
  fold_res (λ st key,
      let digest := digest_32 truncated_output_hash_hasher key in
      fold_res (pack_hash_bit digest) st (seq 0 (Z.to_nat bits))) (buffer n l, length l) keys
  = Ok (buffer n (l ++ (keys ≫= key_hash_bits bits)), (length l + length keys * Z.to_nat bits)%nat).
Proof.
  intros Hb. revert l; induction keys as [|k keys IH]; intros l Hl; cbn [fold_res].
  { cbn. rewrite app_nil_r. do 2 f_equal. lia. }
  cbn [length] in Hl. cbv zeta. rewrite pack_hash_bits_spec; [|rewrite length_unpack,
    (proj1 (digest_32_wf _ _)); lia|lia]. rsimpl.
  rewrite drop_0. fold (key_hash_bits bits k).
  replace (length l + Z.to_nat bits)%nat with (length (l ++ key_hash_bits bits k))
    by (rewrite length_app, length_key_hash_bits; lia).
  rewrite IH by (rewrite length_app, length_key_hash_bits; lia).
  rewrite bind_cons, <- app_assoc. do 2 f_equal.
  rewrite length_app, length_key_hash_bits by lia. cbn [length]. lia.
Qed.

Lemma pack_keys_spec bits keys :
  0 ≤ bits < 256 → len keys < 2 ^ 56 →
  pack_truncated_output_hash_from_keys keys bits = Ok (hash_stream bits keys).
Proof.
  intros Hb Hk. unfold pack_truncated_output_hash_from_keys, hash_stream.
  case_bool_decide as H0.
  { subst. f_equal. unfold pack. rewrite length_stream_bits by lia.
    by replace (length keys * Z.to_nat 0)%nat with 0%nat by lia. }
  rewrite packed_len_spec by done. rsimpl. rewrite <- buffer_nil.
  rewrite (pack_keys_loop _ bits keys []) by (try unfold bytes_for; simpl; lia). rsimpl.
  unfold pack, buffer. by rewrite length_stream_bits by lia.
Qed.

Lemma length_hash_stream bits keys :
  0 ≤ bits ≤ 256 → length (hash_stream bits keys) = bytes_for (length keys * Z.to_nat bits).
Proof. intros. unfold hash_stream. by rewrite length_pack, length_stream_bits. Qed.

End packing.

Lemma choose_bits_bound n raw budget :
  0 ≤ choose_truncated_output_hash_bits n raw budget < 256.
Proof. unfold choose_truncated_output_hash_bits. case_match; lia. Qed.

Lemma choose_bits_pos n raw budget :
  n ≠ 0%nat → raw ≠ 0 → 1 ≤ choose_truncated_output_hash_bits n raw budget.
Proof.
  intros. unfold choose_truncated_output_hash_bits. rewrite !bool_decide_false by done. simpl. lia.
Qed.

Lemma response_label_budget_cases labels :
  response_label_budget labels = RESPONSE_LABEL_BUDGET_TWO ∨
  response_label_budget labels = RESPONSE_LABEL_BUDGET_HUNDRED.
Proof. unfold response_label_budget. destruct labels; [case_bool_decide|]; auto. Qed.

#[global] Arguments pack_truncated_output_hash_from_keys : simpl never.
#[global] Arguments packed_truncated_output_hash_len : simpl never.
#[global] Arguments choose_truncated_output_hash_bits : simpl never.
