(* ===== verification/LightBlock.v ===== *)
(** * Light blocks: data, validation, filtered responses

    Model of the core of [light-server/src/index.rs]: the stored block, the block
    served to clients, their validation, and the response derived from a stored
    block under a filter (cut-through, reuse).  A [usize] count of an in-memory
    list is a [nat]; the fields of the wire format are [Z]. *)

From S2P Require Import Prelude Bits EliasDelta Helper TaggedHash Bitmap SpentIds OutputHash.

Definition MAX_U16_SECTION_COUNT : Z := 65535.
Definition STORAGE_OUTPUT_FLAG_REUSED : Z := 1.
Definition STORAGE_SPENT_HEIGHT_UNSPENT : Z := 2 ^ 32 - 1.
Definition U64_MAX : Z := 2 ^ 64 - 1.

Record TweakEntryInput := { output_count : Z; tweak : bytes }.

Inductive SpentIdCodec := EliasDeltaAscendingAbsolute.

Record LightBlockInput := {
  lb_height : Z;
  lb_block_hash : bytes;
  lb_previous_block_hash : bytes;
  lb_first_uid : Z;
  lb_tx_count : Z;
  lb_skipped_txs_for_tweaks : bytes;
  lb_tweaks : list TweakEntryInput;
  lb_truncated_output_hash_bits : Z;
  lb_truncated_output_hashes : bytes;
  lb_spent_id_codec : SpentIdCodec;
  lb_spent_count : Z;
  lb_spent_ids : bytes
}.

Record StoredOutputEntryInput := { key : bytes; spent_height : Z; flags : Z }.
Record StoredSpendEntryInput := { spent_uid : Z; creation_height : Z }.

Record StoredLightBlockInput := {
  sb_height : Z;
  sb_block_hash : bytes;
  sb_previous_block_hash : bytes;
  sb_first_uid : Z;
  sb_tx_count : Z;
  sb_skipped_txs_for_tweaks : bytes;
  sb_tweaks : list TweakEntryInput;
  sb_skipped_outputs : list Z;
  sb_outputs : list StoredOutputEntryInput;
  sb_spends : list StoredSpendEntryInput;
  sb_raw_block_bytes : Z;
  sb_truncated_output_hash_for_two_labels : bytes;
  sb_truncated_output_hash_for_hundred_labels : bytes
}.

Record StoredBlockResponseFilter := {
  cutthrough_start : option Z;
  cutthrough_tip : option Z;
  filter_reuse : bool;
  labels : option Z
}.
Definition filter_default : StoredBlockResponseFilter :=
  {| cutthrough_start := None; cutthrough_tip := None; filter_reuse := false; labels := None |}.

#[export] Instance TweakEntryInput_eq_dec : EqDecision TweakEntryInput.
Proof. solve_decision. Defined.
#[export] Instance StoredOutputEntryInput_eq_dec : EqDecision StoredOutputEntryInput.
Proof. solve_decision. Defined.
#[export] Instance StoredSpendEntryInput_eq_dec : EqDecision StoredSpendEntryInput.
Proof. solve_decision. Defined.

(** ** Tweak payloads: the x coordinate of a compressed point *)
Definition tx_tweak_payload_bytes (t : bytes) : bytes := drop 1 t.
Definition tx_tweak_from_payload_bytes (bs : bytes) : res bytes :=
  _ ← ensure (bool_decide (length bs = 32%nat)) "tweak payload must be 32 bytes";
  Ok (2 :: bs).

(** ** Filter decisions *)
Definition should_omit_stored_output (block_height : Z) (output : StoredOutputEntryInput)
    (filter : StoredBlockResponseFilter) : bool :=
  if filter_reuse filter && bool_decide (Z.land (flags output) STORAGE_OUTPUT_FLAG_REUSED ≠ 0)
  then true
  else match cutthrough_start filter with
  | Some start =>
      let tip := default U64_MAX (cutthrough_tip filter) in
      bool_decide (start ≤ block_height) &&
      bool_decide (spent_height output ≠ STORAGE_SPENT_HEIGHT_UNSPENT) &&
      bool_decide (spent_height output ≤ tip)
  | None => false
  end.

Definition should_omit_stored_spend (block_height : Z) (spend : StoredSpendEntryInput)
    (filter : StoredBlockResponseFilter) : bool :=
  match cutthrough_start filter with
  | None => false
  | Some start =>
      let tip := default U64_MAX (cutthrough_tip filter) in
      bool_decide (block_height ≤ tip) && bool_decide (start ≤ creation_height spend)
  end.

(** ** Validation *)
Definition ensure_u16_len (label : string) (n : nat) : res unit :=
  ensure (bool_decide (Z.of_nat n ≤ MAX_U16_SECTION_COUNT)) (label +:+ " count exceeds u16 section bound").

Definition validate_sorted_unique_u16 (values : list Z) (label : string) : res unit :=
  fold_res (λ _ pair, ensure (bool_decide (pair.1 < pair.2)) (label +:+ " must be sorted and unique"))
    tt (zip values (drop 1 values)).

Definition validate_stored_p2tr_uid_domain (output_count : nat) (skipped_outputs : list Z) : res unit :=
  p2tr_output_count ← ok_or (checked_add 64 (Z.of_nat output_count) (len skipped_outputs))
    "stored P2TR output domain count overflow";
  _ ← ensure (bool_decide (p2tr_output_count ≤ 65536))
    "stored P2TR output count exceeds u16 slot domain";
  fold_res (λ _ slot, ensure (bool_decide (slot < p2tr_output_count))
    "stored skipped output slot is outside derived P2TR output count") tt skipped_outputs.

Definition light_block_output_count (input : LightBlockInput) : res Z :=
  fold_res (λ acc entry, ok_or (checked_add 64 acc (output_count entry))
    "tweak output count sum overflow") 0 (lb_tweaks input).

Definition decode_light_block_spent_ids (input : LightBlockInput) : res (list Z) :=
  match lb_spent_id_codec input with
  | EliasDeltaAscendingAbsolute =>
      decode_spent_ids_elias_delta_ascending_absolute (lb_spent_count input) (lb_spent_ids input)
  end.

Definition validate_light_block_input (input : LightBlockInput) : res unit :=
  _ ← validate_skipped_txs_for_tweaks (lb_tx_count input) (lb_skipped_txs_for_tweaks input);
  skipped_tx_count ← skipped_txs_for_tweaks_count (lb_tx_count input) (lb_skipped_txs_for_tweaks input);
  _ ← ensure_u16_len "tweaks" (length (lb_tweaks input));
  _ ← ensure (bool_decide (lb_tx_count input = skipped_tx_count + len (lb_tweaks input)))
    "tx_count must equal skipped tx count plus tweak count";
  declared_outputs ← light_block_output_count input;
  expected ← packed_truncated_output_hash_len (Z.to_nat declared_outputs)
    (lb_truncated_output_hash_bits input);
  _ ← ensure (bool_decide (expected = length (lb_truncated_output_hashes input)))
    "truncated output hash byte length does not match expected";
  _ ← (if bool_decide (declared_outputs = 0) then
         ensure (bool_decide (lb_truncated_output_hash_bits input = 0))
           "empty truncated output hash stream must use 0 bits"
       else
         ensure (bool_decide (0 < lb_truncated_output_hash_bits input))
           "non-empty truncated output hash stream must use a positive bit width");
  _ ← fold_res (λ _ entry,
        ensure (bool_decide (length (tx_tweak_payload_bytes (tweak entry)) = 32%nat))
          "tweak payload must be 32 bytes") tt (lb_tweaks input);
  decoded_spends ← decode_light_block_spent_ids input;
  ensure (bool_decide (len decoded_spends = lb_spent_count input))
    "spent count does not match decoded spent ID count".

#[global] Arguments validate_light_block_input : simpl never.
#[global] Arguments light_block_output_count : simpl never.

(** ** Responses *)
Definition to_response_input_for_labels (self : StoredLightBlockInput) (labels : option Z)
    : res LightBlockInput :=
  let label_budget := response_label_budget labels in
  let output_count := length (sb_outputs self) in
  let bits := choose_truncated_output_hash_bits output_count (sb_raw_block_bytes self) label_budget in
  truncated_output_hashes ←
    (if bool_decide (label_budget = RESPONSE_LABEL_BUDGET_TWO)
     then Ok (sb_truncated_output_hash_for_two_labels self)
     else if bool_decide (label_budget = RESPONSE_LABEL_BUDGET_HUNDRED)
     then Ok (sb_truncated_output_hash_for_hundred_labels self)
     else Panic "label budget is normalized");
  '(spent_count, spent_ids) ← encode_spent_ids_elias_delta_ascending_absolute
    (spent_uid <$> sb_spends self);
  let response := {|
    lb_height := sb_height self;
    lb_block_hash := sb_block_hash self;
    lb_previous_block_hash := sb_previous_block_hash self;
    lb_first_uid := sb_first_uid self;
    lb_tx_count := sb_tx_count self;
    lb_skipped_txs_for_tweaks := sb_skipped_txs_for_tweaks self;
    lb_tweaks := sb_tweaks self;
    lb_truncated_output_hash_bits := bits;
    lb_truncated_output_hashes := truncated_output_hashes;
    lb_spent_id_codec := EliasDeltaAscendingAbsolute;
    lb_spent_count := spent_count;
    lb_spent_ids := spent_ids |} in
  _ ← validate_light_block_input response;
  Ok response.

Definition to_response_input (self : StoredLightBlockInput) : res LightBlockInput :=
  match to_response_input_for_labels self None with
  | Err _ => Panic "stored block should have valid default response truncated output hash"
  | r => r
  end.

(** The inner loop over one tweak's outputs: the state is [output_keys] and [kept_count]. *)
Definition keep_output (height : Z) (filter : StoredBlockResponseFilter)
    (st : list bytes * Z) (output : StoredOutputEntryInput) : res (list bytes * Z) :=
  let '(output_keys, kept_count) := st in
  if should_omit_stored_output height output filter then Ok (output_keys, kept_count)
  else
    kept_count ← ok_or (checked_add 16 kept_count 1) "filtered tweak output count overflow";
    Ok (output_keys ++ [key output], kept_count).

Record FilterState := {
  fs_output_keys : list bytes;
  fs_tweaks : list TweakEntryInput;
  fs_output_cursor : nat;
  fs_skipped : bytes
}.

(** One iteration of the loop over tweaks and their transaction indexes. *)
Definition filter_tweak (self : StoredLightBlockInput) (filter : StoredBlockResponseFilter)
    (st : FilterState) (entry : TweakEntryInput * Z) : res FilterState :=
  let '(t, tx_index) := entry in
  group_end ← ok_or (checked_add 64 (Z.of_nat (fs_output_cursor st)) (output_count t))
    "stored tweak output cursor overflow at block";
  _ ← ensure (bool_decide (group_end ≤ len (sb_outputs self)))
    "stored tweak output count exceeds output list at block";
  group ← slice (sb_outputs self) (fs_output_cursor st) (Z.to_nat group_end);
  '(output_keys, kept_count) ← fold_res (keep_output (sb_height self) filter)
    (fs_output_keys st, 0) group;
  if bool_decide (0 < kept_count) then
    Ok {| fs_output_keys := output_keys;
          fs_tweaks := fs_tweaks st ++ [{| output_count := kept_count; tweak := tweak t |}];
          fs_output_cursor := Z.to_nat group_end; fs_skipped := fs_skipped st |}
  else
    skipped ← set_skipped_tx_in_bitmap (sb_tx_count self) (fs_skipped st) tx_index;
    Ok {| fs_output_keys := output_keys; fs_tweaks := fs_tweaks st;
          fs_output_cursor := Z.to_nat group_end; fs_skipped := skipped |}.

Section responses.
Context `{!Sha256}.

Definition to_filtered_response_input (self : StoredLightBlockInput)
    (filter : StoredBlockResponseFilter) : res LightBlockInput :=
  if negb (filter_reuse filter) && bool_decide (cutthrough_start filter = None)
  then to_response_input_for_labels self (labels filter)
  else
    tweak_tx_indexes ← derive_stored_tweak_tx_indexes (sb_tx_count self)
      (sb_skipped_txs_for_tweaks self) (length (sb_tweaks self));
    st ← fold_res (filter_tweak self filter)
      {| fs_output_keys := []; fs_tweaks := []; fs_output_cursor := 0;
         fs_skipped := sb_skipped_txs_for_tweaks self |}
      (zip (sb_tweaks self) tweak_tx_indexes);
    _ ← ensure (bool_decide (fs_output_cursor st = length (sb_outputs self)))
      "stored outputs not fully consumed by tweak output counts at block";
    '(spent_count, spent_ids) ← encode_spent_ids_elias_delta_ascending_absolute
      (spent_uid <$> base.filter (λ spend,
         should_omit_stored_spend (sb_height self) spend filter = false) (sb_spends self));
    let label_budget := response_label_budget (labels filter) in
    let bits := choose_truncated_output_hash_bits (length (fs_output_keys st))
      (sb_raw_block_bytes self) label_budget in
    truncated_output_hashes ← pack_truncated_output_hash_from_keys (fs_output_keys st) bits;
    let response := {|
      lb_height := sb_height self;
      lb_block_hash := sb_block_hash self;
      lb_previous_block_hash := sb_previous_block_hash self;
      lb_first_uid := sb_first_uid self;
      lb_tx_count := sb_tx_count self;
      lb_skipped_txs_for_tweaks := fs_skipped st;
      lb_tweaks := fs_tweaks st;
      lb_truncated_output_hash_bits := bits;
      lb_truncated_output_hashes := truncated_output_hashes;
      lb_spent_id_codec := EliasDeltaAscendingAbsolute;
      lb_spent_count := spent_count;
      lb_spent_ids := spent_ids |} in
    _ ← validate_light_block_input response;
    Ok response.

Definition build_stored_truncated_output_hashes (raw_block_bytes : Z)
    (outputs : list StoredOutputEntryInput) (label_budget : Z) : res bytes :=
  let bits := choose_truncated_output_hash_bits (length outputs) raw_block_bytes label_budget in
  pack_truncated_output_hash_from_keys (key <$> outputs) bits.

End responses.

Definition validate_stored_truncated_output_hashes (input : StoredLightBlockInput) : res unit :=
  fold_res (λ _ '(label_budget, truncated_output_hashes),
    let bits := choose_truncated_output_hash_bits (length (sb_outputs input))
      (sb_raw_block_bytes input) label_budget in
    expected ← packed_truncated_output_hash_len (length (sb_outputs input)) bits;
    ensure (bool_decide (length truncated_output_hashes = expected))
      "stored truncated output hash byte length does not match expected")
  tt [(RESPONSE_LABEL_BUDGET_TWO, sb_truncated_output_hash_for_two_labels input);
      (RESPONSE_LABEL_BUDGET_HUNDRED, sb_truncated_output_hash_for_hundred_labels input)].

Definition validate_stored_light_block_input (input : StoredLightBlockInput) : res unit :=
  _ ← ensure (bool_decide (sb_height input ≤ umax 32)) "stored block height exceeds u32 range";
  _ ← validate_skipped_txs_for_tweaks (sb_tx_count input) (sb_skipped_txs_for_tweaks input);
  skipped_tx_count ← skipped_txs_for_tweaks_count (sb_tx_count input) (sb_skipped_txs_for_tweaks input);
  _ ← ensure_u16_len "stored tweaks" (length (sb_tweaks input));
  _ ← ensure (bool_decide (sb_tx_count input = skipped_tx_count + len (sb_tweaks input)))
    "stored tx_count must equal skipped tx count plus tweak count";
  _ ← ensure_u16_len "stored skipped outputs" (length (sb_skipped_outputs input));
  _ ← ensure_u16_len "stored outputs" (length (sb_outputs input));
  _ ← validate_sorted_unique_u16 (sb_skipped_outputs input) "stored skipped outputs";
  _ ← validate_stored_p2tr_uid_domain (length (sb_outputs input)) (sb_skipped_outputs input);
  _ ← validate_stored_truncated_output_hashes input;
  response ← to_response_input_for_labels input None;
  _ ← validate_light_block_input response;
  fold_res (λ _ spend,
    height ← try_from 32 (sb_height input);
    ensure (bool_decide (creation_height spend ≤ height))
      "stored spend creation height exceeds spend block height") tt (sb_spends input).

#[global] Arguments validate_stored_light_block_input : simpl never.
#[global] Arguments validate_stored_truncated_output_hashes : simpl never.
#[global] Arguments validate_stored_p2tr_uid_domain : simpl never.
#[global] Arguments validate_sorted_unique_u16 : simpl never.
#[global] Arguments to_response_input_for_labels : simpl never.
#[global] Arguments to_filtered_response_input : simpl never.
#[global] Arguments should_omit_stored_output : simpl never.
#[global] Arguments should_omit_stored_spend : simpl never.
