(* ===== verification/LightValid.v ===== *)
(** * What the validators accept

    [light_valid] and [stored_valid] state, without the code's control flow, when
    [validate_light_block_input] and [validate_stored_light_block_input] accept. *)

From S2P Require Import Prelude Bits EliasDelta Helper TaggedHash Bitmap SpentIds OutputHash LightBlock.

(** The dense outputs a tweak list declares. *)
Definition declared (tweaks : list TweakEntryInput) : nat :=
  sum_list (Z.to_nat ∘ output_count <$> tweaks).

(** The Rust types of the fields. *)
Definition tweak_typed (e : TweakEntryInput) : Prop :=
  in_width 16 (output_count e) ∧ array_wf 33 (tweak e).

Record light_typed (r : LightBlockInput) : Prop := {
  lt_tx_count : in_width 16 (lb_tx_count r);
  lt_bitmap : bytes_wf (lb_skipped_txs_for_tweaks r);
  lt_tweaks : Forall tweak_typed (lb_tweaks r);
  lt_bits : in_width 8 (lb_truncated_output_hash_bits r);
  lt_spent_count : in_width 32 (lb_spent_count r)
}.

Record light_valid (r : LightBlockInput) : Prop := {
  lv_bitmap : bitmap_wf (lb_tx_count r) (lb_skipped_txs_for_tweaks r);
  lv_tweaks : len (lb_tweaks r) ≤ 65535;
  lv_dense : length (lb_tweaks r) =
    length (dense_indexes (lb_tx_count r) (lb_skipped_txs_for_tweaks r));
  lv_hashes : length (lb_truncated_output_hashes r) =
    bytes_for (declared (lb_tweaks r) * Z.to_nat (lb_truncated_output_hash_bits r));
  lv_bits : lb_truncated_output_hash_bits r = 0 ↔ declared (lb_tweaks r) = 0%nat;
  lv_spends : is_ok (decode_light_block_spent_ids r)
}.

Lemma declared_cons e l : declared (e :: l) = (Z.to_nat (output_count e) + declared l)%nat.
Proof. done. Qed.

Lemma declared_bound tweaks :
  Forall tweak_typed tweaks → Z.of_nat (declared tweaks) ≤ 65535 * len tweaks.
Proof.
  induction 1 as [|e l [He _] _ IH]; [done|]. rewrite declared_cons. cbn [length].
  unfold in_width in He. lia.
Qed.

Lemma count_loop_spec tweaks acc :
  Forall tweak_typed tweaks → 0 ≤ acc → acc + Z.of_nat (declared tweaks) < 2 ^ 64 →
  fold_res (λ acc entry, ok_or (checked_add 64 acc (output_count entry))
    "tweak output count sum overflow") acc tweaks = Ok (acc + Z.of_nat (declared tweaks)).
Proof.
  intros Hf. revert acc. induction Hf as [|e l [He _] _ IH]; intros acc Ha Hb; cbn [fold_res].
  { f_equal. unfold declared. simpl. lia. }
  rewrite declared_cons in *. unfold in_width in He.
  rewrite checked_add_ok by lia. rsimpl. rewrite IH by lia. f_equal. lia.
Qed.

Lemma output_count_spec r :
  light_typed r → len (lb_tweaks r) ≤ 65535 →
  light_block_output_count r = Ok (Z.of_nat (declared (lb_tweaks r))).
Proof.
  intros [_ _ Ht _ _] Hl. pose proof (declared_bound _ Ht).
  unfold light_block_output_count. rewrite count_loop_spec by (done || lia). f_equal.
Qed.

Lemma payload_length t : array_wf 33 t → length (tx_tweak_payload_bytes t) = 32%nat.
Proof. intros [Hl _]. unfold tx_tweak_payload_bytes. rewrite length_drop. lia. Qed.

(** The counts agree: [tx_count] is the skipped plus the dense transactions. *)
Lemma tx_count_dense n bm (k : nat) :
  in_width 16 n → n = len (skipped_indexes n bm) + Z.of_nat k ↔ k = length (dense_indexes n bm).
Proof. intros Hn. unfold in_width in Hn. pose proof (skipped_dense_length n bm). lia. Qed.

Lemma ensure_u16_len_Ok label n : ensure_u16_len label n = Ok tt ↔ Z.of_nat n ≤ 65535.
Proof. unfold ensure_u16_len. by rewrite ensure_Ok, bool_decide_eq_true. Qed.

Lemma decoded_count r l :
  light_typed r → decode_light_block_spent_ids r = Ok l → len l = lb_spent_count r.
Proof.
  intros [_ _ _ _ Hc]. unfold decode_light_block_spent_ids. destruct (lb_spent_id_codec r).
  intros H. pose proof (decode_spent_ids_len (lb_spent_count r) (lb_spent_ids r) Hc) as Ht.
  rewrite H in Ht. apply Ht.
Qed.

Lemma validate_light_ok r :
  light_typed r → validate_light_block_input r = Ok tt ↔ light_valid r.
Proof.
  intros Ht. pose proof Ht as [Hn Hb Htw Hbits Hc]. unfold validate_light_block_input.
  split.
  - intros H.
    apply bind_Ok in H as ([] & Hv & H). apply validate_skipped_ok in Hv; [|done..].
    apply bind_Ok in H as (k & Hk & H). rewrite skipped_count_spec in Hk by done.
    injection Hk as <-.
    apply bind_Ok in H as ([] & Hl%ensure_u16_len_Ok & H).
    apply bind_Ok in H as ([] & Hd%ensure_Ok%bool_decide_eq_true_1 & H).
    apply tx_count_dense in Hd; [|done].
    rewrite output_count_spec in H by done. cbn [mbind res_bind] in H.
    pose proof (declared_bound _ Htw). unfold in_width in Hbits.
    rewrite Nat2Z.id, packed_len_spec in H by lia. cbn [mbind res_bind] in H.
    apply bind_Ok in H as ([] & Hh%ensure_Ok%bool_decide_eq_true_1 & H).
    apply bind_Ok in H as ([] & Hz & H). apply bind_Ok in H as ([] & _ & H).
    apply bind_Ok in H as (l & Hs & _).
    constructor; try done.
    + case_bool_decide; apply ensure_Ok, bool_decide_eq_true_1 in Hz; lia.
    + by rewrite Hs.
  - intros [Hv Hl Hd Hh Hz Hs].
    rewrite (proj2 (validate_skipped_ok _ _ Hn Hb) Hv). rsimpl.
    rewrite skipped_count_spec by done. rsimpl.
    rewrite (proj2 (ensure_u16_len_Ok _ _) Hl). rsimpl.
    rewrite (ensure_ok (lb_tx_count r = _)) by (by apply tx_count_dense). rsimpl.
    rewrite output_count_spec by done. rsimpl.
    pose proof (declared_bound _ Htw). unfold in_width in Hbits.
    rewrite Nat2Z.id, packed_len_spec by lia. rsimpl.
    rewrite (ensure_ok (bytes_for _ = _)) by done. rsimpl.
    replace (if bool_decide (Z.of_nat (declared (lb_tweaks r)) = 0) then _ else _) with (Ok tt).
    2:{ symmetry. case_bool_decide; apply ensure_Ok, bool_decide_eq_true_2; lia. }
    rsimpl. rewrite (proj2 (fold_ensure (λ entry,
      length (tx_tweak_payload_bytes (tweak entry)) = 32%nat) _ _)).
    2:{ eapply Forall_impl; [exact Htw|]. intros e [_ He]. by apply payload_length. }
    rsimpl. destruct (decode_light_block_spent_ids r) as [l| |] eqn:E; [|done..]. rsimpl.
    apply ensure_Ok, bool_decide_eq_true_2. by apply decoded_count.
Qed.

(** ** Stored blocks *)
Definition output_typed (o : StoredOutputEntryInput) : Prop :=
  array_wf 32 (key o) ∧ in_width 32 (spent_height o) ∧ in_width 8 (flags o).
Definition spend_typed (s : StoredSpendEntryInput) : Prop :=
  in_width 64 (spent_uid s) ∧ in_width 32 (creation_height s).

Record stored_typed (s : StoredLightBlockInput) : Prop := {
  st_height : in_width 64 (sb_height s);
  st_hashes : array_wf 32 (sb_block_hash s) ∧ array_wf 32 (sb_previous_block_hash s);
  st_first_uid : in_width 64 (sb_first_uid s);
  st_tx_count : in_width 16 (sb_tx_count s);
  st_bitmap : bytes_wf (sb_skipped_txs_for_tweaks s);
  st_tweaks : Forall tweak_typed (sb_tweaks s);
  st_skipped : Forall (in_width 16) (sb_skipped_outputs s);
  st_outputs : Forall output_typed (sb_outputs s);
  st_spends : Forall spend_typed (sb_spends s);
  st_raw : in_width 32 (sb_raw_block_bytes s)
}.

Definition stored_bits (s : StoredLightBlockInput) (budget : Z) : Z :=
  choose_truncated_output_hash_bits (length (sb_outputs s)) (sb_raw_block_bytes s) budget.

(** The spends of a block can be encoded. *)
Definition spends_valid (s : StoredLightBlockInput) : Prop :=
  NoDup (spent_uid <$> sb_spends s) ∧ spent_uid <$> sb_spends s ≠ [U64_MAX] ∧
  len (sb_spends s) < 2 ^ 32.

Record stored_valid (s : StoredLightBlockInput) : Prop := {
  sv_height : sb_height s ≤ umax 32;
  sv_bitmap : bitmap_wf (sb_tx_count s) (sb_skipped_txs_for_tweaks s);
  sv_tweaks : len (sb_tweaks s) ≤ 65535;
  sv_dense : length (sb_tweaks s) =
    length (dense_indexes (sb_tx_count s) (sb_skipped_txs_for_tweaks s));
  sv_skipped : len (sb_skipped_outputs s) ≤ 65535;
  sv_outputs : len (sb_outputs s) ≤ 65535;
  sv_sorted : StronglySorted Z.lt (sb_skipped_outputs s);
  sv_domain : len (sb_outputs s) + len (sb_skipped_outputs s) ≤ 65536;
  sv_slots : Forall (λ slot, slot < len (sb_outputs s) + len (sb_skipped_outputs s))
    (sb_skipped_outputs s);
  sv_two : length (sb_truncated_output_hash_for_two_labels s) =
    bytes_for (length (sb_outputs s) * Z.to_nat (stored_bits s RESPONSE_LABEL_BUDGET_TWO));
  sv_hundred : length (sb_truncated_output_hash_for_hundred_labels s) =
    bytes_for (length (sb_outputs s) * Z.to_nat (stored_bits s RESPONSE_LABEL_BUDGET_HUNDRED));
  sv_declared : declared (sb_tweaks s) =
    if bool_decide (sb_raw_block_bytes s = 0) then 0%nat else length (sb_outputs s);
  sv_spends : spends_valid s;
  sv_creation : Forall (λ e, creation_height e ≤ sb_height s) (sb_spends s)
}.

Lemma sorted_windows l :
  Forall (λ p : Z * Z, p.1 < p.2) (zip l (drop 1 l)) ↔ StronglySorted Z.lt l.
Proof.
  split.
  - intros H. apply Sorted_StronglySorted; [intros x y z; lia|].
    induction l as [|x l IH]; [constructor|]. destruct l as [|y l]; [repeat constructor|].
    cbn [drop zip zip_with] in H. apply Forall_cons in H as [H1 H2].
    constructor; [by apply IH|by constructor].
  - induction 1 as [|x l Hs IH Hx]; [constructor|]. destruct l as [|y l]; [constructor|].
    cbn [drop zip zip_with]. apply Forall_cons in Hx as [Hx _]. by constructor.
Qed.

Lemma validate_sorted_ok values label :
  validate_sorted_unique_u16 values label = Ok tt ↔ StronglySorted Z.lt values.
Proof.
  unfold validate_sorted_unique_u16.
  by rewrite (fold_ensure (λ pair : Z * Z, pair.1 < pair.2)), sorted_windows.
Qed.

Lemma validate_domain_ok n slots :
  Z.of_nat n ≤ 65535 → len slots ≤ 65535 →
  validate_stored_p2tr_uid_domain n slots = Ok tt ↔
  Z.of_nat n + len slots ≤ 65536 ∧ Forall (λ s, s < Z.of_nat n + len slots) slots.
Proof.
  intros Hn Hl. unfold validate_stored_p2tr_uid_domain. rewrite checked_add_ok by lia.
  cbn [mbind res_bind ok_or]. rewrite bind_Ok, <- (fold_ensure _
    "stored skipped output slot is outside derived P2TR output count").
  split.
  - intros ([] & H%ensure_Ok%bool_decide_eq_true_1 & ?). done.
  - intros [H ?]. exists tt. split; [by apply ensure_ok|done].
Qed.

Lemma validate_hashes_ok s :
  len (sb_outputs s) ≤ 65535 →
  validate_stored_truncated_output_hashes s = Ok tt ↔
  length (sb_truncated_output_hash_for_two_labels s) =
    bytes_for (length (sb_outputs s) * Z.to_nat (stored_bits s RESPONSE_LABEL_BUDGET_TWO)) ∧
  length (sb_truncated_output_hash_for_hundred_labels s) =
    bytes_for (length (sb_outputs s) * Z.to_nat (stored_bits s RESPONSE_LABEL_BUDGET_HUNDRED)).
Proof.
  intros Hl. unfold validate_stored_truncated_output_hashes, stored_bits. cbn [fold_res].
  pose proof (λ b, choose_bits_bound (length (sb_outputs s)) (sb_raw_block_bytes s) b).
  rewrite !packed_len_spec by (done || lia). cbn [mbind res_bind].
  repeat case_bool_decide; simpl; naive_solver.
Qed.

Lemma hundred_bits_ge n raw :
  in_width 32 raw → n ≠ 0%nat → raw ≠ 0 →
  8 ≤ choose_truncated_output_hash_bits n raw RESPONSE_LABEL_BUDGET_HUNDRED.
Proof.
  unfold in_width, RESPONSE_LABEL_BUDGET_HUNDRED. intros Hr Hn H0.
  unfold choose_truncated_output_hash_bits. rewrite !bool_decide_false by done. cbn [orb].
  change (Z.max 100 1) with 100.
  pose proof (Z.log2_up_le_mono 400 (4 * raw * 100) ltac:(lia)) as H.
  change (Z.log2_up 400) with 9 in H. lia.
Qed.

Lemma bytes_for_inj a b n : (8 ≤ n)%nat → bytes_for (a * n) = bytes_for (b * n) → a = b.
Proof. unfold bytes_for. intros. nia. Qed.

(** What the response check says of the declared outputs. *)
Lemma declared_iff s :
  in_width 32 (sb_raw_block_bytes s) →
  (let bits := stored_bits s RESPONSE_LABEL_BUDGET_HUNDRED in
   bytes_for (length (sb_outputs s) * Z.to_nat bits) = bytes_for (declared (sb_tweaks s) * Z.to_nat bits) ∧
   (bits = 0 ↔ declared (sb_tweaks s) = 0%nat)) ↔
  declared (sb_tweaks s) =
    if bool_decide (sb_raw_block_bytes s = 0) then 0%nat else length (sb_outputs s).
Proof.
  intros Hr. unfold stored_bits. set (n := length (sb_outputs s)). cbv zeta.
  destruct (bool_decide_reflect (sb_raw_block_bytes s = 0)) as [Hz|Hz].
  { rewrite Hz. unfold choose_truncated_output_hash_bits. rewrite orb_true_r.
    split; [intros [_ H]; by apply H|intros ->]. split; [f_equal; lia|done]. }
  destruct (decide (n = 0%nat)) as [->|Hn].
  { unfold choose_truncated_output_hash_bits. cbn [bool_decide orb].
    split; [intros [_ H]; by apply H|intros ->]. done. }
  pose proof (hundred_bits_ge n _ Hr Hn Hz) as Hb. split.
  - intros [H _]. apply bytes_for_inj in H; [done|lia].
  - intros ->. split; [done|lia].
Qed.

Lemma spends_encode s :
  Forall spend_typed (sb_spends s) →
  spends_valid s ↔ is_ok (encode_spent_ids_elias_delta_ascending_absolute (spent_uid <$> sb_spends s)).
Proof.
  intros Ht. unfold spends_valid.
  assert (uids_wf (spent_uid <$> sb_spends s)) as Hw.
  { apply Forall_fmap. eapply Forall_impl; [exact Ht|]. intros e [H _]. exact H. }
  pose proof (encode_spent_ids_ok_iff _ Hw) as H. rewrite length_fmap in H.
  by rewrite Is_true_true, H.
Qed.

(** Projects the fields of a response built field by field. *)
Ltac lb_simpl := cbn [lb_height lb_block_hash lb_previous_block_hash lb_first_uid lb_tx_count
  lb_skipped_txs_for_tweaks lb_tweaks lb_truncated_output_hash_bits lb_truncated_output_hashes
  lb_spent_id_codec lb_spent_count lb_spent_ids].

Ltac sb_simpl := cbn [sb_height sb_block_hash sb_previous_block_hash sb_first_uid sb_tx_count
  sb_skipped_txs_for_tweaks sb_tweaks sb_skipped_outputs sb_outputs sb_spends sb_raw_block_bytes
  sb_truncated_output_hash_for_two_labels sb_truncated_output_hash_for_hundred_labels].

(** The response before its validation. *)
Definition stored_response (s : StoredLightBlockInput) (labels : option Z) (count : Z) (stream : bytes)
    : LightBlockInput := {|
  lb_height := sb_height s;
  lb_block_hash := sb_block_hash s;
  lb_previous_block_hash := sb_previous_block_hash s;
  lb_first_uid := sb_first_uid s;
  lb_tx_count := sb_tx_count s;
  lb_skipped_txs_for_tweaks := sb_skipped_txs_for_tweaks s;
  lb_tweaks := sb_tweaks s;
  lb_truncated_output_hash_bits := stored_bits s (response_label_budget labels);
  lb_truncated_output_hashes :=
    if bool_decide (response_label_budget labels = RESPONSE_LABEL_BUDGET_TWO)
    then sb_truncated_output_hash_for_two_labels s
    else sb_truncated_output_hash_for_hundred_labels s;
  lb_spent_id_codec := EliasDeltaAscendingAbsolute;
  lb_spent_count := count;
  lb_spent_ids := stream |}.

Lemma to_response_eq s labels :
  to_response_input_for_labels s labels =
  ('(count, stream) ← encode_spent_ids_elias_delta_ascending_absolute (spent_uid <$> sb_spends s);
   _ ← validate_light_block_input (stored_response s labels count stream);
   Ok (stored_response s labels count stream)).
Proof.
  unfold to_response_input_for_labels, stored_response, stored_bits.
  by destruct (response_label_budget_cases labels) as [-> | ->].
Qed.

Lemma stored_uids_wf spends : Forall spend_typed spends → uids_wf (spent_uid <$> spends).
Proof. intros H. apply Forall_fmap. eapply Forall_impl; [exact H|]. intros e [? _]. done. Qed.

Lemma stored_response_typed s labels count stream :
  stored_typed s → in_width 32 count → light_typed (stored_response s labels count stream).
Proof.
  intros [] Hc. constructor; try done. apply choose_bits_bound.
Qed.

Lemma stored_response_valid s labels :
  stored_typed s → stored_valid s →
  ∃ count stream,
    encode_spent_ids_elias_delta_ascending_absolute (spent_uid <$> sb_spends s) = Ok (count, stream) ∧
    in_width 32 count ∧
    light_valid (stored_response s labels count stream).
Proof.
  intros Ht Hv. pose proof (stored_uids_wf _ (st_spends s Ht)) as Hw.
  pose proof (proj1 (spends_encode s (st_spends s Ht)) (sv_spends s Hv)) as He.
  destruct (encode_spent_ids_elias_delta_ascending_absolute _) as [[count stream]| |] eqn:E; [|done..].
  destruct (spent_ids_decode_encoded _ _ _ Hw E) as [Hc Hd].
  exists count, stream. split_and!; [done..|].
  pose proof (sv_declared s Hv) as Hdec.
  pose proof (proj2 (declared_iff s (st_raw s Ht)) Hdec) as [_ Hb].
  destruct Hv as [? ? ? ? _ _ _ _ _ Htwo Hhun _ _ _].
  assert (∀ budget, stored_bits s budget = 0 ↔ declared (sb_tweaks s) = 0%nat) as Hbits.
  { intros budget. rewrite Hdec. unfold stored_bits.
    destruct (bool_decide_reflect (sb_raw_block_bytes s = 0)) as [Hz|Hz].
    - unfold choose_truncated_output_hash_bits. rewrite Hz, orb_true_r. done.
    - destruct (decide (length (sb_outputs s) = 0%nat)) as [->|Hn]; [done|].
      pose proof (choose_bits_pos _ _ budget Hn Hz). lia. }
  unfold stored_response. constructor; lb_simpl; try done.
  - set (b := response_label_budget labels).
    assert (bytes_for (length (sb_outputs s) * Z.to_nat (stored_bits s b))
      = bytes_for (declared (sb_tweaks s) * Z.to_nat (stored_bits s b))) as Hf.
    { rewrite Hdec. case_bool_decide as Hz; [|done]. unfold stored_bits,
        choose_truncated_output_hash_bits. rewrite Hz, orb_true_r. f_equal. lia. }
    rewrite <- Hf. subst b. by destruct (response_label_budget_cases labels) as [-> | ->].
  - unfold decode_light_block_spent_ids. lb_simpl. by rewrite Hd.
Qed.

Lemma validate_stored_ok s :
  stored_typed s → validate_stored_light_block_input s = Ok tt ↔ stored_valid s.
Proof.
  intros Ht. pose proof Ht as [Hh _ _ Hn Hb Htw Hsk Hout Hsp Hraw].
  unfold validate_stored_light_block_input. split.
  - intros H.
    apply bind_Ok in H as ([] & Hhb%ensure_Ok%bool_decide_eq_true_1 & H).
    apply bind_Ok in H as ([] & Hv & H). apply validate_skipped_ok in Hv; [|done..].
    rewrite skipped_count_spec in H by done. cbn [mbind res_bind] in H.
    apply bind_Ok in H as ([] & Hl%ensure_u16_len_Ok & H).
    apply bind_Ok in H as ([] & Hd%ensure_Ok%bool_decide_eq_true_1 & H).
    apply tx_count_dense in Hd; [|done].
    apply bind_Ok in H as ([] & Hsl%ensure_u16_len_Ok & H).
    apply bind_Ok in H as ([] & Hol%ensure_u16_len_Ok & H).
    apply bind_Ok in H as ([] & Hso%validate_sorted_ok & H).
    apply bind_Ok in H as ([] & Hdo & H). apply validate_domain_ok in Hdo as [??]; [|done..].
    apply bind_Ok in H as ([] & Hha & H). apply validate_hashes_ok in Hha as [Htwo Hhun]; [|done].
    apply bind_Ok in H as (r & Hr & H). apply bind_Ok in H as ([] & _ & Hcr).
    rewrite try_from_ok in Hcr by (unfold umax in *; lia). cbn [mbind res_bind] in Hcr.
    apply (fold_ensure (λ spend, creation_height spend ≤ sb_height s)) in Hcr.
    rewrite to_response_eq in Hr. apply bind_Ok in Hr as ([c st] & He & Hr).
    apply bind_Ok in Hr as ([] & Hval & _).
    destruct (spent_ids_decode_encoded _ _ _ (stored_uids_wf _ Hsp) He) as [Hc _].
    apply validate_light_ok in Hval; [|by apply stored_response_typed].
    destruct Hval as [_ _ _ Hlh Hlb _]. cbn in Hlh, Hlb.
    constructor; try done.
    + apply declared_iff; [done|]. cbv zeta. split; [|done].
      change (if bool_decide _ then _ else _) with (sb_truncated_output_hash_for_hundred_labels s) in Hlh.
      by rewrite <- Hhun.
    + apply spends_encode; [done|]. by rewrite He.
  - intros Hval.
    destruct (stored_response_valid s None Ht Hval) as (c & st & He & Hc & Hlv).
    destruct Hval as [? Hv ? ? ? ? Hso Hdo Hslo Htwo Hhun _ _ Hcr].
    rewrite (ensure_ok (sb_height s ≤ _)) by done. cbn [mbind res_bind].
    rewrite (proj2 (validate_skipped_ok _ _ Hn Hb) Hv). cbn [mbind res_bind].
    rewrite skipped_count_spec by done. cbn [mbind res_bind].
    rewrite !(proj2 (ensure_u16_len_Ok _ _)) by done. cbn [mbind res_bind].
    rewrite (ensure_ok (sb_tx_count s = _)) by (by apply tx_count_dense). cbn [mbind res_bind].
    rewrite (proj2 (validate_sorted_ok _ _) Hso). cbn [mbind res_bind].
    rewrite (proj2 (validate_domain_ok (length (sb_outputs s)) (sb_skipped_outputs s) ltac:(done) ltac:(done)))
      by done. cbn [mbind res_bind].
    rewrite (proj2 (validate_hashes_ok s ltac:(done))) by done. cbn [mbind res_bind].
    pose proof (proj2 (validate_light_ok _ (stored_response_typed s None c st Ht Hc)) Hlv) as Hvl.
    rewrite to_response_eq, He. cbn [mbind res_bind]. rewrite Hvl. cbn [mbind res_bind].
    rewrite Hvl. cbn [mbind res_bind]. rewrite try_from_ok by (unfold umax in *; lia).
    cbn [mbind res_bind]. by apply (fold_ensure (λ spend, creation_height spend ≤ sb_height s)).
Qed.

(** Every validated block can be served, for every label budget. *)
Lemma to_response_ok s labels :
  stored_typed s → stored_valid s →
  ∃ count stream,
    encode_spent_ids_elias_delta_ascending_absolute (spent_uid <$> sb_spends s) = Ok (count, stream) ∧
    to_response_input_for_labels s labels = Ok (stored_response s labels count stream) ∧
    light_typed (stored_response s labels count stream) ∧
    light_valid (stored_response s labels count stream).
Proof.
  intros Ht Hv. destruct (stored_response_valid s labels Ht Hv) as (c & st & He & Hc & Hlv).
  pose proof (stored_response_typed s labels c st Ht Hc) as Hty.
  exists c, st. split_and!; try done. rewrite to_response_eq, He. cbn [mbind res_bind].
  by rewrite (proj2 (validate_light_ok _ Hty) Hlv).
Qed.

(** A stored block with one skipped and one dense transaction, two dense outputs and
    one spend. *)
Definition demo_stored : StoredLightBlockInput := {|
  sb_height := 10; sb_block_hash := replicate 32 1; sb_previous_block_hash := replicate 32 0;
  sb_first_uid := 40; sb_tx_count := 2; sb_skipped_txs_for_tweaks := [1];
  sb_tweaks := [{| output_count := 2; tweak := 2 :: replicate 32 9 |}];
  sb_skipped_outputs := [1];
  sb_outputs := [{| key := replicate 32 7; spent_height := 12; flags := 0 |};
                 {| key := replicate 32 8; spent_height := STORAGE_SPENT_HEIGHT_UNSPENT; flags := 1 |}];
  sb_spends := [{| spent_uid := 5; creation_height := 3 |}];
  sb_raw_block_bytes := 300;
  sb_truncated_output_hash_for_two_labels := replicate 3 170;
  sb_truncated_output_hash_for_hundred_labels := replicate 5 170 |}.

(** Closes concrete typing goals: widths, byte lists, lengths. *)
Ltac typed_tac :=
  repeat match goal with
  | |- _ ∧ _ => split
  | |- Forall _ [] => constructor
  | |- Forall _ (_ :: _) => constructor
  | |- _ ≤ _ => vm_compute; congruence
  | |- _ < _ => vm_compute; congruence
  | |- length _ = _ => reflexivity
  | |- in_width _ _ => unfold in_width
  | |- is_byte _ => unfold is_byte
  | |- array_wf _ _ => unfold array_wf
  | |- tweak_typed _ => unfold tweak_typed
  | |- output_typed _ => unfold output_typed
  | |- spend_typed _ => unfold spend_typed
  | |- Forall _ ?l => let l' := eval vm_compute in l in progress change l with l'
  end.

Lemma demo_stored_typed : stored_typed demo_stored.
Proof. constructor; typed_tac. Qed.

(** ** Properties *)



(** A stored block that passes validation is served without an error for every
    label budget: the unfiltered response carries the stored tweaks, bitmap and hash
    stream for the budget, decodes to the block's spends in ascending order and
    passes the response validator, so [to_response_input] does not panic. *)
Theorem valid_stored_served (s : StoredLightBlockInput) (labels : option Z) (Ht : stored_typed s)
  (Hv : validate_stored_light_block_input s = Ok tt) :
  ∃ r, to_response_input_for_labels s labels = Ok r ∧ validate_light_block_input r = Ok tt ∧
    lb_tweaks r = sb_tweaks s ∧ lb_skipped_txs_for_tweaks r = sb_skipped_txs_for_tweaks s ∧
    decode_light_block_spent_ids r = Ok (merge_sort Z.le (spent_uid <$> sb_spends s)) ∧
    no_panic (to_response_input s).
Proof.
  apply validate_stored_ok in Hv; [|done].
  destruct (to_response_ok s labels Ht Hv) as (c & st & He & Hr & Hty & Hlv).
  eexists. split_and!; [exact Hr|by apply validate_light_ok|done|done| |].
  - by apply (spent_ids_decode_encoded _ _ _ (stored_uids_wf _ (st_spends s Ht)) He).
  - destruct (to_response_ok s None Ht Hv) as (c' & st' & _ & Hr' & _ & _).
    unfold to_response_input. by rewrite Hr'.
Qed.

Lemma valid_stored_served_witness :
  ∃ r, to_response_input_for_labels demo_stored (Some 1) = Ok r ∧ validate_light_block_input r = Ok tt ∧
    lb_tweaks r = sb_tweaks demo_stored ∧
    lb_skipped_txs_for_tweaks r = sb_skipped_txs_for_tweaks demo_stored ∧
    decode_light_block_spent_ids r = Ok [5] ∧ no_panic (to_response_input demo_stored).
Proof. apply (valid_stored_served demo_stored (Some 1) demo_stored_typed). reflexivity. Defined.
