(* ===== verification/LightFilter.v ===== *)
(** * Filtered responses

    The response [to_filtered_response_input] derives from a stored block, stated
    transaction by transaction: [expand] lines the tweak entries up with the
    transactions of the block, as a client reading the bitmap does, and every
    entry of the response is the stored entry with the omitted outputs removed. *)

From S2P Require Import Prelude Bits EliasDelta Helper TaggedHash Bitmap SpentIds OutputHash LightBlock LightValid.

(** One entry per transaction: [None] for a skipped one. *)
Fixpoint expand {A} (flags : list bool) (entries : list A) : list (option A) :=
  match flags with
  | [] => []
  | true :: flags => None :: expand flags entries
  | false :: flags =>
      match entries with
      | [] => None :: expand flags []
      | e :: entries => Some e :: expand flags entries
      end
  end.

(** The outputs of each tweak entry. *)
Fixpoint group_outputs {A} (tweaks : list TweakEntryInput) (outputs : list A)
    : list (TweakEntryInput * list A) :=
  match tweaks with
  | [] => []
  | t :: tweaks =>
      let n := Z.to_nat (output_count t) in
      (t, take n outputs) :: group_outputs tweaks (drop n outputs)
  end.

Section filter_spec.
Context (height : Z) (f : StoredBlockResponseFilter).

Definition kept (o : StoredOutputEntryInput) : Prop := should_omit_stored_output height o f = false.
#[local] Instance kept_dec o : Decision (kept o) := decide (_ = _).
Definition kept_outputs (os : list StoredOutputEntryInput) : list StoredOutputEntryInput :=
  filter kept os.
Definition kept_spends (ss : list StoredSpendEntryInput) : list StoredSpendEntryInput :=
  filter (λ s, should_omit_stored_spend height s f = false) ss.

(** The entry served for a tweak: none when all its outputs are omitted. *)
Definition kept_entry (g : TweakEntryInput * list StoredOutputEntryInput) : option TweakEntryInput :=
  let k := kept_outputs g.2 in
  if bool_decide (k = []) then None
  else Some {| output_count := len k; tweak := tweak g.1 |}.

Lemma kept_outputs_app os1 os2 : kept_outputs (os1 ++ os2) = kept_outputs os1 ++ kept_outputs os2.
Proof. apply filter_app. Qed.
Lemma length_kept os : (length (kept_outputs os) ≤ length os)%nat.
Proof. apply length_filter. Qed.

Lemma keep_output_kept keys n o :
  kept o → n + 1 < 2 ^ 16 → keep_output height f (keys, n) o = Ok (keys ++ [key o], n + 1).
Proof. unfold kept, keep_output. intros -> ?. by rewrite checked_add_ok. Qed.
Lemma keep_output_omitted keys n o : ¬ kept o → keep_output height f (keys, n) o = Ok (keys, n).
Proof. unfold kept, keep_output. by destruct (should_omit_stored_output height o f). Qed.

Lemma keep_loop keys n os :
  0 ≤ n → n + len os < 2 ^ 16 →
  fold_res (keep_output height f) (keys, n) os
  = Ok (keys ++ (key <$> kept_outputs os), n + len (kept_outputs os)).
Proof.
  revert keys n; induction os as [|o os IH]; intros keys n Hn Hl; cbn [fold_res].
  { cbn. by rewrite app_nil_r, Z.add_0_r. }
  cbn [length] in Hl. unfold kept_outputs. rewrite filter_cons. fold (kept_outputs os).
  destruct (decide (kept o)) as [Hk|Hk].
  - rewrite keep_output_kept by (done || lia). cbn [mbind res_bind].
    rewrite IH by lia. rewrite fmap_cons, <- app_assoc. cbn [app length]. do 2 f_equal. lia.
  - rewrite keep_output_omitted by done. cbn [mbind res_bind]. apply IH; lia.
Qed.
End filter_spec.
#[export] Existing Instance kept_dec.

Lemma group_outputs_app {A} t (tweaks : list TweakEntryInput) (os : list A) :
  group_outputs (t :: tweaks) os =
  (t, take (Z.to_nat (output_count t)) os) :: group_outputs tweaks (drop (Z.to_nat (output_count t)) os).
Proof. done. Qed.

(** The transactions dropped from the response. *)
Definition dropped height f (groups : list (TweakEntryInput * list StoredOutputEntryInput))
    (indexes : list Z) : list Z :=
  (zip groups indexes) ≫= λ '(g, i), if kept_entry height f g then [] else [i].

Lemma dropped_cons height f g gs i js :
  dropped height f (g :: gs) (i :: js) =
  (if kept_entry height f g then [] else [i]) ++ dropped height f gs js.
Proof. done. Qed.

Lemma dropped_subset height f gs js i : i ∈ dropped height f gs js → i ∈ js.
Proof.
  revert js; induction gs as [|g gs IH]; intros [|j js]; [by inversion 1..|].
  rewrite dropped_cons, elem_of_app. intros [Hi|Hi].
  - destruct (kept_entry height f g); [by apply elem_of_nil in Hi|].
    apply list_elem_of_singleton in Hi as ->. by constructor.
  - constructor. by apply IH.
Qed.

(** ** The loop over tweaks *)
Section loop.
Context (self : StoredLightBlockInput) (f : StoredBlockResponseFilter).
Hypothesis Htx : in_width 16 (sb_tx_count self).
Hypothesis Houts : len (sb_outputs self) < 2 ^ 16.
Notation h := (sb_height self).

Lemma filter_tweak_spec t i st :
  let group := take (Z.to_nat (output_count t)) (drop (fs_output_cursor st) (sb_outputs self)) in
  0 ≤ output_count t → 0 ≤ i < sb_tx_count self → bitmap_wf (sb_tx_count self) (fs_skipped st) →
  (fs_output_cursor st + Z.to_nat (output_count t) ≤ length (sb_outputs self))%nat →
  ∃ st', filter_tweak self f st (t, i) = Ok st' ∧
    fs_output_keys st' = fs_output_keys st ++ (key <$> kept_outputs h f group) ∧
    fs_tweaks st' = fs_tweaks st ++ option_list (kept_entry h f (t, group)) ∧
    fs_output_cursor st' = (fs_output_cursor st + Z.to_nat (output_count t))%nat ∧
    bitmap_wf (sb_tx_count self) (fs_skipped st') ∧
    ∀ j, 0 ≤ j → skip_flag (fs_skipped st') j =
      bool_decide (j ∈ (if kept_entry h f (t, group) then [] else [i])) || skip_flag (fs_skipped st) j.
Proof.
  intros group Ht Hi Hb Hc. unfold filter_tweak. rewrite checked_add_ok by lia. cbn [mbind res_bind ok_or].
  rewrite (ensure_ok (_ ≤ len (sb_outputs self))) by lia. cbn [mbind res_bind].
  rewrite slice_ok by lia. cbn [mbind res_bind].
  replace (Z.to_nat (Z.of_nat (fs_output_cursor st) + output_count t) - fs_output_cursor st)%nat
    with (Z.to_nat (output_count t)) by lia. fold group.
  assert (length group ≤ length (sb_outputs self))%nat
    by (subst group; rewrite length_take, length_drop; lia).
  rewrite keep_loop by lia. cbn [mbind res_bind]. unfold kept_entry. cbn [fst snd].
  replace (Z.to_nat (Z.of_nat (fs_output_cursor st) + output_count t))
    with (fs_output_cursor st + Z.to_nat (output_count t))%nat by lia.
  destruct (decide (kept_outputs h f group = [])) as [E|E].
  - rewrite E. rewrite bool_decide_false by (cbn; lia). rewrite bool_decide_true by done.
    destruct (set_skipped_spec (sb_tx_count self) (fs_skipped st) i Htx Hb Hi) as (bm & -> & Hbm & Hf).
    cbn [mbind res_bind]. eexists. split; [done|]. cbn. rewrite !app_nil_r.
    split_and!; [done..|]. intros j Hj. rewrite Hf by done. f_equal.
    apply bool_decide_ext. rewrite list_elem_of_singleton. naive_solver.
  - rewrite bool_decide_true by (destruct (kept_outputs h f group); [done|simpl; lia]).
    rewrite bool_decide_false by done.
    eexists. split; [done|]. cbn [fs_output_keys fs_tweaks fs_output_cursor fs_skipped].
    by rewrite Z.add_0_l.
Qed.

Lemma filter_loop tweaks indexes st :
  Forall tweak_typed tweaks → length indexes = length tweaks →
  Forall (λ i, 0 ≤ i < sb_tx_count self) indexes →
  bitmap_wf (sb_tx_count self) (fs_skipped st) →
  (fs_output_cursor st + declared tweaks = length (sb_outputs self))%nat →
  let rest := drop (fs_output_cursor st) (sb_outputs self) in
  let groups := group_outputs tweaks rest in
  ∃ st', fold_res (filter_tweak self f) st (zip tweaks indexes) = Ok st' ∧
    fs_output_keys st' = fs_output_keys st ++ (key <$> kept_outputs h f rest) ∧
    fs_tweaks st' = fs_tweaks st ++ omap (kept_entry h f) groups ∧
    fs_output_cursor st' = length (sb_outputs self) ∧
    bitmap_wf (sb_tx_count self) (fs_skipped st') ∧
    ∀ j, 0 ≤ j → skip_flag (fs_skipped st') j =
      bool_decide (j ∈ dropped h f groups indexes) || skip_flag (fs_skipped st) j.
Proof.
  intros Ht. revert indexes st.
  induction Ht as [|t tweaks [Ht _] _ IH]; intros [|i indexes] st Hl Hi Hb Hc rest groups; try done.
  { subst rest groups. exists st. unfold declared in Hc. simpl in Hc.
    rewrite drop_ge by lia. cbn. rewrite !app_nil_r. split_and!; try done. lia. }
  rewrite declared_cons in Hc. unfold in_width in Ht. apply Forall_cons in Hi as [Hi0 Hi].
  cbn [length] in Hl. cbn [zip zip_with fold_res].
  destruct (filter_tweak_spec t i st) as (st1 & Hs1 & Hk1 & Ht1 & Hc1 & Hb1 & Hf1); try done; try lia.
  change (zip_with pair tweaks indexes) with (zip tweaks indexes). rewrite Hs1. cbn [mbind res_bind].
  destruct (IH indexes st1) as (st2 & Hs2 & Hk2 & Ht2 & Hc2 & Hb2 & Hf2); try done; try lia.
  rewrite Hc1 in *. subst rest groups. rewrite group_outputs_app.
  set (n := Z.to_nat (output_count t)) in *. set (os := drop (fs_output_cursor st) (sb_outputs self)) in *.
  assert (drop (fs_output_cursor st + n) (sb_outputs self) = drop n os) as Hd
    by (subst os; by rewrite drop_drop).
  rewrite Hd in *. exists st2. split_and!; [done| | |done|done|].
  - rewrite Hk2, Hk1, <- app_assoc, <- fmap_app, <- kept_outputs_app. by rewrite take_drop.
  - rewrite Ht2, Ht1, <- app_assoc. f_equal. cbn. by destruct (kept_entry h f (t, take n os)).
  - intros j Hj. rewrite Hf2, Hf1, dropped_cons, orb_assoc by done. f_equal.
    apply eq_bool_prop_intro. rewrite orb_True, !bool_decide_spec, elem_of_app. tauto.
Qed.
End loop.

(** ** The response, transaction by transaction *)
Lemma expand_filter {B} (K : B → option TweakEntryInput) (fl fl' : Z → bool) (l : list Z)
    (groups : list B) (drops : list Z) :
  NoDup l → length groups = length (filter (λ i, fl i = false) l) →
  drops = (zip groups (filter (λ i, fl i = false) l)) ≫= (λ '(g, i), if K g then [] else [i]) →
  (∀ i, i ∈ l → fl' i = bool_decide (i ∈ drops) || fl i) →
  expand (fl' <$> l) (omap K groups) = (λ g, g ≫= K) <$> expand (fl <$> l) groups ∧
  length (omap K groups) = length (filter (λ i, fl' i = false) l).
Proof.
  revert groups drops. induction l as [|i l IH]; intros groups drops Hn Hl -> Hf.
  { by destruct groups. }
  apply NoDup_cons in Hn as [Hni Hn]. rewrite !fmap_cons. rewrite filter_cons in Hl, Hf.
  pose proof (Hf i ltac:(by constructor)) as Hi. destruct (fl i) eqn:Efl.
  - rewrite decide_False in Hl, Hf, Hi by done. rewrite orb_true_r in Hi. rewrite filter_cons, Hi.
    cbn [expand fmap list_fmap option_bind mbind]. rewrite decide_False by done.
    edestruct (IH groups) as [IH1 IH2]; [done..| |by rewrite IH1, IH2].
    intros j Hj. apply Hf. by constructor.
  - rewrite decide_True in Hl, Hf, Hi by done. destruct groups as [|g groups]; [done|].
    cbn [zip zip_with] in Hf, Hi. cbn [length] in Hl.
    change (zip_with pair groups (filter (λ i, fl i = false) l))
      with (zip groups (filter (λ i, fl i = false) l)) in *.
    rewrite bind_cons in Hf, Hi.
    set (rest := zip groups (filter (λ i, fl i = false) l) ≫= (λ '(g, i), if K g then [] else [i])) in *.
    assert (i ∉ rest) as Hir.
    { intros (x & Hx & Hin)%list_elem_of_bind. destruct x as [g' j]. destruct (K g'); [by apply elem_of_nil in Hx|].
      apply list_elem_of_singleton in Hx as ->. apply elem_of_zip_r in Hin.
      apply list_elem_of_filter in Hin as [_ ?]. done. }
    rewrite orb_false_r in Hi.
    assert (∀ j, j ∈ l → fl' j = bool_decide (j ∈ rest) || fl j) as Hrest.
    { intros j Hj. rewrite Hf by by constructor. f_equal. apply bool_decide_ext.
      rewrite elem_of_app. destruct (K g); [set_solver|].
      rewrite list_elem_of_singleton. assert (j ≠ i) by (intros ->; done). tauto. }
    destruct (IH groups rest Hn ltac:(lia) eq_refl Hrest) as [IH1 IH2]. rewrite filter_cons.
    cbn [omap list_omap]. destruct (K g) as [e|] eqn:EK.
    + rewrite bool_decide_false in Hi by (cbn [app]; done). rewrite Hi, decide_True by done.
      cbn [expand fmap list_fmap length mbind option_bind]. rewrite EK. split; [f_equal; exact IH1|by f_equal].
    + rewrite bool_decide_true in Hi by (cbn [app]; by constructor). rewrite Hi, decide_False by done.
      cbn [expand fmap list_fmap mbind option_bind]. rewrite EK. split; [f_equal; exact IH1|exact IH2].
Qed.

Lemma length_group_outputs {A} tweaks (os : list A) : length (group_outputs tweaks os) = length tweaks.
Proof. revert os; induction tweaks as [|t ts IH]; intros os; simpl; [done|]. by rewrite IH. Qed.

Lemma group_outputs_typed tweaks (os : list StoredOutputEntryInput) :
  Forall tweak_typed tweaks →
  Forall (λ g, tweak_typed g.1 ∧ len g.2 ≤ output_count g.1) (group_outputs tweaks os).
Proof.
  intros H. revert os; induction H as [|t ts Ht _ IH]; intros os; simpl; constructor; [|done].
  split; [done|]. cbn. destruct Ht as [Ht _]. unfold in_width in Ht. rewrite length_take. lia.
Qed.

Section served.
Context (h : Z) (f : StoredBlockResponseFilter).

Lemma kept_entries_typed groups :
  Forall (λ g, tweak_typed g.1 ∧ len g.2 ≤ output_count g.1) groups →
  Forall tweak_typed (omap (kept_entry h f) groups).
Proof.
  induction 1 as [|g gs [[Hc Ht] Hl] _ IH]; [constructor|]. cbn [omap list_omap].
  unfold kept_entry at 1. case_bool_decide; [done|]. constructor; [|done].
  pose proof (length_kept h f g.2). unfold in_width in Hc. split; [|done]. cbn. unfold in_width. lia.
Qed.

Lemma declared_kept tweaks os :
  Forall tweak_typed tweaks → declared tweaks = length os →
  declared (omap (kept_entry h f) (group_outputs tweaks os)) = length (kept_outputs h f os).
Proof.
  intros Ht. revert os. induction Ht as [|t ts [Ht _] _ IH]; intros os Hd.
  { destruct os; [done|]. discriminate Hd. }
  rewrite declared_cons in Hd. rewrite group_outputs_app. cbn [omap list_omap].
  set (n := Z.to_nat (output_count t)) in *.
  specialize (IH (drop n os)). rewrite length_drop in IH. specialize (IH ltac:(lia)).
  assert (kept_outputs h f os = kept_outputs h f (take n os) ++ kept_outputs h f (drop n os)) as ->
    by by rewrite <- kept_outputs_app, take_drop.
  rewrite length_app, <- IH.
  unfold kept_entry at 1. cbn [fst snd]. case_bool_decide as E.
  - rewrite E. done.
  - rewrite declared_cons. cbn [output_count]. lia.
Qed.

Lemma kept_spends_sublist ss : kept_spends h f ss `sublist_of` ss.
Proof. apply sublist_filter. Qed.
End served.

(** The block's outputs, transaction by transaction. *)
Definition tx_groups (s : StoredLightBlockInput)
    : list (option (TweakEntryInput * list StoredOutputEntryInput)) :=
  expand (skip_flags (sb_tx_count s) (sb_skipped_txs_for_tweaks s))
    (group_outputs (sb_tweaks s) (sb_outputs s)).

(** What a client reads back from the tweak entries of a response. *)
Definition tx_entries (r : LightBlockInput) : list (option TweakEntryInput) :=
  expand (skip_flags (lb_tx_count r) (lb_skipped_txs_for_tweaks r)) (lb_tweaks r).

Definition filtering (f : StoredBlockResponseFilter) : Prop :=
  filter_reuse f = true ∨ cutthrough_start f ≠ None.

(** The response [r] is the block [s] with what [f] omits left out. *)
Record serves `{!Sha256} (s : StoredLightBlockInput) (f : StoredBlockResponseFilter)
    (r : LightBlockInput) : Prop := {
  sr_header : lb_height r = sb_height s ∧ lb_block_hash r = sb_block_hash s ∧
    lb_previous_block_hash r = sb_previous_block_hash s ∧
    lb_first_uid r = sb_first_uid s ∧ lb_tx_count r = sb_tx_count s;
  sr_entries : tx_entries r = (λ g, g ≫= kept_entry (sb_height s) f) <$> tx_groups s;
  sr_bits : lb_truncated_output_hash_bits r =
    choose_truncated_output_hash_bits (length (kept_outputs (sb_height s) f (sb_outputs s)))
      (sb_raw_block_bytes s) (response_label_budget (labels f));
  sr_hashes : lb_truncated_output_hashes r =
    hash_stream (lb_truncated_output_hash_bits r) (key <$> kept_outputs (sb_height s) f (sb_outputs s));
  sr_spends : decode_light_block_spent_ids r =
    Ok (merge_sort Z.le (spent_uid <$> kept_spends (sb_height s) f (sb_spends s)));
  sr_typed : light_typed r;
  sr_valid : light_valid r
}.

(** The kept spends can be encoded. *)
Lemma kept_spends_encode s f :
  stored_typed s → stored_valid s → Forall (λ e, spent_uid e < U64_MAX) (sb_spends s) →
  ∃ count stream,
    encode_spent_ids_elias_delta_ascending_absolute
      (spent_uid <$> kept_spends (sb_height s) f (sb_spends s)) = Ok (count, stream) ∧
    in_width 32 count ∧
    decode_spent_ids_elias_delta_ascending_absolute count stream
      = Ok (merge_sort Z.le (spent_uid <$> kept_spends (sb_height s) f (sb_spends s))).
Proof.
  intros Ht Hv Hmax. destruct (sv_spends s Hv) as (Hnd & _ & Hlen).
  pose proof (kept_spends_sublist (sb_height s) f (sb_spends s)) as Hsub.
  set (k := kept_spends (sb_height s) f (sb_spends s)) in *.
  assert (uids_wf (spent_uid <$> k)) as Hw.
  { apply stored_uids_wf. eapply Forall_sublist_sub; [exact Hsub|apply (st_spends s Ht)]. }
  destruct (spent_ids_encode_decode (spent_uid <$> k) Hw) as (stream & He & Hd).
  - eapply sublist_NoDup; [exact Hnd|by apply sublist_fmap].
  - rewrite length_fmap. apply sublist_length in Hsub. lia.
  - intros E. eapply Forall_sublist_sub in Hmax; [|exact Hsub].
    destruct k as [|e [|]]; try discriminate E. apply Forall_cons in Hmax as [Hm _].
    unfold U64_MAX in Hm. injection E as E. lia.
  - eexists _, stream. split_and!; [exact He| |exact Hd].
    rewrite length_fmap. apply sublist_length in Hsub. unfold in_width. lia.
Qed.

(** The loop's result, from the whole block. *)
Lemma filter_block s f :
  stored_typed s → stored_valid s → sb_raw_block_bytes s ≠ 0 →
  ∃ st indexes,
    derive_stored_tweak_tx_indexes (sb_tx_count s) (sb_skipped_txs_for_tweaks s)
      (length (sb_tweaks s)) = Ok indexes ∧
    fold_res (filter_tweak s f)
      {| fs_output_keys := []; fs_tweaks := []; fs_output_cursor := 0;
         fs_skipped := sb_skipped_txs_for_tweaks s |} (zip (sb_tweaks s) indexes) = Ok st ∧
    fs_output_keys st = key <$> kept_outputs (sb_height s) f (sb_outputs s) ∧
    fs_tweaks st = omap (kept_entry (sb_height s) f) (group_outputs (sb_tweaks s) (sb_outputs s)) ∧
    fs_output_cursor st = length (sb_outputs s) ∧
    bitmap_wf (sb_tx_count s) (fs_skipped st) ∧
    expand (skip_flags (sb_tx_count s) (fs_skipped st)) (fs_tweaks st)
      = (λ g, g ≫= kept_entry (sb_height s) f) <$> tx_groups s ∧
    length (fs_tweaks st) = length (dense_indexes (sb_tx_count s) (fs_skipped st)).
Proof.
  intros Ht Hv Hraw.
  pose proof (sv_declared s Hv) as Hdecl. rewrite bool_decide_false in Hdecl by done.
  pose proof (st_tx_count s Ht) as Hn. pose proof (sv_dense s Hv) as Hdense.
  pose proof (sv_bitmap s Hv) as Hbm. pose proof (st_tweaks s Ht) as Htw.
  pose proof (sv_outputs s Hv) as Hol.
  destruct (filter_loop s f Hn ltac:(lia) (sb_tweaks s)
    (dense_indexes (sb_tx_count s) (sb_skipped_txs_for_tweaks s))
    {| fs_output_keys := []; fs_tweaks := []; fs_output_cursor := 0;
       fs_skipped := sb_skipped_txs_for_tweaks s |})
    as (st & Hst & Hkeys & Htws & Hcur & Hwf & Hflags); try done.
  { apply Forall_forall. intros i [_ Hi%elem_of_seqZ]%list_elem_of_filter. lia. }
  cbn [fs_output_keys fs_tweaks fs_output_cursor fs_skipped app] in Hkeys, Htws, Hflags.
  rewrite drop_0 in Hkeys, Htws, Hflags.
  exists st, (dense_indexes (sb_tx_count s) (sb_skipped_txs_for_tweaks s)).
  rewrite derive_indexes_spec, Hdense, firstn_all by (done || lia). split_and!; try done.
  all: edestruct (expand_filter (kept_entry (sb_height s) f) (skip_flag (sb_skipped_txs_for_tweaks s))
    (skip_flag (fs_skipped st)) (seqZ 0 (sb_tx_count s))
    (group_outputs (sb_tweaks s) (sb_outputs s))) as [H1 H2];
    [apply NoDup_seqZ|by rewrite length_group_outputs|reflexivity| |].
  2,4: rewrite Htws; done.
  all: intros i Hi%elem_of_seqZ; apply Hflags; lia.
Qed.

Lemma filtered_response_serves `{!Sha256} s f :
  stored_typed s → stored_valid s → sb_raw_block_bytes s ≠ 0 →
  Forall (λ e, spent_uid e < U64_MAX) (sb_spends s) → filtering f →
  ∃ r, to_filtered_response_input s f = Ok r ∧ serves s f r.
Proof.
  intros Ht Hv Hraw Hmax Hf. unfold to_filtered_response_input.
  assert (negb (filter_reuse f) && bool_decide (cutthrough_start f = None) = false) as ->.
  { destruct Hf as [-> | Hf]; [done|]. by rewrite bool_decide_false, andb_false_r. }
  destruct (filter_block s f Ht Hv Hraw)
    as (st & indexes & -> & Hst & Hkeys & Htws & Hcur & Hwf & Hexp & Hden).
  cbn [mbind res_bind]. rewrite Hst. cbn [mbind res_bind].
  rewrite (ensure_ok (_ = length (sb_outputs s))) by done. cbn [mbind res_bind].
  fold (kept_spends (sb_height s) f (sb_spends s)).
  destruct (kept_spends_encode s f Ht Hv Hmax) as (count & stream & He & Hc & Hd).
  rewrite He. cbn [mbind res_bind].
  pose proof (length_kept (sb_height s) f (sb_outputs s)) as Hlk.
  pose proof (sv_outputs s Hv) as Hol.
  rewrite Hkeys. rewrite pack_keys_spec by (rewrite ?length_fmap; lia || apply choose_bits_bound).
  cbn [mbind res_bind]. set (r := {| lb_height := sb_height s |}).
  pose proof (sv_declared s Hv) as Hdecl. rewrite bool_decide_false in Hdecl by done.
  pose proof (st_tweaks s Ht) as Htw.
  assert (light_typed r) as Hrt.
  { subst r. constructor; lb_simpl; [apply (st_tx_count s Ht)|apply Hwf| |apply choose_bits_bound|done].
    rewrite Htws. apply kept_entries_typed, group_outputs_typed, Htw. }
  assert (light_valid r) as Hrv.
  { subst r. pose proof (choose_bits_bound (length (key <$> kept_outputs (sb_height s) f (sb_outputs s)))
      (sb_raw_block_bytes s) (response_label_budget (labels f))) as Hb.
    constructor; lb_simpl.
    - done.
    - pose proof (sv_tweaks s Hv). pose proof (skipped_dense_length (sb_tx_count s) (fs_skipped st)).
      pose proof (st_tx_count s Ht) as Hn. unfold in_width in Hn. lia.
    - done.
    - rewrite Htws, declared_kept, length_hash_stream, length_fmap by (done || lia). done.
    - rewrite Htws, declared_kept, length_fmap by done. split; intros E.
      + destruct (decide (length (kept_outputs (sb_height s) f (sb_outputs s)) = 0%nat)); [done|].
        pose proof (choose_bits_pos (length (kept_outputs (sb_height s) f (sb_outputs s)))
          (sb_raw_block_bytes s) (response_label_budget (labels f))). lia.
      + by rewrite E.
    - unfold decode_light_block_spent_ids. lb_simpl. by rewrite Hd. }
  rewrite (proj2 (validate_light_ok r Hrt) Hrv). cbn [mbind res_bind]. exists r. split; [done|].
  constructor; subst r; lb_simpl; try done.
  by rewrite length_fmap.
Qed.

(** ** Property *)

(** A filtered response is the stored block with the omitted coins removed and
    nothing else changed.  For every stored block that passes validation and every
    cut-through or reuse filter, a response is produced (no error, no panic) and
    passes the response validator; read transaction by transaction it has the stored
    entry with the omitted outputs removed, or no entry when none is left; its hash
    stream is that of the kept keys in order, its spends are the kept spends. *)
Theorem filtered_response_correct `{!Sha256} (s : StoredLightBlockInput) (f : StoredBlockResponseFilter)
  (Ht : stored_typed s) (Hv : validate_stored_light_block_input s = Ok tt)
  (Hraw : sb_raw_block_bytes s ≠ 0) (Hmax : Forall (λ e, spent_uid e < U64_MAX) (sb_spends s))
  (Hf : filtering f) :
  ∃ r, to_filtered_response_input s f = Ok r ∧ serves s f r ∧ validate_light_block_input r = Ok tt.
Proof.
  apply validate_stored_ok in Hv; [|done].
  destruct (filtered_response_serves s f Ht Hv Hraw Hmax Hf) as (r & Hr & Hs).
  exists r. split_and!; [done|done|]. apply validate_light_ok; [apply Hs|apply (sr_valid s f r Hs)].
Qed.

Lemma filtered_response_correct_witness :
  let f := {| cutthrough_start := Some 5; cutthrough_tip := None; filter_reuse := true; labels := Some 2 |} in
  ∃ r, @to_filtered_response_input toy_sha256 demo_stored f = Ok r ∧
    @serves toy_sha256 demo_stored f r ∧ validate_light_block_input r = Ok tt.
Proof.
  intros f. apply (@filtered_response_correct toy_sha256 demo_stored f demo_stored_typed);
    [reflexivity|discriminate|repeat constructor|by left].
Defined.
