(* ===== verification/CutThrough.v ===== *)
(** * Cut-through

    Across the blocks of a range, the outputs left out of the responses and the
    spends left out of the responses are the same coins: a client that folds the
    cut-through responses of a range ends with the unspent outputs it would have
    from the unfiltered ones. *)

From S2P Require Import Prelude LightBlock LightValid LightFilter.

(** The UIDs of a block's dense outputs: the slots of the block's P2TR domain that
    are not skipped, counted from [first_uid]. *)
Definition dense_slots (s : StoredLightBlockInput) : list Z :=
  filter (λ slot, slot ∉ sb_skipped_outputs s)
    (seqZ 0 (len (sb_outputs s) + len (sb_skipped_outputs s))).
Definition created (s : StoredLightBlockInput) : list (Z * StoredOutputEntryInput) :=
  zip ((λ slot, sb_first_uid s + slot) <$> dense_slots s) (sb_outputs s).

(** A client's coins after a block: those it had, the served outputs added, the
    served spends removed. *)
Definition served_uids (f : StoredBlockResponseFilter) (s : StoredLightBlockInput) : gset Z :=
  list_to_set (filter (λ c, kept (sb_height s) f c.2) (created s)).*1.
Definition served_spends (f : StoredBlockResponseFilter) (s : StoredLightBlockInput) : gset Z :=
  list_to_set (spent_uid <$> kept_spends (sb_height s) f (sb_spends s)).
Definition client_apply (f : StoredBlockResponseFilter) (coins : gset Z) (s : StoredLightBlockInput)
    : gset Z :=
  (coins ∪ served_uids f s) ∖ served_spends f s.
Definition client_sync (f : StoredBlockResponseFilter) (coins : gset Z)
    (chain : list StoredLightBlockInput) : gset Z := foldl (client_apply f) coins chain.

Definition cutthrough (start tip : Z) : StoredBlockResponseFilter :=
  {| cutthrough_start := Some start; cutthrough_tip := Some tip;
     filter_reuse := false; labels := None |}.

(** The archive's spend records and spent heights agree on the blocks of the range. *)
Record chain_consistent (start tip : Z) (chain : list StoredLightBlockInput) : Prop := {
  cc_heights : Forall (λ s, start ≤ sb_height s ≤ tip) chain;
  cc_sorted : StronglySorted (λ a b, sb_height a < sb_height b) chain;
  cc_unique : NoDup (chain ≫= λ s, (created s).*1);
  (** a recorded spent height is that of a later block that records the spend *)
  cc_output : ∀ s u o, s ∈ chain → (u, o) ∈ created s →
    spent_height o ≠ STORAGE_SPENT_HEIGHT_UNSPENT → spent_height o ≤ tip →
    sb_height s ≤ spent_height o ∧
    ∃ s' e, s' ∈ chain ∧ sb_height s' = spent_height o ∧ e ∈ sb_spends s' ∧ spent_uid e = u;
  (** a recorded spend of an output of the range is marked on that output *)
  cc_spend : ∀ s e, s ∈ chain → e ∈ sb_spends s → start ≤ creation_height e →
    ∃ s' o, s' ∈ chain ∧ (spent_uid e, o) ∈ created s' ∧ spent_height o = sb_height s;
  (** and the recorded creation height is the creating block's *)
  cc_creation : ∀ s e s' o, s ∈ chain → e ∈ sb_spends s → s' ∈ chain →
    (spent_uid e, o) ∈ created s' → creation_height e = sb_height s'
}.

Section sync.
Context (start tip : Z) (chain : list StoredLightBlockInput).
Hypothesis Htip : tip < STORAGE_SPENT_HEIGHT_UNSPENT.
Hypothesis Hc : chain_consistent start tip chain.
Notation f := (cutthrough start tip).
Notation f0 := filter_default.

(** The coins cut through: created in the range and spent in it. *)
Definition cut_coin (u : Z) : Prop :=
  ∃ s o, s ∈ chain ∧ (u, o) ∈ created s ∧
    spent_height o ≠ STORAGE_SPENT_HEIGHT_UNSPENT ∧ spent_height o ≤ tip.

Lemma kept_default h o : kept h f0 o.
Proof. done. Qed.

Lemma omit_output_cut h o :
  start ≤ h → kept h f o ↔ ¬ (spent_height o ≠ STORAGE_SPENT_HEIGHT_UNSPENT ∧ spent_height o ≤ tip).
Proof.
  intros Hh. unfold kept, should_omit_stored_output, cutthrough. simpl.
  rewrite bool_decide_true by done. cbn [andb].
  rewrite andb_false_iff, !bool_decide_eq_false. split; [naive_solver|].
  intros Hn. destruct (decide (spent_height o = STORAGE_SPENT_HEIGHT_UNSPENT)); [left; tauto|].
  right. tauto.
Qed.

Lemma omit_spend_cut h e :
  h ≤ tip → should_omit_stored_spend h e f = false ↔ creation_height e < start.
Proof.
  intros Hh. unfold should_omit_stored_spend, cutthrough. simpl.
  rewrite bool_decide_true by done. cbn [andb]. rewrite bool_decide_eq_false. lia.
Qed.

Lemma created_unique s1 s2 u o1 o2 :
  s1 ∈ chain → s2 ∈ chain → (u, o1) ∈ created s1 → (u, o2) ∈ created s2 → s1 = s2 ∧ o1 = o2.
Proof.
  intros H1 H2 Ho1 Ho2. pose proof (cc_unique _ _ _ Hc) as Hn.
  clear Hc. induction chain as [|s l IH]; [by apply elem_of_nil in H1|].
  rewrite bind_cons in Hn. apply NoDup_app in Hn as (Hs & Hd & Hl).
  assert (∀ s' o, s' ∈ l → (u, o) ∈ created s' → u ∈ l ≫= (λ s, (created s).*1)) as Hin.
  { intros s' o Hs' Ho. apply list_elem_of_bind. exists s'. split; [|done].
    apply list_elem_of_fmap. by exists (u, o). }
  assert (∀ o, (u, o) ∈ created s → u ∈ (created s).*1) as Hin0.
  { intros o Ho. apply list_elem_of_fmap. by exists (u, o). }
  apply elem_of_cons in H1 as [->|H1], H2 as [->|H2].
  - split; [done|]. apply list_elem_of_lookup in Ho1 as [i Hi], Ho2 as [j Hj].
    assert ((created s).*1 !! i = Some u) as Hi' by (by rewrite list_lookup_fmap, Hi).
    assert ((created s).*1 !! j = Some u) as Hj' by (by rewrite list_lookup_fmap, Hj).
    rewrite (NoDup_lookup _ _ _ _ Hs Hi' Hj') in Hi. rewrite Hi in Hj. by injection Hj.
  - destruct (Hd u); eauto.
  - destruct (Hd u); eauto.
  - by apply IH.
Qed.

Lemma served_uids_cut s u :
  s ∈ chain → u ∈ served_uids f s ↔ u ∈ served_uids f0 s ∧ ¬ cut_coin u.
Proof.
  intros Hs. pose proof (cc_heights _ _ _ Hc) as Hh. rewrite Forall_forall in Hh.
  specialize (Hh s Hs). unfold served_uids. rewrite !elem_of_list_to_set, !list_elem_of_fmap.
  setoid_rewrite list_elem_of_filter. setoid_rewrite (omit_output_cut (sb_height s)); [|lia]. split.
  - intros ([u' o] & -> & Hk & Ho). cbn in *. split; [by exists (u', o)|].
    intros (s' & o' & Hs' & Ho' & Hsp & Ht).
    destruct (created_unique s s' u' o o' Hs Hs' Ho Ho') as [_ ->]. apply Hk. done.
  - intros [([u' o] & -> & _ & Ho) Hnc]. exists (u', o). split_and!; [done| |done].
    cbn. intros Hk. apply Hnc. by exists s, o.
Qed.

Lemma served_spends_cut s u :
  s ∈ chain → u ∈ served_spends f s ↔ u ∈ served_spends f0 s ∧ ¬ cut_coin u.
Proof.
  intros Hs. pose proof (cc_heights _ _ _ Hc) as Hh. rewrite Forall_forall in Hh.
  pose proof (Hh s Hs) as Hhs. unfold served_spends, kept_spends.
  rewrite !elem_of_list_to_set, !list_elem_of_fmap. setoid_rewrite list_elem_of_filter.
  setoid_rewrite (omit_spend_cut (sb_height s)); [|lia]. split.
  - intros (e & -> & Hk & He). split; [by exists e|]. intros (s' & o & Hs' & Ho & _ & _).
    rewrite (cc_creation _ _ _ Hc s e s' o Hs He Hs' Ho) in Hk. specialize (Hh s' Hs'). lia.
  - intros [(e & -> & _ & He) Hnc]. exists e. split_and!; [done| |done].
    destruct (decide (creation_height e < start)) as [|Hge]; [done|]. destruct Hnc.
    destruct (cc_spend _ _ _ Hc s e Hs He ltac:(lia)) as (s' & o & Hs' & Ho & Hsp).
    exists s', o. rewrite Hsp. split_and!; [done|done|unfold STORAGE_SPENT_HEIGHT_UNSPENT in *; lia|lia].
Qed.

(** Along the range, the cut-through client misses exactly the coins cut through. *)
Lemma sync_cut blocks coins coins' :
  (∀ s, s ∈ blocks → s ∈ chain) → (∀ u, u ∈ coins' ↔ u ∈ coins ∧ ¬ cut_coin u) →
  ∀ u, u ∈ client_sync f coins' blocks ↔ u ∈ client_sync f0 coins blocks ∧ ¬ cut_coin u.
Proof.
  revert coins coins'. induction blocks as [|s blocks IH]; intros coins coins' Hin Hcoins; [done|].
  cbn [client_sync foldl]. apply IH; [intros; apply Hin; by constructor|]. intros u.
  unfold client_apply. rewrite !elem_of_difference, !elem_of_union.
  rewrite served_uids_cut, served_spends_cut, Hcoins by (apply Hin; constructor). tauto.
Qed.

Lemma sync_app g coins l1 l2 : client_sync g coins (l1 ++ l2) = client_sync g (client_sync g coins l1) l2.
Proof. apply foldl_app. Qed.

Lemma sync_not_created u coins blocks :
  u ∉ coins → (∀ s, s ∈ blocks → u ∉ (created s).*1) → u ∉ client_sync f0 coins blocks.
Proof.
  revert coins. induction blocks as [|s blocks IH]; intros coins Hu Hb; [done|].
  cbn [client_sync foldl]. apply IH; [|intros; apply Hb; by constructor].
  unfold client_apply, served_uids. rewrite elem_of_difference, elem_of_union, elem_of_list_to_set.
  intros [[?|Hk] _]; [done|]. apply (Hb s); [constructor|].
  apply list_elem_of_fmap in Hk as (c & -> & [_ Hk]%list_elem_of_filter).
  apply list_elem_of_fmap. by exists c.
Qed.

(** A coin cut through is spent at the end of the range. *)
Lemma cut_coin_spent u coins : cut_coin u → u ∉ client_sync f0 coins chain.
Proof.
  intros (s & o & Hs & Ho & Hsp & Ht).
  destruct (cc_output _ _ _ Hc s u o Hs Ho Hsp Ht) as (Hle & s' & e & Hs' & Hh' & He & Hu).
  pose proof (cc_sorted _ _ _ Hc) as Hsort.
  apply list_elem_of_split in Hs' as (pre & post & E). rewrite E, sync_app. cbn [client_sync foldl].
  apply sync_not_created.
  - unfold client_apply. rewrite elem_of_difference. intros [_ Hn]. apply Hn.
    unfold served_spends. rewrite elem_of_list_to_set, list_elem_of_fmap. exists e.
    split; [done|]. apply list_elem_of_filter. done.
  - intros s2 Hs2 Hin. apply list_elem_of_fmap in Hin as ([u' o2] & E2 & Ho2). cbn in E2. subst u'.
    assert (s2 ∈ chain) as Hs2c by (rewrite E; set_solver).
    destruct (created_unique s s2 u o o2 Hs Hs2c Ho Ho2) as [-> _].
    rewrite E in Hsort. apply StronglySorted_app in Hsort as (_ & _ & Hsort).
    apply StronglySorted_inv in Hsort as [_ Hall]. rewrite Forall_forall in Hall.
    specialize (Hall s2 Hs2). lia.
Qed.
End sync.

(** The cut-through client ends with the coins of the unfiltered one. *)
Lemma cutthrough_same (start tip : Z) (chain : list StoredLightBlockInput) (coins : gset Z)
  (Htip : tip < STORAGE_SPENT_HEIGHT_UNSPENT) (Hc : chain_consistent start tip chain)
  (Hfresh : ∀ s u, s ∈ chain → u ∈ (created s).*1 → u ∉ coins) :
  client_sync (cutthrough start tip) coins chain = client_sync filter_default coins chain.
Proof.
  apply leibniz_equiv. intros u.
  rewrite (sync_cut start tip chain Htip Hc chain coins coins); [|done|].
  - split; [tauto|]. intros Hu. split; [done|]. intros Hcut.
    by apply (cut_coin_spent start tip chain Htip Hc u coins) in Hcut.
  - intros v. split; [|tauto]. intros Hv. split; [done|]. intros (s & o & Hs & Ho & _).
    apply (Hfresh s v); [done| |done]. apply list_elem_of_fmap. by exists (v, o).
Qed.

(** ** Theorem *)

(** Cut-through is transparent to a syncing client.  On a range of blocks whose
    spend records and spent heights agree, folding the cut-through responses from
    [start] to [tip] leaves the client with exactly the unspent outputs that the
    unfiltered responses leave it with. *)
Theorem cutthrough_preserves_coins (start tip : Z) (chain : list StoredLightBlockInput) (coins : gset Z)
  (Htip : tip < STORAGE_SPENT_HEIGHT_UNSPENT) (Hc : chain_consistent start tip chain)
  (Hfresh : ∀ s u, s ∈ chain → u ∈ (created s).*1 → u ∉ coins) :
  client_sync (cutthrough start tip) coins chain = client_sync filter_default coins chain.
Proof. by apply cutthrough_same. Qed.

Definition demo_output (spent : Z) : StoredOutputEntryInput :=
  {| key := replicate 32 7; spent_height := spent; flags := 0 |}.
Definition demo_block (height first_uid : Z) (skipped : list Z) (outputs : list StoredOutputEntryInput)
    (spends : list StoredSpendEntryInput) : StoredLightBlockInput := {|
  sb_height := height; sb_block_hash := replicate 32 1; sb_previous_block_hash := replicate 32 0;
  sb_first_uid := first_uid; sb_tx_count := 1; sb_skipped_txs_for_tweaks := [0];
  sb_tweaks := [{| output_count := len outputs; tweak := 2 :: replicate 32 9 |}];
  sb_skipped_outputs := skipped; sb_outputs := outputs; sb_spends := spends;
  sb_raw_block_bytes := 300;
  sb_truncated_output_hash_for_two_labels := [];
  sb_truncated_output_hash_for_hundred_labels := [] |}.

(** Two blocks: UID 0 is created at height 10 and spent at 11, UID 2 stays unspent,
    UID 3 is spent after the tip; UID 77 was created before the range. *)
Definition demo_chain : list StoredLightBlockInput := [
  demo_block 10 0 [1] [demo_output 11; demo_output STORAGE_SPENT_HEIGHT_UNSPENT] [];
  demo_block 11 3 [] [demo_output 12]
    [{| spent_uid := 0; creation_height := 10 |}; {| spent_uid := 77; creation_height := 5 |}] ].

Ltac list_cases :=
  repeat match goal with
  | H : _ ∈ [] |- _ => by apply elem_of_nil in H
  | H : _ ∈ _ :: _ |- _ => apply elem_of_cons in H as [H|H]
  end.

(** Evaluates the list of a membership hypothesis. *)
Ltac eval_in H :=
  match type of H with
  | _ ∈ ?l => let l' := eval vm_compute in l in change l with l' in H
  end.

Lemma demo_consistent : chain_consistent 10 11 demo_chain.
Proof.
  constructor.
  - repeat constructor; vm_compute; congruence.
  - repeat constructor.
  - vm_compute. repeat (constructor; [set_solver|]). constructor.
  - intros s u o Hs Ho Hn Hle. unfold demo_chain in Hs. list_cases; subst s;
      eval_in Ho; list_cases; injection Ho as -> ->; try (vm_compute in Hn, Hle; congruence).
    split; [vm_compute; congruence|]. eexists (demo_block 11 3 [] _ _), _.
    split_and!; [right; left|reflexivity|left|reflexivity].
  - intros s e Hs He Hle. unfold demo_chain in Hs. list_cases; subst s;
      eval_in He; list_cases; subst e; try (vm_compute in Hle; congruence).
    eexists _, (demo_output 11). split_and!; [left|left|reflexivity].
  - intros s e s' o Hs He Hs' Ho. unfold demo_chain in Hs, Hs'. list_cases; subst s s';
      eval_in He; list_cases; subst e; eval_in Ho; list_cases; try discriminate Ho; reflexivity.
Qed.

Lemma cutthrough_preserves_coins_witness :
  client_sync (cutthrough 10 11) {[77; 78]} demo_chain = client_sync filter_default {[77; 78]} demo_chain.
Proof.
  apply cutthrough_preserves_coins; [reflexivity|exact demo_consistent|].
  intros s u Hs Hu. unfold demo_chain in Hs. list_cases; subst s; eval_in Hu; list_cases; subst u;
    set_solver.
Defined.
