(* ===== verification/LightWire.v ===== *)
(** * Wire messages

    Model of the encoding half of [light-server/src/index.rs]: the blocks as messages
    of the schema [light-server/schema/light.capnp].  A message is a record with the
    schema's fields.  Its packed serialization belongs to the [capnp] crate and is
    the class [CapnpPacked]: what is written is read back, for the messages that the
    default reader limits admit ([capnp_fits]). *)

From S2P Require Import Prelude Bits EliasDelta Helper TaggedHash Bitmap SpentIds OutputHash LightBlock LightValid LightFilter.

Definition WIRE_VERSION : Z := 1.

(** [capnp::serialize_packed]: [write_message] and [read_message] with [get_root]. *)
Class CapnpPacked (M : Type) := {
  write_message : M → bytes;
  read_message : bytes → res M;
  capnp_fits : M → Prop;
  read_write : ∀ m, capnp_fits m → read_message (write_message m) = Ok m
}.

(** ** The schema *)
Record light_block := {
  l_version : Z; l_height : Z; l_block_hash : bytes; l_previous_block_hash : bytes;
  l_first_uid : Z; l_tx_count : Z; l_skipped_txs_for_tweaks : bytes;
  l_tweak_count : Z; l_tweak_output_counts : bytes; l_tx_tweaks : bytes;
  l_truncated_output_hash_bits : Z; l_truncated_output_hashes : bytes;
  l_spent_id_codec : Z; l_spent_count : Z; l_spent_ids : bytes
}.
Record stored_tweak_entry := { e_output_count : Z; e_tweak : bytes }.
Record stored_output_entry := { e_key : bytes; e_spent_height : Z; e_flags : Z }.
Record stored_spend_entry := { e_spent_uid : Z; e_creation_height : Z }.
Record stored_light_block := {
  s_version : Z; s_height : Z; s_block_hash : bytes; s_previous_block_hash : bytes;
  s_first_uid : Z; s_tx_count : Z; s_skipped_txs_for_tweaks : bytes;
  s_tweaks : list stored_tweak_entry; s_skipped_outputs : list Z;
  s_outputs : list stored_output_entry; s_spends : list stored_spend_entry;
  s_raw_block_bytes : Z;
  s_truncated_output_hash_for_two_labels : bytes;
  s_truncated_output_hash_for_hundred_labels : bytes
}.

(** The enum [SpentIdCodec]: its one enumerant has ordinal 0. *)
Definition spent_id_codec_to_capnp (codec : SpentIdCodec) : Z :=
  match codec with EliasDeltaAscendingAbsolute => 0 end.
Definition spent_id_codec_from_capnp (ordinal : Z) : res SpentIdCodec :=
  if bool_decide (ordinal = 0) then Ok EliasDeltaAscendingAbsolute
  else Err "unsupported spent id codec".

(** ** Flat tweaks *)
Definition encode_flat_tweaks (tweaks : list TweakEntryInput) : bytes * bytes :=
  foldl (λ '(output_counts, tx_tweaks) entry,
    (output_counts ++ le_bytes 2 (output_count entry),
     tx_tweaks ++ tx_tweak_payload_bytes (tweak entry))) ([], []) tweaks.

Definition decode_flat_tweak (output_counts tx_tweaks : bytes) (i : nat) : res TweakEntryInput :=
  let count_offset := (i * 2)%nat in
  b0 ← index output_counts count_offset;
  b1 ← index output_counts (count_offset + 1);
  let output_count := from_le [b0; b1] in
  let tweak_offset := (i * 32)%nat in
  payload ← slice tx_tweaks tweak_offset (tweak_offset + 32);
  tweak ← tx_tweak_from_payload_bytes payload;
  Ok {| output_count := output_count; tweak := tweak |}.

Definition decode_flat_tweaks (tweak_count : Z) (output_counts tx_tweaks : bytes)
    : res (list TweakEntryInput) :=
  expected_output_count_bytes ← ok_or (checked_mul 64 tweak_count 2)
    "flat tweak output-count byte length overflow";
  expected_tweak_bytes ← ok_or (checked_mul 64 tweak_count 32)
    "flat tweak payload byte length overflow";
  _ ← ensure (bool_decide (len output_counts = expected_output_count_bytes))
    "flat tweak output-count bytes length does not match expected";
  _ ← ensure (bool_decide (len tx_tweaks = expected_tweak_bytes))
    "flat tweak payload bytes length does not match expected";
  map_res (decode_flat_tweak output_counts tx_tweaks) (seq 0 (Z.to_nat tweak_count)).

(** ** Light blocks *)
Definition encode_light_block (input : LightBlockInput) : res light_block :=
  _ ← validate_light_block_input input;
  let '(tweak_output_counts, tx_tweaks) := encode_flat_tweaks (lb_tweaks input) in
  Ok {|
    l_version := WIRE_VERSION;
    l_height := lb_height input;
    l_block_hash := lb_block_hash input;
    l_previous_block_hash := lb_previous_block_hash input;
    l_first_uid := lb_first_uid input;
    l_tx_count := lb_tx_count input;
    l_skipped_txs_for_tweaks := lb_skipped_txs_for_tweaks input;
    l_tweak_count := wrap 32 (len (lb_tweaks input));
    l_tweak_output_counts := tweak_output_counts;
    l_tx_tweaks := tx_tweaks;
    l_truncated_output_hash_bits := lb_truncated_output_hash_bits input;
    l_truncated_output_hashes := lb_truncated_output_hashes input;
    l_spent_id_codec := spent_id_codec_to_capnp (lb_spent_id_codec input);
    l_spent_count := lb_spent_count input;
    l_spent_ids := lb_spent_ids input |}.

(** ** Stored blocks *)
Definition encode_stored_light_block (input : StoredLightBlockInput) : res stored_light_block :=
  _ ← validate_stored_light_block_input input;
  height ← try_from 32 (sb_height input);
  Ok {|
    s_version := WIRE_VERSION;
    s_height := height;
    s_block_hash := sb_block_hash input;
    s_previous_block_hash := sb_previous_block_hash input;
    s_first_uid := sb_first_uid input;
    s_tx_count := sb_tx_count input;
    s_skipped_txs_for_tweaks := sb_skipped_txs_for_tweaks input;
    s_tweaks := (λ entry, {| e_output_count := output_count entry;
      e_tweak := tx_tweak_payload_bytes (tweak entry) |}) <$> sb_tweaks input;
    s_skipped_outputs := sb_skipped_outputs input;
    s_outputs := (λ entry, {| e_key := key entry; e_spent_height := spent_height entry;
      e_flags := flags entry |}) <$> sb_outputs input;
    s_spends := (λ entry, {| e_spent_uid := spent_uid entry;
      e_creation_height := creation_height entry |}) <$> sb_spends input;
    s_raw_block_bytes := sb_raw_block_bytes input;
    s_truncated_output_hash_for_two_labels := sb_truncated_output_hash_for_two_labels input;
    s_truncated_output_hash_for_hundred_labels := sb_truncated_output_hash_for_hundred_labels input |}.

Definition decode_stored_tweak (entry : stored_tweak_entry) : res TweakEntryInput :=
  _ ← ensure (bool_decide (length (e_tweak entry) = 32%nat)) "stored tweak entry is not 32 bytes";
  tweak ← tx_tweak_from_payload_bytes (e_tweak entry);
  Ok {| output_count := e_output_count entry; tweak := tweak |}.

Definition decode_stored_output (entry : stored_output_entry) : res StoredOutputEntryInput :=
  _ ← ensure (bool_decide (length (e_key entry) = 32%nat)) "stored output entry key is not 32 bytes";
  key ← read_32 (e_key entry) "stored output key";
  Ok {| key := key; spent_height := e_spent_height entry; flags := e_flags entry |}.

Section wire.
Context `{!CapnpPacked light_block, !CapnpPacked stored_light_block}.

Definition to_packed_bytes {M} `{!CapnpPacked M} (msg : M) : res bytes := Ok (write_message msg).

Definition decode_light_block (bs : bytes) : res LightBlockInput :=
  block ← read_message bs : res light_block;
  _ ← ensure (bool_decide (l_version block = WIRE_VERSION)) "unsupported light block version";
  tweaks ← decode_flat_tweaks (l_tweak_count block) (l_tweak_output_counts block) (l_tx_tweaks block);
  spent_id_codec ← spent_id_codec_from_capnp (l_spent_id_codec block);
  block_hash ← read_32 (l_block_hash block) "block hash";
  previous_block_hash ← read_32 (l_previous_block_hash block) "previous block hash";
  let input := {|
    lb_height := l_height block;
    lb_block_hash := block_hash;
    lb_previous_block_hash := previous_block_hash;
    lb_first_uid := l_first_uid block;
    lb_tx_count := l_tx_count block;
    lb_skipped_txs_for_tweaks := l_skipped_txs_for_tweaks block;
    lb_tweaks := tweaks;
    lb_truncated_output_hash_bits := l_truncated_output_hash_bits block;
    lb_truncated_output_hashes := l_truncated_output_hashes block;
    lb_spent_id_codec := spent_id_codec;
    lb_spent_count := l_spent_count block;
    lb_spent_ids := l_spent_ids block |} in
  _ ← validate_light_block_input input;
  Ok input.

Definition decode_stored_light_block (bs : bytes) : res StoredLightBlockInput :=
  block ← read_message bs : res stored_light_block;
  _ ← ensure (bool_decide (s_version block = WIRE_VERSION)) "unsupported stored light block version";
  tweaks ← map_res decode_stored_tweak (s_tweaks block);
  outputs ← map_res decode_stored_output (s_outputs block);
  let spends := (λ entry, {| spent_uid := e_spent_uid entry;
    creation_height := e_creation_height entry |}) <$> s_spends block in
  block_hash ← read_32 (s_block_hash block) "stored block hash";
  previous_block_hash ← read_32 (s_previous_block_hash block) "stored previous block hash";
  let input := {|
    sb_height := s_height block;
    sb_block_hash := block_hash;
    sb_previous_block_hash := previous_block_hash;
    sb_first_uid := s_first_uid block;
    sb_tx_count := s_tx_count block;
    sb_skipped_txs_for_tweaks := s_skipped_txs_for_tweaks block;
    sb_tweaks := tweaks;
    sb_skipped_outputs := s_skipped_outputs block;
    sb_outputs := outputs;
    sb_spends := spends;
    sb_raw_block_bytes := s_raw_block_bytes block;
    sb_truncated_output_hash_for_two_labels := s_truncated_output_hash_for_two_labels block;
    sb_truncated_output_hash_for_hundred_labels := s_truncated_output_hash_for_hundred_labels block |} in
  _ ← validate_stored_light_block_input input;
  Ok input.

Definition stored_light_block_to_filtered_response_bytes `{!Sha256} (bs : bytes)
    (filter : StoredBlockResponseFilter) : res (bytes * bytes) :=
  stored ← decode_stored_light_block bs;
  let block_hash := sb_block_hash stored in
  response ← to_filtered_response_input stored filter;
  message ← encode_light_block response;
  packed ← to_packed_bytes message;
  Ok (packed, block_hash).

Definition stored_light_block_to_response_bytes `{!Sha256} (bs : bytes) : res (bytes * bytes) :=
  stored_light_block_to_filtered_response_bytes bs filter_default.

End wire.

(** ** Normal forms: the parity byte of a tweak point is not stored *)
Definition norm_tweak (e : TweakEntryInput) : TweakEntryInput :=
  {| output_count := output_count e; tweak := 2 :: tx_tweak_payload_bytes (tweak e) |}.
Definition norm_light (r : LightBlockInput) : LightBlockInput := {|
  lb_height := lb_height r; lb_block_hash := lb_block_hash r;
  lb_previous_block_hash := lb_previous_block_hash r; lb_first_uid := lb_first_uid r;
  lb_tx_count := lb_tx_count r; lb_skipped_txs_for_tweaks := lb_skipped_txs_for_tweaks r;
  lb_tweaks := norm_tweak <$> lb_tweaks r;
  lb_truncated_output_hash_bits := lb_truncated_output_hash_bits r;
  lb_truncated_output_hashes := lb_truncated_output_hashes r;
  lb_spent_id_codec := lb_spent_id_codec r; lb_spent_count := lb_spent_count r;
  lb_spent_ids := lb_spent_ids r |}.
Definition norm_stored (s : StoredLightBlockInput) : StoredLightBlockInput := {|
  sb_height := sb_height s; sb_block_hash := sb_block_hash s;
  sb_previous_block_hash := sb_previous_block_hash s; sb_first_uid := sb_first_uid s;
  sb_tx_count := sb_tx_count s; sb_skipped_txs_for_tweaks := sb_skipped_txs_for_tweaks s;
  sb_tweaks := norm_tweak <$> sb_tweaks s; sb_skipped_outputs := sb_skipped_outputs s;
  sb_outputs := sb_outputs s; sb_spends := sb_spends s;
  sb_raw_block_bytes := sb_raw_block_bytes s;
  sb_truncated_output_hash_for_two_labels := sb_truncated_output_hash_for_two_labels s;
  sb_truncated_output_hash_for_hundred_labels := sb_truncated_output_hash_for_hundred_labels s |}.

Lemma norm_tweak_typed e : tweak_typed e → tweak_typed (norm_tweak e).
Proof.
  intros [Hc Ht]. split; [done|]. pose proof (payload_length _ Ht) as Hl.
  destruct Ht as [_ Ht]. split; [cbn; by rewrite Hl|].
  cbn. constructor; [unfold is_byte; lia|by apply Forall_drop].
Qed.
Lemma norm_tweaks_typed l : Forall tweak_typed l → Forall tweak_typed (norm_tweak <$> l).
Proof. intros H. apply Forall_fmap. eapply Forall_impl; [exact H|]. apply norm_tweak_typed. Qed.
Lemma declared_norm l : declared (norm_tweak <$> l) = declared l.
Proof. unfold declared. by rewrite <- list_fmap_compose. Qed.

Lemma norm_light_typed r : light_typed r → light_typed (norm_light r).
Proof. intros []. constructor; try done. by apply norm_tweaks_typed. Qed.
Lemma norm_light_valid r : light_valid r → light_valid (norm_light r).
Proof.
  intros []. constructor; unfold norm_light; lb_simpl; rewrite ?length_fmap, ?declared_norm; done.
Qed.
Lemma norm_stored_typed s : stored_typed s → stored_typed (norm_stored s).
Proof. intros []. constructor; try done. by apply norm_tweaks_typed. Qed.
Lemma norm_stored_valid s : stored_valid s → stored_valid (norm_stored s).
Proof.
  intros []. constructor; try done; cbn [norm_stored sb_tweaks]; rewrite ?length_fmap, ?declared_norm; done.
Qed.

(** ** Flat tweaks *)
Lemma encode_flat_tweaks_eq l :
  encode_flat_tweaks l = (l ≫= λ e, le_bytes 2 (output_count e), l ≫= λ e, tx_tweak_payload_bytes (tweak e)).
Proof.
  unfold encode_flat_tweaks.
  enough (∀ a b, foldl (λ '(output_counts, tx_tweaks) entry,
    (output_counts ++ le_bytes 2 (output_count entry),
     tx_tweaks ++ tx_tweak_payload_bytes (tweak entry))) (a, b) l
    = (a ++ (l ≫= λ e, le_bytes 2 (output_count e)), b ++ (l ≫= λ e, tx_tweak_payload_bytes (tweak e)))) as H
    by apply H.
  induction l as [|e l IH]; intros a b; cbn [foldl].
  { by rewrite !app_nil_r. }
  rewrite IH, !bind_cons. by rewrite <- !app_assoc.
Qed.

Lemma decode_flat_tweak_ok l i e :
  Forall tweak_typed l → l !! i = Some e →
  decode_flat_tweak (l ≫= λ e, le_bytes 2 (output_count e))
    (l ≫= λ e, tx_tweak_payload_bytes (tweak e)) i = Ok (norm_tweak e).
Proof.
  intros Ht Hi. pose proof (Forall_lookup_1 _ _ _ _ Ht Hi) as [Hc He].
  assert (Forall (λ e, length (le_bytes 2 (output_count e)) = 2%nat) l) as H2.
  { apply Forall_forall. intros. apply length_le_bytes. }
  assert (Forall (λ e, length (tx_tweak_payload_bytes (tweak e)) = 32%nat) l) as H32.
  { eapply Forall_impl; [exact Ht|]. intros x [_ Hx]. by apply payload_length. }
  pose proof (bind_const_block _ _ _ _ _ H2 Hi) as B2.
  pose proof (bind_const_block _ _ _ _ _ H32 Hi) as B32.
  pose proof (lookup_lt_Some _ _ _ Hi) as Hlt.
  unfold decode_flat_tweak. set (cs := l ≫= λ e, le_bytes 2 (output_count e)) in *.
  assert (∀ k, (k < 2)%nat → cs !! (i * 2 + k)%nat = le_bytes 2 (output_count e) !! k) as Hk.
  { intros k Hk. by rewrite <- B2, lookup_take_lt, lookup_drop by done. }
  pose proof (Hk 0%nat ltac:(lia)) as K0. rewrite Nat.add_0_r in K0. cbn in K0.
  pose proof (Hk 1%nat ltac:(lia)) as K1. cbn in K1.
  rewrite (index_ok _ _ _ K0), (index_ok _ _ _ K1). cbn [mbind res_bind].
  rewrite slice_ok by (rewrite (length_bind_const _ _ _ H32); lia).
  replace (i * 32 + 32 - i * 32)%nat with 32%nat by lia. rewrite B32. cbn [mbind res_bind].
  unfold tx_tweak_from_payload_bytes. rewrite ensure_ok by (by apply payload_length).
  cbn [mbind res_bind]. unfold norm_tweak. do 2 f_equal.
  apply (from_le_le_bytes 2). unfold in_width in Hc. simpl. lia.
Qed.

Lemma decode_flat_tweaks_ok l :
  Forall tweak_typed l → len l ≤ 65535 →
  decode_flat_tweaks (len l) (l ≫= λ e, le_bytes 2 (output_count e))
    (l ≫= λ e, tx_tweak_payload_bytes (tweak e)) = Ok (norm_tweak <$> l).
Proof.
  intros Ht Hl. unfold decode_flat_tweaks, checked_mul. rewrite !bool_decide_true by lia.
  cbn [mbind res_bind ok_or].
  rewrite (ensure_ok (_ = len l * 2)).
  2:{ rewrite (length_bind_const _ 2); [lia|]. apply Forall_forall. intros. apply length_le_bytes. }
  cbn [mbind res_bind]. rewrite (ensure_ok (_ = len l * 32)).
  2:{ rewrite (length_bind_const _ 32); [lia|]. eapply Forall_impl; [exact Ht|].
      intros x [_ Hx]. by apply payload_length. }
  cbn [mbind res_bind]. rewrite Nat2Z.id. apply map_res_Ok, Forall2_same_length_lookup.
  split; [by rewrite length_seq, length_fmap|].
  intros i j e [-> _]%lookup_seq He. rewrite list_lookup_fmap in He.
  apply fmap_Some in He as (e' & He' & ->). by apply decode_flat_tweak_ok.
Qed.

(** ** Round trips *)
Lemma read_32_array bs label : array_wf 32 bs → read_32 bs label = Ok bs.
Proof. intros [H _]. by apply read_32_ok. Qed.

(** The rest of the fields' types. *)
Definition light_hashes_typed (r : LightBlockInput) : Prop :=
  array_wf 32 (lb_block_hash r) ∧ array_wf 32 (lb_previous_block_hash r).

Section roundtrip.
Context `{!CapnpPacked light_block, !CapnpPacked stored_light_block}.

Lemma light_roundtrip r m :
  light_typed r → light_hashes_typed r → encode_light_block r = Ok m → capnp_fits m →
  decode_light_block (write_message m) = Ok (norm_light r).
Proof.
  intros Ht [Hh Hp] He Hf. unfold encode_light_block in He.
  apply bind_Ok in He as ([] & Hv & He). apply validate_light_ok in Hv; [|done].
  rewrite encode_flat_tweaks_eq in He. injection He as <-.
  unfold decode_light_block. rewrite read_write by done. cbn [mbind res_bind].
  rewrite ensure_ok by done. cbn [mbind res_bind l_tweak_count l_tweak_output_counts l_tx_tweaks].
  pose proof (lv_tweaks r Hv) as Hl. rewrite wrap_small by (unfold in_width; lia).
  rewrite decode_flat_tweaks_ok by (done || apply (lt_tweaks r Ht)). cbn [mbind res_bind].
  unfold spent_id_codec_from_capnp.
  replace (bool_decide _) with true by (by destruct (lb_spent_id_codec r)). cbn [mbind res_bind].
  cbn [l_block_hash l_previous_block_hash]. rewrite !read_32_array by done. cbn [mbind res_bind].
  pose proof (proj2 (validate_light_ok _ (norm_light_typed r Ht)) (norm_light_valid r Hv)) as Hn.
  unfold norm_light in Hn |- *. cbn. destruct (lb_spent_id_codec r). by rewrite Hn.
Qed.

Lemma stored_roundtrip s m :
  stored_typed s → encode_stored_light_block s = Ok m → capnp_fits m →
  decode_stored_light_block (write_message m) = Ok (norm_stored s).
Proof.
  intros Ht He Hf. unfold encode_stored_light_block in He.
  apply bind_Ok in He as ([] & Hv & He). apply validate_stored_ok in Hv; [|done].
  apply bind_Ok in He as (h & [-> _]%try_from_Ok & He). injection He as <-.
  unfold decode_stored_light_block. rewrite read_write by done. cbn [mbind res_bind].
  rewrite ensure_ok by done. cbn [mbind res_bind s_tweaks s_outputs s_spends s_block_hash s_previous_block_hash].
  assert (map_res decode_stored_tweak ((λ entry, {| e_output_count := output_count entry;
    e_tweak := tx_tweak_payload_bytes (tweak entry) |}) <$> sb_tweaks s)
    = Ok (norm_tweak <$> sb_tweaks s)) as ->.
  { apply map_res_Ok, Forall2_fmap, Forall_Forall2_diag. eapply Forall_impl; [apply (st_tweaks s Ht)|].
    intros e [_ He]. unfold decode_stored_tweak, tx_tweak_from_payload_bytes. cbn.
    by rewrite !ensure_ok by (by apply payload_length). }
  cbn [mbind res_bind].
  assert (map_res decode_stored_output ((λ entry, {| e_key := key entry;
    e_spent_height := spent_height entry; e_flags := flags entry |}) <$> sb_outputs s)
    = Ok (sb_outputs s)) as ->.
  { rewrite <- (list_fmap_id (sb_outputs s)) at 2.
    apply map_res_Ok, Forall2_fmap, Forall_Forall2_diag. eapply Forall_impl; [apply (st_outputs s Ht)|].
    intros e (He & _). unfold decode_stored_output. cbn. rewrite ensure_ok by apply He.
    rewrite read_32_array by done. by destruct e. }
  cbn [mbind res_bind]. destruct (st_hashes s Ht). rewrite !read_32_array by done. cbn [mbind res_bind].
  assert (∀ l, (λ entry, {| spent_uid := e_spent_uid entry; creation_height := e_creation_height entry |})
    <$> ((λ entry, {| e_spent_uid := spent_uid entry; e_creation_height := creation_height entry |}) <$> l)
    = l) as ->.
  { induction l as [|[] l IH]; [done|]. rewrite !fmap_cons, IH. done. }
  pose proof (proj2 (validate_stored_ok _ (norm_stored_typed s Ht)) (norm_stored_valid s Hv)) as Hn.
  unfold norm_stored in Hn |- *. cbn. by rewrite Hn.
Qed.
End roundtrip.

(** ** Serving: from stored bytes to the client's decoded block *)
Lemma expand_fmap {A B} (g : A → B) fl (l : list A) :
  expand fl (g <$> l) = (λ o : option A, g <$> o) <$> expand fl l.
Proof.
  revert l. induction fl as [|[] fl IH]; intros l; [done| |].
  - cbn. by rewrite <- IH.
  - destruct l as [|x l]; cbn; rewrite <- IH; done.
Qed.
Lemma group_outputs_norm {A} tweaks (os : list A) :
  group_outputs (norm_tweak <$> tweaks) os = prod_map norm_tweak id <$> group_outputs tweaks os.
Proof. revert os. induction tweaks as [|t ts IH]; intros os; [done|]. cbn. by rewrite <- IH. Qed.

Lemma kept_entry_norm h f g :
  norm_tweak <$> kept_entry h f (prod_map norm_tweak id g) = kept_entry h f (prod_map norm_tweak id g).
Proof. destruct g as [t os]. unfold kept_entry. cbn. by case_bool_decide. Qed.

Lemma serves_norm `{!Sha256} s f r : serves (norm_stored s) f r → serves (norm_stored s) f (norm_light r).
Proof.
  intros [? He ? ? ? Ht Hv]. constructor; try done.
  - unfold tx_entries in *. cbn [norm_light lb_tx_count lb_skipped_txs_for_tweaks lb_tweaks].
    rewrite expand_fmap, He. unfold tx_groups.
    cbn [norm_stored sb_tx_count sb_skipped_txs_for_tweaks sb_tweaks sb_outputs sb_height].
    rewrite group_outputs_norm, expand_fmap, <- !list_fmap_compose. apply list_fmap_ext.
    intros i [g|] _; [|done]. apply kept_entry_norm.
  - by apply norm_light_typed.
  - by apply norm_light_valid.
Qed.

Lemma encode_stored_ok s :
  stored_typed s → validate_stored_light_block_input s = Ok tt → is_ok (encode_stored_light_block s).
Proof.
  intros Ht Hv. unfold encode_stored_light_block. rewrite Hv. cbn [mbind res_bind].
  apply validate_stored_ok in Hv; [|done]. pose proof (sv_height s Hv) as Hh.
  rewrite try_from_ok by (unfold umax in Hh; lia). done.
Qed.

Lemma encode_light_ok r : validate_light_block_input r = Ok tt → is_ok (encode_light_block r).
Proof. intros Hv. unfold encode_light_block. rewrite Hv. cbn. by destruct (encode_flat_tweaks _). Qed.

(** The stored form of a block and its normal form make the same message. *)
Lemma encode_norm s : stored_typed s → stored_valid s → encode_stored_light_block (norm_stored s) = encode_stored_light_block s.
Proof.
  intros Ht Hv. unfold encode_stored_light_block.
  rewrite (proj2 (validate_stored_ok _ Ht) Hv), (proj2 (validate_stored_ok _ (norm_stored_typed s Ht)) (norm_stored_valid s Hv)).
  cbn [mbind res_bind norm_stored sb_height]. destruct (try_from 32 (sb_height s)); [|done..]. cbn [mbind res_bind]. f_equal.
  unfold norm_stored. cbn. by rewrite <-list_fmap_compose.
Qed.
Lemma norm_twice s : norm_stored (norm_stored s) = norm_stored s.
Proof. unfold norm_stored. cbn. f_equal. by rewrite <-list_fmap_compose. Qed.

(** A codec for concrete messages: every message is one number. *)
Definition toy_capnp (M : Type) `{Countable M} : CapnpPacked M.
Proof.
  refine {|
    write_message := λ m, [Z.pos (encode m)];
    read_message := λ bs, match bs with
      | [Z.pos p] => match decode p with Some m => Ok m | None => Err "premature end of file" end
      | _ => Err "premature end of file" end;
    capnp_fits := λ _, True |}.
  intros m _. by rewrite decode_encode.
Defined.

#[export] Instance light_block_eq_dec : EqDecision light_block.
Proof. solve_decision. Defined.
#[export] Instance light_block_countable : Countable light_block.
Proof.
  refine (inj_countable'
    (λ b, (l_version b, l_height b, l_block_hash b, l_previous_block_hash b, l_first_uid b, l_tx_count b,
      l_skipped_txs_for_tweaks b, l_tweak_count b, l_tweak_output_counts b, l_tx_tweaks b,
      l_truncated_output_hash_bits b, l_truncated_output_hashes b, l_spent_id_codec b, l_spent_count b,
      l_spent_ids b))
    (λ '(a1, a2, a3, a4, a5, a6, a7, a8, a9, a10, a11, a12, a13, a14, a15),
      Build_light_block a1 a2 a3 a4 a5 a6 a7 a8 a9 a10 a11 a12 a13 a14 a15) _).
  by intros [].
Defined.
#[export] Instance stored_tweak_entry_eq_dec : EqDecision stored_tweak_entry.
Proof. solve_decision. Defined.
#[export] Instance stored_tweak_entry_countable : Countable stored_tweak_entry.
Proof.
  refine (inj_countable' (λ b, (e_output_count b, e_tweak b)) (λ '(a1, a2), Build_stored_tweak_entry a1 a2) _).
  by intros [].
Defined.
#[export] Instance stored_output_entry_eq_dec : EqDecision stored_output_entry.
Proof. solve_decision. Defined.
#[export] Instance stored_output_entry_countable : Countable stored_output_entry.
Proof.
  refine (inj_countable' (λ b, (e_key b, e_spent_height b, e_flags b))
    (λ '(a1, a2, a3), Build_stored_output_entry a1 a2 a3) _).
  by intros [].
Defined.
#[export] Instance stored_spend_entry_eq_dec : EqDecision stored_spend_entry.
Proof. solve_decision. Defined.
#[export] Instance stored_spend_entry_countable : Countable stored_spend_entry.
Proof.
  refine (inj_countable' (λ b, (e_spent_uid b, e_creation_height b))
    (λ '(a1, a2), Build_stored_spend_entry a1 a2) _).
  by intros [].
Defined.
#[export] Instance stored_light_block_eq_dec : EqDecision stored_light_block.
Proof. solve_decision. Defined.
#[export] Instance stored_light_block_countable : Countable stored_light_block.
Proof.
  refine (inj_countable'
    (λ b, (s_version b, s_height b, s_block_hash b, s_previous_block_hash b, s_first_uid b, s_tx_count b,
      s_skipped_txs_for_tweaks b, s_tweaks b, s_skipped_outputs b, s_outputs b, s_spends b,
      s_raw_block_bytes b, s_truncated_output_hash_for_two_labels b,
      s_truncated_output_hash_for_hundred_labels b))
    (λ '(a1, a2, a3, a4, a5, a6, a7, a8, a9, a10, a11, a12, a13, a14),
      Build_stored_light_block a1 a2 a3 a4 a5 a6 a7 a8 a9 a10 a11 a12 a13 a14) _).
  by intros [].
Defined.

Section properties.
Context `{!CapnpPacked light_block, !CapnpPacked stored_light_block}.

(** The bytes served for a stored block, and what the client decodes. *)
Lemma filtered_bytes_ok `{!Sha256} s f :
  stored_typed s → validate_stored_light_block_input s = Ok tt → sb_raw_block_bytes s ≠ 0 →
  Forall (λ e, spent_uid e < U64_MAX) (sb_spends s) → filtering f →
  (∀ m, encode_stored_light_block s = Ok m → capnp_fits m) →
  (∀ r m, to_filtered_response_input (norm_stored s) f = Ok r → encode_light_block r = Ok m → capnp_fits m) →
  ∃ m m' r, encode_stored_light_block s = Ok m ∧
    to_filtered_response_input (norm_stored s) f = Ok r ∧ encode_light_block r = Ok m' ∧
    stored_light_block_to_filtered_response_bytes (write_message m) f = Ok (write_message m', sb_block_hash s) ∧
    decode_light_block (write_message m') = Ok (norm_light r) ∧ serves (norm_stored s) f (norm_light r).
Proof.
  intros Ht Hv Hraw Hmax Hf Hfits Hfits'. pose proof (encode_stored_ok s Ht Hv) as Ho.
  destruct (encode_stored_light_block s) as [m| |] eqn:E; [|done..].
  pose proof (stored_roundtrip s m Ht E (Hfits m eq_refl)) as Hd.
  apply validate_stored_ok in Hv; [|done].
  destruct (filtered_response_serves (norm_stored s) f) as (r & Hr & Hs);
    [by apply norm_stored_typed|by apply norm_stored_valid|done..|].
  pose proof (proj2 (validate_light_ok r (sr_typed _ _ _ Hs)) (sr_valid _ _ _ Hs)) as Hvr.
  pose proof (encode_light_ok r Hvr) as Ho'.
  destruct (encode_light_block r) as [m'| |] eqn:E'; [|done..].
  exists m, m', r. split_and!; [done|done|done| | |by apply serves_norm].
  - unfold stored_light_block_to_filtered_response_bytes. rewrite Hd. cbn [mbind res_bind].
    rewrite Hr. cbn [mbind res_bind]. by rewrite E'.
  - apply light_roundtrip; [apply Hs| |done|by eapply Hfits'].
    destruct (st_hashes s Ht). pose proof (sr_header _ _ _ Hs) as (_ & Hb & Hp & _).
    unfold light_hashes_typed. by rewrite Hb, Hp.
Qed.

(** C16: the archive loses nothing a client can use.  A stored block that passes
    validation is encoded, and decoding the packed message gives the same block back,
    with the parity byte of each tweak point set to the even one. *)
Theorem stored_block_roundtrip (s : StoredLightBlockInput) (Ht : stored_typed s)
  (Hv : validate_stored_light_block_input s = Ok tt) :
  ∃ m, encode_stored_light_block s = Ok m ∧
    (capnp_fits m → decode_stored_light_block (write_message m) = Ok (norm_stored s)).
Proof.
  pose proof (encode_stored_ok s Ht Hv) as Ho.
  destruct (encode_stored_light_block s) as [m| |] eqn:E; [|done..].
  exists m. split; [done|]. by apply stored_roundtrip.
Qed.

(** A light block that passes validation survives the wire, up to the parity bytes. *)
Theorem light_block_roundtrip (r : LightBlockInput) (Ht : light_typed r) (Hh : light_hashes_typed r)
  (Hv : validate_light_block_input r = Ok tt) :
  ∃ m, encode_light_block r = Ok m ∧
    (capnp_fits m → decode_light_block (write_message m) = Ok (norm_light r)).
Proof.
  pose proof (encode_light_ok r Hv) as Ho.
  destruct (encode_light_block r) as [m| |] eqn:E; [|done..].
  exists m. split; [done|]. by apply light_roundtrip.
Qed.

(** C10: the served bytes are right end to end.  From the packed bytes of a valid stored
    block, the server's filtered response decodes on the client side to a block that
    serves the stored one under the filter. *)
Theorem filtered_bytes_correct `{!Sha256} (s : StoredLightBlockInput) (f : StoredBlockResponseFilter)
  (Ht : stored_typed s) (Hv : validate_stored_light_block_input s = Ok tt)
  (Hraw : sb_raw_block_bytes s ≠ 0) (Hmax : Forall (λ e, spent_uid e < U64_MAX) (sb_spends s))
  (Hf : filtering f)
  (Hfits : ∀ m, encode_stored_light_block s = Ok m → capnp_fits m)
  (Hfits' : ∀ r m, to_filtered_response_input (norm_stored s) f = Ok r → encode_light_block r = Ok m →
     capnp_fits m) :
  ∃ m bs r, encode_stored_light_block s = Ok m ∧
    stored_light_block_to_filtered_response_bytes (write_message m) f = Ok (bs, sb_block_hash s) ∧
    decode_light_block bs = Ok r ∧ serves (norm_stored s) f r.
Proof.
  destruct (filtered_bytes_ok s f Ht Hv Hraw Hmax Hf Hfits Hfits') as (m & m' & r & E & _ & _ & Hb & Hd & Hs).
  by exists m, (write_message m'), (norm_light r).
Qed.
End properties.

Lemma stored_block_roundtrip_witness :
  let C := toy_capnp stored_light_block in
  ∃ m, encode_stored_light_block demo_stored = Ok m ∧
    (@capnp_fits _ C m → @decode_stored_light_block C (@write_message _ C m) = Ok (norm_stored demo_stored)).
Proof. intros C. apply (@stored_block_roundtrip C demo_stored demo_stored_typed). reflexivity. Defined.

Definition demo_light : LightBlockInput := {|
  lb_height := 10; lb_block_hash := replicate 32 1; lb_previous_block_hash := replicate 32 0;
  lb_first_uid := 40; lb_tx_count := 2; lb_skipped_txs_for_tweaks := [2];
  lb_tweaks := [{| output_count := 2; tweak := 3 :: replicate 32 9 |}];
  lb_truncated_output_hash_bits := 12; lb_truncated_output_hashes := replicate 3 170;
  lb_spent_id_codec := EliasDeltaAscendingAbsolute; lb_spent_count := 1; lb_spent_ids := [104] |}.

Lemma demo_light_typed : light_typed demo_light.
Proof. constructor; typed_tac. Qed.

Lemma light_block_roundtrip_witness :
  let C := toy_capnp light_block in
  ∃ m, encode_light_block demo_light = Ok m ∧
    (@capnp_fits _ C m → @decode_light_block C (@write_message _ C m) = Ok (norm_light demo_light)).
Proof.
  intros C. apply (@light_block_roundtrip C demo_light demo_light_typed); [|reflexivity].
  split; typed_tac.
Defined.

Lemma filtered_bytes_correct_witness :
  let C := toy_capnp light_block in let D := toy_capnp stored_light_block in
  let f := {| cutthrough_start := Some 5; cutthrough_tip := Some 12; filter_reuse := false; labels := None |} in
  ∃ m bs r, encode_stored_light_block demo_stored = Ok m ∧
    @stored_light_block_to_filtered_response_bytes C D toy_sha256 (@write_message _ D m) f
      = Ok (bs, sb_block_hash demo_stored) ∧
    @decode_light_block C bs = Ok r ∧ @serves toy_sha256 (norm_stored demo_stored) f r.
Proof.
  intros C D f. apply (@filtered_bytes_correct C D toy_sha256 demo_stored f demo_stored_typed);
    [reflexivity|discriminate|repeat constructor|by right|done|done].
Defined.
