(* ===== verification/P2trIndexer.v ===== *)
(** * The P2TR indexer

    Model of [light-server/src/p2tr_indexer.rs].  The state of [P2trIndexerState] is a
    record; [apply_block_with_stats] threads it, with the block's accumulators,
    through the loops over transactions, inputs and outputs.

    The model of a failed call is the error alone: the callers propagate it and drop
    the half-updated state.  Counters of the statistics wrap at 32 bits and
    [live_uid_count] at 64, as the unchecked additions of an optimised build do. *)

From S2P Require Import Prelude Bits Helper TaggedHash Bitmap SpentIds OutputHash LightBlock LightValid CutThrough.

Record OutPointKey := { op_txid : bytes; op_vout : Z }.
#[export] Instance OutPointKey_eq_dec : EqDecision OutPointKey.
Proof. solve_decision. Defined.
#[export] Instance OutPointKey_countable : Countable OutPointKey.
Proof.
  refine (inj_countable' (λ o, (op_txid o, op_vout o)) (λ '(t, v), Build_OutPointKey t v) _).
  by intros [].
Defined.

Definition is_coinbase (o : OutPointKey) : bool :=
  bool_decide (op_vout o = umax 32) && bool_decide (op_txid o = replicate 32 0).

Record SpendLookup := {
  sl_uid : Z; sl_creation_height : Z; sl_output_index : Z; sl_flags : Z
}.
#[export] Instance SpendLookup_eq_dec : EqDecision SpendLookup.
Proof. solve_decision. Defined.

Record ScopedUtxoEntry := {
  ue_outpoint : OutPointKey; ue_uid : Z; ue_created_height : Z; ue_created_block_hash : bytes;
  ue_tx_index : Z; ue_output_index : Z; ue_value_sat : Z; ue_script_pubkey : bytes;
  ue_p2tr_xonly_key : bytes
}.
Record CreatedScopedUtxo := {
  cu_entry : ScopedUtxoEntry; cu_is_nums : bool; cu_is_reused : bool; cu_reuse_count_at_creation : Z
}.
Record SpentScopedUtxo := {
  su_outpoint : OutPointKey; su_uid : Z; su_creation_height : Z; su_output_index : Z; su_flags : Z;
  su_spent_height : Z; su_spent_block_hash : bytes; su_spend_tx_index : Z
}.
Record TxInputScan := { ti_previous_output : OutPointKey; ti_script_sig : bytes; ti_witness : list bytes }.
Record TxOutputScan := {
  to_vout : Z; to_value_sat : Z; to_script_pubkey : bytes; to_p2tr_xonly_key : option bytes;
  to_is_p2tr : bool; to_is_nums : bool
}.
Record TxScanInput := {
  tx_txid : bytes; tx_tx_index : Z; tx_inputs : list TxInputScan; tx_outputs : list TxOutputScan;
  tx_silent_payment_tweak : option bytes
}.
Record BlockScanInput := {
  bk_height : Z; bk_block_hash : bytes; bk_previous_block_hash : bytes; bk_raw_block_bytes : Z;
  bk_txs : list TxScanInput
}.
Record BlockScopeStats := {
  bs_tx_count : Z;
  bs_output_count_total : Z;
  bs_p2tr_output_count : Z;
  bs_p2tr_count : Z;
  bs_p2tr_nums_count : Z;
  bs_p2tr_reused_count : Z;
  bs_p2tr_excluded_by_scope_count : Z;
  bs_indexed_output_count : Z;
  bs_indexed_spent_count : Z;
  bs_tx_with_p2tr_output_count : Z;
  bs_tx_with_indexed_output_count : Z;
  bs_tweak_count : Z
}.
Definition stats_default : BlockScopeStats := {|
  bs_tx_count := 0;
  bs_output_count_total := 0;
  bs_p2tr_output_count := 0;
  bs_p2tr_count := 0;
  bs_p2tr_nums_count := 0;
  bs_p2tr_reused_count := 0;
  bs_p2tr_excluded_by_scope_count := 0;
  bs_indexed_output_count := 0;
  bs_indexed_spent_count := 0;
  bs_tx_with_p2tr_output_count := 0;
  bs_tx_with_indexed_output_count := 0;
  bs_tweak_count := 0 |}.

(** [stats.<field> = v]. *)
Definition set_tx_count (s : BlockScopeStats) (v : Z) : BlockScopeStats := {|
  bs_tx_count := v;
  bs_output_count_total := bs_output_count_total s;
  bs_p2tr_output_count := bs_p2tr_output_count s;
  bs_p2tr_count := bs_p2tr_count s;
  bs_p2tr_nums_count := bs_p2tr_nums_count s;
  bs_p2tr_reused_count := bs_p2tr_reused_count s;
  bs_p2tr_excluded_by_scope_count := bs_p2tr_excluded_by_scope_count s;
  bs_indexed_output_count := bs_indexed_output_count s;
  bs_indexed_spent_count := bs_indexed_spent_count s;
  bs_tx_with_p2tr_output_count := bs_tx_with_p2tr_output_count s;
  bs_tx_with_indexed_output_count := bs_tx_with_indexed_output_count s;
  bs_tweak_count := bs_tweak_count s |}.
Definition set_output_count_total (s : BlockScopeStats) (v : Z) : BlockScopeStats := {|
  bs_tx_count := bs_tx_count s;
  bs_output_count_total := v;
  bs_p2tr_output_count := bs_p2tr_output_count s;
  bs_p2tr_count := bs_p2tr_count s;
  bs_p2tr_nums_count := bs_p2tr_nums_count s;
  bs_p2tr_reused_count := bs_p2tr_reused_count s;
  bs_p2tr_excluded_by_scope_count := bs_p2tr_excluded_by_scope_count s;
  bs_indexed_output_count := bs_indexed_output_count s;
  bs_indexed_spent_count := bs_indexed_spent_count s;
  bs_tx_with_p2tr_output_count := bs_tx_with_p2tr_output_count s;
  bs_tx_with_indexed_output_count := bs_tx_with_indexed_output_count s;
  bs_tweak_count := bs_tweak_count s |}.
Definition set_p2tr_output_count (s : BlockScopeStats) (v : Z) : BlockScopeStats := {|
  bs_tx_count := bs_tx_count s;
  bs_output_count_total := bs_output_count_total s;
  bs_p2tr_output_count := v;
  bs_p2tr_count := bs_p2tr_count s;
  bs_p2tr_nums_count := bs_p2tr_nums_count s;
  bs_p2tr_reused_count := bs_p2tr_reused_count s;
  bs_p2tr_excluded_by_scope_count := bs_p2tr_excluded_by_scope_count s;
  bs_indexed_output_count := bs_indexed_output_count s;
  bs_indexed_spent_count := bs_indexed_spent_count s;
  bs_tx_with_p2tr_output_count := bs_tx_with_p2tr_output_count s;
  bs_tx_with_indexed_output_count := bs_tx_with_indexed_output_count s;
  bs_tweak_count := bs_tweak_count s |}.
Definition set_p2tr_count (s : BlockScopeStats) (v : Z) : BlockScopeStats := {|
  bs_tx_count := bs_tx_count s;
  bs_output_count_total := bs_output_count_total s;
  bs_p2tr_output_count := bs_p2tr_output_count s;
  bs_p2tr_count := v;
  bs_p2tr_nums_count := bs_p2tr_nums_count s;
  bs_p2tr_reused_count := bs_p2tr_reused_count s;
  bs_p2tr_excluded_by_scope_count := bs_p2tr_excluded_by_scope_count s;
  bs_indexed_output_count := bs_indexed_output_count s;
  bs_indexed_spent_count := bs_indexed_spent_count s;
  bs_tx_with_p2tr_output_count := bs_tx_with_p2tr_output_count s;
  bs_tx_with_indexed_output_count := bs_tx_with_indexed_output_count s;
  bs_tweak_count := bs_tweak_count s |}.
Definition set_p2tr_nums_count (s : BlockScopeStats) (v : Z) : BlockScopeStats := {|
  bs_tx_count := bs_tx_count s;
  bs_output_count_total := bs_output_count_total s;
  bs_p2tr_output_count := bs_p2tr_output_count s;
  bs_p2tr_count := bs_p2tr_count s;
  bs_p2tr_nums_count := v;
  bs_p2tr_reused_count := bs_p2tr_reused_count s;
  bs_p2tr_excluded_by_scope_count := bs_p2tr_excluded_by_scope_count s;
  bs_indexed_output_count := bs_indexed_output_count s;
  bs_indexed_spent_count := bs_indexed_spent_count s;
  bs_tx_with_p2tr_output_count := bs_tx_with_p2tr_output_count s;
  bs_tx_with_indexed_output_count := bs_tx_with_indexed_output_count s;
  bs_tweak_count := bs_tweak_count s |}.
Definition set_p2tr_reused_count (s : BlockScopeStats) (v : Z) : BlockScopeStats := {|
  bs_tx_count := bs_tx_count s;
  bs_output_count_total := bs_output_count_total s;
  bs_p2tr_output_count := bs_p2tr_output_count s;
  bs_p2tr_count := bs_p2tr_count s;
  bs_p2tr_nums_count := bs_p2tr_nums_count s;
  bs_p2tr_reused_count := v;
  bs_p2tr_excluded_by_scope_count := bs_p2tr_excluded_by_scope_count s;
  bs_indexed_output_count := bs_indexed_output_count s;
  bs_indexed_spent_count := bs_indexed_spent_count s;
  bs_tx_with_p2tr_output_count := bs_tx_with_p2tr_output_count s;
  bs_tx_with_indexed_output_count := bs_tx_with_indexed_output_count s;
  bs_tweak_count := bs_tweak_count s |}.
Definition set_p2tr_excluded_by_scope_count (s : BlockScopeStats) (v : Z) : BlockScopeStats := {|
  bs_tx_count := bs_tx_count s;
  bs_output_count_total := bs_output_count_total s;
  bs_p2tr_output_count := bs_p2tr_output_count s;
  bs_p2tr_count := bs_p2tr_count s;
  bs_p2tr_nums_count := bs_p2tr_nums_count s;
  bs_p2tr_reused_count := bs_p2tr_reused_count s;
  bs_p2tr_excluded_by_scope_count := v;
  bs_indexed_output_count := bs_indexed_output_count s;
  bs_indexed_spent_count := bs_indexed_spent_count s;
  bs_tx_with_p2tr_output_count := bs_tx_with_p2tr_output_count s;
  bs_tx_with_indexed_output_count := bs_tx_with_indexed_output_count s;
  bs_tweak_count := bs_tweak_count s |}.
Definition set_indexed_output_count (s : BlockScopeStats) (v : Z) : BlockScopeStats := {|
  bs_tx_count := bs_tx_count s;
  bs_output_count_total := bs_output_count_total s;
  bs_p2tr_output_count := bs_p2tr_output_count s;
  bs_p2tr_count := bs_p2tr_count s;
  bs_p2tr_nums_count := bs_p2tr_nums_count s;
  bs_p2tr_reused_count := bs_p2tr_reused_count s;
  bs_p2tr_excluded_by_scope_count := bs_p2tr_excluded_by_scope_count s;
  bs_indexed_output_count := v;
  bs_indexed_spent_count := bs_indexed_spent_count s;
  bs_tx_with_p2tr_output_count := bs_tx_with_p2tr_output_count s;
  bs_tx_with_indexed_output_count := bs_tx_with_indexed_output_count s;
  bs_tweak_count := bs_tweak_count s |}.
Definition set_indexed_spent_count (s : BlockScopeStats) (v : Z) : BlockScopeStats := {|
  bs_tx_count := bs_tx_count s;
  bs_output_count_total := bs_output_count_total s;
  bs_p2tr_output_count := bs_p2tr_output_count s;
  bs_p2tr_count := bs_p2tr_count s;
  bs_p2tr_nums_count := bs_p2tr_nums_count s;
  bs_p2tr_reused_count := bs_p2tr_reused_count s;
  bs_p2tr_excluded_by_scope_count := bs_p2tr_excluded_by_scope_count s;
  bs_indexed_output_count := bs_indexed_output_count s;
  bs_indexed_spent_count := v;
  bs_tx_with_p2tr_output_count := bs_tx_with_p2tr_output_count s;
  bs_tx_with_indexed_output_count := bs_tx_with_indexed_output_count s;
  bs_tweak_count := bs_tweak_count s |}.
Definition set_tx_with_p2tr_output_count (s : BlockScopeStats) (v : Z) : BlockScopeStats := {|
  bs_tx_count := bs_tx_count s;
  bs_output_count_total := bs_output_count_total s;
  bs_p2tr_output_count := bs_p2tr_output_count s;
  bs_p2tr_count := bs_p2tr_count s;
  bs_p2tr_nums_count := bs_p2tr_nums_count s;
  bs_p2tr_reused_count := bs_p2tr_reused_count s;
  bs_p2tr_excluded_by_scope_count := bs_p2tr_excluded_by_scope_count s;
  bs_indexed_output_count := bs_indexed_output_count s;
  bs_indexed_spent_count := bs_indexed_spent_count s;
  bs_tx_with_p2tr_output_count := v;
  bs_tx_with_indexed_output_count := bs_tx_with_indexed_output_count s;
  bs_tweak_count := bs_tweak_count s |}.
Definition set_tx_with_indexed_output_count (s : BlockScopeStats) (v : Z) : BlockScopeStats := {|
  bs_tx_count := bs_tx_count s;
  bs_output_count_total := bs_output_count_total s;
  bs_p2tr_output_count := bs_p2tr_output_count s;
  bs_p2tr_count := bs_p2tr_count s;
  bs_p2tr_nums_count := bs_p2tr_nums_count s;
  bs_p2tr_reused_count := bs_p2tr_reused_count s;
  bs_p2tr_excluded_by_scope_count := bs_p2tr_excluded_by_scope_count s;
  bs_indexed_output_count := bs_indexed_output_count s;
  bs_indexed_spent_count := bs_indexed_spent_count s;
  bs_tx_with_p2tr_output_count := bs_tx_with_p2tr_output_count s;
  bs_tx_with_indexed_output_count := v;
  bs_tweak_count := bs_tweak_count s |}.
Definition set_tweak_count (s : BlockScopeStats) (v : Z) : BlockScopeStats := {|
  bs_tx_count := bs_tx_count s;
  bs_output_count_total := bs_output_count_total s;
  bs_p2tr_output_count := bs_p2tr_output_count s;
  bs_p2tr_count := bs_p2tr_count s;
  bs_p2tr_nums_count := bs_p2tr_nums_count s;
  bs_p2tr_reused_count := bs_p2tr_reused_count s;
  bs_p2tr_excluded_by_scope_count := bs_p2tr_excluded_by_scope_count s;
  bs_indexed_output_count := bs_indexed_output_count s;
  bs_indexed_spent_count := bs_indexed_spent_count s;
  bs_tx_with_p2tr_output_count := bs_tx_with_p2tr_output_count s;
  bs_tx_with_indexed_output_count := bs_tx_with_indexed_output_count s;
  bs_tweak_count := v |}.

(** [stats.<field> += 1] on a [u32]. *)
Definition incr (v : Z) : Z := wrap 32 (v + 1).

Record AppliedBlock := {
  ab_light_block : LightBlockInput; ab_storage_block : StoredLightBlockInput;
  ab_stats : BlockScopeStats; ab_created_utxos : list CreatedScopedUtxo;
  ab_spent_utxos : list SpentScopedUtxo
}.

(** ** The indexer's state *)
Record P2trIndexerState := {
  next_uid : Z;
  outpoint_to_spend : gmap OutPointKey SpendLookup;
  live_uid_count : Z;
  seen_p2tr_keys : option (gset bytes)
}.

Definition indexer_new : P2trIndexerState :=
  {| next_uid := 0; outpoint_to_spend := ∅; live_uid_count := 0; seen_p2tr_keys := Some ∅ |}.

Definition restore_entry (state : P2trIndexerState) (entry : ScopedUtxoEntry) : P2trIndexerState := {|
  next_uid := next_uid state;
  outpoint_to_spend := <[ue_outpoint entry := {| sl_uid := ue_uid entry;
    sl_creation_height := ue_created_height entry; sl_output_index := ue_output_index entry;
    sl_flags := 0 |}]> (outpoint_to_spend state);
  live_uid_count := wrap 64 (live_uid_count state + 1);
  seen_p2tr_keys := seen_p2tr_keys state |}.

Definition restore (last_uid : Z) (live_entries : list ScopedUtxoEntry) (seen_keys : list bytes)
    : P2trIndexerState :=
  foldl restore_entry {| next_uid := last_uid; outpoint_to_spend := ∅; live_uid_count := 0;
    seen_p2tr_keys := Some (list_to_set seen_keys) |} live_entries.

Definition restore_without_reuse_tracking (last_uid : Z) (live_entries : list ScopedUtxoEntry)
    : P2trIndexerState :=
  foldl restore_entry {| next_uid := last_uid; outpoint_to_spend := ∅; live_uid_count := 0;
    seen_p2tr_keys := None |} live_entries.

Definition restore_counts_only (last_uid live_uid_count : Z) : P2trIndexerState :=
  {| next_uid := last_uid; outpoint_to_spend := ∅; live_uid_count := live_uid_count;
     seen_p2tr_keys := None |}.

Definition restore_at_uid (last_uid : Z) : P2trIndexerState :=
  {| next_uid := last_uid; outpoint_to_spend := ∅; live_uid_count := 0; seen_p2tr_keys := None |}.

Definition contains_outpoint (self : P2trIndexerState) (o : OutPointKey) : bool :=
  bool_decide (is_Some (outpoint_to_spend self !! o)).
Definition cached_outpoint_count (self : P2trIndexerState) : nat := size (outpoint_to_spend self).
Definition last_uid (self : P2trIndexerState) : Z := next_uid self.
Definition live_uids_sorted (self : P2trIndexerState) : list Z :=
  merge_sort Z.le (sl_uid <$> (map_to_list (outpoint_to_spend self)).*2).

Definition with_spends (self : P2trIndexerState) (m : gmap OutPointKey SpendLookup) : P2trIndexerState :=
  {| next_uid := next_uid self; outpoint_to_spend := m; live_uid_count := live_uid_count self;
     seen_p2tr_keys := seen_p2tr_keys self |}.

(** The returned outpoints are the ones that were not cached before. *)
Definition cache_candidate (st : P2trIndexerState * list OutPointKey)
    (candidate : OutPointKey * SpendLookup) : P2trIndexerState * list OutPointKey :=
  let '(self, cached) := st in
  let '(outpoint, spend) := candidate in
  match outpoint_to_spend self !! outpoint with
  | None => (with_spends self (<[outpoint := spend]> (outpoint_to_spend self)), cached ++ [outpoint])
  | Some _ => (self, cached)
  end.
Definition cache_spend_uid_candidates (self : P2trIndexerState)
    (candidates : list (OutPointKey * SpendLookup)) : P2trIndexerState * list OutPointKey :=
  foldl cache_candidate (self, []) candidates.

Definition evict_candidate (st : P2trIndexerState * Z) (outpoint : OutPointKey) : P2trIndexerState * Z :=
  let '(self, evicted) := st in
  match outpoint_to_spend self !! outpoint with
  | Some _ => (with_spends self (delete outpoint (outpoint_to_spend self)), evicted + 1)
  | None => (self, evicted)
  end.
Definition evict_spend_uid_candidates (self : P2trIndexerState) (cached : list OutPointKey)
    : P2trIndexerState * Z := foldl evict_candidate (self, 0) cached.

(** ** Applying a block *)

Definition p2tr_output_identity (output : TxOutputScan) : res bytes :=
  ok_or (to_p2tr_xonly_key output) "P2TR output is missing x-only key".

(** The accumulators of [apply_block_with_stats], with the state itself. *)
Record BlockAcc := {
  acc_self : P2trIndexerState;
  acc_outputs : list StoredOutputEntryInput;
  acc_spends : list StoredSpendEntryInput;
  acc_skipped_txs : bytes;
  acc_tweaks : list TweakEntryInput;
  acc_skipped_outputs : list Z;
  acc_stats : BlockScopeStats;
  acc_created : list CreatedScopedUtxo;
  acc_spent : list SpentScopedUtxo
}.

(** The body of the loop over a transaction's inputs. *)
Definition apply_input (block : BlockScanInput) (tx : TxScanInput) (a : BlockAcc) (input : TxInputScan)
    : res BlockAcc :=
  let self := acc_self a in
  match outpoint_to_spend self !! ti_previous_output input with
  | None => Ok a
  | Some spend_ref =>
      creation ← try_from 32 (sl_creation_height spend_ref);
      Ok {|
        acc_self := {| next_uid := next_uid self;
          outpoint_to_spend := delete (ti_previous_output input) (outpoint_to_spend self);
          live_uid_count := saturating_sub (live_uid_count self) 1;
          seen_p2tr_keys := seen_p2tr_keys self |};
        acc_outputs := acc_outputs a;
        acc_spends := acc_spends a ++ [{| spent_uid := sl_uid spend_ref; creation_height := creation |}];
        acc_skipped_txs := acc_skipped_txs a;
        acc_tweaks := acc_tweaks a;
        acc_skipped_outputs := acc_skipped_outputs a;
        acc_stats := set_indexed_spent_count (acc_stats a) (incr (bs_indexed_spent_count (acc_stats a)));
        acc_created := acc_created a;
        acc_spent := acc_spent a ++ [{|
          su_outpoint := ti_previous_output input; su_uid := sl_uid spend_ref;
          su_creation_height := sl_creation_height spend_ref;
          su_output_index := sl_output_index spend_ref; su_flags := sl_flags spend_ref;
          su_spent_height := bk_height block; su_spent_block_hash := bk_block_hash block;
          su_spend_tx_index := tx_tx_index tx |}] |}
  end.

(** [seen_p2tr_keys.insert(key)]: the new set, and whether the key was there. *)
Definition see_key (seen : option (gset bytes)) (key : bytes) : option (gset bytes) * bool :=
  match seen with
  | Some keys => (Some ({[key]} ∪ keys), bool_decide (key ∈ keys))
  | None => (None, false)
  end.

(** The loop over a transaction's outputs also keeps [tx_has_p2tr_output] and
    [tx_indexed_output_count]. *)
Record TxAcc := { ta_acc : BlockAcc; ta_has_p2tr : bool; ta_indexed : Z }.

(** The counters updated by every native P2TR output, before the scope test. *)
Definition p2tr_stats (stats : BlockScopeStats) (p2tr_output_count : Z) (is_nums is_reused : bool)
    : BlockScopeStats :=
  let stats := set_p2tr_output_count stats p2tr_output_count in
  let stats := if is_nums then set_p2tr_nums_count stats (incr (bs_p2tr_nums_count stats)) else stats in
  let stats := set_p2tr_count stats (incr (bs_p2tr_count stats)) in
  if is_reused then set_p2tr_reused_count stats (incr (bs_p2tr_reused_count stats)) else stats.

Definition apply_output (block : BlockScanInput) (block_first_uid : Z) (tx : TxScanInput)
    (t : TxAcc) (output : TxOutputScan) : res TxAcc :=
  let a := ta_acc t in
  let self := acc_self a in
  let stats := set_output_count_total (acc_stats a) (incr (bs_output_count_total (acc_stats a))) in
  if negb (to_is_p2tr output) then
    Ok {| ta_acc := {| acc_self := self; acc_outputs := acc_outputs a; acc_spends := acc_spends a;
            acc_skipped_txs := acc_skipped_txs a; acc_tweaks := acc_tweaks a;
            acc_skipped_outputs := acc_skipped_outputs a; acc_stats := stats;
            acc_created := acc_created a; acc_spent := acc_spent a |};
          ta_has_p2tr := ta_has_p2tr t; ta_indexed := ta_indexed t |}
  else
    let current_p2tr_slot := bs_p2tr_output_count stats in
    slot ← try_from 16 current_p2tr_slot;
    p2tr_output_count ← ok_or (checked_add 32 current_p2tr_slot 1) "P2TR output count overflow";
    p2tr_xonly_key ← p2tr_output_identity output;
    let '(seen, is_reused) := see_key (seen_p2tr_keys self) p2tr_xonly_key in
    let stats := p2tr_stats stats p2tr_output_count (to_is_nums output) is_reused in
    if to_is_nums output || bool_decide (tx_silent_payment_tweak tx = None) then
      Ok {| ta_acc := {|
              acc_self := {| next_uid := next_uid self; outpoint_to_spend := outpoint_to_spend self;
                live_uid_count := live_uid_count self; seen_p2tr_keys := seen |};
              acc_outputs := acc_outputs a; acc_spends := acc_spends a;
              acc_skipped_txs := acc_skipped_txs a; acc_tweaks := acc_tweaks a;
              acc_skipped_outputs := acc_skipped_outputs a ++ [slot];
              acc_stats := set_p2tr_excluded_by_scope_count stats
                (incr (bs_p2tr_excluded_by_scope_count stats));
              acc_created := acc_created a; acc_spent := acc_spent a |};
            ta_has_p2tr := true; ta_indexed := ta_indexed t |}
    else
      indexed ← ok_or (checked_add 16 (ta_indexed t) 1) "tx indexed output count exceeds u16";
      uid ← ok_or (checked_add 64 block_first_uid current_p2tr_slot) "scoped UID overflow";
      let outpoint := {| op_txid := tx_txid tx; op_vout := to_vout output |} in
      let flags := if (is_reused : bool) then STORAGE_OUTPUT_FLAG_REUSED else 0 in
      output_index ← try_from 32 (len (acc_outputs a));
      let entry := {| ue_outpoint := outpoint; ue_uid := uid; ue_created_height := bk_height block;
        ue_created_block_hash := bk_block_hash block; ue_tx_index := tx_tx_index tx;
        ue_output_index := output_index; ue_value_sat := to_value_sat output;
        ue_script_pubkey := to_script_pubkey output; ue_p2tr_xonly_key := p2tr_xonly_key |} in
      Ok {| ta_acc := {|
              acc_self := {| next_uid := next_uid self;
                outpoint_to_spend := <[outpoint := {| sl_uid := uid; sl_creation_height := bk_height block;
                  sl_output_index := output_index; sl_flags := flags |}]> (outpoint_to_spend self);
                live_uid_count := wrap 64 (live_uid_count self + 1); seen_p2tr_keys := seen |};
              acc_outputs := acc_outputs a ++ [{| key := p2tr_xonly_key;
                spent_height := STORAGE_SPENT_HEIGHT_UNSPENT; flags := flags |}];
              acc_spends := acc_spends a;
              acc_skipped_txs := acc_skipped_txs a; acc_tweaks := acc_tweaks a;
              acc_skipped_outputs := acc_skipped_outputs a;
              acc_stats := set_indexed_output_count stats (incr (bs_indexed_output_count stats));
              acc_created := acc_created a ++ [{| cu_entry := entry; cu_is_nums := to_is_nums output;
                cu_is_reused := is_reused; cu_reuse_count_at_creation := 0 |}];
              acc_spent := acc_spent a |};
            ta_has_p2tr := true; ta_indexed := indexed |}.

(** The body of the loop over transactions: inputs before outputs, then the tweak
    entry or the skipped bit. *)
Definition apply_tx (block : BlockScanInput) (block_first_uid tx_count : Z) (a : BlockAcc)
    (tx : TxScanInput) : res BlockAcc :=
  a ← fold_res (apply_input block tx) a (tx_inputs tx);
  t ← fold_res (apply_output block block_first_uid tx)
    {| ta_acc := a; ta_has_p2tr := false; ta_indexed := 0 |} (tx_outputs tx);
  let a := ta_acc t in
  let stats := if ta_has_p2tr t
    then set_tx_with_p2tr_output_count (acc_stats a) (incr (bs_tx_with_p2tr_output_count (acc_stats a)))
    else acc_stats a in
  if bool_decide (0 < ta_indexed t) then
    let stats := set_tx_with_indexed_output_count stats (incr (bs_tx_with_indexed_output_count stats)) in
    let '(tweaks, stats) := match tx_silent_payment_tweak tx with
      | Some tweak => (acc_tweaks a ++ [{| output_count := ta_indexed t; tweak := tweak |}],
                       set_tweak_count stats (incr (bs_tweak_count stats)))
      | None => (acc_tweaks a, stats)
      end in
    Ok {| acc_self := acc_self a; acc_outputs := acc_outputs a; acc_spends := acc_spends a;
          acc_skipped_txs := acc_skipped_txs a; acc_tweaks := tweaks;
          acc_skipped_outputs := acc_skipped_outputs a; acc_stats := stats;
          acc_created := acc_created a; acc_spent := acc_spent a |}
  else
    skipped ← set_skipped_tx_in_bitmap tx_count (acc_skipped_txs a) (tx_tx_index tx);
    Ok {| acc_self := acc_self a; acc_outputs := acc_outputs a; acc_spends := acc_spends a;
          acc_skipped_txs := skipped; acc_tweaks := acc_tweaks a;
          acc_skipped_outputs := acc_skipped_outputs a; acc_stats := stats;
          acc_created := acc_created a; acc_spent := acc_spent a |}.

Section apply.
Context `{!Sha256}.

(** After the transactions: the UIDs of the block are consumed, its outputs are hashed for
    both label budgets, and the stored block and the response are assembled. *)
Definition finish_block (block : BlockScanInput) (block_first_uid tx_count : Z) (a : BlockAcc)
    : res (AppliedBlock * P2trIndexerState) :=
  let self := acc_self a in
  next ← (if bool_decide (0 < bs_p2tr_output_count (acc_stats a)) then
            ok_or (next_after_block ← checked_add 64 block_first_uid (bs_p2tr_output_count (acc_stats a));
                   checked_sub next_after_block 1) "scoped UID overflow"
          else Ok (next_uid self));
  let self := {| next_uid := next; outpoint_to_spend := outpoint_to_spend self;
    live_uid_count := live_uid_count self; seen_p2tr_keys := seen_p2tr_keys self |} in
  two ← build_stored_truncated_output_hashes (bk_raw_block_bytes block) (acc_outputs a)
    RESPONSE_LABEL_BUDGET_TWO;
  hundred ← build_stored_truncated_output_hashes (bk_raw_block_bytes block) (acc_outputs a)
    RESPONSE_LABEL_BUDGET_HUNDRED;
  let storage_block := {|
    sb_height := bk_height block;
    sb_block_hash := bk_block_hash block;
    sb_previous_block_hash := bk_previous_block_hash block;
    sb_first_uid := block_first_uid;
    sb_tx_count := tx_count;
    sb_skipped_txs_for_tweaks := acc_skipped_txs a;
    sb_tweaks := acc_tweaks a;
    sb_skipped_outputs := acc_skipped_outputs a;
    sb_outputs := acc_outputs a;
    sb_spends := acc_spends a;
    sb_raw_block_bytes := bk_raw_block_bytes block;
    sb_truncated_output_hash_for_two_labels := two;
    sb_truncated_output_hash_for_hundred_labels := hundred |} in
  light_block ← to_response_input_for_labels storage_block None;
  Ok ({| ab_light_block := light_block; ab_storage_block := storage_block; ab_stats := acc_stats a;
         ab_created_utxos := acc_created a; ab_spent_utxos := acc_spent a |}, self).

Definition apply_block_with_stats (self : P2trIndexerState) (block : BlockScanInput)
    : res (AppliedBlock * P2trIndexerState) :=
  let block_first_uid := saturating_add 64 (next_uid self) 1 in
  tx_count ← try_from 16 (len (bk_txs block));
  skipped_txs_for_tweaks ← empty_skipped_txs_for_tweaks_bitmap tx_count;
  a ← fold_res (apply_tx block block_first_uid tx_count)
    {| acc_self := self; acc_outputs := []; acc_spends := []; acc_skipped_txs := skipped_txs_for_tweaks;
       acc_tweaks := []; acc_skipped_outputs := []; acc_stats := set_tx_count stats_default tx_count;
       acc_created := []; acc_spent := [] |} (bk_txs block);
  finish_block block block_first_uid tx_count a.

Definition apply_block (self : P2trIndexerState) (block : BlockScanInput)
    : res (LightBlockInput * P2trIndexerState) :=
  '(applied, self) ← apply_block_with_stats self block;
  Ok (ab_light_block applied, self).

End apply.

#[global] Arguments apply_input : simpl never.
#[global] Arguments apply_output : simpl never.
#[global] Arguments apply_tx : simpl never.
