(* ===== verification/P2trFacts.v ===== *)
(** * The indexer's invariant and what it builds

    [p2tr_outs] lists a block's native P2TR outputs in order: position in that list is
    the UID slot.  [acc_inv] is the invariant of the loops of
    [apply_block_with_stats]; the theorems are stated for the whole call. *)

From S2P Require Import Prelude Bits Helper TaggedHash Bitmap SpentIds OutputHash LightBlock LightValid CutThrough P2trIndexer.

(** ** The P2TR outputs of a block, and the ones in scope *)
Definition p2tr_of (tx : TxScanInput) : list (TxScanInput * TxOutputScan) :=
  (λ o, (tx, o)) <$> filter (λ o, to_is_p2tr o = true) (tx_outputs tx).
Definition p2tr_outs (txs : list TxScanInput) : list (TxScanInput * TxOutputScan) := txs ≫= p2tr_of.

Definition in_scope (p : TxScanInput * TxOutputScan) : bool :=
  negb (to_is_nums p.2 || bool_decide (tx_silent_payment_tweak p.1 = None)).

(** The slots left out, and the slots kept with their outputs, from slot [n] on. *)
Fixpoint skip_from (n : Z) (ps : list (TxScanInput * TxOutputScan)) : list Z :=
  match ps with
  | [] => []
  | p :: ps => (if in_scope p then [] else [n]) ++ skip_from (n + 1) ps
  end.
Fixpoint dense_from (n : Z) (ps : list (TxScanInput * TxOutputScan))
    : list (Z * (TxScanInput * TxOutputScan)) :=
  match ps with
  | [] => []
  | p :: ps => (if in_scope p then [(n, p)] else []) ++ dense_from (n + 1) ps
  end.

Lemma skip_from_snoc n ps p :
  skip_from n (ps ++ [p]) = skip_from n ps ++ (if in_scope p then [] else [n + len ps]).
Proof.
  revert n; induction ps as [|q ps IH]; intros n; cbn [app skip_from].
  { by rewrite app_nil_r, Z.add_0_r. }
  rewrite IH, <- app_assoc. cbn [length]. by replace (n + 1 + len ps) with (n + Z.of_nat (S (length ps))) by lia.
Qed.
Lemma dense_from_snoc n ps p :
  dense_from n (ps ++ [p]) = dense_from n ps ++ (if in_scope p then [(n + len ps, p)] else []).
Proof.
  revert n; induction ps as [|q ps IH]; intros n; cbn [app dense_from].
  { by rewrite app_nil_r, Z.add_0_r. }
  rewrite IH, <- app_assoc. cbn [length]. by replace (n + 1 + len ps) with (n + Z.of_nat (S (length ps))) by lia.
Qed.
Lemma skip_dense_length n ps : (length (skip_from n ps) + length (dense_from n ps) = length ps)%nat.
Proof.
  revert n; induction ps as [|p ps IH]; intros n; [done|]. cbn [skip_from dense_from].
  specialize (IH (n + 1)). rewrite !length_app. destruct (in_scope p); simpl; lia.
Qed.
Lemma skip_from_bounds n ps : Forall (λ s, n ≤ s < n + len ps) (skip_from n ps).
Proof.
  revert n; induction ps as [|p ps IH]; intros n; [constructor|]. cbn [skip_from length].
  apply Forall_app. split; [destruct (in_scope p); repeat constructor; lia|].
  eapply Forall_impl; [apply IH|]. intros; simpl in *; lia.
Qed.
Lemma skip_from_sorted n ps : StronglySorted Z.lt (skip_from n ps).
Proof.
  revert n; induction ps as [|p ps IH]; intros n; [constructor|]. cbn [skip_from].
  destruct (in_scope p); [apply IH|]. constructor; [apply IH|].
  eapply Forall_impl; [apply skip_from_bounds|]. intros; simpl in *; lia.
Qed.
Lemma dense_from_bounds n ps s p : (s, p) ∈ dense_from n ps → n ≤ s < n + len ps.
Proof.
  revert n; induction ps as [|q ps IH]; intros n; cbn [dense_from length]; [by intros ?%elem_of_nil|].
  rewrite elem_of_app. intros [H|H%IH]; [|lia].
  destruct (in_scope q); [|by apply elem_of_nil in H]. apply list_elem_of_singleton in H as [= -> ->]. lia.
Qed.

(** The slots not left out are the slots kept. *)
Lemma dense_slots_from n ps :
  filter (λ s, s ∉ skip_from n ps) (seqZ n (len ps)) = (dense_from n ps).*1.
Proof.
  revert n; induction ps as [|p ps IH]; intros n; [done|]. cbn [length].
  replace (Z.of_nat (S (length ps))) with (Z.succ (len ps)) by lia.
  rewrite seqZ_cons by lia. replace (Z.pred (Z.succ (len ps))) with (len ps) by lia.
  replace (Z.succ n) with (n + 1) by lia.
  cbn [skip_from dense_from]. rewrite fmap_app, <- IH, filter_cons.
  pose proof (skip_from_bounds (n + 1) ps) as Hb. rewrite Forall_forall in Hb.
  assert (n ∉ skip_from (n + 1) ps) as Hn by (intros Hi%Hb; simpl in Hi; lia).
  destruct (in_scope p); cbn [app].
  - rewrite decide_True by done. done.
  - rewrite decide_False by (intros H; apply H; by constructor). cbn.
    apply filter_ext_elem. intros x Hx%elem_of_seqZ. rewrite not_elem_of_cons. split; [tauto|].
    intros ?. split; [lia|done].
Qed.

(** ** Well-formed blocks and states *)
Record block_wf (b : BlockScanInput) : Prop := {
  bw_height : in_width 32 (bk_height b);
  bw_hashes : array_wf 32 (bk_block_hash b) ∧ array_wf 32 (bk_previous_block_hash b);
  bw_raw : 0 < bk_raw_block_bytes b < 2 ^ 32;
  bw_txs : len (bk_txs b) ≤ 65535;
  (** the source gives each transaction its position *)
  bw_index : ∀ i tx, bk_txs b !! i = Some tx → tx_tx_index tx = Z.of_nat i;
  bw_tweaks : ∀ tx t, tx ∈ bk_txs b → tx_silent_payment_tweak tx = Some t → array_wf 33 t;
  bw_keys : ∀ tx o, tx ∈ bk_txs b → o ∈ tx_outputs tx → to_is_p2tr o = true →
    ∃ k, to_p2tr_xonly_key o = Some k ∧ array_wf 32 k;
  bw_outputs : len (p2tr_outs (bk_txs b)) ≤ 65535;
  bw_inputs : len (bk_txs b ≫= tx_inputs) < 2 ^ 32
}.

(** UIDs are distinct and below [bound]; creation heights are at most [h]. *)
Record spends_wf (bound h : Z) (m : gmap OutPointKey SpendLookup) : Prop := {
  sw_uid : ∀ o s, m !! o = Some s → 0 ≤ sl_uid s < bound;
  sw_height : ∀ o s, m !! o = Some s → 0 ≤ sl_creation_height s ≤ h;
  sw_inj : ∀ o1 o2 s1 s2, m !! o1 = Some s1 → m !! o2 = Some s2 → sl_uid s1 = sl_uid s2 → o1 = o2
}.

Definition indexer_wf (h : Z) (self : P2trIndexerState) : Prop :=
  0 ≤ next_uid self ∧ spends_wf (next_uid self + 1) h (outpoint_to_spend self).

Lemma spends_wf_mono b1 b2 h1 h2 m : b1 ≤ b2 → h1 ≤ h2 → spends_wf b1 h1 m → spends_wf b2 h2 m.
Proof.
  intros Hb Hh [Hu Hc Hi]. constructor; [| |done].
  - intros o s Hs. specialize (Hu o s Hs). lia.
  - intros o s Hs. specialize (Hc o s Hs). lia.
Qed.
Lemma spends_wf_delete b h m o : spends_wf b h m → spends_wf b h (delete o m).
Proof.
  intros [Hu Hc Hi]. constructor.
  - intros o' s [_ Hs]%lookup_delete_Some. by eapply Hu.
  - intros o' s [_ Hs]%lookup_delete_Some. by eapply Hc.
  - intros o1 o2 s1 s2 [_ H1]%lookup_delete_Some [_ H2]%lookup_delete_Some. by eapply Hi.
Qed.
Lemma spends_wf_insert b h m o s :
  spends_wf b h m → sl_uid s = b → 0 ≤ b → 0 ≤ sl_creation_height s ≤ h →
  spends_wf (b + 1) h (<[o := s]> m).
Proof.
  intros [Hu Hc Hi] Hs Hb Hh. constructor.
  - intros o' s' [[<- <-]|[_ Hs']]%lookup_insert_Some; [lia|]. specialize (Hu o' s' Hs'). lia.
  - intros o' s' [[<- <-]|[_ Hs']]%lookup_insert_Some; [done|]. by eapply Hc.
  - intros o1 o2 s1 s2 [[<- <-]|[? H1]]%lookup_insert_Some [[<- <-]|[? H2]]%lookup_insert_Some E; [done| | |].
    + specialize (Hu o2 s2 H2). lia.
    + specialize (Hu o1 s1 H1). lia.
    + by eapply Hi.
Qed.

(** ** The loop invariant *)

(** A stored output and its creation record, for a kept slot. *)
Definition output_of (e : StoredOutputEntryInput) (sp : Z * (TxScanInput * TxOutputScan)) : Prop :=
  to_p2tr_xonly_key sp.2.2 = Some (key e) ∧ array_wf 32 (key e) ∧
  spent_height e = STORAGE_SPENT_HEIGHT_UNSPENT ∧ (flags e = 0 ∨ flags e = STORAGE_OUTPUT_FLAG_REUSED).
Definition created_of (fu : Z) (c : CreatedScopedUtxo) (sp : Z * (TxScanInput * TxOutputScan)) : Prop :=
  ue_uid (cu_entry c) = fu + sp.1 ∧
  ue_outpoint (cu_entry c) = {| op_txid := tx_txid sp.2.1; op_vout := to_vout sp.2.2 |} ∧
  Some (ue_p2tr_xonly_key (cu_entry c)) = to_p2tr_xonly_key sp.2.2.

Record acc_inv (b : BlockScanInput) (fu : Z) (ps : list (TxScanInput * TxOutputScan)) (nin : Z)
    (a : BlockAcc) : Prop := {
  ai_count : bs_p2tr_output_count (acc_stats a) = len ps;
  ai_skipped : acc_skipped_outputs a = skip_from 0 ps;
  ai_outputs : Forall2 output_of (acc_outputs a) (dense_from 0 ps);
  ai_created : Forall2 (created_of fu) (acc_created a) (dense_from 0 ps);
  ai_spends_wf : spends_wf (fu + len ps) (bk_height b) (outpoint_to_spend (acc_self a));
  ai_spent_typed : Forall (λ e, 0 ≤ spent_uid e < fu + len ps ∧
    0 ≤ creation_height e ≤ bk_height b) (acc_spends a);
  ai_spent_nodup : NoDup (spent_uid <$> acc_spends a);
  ai_spent_fresh : ∀ o s, outpoint_to_spend (acc_self a) !! o = Some s →
    sl_uid s ∉ spent_uid <$> acc_spends a;
  ai_spent_len : len (acc_spends a) ≤ nin
}.

Section loops.
Context (b : BlockScanInput) (fu : Z).
Hypothesis Hh : in_width 32 (bk_height b).
Hypothesis Hfu : 0 ≤ fu ∧ fu + 65536 < 2 ^ 64.

(** What the input loop leaves alone. *)
Definition same_outputs (a a' : BlockAcc) : Prop :=
  acc_outputs a' = acc_outputs a ∧ acc_skipped_txs a' = acc_skipped_txs a ∧
  acc_tweaks a' = acc_tweaks a ∧ acc_skipped_outputs a' = acc_skipped_outputs a ∧
  acc_created a' = acc_created a ∧ next_uid (acc_self a') = next_uid (acc_self a).

Lemma apply_input_ok tx ps n a input :
  acc_inv b fu ps n a →
  ∃ a', apply_input b tx a input = Ok a' ∧ acc_inv b fu ps (n + 1) a' ∧ same_outputs a a' ∧
    outpoint_to_spend (acc_self a') = delete (ti_previous_output input) (outpoint_to_spend (acc_self a)) ∧
    spent_uid <$> acc_spends a' = (spent_uid <$> acc_spends a) ++
      option_list (sl_uid <$> outpoint_to_spend (acc_self a) !! ti_previous_output input).
Proof.
  intros [H1 H2 H3 H4 H5 H6 H7 H8 H9]. unfold apply_input.
  destruct (outpoint_to_spend (acc_self a) !! ti_previous_output input) as [s|] eqn:E.
  - pose proof (sw_height _ _ _ H5 _ _ E) as Hc. pose proof (sw_uid _ _ _ H5 _ _ E) as Hu.
    unfold in_width in Hh. rewrite try_from_ok by lia. cbn [mbind res_bind].
    eexists. split; [done|]. cbn [acc_self outpoint_to_spend acc_spends]. rewrite fmap_app. cbn.
    split; [|done]. constructor; cbn; try done.
    + by apply spends_wf_delete.
    + apply Forall_app. split; [done|]. repeat constructor; cbn; lia.
    + rewrite fmap_app. apply NoDup_app. split_and!; [done| |apply NoDup_singleton].
      intros u Hin ->%list_elem_of_singleton. by apply (H8 _ _ E).
    + intros o s' [Hne Hs']%lookup_delete_Some. rewrite fmap_app, elem_of_app. intros [Hin|Hin].
      * by apply (H8 o s' Hs').
      * apply list_elem_of_singleton in Hin. cbn in Hin. apply Hne. symmetry. by eapply sw_inj.
    + rewrite length_app. simpl. lia.
  - exists a. rewrite delete_id by done. cbn. rewrite app_nil_r. split_and!; try done.
    constructor; try done. lia.
Qed.

Lemma apply_inputs_ok tx ps n a inputs :
  acc_inv b fu ps n a →
  ∃ a', fold_res (apply_input b tx) a inputs = Ok a' ∧ acc_inv b fu ps (n + len inputs) a' ∧
    same_outputs a a'.
Proof.
  revert n a. induction inputs as [|i inputs IH]; intros n a Ha; cbn [fold_res].
  { exists a. rewrite Z.add_0_r. by split_and!. }
  destruct (apply_input_ok tx ps n a i Ha) as (a1 & -> & Ha1 & (?&?&?&?&?&?) & _). cbn [mbind res_bind].
  destruct (IH (n + 1) a1 Ha1) as (a2 & -> & Ha2 & (?&?&?&?&?&?)). exists a2. split; [done|].
  cbn [length]. replace (n + Z.of_nat (S (length inputs))) with (n + 1 + len inputs) by lia.
  split; [done|]. unfold same_outputs. split_and!; congruence.
Qed.

(** The number of outputs of [tx] in scope. *)
Definition scope_count (ps : list (TxScanInput * TxOutputScan)) : Z :=
  len (filter (λ p, in_scope p = true) ps).

Lemma scope_count_snoc ps p :
  scope_count (ps ++ [p]) = scope_count ps + (if in_scope p then 1 else 0).
Proof.
  unfold scope_count. rewrite filter_app, length_app, filter_cons, filter_nil.
  destruct (in_scope p); case_decide; simpl; done || lia.
Qed.

(** A kept output: the accumulator and the invariant after it. *)
Lemma acc_inv_keep tx o k seen reused stats n a qs :
  acc_inv b fu qs n a → in_scope (tx, o) = true →
  to_p2tr_xonly_key o = Some k → array_wf 32 k → bs_p2tr_output_count stats = len qs + 1 →
  acc_inv b fu (qs ++ [(tx, o)]) n
    {| acc_self := {| next_uid := next_uid (acc_self a);
         outpoint_to_spend := <[{| op_txid := tx_txid tx; op_vout := to_vout o |} :=
           {| sl_uid := fu + len qs; sl_creation_height := bk_height b;
              sl_output_index := len (acc_outputs a);
              sl_flags := if (reused : bool) then STORAGE_OUTPUT_FLAG_REUSED else 0 |}]>
           (outpoint_to_spend (acc_self a));
         live_uid_count := wrap 64 (live_uid_count (acc_self a) + 1); seen_p2tr_keys := seen |};
       acc_outputs := acc_outputs a ++ [{| key := k; spent_height := STORAGE_SPENT_HEIGHT_UNSPENT;
         flags := if reused then STORAGE_OUTPUT_FLAG_REUSED else 0 |}];
       acc_spends := acc_spends a; acc_skipped_txs := acc_skipped_txs a; acc_tweaks := acc_tweaks a;
       acc_skipped_outputs := acc_skipped_outputs a; acc_stats := stats;
       acc_created := acc_created a ++ [{| cu_entry := {|
         ue_outpoint := {| op_txid := tx_txid tx; op_vout := to_vout o |}; ue_uid := fu + len qs;
         ue_created_height := bk_height b; ue_created_block_hash := bk_block_hash b;
         ue_tx_index := tx_tx_index tx; ue_output_index := len (acc_outputs a);
         ue_value_sat := to_value_sat o; ue_script_pubkey := to_script_pubkey o;
         ue_p2tr_xonly_key := k |}; cu_is_nums := to_is_nums o; cu_is_reused := reused;
         cu_reuse_count_at_creation := 0 |}];
       acc_spent := acc_spent a |}.
Proof.
  intros [H1 H2 H3 H4 H5 H6 H7 H8 H9] Hs Ek Hkw Hst.
  assert (len (qs ++ [(tx, o)]) = len qs + 1) as Hq by (rewrite length_app; simpl; lia).
  constructor; cbn [acc_stats acc_skipped_outputs acc_outputs acc_created acc_self acc_spends
    outpoint_to_spend]; rewrite ?Hq.
  - done.
  - by rewrite skip_from_snoc, Hs, app_nil_r.
  - rewrite dense_from_snoc, Hs. apply Forall2_app; [done|].
    constructor; [|constructor]. unfold output_of. cbn. split_and!; try done.
    destruct reused; [by right|by left].
  - rewrite dense_from_snoc, Hs. apply Forall2_app; [done|]. repeat constructor; cbn; done.
  - rewrite Z.add_assoc. apply spends_wf_insert; cbn; [done|done|lia|unfold in_width in Hh; lia].
  - eapply Forall_impl; [exact H6|]. intros; simpl in *; lia.
  - done.
  - intros o' s' [[<- <-]|[_ Hs']]%lookup_insert_Some; [|by eapply H8]. cbn.
    intros (e & E & He)%list_elem_of_fmap. rewrite Forall_forall in H6. specialize (H6 e He). simpl in H6. lia.
  - done.
Qed.

(** An output left out consumes its slot. *)
Lemma acc_inv_skip tx o seen stats n a qs :
  acc_inv b fu qs n a → in_scope (tx, o) = false → bs_p2tr_output_count stats = len qs + 1 →
  acc_inv b fu (qs ++ [(tx, o)]) n
    {| acc_self := {| next_uid := next_uid (acc_self a);
         outpoint_to_spend := outpoint_to_spend (acc_self a);
         live_uid_count := live_uid_count (acc_self a); seen_p2tr_keys := seen |};
       acc_outputs := acc_outputs a; acc_spends := acc_spends a; acc_skipped_txs := acc_skipped_txs a;
       acc_tweaks := acc_tweaks a; acc_skipped_outputs := acc_skipped_outputs a ++ [len qs];
       acc_stats := stats; acc_created := acc_created a; acc_spent := acc_spent a |}.
Proof.
  intros [H1 H2 H3 H4 H5 H6 H7 H8 H9] Hs Hst.
  assert (len (qs ++ [(tx, o)]) = len qs + 1) as Hq by (rewrite length_app; simpl; lia).
  constructor; cbn [acc_stats acc_skipped_outputs acc_outputs acc_created acc_self acc_spends
    outpoint_to_spend]; rewrite ?Hq, ?skip_from_snoc, ?dense_from_snoc, ?Hs, ?app_nil_r; try done.
  - by rewrite H2.
  - eapply spends_wf_mono; [| |exact H5]; lia.
  - eapply Forall_impl; [exact H6|]. intros; simpl in *; lia.
Qed.

Lemma p2tr_stats_count st c x y : bs_p2tr_output_count (p2tr_stats st c x y) = c.
Proof. by destruct x, y. Qed.

Lemma acc_inv_outputs_len qs n a : acc_inv b fu qs n a → (length (acc_outputs a) ≤ length qs)%nat.
Proof.
  intros H. rewrite (Forall2_length _ _ _ (ai_outputs _ _ _ _ _ H)). pose proof (skip_dense_length 0 qs). lia.
Qed.

Lemma apply_output_ok tx ps0 ps n t o :
  acc_inv b fu (ps0 ++ ps) n (ta_acc t) → ta_indexed t = scope_count ps →
  (to_is_p2tr o = true → len (ps0 ++ ps) < 65535) →
  (to_is_p2tr o = true → ∃ k, to_p2tr_xonly_key o = Some k ∧ array_wf 32 k) →
  let ps' := ps ++ (if to_is_p2tr o then [(tx, o)] else []) in
  ∃ t', apply_output b fu tx t o = Ok t' ∧ acc_inv b fu (ps0 ++ ps') n (ta_acc t') ∧
    ta_indexed t' = scope_count ps' ∧
    acc_skipped_txs (ta_acc t') = acc_skipped_txs (ta_acc t) ∧
    acc_tweaks (ta_acc t') = acc_tweaks (ta_acc t) ∧
    next_uid (acc_self (ta_acc t')) = next_uid (acc_self (ta_acc t)).
Proof.
  intros Ha Hi Hlen Hk ps'. subst ps'. unfold apply_output.
  destruct (to_is_p2tr o) eqn:Hp; cbn [negb]; cycle 1.
  { rewrite app_nil_r. eexists. split; [done|]. cbn. split_and!; try done. by destruct Ha. }
  destruct (Hk eq_refl) as (k & Ek & Hkw). specialize (Hlen eq_refl).
  cbn [set_output_count_total bs_p2tr_output_count]. rewrite (ai_count _ _ _ _ _ Ha).
  rewrite app_assoc. set (qs := ps0 ++ ps) in *.
  rewrite (try_from_ok 16) by lia. cbn [mbind res_bind].
  rewrite (checked_add_ok 32) by lia. cbn [mbind res_bind ok_or].
  unfold p2tr_output_identity. rewrite Ek. cbn [mbind res_bind ok_or].
  destruct (see_key (seen_p2tr_keys (acc_self (ta_acc t))) k) as [seen reused].
  assert (to_is_nums o || bool_decide (tx_silent_payment_tweak tx = None) = negb (in_scope (tx, o)))
    as -> by (unfold in_scope; by rewrite negb_involutive).
  destruct (in_scope (tx, o)) eqn:Hs; cbn [negb].
  - assert (scope_count ps ≤ len qs).
    { subst qs. unfold scope_count. pose proof (length_filter (λ p, in_scope p = true) ps).
      rewrite length_app. lia. }
    pose proof (acc_inv_outputs_len _ _ _ Ha).
    rewrite Hi, (checked_add_ok 16) by lia. cbn [mbind res_bind ok_or].
    rewrite (checked_add_ok 64) by lia. cbn [mbind res_bind ok_or].
    rewrite (try_from_ok 32) by lia. cbn [mbind res_bind].
    eexists. split; [done|]. cbn [ta_acc ta_indexed acc_skipped_txs acc_tweaks acc_self next_uid].
    split_and!; try done; [|by rewrite scope_count_snoc, Hs].
    apply acc_inv_keep; try done. apply p2tr_stats_count.
  - eexists. split; [done|]. cbn [ta_acc ta_indexed acc_skipped_txs acc_tweaks acc_self next_uid].
    split_and!; try done; [|by rewrite scope_count_snoc, Hs, Z.add_0_r].
    apply acc_inv_skip; try done. apply p2tr_stats_count.
Qed.

Lemma apply_outputs_ok tx ps0 ps n t os :
  acc_inv b fu (ps0 ++ ps) n (ta_acc t) → ta_indexed t = scope_count ps →
  let ps' := ps ++ ((λ o, (tx, o)) <$> filter (λ o, to_is_p2tr o = true) os) in
  len (ps0 ++ ps') ≤ 65535 →
  (∀ o, o ∈ os → to_is_p2tr o = true → ∃ k, to_p2tr_xonly_key o = Some k ∧ array_wf 32 k) →
  ∃ t', fold_res (apply_output b fu tx) t os = Ok t' ∧ acc_inv b fu (ps0 ++ ps') n (ta_acc t') ∧
    ta_indexed t' = scope_count ps' ∧
    acc_skipped_txs (ta_acc t') = acc_skipped_txs (ta_acc t) ∧
    acc_tweaks (ta_acc t') = acc_tweaks (ta_acc t) ∧
    next_uid (acc_self (ta_acc t')) = next_uid (acc_self (ta_acc t)).
Proof.
  revert ps t. induction os as [|o os IH]; intros ps t Ha Hi ps' Hlen Hk; subst ps'; cbn [fold_res].
  { cbn. rewrite app_nil_r. by exists t. }
  assert ((λ o, (tx, o)) <$> filter (λ o, to_is_p2tr o = true) (o :: os)
    = (if to_is_p2tr o then [(tx, o)] else []) ++
      ((λ o, (tx, o)) <$> filter (λ o, to_is_p2tr o = true) os)) as E.
  { rewrite filter_cons. destruct (to_is_p2tr o); case_decide; done. }
  rewrite E, (app_assoc ps) in *.
  destruct (apply_output_ok tx ps0 ps n t o Ha Hi) as (t1 & -> & Ha1 & Hi1 & ? & ? & ?).
  { intros Hp. rewrite Hp, !length_app in Hlen. rewrite length_app. simpl in Hlen. lia. }
  { apply Hk. by constructor. }
  cbn [mbind res_bind].
  destruct (IH _ t1 Ha1 Hi1 Hlen) as (t2 & -> & Ha2 & Hi2 & ? & ? & ?).
  { intros o' Ho'. apply Hk. by constructor. }
  exists t2. split_and!; try done; congruence.
Qed.
End loops.

(** ** Transactions *)

(** The tweak entry of a transaction: none when no output of it is in scope. *)
Definition tx_entry (tx : TxScanInput) : option TweakEntryInput :=
  let k := scope_count (p2tr_of tx) in
  if bool_decide (0 < k)
  then (λ t, {| output_count := k; tweak := t |}) <$> tx_silent_payment_tweak tx else None.

Lemma scope_count_nonneg ps : 0 ≤ scope_count ps.
Proof. unfold scope_count. lia. Qed.
Lemma scope_count_app ps qs : scope_count (ps ++ qs) = scope_count ps + scope_count qs.
Proof. unfold scope_count. rewrite filter_app, length_app. lia. Qed.
Lemma scope_count_le ps : scope_count ps ≤ len ps.
Proof. unfold scope_count. pose proof (length_filter (λ p, in_scope p = true) ps). lia. Qed.
Lemma length_dense_from n ps : len (dense_from n ps) = scope_count ps.
Proof.
  revert n; induction ps as [|p ps IH]; intros n; [done|].
  change (p :: ps) with ([p] ++ ps). rewrite scope_count_app, <- (IH (n + 1)). cbn [app dense_from].
  rewrite length_app. unfold scope_count. rewrite filter_cons, filter_nil.
  destruct (in_scope p); case_decide; simpl; done || lia.
Qed.

(** A transaction with an output in scope has a tweak. *)
Lemma scope_tweak tx : 0 < scope_count (p2tr_of tx) → is_Some (tx_silent_payment_tweak tx).
Proof.
  unfold scope_count. intros H.
  destruct (filter (λ p, in_scope p = true) (p2tr_of tx)) as [|p l] eqn:E; [simpl in H; lia|].
  assert (p ∈ filter (λ p, in_scope p = true) (p2tr_of tx)) as Hp by (rewrite E; constructor).
  apply list_elem_of_filter in Hp as [Hs Hp]. apply list_elem_of_fmap in Hp as (o & -> & _).
  unfold in_scope in Hs. cbn in Hs. apply negb_true_iff, orb_false_iff in Hs as [_ Hs].
  apply bool_decide_eq_false in Hs. by destruct (tx_silent_payment_tweak tx).
Qed.

Section block.
Context (b : BlockScanInput) (fu n : Z).
Hypothesis Hh : in_width 32 (bk_height b).
Hypothesis Hfu : 0 ≤ fu ∧ fu + 65536 < 2 ^ 64.
Hypothesis Hn : in_width 16 n.

(** The invariant of the loop over transactions, after the transactions [ds]. *)
Record blk_inv (ds : list TxScanInput) (nin : Z) (a : BlockAcc) : Prop := {
  bi_acc : acc_inv b fu (p2tr_outs ds) nin a;
  bi_tweaks : acc_tweaks a = omap tx_entry ds;
  bi_bitmap : bitmap_wf n (acc_skipped_txs a);
  bi_flags : ∀ j : nat, skip_flag (acc_skipped_txs a) (Z.of_nat j) =
    match ds !! j with Some tx => bool_decide (tx_entry tx = None) | None => false end
}.

Lemma p2tr_outs_snoc ds tx : p2tr_outs (ds ++ [tx]) = p2tr_outs ds ++ p2tr_of tx.
Proof. unfold p2tr_outs. rewrite bind_app. cbn. by rewrite app_nil_r. Qed.

Lemma apply_tx_ok ds nin a tx :
  blk_inv ds nin a → tx_tx_index tx = len ds → len ds < n →
  len (p2tr_outs (ds ++ [tx])) ≤ 65535 →
  (∀ o, o ∈ tx_outputs tx → to_is_p2tr o = true → ∃ k, to_p2tr_xonly_key o = Some k ∧ array_wf 32 k) →
  ∃ a', apply_tx b fu n a tx = Ok a' ∧ blk_inv (ds ++ [tx]) (nin + len (tx_inputs tx)) a' ∧
    next_uid (acc_self a') = next_uid (acc_self a).
Proof.
  intros [Ha Ht Hb Hf] Hi Hlt Hlen Hk. rewrite p2tr_outs_snoc in Hlen. unfold apply_tx.
  destruct (apply_inputs_ok b fu Hh tx _ _ a (tx_inputs tx) Ha)
    as (a1 & -> & Ha1 & _ & Hs1 & Ht1 & _ & _ & Hn1). cbn [mbind res_bind].
  rewrite <- (app_nil_r (p2tr_outs ds)) in Ha1.
  destruct (apply_outputs_ok b fu Hh Hfu tx (p2tr_outs ds) [] (nin + len (tx_inputs tx))
    {| ta_acc := a1; ta_has_p2tr := false; ta_indexed := 0 |} (tx_outputs tx))
    as (t & -> & Ha2 & Hi2 & Hs2 & Ht2 & Hn2); try done. cbn [mbind res_bind app ta_acc] in *.
  change ((λ o, (tx, o)) <$> filter (λ o, to_is_p2tr o = true) (tx_outputs tx)) with (p2tr_of tx) in *.
  rewrite Hi2. set (a2 := ta_acc t) in *. rewrite Hs1 in Hs2. rewrite Ht1 in Ht2.
  assert (∀ stats tweaks skipped, bs_p2tr_output_count stats = bs_p2tr_output_count (acc_stats a2) →
    acc_inv b fu (p2tr_outs ds ++ p2tr_of tx) (nin + len (tx_inputs tx))
      {| acc_self := acc_self a2; acc_outputs := acc_outputs a2; acc_spends := acc_spends a2;
         acc_skipped_txs := skipped; acc_tweaks := tweaks;
         acc_skipped_outputs := acc_skipped_outputs a2; acc_stats := stats;
         acc_created := acc_created a2; acc_spent := acc_spent a2 |}) as Hacc.
  { intros stats tweaks skipped E. destruct Ha2. constructor; cbn; try done. by rewrite E. }
  assert (∀ (s : BlockScopeStats) v,
    bs_p2tr_output_count (if ta_has_p2tr t then set_tx_with_p2tr_output_count s v else s)
    = bs_p2tr_output_count s) as Hst by (by destruct (ta_has_p2tr t)).
  assert (omap tx_entry (ds ++ [tx]) = omap tx_entry ds ++ option_list (tx_entry tx)) as Eomap.
  { by rewrite omap_app. }
  case_bool_decide as Hpos.
  - destruct (scope_tweak tx Hpos) as [tw Etw]. rewrite Etw.
    assert (tx_entry tx = Some {| output_count := scope_count (p2tr_of tx); tweak := tw |}) as Ee.
    { unfold tx_entry. by rewrite bool_decide_true, Etw. }
    eexists. split; [done|]. split; [|cbn; congruence]. constructor; cbn.
    + rewrite p2tr_outs_snoc. apply Hacc. cbn. apply Hst.
    + by rewrite Eomap, Ee, Ht2, Ht.
    + by rewrite Hs2.
    + intros j. rewrite Hs2, Hf. destruct (decide (j < length ds)%nat) as [Hj|Hj].
      * by rewrite lookup_app_l.
      * rewrite lookup_ge_None_2 by lia. destruct (decide (j = length ds)) as [->|].
        { rewrite lookup_app_r, Nat.sub_diag by lia. cbn. by rewrite Ee. }
        by rewrite lookup_ge_None_2 by (rewrite length_app; simpl; lia).
  - assert (tx_entry tx = None) as Ee by (unfold tx_entry; by rewrite bool_decide_false).
    rewrite Hs2, Hi.
    destruct (set_skipped_spec n (acc_skipped_txs a) (len ds) Hn Hb ltac:(lia)) as (bm & -> & Hbm & Hbf).
    cbn [mbind res_bind]. eexists. split; [done|]. split; [|cbn; congruence]. constructor; cbn.
    + rewrite p2tr_outs_snoc. apply Hacc, Hst.
    + by rewrite Eomap, Ee, Ht2, Ht, app_nil_r.
    + done.
    + intros j. rewrite Hbf, Hf by lia. destruct (decide (j < length ds)%nat) as [Hj|Hj].
      * rewrite bool_decide_false by lia. by rewrite lookup_app_l.
      * rewrite (lookup_ge_None_2 ds) by lia. destruct (decide (j = length ds)) as [->|].
        { rewrite bool_decide_true by done. rewrite lookup_app_r, Nat.sub_diag by lia. cbn. by rewrite Ee. }
        rewrite bool_decide_false by lia. by rewrite lookup_ge_None_2 by (rewrite length_app; simpl; lia).
Qed.

Lemma apply_txs_ok ds rest nin a :
  blk_inv ds nin a → len (ds ++ rest) ≤ n → len (p2tr_outs (ds ++ rest)) ≤ 65535 →
  (∀ i tx, (ds ++ rest) !! i = Some tx → tx_tx_index tx = Z.of_nat i) →
  (∀ tx o, tx ∈ rest → o ∈ tx_outputs tx → to_is_p2tr o = true →
    ∃ k, to_p2tr_xonly_key o = Some k ∧ array_wf 32 k) →
  ∃ a', fold_res (apply_tx b fu n) a rest = Ok a' ∧
    blk_inv (ds ++ rest) (nin + len (rest ≫= tx_inputs)) a' ∧
    next_uid (acc_self a') = next_uid (acc_self a).
Proof.
  revert ds nin a. induction rest as [|tx rest IH]; intros ds nin a Ha Hlen Hout Hidx Hk; cbn [fold_res].
  { rewrite app_nil_r. cbn. rewrite Z.add_0_r. by exists a. }
  rewrite cons_middle, app_assoc in *.
  destruct (apply_tx_ok ds nin a tx Ha) as (a1 & -> & Ha1 & Hn1).
  { apply Hidx. by rewrite lookup_app_l, lookup_app_r, Nat.sub_diag by (rewrite ?length_app; simpl; lia). }
  { rewrite !length_app in Hlen. simpl in Hlen. lia. }
  { unfold p2tr_outs in *. rewrite bind_app, length_app in Hout. lia. }
  { intros o. apply Hk. by constructor. }
  cbn [mbind res_bind].
  destruct (IH (ds ++ [tx]) _ a1 Ha1 Hlen Hout Hidx) as (a2 & -> & Ha2 & Hn2).
  { intros tx' o Htx'. apply Hk. by constructor. }
  exists a2. split_and!; [done| |congruence]. rewrite bind_cons, length_app.
  by replace (nin + Z.of_nat (length (tx_inputs tx) + length (rest ≫= tx_inputs)))
    with (nin + len (tx_inputs tx) + len (rest ≫= tx_inputs)) by lia.
Qed.
End block.

(** ** The stored block *)
Lemma dense_count txs bm (i : nat) :
  (∀ j : nat, skip_flag bm (Z.of_nat j) =
    match txs !! j with Some tx => bool_decide (tx_entry tx = None) | None => false end) →
  (i ≤ length txs)%nat →
  length (dense_indexes (Z.of_nat i) bm) = length (omap tx_entry (take i txs)).
Proof.
  intros Hf. induction i as [|i IH]; intros Hi; [done|].
  destruct (lookup_lt_is_Some_2 txs i) as [tx Htx]; [lia|].
  unfold dense_indexes. rewrite (filter_seqZ_snoc (λ i, skip_flag bm i = false)), length_app.
  fold (dense_indexes (Z.of_nat i) bm). rewrite IH by lia.
  rewrite (take_S_r _ _ _ Htx), omap_app, length_app. f_equal. rewrite Hf, Htx. cbn.
  destruct (tx_entry tx); case_decide; done.
Qed.

Lemma declared_entries txs :
  (∀ tx, tx ∈ txs → scope_count (p2tr_of tx) < 2 ^ 16) →
  Z.of_nat (declared (omap tx_entry txs)) = scope_count (p2tr_outs txs).
Proof.
  induction txs as [|tx txs IH]; intros Hw; [done|].
  change (p2tr_outs (tx :: txs)) with (p2tr_of tx ++ p2tr_outs txs).
  rewrite scope_count_app, <- IH by (intros; apply Hw; by constructor). cbn [omap list_omap].
  unfold tx_entry at 1. pose proof (scope_count_nonneg (p2tr_of tx)).
  case_bool_decide as Hpos; [|lia].
  destruct (scope_tweak tx Hpos) as [tw ->]. cbn [fmap option_fmap option_map].
  rewrite declared_cons. cbn [output_count]. lia.
Qed.

(** Facts of the whole call. *)
Record block_result (self : P2trIndexerState) (b : BlockScanInput) (out : AppliedBlock)
    (self' : P2trIndexerState) : Prop := {
  br_next_uid : next_uid self' = next_uid self + len (p2tr_outs (bk_txs b));
  br_wf : indexer_wf (bk_height b) self';
  br_header : sb_height (ab_storage_block out) = bk_height b ∧
    sb_block_hash (ab_storage_block out) = bk_block_hash b ∧
    sb_previous_block_hash (ab_storage_block out) = bk_previous_block_hash b ∧
    sb_raw_block_bytes (ab_storage_block out) = bk_raw_block_bytes b;
  br_first_uid : sb_first_uid (ab_storage_block out) = next_uid self + 1;
  br_skipped : sb_skipped_outputs (ab_storage_block out) = skip_from 0 (p2tr_outs (bk_txs b));
  br_outputs : Forall2 output_of (sb_outputs (ab_storage_block out)) (dense_from 0 (p2tr_outs (bk_txs b)));
  br_created : Forall2 (created_of (next_uid self + 1)) (ab_created_utxos out)
    (dense_from 0 (p2tr_outs (bk_txs b)));
  br_tweaks : sb_tweaks (ab_storage_block out) = omap tx_entry (bk_txs b);
  br_flags : sb_tx_count (ab_storage_block out) = len (bk_txs b) ∧
    ∀ i tx, bk_txs b !! i = Some tx →
      skip_flag (sb_skipped_txs_for_tweaks (ab_storage_block out)) (Z.of_nat i)
      = bool_decide (tx_entry tx = None);
  br_typed : stored_typed (ab_storage_block out);
  br_valid : stored_valid (ab_storage_block out);
  br_light : to_response_input_for_labels (ab_storage_block out) None = Ok (ab_light_block out);
  br_spends : len (sb_spends (ab_storage_block out)) ≤ len (bk_txs b ≫= tx_inputs);
  br_spent_fresh : ∀ o s, outpoint_to_spend self' !! o = Some s →
    sl_uid s ∉ spent_uid <$> sb_spends (ab_storage_block out)
}.

(** The hash streams of a stored block are the packed hashes of its keys. *)
Lemma build_hashes_ok `{!Sha256} raw outs budget :
  len outs < 2 ^ 56 →
  build_stored_truncated_output_hashes raw outs budget =
    Ok (hash_stream (choose_truncated_output_hash_bits (length outs) raw budget) (key <$> outs)).
Proof.
  intros Hl. unfold build_stored_truncated_output_hashes.
  apply pack_keys_spec; [apply choose_bits_bound|by rewrite length_fmap].
Qed.

Lemma length_build_hashes `{!Sha256} outs raw budget :
  length (hash_stream (choose_truncated_output_hash_bits (length outs) raw budget) (key <$> outs)) =
  bytes_for (length outs * Z.to_nat (choose_truncated_output_hash_bits (length outs) raw budget)).
Proof.
  pose proof (choose_bits_bound (length outs) raw budget). rewrite length_hash_stream by lia.
  by rewrite length_fmap.
Qed.

(** The stored block assembled from the loops' accumulators. *)
Definition assembled `{!Sha256} (b : BlockScanInput) (fu : Z) (a : BlockAcc) : StoredLightBlockInput := {|
  sb_height := bk_height b; sb_block_hash := bk_block_hash b;
  sb_previous_block_hash := bk_previous_block_hash b; sb_first_uid := fu;
  sb_tx_count := len (bk_txs b); sb_skipped_txs_for_tweaks := acc_skipped_txs a;
  sb_tweaks := acc_tweaks a; sb_skipped_outputs := acc_skipped_outputs a;
  sb_outputs := acc_outputs a; sb_spends := acc_spends a;
  sb_raw_block_bytes := bk_raw_block_bytes b;
  sb_truncated_output_hash_for_two_labels := hash_stream (choose_truncated_output_hash_bits
    (length (acc_outputs a)) (bk_raw_block_bytes b) RESPONSE_LABEL_BUDGET_TWO) (key <$> acc_outputs a);
  sb_truncated_output_hash_for_hundred_labels := hash_stream (choose_truncated_output_hash_bits
    (length (acc_outputs a)) (bk_raw_block_bytes b) RESPONSE_LABEL_BUDGET_HUNDRED) (key <$> acc_outputs a) |}.

Section assembled.
Context `{!Sha256} (b : BlockScanInput) (fu nin : Z) (a : BlockAcc).
Hypothesis Hb : block_wf b.
Hypothesis Hfu : 0 ≤ fu ∧ fu + 65536 < 2 ^ 64.
Hypothesis Hnin : nin < 2 ^ 32.
Hypothesis Hinv : blk_inv b fu (len (bk_txs b)) (bk_txs b) nin a.
Notation ps := (p2tr_outs (bk_txs b)).

Lemma entries_typed : Forall tweak_typed (omap tx_entry (bk_txs b)).
Proof.
  apply Forall_forall. intros e (tx & Htx & He)%list_elem_of_omap. unfold tx_entry in He.
  case_bool_decide; [|done]. apply fmap_Some in He as (t & Et & ->).
  split; [|by eapply (bw_tweaks b Hb)]. cbn. unfold in_width.
  pose proof (scope_count_le (p2tr_of tx)). pose proof (bw_outputs b Hb).
  assert (len (p2tr_of tx) ≤ len ps).
  { apply list_elem_of_split in Htx as (l1 & l2 & ->). unfold p2tr_outs.
    rewrite bind_app, bind_cons, !length_app. lia. }
  lia.
Qed.

Lemma entry_counts tx : tx ∈ bk_txs b → scope_count (p2tr_of tx) < 2 ^ 16.
Proof.
  intros Htx. pose proof (scope_count_le (p2tr_of tx)). pose proof (bw_outputs b Hb).
  assert (len (p2tr_of tx) ≤ len ps).
  { apply list_elem_of_split in Htx as (l1 & l2 & ->). unfold p2tr_outs.
    rewrite bind_app, bind_cons, !length_app. lia. }
  lia.
Qed.

Lemma outputs_len : len (acc_outputs a) = scope_count ps.
Proof. rewrite (Forall2_length _ _ _ (ai_outputs _ _ _ _ _ (bi_acc _ _ _ _ _ _ Hinv))). apply length_dense_from. Qed.

Lemma assembled_typed : stored_typed (assembled b fu a).
Proof.
  pose proof (bw_outputs b Hb) as Ho. pose proof (bw_txs b Hb). pose proof (bw_height b Hb) as Hh.
  pose proof (bw_raw b Hb). destruct Hinv as [[? Hsk Hout _ _ Hsp _ _ _] Htw Hbm _].
  constructor; cbn.
  - unfold in_width in *. lia.
  - apply (bw_hashes b Hb).
  - unfold in_width. lia.
  - unfold in_width. lia.
  - apply Hbm.
  - rewrite Htw. apply entries_typed.
  - rewrite Hsk. eapply Forall_impl; [apply skip_from_bounds|]. unfold in_width. intros; simpl in *; lia.
  - apply Forall_forall. intros o Hin. apply list_elem_of_lookup in Hin as [i Hi].
    destruct (Forall2_lookup_l _ _ _ _ _ Hout Hi) as (sp & _ & _ & Hk & Hs & Hf).
    split_and!; [done|by rewrite Hs|]. by destruct Hf as [-> | ->].
  - eapply Forall_impl; [exact Hsp|]. intros e [Hu Hc]. unfold in_width in *.
    split; simpl in *; unfold in_width; lia.
  - unfold in_width. lia.
Qed.

Lemma assembled_valid : stored_valid (assembled b fu a).
Proof.
  pose proof (bw_outputs b Hb) as Ho. pose proof (bw_txs b Hb) as Htxs. pose proof (bw_height b Hb) as Hh.
  pose proof (bw_raw b Hb) as Hraw. pose proof outputs_len as Hol. pose proof (scope_count_le ps) as Hsc.
  destruct Hinv as [[? Hsk Hout _ _ Hsp Hnd _ Hlen] Htw Hbm Hfl].
  pose proof (skip_dense_length 0 ps) as Hsd. pose proof (length_dense_from 0 ps) as Hdl.
  assert (length (omap tx_entry (bk_txs b)) = length (dense_indexes (len (bk_txs b)) (acc_skipped_txs a))) as Hd.
  { rewrite (dense_count (bk_txs b)) by done. by rewrite firstn_all. }
  constructor; unfold assembled, spends_valid, stored_bits; sb_simpl.
  - unfold in_width, umax in *. lia.
  - done.
  - rewrite Htw, Hd. pose proof (skipped_dense_length (len (bk_txs b)) (acc_skipped_txs a)). lia.
  - by rewrite Htw.
  - rewrite Hsk. lia.
  - lia.
  - rewrite Hsk. apply skip_from_sorted.
  - rewrite Hsk. lia.
  - rewrite Hsk. eapply Forall_impl; [apply skip_from_bounds|]. intros; simpl in *; lia.
  - apply length_build_hashes.
  - apply length_build_hashes.
  - rewrite bool_decide_false by lia. rewrite Htw. apply Nat2Z.inj.
    rewrite declared_entries by (by apply entry_counts). lia.
  - split_and!; [done| |lia]. intros E.
    destruct (acc_spends a) as [|e [|]]; try discriminate E. apply Forall_cons in Hsp as [[? _] _].
    unfold U64_MAX in E. injection E as E. simpl in *. lia.
  - eapply Forall_impl; [exact Hsp|]. intros e [_ ?]. simpl in *. lia.
Qed.
End assembled.

Section call.
Context `{!Sha256} (self : P2trIndexerState) (b : BlockScanInput) (h : Z).
Hypothesis Hself : indexer_wf h self.
Hypothesis Hle : h ≤ bk_height b.
Hypothesis Hb : block_wf b.
Hypothesis Hcap : next_uid self + 65538 < 2 ^ 64.

Lemma blk_inv_init bm :
  bitmap_wf (len (bk_txs b)) bm → (∀ i, skip_flag bm i = false) →
  blk_inv b (next_uid self + 1) (len (bk_txs b)) [] 0
    {| acc_self := self; acc_outputs := []; acc_spends := []; acc_skipped_txs := bm;
       acc_tweaks := []; acc_skipped_outputs := [];
       acc_stats := set_tx_count stats_default (len (bk_txs b)); acc_created := []; acc_spent := [] |}.
Proof.
  intros Hbm Hf. destruct Hself as [H0 Hs].
  constructor; cbn; [|done|done|by intros j; rewrite Hf, lookup_nil].
  constructor; cbn; try done; try by constructor.
  - rewrite Z.add_0_r. eapply spends_wf_mono; [| |exact Hs]; lia.
  - intros o s _. apply not_elem_of_nil.
Qed.

Lemma apply_block_ok :
  ∃ out self', apply_block_with_stats self b = Ok (out, self') ∧ block_result self b out self'.
Proof.
  pose proof Hself as [H0 _]. pose proof (bw_txs b Hb) as Htxs. pose proof (bw_outputs b Hb) as Houts.
  assert (in_width 16 (len (bk_txs b))) as Hn by (unfold in_width; lia).
  unfold apply_block_with_stats, finish_block.
  replace (saturating_add 64 (next_uid self) 1) with (next_uid self + 1)
    by (unfold saturating_add, umax; lia).
  rewrite (try_from_ok 16) by lia. cbn [mbind res_bind].
  destruct (empty_bitmap_spec _ Hn) as (bm & -> & Hbm & Hf). cbn [mbind res_bind].
  destruct (apply_txs_ok b (next_uid self + 1) (len (bk_txs b)) (bw_height b Hb) ltac:(lia) Hn [] (bk_txs b)
    0 _ (blk_inv_init bm Hbm Hf)) as (a & -> & Ha & Hnu).
  { cbn [app]. lia. } { done. } { apply (bw_index b Hb). } { apply (bw_keys b Hb). }
  cbn [mbind res_bind app acc_self] in *. rewrite Z.add_0_l in Ha. rewrite Hnu.
  pose proof (bi_acc _ _ _ _ _ _ Ha) as Hacc. rewrite (ai_count _ _ _ _ _ Hacc).
  replace (if bool_decide (0 < len (p2tr_outs (bk_txs b))) then _ else _)
    with (Ok (next_uid self + len (p2tr_outs (bk_txs b)))).
  2:{ case_bool_decide.
      - rewrite checked_add_ok by lia. cbn [mbind option_bind].
        rewrite checked_sub_ok by lia. cbn. f_equal. lia.
      - f_equal. lia. }
  cbn [mbind res_bind]. pose proof (outputs_len b _ _ a Ha) as Hol.
  pose proof (scope_count_le (p2tr_outs (bk_txs b))).
  rewrite !build_hashes_ok by lia. cbn [mbind res_bind].
  fold (assembled b (next_uid self + 1) a).
  pose proof (assembled_typed b (next_uid self + 1) _ a Hb ltac:(lia) Ha) as Hty.
  pose proof (assembled_valid b (next_uid self + 1) _ a Hb ltac:(lia) (bw_inputs b Hb) Ha) as Hval.
  destruct (to_response_ok _ None Hty Hval) as (c & st & _ & Hr & _ & _).
  rewrite Hr. cbn [mbind res_bind]. eexists _, _. split; [done|].
  destruct Hacc. constructor; cbn; try done.
  - split; cbn; [lia|]. eapply spends_wf_mono; [| |eassumption]; lia.
  - apply (bi_tweaks _ _ _ _ _ _ Ha).
  - split; [done|]. intros i tx Htx. rewrite (bi_flags _ _ _ _ _ _ Ha), Htx. done.
Qed.
End call.
