(* ===== verification/Indexer.v ===== *)
(** * The indexer: theorems

    What [apply_block_with_stats] guarantees for a well-formed block, for a chain of
    blocks, and for a state restored without reuse tracking. *)

From S2P Require Import Prelude Bits Helper TaggedHash Bitmap SpentIds OutputHash LightBlock LightValid CutThrough P2trIndexer P2trFacts.

(** ** UIDs of the stored block and of the creation records *)
Lemma created_uids s ps fu cs :
  sb_first_uid s = fu → sb_skipped_outputs s = skip_from 0 ps →
  Forall2 output_of (sb_outputs s) (dense_from 0 ps) →
  Forall2 (created_of fu) cs (dense_from 0 ps) →
  (created s).*1 = (λ c, ue_uid (cu_entry c)) <$> cs.
Proof.
  intros Hf Hs Ho Hc. pose proof (skip_dense_length 0 ps) as Hl.
  pose proof (Forall2_length _ _ _ Ho) as Hol.
  assert (dense_slots s = (dense_from 0 ps).*1) as Hd.
  { unfold dense_slots. rewrite Hs, <- dense_slots_from. f_equal. f_equal. lia. }
  unfold created. rewrite fst_zip by (rewrite length_fmap, Hd, length_fmap; lia). rewrite Hd, Hf.
  rewrite <- list_fmap_compose. clear Hl Hol Hd Ho. induction Hc as [|c [slot p] cs l (Hu & _ & _) _ IH]; [done|].
  rewrite !fmap_cons, <- IH. cbn in *. by rewrite Hu.
Qed.

Lemma block_uids `{!Sha256} self b out self' :
  block_result self b out self' →
  (created (ab_storage_block out)).*1 = (λ c, ue_uid (cu_entry c)) <$> ab_created_utxos out.
Proof. intros []. by eapply created_uids. Qed.

(** The UIDs of a block lie between the old and the new [next_uid], without repetition. *)
Lemma block_uids_range `{!Sha256} self b out self' u :
  block_result self b out self' → u ∈ (created (ab_storage_block out)).*1 →
  next_uid self < u ≤ next_uid self'.
Proof.
  intros R Hu. rewrite (block_uids _ _ _ _ R) in Hu.
  apply list_elem_of_fmap in Hu as (c & -> & Hc). apply list_elem_of_lookup in Hc as [i Hi].
  destruct (Forall2_lookup_l _ _ _ _ _ (br_created _ _ _ _ R) Hi) as ([slot p] & Hsp & -> & _).
  apply list_elem_of_lookup_2, dense_from_bounds in Hsp. rewrite (br_next_uid _ _ _ _ R). cbn. lia.
Qed.

Lemma dense_from_nodup n ps : NoDup (dense_from n ps).*1.
Proof. rewrite <- dense_slots_from. apply NoDup_filter, NoDup_seqZ. Qed.

Lemma block_uids_nodup `{!Sha256} self b out self' :
  block_result self b out self' → NoDup (created (ab_storage_block out)).*1.
Proof.
  intros R. rewrite (block_uids _ _ _ _ R). pose proof (br_created _ _ _ _ R) as Hc.
  assert ((λ c, ue_uid (cu_entry c)) <$> ab_created_utxos out
    = (λ s, next_uid self + 1 + s) <$> (dense_from 0 (p2tr_outs (bk_txs b))).*1) as ->.
  { clear -Hc. induction Hc as [|c sp cs l (Hu & _) _ IH]; [done|]. rewrite !fmap_cons, <- IH. by rewrite Hu. }
  assert (Inj (=) (=) (λ s, next_uid self + 1 + s)) by (intros x y; lia).
  apply NoDup_fmap_2; [done|apply dense_from_nodup].
Qed.

(** ** Chains of blocks *)
Section chain.
Context `{!Sha256}.

(** The indexer over a list of blocks. *)
Fixpoint apply_blocks (self : P2trIndexerState) (blocks : list BlockScanInput)
    : res (list AppliedBlock * P2trIndexerState) :=
  match blocks with
  | [] => Ok ([], self)
  | b :: blocks =>
      '(out, self) ← apply_block_with_stats self b;
      '(outs, self) ← apply_blocks self blocks;
      Ok (out :: outs, self)
  end.

(** Well-formed blocks at non-decreasing heights. *)
Fixpoint chain_wf (h : Z) (blocks : list BlockScanInput) : Prop :=
  match blocks with
  | [] => True
  | b :: blocks => h ≤ bk_height b ∧ block_wf b ∧ chain_wf (bk_height b) blocks
  end.

Lemma apply_blocks_ok h self blocks :
  indexer_wf h self → chain_wf h blocks →
  next_uid self + 65538 * (len blocks + 1) < 2 ^ 64 →
  ∃ outs self', apply_blocks self blocks = Ok (outs, self') ∧
    next_uid self' = next_uid self + len (blocks ≫= λ b, p2tr_outs (bk_txs b)) ∧
    indexer_wf (foldl (λ _ b, bk_height b) h blocks) self' ∧
    Forall (λ out, stored_typed (ab_storage_block out) ∧ stored_valid (ab_storage_block out)) outs ∧
    Forall (λ u, next_uid self < u ≤ next_uid self') (outs ≫= λ out, (created (ab_storage_block out)).*1) ∧
    NoDup (outs ≫= λ out, (created (ab_storage_block out)).*1).
Proof.
  revert h self. induction blocks as [|b blocks IH]; intros h self Hs Hc Hcap; cbn [apply_blocks].
  { exists [], self. cbn. rewrite Z.add_0_r. split_and!; done || constructor. }
  cbn [length] in Hcap. destruct Hc as (Hle & Hb & Hc).
  destruct (apply_block_ok self b h Hs Hle Hb ltac:(lia)) as (out & self1 & -> & Hr). cbn [mbind res_bind].
  pose proof (br_next_uid _ _ _ _ Hr) as Hn1. pose proof (bw_outputs b Hb) as Hob.
  destruct (IH (bk_height b) self1 (br_wf _ _ _ _ Hr) Hc ltac:(lia))
    as (outs & self2 & -> & Hn2 & Hw2 & Hv2 & Hu2 & Hnd2). cbn [mbind res_bind].
  exists (out :: outs), self2. split; [done|].
  rewrite bind_cons, length_app. split; [lia|]. split; [done|].
  split; [constructor; [split; apply Hr|done]|]. rewrite bind_cons. split.
  - apply Forall_app. split.
    + apply Forall_forall. intros u Hu. pose proof (block_uids_range _ _ _ _ _ Hr Hu). lia.
    + eapply Forall_impl; [exact Hu2|]. intros u ?. simpl in *. lia.
  - apply NoDup_app. split_and!; [by eapply block_uids_nodup| |done].
    intros u Hu Hin. pose proof (block_uids_range _ _ _ _ _ Hr Hu).
    rewrite Forall_forall in Hu2. specialize (Hu2 u Hin). simpl in Hu2. lia.
Qed.
End chain.

(** ** Without reuse tracking *)

(** The outputs of the block so far carry no reuse flag. *)
Definition unflagged (a : BlockAcc) : Prop :=
  seen_p2tr_keys (acc_self a) = None ∧ Forall (λ o, flags o = 0) (acc_outputs a).

Lemma unflagged_input b tx a i a' : apply_input b tx a i = Ok a' → unflagged a → unflagged a'.
Proof.
  unfold apply_input. destruct (_ !! _); [|by intros [= ->]]. intros H. res_inv. by intros [? ?].
Qed.

Lemma unflagged_output b fu tx t o t' :
  apply_output b fu tx t o = Ok t' → unflagged (ta_acc t) → unflagged (ta_acc t').
Proof.
  intros H [Hs Hf]. unfold apply_output in H. destruct (negb (to_is_p2tr o)); [by injection H as <-|].
  apply bind_Ok in H as (? & _ & H). apply bind_Ok in H as (? & _ & H). apply bind_Ok in H as (k & _ & H).
  rewrite Hs in H. cbn [see_key] in H. destruct (_ || _); [by injection H as <-|].
  do 3 (apply bind_Ok in H as (? & _ & H)). injection H as <-. split; [done|]. cbn.
  apply Forall_app. split; [done|]. by repeat constructor.
Qed.

Lemma unflagged_tx b fu n a tx a' : apply_tx b fu n a tx = Ok a' → unflagged a → unflagged a'.
Proof.
  intros H Hu. unfold apply_tx in H. apply bind_Ok in H as (a1 & H1 & H).
  apply bind_Ok in H as (t & H2 & H).
  assert (unflagged a1) as Hu1.
  { apply (fold_res_ind (apply_input b tx) (λ _, unflagged)) in H1; [done|done|].
    intros _ x s1 s2 ? Hs. by eapply unflagged_input. }
  assert (unflagged (ta_acc t)) as Hu2.
  { apply (fold_res_ind (apply_output b fu tx) (λ _ t, unflagged (ta_acc t))) in H2; [done|done|].
    intros _ x s1 s2 ? Hs. by eapply unflagged_output. }
  case_bool_decide; [|apply bind_Ok in H as (? & _ & H)].
  - destruct (tx_silent_payment_tweak tx); by injection H as <-.
  - by injection H as <-.
Qed.

(** ** Spends *)

(** A coin of the state before the block: spent by the inputs [ins], or kept. *)
Definition tracks (m0 : gmap OutPointKey SpendLookup) (op : OutPointKey) (ins : list OutPointKey)
    (a : BlockAcc) : Prop :=
  ∀ s, m0 !! op = Some s →
    (op ∈ ins → outpoint_to_spend (acc_self a) !! op = None ∧
      {| spent_uid := sl_uid s; creation_height := sl_creation_height s |} ∈ acc_spends a) ∧
    (op ∉ ins → outpoint_to_spend (acc_self a) !! op = Some s).

(** A coin of the state, or one of the block's. *)
Definition coin_source (m0 : gmap OutPointKey SpendLookup) (created : list CreatedScopedUtxo)
    (op : OutPointKey) (s : SpendLookup) : Prop :=
  m0 !! op = Some s ∨
  ∃ c, c ∈ created ∧ ue_outpoint (cu_entry c) = op ∧ ue_uid (cu_entry c) = sl_uid s.

(** Every coin held and every spend recorded has a source; a recorded spend has an input. *)
Definition sourced (m0 : gmap OutPointKey SpendLookup) (ins : list OutPointKey) (a : BlockAcc) : Prop :=
  (∀ op s, outpoint_to_spend (acc_self a) !! op = Some s → coin_source m0 (acc_created a) op s) ∧
  (∀ e, e ∈ acc_spends a → ∃ op s, op ∈ ins ∧ sl_uid s = spent_uid e ∧
    sl_creation_height s = creation_height e ∧ coin_source m0 (acc_created a) op s).

Lemma coin_source_mono m0 c1 c2 op s : c1 ⊆ c2 → coin_source m0 c1 op s → coin_source m0 c2 op s.
Proof. intros Hc [?|(c & ? & ?)]; [by left|right]. exists c. split; [by apply Hc|done]. Qed.

Section spends.
Context (m0 : gmap OutPointKey SpendLookup) (op : OutPointKey).

Lemma tracks_input b tx ins a i a' :
  apply_input b tx a i = Ok a' → tracks m0 op ins a → tracks m0 op (ins ++ [ti_previous_output i]) a'.
Proof.
  unfold apply_input. intros H Ht s Hs. specialize (Ht s Hs) as [Hin Hout].
  rewrite elem_of_app, list_elem_of_singleton.
  destruct (outpoint_to_spend (acc_self a) !! ti_previous_output i) as [s'|] eqn:E.
  - apply bind_Ok in H as (c & [-> _]%try_from_Ok & [= <-]). cbn.
    rewrite elem_of_app, list_elem_of_singleton.
    destruct (decide (op = ti_previous_output i)) as [->|Hne].
    + rewrite lookup_delete_eq. split; [|tauto]. intros _. split; [done|].
      destruct (decide (ti_previous_output i ∈ ins)) as [Hi|Hi]; [by left; apply Hin|].
      rewrite (Hout Hi) in E. injection E as <-. by right.
    + rewrite lookup_delete_ne by done. split; [|tauto].
      intros [Hi|?]; [|done]. split; [by apply Hin|left; by apply Hin].
  - injection H as <-. split; [|tauto]. intros [Hi|Heq]; [by apply Hin|].
    destruct (decide (op ∈ ins)) as [Hi|Hi]; [by apply Hin|].
    rewrite <- Heq, (Hout Hi) in E. done.
Qed.

Lemma tracks_output b fu tx ins t o t' :
  {| op_txid := tx_txid tx; op_vout := to_vout o |} ≠ op ∨ to_is_p2tr o = false →
  apply_output b fu tx t o = Ok t' → tracks m0 op ins (ta_acc t) → tracks m0 op ins (ta_acc t').
Proof.
  intros Hop H Ht. unfold apply_output in H.
  destruct (to_is_p2tr o) eqn:Hp; cbn [negb] in H; [|by injection H as <-].
  apply bind_Ok in H as (? & _ & H). apply bind_Ok in H as (? & _ & H). apply bind_Ok in H as (k & _ & H).
  destruct (see_key _ _). destruct (_ || _); [by injection H as <-|].
  do 3 (apply bind_Ok in H as (? & _ & H)). injection H as <-.
  intros s Hs. specialize (Ht s Hs). cbn. destruct Hop as [Hop|]; [|done].
  rewrite lookup_insert_ne by done. done.
Qed.

Lemma sourced_input b tx ins a i a' :
  apply_input b tx a i = Ok a' → sourced m0 ins a → sourced m0 (ins ++ [ti_previous_output i]) a'.
Proof.
  unfold apply_input. intros H [Hm Hs].
  destruct (outpoint_to_spend (acc_self a) !! ti_previous_output i) as [s'|] eqn:E.
  - apply bind_Ok in H as (c & [-> _]%try_from_Ok & [= <-]). split; cbn.
    + intros o s [_ Ho]%lookup_delete_Some. by apply Hm.
    + intros e [He| ->%list_elem_of_singleton]%elem_of_app.
      * destruct (Hs e He) as (o & s & Ho & ?). exists o, s. rewrite elem_of_app. tauto.
      * exists (ti_previous_output i), s'. cbn. split_and!; [|done|done|by apply Hm].
        apply elem_of_app. right. by apply list_elem_of_singleton.
  - injection H as <-. split; [done|]. intros e He. destruct (Hs e He) as (o & s & Ho & ?).
    exists o, s. rewrite elem_of_app. tauto.
Qed.

Lemma sourced_output b fu tx ins t o t' :
  apply_output b fu tx t o = Ok t' → sourced m0 ins (ta_acc t) → sourced m0 ins (ta_acc t').
Proof.
  intros H [Hm Hs]. unfold apply_output in H.
  destruct (to_is_p2tr o) eqn:Hp; cbn [negb] in H; [|by injection H as <-].
  apply bind_Ok in H as (? & _ & H). apply bind_Ok in H as (? & _ & H). apply bind_Ok in H as (k & _ & H).
  destruct (see_key _ _). destruct (_ || _); [by injection H as <-|].
  do 3 (apply bind_Ok in H as (? & _ & H)). injection H as <-. split; cbn.
  - intros o' s [[<- <-]|[_ Ho]]%lookup_insert_Some.
    + right. eexists. rewrite elem_of_app, list_elem_of_singleton. split; [by right|done].
    + eapply coin_source_mono; [|by apply Hm]. set_solver.
  - intros e He. destruct (Hs e He) as (o' & s & ? & ? & ? & Hc). exists o', s. split_and!; try done.
    eapply coin_source_mono; [|exact Hc]. set_solver.
Qed.

(** [txs] creates no indexed output at [op]. *)
Definition not_created (txs : list TxScanInput) : Prop :=
  ∀ tx o, tx ∈ txs → o ∈ tx_outputs tx → to_is_p2tr o = true →
    {| op_txid := tx_txid tx; op_vout := to_vout o |} ≠ op.

Lemma coins_tx b fu n ins a tx a' :
  not_created [tx] → apply_tx b fu n a tx = Ok a' →
  tracks m0 op ins a ∧ sourced m0 ins a →
  tracks m0 op (ins ++ (ti_previous_output <$> tx_inputs tx)) a' ∧
  sourced m0 (ins ++ (ti_previous_output <$> tx_inputs tx)) a'.
Proof.
  intros Hnc H Hc. unfold apply_tx in H. apply bind_Ok in H as (a1 & H1 & H).
  apply bind_Ok in H as (t & H2 & H).
  apply (fold_res_ind (apply_input b tx) (λ l a, tracks m0 op (ins ++ (ti_previous_output <$> l)) a ∧
    sourced m0 (ins ++ (ti_previous_output <$> l)) a)) in H1.
  2:{ cbn. by rewrite app_nil_r. }
  2:{ intros l x s1 s2 [??] Hs. rewrite fmap_app, app_assoc.
      split; [by eapply tracks_input|by eapply sourced_input]. }
  set (ins' := ins ++ _) in *.
  assert (∀ os t0, (∀ o, o ∈ os → o ∈ tx_outputs tx) → fold_res (apply_output b fu tx) t0 os = Ok t →
    tracks m0 op ins' (ta_acc t0) ∧ sourced m0 ins' (ta_acc t0) →
    tracks m0 op ins' (ta_acc t) ∧ sourced m0 ins' (ta_acc t)) as Hos.
  { intros os. induction os as [|o os IH]; intros t0 Hin Hf Ht; cbn [fold_res] in Hf.
    { by injection Hf as <-. }
    apply bind_Ok in Hf as (t1 & Ht1 & Hf). eapply IH; [|exact Hf|].
    { intros. apply Hin. by constructor. }
    destruct Ht. split; [|by eapply sourced_output]. eapply tracks_output; [|exact Ht1|done].
    destruct (to_is_p2tr o) eqn:Hp; [left|by right].
    apply (Hnc tx o); [constructor|apply Hin; constructor|done]. }
  specialize (Hos _ _ (λ _ H, H) H2 H1).
  case_bool_decide; [|apply bind_Ok in H as (? & _ & H)].
  - destruct (tx_silent_payment_tweak tx); by injection H as <-.
  - by injection H as <-.
Qed.

Lemma coins_block `{!Sha256} self b out self' :
  outpoint_to_spend self = m0 → not_created (bk_txs b) →
  apply_block_with_stats self b = Ok (out, self') →
  let ins := ti_previous_output <$> (bk_txs b ≫= tx_inputs) in
  ∃ a, tracks m0 op ins a ∧ sourced m0 ins a ∧ outpoint_to_spend (acc_self a) = outpoint_to_spend self' ∧
    acc_spends a = sb_spends (ab_storage_block out) ∧ acc_created a = ab_created_utxos out.
Proof.
  intros Hm Hnc R ins. unfold apply_block_with_stats, finish_block in R.
  apply bind_Ok in R as (n & _ & R). apply bind_Ok in R as (bm & _ & R).
  apply bind_Ok in R as (a & Ha & R).
  do 4 (apply bind_Ok in R as (? & _ & R)). injection R as <- <-. exists a. cbn.
  enough (tracks m0 op ins a ∧ sourced m0 ins a) by tauto. subst ins.
  match type of Ha with fold_res ?f _ _ = _ =>
    assert (∀ txs ins a0, not_created txs → fold_res f a0 txs = Ok a →
      tracks m0 op ins a0 ∧ sourced m0 ins a0 →
      tracks m0 op (ins ++ (ti_previous_output <$> (txs ≫= tx_inputs))) a ∧
      sourced m0 (ins ++ (ti_previous_output <$> (txs ≫= tx_inputs))) a) as Hgen
  end.
  { induction txs as [|tx txs IH]; intros ins a0 Hn Hf Hc; cbn [fold_res] in Hf.
    { injection Hf as <-. cbn. by rewrite app_nil_r. }
    apply bind_Ok in Hf as (a1 & Ha1 & Hf). rewrite bind_cons, fmap_app, app_assoc.
    eapply IH; [|exact Hf|].
    - intros tx' o Htx'. apply Hn. by constructor.
    - eapply coins_tx; [|exact Ha1|done]. intros tx' o ->%list_elem_of_singleton. apply Hn. constructor. }
  apply (Hgen _ [] _ Hnc Ha). split.
  - intros s Hs. cbn. rewrite Hm. split; [by intros ?%elem_of_nil|done].
  - split; cbn; [rewrite Hm; by left|by intros e ?%elem_of_nil].
Qed.
End spends.

(** ** A concrete block *)
Definition demo_op (n : Z) : OutPointKey := {| op_txid := replicate 32 n; op_vout := 0 |}.
Definition demo_out (vout : Z) (k : Z) (nums : bool) : TxOutputScan := {|
  to_vout := vout; to_value_sat := 1000; to_script_pubkey := [81; 32] ++ replicate 32 k;
  to_p2tr_xonly_key := Some (replicate 32 k); to_is_p2tr := true; to_is_nums := nums |}.
Definition demo_other : TxOutputScan := {|
  to_vout := 1; to_value_sat := 5; to_script_pubkey := [106]; to_p2tr_xonly_key := None;
  to_is_p2tr := false; to_is_nums := false |}.
(** A coinbase paying to P2TR (no tweak: out of scope), and a transaction spending an
    indexed coin with two P2TR outputs in scope. *)
Definition demo_scan : BlockScanInput := {|
  bk_height := 100; bk_block_hash := replicate 32 1; bk_previous_block_hash := replicate 32 0;
  bk_raw_block_bytes := 400;
  bk_txs := [
    {| tx_txid := replicate 32 50; tx_tx_index := 0;
       tx_inputs := [{| ti_previous_output := {| op_txid := replicate 32 0; op_vout := 2 ^ 32 - 1 |};
         ti_script_sig := []; ti_witness := [] |}];
       tx_outputs := [demo_out 0 7 false; demo_other]; tx_silent_payment_tweak := None |};
    {| tx_txid := replicate 32 51; tx_tx_index := 1;
       tx_inputs := [{| ti_previous_output := demo_op 9; ti_script_sig := []; ti_witness := [] |}];
       tx_outputs := [demo_out 0 8 false; demo_other; demo_out 2 8 false];
       tx_silent_payment_tweak := Some (2 :: replicate 32 6) |} ] |}.
Definition demo_state : P2trIndexerState := {|
  next_uid := 10;
  outpoint_to_spend := {[ demo_op 9 := {| sl_uid := 4; sl_creation_height := 90;
    sl_output_index := 0; sl_flags := 0 |} ]};
  live_uid_count := 1; seen_p2tr_keys := Some ∅ |}.

Lemma demo_scan_wf : block_wf demo_scan.
Proof.
  constructor; try (typed_tac; fail); try (vm_compute; congruence).
  - intros [|[|i]] tx [= <-]; done.
  - intros tx t Htx Ht. cbn [demo_scan bk_txs] in Htx. list_cases; subst tx; cbn in Ht; [done|].
    injection Ht as <-. typed_tac.
  - intros tx o Htx Ho Hp. cbn [demo_scan bk_txs] in Htx.
    list_cases; subst tx; cbn [tx_outputs] in Ho; list_cases; subst o; try discriminate Hp;
      (eexists; split; [reflexivity|typed_tac]).
Qed.

Lemma demo_state_wf : indexer_wf 99 demo_state.
Proof.
  split; [vm_compute; congruence|]. cbn [demo_state next_uid outpoint_to_spend]. constructor.
  - intros o s [<- <-]%lookup_singleton_Some. cbn. lia.
  - intros o s [<- <-]%lookup_singleton_Some. cbn. lia.
  - intros o1 o2 s1 s2 [<- <-]%lookup_singleton_Some [<- <-]%lookup_singleton_Some. done.
Qed.

(** ** Properties *)

(** The archive's validator accepts the stored block, the response validator the light one. *)
Definition servable (out : AppliedBlock) : Prop :=
  validate_stored_light_block_input (ab_storage_block out) = Ok tt ∧
  validate_light_block_input (ab_light_block out) = Ok tt.

(** How a block's UIDs are laid out. *)
Record uid_layout (self : P2trIndexerState) (b : BlockScanInput) (out : AppliedBlock)
    (self' : P2trIndexerState) : Prop := {
  (** the block's P2TR outputs take the UIDs after [next_uid], one each *)
  ul_next : next_uid self' = next_uid self + len (p2tr_outs (bk_txs b));
  ul_first : sb_first_uid (ab_storage_block out) = next_uid self + 1;
  (** the slots left out are those of the outputs out of scope, the others are stored in order *)
  ul_skipped : sb_skipped_outputs (ab_storage_block out) = skip_from 0 (p2tr_outs (bk_txs b));
  ul_outputs : Forall2 output_of (sb_outputs (ab_storage_block out)) (dense_from 0 (p2tr_outs (bk_txs b)));
  (** a created output's UID is the first one plus its slot *)
  ul_created : Forall2 (created_of (sb_first_uid (ab_storage_block out))) (ab_created_utxos out)
    (dense_from 0 (p2tr_outs (bk_txs b)));
  (** and is recovered from the stored block alone *)
  ul_recovered : (created (ab_storage_block out)).*1 = (λ c, ue_uid (cu_entry c)) <$> ab_created_utxos out;
  ul_tweaks : sb_tweaks (ab_storage_block out) = omap tx_entry (bk_txs b)
}.

Definition no_reuse_flag (s : StoredLightBlockInput) : Prop := Forall (λ o, flags o = 0) (sb_outputs s).


(** C11: the indexer never builds an unservable block.  From a well-formed state, every
    well-formed block is applied without error or panic; the stored block it builds
    passes the archive's validator, and the light block passes the response validator. *)
Theorem indexer_block_valid `{!Sha256} (self : P2trIndexerState) (b : BlockScanInput) (h : Z)
  (Hself : indexer_wf h self) (Hle : h ≤ bk_height b) (Hb : block_wf b)
  (Hcap : next_uid self + 65538 < 2 ^ 64) :
  ∃ out self', apply_block_with_stats self b = Ok (out, self') ∧
    servable out.
Proof.
  destruct (apply_block_ok self b h Hself Hle Hb Hcap) as (out & self' & Ho & R).
  exists out, self'. split; [done|]. unfold servable. split; [by apply validate_stored_ok; apply R|].
  destruct (to_response_ok _ None (br_typed _ _ _ _ R) (br_valid _ _ _ _ R)) as (c & st & _ & Hr & Ht & Hv).
  rewrite (br_light _ _ _ _ R) in Hr. injection Hr as ->. by apply validate_light_ok.
Qed.

Lemma indexer_block_valid_witness :
  ∃ out self', @apply_block_with_stats toy_sha256 demo_state demo_scan = Ok (out, self') ∧ servable out.
Proof.
  apply (@indexer_block_valid toy_sha256 demo_state demo_scan 99 demo_state_wf); [done|exact demo_scan_wf|done].
Defined.

(** C12: UIDs are the P2TR slots of the block.  The block's P2TR outputs, in order, take
    the slots from [next_uid + 1] on, whether or not they are kept; [next_uid] moves by
    their number; the skipped slots are those of the outputs out of scope, in order;
    and the UID of every created output is [first_uid] plus its slot, so that the
    dense outputs and the skipped list give every UID back. *)
Theorem indexer_uid_slots `{!Sha256} (self : P2trIndexerState) (b : BlockScanInput) (h : Z)
  (Hself : indexer_wf h self) (Hle : h ≤ bk_height b) (Hb : block_wf b)
  (Hcap : next_uid self + 65538 < 2 ^ 64) :
  ∃ out self', apply_block_with_stats self b = Ok (out, self') ∧
    uid_layout self b out self'.
Proof.
  destruct (apply_block_ok self b h Hself Hle Hb Hcap) as (out & self' & Ho & R).
  exists out, self'. split; [done|]. constructor; rewrite ?(br_first_uid _ _ _ _ R); try apply R.
  - done.
  - by eapply block_uids.
Qed.

Lemma indexer_uid_slots_witness :
  ∃ out self', @apply_block_with_stats toy_sha256 demo_state demo_scan = Ok (out, self') ∧
    uid_layout demo_state demo_scan out self'.
Proof.
  apply (@indexer_uid_slots toy_sha256 demo_state demo_scan 99 demo_state_wf); [done|exact demo_scan_wf|done].
Defined.

(** C13: UIDs are unique over the whole chain.  Indexing any list of well-formed blocks
    at non-decreasing heights succeeds, keeps the state well formed, archives only
    valid blocks, and gives every archived output a UID of its own, between the old
    and the new [next_uid]. *)
Theorem indexer_chain_unique_uids `{!Sha256} (h : Z) (self : P2trIndexerState) (blocks : list BlockScanInput)
  (Hself : indexer_wf h self) (Hc : chain_wf h blocks)
  (Hcap : next_uid self + 65538 * (len blocks + 1) < 2 ^ 64) :
  ∃ outs self', apply_blocks self blocks = Ok (outs, self') ∧
    indexer_wf (foldl (λ _ b, bk_height b) h blocks) self' ∧
    Forall (λ out, validate_stored_light_block_input (ab_storage_block out) = Ok tt) outs ∧
    Forall (λ u, next_uid self < u ≤ next_uid self') (outs ≫= λ out, (created (ab_storage_block out)).*1) ∧
    NoDup (outs ≫= λ out, (created (ab_storage_block out)).*1).
Proof.
  destruct (apply_blocks_ok h self blocks Hself Hc Hcap) as (outs & self' & Ho & _ & Hw & Hv & Hu & Hn).
  exists outs, self'. split_and!; try done.
  eapply Forall_impl; [exact Hv|]. intros out [? ?]. by apply validate_stored_ok.
Qed.

Lemma indexer_chain_unique_uids_witness :
  ∃ outs self', @apply_blocks toy_sha256 demo_state [demo_scan] = Ok (outs, self') ∧
    indexer_wf (foldl (λ _ b, bk_height b) 99 [demo_scan]) self' ∧
    Forall (λ out, validate_stored_light_block_input (ab_storage_block out) = Ok tt) outs ∧
    Forall (λ u, next_uid demo_state < u ≤ next_uid self')
      (outs ≫= λ out, (created (ab_storage_block out)).*1) ∧
    NoDup (outs ≫= λ out, (created (ab_storage_block out)).*1).
Proof.
  apply (@indexer_chain_unique_uids toy_sha256 99 demo_state [demo_scan] demo_state_wf); [|done].
  split_and!; [done|exact demo_scan_wf|done].
Defined.


(** The demo block is applied, also by an indexer restored at a UID. *)
Lemma demo_applied self :
  indexer_wf 99 self → next_uid self = 10 →
  ∃ out self', @apply_block_with_stats toy_sha256 self demo_scan = Ok (out, self').
Proof.
  intros Hs Hn. destruct (@apply_block_ok toy_sha256 self demo_scan 99 Hs) as (out & self' & Ha & _);
    [done|exact demo_scan_wf|by rewrite Hn|]. by exists out, self'.
Qed.

Lemma demo_not_created : not_created (demo_op 9) (bk_txs demo_scan).
Proof.
  intros tx o Htx _ _ E. apply (f_equal (λ x, head (op_txid x))) in E.
  cbn [demo_scan bk_txs] in Htx. list_cases; subst tx; vm_compute in E; discriminate E.
Qed.

Lemma restore_at_uid_wf u h : 0 ≤ u → indexer_wf h (restore_at_uid u).
Proof. intros Hu. split; [done|]. by constructor; cbn; intros *; rewrite lookup_empty. Qed.


(** Without reuse tracking no output is ever flagged.  From any state whose set of
    seen keys is absent, as [restore_at_uid] (the one the indexer runs with),
    [restore_counts_only] and [restore_without_reuse_tracking] build it, every archived
    output has flags 0: the reuse filter of the server has nothing to remove. *)
Theorem untracked_reuse_never_flagged `{!Sha256} (self : P2trIndexerState) (b : BlockScanInput)
  (out : AppliedBlock) (self' : P2trIndexerState)
  (Hseen : seen_p2tr_keys self = None) (Ha : apply_block_with_stats self b = Ok (out, self')) :
  no_reuse_flag (ab_storage_block out) ∧ seen_p2tr_keys self' = None.
Proof.
  unfold apply_block_with_stats, finish_block in Ha.
  apply bind_Ok in Ha as (n & _ & Ha). apply bind_Ok in Ha as (bm & _ & Ha).
  apply bind_Ok in Ha as (a & Hf & Ha).
  do 4 (apply bind_Ok in Ha as (? & _ & Ha)). injection Ha as <- <-. cbn.
  apply (fold_res_ind _ (λ _, unflagged)) in Hf.
  - destruct Hf. done.
  - split; [done|constructor].
  - intros _ tx a1 a2 Hu Htx. by eapply unflagged_tx.
Qed.

Lemma untracked_reuse_never_flagged_witness :
  ∃ out self', @apply_block_with_stats toy_sha256 (restore_at_uid 10) demo_scan = Ok (out, self') ∧
    no_reuse_flag (ab_storage_block out) ∧ seen_p2tr_keys self' = None.
Proof.
  destruct (demo_applied (restore_at_uid 10) (restore_at_uid_wf 10 99 ltac:(lia)) eq_refl)
    as (out & self' & Ha).
  exists out, self'. split; [exact Ha|].
  exact (@untracked_reuse_never_flagged toy_sha256 (restore_at_uid 10) demo_scan out self' eq_refl Ha).
Defined.
