(* ===== verification/ScriptClassify.v ===== *)
(** * Script classification of the light archive

    Model of [light-server/src/script_classify.rs].  The template predicates of
    [bitcoin::Script] are a parameter: the class [ScriptTemplates] holds them with
    their documented shapes (the byte templates of the standard scripts and of
    BIP141) as laws.  The source slices the payload out of the script once the
    library has recognised the template; that none of these slices and copies
    panics is part of [classify_script_iff]. *)

From S2P Require Import Prelude Helper.

Definition p2pkh_bytes (h : bytes) : bytes := [118; 169; 20] ++ h ++ [136; 172].
Definition p2sh_bytes (h : bytes) : bytes := [169; 20] ++ h ++ [135].
Definition p2wpkh_bytes (h : bytes) : bytes := [0; 20] ++ h.
Definition p2wsh_bytes (h : bytes) : bytes := [0; 32] ++ h.
Definition p2tr_bytes (k : bytes) : bytes := [81; 32] ++ k.
Definition p2pk_bytes (k : bytes) : bytes := [len k] ++ k ++ [172].

(** BIP141: a version opcode followed by one direct push of 2 to 40 bytes. *)
Definition version_opcode (op : Z) : bool := bool_decide (op = 0) || bool_decide (81 ≤ op ≤ 96).
Definition witness_program_shape (s : bytes) : Prop :=
  ∃ op p, s = [op; len p] ++ p ∧ version_opcode op = true ∧ (2 ≤ length p ≤ 40)%nat.

Class ScriptTemplates := {
  s_is_p2pk : bytes → bool;
  s_is_p2pkh : bytes → bool;
  s_is_p2sh : bytes → bool;
  s_is_p2wpkh : bytes → bool;
  s_is_p2wsh : bytes → bool;
  s_is_p2tr : bytes → bool;
  s_is_witness_program : bytes → bool;
  s_is_op_return : bytes → bool;
  s_is_p2pk_spec s : s_is_p2pk s = true ↔ ∃ k, (length k = 33 ∨ length k = 65)%nat ∧ s = p2pk_bytes k;
  s_is_p2pkh_spec s : s_is_p2pkh s = true ↔ ∃ h, length h = 20%nat ∧ s = p2pkh_bytes h;
  s_is_p2sh_spec s : s_is_p2sh s = true ↔ ∃ h, length h = 20%nat ∧ s = p2sh_bytes h;
  s_is_p2wpkh_spec s : s_is_p2wpkh s = true ↔ ∃ h, length h = 20%nat ∧ s = p2wpkh_bytes h;
  s_is_p2wsh_spec s : s_is_p2wsh s = true ↔ ∃ h, length h = 32%nat ∧ s = p2wsh_bytes h;
  s_is_p2tr_spec s : s_is_p2tr s = true ↔ ∃ k, length k = 32%nat ∧ s = p2tr_bytes k;
  s_is_witness_program_spec s : s_is_witness_program s = true ↔ witness_program_shape s;
  s_is_op_return_spec s : s_is_op_return s = true ↔ head s = Some 106
}.

Inductive ScriptKind :=
  | KP2pkh (hash160 : bytes)
  | KP2sh (hash160 : bytes)
  | KP2wpkh (hash160 : bytes)
  | KP2wsh (sha256 : bytes)
  | KP2tr (xonly_key : bytes)
  | KWitnessUnknown (version : Z) (program_len : Z)
  | KOpReturn
  | KOther.
#[export] Instance ScriptKind_eq_dec : EqDecision ScriptKind.
Proof. solve_decision. Defined.

(** [copy_from_slice] panics unless the lengths agree. *)
Definition copy_20 (b : bytes) : res bytes :=
  if bool_decide (length b = 20%nat) then Ok b else Panic "source slice length does not match destination slice length".
Definition copy_32 (b : bytes) : res bytes :=
  if bool_decide (length b = 32%nat) then Ok b else Panic "source slice length does not match destination slice length".

Section classify.
Context `{!ScriptTemplates}.

Definition classify_script (script_bytes : bytes) : res ScriptKind :=
  if s_is_p2pkh script_bytes then
    b ← slice script_bytes 3 23; h ← copy_20 b; Ok (KP2pkh h)
  else if s_is_p2sh script_bytes then
    b ← slice script_bytes 2 22; h ← copy_20 b; Ok (KP2sh h)
  else if s_is_p2wpkh script_bytes then
    b ← slice script_bytes 2 22; h ← copy_20 b; Ok (KP2wpkh h)
  else if s_is_p2wsh script_bytes then
    b ← slice script_bytes 2 34; h ← copy_32 b; Ok (KP2wsh h)
  else if s_is_p2tr script_bytes then
    b ← slice script_bytes 2 34; h ← copy_32 b; Ok (KP2tr h)
  else if s_is_witness_program script_bytes then
    op ← index script_bytes 0;
    let program_len := default 0 (script_bytes !! 1%nat) in
    if bool_decide (op = 0) then Ok (KWitnessUnknown 0 program_len)
    else if bool_decide (81 ≤ op ≤ 96) then Ok (KWitnessUnknown (op - 80) program_len)
    else Ok KOther
  else if s_is_op_return script_bytes then Ok KOpReturn
  else Ok KOther.

Definition extract_p2tr_xonly (script : bytes) : res (option bytes) :=
  k ← classify_script script;
  Ok (match k with KP2tr xonly_key => Some xonly_key | _ => None end).

Definition is_p2tr (script : bytes) : bool := s_is_p2tr script.
Definition is_op_return (script : bytes) : bool := s_is_op_return script.

End classify.

(** ** Specification: the shape each kind stands for *)

Definition standard_shape (s : bytes) : Prop :=
  ∃ h, (length h = 20%nat ∧ (s = p2pkh_bytes h ∨ s = p2sh_bytes h ∨ s = p2wpkh_bytes h)) ∨
       (length h = 32%nat ∧ (s = p2wsh_bytes h ∨ s = p2tr_bytes h)).

Definition has_kind (k : ScriptKind) (s : bytes) : Prop :=
  match k with
  | KP2pkh h => length h = 20%nat ∧ s = p2pkh_bytes h
  | KP2sh h => length h = 20%nat ∧ s = p2sh_bytes h
  | KP2wpkh h => length h = 20%nat ∧ s = p2wpkh_bytes h
  | KP2wsh h => length h = 32%nat ∧ s = p2wsh_bytes h
  | KP2tr x => length x = 32%nat ∧ s = p2tr_bytes x
  | KWitnessUnknown v n =>
      ¬ standard_shape s ∧ (0 ≤ v ≤ 16) ∧
      ∃ p, (2 ≤ length p ≤ 40)%nat ∧ n = len p ∧ s = [if bool_decide (v = 0) then 0 else v + 80; n] ++ p
  | KOpReturn => head s = Some 106
  | KOther => ¬ standard_shape s ∧ ¬ witness_program_shape s ∧ head s ≠ Some 106
  end.

Lemma copy_20_ok b : length b = 20%nat → copy_20 b = Ok b.
Proof. intros Hl. unfold copy_20. by rewrite bool_decide_true. Qed.
Lemma copy_32_ok b : length b = 32%nat → copy_32 b = Ok b.
Proof. intros Hl. unfold copy_32. by rewrite bool_decide_true. Qed.

Ltac unfold_shapes :=
  unfold p2pkh_bytes, p2sh_bytes, p2wpkh_bytes, p2wsh_bytes, p2tr_bytes in *.

(** The kinds of the five templates a payload is extracted from. *)
Definition standard_kind (k : ScriptKind) : bool :=
  match k with KP2pkh _ | KP2sh _ | KP2wpkh _ | KP2wsh _ | KP2tr _ => true | _ => false end.

Lemma has_kind_standard k s : standard_kind k = true → has_kind k s → standard_shape s.
Proof. intros Hk Hs. destruct k as [h|h|h|h|h| | |]; try done; exists h; simpl in Hs; tauto. Qed.

Lemma standard_kind_inj k k' s :
  standard_kind k = true → standard_kind k' = true → has_kind k s → has_kind k' s → k = k'.
Proof.
  intros Hk Hk'. destruct k, k'; try done; simpl; intros [_ ->] [_ E]; unfold_shapes; simpl in E;
    try discriminate E; injection E; intros E'; try apply app_inv_tail in E'; by subst.
Qed.

Lemma witness_head v n s : has_kind (KWitnessUnknown v n) s →
  ∃ op, version_opcode op = true ∧ head s = Some op ∧ s !! 1%nat = Some n ∧ v = (if bool_decide (op = 0) then 0 else op - 80).
Proof.
  intros (_ & Hv & p & _ & _ & ->). eexists. split_and!; [|done|done|]; unfold version_opcode;
    repeat case_bool_decide; simpl; try done; lia.
Qed.
Lemma witness_shape v n s : has_kind (KWitnessUnknown v n) s → witness_program_shape s.
Proof.
  intros (_ & Hv & p & Hp & -> & ->). eexists _, p. split_and!; [done| |lia|lia].
  unfold version_opcode. repeat case_bool_decide; simpl; try done; lia.
Qed.

(** A script has one kind. *)
Lemma has_kind_inj k k' s : has_kind k s → has_kind k' s → k = k'.
Proof.
  intros H1 H2. destruct (standard_kind k) eqn:E1, (standard_kind k') eqn:E2.
  - by eapply standard_kind_inj.
  - pose proof (has_kind_standard _ _ E1 H1) as Hs. destruct k'; try done; try by destruct H2.
    destruct k; try done; simpl in *; destruct H1 as [_ ->]; done.
  - pose proof (has_kind_standard _ _ E2 H2) as Hs. destruct k; try done; try by destruct H1.
    destruct k'; try done; simpl in *; destruct H2 as [_ ->]; done.
  - destruct k as [| | | | |v n| |], k' as [| | | | |v' n'| |]; try done.
    + apply witness_head in H1 as (op & _ & Ho & Hn & ->), H2 as (op' & _ & Ho' & Hn' & ->).
      rewrite Ho in Ho'. injection Ho' as ->. rewrite Hn in Hn'. by injection Hn' as ->.
    + apply witness_head in H1 as (op & Hv & Ho & _). simpl in H2. rewrite H2 in Ho. injection Ho as <-. done.
    + apply witness_shape in H1. by destruct H2 as (_ & ? & _).
    + apply witness_head in H2 as (op & Hv & Ho & _). simpl in H1. rewrite H1 in Ho. injection Ho as <-. done.
    + simpl in *. naive_solver.
    + apply witness_shape in H2. by destruct H1 as (_ & ? & _).
    + simpl in *. naive_solver.
Qed.

Section classify_proofs.
Context `{!ScriptTemplates}.

Lemma bool_false_not (b : bool) (P : Prop) : (b = true ↔ P) → b = false → ¬ P.
Proof. intros [_ H2] -> HP. by apply H2 in HP. Qed.

Ltac template E spec :=
  lazymatch type of E with
  | _ = true => apply spec in E
  | _ = false => apply (bool_false_not _ _ (spec _)) in E
  end.

(** Extraction of the payload of a recognised template. *)
Ltac payload pre h :=
  unfold_shapes; rewrite (slice_middle pre h) by (simpl; lia); rsimpl;
  rewrite ?copy_20_ok, ?copy_32_ok by done; rsimpl; done.

Lemma classify_witness s :
  ¬ standard_shape s → witness_program_shape s →
  ∃ k, (op ← index s 0;
        let program_len := default 0 (s !! 1%nat) in
        if bool_decide (op = 0) then Ok (KWitnessUnknown 0 program_len)
        else if bool_decide (81 ≤ op ≤ 96) then Ok (KWitnessUnknown (op - 80) program_len)
        else Ok KOther) = Ok k ∧ has_kind k s.
Proof.
  intros Hs (op & p & -> & Hop & Hp). unfold version_opcode in Hop.
  rewrite (index_ok _ 0 op) by done. rsimpl. cbn [lookup list_lookup app default].
  destruct (decide (op = 0)) as [->|Hne].
  - eexists. split; [reflexivity|]. split; [done|]. split; [lia|]. by exists p.
  - rewrite bool_decide_false in Hop by done. simpl in Hop. apply bool_decide_eq_true in Hop.
    rewrite bool_decide_false by done. rewrite bool_decide_true by done.
    eexists. split; [reflexivity|]. split; [done|]. split; [lia|]. exists p. split; [done|]. split; [done|].
    rewrite bool_decide_false by lia. by replace (op - 80 + 80) with op by lia.
Qed.

Lemma classify_sound s : ∃ k, classify_script s = Ok k ∧ has_kind k s.
Proof.
  unfold classify_script.
  destruct (s_is_p2pkh s) eqn:E1; template E1 s_is_p2pkh_spec.
  { destruct E1 as (h & Hh & ->). exists (KP2pkh h). split; [payload [118; 169; 20] h|done]. }
  destruct (s_is_p2sh s) eqn:E2; template E2 s_is_p2sh_spec.
  { destruct E2 as (h & Hh & ->). exists (KP2sh h). split; [payload [169; 20] h|done]. }
  destruct (s_is_p2wpkh s) eqn:E3; template E3 s_is_p2wpkh_spec.
  { destruct E3 as (h & Hh & ->). exists (KP2wpkh h). split; [|done].
    rewrite <-(app_nil_r h) at 1. payload [0; 20] h. }
  destruct (s_is_p2wsh s) eqn:E4; template E4 s_is_p2wsh_spec.
  { destruct E4 as (h & Hh & ->). exists (KP2wsh h). split; [|done].
    rewrite <-(app_nil_r h) at 1. payload [0; 32] h. }
  destruct (s_is_p2tr s) eqn:E5; template E5 s_is_p2tr_spec.
  { destruct E5 as (h & Hh & ->). exists (KP2tr h). split; [|done].
    rewrite <-(app_nil_r h) at 1. payload [81; 32] h. }
  assert (Hs : ¬ standard_shape s) by (intros (h & [[? [?|[?|?]]]|[? [?|?]]]); eauto 6).
  destruct (s_is_witness_program s) eqn:E6; template E6 s_is_witness_program_spec.
  { by apply classify_witness. }
  destruct (s_is_op_return s) eqn:E7; template E7 s_is_op_return_spec; eexists; split; eauto.
  by split_and!.
Qed.

(** ** Theorem *)

(** C19: the classifier never panics, and the kind it returns is the one whose
    documented byte template the script has: the payload of a standard template is
    exactly the hash or key the script pushes, a witness program of another version
    or size carries its version and length, and every script has exactly one kind. *)
Theorem classify_script_iff s k : classify_script s = Ok k ↔ has_kind k s.
Proof.
  destruct (classify_sound s) as (k' & Hc & Hk'). split.
  - intros H1. rewrite Hc in H1. by injection H1 as <-.
  - intros H1. by rewrite Hc, (has_kind_inj k k' s H1 Hk').
Qed.

Lemma classify_p2wpkh s h : classify_script s = Ok (KP2wpkh h) → length h = 20%nat ∧ s = p2wpkh_bytes h.
Proof.
  intros H1. destruct (classify_sound s) as (k' & Hc & Hk').
  rewrite H1 in Hc. by injection Hc as <-.
Qed.

End classify_proofs.

(** ** A concrete instance: the templates spelled out *)

Definition t_p2pk (s : bytes) : bool :=
  bool_decide (length s = 35%nat ∨ length s = 67%nat) && bool_decide (head s = Some (len s - 2)) &&
  bool_decide (last s = Some 172).
Definition t_p2pkh (s : bytes) : bool :=
  bool_decide (length s = 25%nat) && bool_decide (take 3 s = [118; 169; 20]) && bool_decide (drop 23 s = [136; 172]).
Definition t_p2sh (s : bytes) : bool :=
  bool_decide (length s = 23%nat) && bool_decide (take 2 s = [169; 20]) && bool_decide (drop 22 s = [135]).
Definition t_push (pre : bytes) (n : nat) (s : bytes) : bool :=
  bool_decide (length s = n) && bool_decide (take 2 s = pre).
Definition t_witness (s : bytes) : bool :=
  match s with
  | op :: n :: p => version_opcode op && bool_decide (n = len p) && bool_decide (2 ≤ length p ≤ 40)%nat
  | _ => false
  end.

Lemma t_push_spec a b n s :
  t_push [a; b] (S (S n)) s = true ↔ ∃ h, length h = n ∧ s = [a; b] ++ h.
Proof.
  unfold t_push. rewrite andb_true_iff, !bool_decide_eq_true. split.
  - intros [Hl Ht]. exists (drop 2 s). rewrite length_drop, <-Ht, take_drop. split; [lia|done].
  - intros (h & Hh & ->). simpl. split; [lia|done].
Qed.

Lemma t_framed_spec (pre post : bytes) n s :
  bool_decide (length s = (length pre + n + length post)%nat) && bool_decide (take (length pre) s = pre) &&
  bool_decide (drop (length pre + n) s = post) = true ↔ ∃ h, length h = n ∧ s = pre ++ h ++ post.
Proof.
  rewrite !andb_true_iff, !bool_decide_eq_true. split.
  - intros [[Hl Ht] Hd]. exists (take n (drop (length pre) s)).
    rewrite length_take, length_drop. split; [lia|].
    assert (Hd' : drop n (drop (length pre) s) = post) by (by rewrite drop_drop).
    rewrite <-Hd'. rewrite take_drop. rewrite <-Ht at 1. by rewrite take_drop.
  - intros (h & Hh & ->). rewrite !length_app. split_and!; [lia|by rewrite take_app_length|].
    rewrite <-drop_drop, drop_app_length. by rewrite drop_app_exact.
Qed.

#[local] Program Instance concrete_templates : ScriptTemplates := {|
  s_is_p2pk := t_p2pk; s_is_p2pkh := t_p2pkh; s_is_p2sh := t_p2sh;
  s_is_p2wpkh := t_push [0; 20] 22; s_is_p2wsh := t_push [0; 32] 34; s_is_p2tr := t_push [81; 32] 34;
  s_is_witness_program := t_witness; s_is_op_return s := bool_decide (head s = Some 106)
|}.
Next Obligation.
  intros s. unfold t_p2pk, p2pk_bytes. rewrite !andb_true_iff, !bool_decide_eq_true. split.
  - intros [[Hl Hh] Hla]. destruct s as [|x t]; [done|]. simpl in Hh. injection Hh as ->.
    apply last_Some in Hla as [t' Ht]. destruct t' as [|y t']; [simpl in Ht; by destruct Hl; simplify_eq/=|].
    simpl in Ht. injection Ht as _ ->. exists t'. simpl in Hl. rewrite length_app in Hl. simpl in Hl.
    split; [lia|]. simpl. rewrite length_app. simpl. do 2 f_equal. lia.
  - intros (k & Hk & ->). simpl. rewrite length_app. simpl. split_and!; [lia|f_equal; lia|].
    by rewrite app_comm_cons, last_snoc.
Qed.
Next Obligation. intros s. apply (t_framed_spec [118; 169; 20] [136; 172] 20). Qed.
Next Obligation. intros s. apply (t_framed_spec [169; 20] [135] 20). Qed.
Next Obligation. intros s. apply t_push_spec. Qed.
Next Obligation. intros s. apply t_push_spec. Qed.
Next Obligation. intros s. apply t_push_spec. Qed.
Next Obligation.
  intros s. unfold witness_program_shape. split.
  - destruct s as [|op [|n p]]; try done. simpl. rewrite !andb_true_iff, !bool_decide_eq_true.
    intros [[Hop ->] Hp]. by exists op, p.
  - intros (op & p & -> & Hop & Hp). simpl. by rewrite Hop, !bool_decide_true.
Qed.
Next Obligation. intros s. apply bool_decide_eq_true. Qed.
Definition std_templates : ScriptTemplates := concrete_templates.
