(* ===== verification/ScriptType.v ===== *)
(** * Script types of the statistics

    Model of [stats/src/script.rs]: the classification of outputs by script type and
    the per-block counters.  The counters are [u64] and wrap, as the unchecked
    additions of an optimised build do. *)

From S2P Require Import Prelude Helper ScriptClassify.

Inductive ScriptType := P2pk | P2pkh | P2sh | P2wpkh | P2wsh | P2tr | P2a | OpReturn | Unknown.
#[export] Instance ScriptType_eq_dec : EqDecision ScriptType.
Proof. solve_decision. Defined.

Definition ALL : list ScriptType := [P2pk; P2pkh; P2sh; P2wpkh; P2wsh; P2tr; P2a; OpReturn; Unknown].

Definition to_u8 (t : ScriptType) : Z :=
  match t with
  | P2pk => 0 | P2pkh => 1 | P2sh => 2 | P2wpkh => 3 | P2wsh => 4 | P2tr => 5 | P2a => 6
  | OpReturn => 7 | Unknown => 8
  end.

Definition from_u8 (value : Z) : ScriptType :=
  match value with
  | 0 => P2pk | 1 => P2pkh | 2 => P2sh | 3 => P2wpkh | 4 => P2wsh | 5 => P2tr | 6 => P2a
  | 7 => OpReturn | _ => Unknown
  end.

Definition as_str (t : ScriptType) : string :=
  match t with
  | P2pk => "p2pk" | P2pkh => "p2pkh" | P2sh => "p2sh" | P2wpkh => "p2wpkh" | P2wsh => "p2wsh"
  | P2tr => "p2tr" | P2a => "p2a" | OpReturn => "op_return" | Unknown => "unknown"
  end.

Definition is_p2a (b : bytes) : bool :=
  bool_decide (length b = 4%nat) && bool_decide (b !! 0%nat = Some 81) && bool_decide (b !! 1%nat = Some 2) &&
  bool_decide (b !! 2%nat = Some 78) && bool_decide (b !! 3%nat = Some 115).

Definition classify_script_type `{!ScriptTemplates} (script : bytes) : ScriptType :=
  if is_p2a script then P2a
  else if s_is_p2tr script then P2tr
  else if s_is_p2wpkh script then P2wpkh
  else if s_is_p2wsh script then P2wsh
  else if s_is_p2sh script then P2sh
  else if s_is_p2pkh script then P2pkh
  else if s_is_p2pk script then P2pk
  else if s_is_op_return script then OpReturn
  else Unknown.

Record TypeCounts := {
  c_p2pk : Z; c_p2pkh : Z; c_p2sh : Z; c_p2wpkh : Z; c_p2wsh : Z; c_p2tr : Z; c_p2a : Z;
  c_op_return : Z; c_unknown : Z
}.
Definition counts_default : TypeCounts := Build_TypeCounts 0 0 0 0 0 0 0 0 0.

(** The counter of a type, and a counter-wise update. *)
Definition get (c : TypeCounts) (t : ScriptType) : Z :=
  match t with
  | P2pk => c_p2pk c | P2pkh => c_p2pkh c | P2sh => c_p2sh c | P2wpkh => c_p2wpkh c | P2wsh => c_p2wsh c
  | P2tr => c_p2tr c | P2a => c_p2a c | OpReturn => c_op_return c | Unknown => c_unknown c
  end.
Definition build (f : ScriptType → Z) : TypeCounts :=
  Build_TypeCounts (f P2pk) (f P2pkh) (f P2sh) (f P2wpkh) (f P2wsh) (f P2tr) (f P2a) (f OpReturn) (f Unknown).

Definition record (self : TypeCounts) (t : ScriptType) : TypeCounts :=
  build (λ u, if bool_decide (u = t) then wrap 64 (get self u + 1) else get self u).
Definition merge (self other : TypeCounts) : TypeCounts :=
  build (λ u, wrap 64 (get self u + get other u)).

Record ScriptCounts := { sc_outputs : TypeCounts; sc_inputs : TypeCounts }.

(** ** Specification *)

(** The type a script of a given kind of the light archive has. *)
Definition kind_type `{!ScriptTemplates} (s : bytes) (k : ScriptKind) : ScriptType :=
  match k with
  | KP2pkh _ => P2pkh | KP2sh _ => P2sh | KP2wpkh _ => P2wpkh | KP2wsh _ => P2wsh | KP2tr _ => P2tr
  | KWitnessUnknown _ _ => if bool_decide (s = [81; 2; 78; 115]) then P2a else Unknown
  | KOpReturn => OpReturn
  | KOther => if s_is_p2pk s then P2pk else Unknown
  end.

(** The number of occurrences of each type, modulo the counter width. *)
Definition count (t : ScriptType) (l : list ScriptType) : Z := len (filter (λ u, u = t) l).
Definition counts_of (l : list ScriptType) : TypeCounts := build (λ t, wrap 64 (count t l)).

Lemma is_p2a_spec s : is_p2a s = bool_decide (s = [81; 2; 78; 115]).
Proof.
  apply eq_bool_prop_intro; unfold is_p2a.
  rewrite !andb_True, !bool_decide_spec. split; [|by intros ->].
  intros ((((Hl & H0) & H1) & H2) & H3).
  destruct s as [|a [|b [|c [|d [|]]]]]; try done. simpl in *. congruence.
Qed.

Lemma get_build f t : get (build f) t = f t.
Proof. by destruct t. Qed.
Lemma build_ext f g : (∀ t, f t = g t) → build f = build g.
Proof. intros E. unfold build. by rewrite !E. Qed.

Lemma count_app t l1 l2 : count t (l1 ++ l2) = count t l1 + count t l2.
Proof. unfold count. rewrite filter_app, length_app. lia. Qed.

Lemma count_single u t : count u [t] = if bool_decide (u = t) then 1 else 0.
Proof. unfold count. rewrite filter_cons, filter_nil. case_decide; case_bool_decide; by subst. Qed.

Lemma wrap_add_wrap w a b : wrap w (wrap w a + b) = wrap w (a + b).
Proof. unfold wrap. apply Zplus_mod_idemp_l. Qed.

Lemma record_counts l t : record (counts_of l) t = counts_of (l ++ [t]).
Proof.
  unfold record, counts_of. apply build_ext. intros u. rewrite get_build, count_app, count_single.
  case_bool_decide; [apply wrap_add_wrap|by rewrite Z.add_0_r].
Qed.

Lemma fold_record l l' : foldl record (counts_of l) l' = counts_of (l ++ l').
Proof.
  revert l. induction l' as [|t l' IH]; intros l; simpl; [by rewrite app_nil_r|].
  by rewrite record_counts, IH, <-app_assoc.
Qed.

Lemma p2a_kind s : s = [81; 2; 78; 115] → has_kind (KWitnessUnknown 1 2) s.
Proof.
  intros ->. split; [|split; [lia|]].
  - intros (h & [[Hl [E|[E|E]]]|[Hl [E|E]]]); unfold_shapes; simplify_eq/=.
  - exists [78; 115]. split; [simpl; lia|done].
Qed.

Lemma p2pk_kind s x : (length x = 33 ∨ length x = 65)%nat → s = p2pk_bytes x → has_kind KOther s.
Proof.
  intros Hx ->. unfold p2pk_bytes. split_and!.
  - intros (h & [[Hl [E|[E|E]]]|[Hl [E|E]]]); unfold_shapes;
      apply (f_equal head) in E; simpl in E; injection E; lia.
  - intros (op & p & E & Hop & _). apply (f_equal head) in E. simpl in E. injection E as <-.
    destruct Hx as [Hx|Hx]; by rewrite Hx in Hop.
  - simpl. destruct Hx as [Hx|Hx]; by rewrite Hx.
Qed.

(** A template both classifiers use: when it matches, the kind is [k]. *)
Ltac standard_case spec kind :=
  lazymatch goal with
  | Hs : has_kind ?k ?s |- (if ?b then _ else _) = _ =>
      let E := fresh "E" in let x := fresh "x" in let Hx := fresh "Hx" in
      destruct b eqn:E;
      [apply spec in E as (x & Hx); by rewrite (has_kind_inj k (kind x) s Hs Hx)
      |apply (bool_false_not _ _ (spec _)) in E]
  end.

(** ** Theorems *)

(** The script types of the statistics and the script kinds of the light archive
    agree on every script: the order in which the two classifiers try the templates
    does not matter, the only refinement being that the statistics single out the
    pay-to-anchor program and the pay-to-pubkey template. *)
Theorem script_type_kind `{!ScriptTemplates} s k :
  classify_script s = Ok k → classify_script_type s = kind_type s k.
Proof.
  intros Hk. destruct (classify_sound s) as (k' & Hc & Hs). rewrite Hk in Hc. injection Hc as <-.
  unfold classify_script_type. rewrite is_p2a_spec.
  case_bool_decide as Ea; [by rewrite (has_kind_inj k _ s Hs (p2a_kind s Ea)), Ea|].
  standard_case s_is_p2tr_spec KP2tr.
  standard_case s_is_p2wpkh_spec KP2wpkh.
  standard_case s_is_p2wsh_spec KP2wsh.
  standard_case s_is_p2sh_spec KP2sh.
  standard_case s_is_p2pkh_spec KP2pkh.
  destruct (s_is_p2pk s) eqn:E6.
  { pose proof E6 as (x & Hx & Ex)%s_is_p2pk_spec.
    rewrite (has_kind_inj k _ s Hs (p2pk_kind s x Hx Ex)). simpl. by rewrite E6. }
  destruct (s_is_op_return s) eqn:E7.
  { by rewrite (has_kind_inj k KOpReturn s Hs (proj1 (s_is_op_return_spec s) E7)). }
  apply (bool_false_not _ _ (s_is_op_return_spec _)) in E7.
  destruct k; simpl in *; rewrite ?E6, ?bool_decide_false by done; try done; exfalso; eauto.
Qed.

(** Recording the types of a list of scripts counts each of them modulo 2^64, and
    merging the counters of two lists gives the counters of their concatenation. *)
Theorem type_counts_merge l1 l2 :
  foldl record counts_default l1 = counts_of l1 ∧
  merge (foldl record counts_default l1) (foldl record counts_default l2) =
  foldl record counts_default (l1 ++ l2).
Proof.
  change counts_default with (counts_of []). rewrite !fold_record. simpl. split; [done|].
  unfold merge, counts_of. apply build_ext. intros t. rewrite !get_build, count_app.
  unfold wrap. by rewrite <-Zplus_mod.
Qed.

Lemma script_type_kind_witness :
  @classify_script std_templates [81; 2; 78; 115] = Ok (KWitnessUnknown 1 2) ∧
  @classify_script_type std_templates [81; 2; 78; 115] = P2a.
Proof.
  split; [vm_compute; reflexivity|].
  apply (@script_type_kind std_templates [81; 2; 78; 115] (KWitnessUnknown 1 2)). vm_compute. reflexivity.
Defined.
