(* ===== verification/SpTweak.v ===== *)
(** * Silent Payments scan points

    Model of [light-server/src/sp_tweak.rs]: the pushes of a script, the BIP352 key of
    an input, and the scan point of a transaction.

    The elliptic-curve operations ([secp256k1]) and HASH160 ([bitcoin_hashes]) are
    parameters: the class [Secp] with the algebra the code relies on (the sum of keys
    does not depend on their order, a compressed key has 33 bytes), and [Hash160] with
    its digest size.  The payload a library error carries is not kept. *)

From S2P Require Import Prelude Helper TaggedHash P2trIndexer ScriptClassify.

Class Secp := {
  PublicKey : Type;
  XOnlyPublicKey : Type;
  Scalar : Type;
  from_slice : bytes → option PublicKey;
  serialize : PublicKey → bytes;
  xonly_from_slice : bytes → option XOnlyPublicKey;
  xonly_serialize : XOnlyPublicKey → bytes;
  public_key_even : XOnlyPublicKey → PublicKey;
  combine_keys : list PublicKey → option PublicKey;
  from_be_bytes : bytes → option Scalar;
  mul_tweak : PublicKey → Scalar → option PublicKey;
  serialize_wf k : array_wf 33 (serialize k);
  xonly_serialize_wf k : array_wf 32 (xonly_serialize k);
  xonly_from_serialize k : xonly_from_slice (xonly_serialize k) = Some k;
  xonly_serialize_from b k : xonly_from_slice b = Some k → xonly_serialize k = b;
  combine_keys_perm l l' : l ≡ₚ l' → combine_keys l = combine_keys l'
}.

Class Hash160 := {
  hash160 : bytes → bytes;
  hash160_wf m : array_wf 20 (hash160 m)
}.

(** ** Script pushes *)

(** The length read after a push opcode, at [i]: [inl] is a [break], [inr (len, i)]
    the length and the position after it; [None] is the [continue] of an opcode that
    pushes nothing. *)
Definition push_len (script : bytes) (opcode : Z) (i : nat) : res (option (option (nat * nat))) :=
  if bool_decide (1 ≤ opcode ≤ 75) then Ok (Some (Some (Z.to_nat opcode, i)))
  else if bool_decide (opcode = 76) then
    if bool_decide (length script ≤ i)%nat then Ok (Some None)
    else b ← index script i; Ok (Some (Some (Z.to_nat b, (i + 1)%nat)))
  else if bool_decide (opcode = 77) then
    if bool_decide (length script < i + 2)%nat then Ok (Some None)
    else
      b0 ← index script i; b1 ← index script (i + 1);
      Ok (Some (Some (Z.to_nat (from_le [b0; b1]), (i + 2)%nat)))
  else if bool_decide (opcode = 78) then
    if bool_decide (length script < i + 4)%nat then Ok (Some None)
    else
      b0 ← index script i; b1 ← index script (i + 1); b2 ← index script (i + 2); b3 ← index script (i + 3);
      Ok (Some (Some (Z.to_nat (from_le [b0; b1; b2; b3]), (i + 4)%nat)))
  else Ok None.

(** Every iteration consumes the opcode, so [length script] iterations suffice. *)
Fixpoint pushes_loop (fuel : nat) (script : bytes) (i : nat) (pushes : list bytes) : res (list bytes) :=
  if bool_decide (i < length script)%nat then
    match fuel with
    | O => Err "out of fuel"
    | S fuel =>
        opcode ← index script i;
        let i := S i in
        l ← push_len script opcode i;
        match l with
        | None => pushes_loop fuel script i pushes
        | Some None => Ok pushes
        | Some (Some (len, i)) =>
            if bool_decide (length script < i + len)%nat then Ok pushes
            else p ← slice script i (i + len); pushes_loop fuel script (i + len) (pushes ++ [p])
        end
    end
  else Ok pushes.

Definition parse_script_pushes (script : bytes) : res (list bytes) :=
  pushes_loop (length script) script 0 [].

(** ** Inputs *)

Section scan.
Context `{!Secp, !Hash160, !ScriptTemplates}.

Inductive PrevoutScript :=
  | PP2pkh (hash : bytes)
  | PP2sh (hash : bytes)
  | PP2wpkh (hash : bytes)
  | PP2tr (xonly_key : XOnlyPublicKey)
  | PWitnessUnknown (version : Z)
  | POther.
Record PrevoutInfo := { script : PrevoutScript }.
Record TxInputContext := {
  previous_output : OutPointKey; script_sig : bytes; witness : list bytes; prevout : option PrevoutInfo
}.

Inductive ScanPointIneligibleReason := NoEligibleInputs | WitnessVersionGreaterThanOne | PublicKeySumInfinity.
Inductive ScanPointStatus :=
  | Ineligible (reason : ScanPointIneligibleReason)
  | MissingPrevout (missing_count : nat)
  | Computed (tweak : bytes).

Definition parse_compressed_pubkey_matching_hash (b expected_hash : bytes) : res (option PublicKey) :=
  if bool_decide (length b ≠ 33%nat) || negb (bool_decide (head b = Some 2 ∨ head b = Some 3)) then Ok None
  else if bool_decide (hash160 b ≠ expected_hash) then Ok None
  else k ← ok_or (from_slice b) "invalid compressed input public key"; Ok (Some k).

Definition taproot_script_path_internal_key (witness : list bytes) : res (option bytes) :=
  match last witness with
  | None => Ok None
  | Some control_block =>
      if bool_decide (length control_block < 33)%nat || bool_decide ((length control_block - 33) mod 32 ≠ 0)%nat
         || bool_decide (length witness < 2)%nat then Ok None
      else b ← slice control_block 1 33; k ← copy_32 b; Ok (Some k)
  end.

Definition extract_p2tr_input_pubkey (input : TxInputContext) (xonly_key : XOnlyPublicKey) : res (option PublicKey) :=
  k ← taproot_script_path_internal_key (witness input);
  if bool_decide (k = Some TAPROOT_NUMS_H_XONLY) then Ok None
  else Ok (Some (public_key_even xonly_key)).

Definition extract_p2wpkh_input_pubkey (input : TxInputContext) (expected_hash : bytes) : res (option PublicKey) :=
  match last (witness input) with
  | None => Ok None
  | Some pubkey_bytes => parse_compressed_pubkey_matching_hash pubkey_bytes expected_hash
  end.

(** [matches!(classify_script(push), ScriptKind::P2wpkh { .. })]. *)
Definition is_p2wpkh_push (push : bytes) : res bool :=
  k ← classify_script push; Ok (match k with KP2wpkh _ => true | _ => false end).

(** [iter().find(p)] with a predicate that may panic. *)
Fixpoint find_res {A} (p : A → res bool) (l : list A) : res (option A) :=
  match l with
  | [] => Ok None
  | x :: l => b ← p x; if (b : bool) then Ok (Some x) else find_res p l
  end.

Definition extract_p2sh_p2wpkh_input_pubkey (input : TxInputContext) (expected_script_hash : bytes) : res (option PublicKey) :=
  pushes ← parse_script_pushes (script_sig input);
  redeem ← find_res is_p2wpkh_push (reverse pushes);
  match redeem with
  | None => Ok None
  | Some redeem_script =>
      if bool_decide (hash160 redeem_script ≠ expected_script_hash) then Ok None
      else
        b ← slice redeem_script 2 22;
        pubkey_hash ← copy_20 b;
        extract_p2wpkh_input_pubkey input pubkey_hash
  end.

(** The [for] loop with its early return. *)
Fixpoint first_matching_push (pushes : list bytes) (expected_hash : bytes) : res (option PublicKey) :=
  match pushes with
  | [] => Ok None
  | push :: pushes =>
      k ← parse_compressed_pubkey_matching_hash push expected_hash;
      match k with
      | Some pubkey => Ok (Some pubkey)
      | None => first_matching_push pushes expected_hash
      end
  end.

Definition extract_p2pkh_input_pubkey (input : TxInputContext) (expected_hash : bytes) : res (option PublicKey) :=
  pushes ← parse_script_pushes (script_sig input);
  first_matching_push (reverse pushes) expected_hash.

Definition extract_bip352_input_pubkey (input : TxInputContext) (prevout : PrevoutInfo) : res (option PublicKey) :=
  match script prevout with
  | PP2tr xonly_key => extract_p2tr_input_pubkey input xonly_key
  | PP2wpkh hash => extract_p2wpkh_input_pubkey input hash
  | PP2sh hash => extract_p2sh_p2wpkh_input_pubkey input hash
  | PP2pkh hash => extract_p2pkh_input_pubkey input hash
  | PWitnessUnknown _ | POther => Ok None
  end.

Definition spends_witness_version_greater_than_one (inputs : list TxInputContext) : bool :=
  existsb (λ input, match prevout input with
                    | Some p => match script p with
                                | PWitnessUnknown version => bool_decide (2 ≤ version ≤ 16)
                                | _ => false
                                end
                    | None => false
                    end) inputs.

(** ** The scan point of a transaction *)

Definition serialize_outpoint (input : TxInputContext) : bytes :=
  op_txid (previous_output input) ++ le_bytes 4 (op_vout (previous_output input)).

(** The order of [[u8; 36]]: lexicographic. *)
Fixpoint lex_le (a b : bytes) : bool :=
  match a, b with
  | [], _ => true
  | _ :: _, [] => false
  | x :: a, y :: b => bool_decide (x < y) || (bool_decide (x = y) && lex_le a b)
  end.
Definition lex_min (a b : bytes) : bytes := if lex_le a b then a else b.
(** [Iterator::min]. *)
Definition min_bytes (l : list bytes) : option bytes :=
  match l with
  | [] => None
  | x :: l => Some (foldl lex_min x l)
  end.

Definition coinbase_input (input : TxInputContext) : bool := is_coinbase (previous_output input).

Definition smallest_non_coinbase_outpoint (inputs : list TxInputContext) : option bytes :=
  min_bytes (serialize_outpoint <$> filter (λ i, coinbase_input i = false) inputs).

Context `{!Sha256}.

Definition bip352_inputs_hasher : TaggedSha256 := from_tag_hash BIP352_INPUTS_TAG_HASH.
Definition bip352_inputs_tagged_sha256 (msg : bytes) : bytes := digest_32 bip352_inputs_hasher msg.

Definition missing_prevout (input : TxInputContext) : Prop :=
  coinbase_input input = false ∧ prevout input = None.
#[export] Instance missing_prevout_dec input : Decision (missing_prevout input).
Proof. unfold missing_prevout. destruct (prevout input); [right|destruct (coinbase_input input); [right|left]]; naive_solver. Defined.

(** One iteration of the loop that collects the keys. *)
Definition collect_key (eligible_pubkeys : list PublicKey) (input : TxInputContext) : res (list PublicKey) :=
  if coinbase_input input then Ok eligible_pubkeys
  else
    p ← expect (prevout input) "missing prevout handled before scan-point computation";
    k ← extract_bip352_input_pubkey input p;
    Ok (match k with Some pubkey => eligible_pubkeys ++ [pubkey] | None => eligible_pubkeys end).

Definition compute_tx_scan_point (inputs : list TxInputContext) : res ScanPointStatus :=
  if bool_decide (inputs = []) || forallb coinbase_input inputs then Ok (Ineligible NoEligibleInputs)
  else
    let missing_count := length (filter missing_prevout inputs) in
    if bool_decide (0 < missing_count)%nat then Ok (MissingPrevout missing_count)
    else if spends_witness_version_greater_than_one inputs then Ok (Ineligible WitnessVersionGreaterThanOne)
    else
      eligible_pubkeys ← fold_res collect_key [] inputs;
      if bool_decide (length eligible_pubkeys = 0)%nat then Ok (Ineligible NoEligibleInputs)
      else
        match combine_keys eligible_pubkeys with
        | None => Ok (Ineligible PublicKeySumInfinity)
        | Some sum =>
            outpoint_l ← ok_or (smallest_non_coinbase_outpoint inputs) "non-empty non-coinbase input set expected";
            let input_hash_preimage := outpoint_l ++ serialize sum in
            let input_hash := bip352_inputs_tagged_sha256 input_hash_preimage in
            scalar ← ok_or (from_be_bytes input_hash) "BIP352 input hash is not a valid secp256k1 scalar";
            scan_point ← ok_or (mul_tweak sum scalar) "BIP352 scan point multiplication failed";
            Ok (Computed (serialize scan_point))
        end.

End scan.

(** ** Specification of the script parser *)

(** An instruction: the four push forms and an opcode that pushes nothing. *)
Inductive instr :=
  | IDirect (data : bytes) | IData1 (data : bytes) | IData2 (data : bytes) | IData4 (data : bytes)
  | IOther (opcode : Z).
Definition instr_wf (o : instr) : Prop :=
  match o with
  | IDirect d => 1 ≤ len d ≤ 75
  | IData1 d => len d < 2 ^ 8
  | IData2 d => len d < 2 ^ 16
  | IData4 d => len d < 2 ^ 32
  | IOther b => b < 1 ∨ 78 < b
  end.
Definition header (o : instr) : bytes :=
  match o with
  | IDirect d => [len d]
  | IData1 d => 76 :: le_bytes 1 (len d)
  | IData2 d => 77 :: le_bytes 2 (len d)
  | IData4 d => 78 :: le_bytes 4 (len d)
  | IOther b => [b]
  end.
Definition push (o : instr) : option bytes :=
  match o with IDirect d | IData1 d | IData2 d | IData4 d => Some d | IOther _ => None end.
Definition enc_instr (o : instr) : bytes := header o ++ default [] (push o).
Definition enc_script (os : list instr) : bytes := os ≫= enc_instr.

(** What is left when the last push is cut short. *)
Definition truncated (t : bytes) : Prop :=
  t = [] ∨ ∃ o d, instr_wf o ∧ push o = Some d ∧ t `prefix_of` enc_instr o ∧ t ≠ enc_instr o.

Lemma index_shift {A} (pre l : list A) k : index (pre ++ l) (length pre + k) = index l k.
Proof. unfold index. rewrite lookup_app_r by lia. by rewrite Nat.add_comm, Nat.add_sub. Qed.

Lemma slice_shift {A} (pre l : list A) a b :
  slice (pre ++ l) (length pre + a) (length pre + b) = slice l a b.
Proof.
  unfold slice. rewrite length_app.
  repeat case_bool_decide; simpl; try done; try lia.
  replace (length pre + b - (length pre + a))%nat with (b - a)%nat by lia.
  rewrite drop_app_ge by lia. by rewrite Nat.add_comm, Nat.add_sub.
Qed.

Lemma push_len_header pre o X :
  instr_wf o → ∃ op h, header o = op :: h ∧
  push_len (pre ++ header o ++ X) op (length pre + 1) =
  Ok ((λ d : bytes, Some (length d, (length pre + length (header o))%nat)) <$> push o).
Proof.
  intros Hwf. destruct o as [d|d|d|d|b]; eexists _, _; (split; [reflexivity|]); simpl in Hwf |- *;
    unfold push_len.
  - rewrite bool_decide_true by lia. by rewrite Nat2Z.id.
  - rewrite bool_decide_false by lia. rewrite bool_decide_true by done.
    rewrite bool_decide_false by (rewrite length_app; simpl; lia).
    rewrite index_shift. rewrite (index_ok _ 1 (len d mod 256)) by done. rsimpl. simpl.
    do 4 f_equal; [|lia]. rewrite Z.mod_small by lia. apply Nat2Z.id.
  - rewrite !bool_decide_false by lia. rewrite bool_decide_true by done.
    rewrite bool_decide_false by (rewrite length_app; simpl; lia).
    rewrite <-!Nat.add_assoc, !index_shift. cbn [Nat.add index lookup list_lookup expect mbind res_bind].
    rsimpl. simpl fmap. do 4 f_equal.
    pose proof (from_le_le_bytes 2 (len d)) as E. cbn [le_bytes] in E. rewrite E by lia. apply Nat2Z.id.
  - rewrite !bool_decide_false by lia. rewrite bool_decide_true by done.
    rewrite bool_decide_false by (rewrite length_app; simpl; lia).
    rewrite <-!Nat.add_assoc, !index_shift. cbn [Nat.add index lookup list_lookup expect mbind res_bind].
    rsimpl. simpl fmap. do 4 f_equal.
    pose proof (from_le_le_bytes 4 (len d)) as E. cbn [le_bytes] in E. rewrite E by lia. apply Nat2Z.id.
  - rewrite !bool_decide_false by lia. done.
Qed.

(** One iteration over a whole instruction. *)
Lemma pushes_loop_instr fuel pre o rest acc :
  instr_wf o →
  pushes_loop (S fuel) (pre ++ enc_instr o ++ rest) (length pre) acc =
  pushes_loop fuel (pre ++ enc_instr o ++ rest) (length pre + length (enc_instr o))
    (acc ++ option_list (push o)).
Proof.
  intros Hwf. destruct (push_len_header pre o (default [] (push o) ++ rest) Hwf) as (op & h & Eh & El).
  unfold enc_instr. rewrite <-!app_assoc. cbn [pushes_loop].
  rewrite bool_decide_true by (rewrite Eh, !length_app; simpl; lia).
  rewrite <-(Nat.add_0_r (length pre)) at 1. rewrite index_shift, Eh at 1.
  change (index ((op :: h) ++ default [] (push o) ++ rest) 0) with (Ok op). rsimpl.
  replace (S (length pre)) with (length pre + 1)%nat by lia. rewrite El. rsimpl.
  destruct (push o) as [d|] eqn:Ep; cbn [fmap option_fmap option_map default option_list id].
  - rewrite bool_decide_false by (rewrite !length_app; lia).
    rewrite <-Nat.add_assoc, slice_shift.
    rewrite (slice_middle (header o) d rest) by lia. rsimpl. by rewrite !length_app.
  - rewrite app_nil_r, Eh. simpl. rewrite app_nil_r.
    f_equal. destruct o; try done. by injection Eh as _ <-.
Qed.

(** The iteration that meets a truncated push stops the loop. *)
Lemma pushes_loop_short fuel pre o d t acc :
  instr_wf o → push o = Some d → (length t < length d)%nat →
  pushes_loop (S fuel) (pre ++ header o ++ t) (length pre) acc = Ok acc.
Proof.
  intros Hwf Hd Ht. destruct (push_len_header pre o t Hwf) as (op & h & Eh & El).
  cbn [pushes_loop]. rewrite bool_decide_true by (rewrite Eh, !length_app; simpl; lia).
  rewrite <-(Nat.add_0_r (length pre)) at 1. rewrite index_shift, Eh at 1.
  change (index ((op :: h) ++ t) 0) with (Ok op). rsimpl.
  replace (S (length pre)) with (length pre + 1)%nat by lia. rewrite El, Hd. rsimpl.
  cbn [fmap option_fmap option_map]. by rewrite bool_decide_true by (rewrite !length_app; lia).
Qed.

Lemma push_len_no_length s op i :
  (op = 76 ∧ (length s ≤ i)%nat) ∨ (op = 77 ∧ (length s < i + 2)%nat) ∨ (op = 78 ∧ (length s < i + 4)%nat) →
  push_len s op i = Ok (Some None).
Proof. intros Hc. unfold push_len. repeat case_bool_decide; try done; exfalso; lia. Qed.

Lemma pushes_loop_no_length fuel pre op t acc :
  (op = 76 ∧ t = []) ∨ (op = 77 ∧ (length t < 2)%nat) ∨ (op = 78 ∧ (length t < 4)%nat) →
  pushes_loop (S fuel) (pre ++ op :: t) (length pre) acc = Ok acc.
Proof.
  intros Hc. cbn [pushes_loop]. rewrite bool_decide_true by (rewrite length_app; simpl; lia).
  rewrite <-(Nat.add_0_r (length pre)) at 1. rewrite index_shift.
  change (index (op :: t) 0) with (Ok op). rsimpl. rewrite push_len_no_length; [done|].
  rewrite !length_app. simpl. destruct Hc as [[-> ->]|[[-> Ht]|[-> Ht]]]; simpl; lia.
Qed.

Lemma pushes_loop_end fuel script acc : pushes_loop fuel script (length script) acc = Ok acc.
Proof. destruct fuel; simpl; by rewrite bool_decide_false by lia. Qed.

Lemma pushes_loop_truncated fuel pre t acc :
  truncated t → (length t ≤ fuel)%nat → pushes_loop fuel (pre ++ t) (length pre) acc = Ok acc.
Proof.
  intros [-> | (o & d & Hwf & Hd & [k Hk] & Hne)] Hf.
  { rewrite app_nil_r. apply pushes_loop_end. }
  destruct t as [|b t]; [rewrite app_nil_r; apply pushes_loop_end|].
  destruct fuel as [|fuel]; [simpl in Hf; lia|].
  destruct (decide (length (header o) ≤ length (b :: t))%nat) as [Hl|Hl].
  - assert (∃ t', b :: t = header o ++ t') as (t' & Et).
    { exists (drop (length (header o)) (b :: t)).
      rewrite <-(take_drop (length (header o)) (b :: t)) at 1. f_equal.
      rewrite <-(take_app_le _ k) by lia. rewrite <-Hk. unfold enc_instr. apply take_app_length. }
    rewrite Et. apply (pushes_loop_short _ _ _ d); [done..|].
    assert (length k ≠ 0%nat) by (destruct k; [rewrite app_nil_r in Hk; naive_solver|done]).
    unfold enc_instr in Hk. rewrite Et, Hd in Hk. simpl in Hk. apply (f_equal length) in Hk.
    rewrite !length_app in Hk. lia.
  - apply pushes_loop_no_length. unfold enc_instr in Hk.
    destruct o as [x|x|x|x|x]; simpl in Hk, Hl; injection Hk as <- _; [lia| | | |done].
    + left. split; [done|]. destruct t; simpl in Hl; [done|lia].
    + right. left. lia.
    + right. right. lia.
Qed.

(** A header for [n] bytes is followed by its data or by a truncation of it. *)
Lemma header_step (C : bytes → instr) hdr n t :
  (∀ d, length d = n → header (C d) = hdr ∧ instr_wf (C d) ∧ push (C d) = Some d) →
  truncated (hdr ++ t) ∨ ∃ o rest, instr_wf o ∧ hdr ++ t = enc_instr o ++ rest.
Proof.
  intros HC. destruct (decide (n ≤ length t)%nat) as [Hl|Hl].
  - right. destruct (HC (take n t)) as (Hh & Hwf & Hp); [rewrite length_take; lia|].
    exists (C (take n t)), (drop n t). split; [done|].
    unfold enc_instr. rewrite Hh, Hp. simpl. by rewrite <-app_assoc, take_drop.
  - left. right. set (d := t ++ replicate (n - length t) 0).
    destruct (HC d) as (Hh & Hwf & Hp); [unfold d; rewrite length_app, length_replicate; lia|].
    exists (C d), d. unfold enc_instr. rewrite Hh, Hp. simpl. split_and!; [done..| |].
    + apply prefix_app. by apply prefix_app_r.
    + intros E%app_inv_head. apply (f_equal length) in E. unfold d in E.
      rewrite length_app, length_replicate in E. lia.
Qed.

(** The three OP_PUSHDATA forms, by the width of their length. *)
Lemma pushdata_step (C : bytes → instr) op k t :
  (∀ d, len d < 256 ^ Z.of_nat k →
    header (C d) = op :: le_bytes k (len d) ∧ instr_wf (C d) ∧ push (C d) = Some d) →
  bytes_wf t → truncated (op :: t) ∨ ∃ o rest, instr_wf o ∧ op :: t = enc_instr o ++ rest.
Proof.
  intros HC Ht.
  assert (Hhdr : ∀ x d, bytes_wf x → length x = k → length d = Z.to_nat (from_le x) →
    header (C d) = op :: x ∧ instr_wf (C d) ∧ push (C d) = Some d).
  { intros x d Hx <- Hd. pose proof (from_le_bound x Hx).
    assert (len d = from_le x) as El by lia. destruct (HC d) as (A & B & D); [lia|].
    by rewrite A, El, le_bytes_from_le. }
  destruct (decide (k ≤ length t)%nat) as [Hl|Hl].
  - rewrite <-(take_drop k t). apply (header_step C (op :: take k t) (Z.to_nat (from_le (take k t)))).
    intros d Hd. apply Hhdr; [by apply Forall_take|rewrite length_take; lia|done].
  - left. right. set (x := t ++ replicate (k - length t) 0).
    set (d := replicate (Z.to_nat (from_le x)) 0).
    destruct (Hhdr x d) as (Hh & Hwf & Hp).
    { apply Forall_app. split; [done|]. apply Forall_replicate. unfold is_byte. lia. }
    { unfold x. rewrite length_app, length_replicate. lia. }
    { apply length_replicate. }
    exists (C d), d. unfold enc_instr. rewrite Hh, Hp. simpl. split_and!; [done..| |].
    + apply prefix_cons. apply prefix_app_r. by apply prefix_app_r.
    + intros E. apply (f_equal length) in E. simpl in E. unfold x in E.
      rewrite !length_app, length_replicate in E. lia.
Qed.

(** A script starts with an instruction, or it is a truncated push. *)
Lemma script_step s : bytes_wf s →
  truncated s ∨ ∃ o rest, instr_wf o ∧ s = enc_instr o ++ rest.
Proof.
  intros Hs. destruct s as [|op t]; [by left; left|].
  apply Forall_cons in Hs as [Hop Ht].
  destruct (decide (1 ≤ op ≤ 75)) as [Hd|Hd].
  { apply (header_step IDirect [op] (Z.to_nat op)). intros d El. simpl. split_and!; [f_equal| | |done]; lia. }
  destruct (decide (op = 76)) as [->|]; [by apply (pushdata_step IData1 _ 1)|].
  destruct (decide (op = 77)) as [->|]; [by apply (pushdata_step IData2 _ 2)|].
  destruct (decide (op = 78)) as [->|]; [by apply (pushdata_step IData4 _ 4)|].
  right. exists (IOther op), t. split; [simpl; lia|done].
Qed.

(** Every script is a list of instructions followed by a truncated push. *)
Lemma script_decompose s : bytes_wf s →
  ∃ os t, s = enc_script os ++ t ∧ Forall instr_wf os ∧ truncated t.
Proof.
  induction s as [s IH] using (induction_ltof1 _ (@length Z)). intros Hs.
  destruct (script_step s Hs) as [Ht|(o & rest & Ho & ->)]; [by exists [], s|].
  apply Forall_app in Hs as [_ Hr].
  destruct (IH rest) as (os & t & -> & Hos & Ht); [|done|].
  - unfold ltof, enc_instr. rewrite !length_app. destruct o; simpl; lia.
  - exists (o :: os), t. split_and!; [|by constructor|done]. unfold enc_script. simpl. by rewrite app_assoc.
Qed.

Lemma enc_instr_length o : (1 ≤ length (enc_instr o))%nat.
Proof. unfold enc_instr. destruct o; simpl; lia. Qed.

Lemma pushes_loop_script os t pre fuel acc :
  Forall instr_wf os → truncated t → (length (enc_script os ++ t) ≤ fuel)%nat →
  pushes_loop fuel (pre ++ enc_script os ++ t) (length pre) acc = Ok (acc ++ omap push os).
Proof.
  intros Hos Ht. revert pre fuel acc. induction Hos as [|o os Ho Hos IH]; intros pre fuel acc Hf.
  - simpl. rewrite app_nil_r. by apply pushes_loop_truncated.
  - unfold enc_script in *. cbn [mbind list_bind] in *. rewrite <-!app_assoc in *.
    pose proof (enc_instr_length o). rewrite length_app in Hf. destruct fuel as [|fuel]; [lia|].
    rewrite pushes_loop_instr by done. rewrite <-length_app, app_assoc, IH by lia.
    f_equal. simpl. destruct (push o); simpl; [by rewrite <-app_assoc|by rewrite app_nil_r].
Qed.

Lemma parse_script_pushes_enc os t :
  Forall instr_wf os → truncated t → parse_script_pushes (enc_script os ++ t) = Ok (omap push os).
Proof. intros Hos Ht. by apply (pushes_loop_script os t []). Qed.

Lemma parse_script_pushes_ok s : bytes_wf s → ∃ pushes, parse_script_pushes s = Ok pushes.
Proof.
  intros (os & t & -> & Hos & Ht)%script_decompose. eexists. by apply parse_script_pushes_enc.
Qed.

(** ** The lexicographic minimum *)

Lemma lex_le_refl a : lex_le a a = true.
Proof. induction a as [|x a IH]; simpl; [done|]. rewrite IH, (bool_decide_true (x = x)) by done. by rewrite orb_true_r. Qed.
Lemma lex_le_cons x a y b : lex_le (x :: a) (y :: b) = true ↔ x < y ∨ x = y ∧ lex_le a b = true.
Proof. simpl. rewrite orb_true_iff, andb_true_iff, !bool_decide_eq_true. done. Qed.
Lemma lex_le_trans a b c : lex_le a b = true → lex_le b c = true → lex_le a c = true.
Proof.
  revert b c. induction a as [|x a IH]; intros [|y b] [|z c]; try done.
  rewrite !lex_le_cons. intros [?|[-> ?]] [?|[-> ?]]; [left; lia|by left|by left|right; eauto].
Qed.
Lemma lex_le_total a b : lex_le a b = true ∨ lex_le b a = true.
Proof.
  revert b. induction a as [|x a IH]; intros [|y b]; try (by left); try (by right).
  rewrite !lex_le_cons. destruct (Z.lt_trichotomy x y) as [?|[->|?]]; [by left; left| |by right; left].
  destruct (IH b); [left|right]; by right.
Qed.
Lemma lex_le_antisym a b : lex_le a b = true → lex_le b a = true → a = b.
Proof.
  revert b. induction a as [|x a IH]; intros [|y b]; try done.
  rewrite !lex_le_cons. intros [?|[-> ?]] [?|[? ?]]; try lia. f_equal. by apply IH.
Qed.

Definition is_min (m : bytes) (l : list bytes) : Prop := m ∈ l ∧ ∀ x, x ∈ l → lex_le m x = true.

Lemma foldl_lex_min l x : is_min (foldl lex_min x l) (x :: l).
Proof.
  revert x. induction l as [|y l IH]; intros x; simpl.
  { split; [by left|]. intros z ->%list_elem_of_singleton. apply lex_le_refl. }
  destruct (IH (lex_min x y)) as [Hin Hle]. unfold lex_min in *.
  pose proof (Hle _ (list_elem_of_here _ _)) as Hm.
  destruct (lex_le x y) eqn:E; (split; [set_solver|]);
    intros z [->|[->|Hz]%elem_of_cons]%elem_of_cons; try (by apply Hle; right); try done;
    eapply lex_le_trans; try exact Hm; try done.
  destruct (lex_le_total x y) as [?|?]; [congruence|done].
Qed.

Lemma min_bytes_spec l m : min_bytes l = Some m ↔ is_min m l.
Proof.
  destruct l as [|x l]; simpl; [split; [done|intros [Hm _]; set_solver]|].
  pose proof (foldl_lex_min l x) as [H1 H2]. split; [by intros [= <-]|]. intros [H3 H4].
  f_equal. apply lex_le_antisym; auto.
Qed.

Lemma min_bytes_perm l l' : l ≡ₚ l' → min_bytes l = min_bytes l'.
Proof.
  intros Hp. apply option_eq. intros m. rewrite !min_bytes_spec. unfold is_min. by setoid_rewrite Hp.
Qed.

Section scan_proofs.
Context `{SC : Secp, HH : Hash160, ST : ScriptTemplates, SH : Sha256}.

Definition bad_key {A} : res A := Err "invalid compressed input public key".
(** The outcome of an extraction: a key, no key, or the one error. *)
Definition key_outcome {A} (r : res A) : Prop := (∃ k, r = Ok k) ∨ r = bad_key.

(** An input as the node hands it over. *)
Definition input_wf (i : TxInputContext) : Prop := bytes_wf (script_sig i).

(** [b] is a compressed public key that hashes to [h]. *)
Definition hashes_to (b : bytes) (k : PublicKey) (h : bytes) : Prop :=
  length b = 33%nat ∧ hash160 b = h ∧ from_slice b = Some k.

Lemma match_hash_outcome b h : key_outcome (parse_compressed_pubkey_matching_hash b h).
Proof.
  unfold parse_compressed_pubkey_matching_hash, key_outcome.
  repeat case_bool_decide; simpl; eauto; destruct (from_slice b); rsimpl; eauto.
Qed.
Lemma match_hash_some b h k :
  parse_compressed_pubkey_matching_hash b h = Ok (Some k) → hashes_to b k h.
Proof.
  unfold parse_compressed_pubkey_matching_hash, hashes_to.
  repeat case_bool_decide; simpl; try done; destruct (from_slice b); rsimpl; intros [= <-];
    split_and!; try done; by apply dec_stable.
Qed.

Lemma find_res_ok {A} (p : A → res bool) l :
  (∀ x, x ∈ l → ∃ b, p x = Ok b) →
  ∃ o, find_res p l = Ok o ∧ ∀ x, o = Some x → x ∈ l ∧ p x = Ok true.
Proof.
  induction l as [|x l IH]; intros Hp; simpl; [by exists None|].
  destruct (Hp x) as [[] E]; [by left|exists (Some x)|]; rewrite E; rsimpl.
  - split; [done|]. intros ? [= <-]. split; [by left|done].
  - destruct IH as (o & Ho & Hs); [intros; apply Hp; by right|]. exists o. split; [done|].
    intros y Hy. destruct (Hs y Hy). split; [by right|done].
Qed.

Lemma is_p2wpkh_push_ok b : ∃ r, is_p2wpkh_push b = Ok r.
Proof. unfold is_p2wpkh_push. destruct (classify_sound b) as (k & -> & _). rsimpl. eauto. Qed.
Lemma is_p2wpkh_push_true b : is_p2wpkh_push b = Ok true → ∃ h, length h = 20%nat ∧ b = p2wpkh_bytes h.
Proof.
  unfold is_p2wpkh_push. destruct (classify_script b) as [[]| |] eqn:E; try done. intros _.
  apply classify_p2wpkh in E. eauto.
Qed.

Lemma first_matching_outcome l h : key_outcome (first_matching_push l h).
Proof.
  induction l as [|b l IH]; simpl; [left; eauto|].
  destruct (match_hash_outcome b h) as [[[k|] ->]| ->]; rsimpl; [left; eauto|done|by right].
Qed.
Lemma first_matching_some l h k : first_matching_push l h = Ok (Some k) → ∃ b, b ∈ l ∧ hashes_to b k h.
Proof.
  induction l as [|b l IH]; simpl; [done|].
  destruct (parse_compressed_pubkey_matching_hash b h) as [[k'|]| |] eqn:E; rsimpl; try done.
  - intros [= ->]. exists b. split; [by left|by apply match_hash_some].
  - intros (b' & ? & ?)%IH. exists b'. split; [by right|done].
Qed.

Lemma internal_key_ok w : ∃ o, taproot_script_path_internal_key w = Ok o.
Proof.
  unfold taproot_script_path_internal_key. destruct (last w) as [c|]; [|eauto].
  repeat case_bool_decide; simpl; eauto.
  rewrite slice_ok by lia. rsimpl. rewrite copy_32_ok by (rewrite length_take, length_drop; lia).
  rsimpl. eauto.
Qed.

Lemma extract_p2wpkh_outcome i h : key_outcome (extract_p2wpkh_input_pubkey i h).
Proof.
  unfold extract_p2wpkh_input_pubkey. destruct (last (witness i)); [apply match_hash_outcome|left; eauto].
Qed.

(** The nested segwit extraction: a redeem script pushed by the script sig. *)
Lemma extract_p2sh_spec i h : input_wf i →
  extract_p2sh_p2wpkh_input_pubkey i h = Ok None ∨
  ∃ kh, length kh = 20%nat ∧ hash160 (p2wpkh_bytes kh) = h ∧
        extract_p2sh_p2wpkh_input_pubkey i h = extract_p2wpkh_input_pubkey i kh.
Proof.
  intros Hi. unfold extract_p2sh_p2wpkh_input_pubkey.
  destruct (parse_script_pushes_ok _ Hi) as [ps ->]. rsimpl.
  destruct (find_res_ok is_p2wpkh_push (reverse ps)) as (o & -> & Ho); [intros; apply is_p2wpkh_push_ok|].
  rsimpl. destruct o as [b|]; [|by left].
  destruct (Ho b eq_refl) as [_ (kh & Hkh & ->)%is_p2wpkh_push_true].
  case_bool_decide as Hh; [by left|].
  right. exists kh. split_and!; [done..|]. unfold p2wpkh_bytes.
  rewrite <-(app_nil_r kh) at 1. rewrite (slice_middle [0; 20] kh []) by (simpl; lia). rsimpl.
  rewrite copy_20_ok by done. done.
Qed.

Lemma extract_outcome i p : input_wf i → key_outcome (extract_bip352_input_pubkey i p).
Proof.
  intros Hi. unfold extract_bip352_input_pubkey. destruct (script p) as [h|h|h|x|v|]; try (left; by eauto).
  - unfold extract_p2pkh_input_pubkey. destruct (parse_script_pushes_ok _ Hi) as [ps ->]. rsimpl.
    apply first_matching_outcome.
  - destruct (extract_p2sh_spec i h Hi) as [->|(kh & _ & _ & ->)]; [left; eauto|apply extract_p2wpkh_outcome].
  - apply extract_p2wpkh_outcome.
  - unfold extract_p2tr_input_pubkey. destruct (internal_key_ok (witness i)) as [o ->]. rsimpl.
    case_bool_decide; left; eauto.
Qed.

(** The key of one input in the loop: coinbase inputs have none. *)
Definition key_of (i : TxInputContext) : res (option PublicKey) :=
  if coinbase_input i then Ok None
  else p ← expect (prevout i) "missing prevout handled before scan-point computation";
       extract_bip352_input_pubkey i p.
Definition key_opt (i : TxInputContext) : option PublicKey :=
  match key_of i with Ok k => k | _ => None end.

Lemma collect_keys acc l :
  Forall (λ i, key_outcome (key_of i)) l →
  fold_res collect_key acc l = if forallb (λ i, is_ok (key_of i)) l then Ok (acc ++ omap key_opt l) else bad_key.
Proof.
  intros Hl. revert acc. induction Hl as [|i l Hi Hl IH]; intros acc; simpl; [by rewrite app_nil_r|].
  assert (collect_key acc i = (k ← key_of i; Ok (acc ++ option_list k))) as ->.
  { unfold collect_key, key_of. destruct (coinbase_input i); rsimpl; [by rewrite app_nil_r|].
    destruct (prevout i) as [p|]; rsimpl; [|done]. destruct (extract_bip352_input_pubkey i p) as [[k|]| |]; rsimpl;
      simpl; by rewrite ?app_nil_r. }
  unfold key_opt at 1. destruct Hi as [[k ->]| ->]; rsimpl; [|done]. rewrite IH. simpl.
  destruct (forallb (λ i, is_ok (key_of i)) l); [|done]. destruct k; simpl; by rewrite <-app_assoc || rewrite app_nil_r.
Qed.

Lemma key_of_outcome i :
  input_wf i → ¬ missing_prevout i → key_outcome (key_of i).
Proof.
  intros Hi Hm. unfold key_of. destruct (coinbase_input i) eqn:E; [left; eauto|].
  destruct (prevout i) eqn:E2; [rsimpl; by apply extract_outcome|]. by destruct Hm.
Qed.

(** ** Theorems *)

(** A key contributed by a spent output is committed to by that output: for a
    hash-based output it is a 33-byte compressed key whose HASH160 is the committed
    hash (through the nested witness program for P2SH), for a taproot output it is the
    even lift of the output key, and no other output contributes a key. *)
Theorem extracted_key_committed i p k :
  input_wf i → extract_bip352_input_pubkey i p = Ok (Some k) →
  match script p with
  | PP2tr x => k = public_key_even x
  | PP2wpkh h | PP2pkh h => ∃ b, hashes_to b k h
  | PP2sh h => ∃ b kh, hash160 (p2wpkh_bytes kh) = h ∧ hashes_to b k kh
  | PWitnessUnknown _ | POther => False
  end.
Proof.
  intros Hi. unfold extract_bip352_input_pubkey. destruct (script p) as [h|h|h|x|v|]; try done.
  - unfold extract_p2pkh_input_pubkey. destruct (parse_script_pushes_ok _ Hi) as [ps ->]. rsimpl.
    intros (b & _ & Hb)%first_matching_some. eauto.
  - destruct (extract_p2sh_spec i h Hi) as [->|(kh & _ & Hh & ->)]; [done|].
    unfold extract_p2wpkh_input_pubkey. destruct (last (witness i)) as [b|]; [|done].
    intros Hb%match_hash_some. eauto.
  - unfold extract_p2wpkh_input_pubkey. destruct (last (witness i)) as [b|]; [|done].
    intros Hb%match_hash_some. eauto.
  - unfold extract_p2tr_input_pubkey. destruct (internal_key_ok (witness i)) as [o ->]. rsimpl.
    case_bool_decide; [done|]. by intros [= <-].
Qed.

(** What the scan point of a transaction promises (BIP352): the product of the input
    hash and the sum of the eligible keys. *)
Definition scan_point_of (inputs : list TxInputContext) (t : bytes) : Prop :=
  ∃ sum outpoint_l scalar point,
    combine_keys (omap key_opt inputs) = Some sum ∧
    is_min outpoint_l (serialize_outpoint <$> filter (λ i, coinbase_input i = false) inputs) ∧
    from_be_bytes (sha256 (BIP352_INPUTS_TAG_HASH ++ BIP352_INPUTS_TAG_HASH ++ outpoint_l ++ serialize sum)) = Some scalar ∧
    mul_tweak sum scalar = Some point ∧ t = serialize point.

Definition scan_outcome (inputs : list TxInputContext) (r : res ScanPointStatus) : Prop :=
  match r with
  | Ok (Computed t) =>
      length t = 33%nat ∧ scan_point_of inputs t ∧ filter missing_prevout inputs = [] ∧ omap key_opt inputs ≠ []
  | Ok (MissingPrevout n) => n = length (filter missing_prevout inputs) ∧ (0 < n)%nat
  | Ok (Ineligible PublicKeySumInfinity) => combine_keys (omap key_opt inputs) = None
  | Ok (Ineligible NoEligibleInputs) => forallb coinbase_input inputs = true ∨ omap key_opt inputs = []
  | Ok (Ineligible WitnessVersionGreaterThanOne) => spends_witness_version_greater_than_one inputs = true
  | Err e => In e ["invalid compressed input public key"; "BIP352 input hash is not a valid secp256k1 scalar";
                  "BIP352 scan point multiplication failed"]%string
  | Panic _ => False
  end.

Lemma no_missing inputs : length (filter missing_prevout inputs) = 0%nat → Forall (λ i, ¬ missing_prevout i) inputs.
Proof.
  intros Hn%nil_length_inv. apply Forall_forall. intros i Hi Hm.
  assert (i ∈ filter missing_prevout inputs) as Hin by (by apply list_elem_of_filter).
  rewrite Hn in Hin. set_solver.
Qed.

Lemma collect_no_missing inputs :
  Forall input_wf inputs → length (filter missing_prevout inputs) = 0%nat →
  Forall (λ i, key_outcome (key_of i)) inputs.
Proof.
  intros Hw Hn%no_missing. rewrite Forall_forall in Hw, Hn |- *.
  intros i Hi. apply key_of_outcome; auto.
Qed.

Lemma some_non_coinbase inputs :
  forallb coinbase_input inputs = false →
  ∃ m, smallest_non_coinbase_outpoint inputs = Some m.
Proof.
  unfold smallest_non_coinbase_outpoint, min_bytes. intros Hn.
  destruct (_ <$> _) eqn:E; [|eauto]. apply fmap_nil_inv in E.
  apply not_true_iff_false in Hn. destruct Hn. apply forallb_forall. intros i Hi%list_elem_of_In.
  destruct (coinbase_input i) eqn:Ec; [done|].
  assert (i ∈ filter (λ i, coinbase_input i = false) inputs) as Hin by (by apply list_elem_of_filter).
  rewrite E in Hin. set_solver.
Qed.

Lemma compute_outcome inputs :
  Forall input_wf inputs → scan_outcome inputs (compute_tx_scan_point inputs).
Proof.
  intros Hw. unfold compute_tx_scan_point.
  case_bool_decide as He; [by subst; left|]. simpl.
  destruct (forallb coinbase_input inputs) eqn:Ec; [by left|].
  case_bool_decide as Hm; [by split|].
  destruct (spends_witness_version_greater_than_one inputs) eqn:Ew; [done|].
  assert (Hn : length (filter missing_prevout inputs) = 0%nat) by lia.
  rewrite collect_keys by by apply collect_no_missing.
  destruct (forallb (λ i, is_ok (key_of i)) inputs); [|unfold bad_key; rsimpl; simpl; auto]. rsimpl. cbn [app].
  case_bool_decide as Hl; [right; by apply nil_length_inv|].
  destruct (combine_keys _) as [sum|] eqn:Es; [|done].
  destruct (some_non_coinbase inputs Ec) as [m Em]. rewrite Em. rsimpl.
  destruct (from_be_bytes _) as [s|] eqn:Ef; rsimpl; [|simpl; auto].
  destruct (mul_tweak sum s) as [pt|] eqn:Ep; rsimpl; [|simpl; auto].
  split_and!; [apply serialize_wf| |by apply nil_length_inv|by intros E; rewrite E in Hl].
  exists sum, m, s, pt. split_and!; [done| |by rewrite app_assoc|done..].
  by apply min_bytes_spec.
Qed.


(** The answer for a transaction does not depend on the order of its inputs. *)
Theorem scan_point_perm inputs inputs' :
  Forall input_wf inputs → inputs ≡ₚ inputs' →
  compute_tx_scan_point inputs = compute_tx_scan_point inputs'.
Proof.
  intros Hw Hp. unfold compute_tx_scan_point.
  assert (Hf : ∀ p, forallb p inputs = forallb p inputs').
  { intros p. apply eq_true_iff_eq. rewrite !forallb_forall. setoid_rewrite <-list_elem_of_In. by setoid_rewrite Hp. }
  assert (bool_decide (inputs = []) = bool_decide (inputs' = [])) as ->.
  { apply bool_decide_ext. split; intros ->; [by apply Permutation_nil|by apply Permutation_nil_r]. }
  rewrite Hf. destruct (_ || _) eqn:Ec; [done|].
  assert (spends_witness_version_greater_than_one inputs = spends_witness_version_greater_than_one inputs') as ->.
  { unfold spends_witness_version_greater_than_one. apply eq_true_iff_eq. rewrite !existsb_exists.
    setoid_rewrite <-list_elem_of_In. by setoid_rewrite Hp. }
  assert (length (filter missing_prevout inputs) = length (filter missing_prevout inputs')) as Hm by (by rewrite Hp).
  rewrite <-Hm. clear Ec. case_bool_decide as Hlt; [done|].
  destruct (spends_witness_version_greater_than_one inputs'); [done|].
  assert (Hn : length (filter missing_prevout inputs) = 0%nat) by lia.
  pose proof (collect_no_missing inputs Hw Hn) as Ho.
  rewrite !collect_keys by (done || by rewrite <-Hp).
  rewrite Hf. destruct (forallb (λ i, is_ok (key_of i)) inputs'); [|done]. rsimpl. cbn [app].
  assert (omap key_opt inputs ≡ₚ omap key_opt inputs') as Hk by (by rewrite Hp).
  rewrite (Permutation_length Hk), (combine_keys_perm _ _ Hk). case_bool_decide; [done|].
  destruct (combine_keys _); [|done].
  assert (smallest_non_coinbase_outpoint inputs = smallest_non_coinbase_outpoint inputs') as ->; [|done].
  unfold smallest_non_coinbase_outpoint. apply min_bytes_perm. by rewrite Hp.
Qed.

(** BIP352 has the scanner remove the annex of a taproot witness before it
    inspects the control block; the code does not.  A script-path spend whose internal
    key is the NUMS point, which must not contribute a key, does contribute one as soon
    as a short annex follows its control block. *)
Theorem annex_hides_nums i x stack cb annex :
  stack ≠ [] → taproot_script_path_internal_key (stack ++ [cb]) = Ok (Some TAPROOT_NUMS_H_XONLY) →
  head annex = Some 80 → (length annex < 33)%nat →
  let spend w := {| previous_output := previous_output i; script_sig := script_sig i; witness := w;
                    prevout := Some {| script := PP2tr x |} |} in
  key_of (spend (stack ++ [cb])) = Ok None ∧
  (coinbase_input i = false → key_of (spend (stack ++ [cb; annex])) = Ok (Some (public_key_even x))).
Proof.
  intros Hs Hk _ Ha spend. unfold key_of, spend, coinbase_input, extract_bip352_input_pubkey, extract_p2tr_input_pubkey.
  cbn [previous_output prevout script witness]. split.
  - destruct (is_coinbase _); [done|]. rsimpl. rewrite Hk. rsimpl. by rewrite bool_decide_true.
  - intros ->. rsimpl. unfold taproot_script_path_internal_key.
    change (stack ++ [cb; annex]) with (stack ++ [cb] ++ [annex]). rewrite app_assoc, last_snoc.
    rewrite (bool_decide_true (length annex < 33)%nat) by done. simpl. done.
Qed.

(** [parse_script_pushes] is total, and its result is the data of the push
    instructions, in order, of any way to read the script as whole instructions
    followed by a truncated push; every script can be read so. *)
Theorem parse_script_pushes_spec s :
  bytes_wf s →
  (∃ os t, s = enc_script os ++ t ∧ Forall instr_wf os ∧ truncated t) ∧
  ∃ pushes, parse_script_pushes s = Ok pushes ∧
    ∀ os t, s = enc_script os ++ t → Forall instr_wf os → truncated t → pushes = omap push os.
Proof.
  intros Hs. split; [by apply script_decompose|].
  destruct (parse_script_pushes_ok s Hs) as [ps Hp]. exists ps. split; [done|].
  intros os t -> Hos Ht. rewrite parse_script_pushes_enc in Hp by done. by injection Hp as <-.
Qed.

End scan_proofs.

(** ** A concrete instance: keys are integers, their sum is addition *)

Definition is_key32 (b : bytes) : Prop := length b = 32%nat ∧ bytes_wf b.
Definition toy_key := dsig is_key32.
Definition toy_parse (b : bytes) : option toy_key :=
  match decide (is_key32 b) with left Hb => Some (dexist b Hb) | right _ => None end.

#[local] Program Instance toy_secp_inst : Secp := {|
  PublicKey := Z; XOnlyPublicKey := toy_key; Scalar := Z;
  from_slice b := Some (from_be (drop 1 b));
  serialize k := 2 :: be_bytes 32 k;
  xonly_from_slice := toy_parse;
  xonly_serialize k := proj1_sig k;
  public_key_even k := from_be (proj1_sig k);
  combine_keys l := let s := foldr Z.add 0 l in if bool_decide (s = 0) then None else Some s;
  from_be_bytes b := Some (from_be b);
  mul_tweak k s := Some (k * s)
|}.
Next Obligation.
  intros k. split; [cbn [length]; by rewrite length_be_bytes|]. constructor; [unfold is_byte; lia|apply be_bytes_wf].
Qed.
Next Obligation. intros k. exact (proj2_dsig k). Qed.
Next Obligation.
  intros k. unfold toy_parse. destruct (decide _) as [Hb|Hb]; [|destruct Hb; apply (proj2_dsig k)].
  f_equal. by apply dsig_eq.
Qed.
Next Obligation. intros b k. unfold toy_parse. destruct (decide _); [|done]. by intros [= <-]. Qed.
Next Obligation.
  intros l l' Hp. assert (Hs : foldr Z.add 0 l = foldr Z.add 0 l') by (induction Hp; simpl; lia).
  cbv zeta beta. by rewrite Hs.
Qed.
Definition toy_secp : Secp := toy_secp_inst.

Definition toy_hash160 : Hash160.
Proof.
  refine {| hash160 m := take 20 (sum_digest m) |}. intros m.
  split; [rewrite length_take; unfold sum_digest; by rewrite length_fmap|by apply Forall_take, (@sha256_wf toy_sha256 m)].
Defined.

(** A transaction with a taproot key spend, a P2WPKH spend and an unrelated input. *)
#[local] Existing Instances toy_secp toy_hash160 std_templates toy_sha256.
Definition demo_outpoint (n : Z) : OutPointKey := {| op_txid := replicate 32 n; op_vout := 0 |}.
Definition demo_pubkey : bytes := 2 :: be_bytes 32 7.
Definition demo_xonly : XOnlyPublicKey.
Proof.
  refine (dexist (be_bytes 32 5) _). split; [apply length_be_bytes|apply be_bytes_wf].
Defined.
Definition demo_inputs : list TxInputContext :=
  [{| previous_output := demo_outpoint 9; script_sig := []; witness := [replicate 64 1];
      prevout := Some {| script := PP2tr demo_xonly |} |};
   {| previous_output := demo_outpoint 4; script_sig := []; witness := [[]; demo_pubkey];
      prevout := Some {| script := PP2wpkh (hash160 demo_pubkey) |} |};
   {| previous_output := demo_outpoint 6; script_sig := [1; 2; 3]; witness := []; prevout := Some {| script := POther |} |}].

Lemma demo_inputs_wf : Forall input_wf demo_inputs.
Proof. repeat constructor; done. Qed.

Lemma extracted_key_committed_witness :
  ∃ b, hashes_to b 7 (hash160 demo_pubkey).
Proof.
  apply (extracted_key_committed (nth 1 demo_inputs (nth 0 demo_inputs
    {| previous_output := demo_outpoint 0; script_sig := []; witness := []; prevout := None |}))
    {| script := PP2wpkh (hash160 demo_pubkey) |} 7).
  - constructor.
  - vm_compute. reflexivity.
Defined.


Lemma scan_point_perm_witness :
  compute_tx_scan_point demo_inputs = compute_tx_scan_point (reverse demo_inputs).
Proof.
  apply (scan_point_perm demo_inputs _ demo_inputs_wf). symmetry. apply reverse_Permutation.
Defined.

Lemma annex_hides_nums_witness :
  let spend w := {| previous_output := demo_outpoint 3; script_sig := []; witness := w;
                    prevout := Some {| script := PP2tr demo_xonly |} |} in
  key_of (spend [[81]; 192 :: TAPROOT_NUMS_H_XONLY]) = Ok None ∧
  (is_coinbase (demo_outpoint 3) = false →
   key_of (spend [[81]; 192 :: TAPROOT_NUMS_H_XONLY; [80]]) = Ok (Some 5)).
Proof.
  apply (annex_hides_nums {| previous_output := demo_outpoint 3; script_sig := []; witness := []; prevout := None |}
    demo_xonly [[81]] (192 :: TAPROOT_NUMS_H_XONLY) [80]); [done| |done|simpl; lia].
  vm_compute. reflexivity.
Defined.

Lemma parse_script_pushes_spec_witness :
  ∃ pushes, parse_script_pushes [2; 10; 11; 118; 76; 1; 12; 77; 9] = Ok pushes ∧
    ∀ os t, [2; 10; 11; 118; 76; 1; 12; 77; 9] = enc_script os ++ t → Forall instr_wf os → truncated t →
      pushes = omap push os.
Proof.
  apply (parse_script_pushes_spec [2; 10; 11; 118; 76; 1; 12; 77; 9]).
  repeat (constructor; [unfold is_byte; lia|]). constructor.
Defined.
