(* ===== verification/Decimal.v ===== *)
(** * Decimal strings

    What the sources use of the standard library's integer formatting and parsing:
    [{n}], [{n:010}] and [str::parse::<u64>].  Strings are their UTF-8 bytes. *)

From S2P Require Import Prelude.

Definition ascii_bytes (s : string) : bytes :=
  (λ c, Z.of_nat (Ascii.nat_of_ascii c)) <$> String.list_ascii_of_string s.

(** The digits of a number, most significant first; a number below [10^fuel] needs
    at most [fuel] steps. *)
Fixpoint digits (fuel : nat) (n : Z) : list Z :=
  match fuel with
  | O => []
  | S fuel => if bool_decide (n < 10) then [n] else digits fuel (n / 10) ++ [n mod 10]
  end.

(** [Display] for an unsigned integer of at most 64 bits: at most twenty digits. *)
Definition to_decimal (n : Z) : bytes := (λ d, 48 + d) <$> digits 20 n.
(** [{n:0w}]. *)
Definition to_decimal_padded (w : nat) (n : Z) : bytes :=
  let s := to_decimal n in replicate (w - length s) 48 ++ s.

(** [str::parse::<u64>]: an optional plus sign and at least one digit. *)
Definition parse_digits (s : bytes) : option Z :=
  foldl (λ acc c,
    acc ← acc;
    if bool_decide (48 ≤ c ≤ 57) then
      let n := acc * 10 + (c - 48) in if bool_decide (n < 2 ^ 64) then Some n else None
    else None) (Some 0) s.
Definition parse_u64 (s : bytes) : option Z :=
  match s with
  | [] => None
  | c :: t => if bool_decide (c = 43) then match t with [] => None | _ => parse_digits t end else parse_digits s
  end.

(** ** Printing and parsing back *)

Definition value (acc : Z) (l : list Z) : Z := foldl (λ a d, a * 10 + d) acc l.

Lemma value_app acc l k : value acc (l ++ k) = value (value acc l) k.
Proof. apply foldl_app. Qed.
Lemma value_ge acc l : 0 ≤ acc → Forall (λ d, 0 ≤ d < 10) l → acc ≤ value acc l.
Proof.
  revert acc. induction l as [|d l IH]; intros acc Ha Hl; simpl; [done|].
  inversion_clear Hl. etrans; [|apply IH; [lia|done]]. lia.
Qed.

Lemma digits_spec fuel n : 0 ≤ n < 10 ^ Z.of_nat fuel →
  Forall (λ d, 0 ≤ d < 10) (digits fuel n) ∧ value 0 (digits fuel n) = n ∧ (0 < fuel → digits fuel n ≠ [])%nat.
Proof.
  revert n. induction fuel as [|fuel IH]; intros n Hn; simpl digits.
  { simpl in Hn. split_and!; [constructor|simpl; lia|lia]. }
  case_bool_decide as Hs; [split_and!; [repeat constructor; lia|simpl; lia|done]|].
  destruct (IH (n / 10)) as (Hf & Hv & _).
  { rewrite Nat2Z.inj_succ, Z.pow_succ_r in Hn by lia. lia. }
  split_and!; [apply Forall_app; split; [done|repeat constructor; lia]| |by destruct (digits fuel (n / 10))].
  rewrite value_app, Hv. simpl. lia.
Qed.

Lemma parse_digits_value acc l :
  0 ≤ acc → Forall (λ d, 0 ≤ d < 10) l → value acc l < 2 ^ 64 →
  foldl (λ acc c,
    acc ← acc;
    if bool_decide (48 ≤ c ≤ 57) then
      let n := acc * 10 + (c - 48) in if bool_decide (n < 2 ^ 64) then Some n else None
    else None) (Some acc) ((λ d, 48 + d) <$> l) = Some (value acc l).
Proof.
  revert acc. induction l as [|d l IH]; intros acc Ha Hl Hv; [done|]. inversion_clear Hl as [|? ? Hd Hl'].
  rewrite fmap_cons. cbn [foldl mbind option_bind].
  rewrite bool_decide_true by lia. replace (48 + d - 48) with d by lia.
  cbn [value foldl] in Hv. fold (value (acc * 10 + d) l) in Hv. pose proof (value_ge (acc * 10 + d) l).
  rewrite bool_decide_true by lia. apply IH; [lia|done|done].
Qed.

Lemma value_zeros k l : value 0 (replicate k 0 ++ l) = value 0 l.
Proof. induction k as [|k IH]; [done|exact IH]. Qed.

Lemma padded_digits w n :
  to_decimal_padded w n = (λ d, 48 + d) <$> (replicate (w - length (digits 20 n)) 0 ++ digits 20 n).
Proof.
  unfold to_decimal_padded, to_decimal. by rewrite fmap_app, fmap_replicate, length_fmap.
Qed.

Lemma parse_decimal_padded w n : in_width 64 n → parse_u64 (to_decimal_padded w n) = Some n.
Proof.
  intros [Hn0 Hn]. rewrite padded_digits.
  destruct (digits_spec 20 n) as (Hf & Hv & Hne).
  { change (10 ^ Z.of_nat 20) with 100000000000000000000. lia. }
  set (l := replicate (w - length (digits 20 n)) 0 ++ digits 20 n).
  assert (Hl : Forall (λ d, 0 ≤ d < 10) l).
  { apply Forall_app. split; [apply Forall_replicate; lia|done]. }
  assert (Hlv : value 0 l = n) by (unfold l; by rewrite value_zeros).
  assert (Hp : parse_digits ((λ d, 48 + d) <$> l) = Some n).
  { unfold parse_digits. rewrite parse_digits_value by (done || lia). by rewrite Hlv. }
  assert (l ≠ []) as Hnil.
  { unfold l. intros E. apply app_eq_nil in E as [_ E]. by apply Hne; [lia|]. }
  destruct l as [|d l']; [done|]. inversion_clear Hl. unfold parse_u64. rewrite fmap_cons in Hp |- *.
  by rewrite bool_decide_false by lia.
Qed.

Lemma decimal_padded_inj w n m :
  in_width 64 n → in_width 64 m → to_decimal_padded w n = to_decimal_padded w m → n = m.
Proof.
  intros Hn Hm E. pose proof (parse_decimal_padded w n Hn) as En. rewrite E in En.
  rewrite (parse_decimal_padded w m Hm) in En. by injection En.
Qed.
