(* ===== verification/Kv.v ===== *)
(** * Key-value store

    The RocksDB databases of [index_store.rs] and [prevout_store.rs] are a parameter:
    the class [KvStore] is a store of byte strings whose batches are applied
    atomically and in order.  Failures of the disk are not modelled: the callers
    propagate them before changing anything in memory. *)

From S2P Require Import Prelude.

Inductive BatchOp := BPut (k v : bytes) | BDelete (k : bytes).
Abbreviation WriteBatch := (list BatchOp).

(** The value of a key after the operations of a batch. *)
Definition op_at (k : bytes) (cur : option bytes) (op : BatchOp) : option bytes :=
  match op with
  | BPut k' v => if bool_decide (k' = k) then Some v else cur
  | BDelete k' => if bool_decide (k' = k) then None else cur
  end.
Definition batch_at (k : bytes) (cur : option bytes) (b : WriteBatch) : option bytes :=
  foldl (op_at k) cur b.

Class KvStore := {
  Db : Type;
  db_get : Db → bytes → option bytes;
  db_write : Db → WriteBatch → Db;
  db_get_write d b k : db_get (db_write d b) k = batch_at k (db_get d k) b
}.

Definition op_key (op : BatchOp) : bytes := match op with BPut k _ | BDelete k => k end.

Lemma batch_at_app k cur b1 b2 : batch_at k cur (b1 ++ b2) = batch_at k (batch_at k cur b1) b2.
Proof. apply foldl_app. Qed.

(** A batch that does not name a key leaves it alone. *)
Lemma batch_at_other k cur b : (∀ op, op ∈ b → op_key op ≠ k) → batch_at k cur b = cur.
Proof.
  revert cur. induction b as [|op b IH]; intros cur Hb; [done|]. simpl. rewrite IH.
  - destruct op; simpl; rewrite bool_decide_false; try done; apply (Hb _ (list_elem_of_here _ _)).
  - intros op' Hop. apply Hb. by right.
Qed.

(** The last operation on a key decides. *)
Lemma batch_at_last k cur b1 op b2 :
  op_key op = k → (∀ op, op ∈ b2 → op_key op ≠ k) →
  batch_at k cur (b1 ++ op :: b2) = match op with BPut _ v => Some v | BDelete _ => None end.
Proof.
  intros Hk Hb. rewrite batch_at_app. simpl. rewrite batch_at_other by done.
  destruct op; simpl in *; by rewrite bool_decide_true.
Qed.

(** The value an operation leaves. *)
Definition op_value (op : BatchOp) : option bytes := match op with BPut _ v => Some v | BDelete _ => None end.

Lemma op_at_same op cur : op_at (op_key op) cur op = op_value op.
Proof. destruct op; simpl; by rewrite bool_decide_true. Qed.
Lemma op_at_other k op cur : op_key op ≠ k → op_at k cur op = cur.
Proof. intros. destruct op; simpl in *; by rewrite bool_decide_false. Qed.

(** A batch whose operations on a key are all the same one. *)
Lemma batch_at_const k op0 cur b :
  (∀ op, op ∈ b → op_key op = k → op = op0) →
  batch_at k cur b = if bool_decide (k ∈ op_key <$> b) then op_value op0 else cur.
Proof.
  revert cur. induction b as [|op b IH]; intros cur Hb; [done|].
  change (batch_at k cur (op :: b)) with (batch_at k (op_at k cur op) b). rewrite IH, fmap_cons.
  - destruct (decide (op_key op = k)) as [Ek|Ek].
    + rewrite <-Ek, op_at_same, (Hb op (list_elem_of_here _ _) Ek), (bool_decide_true (_ ∈ _ :: _)) by by left.
      by destruct (bool_decide (op_key op0 ∈ op_key <$> b)).
    + rewrite op_at_other by done. f_equal.
      rewrite (bool_decide_ext (k ∈ op_key op :: (op_key <$> b)) (k ∈ op_key <$> b)); [done|].
      rewrite elem_of_cons. naive_solver.
  - intros op' Hop. apply Hb. by right.
Qed.

(** A store in memory. *)
#[local] Program Instance gmap_store : KvStore := {|
  Db := gmap bytes bytes;
  db_get d k := d !! k;
  db_write d b := foldl (λ d op, match op with BPut k v => <[k := v]> d | BDelete k => delete k d end) d b
|}.
Next Obligation.
  intros d b k. simpl. revert d. induction b as [|op b IH]; intros d; [done|]. simpl. rewrite IH. f_equal.
  destruct op; simpl; case_bool_decide; subst;
    rewrite ?lookup_insert_eq, ?lookup_insert_ne, ?lookup_delete_eq, ?lookup_delete_ne by done; done.
Qed.
Definition memory_store : KvStore := gmap_store.
