(* ===== verification/IndexStore.v ===== *)
(** * The indexer's working store

    Model of [light-server/src/index_store.rs]: the keys and values kept in the
    database, the metadata checks, the lookups, and the commit of indexed blocks. *)

From S2P Require Import Prelude Decimal Helper LightBlock LightValid P2trIndexer Kv.

Definition KEY_TIP_HEIGHT : bytes := ascii_bytes "m:tip_height".
Definition KEY_TIP_HASH : bytes := ascii_bytes "m:tip_hash".
Definition KEY_LAST_UID : bytes := ascii_bytes "m:last_uid".
Definition KEY_NETWORK : bytes := ascii_bytes "m:network".
Definition KEY_START_HEIGHT : bytes := ascii_bytes "m:start_height".

Record IndexTip := { it_height : Z; it_block_hash : bytes; it_last_uid : Z }.

(** [b'o', b':'] and [b'k', b':']. *)
Definition outpoint_key (outpoint : OutPointKey) : bytes :=
  [111; 58] ++ op_txid outpoint ++ be_bytes 4 (op_vout outpoint).
Definition seen_key (xonly : bytes) : bytes := [107; 58] ++ xonly.

Definition encode_spend_lookup (spend : SpendLookup) : bytes :=
  be_bytes 8 (sl_uid spend) ++ be_bytes 8 (sl_creation_height spend) ++
  be_bytes 4 (sl_output_index spend) ++ [sl_flags spend].

Definition read_spend_lookup (b : bytes) : res SpendLookup :=
  let fields flags :=
    u ← slice b 0 8; uid ← read_u64_be u "outpoint uid";
    h ← slice b 8 16; creation_height ← read_u64_be h "outpoint creation height";
    o ← slice b 16 20; output_index ← read_u32_be o "outpoint storage output index";
    flags ← flags;
    Ok {| sl_uid := uid; sl_creation_height := creation_height;
          sl_output_index := output_index; sl_flags := flags |} in
  if bool_decide (length b = 21%nat) then fields (index b 20)
  else if bool_decide (length b = 20%nat) then fields (Ok 0)
  else if bool_decide (length b = 8%nat ∨ length b = 16%nat ∨ length b = 17%nat) then
    Err "legacy outpoint lookup value is missing storage output index; reindex light archive"
  else Err "invalid outpoint lookup value length".

Section store.
Context `{!KvStore}.

(** The store may have been changed by the first write when the second check fails:
    the result is the database and the outcome. *)
Definition ensure_meta_value (self : Db) (key value : bytes) : Db * res unit :=
  match db_get self key with
  | Some existing => (self, ensure (bool_decide (existing = value)) "index metadata mismatch")
  | None => (db_write self [BPut key value], Ok tt)
  end.

Definition ensure_meta (self : Db) (network : bytes) (start_height : Z) : Db * res unit :=
  match ensure_meta_value self KEY_NETWORK network with
  | (self, Ok _) => ensure_meta_value self KEY_START_HEIGHT (be_bytes 8 start_height)
  | (self, e) => (self, e)
  end.

Definition tip (self : Db) : res (option IndexTip) :=
  match db_get self KEY_TIP_HEIGHT with
  | None => Ok None
  | Some height =>
      match db_get self KEY_TIP_HASH with
      | None => Ok None
      | Some hash =>
          match db_get self KEY_LAST_UID with
          | None => Ok None
          | Some last_uid =>
              h ← read_u64_be height "tip_height";
              b ← read_32 hash "tip_hash";
              u ← read_u64_be last_uid "last_uid";
              Ok (Some {| it_height := h; it_block_hash := b; it_last_uid := u |})
          end
      end
  end.

Definition previous_tip_hash (self : Db) : res (option bytes) :=
  t ← tip self; Ok (option_map it_block_hash t).

Definition lookup_outpoint_uids (self : Db) (outpoints : list OutPointKey) : res (list (OutPointKey * SpendLookup)) :=
  fold_res (λ found outpoint,
    match db_get self (outpoint_key outpoint) with
    | Some value => s ← read_spend_lookup value; Ok (found ++ [(outpoint, s)])
    | None => Ok found
    end) [] outpoints.

Definition commit_created (self : Db) (batch : WriteBatch) (created : CreatedScopedUtxo) : res WriteBatch :=
  let entry := cu_entry created in
  let batch := batch ++ [BPut (outpoint_key (ue_outpoint entry))
    (encode_spend_lookup {| sl_uid := ue_uid entry; sl_creation_height := ue_created_height entry;
                            sl_output_index := ue_output_index entry;
                            sl_flags := if cu_is_reused created then STORAGE_OUTPUT_FLAG_REUSED else 0 |})] in
  let key := seen_key (ue_p2tr_xonly_key entry) in
  count ← match db_get self key with
          | Some b => read_u64_be b "seen key count"
          | None => Ok 0
          end;
  let next_count := saturating_add 64 count 1 in
  Ok (batch ++ [BPut (seen_key (ue_p2tr_xonly_key entry)) (be_bytes 8 next_count)]).

Definition commit_block (self : Db) (batch : WriteBatch) (block : AppliedBlock) : res WriteBatch :=
  batch ← fold_res (commit_created self) batch (ab_created_utxos block);
  Ok (batch ++ ((λ spent, BDelete (outpoint_key (su_outpoint spent))) <$> ab_spent_utxos block)).

Definition commit_applied_blocks (self : Db) (blocks : list AppliedBlock) (tip_height : Z)
    (tip_hash : bytes) (last_uid : Z) : res Db :=
  batch ← fold_res (commit_block self) [] blocks;
  Ok (db_write self (batch ++ [BPut KEY_TIP_HEIGHT (be_bytes 8 tip_height); BPut KEY_TIP_HASH tip_hash;
                               BPut KEY_LAST_UID (be_bytes 8 last_uid)])).

End store.

(** ** Keys and values *)

Arguments outpoint_key : simpl never.
Arguments seen_key : simpl never.

Definition outpoint_wf (o : OutPointKey) : Prop := hash_wf (op_txid o) ∧ in_width 32 (op_vout o).
Definition spend_wf (s : SpendLookup) : Prop :=
  in_width 64 (sl_uid s) ∧ in_width 64 (sl_creation_height s) ∧ in_width 32 (sl_output_index s) ∧ is_byte (sl_flags s).

Lemma outpoint_key_inj o o' : outpoint_wf o → outpoint_wf o' → outpoint_key o = outpoint_key o' → o = o'.
Proof.
  destruct o as [t v], o' as [t' v']. intros [[Ht _] Hv] [[Ht' _] Hv'] E. unfold outpoint_key in E. simpl in *.
  apply (app_inj_1 [111; 58] [111; 58]) in E as [_ E]; [|done].
  apply app_inj_1 in E as [-> E]; [|lia]. f_equal.
  by rewrite <-(from_be_be_bytes 4 v), <-(from_be_be_bytes 4 v'), E.
Qed.

Lemma outpoint_seen_ne o x : outpoint_key o ≠ seen_key x.
Proof. done. Qed.
Lemma seen_key_inj x y : seen_key x = seen_key y → x = y.
Proof. by intros [= ->]. Qed.

Definition is_meta_key (k : bytes) : Prop := head k = Some 109.
Lemma outpoint_meta_ne o k : is_meta_key k → outpoint_key o ≠ k.
Proof. intros Hk <-. done. Qed.
Lemma seen_meta_ne x k : is_meta_key k → seen_key x ≠ k.
Proof. intros Hk <-. done. Qed.

Lemma length_encode_spend s : length (encode_spend_lookup s) = 21%nat.
Proof. unfold encode_spend_lookup. by rewrite !length_app, !length_be_bytes. Qed.

Lemma read_encode_spend s : spend_wf s → read_spend_lookup (encode_spend_lookup s) = Ok s.
Proof.
  destruct s as [u h o f]. intros (Hu & Hh & Ho & Hf). cbn [sl_uid sl_creation_height sl_output_index sl_flags] in *.
  unfold read_spend_lookup. rewrite (bool_decide_true (length _ = 21%nat)) by apply length_encode_spend.
  unfold encode_spend_lookup. cbn [sl_uid sl_creation_height sl_output_index sl_flags].
  rewrite (slice_prefix (be_bytes 8 u) _ 8) by (by rewrite length_be_bytes). rsimpl.
  rewrite (read_u64_be_bytes u) by done. rsimpl.
  rewrite (slice_middle (be_bytes 8 u) (be_bytes 8 h) _ 8 16) by (by rewrite !length_be_bytes). rsimpl.
  rewrite (read_u64_be_bytes h) by done. rsimpl.
  rewrite (app_assoc (be_bytes 8 u)).
  rewrite (slice_middle (be_bytes 8 u ++ be_bytes 8 h) (be_bytes 4 o) _ 16 20) by (by rewrite !length_app, !length_be_bytes).
  rsimpl. rewrite (read_u32_be_bytes o) by done. rsimpl.
  rewrite app_assoc. rewrite (index_ok _ 20 f); [done|].
  rewrite lookup_app_r by (by rewrite !length_app, !length_be_bytes).
  by rewrite !length_app, !length_be_bytes.
Qed.

(** ** Specification: the map the store holds *)

Definition created_lookup (c : CreatedScopedUtxo) : SpendLookup :=
  {| sl_uid := ue_uid (cu_entry c); sl_creation_height := ue_created_height (cu_entry c);
     sl_output_index := ue_output_index (cu_entry c);
     sl_flags := if cu_is_reused c then STORAGE_OUTPUT_FLAG_REUSED else 0 |}.
Abbreviation index_map := (gmap OutPointKey SpendLookup).
Definition add_created (m : index_map) (c : CreatedScopedUtxo) : index_map :=
  <[ue_outpoint (cu_entry c) := created_lookup c]> m.
Definition index_block (m : index_map) (b : AppliedBlock) : index_map :=
  foldl (λ m s, delete (su_outpoint s) m) (foldl add_created m (ab_created_utxos b)) (ab_spent_utxos b).

Definition created_wf (c : CreatedScopedUtxo) : Prop :=
  outpoint_wf (ue_outpoint (cu_entry c)) ∧ spend_wf (created_lookup c) ∧ length (ue_p2tr_xonly_key (cu_entry c)) = 32%nat.
Definition applied_wf (b : AppliedBlock) : Prop :=
  Forall created_wf (ab_created_utxos b) ∧ Forall (λ s, outpoint_wf (su_outpoint s)) (ab_spent_utxos b).

Section store_proofs.
Context `{KS : KvStore}.

(** The database holds the map [m], and readable counters. *)
Definition holds (d : Db) (m : index_map) : Prop :=
  (∀ o, outpoint_wf o → db_get d (outpoint_key o) = encode_spend_lookup <$> m !! o) ∧
  (∀ o s, m !! o = Some s → spend_wf s) ∧
  (∀ x b, db_get d (seen_key x) = Some b → length b = 8%nat ∧ bytes_wf b).

(** The value of the counter of a key. *)
Definition seen_count (d : Db) (x : bytes) : Z := from_be (default [] (db_get d (seen_key x))).

(** What a batch under construction does to the outpoints. *)
Definition batch_holds (d : Db) (batch : WriteBatch) (m : index_map) : Prop :=
  ∀ o, outpoint_wf o → batch_at (outpoint_key o) (db_get d (outpoint_key o)) batch = encode_spend_lookup <$> m !! o.

Lemma seen_counter_ok d m x : holds d m →
  match db_get d (seen_key x) with Some b => read_u64_be b "seen key count" | None => Ok 0 end = Ok (seen_count d x).
Proof.
  intros (_ & _ & Hs). unfold seen_count. destruct (db_get d (seen_key x)) as [b|] eqn:E; [|done].
  destruct (Hs _ _ E) as [Hl _]. simpl. unfold read_u64_be. by rewrite Hl.
Qed.

(** The two operations [commit_created] appends. *)
Definition created_ops (d : Db) (c : CreatedScopedUtxo) : WriteBatch :=
  [BPut (outpoint_key (ue_outpoint (cu_entry c))) (encode_spend_lookup (created_lookup c));
   BPut (seen_key (ue_p2tr_xonly_key (cu_entry c)))
     (be_bytes 8 (saturating_add 64 (seen_count d (ue_p2tr_xonly_key (cu_entry c))) 1))].
Arguments created_ops : simpl never.
Definition spent_ops (b : AppliedBlock) : WriteBatch :=
  (λ s, BDelete (outpoint_key (su_outpoint s))) <$> ab_spent_utxos b.
Definition block_ops (d : Db) (b : AppliedBlock) : WriteBatch :=
  (ab_created_utxos b ≫= created_ops d) ++ spent_ops b.

Arguments block_ops : simpl never.

Lemma commit_created_ok d m batch c : holds d m →
  commit_created d batch c = Ok (batch ++ created_ops d c).
Proof.
  intros Hd. unfold commit_created. cbv zeta. rewrite (seen_counter_ok d m) by done. rsimpl.
  by rewrite <-app_assoc.
Qed.

Lemma commit_block_ok d m batch b : holds d m →
  commit_block d batch b = Ok (batch ++ block_ops d b).
Proof.
  intros Hd. unfold commit_block.
  assert (Hc : ∀ batch cs, fold_res (commit_created d) batch cs = Ok (batch ++ (cs ≫= created_ops d))).
  { intros b' cs. revert b'. induction cs as [|c cs IH]; intros b'; simpl; [by rewrite app_nil_r|].
    rewrite (commit_created_ok d m) by done. rsimpl. by rewrite IH, <-app_assoc. }
  rewrite Hc. rsimpl. unfold block_ops. by rewrite app_assoc.
Qed.

Lemma commit_batch d m blocks batch : holds d m →
  fold_res (commit_block d) batch blocks = Ok (batch ++ (blocks ≫= block_ops d)).
Proof.
  intros Hd. revert batch. induction blocks as [|b blocks IH]; intros batch; [simpl; by rewrite app_nil_r|].
  cbn [fold_res]. rewrite (commit_block_ok d m) by done. rsimpl. by rewrite IH, <-app_assoc.
Qed.

Lemma batch_holds_created d batch m c :
  created_wf c → batch_holds d batch m → batch_holds d (batch ++ created_ops d c) (add_created m c).
Proof.
  intros (Hc & _) Hb o Ho. rewrite batch_at_app, Hb by done. unfold created_ops, add_created. simpl.
  case_bool_decide as E.
  - apply outpoint_key_inj in E as <-; [|done..]. by rewrite lookup_insert_eq.
  - rewrite lookup_insert_ne; [done|]. by intros <-.
Qed.

Lemma batch_holds_spent d batch m o :
  outpoint_wf o → batch_holds d batch m → batch_holds d (batch ++ [BDelete (outpoint_key o)]) (delete o m).
Proof.
  intros Hs Hb o' Ho. rewrite batch_at_app, Hb by done. simpl. case_bool_decide as E.
  - apply outpoint_key_inj in E as <-; [|done..]. by rewrite lookup_delete_eq.
  - rewrite lookup_delete_ne; [done|]. by intros <-.
Qed.

Lemma batch_holds_block d batch m b :
  applied_wf b → batch_holds d batch m → batch_holds d (batch ++ block_ops d b) (index_block m b).
Proof.
  intros [Hc Hs] Hb. unfold block_ops, index_block, spent_ops. rewrite app_assoc.
  assert (batch_holds d (batch ++ (ab_created_utxos b ≫= created_ops d)) (foldl add_created m (ab_created_utxos b))) as Hb'.
  { clear Hs. revert batch m Hb. induction Hc as [|c cs Hc Hcs IH]; intros batch m Hb; [by rewrite app_nil_r|].
    cbn [foldl mbind list_bind].
    rewrite app_assoc. by apply IH, batch_holds_created. }
  revert Hb'. generalize (batch ++ (ab_created_utxos b ≫= created_ops d)) (foldl add_created m (ab_created_utxos b)).
  clear Hc Hb. induction Hs as [|s ss Hs Hss IH]; intros batch' m' Hb; simpl; [by rewrite app_nil_r|].
  rewrite cons_middle, app_assoc. by apply IH, batch_holds_spent.
Qed.

Lemma batch_holds_blocks d batch m blocks :
  Forall applied_wf blocks → batch_holds d batch m →
  batch_holds d (batch ++ (blocks ≫= block_ops d)) (foldl index_block m blocks).
Proof.
  intros Hw. revert batch m. induction Hw as [|b bs Hb Hbs IH]; intros batch m Hm; [by rewrite app_nil_r|].
  cbn [foldl mbind list_bind].
  rewrite app_assoc. by apply IH, batch_holds_block.
Qed.

(** The three operations at the end of the batch. *)
Definition tip_ops (h : Z) (hash : bytes) (u : Z) : WriteBatch :=
  [BPut KEY_TIP_HEIGHT (be_bytes 8 h); BPut KEY_TIP_HASH hash; BPut KEY_LAST_UID (be_bytes 8 u)].

Lemma tip_ops_meta h hash u op : op ∈ tip_ops h hash u → is_meta_key (op_key op).
Proof. unfold tip_ops. rewrite !elem_of_cons. intros [->|[->|[->|?]]]; [done..|set_solver]. Qed.

Lemma commit_ok d m blocks h hash u : holds d m →
  commit_applied_blocks d blocks h hash u = Ok (db_write d ((blocks ≫= block_ops d) ++ tip_ops h hash u)).
Proof. intros Hd. unfold commit_applied_blocks. rewrite (commit_batch d m) by done. done. Qed.

Lemma tip_after d batch h hash u :
  in_width 64 h → length hash = 32%nat → in_width 64 u →
  tip (db_write d (batch ++ tip_ops h hash u)) = Ok (Some {| it_height := h; it_block_hash := hash; it_last_uid := u |}).
Proof.
  intros Hh Hl Hu. unfold tip. rewrite !db_get_write, !batch_at_app.
  assert (∀ cur, batch_at KEY_TIP_HEIGHT cur (tip_ops h hash u) = Some (be_bytes 8 h)) as -> by reflexivity.
  assert (∀ cur, batch_at KEY_TIP_HASH cur (tip_ops h hash u) = Some hash) as -> by reflexivity.
  assert (∀ cur, batch_at KEY_LAST_UID cur (tip_ops h hash u) = Some (be_bytes 8 u)) as -> by reflexivity.
  rewrite (read_u64_be_bytes h) by done. rsimpl. rewrite read_32_ok by done. rsimpl.
  by rewrite (read_u64_be_bytes u).
Qed.

(** The keys a block's operations name. *)
Lemma block_ops_keys d blocks op : op ∈ (blocks ≫= block_ops d) →
  (∃ o, op_key op = outpoint_key o) ∨ ∃ b c, b ∈ blocks ∧ c ∈ ab_created_utxos b ∧
    op = BPut (seen_key (ue_p2tr_xonly_key (cu_entry c)))
           (be_bytes 8 (saturating_add 64 (seen_count d (ue_p2tr_xonly_key (cu_entry c))) 1)).
Proof.
  intros (b & Hop & Hb)%list_elem_of_bind. apply elem_of_app in Hop as [Hop|Hop].
  - apply list_elem_of_bind in Hop as (c & Hop & Hc). unfold created_ops in Hop.
    rewrite !elem_of_cons in Hop. destruct Hop as [->|[->|Hn]]; [left; eauto|right; eauto|set_solver].
  - apply list_elem_of_fmap in Hop as (s & -> & _). left. eauto.
Qed.

(** The keys of the outputs some blocks create. *)
Definition created_keys (blocks : list AppliedBlock) : list bytes :=
  (λ c, ue_p2tr_xonly_key (cu_entry c)) <$> (blocks ≫= ab_created_utxos).

Lemma created_keys_ops d blocks x :
  x ∈ created_keys blocks ↔ seen_key x ∈ op_key <$> ((blocks ≫= block_ops d) ++ tip_ops 0 [] 0).
Proof.
  unfold created_keys. rewrite !list_elem_of_fmap. split.
  - intros (c & -> & (b & Hc & Hb)%list_elem_of_bind). eexists. split; cycle 1.
    + apply elem_of_app. left. apply list_elem_of_bind. exists b. split; [|done].
      apply elem_of_app. left. apply list_elem_of_bind. exists c. split; [|done].
      right. left.
    + done.
  - intros (op & Hk & [Hop|Hop]%elem_of_app).
    + apply block_ops_keys in Hop as [[o Ho]|(b & c & Hb & Hc & ->)].
      * rewrite Ho in Hk. symmetry in Hk. by apply outpoint_seen_ne in Hk.
      * apply seen_key_inj in Hk as ->. exists c. split; [done|]. apply list_elem_of_bind. eauto.
    + apply tip_ops_meta in Hop. by apply seen_meta_ne in Hk.
Qed.

(** The counter of a key after a commit. *)
Lemma seen_after d blocks h hash u x :
  db_get (db_write d ((blocks ≫= block_ops d) ++ tip_ops h hash u)) (seen_key x) =
  if bool_decide (x ∈ created_keys blocks)
  then Some (be_bytes 8 (saturating_add 64 (seen_count d x) 1))
  else db_get d (seen_key x).
Proof.
  rewrite db_get_write, (batch_at_const _ (BPut (seen_key x) (be_bytes 8 (saturating_add 64 (seen_count d x) 1)))).
  - rewrite (bool_decide_ext _ (x ∈ created_keys blocks)); [done|].
    rewrite (created_keys_ops d), !fmap_app, !elem_of_app. done.
  - intros op [Hop|Hop]%elem_of_app Hk.
    + apply block_ops_keys in Hop as [[o Ho]|(b & c & _ & _ & ->)].
      * rewrite Ho in Hk. by apply outpoint_seen_ne in Hk.
      * simpl in Hk. apply seen_key_inj in Hk as ->. done.
    + apply tip_ops_meta in Hop. symmetry in Hk. by apply seen_meta_ne in Hk.
Qed.

Lemma seen_count_pos d m x : holds d m → 0 ≤ seen_count d x.
Proof.
  intros (_ & _ & Hs). unfold seen_count. destruct (db_get d (seen_key x)) eqn:E; simpl; [|done].
  destruct (Hs _ _ E) as [_ Hw]. apply from_be_bound in Hw. lia.
Qed.

Lemma index_blocks_wf m blocks :
  Forall applied_wf blocks → (∀ o s, m !! o = Some s → spend_wf s) →
  ∀ o s, foldl index_block m blocks !! o = Some s → spend_wf s.
Proof.
  intros Hw. revert m. induction Hw as [|b bs [Hc _] Hbs IH]; intros m Hm; [done|]. simpl. apply IH.
  unfold index_block.
  assert (∀ o s, foldl add_created m (ab_created_utxos b) !! o = Some s → spend_wf s) as Hm'.
  { clear IH. revert m Hm. induction Hc as [|c cs (_ & Hc & _) Hcs IH]; intros m Hm; [done|]. simpl. apply IH.
    intros o s. unfold add_created. intros [[_ <-]|[_ ?]]%lookup_insert_Some; eauto. }
  revert Hm'. generalize (foldl add_created m (ab_created_utxos b)). clear.
  induction (ab_spent_utxos b) as [|s ss IH]; intros m' Hm; [done|]. simpl. apply IH.
  intros o' s' [_ ?]%lookup_delete_Some. eauto.
Qed.

(** The metadata: written when absent, checked when present. *)
Lemma ensure_meta_value_ok d key value : db_get d key = None ∨ db_get d key = Some value →
  ∃ d', ensure_meta_value d key value = (d', Ok tt) ∧ db_get d' key = Some value ∧ ∀ k, k ≠ key → db_get d' k = db_get d k.
Proof.
  unfold ensure_meta_value. destruct (db_get d key) as [v|] eqn:E; intros [Hv|Hv]; try done.
  - injection Hv as ->. rewrite bool_decide_true by done. by exists d.
  - eexists. split; [done|]. split; [|intros k Hk]; rewrite db_get_write; simpl.
    + by rewrite bool_decide_true.
    + by rewrite bool_decide_false.
Qed.
Lemma ensure_meta_ok d network h :
  db_get d KEY_NETWORK = None ∨ db_get d KEY_NETWORK = Some network →
  db_get d KEY_START_HEIGHT = None ∨ db_get d KEY_START_HEIGHT = Some (be_bytes 8 h) →
  ∃ d', ensure_meta d network h = (d', Ok tt) ∧ db_get d' KEY_NETWORK = Some network ∧
    db_get d' KEY_START_HEIGHT = Some (be_bytes 8 h) ∧ ∀ k, k ∉ [KEY_NETWORK; KEY_START_HEIGHT] → db_get d' k = db_get d k.
Proof.
  intros Hn Hh. unfold ensure_meta. destruct (ensure_meta_value_ok d _ _ Hn) as (d1 & -> & H1 & Hk1).
  destruct (ensure_meta_value_ok d1 KEY_START_HEIGHT (be_bytes 8 h)) as (d2 & -> & H2 & Hk2); [by rewrite Hk1|].
  exists d2. split; [done|]. split; [by rewrite Hk2|]. split; [done|].
  intros k Hk. rewrite !elem_of_cons in Hk. rewrite Hk2, Hk1 by tauto. done.
Qed.

(** Other metadata changes nothing the store holds. *)
Lemma holds_meta d d' m : (∀ k, k ∉ [KEY_NETWORK; KEY_START_HEIGHT] → db_get d' k = db_get d k) → holds d m → holds d' m ∧ tip d' = tip d.
Proof.
  intros Hk (Hg & Hm & Hs).
  assert (∀ k, ¬ is_meta_key k → db_get d' k = db_get d k) as Hk'.
  { intros k Hn. apply Hk. rewrite !elem_of_cons, elem_of_nil. intros [->|[->|[]]]; by apply Hn. }
  split; [split_and!|].
  - intros o Ho. rewrite Hk'; [by apply Hg|]. intros Hmk. by apply (outpoint_meta_ne o) in Hmk.
  - done.
  - intros x b. rewrite Hk'; [apply Hs|]. intros Hmk. by apply (seen_meta_ne x) in Hmk.
  - unfold tip. by rewrite !Hk by (rewrite !elem_of_cons, elem_of_nil; intros [?|[?|[]]]; done).
Qed.

(** The store after a commit. *)
Lemma commit_holds d m blocks h hash u :
  holds d m → Forall applied_wf blocks → in_width 64 h → length hash = 32%nat → in_width 64 u →
  ∃ d', commit_applied_blocks d blocks h hash u = Ok d' ∧
    holds d' (foldl index_block m blocks) ∧
    tip d' = Ok (Some {| it_height := h; it_block_hash := hash; it_last_uid := u |}) ∧
    (∀ k, is_meta_key k → k ∉ op_key <$> tip_ops h hash u → db_get d' k = db_get d k).
Proof.
  intros Hd Hw Hh Hl Hu. eexists. split; [by apply (commit_ok d m)|]. split; [|split; [by apply tip_after|]]; cycle 1.
  { intros k Hk Hn. rewrite db_get_write. apply batch_at_other. intros op [Hop|Hop]%elem_of_app E.
    - apply block_ops_keys in Hop as [[o Ho]|(b & c & _ & _ & ->)].
      + rewrite E in Ho. by apply (outpoint_meta_ne o) in Hk.
      + simpl in E. by apply (seen_meta_ne _ _ Hk) in E.
    - apply Hn. rewrite <-E. by apply list_elem_of_fmap_2. }
  pose proof Hd as (Hg & Hm & Hs). split_and!.
  - intros o Ho. rewrite db_get_write, batch_at_app, batch_at_other.
    + apply (batch_holds_blocks d [] m blocks Hw Hg o Ho).
    + intros op Hop%tip_ops_meta E. symmetry in E. by apply outpoint_meta_ne in E.
  - by apply index_blocks_wf.
  - intros x b. rewrite seen_after. case_bool_decide; [|apply Hs].
    intros [= <-]. split; [by rewrite length_be_bytes|apply be_bytes_wf].
Qed.

(** ** Theorems *)

(** C20: committing blocks refines the index map: a store that holds [m] holds, after
    the commit, the map obtained by adding the created outputs and removing the spent
    outpoints of every block in turn, and its tip is the committed one.  The commit
    does not fail. *)
Theorem commit_refines d m blocks h hash u :
  holds d m → Forall applied_wf blocks → in_width 64 h → length hash = 32%nat → in_width 64 u →
  ∃ d', commit_applied_blocks d blocks h hash u = Ok d' ∧
    holds d' (foldl index_block m blocks) ∧
    tip d' = Ok (Some {| it_height := h; it_block_hash := hash; it_last_uid := u |}).
Proof.
  intros Hd Hw Hh Hl Hu. destruct (commit_holds d m blocks h hash u Hd Hw Hh Hl Hu) as (d' & ? & ? & ? & _). by exists d'.
Qed.

(** The lookups of a store that holds a map are those of the map, in the order of
    the request. *)
Theorem lookup_outpoint_uids_spec d m os :
  holds d m → Forall outpoint_wf os →
  lookup_outpoint_uids d os = Ok (omap (λ o, pair o <$> m !! o) os).
Proof.
  intros (Hg & Hs & _) Hos. unfold lookup_outpoint_uids.
  assert (∀ acc, fold_res (λ found outpoint,
    match db_get d (outpoint_key outpoint) with
    | Some value => s ← read_spend_lookup value; Ok (found ++ [(outpoint, s)])
    | None => Ok found
    end) acc os = Ok (acc ++ omap (λ o, pair o <$> m !! o) os)) as H; [|apply H].
  induction Hos as [|o os Ho Hos IH]; intros acc; [simpl; by rewrite app_nil_r|].
  cbn [fold_res]. rewrite Hg by done. cbn [omap list_omap]. destruct (m !! o) as [s|] eqn:E; cbn [fmap option_fmap option_map].
  - rewrite read_encode_spend by eauto. rsimpl. by rewrite IH, <-app_assoc.
  - rsimpl. apply IH.
Qed.

(** A commit counts a reused key once, not once per output: the counter is read
    from the database, which the batch under construction has not reached. *)
Theorem commit_undercounts_seen d m blocks h hash u d' x :
  holds d m → commit_applied_blocks d blocks h hash u = Ok d' →
  x ∈ created_keys blocks → seen_count d x < umax 64 → seen_count d' x = seen_count d x + 1.
Proof.
  intros Hd Hc Hx Hn. rewrite (commit_ok d m) in Hc by done. injection Hc as <-.
  unfold seen_count at 1. rewrite seen_after, bool_decide_true by done. simpl.
  pose proof (seen_count_pos d m x Hd). unfold umax in *.
  rewrite from_be_be_bytes; unfold saturating_add, umax; lia.
Qed.
End store_proofs.

(** ** A concrete store *)
#[local] Existing Instance memory_store.
Definition demo_out : OutPointKey := {| op_txid := replicate 32 7; op_vout := 1 |}.
Definition demo_out2 : OutPointKey := {| op_txid := replicate 32 8; op_vout := 0 |}.
Definition demo_created (o : OutPointKey) (uid : Z) : CreatedScopedUtxo := {|
  cu_entry := {| ue_outpoint := o; ue_uid := uid; ue_created_height := 100; ue_created_block_hash := replicate 32 1;
                 ue_tx_index := 1; ue_output_index := 0; ue_value_sat := 5000; ue_script_pubkey := [];
                 ue_p2tr_xonly_key := replicate 32 3 |};
  cu_is_nums := false; cu_is_reused := false; cu_reuse_count_at_creation := 0 |}.
Definition demo_light : LightBlockInput := {|
  lb_height := 100; lb_block_hash := replicate 32 1; lb_previous_block_hash := replicate 32 0;
  lb_first_uid := 5; lb_tx_count := 0; lb_skipped_txs_for_tweaks := [];
  lb_tweaks := []; lb_truncated_output_hash_bits := 0; lb_truncated_output_hashes := [];
  lb_spent_id_codec := EliasDeltaAscendingAbsolute; lb_spent_count := 0; lb_spent_ids := [] |}.
Definition demo_applied : AppliedBlock := {|
  ab_light_block := demo_light; ab_storage_block := demo_stored; ab_stats := stats_default;
  ab_created_utxos := [demo_created demo_out 5; demo_created demo_out2 6];
  ab_spent_utxos := [{| su_outpoint := demo_out; su_uid := 5; su_creation_height := 100; su_output_index := 0;
                        su_flags := 0; su_spent_height := 101; su_spent_block_hash := replicate 32 2;
                        su_spend_tx_index := 1 |}] |}.

Definition demo_db : Db := (∅ : gmap bytes bytes).
Lemma holds_empty : holds demo_db ∅.
Proof. split_and!; done. Qed.

Lemma demo_applied_wf : Forall applied_wf [demo_applied].
Proof.
  assert (∀ n, is_byte n → hash_wf (replicate 32 n)) as Hh.
  { intros n Hn. split; [done|by apply Forall_replicate]. }
  repeat constructor; simpl; try (unfold is_byte, in_width; lia); apply Hh; unfold is_byte; lia.
Qed.

Lemma commit_refines_witness :
  ∃ d', commit_applied_blocks demo_db [demo_applied] 100 (replicate 32 1) 6 = Ok d' ∧
    holds d' (foldl index_block ∅ [demo_applied]) ∧
    tip d' = Ok (Some {| it_height := 100; it_block_hash := replicate 32 1; it_last_uid := 6 |}).
Proof.
  apply (commit_refines demo_db ∅ [demo_applied] 100 (replicate 32 1) 6);
    [apply holds_empty|apply demo_applied_wf|unfold in_width; lia|done|unfold in_width; lia].
Defined.

Lemma lookup_outpoint_uids_spec_witness :
  lookup_outpoint_uids demo_db [demo_out] = Ok (omap (λ o, pair o <$> (∅ : index_map) !! o) [demo_out]).
Proof.
  apply (lookup_outpoint_uids_spec demo_db ∅ [demo_out]); [apply holds_empty|].
  repeat constructor; simpl; try (unfold is_byte, in_width; lia).
Defined.

Lemma commit_undercounts_seen_witness :
  ∃ d', commit_applied_blocks demo_db [demo_applied] 100 (replicate 32 1) 6 = Ok d' ∧
    seen_count d' (replicate 32 3) = 0 + 1.
Proof.
  eexists. split; [vm_compute; reflexivity|].
  apply (commit_undercounts_seen demo_db ∅ [demo_applied] 100 (replicate 32 1) 6);
    [apply holds_empty|vm_compute; reflexivity|left|vm_compute; reflexivity].
Defined.
