(* ===== verification/PrevoutStore.v ===== *)
(** * The prevout store

    Model of [light-server/src/prevout_store.rs]: the compact prevout entries and
    their encoding (with the legacy layout), the overlay of pending writes over the
    database, and the enrichment of a block with its scan points.  The database is the
    parameter [KvStore]; [tracing] output and [len_estimate], which reads a RocksDB
    property, are not modelled. *)

From S2P Require Import Prelude Helper P2trIndexer ScriptClassify TaggedHash SpTweak Decimal Kv IndexStore.

Definition HASH160_LEN : nat := 20.
Definition XONLY_KEY_LEN : nat := 32.
Definition ENCODED_PREVOUT_HEADER_LEN : nat := 1.
Definition ENCODED_PREVOUT_MAX_LEN : nat := 33.
Definition LEGACY_ENCODED_PREVOUT_HEADER_LEN : nat := 9.

Inductive CompactPrevoutScriptKind := KdP2pkh | KdP2sh | KdP2wpkh | KdP2tr | KdNonEligible | KdWitnessGtV1.
Definition kind_byte (k : CompactPrevoutScriptKind) : Z :=
  match k with KdP2pkh => 0 | KdP2sh => 1 | KdP2wpkh => 2 | KdP2tr => 3 | KdNonEligible => 4 | KdWitnessGtV1 => 5 end.
Definition from_byte (byte : Z) : res CompactPrevoutScriptKind :=
  match byte with
  | 0 => Ok KdP2pkh | 1 => Ok KdP2sh | 2 => Ok KdP2wpkh | 3 => Ok KdP2tr | 4 => Ok KdNonEligible
  | 5 => Ok KdWitnessGtV1
  | _ => Err "unsupported prevout entry script kind"
  end.

Definition hash160_from_payload (payload : bytes) (context : string) : res bytes :=
  _ ← ensure (bool_decide (length payload = HASH160_LEN)) ("invalid " +:+ context +:+ " payload length");
  copy_20 payload.

Definition META_TIP_HEIGHT_KEY : bytes := ascii_bytes "m:tip_height".
Definition META_TIP_HASH_KEY : bytes := ascii_bytes "m:tip_hash".

Definition outpoint_bytes (outpoint : OutPointKey) : bytes := op_txid outpoint ++ le_bytes 4 (op_vout outpoint).
(** [b"p:"]. *)
Definition rocks_prevout_key (outpoint : OutPointKey) : bytes := [112; 58] ++ outpoint_bytes outpoint.

(** [dst[off..off + src.len()].copy_from_slice(src)] on an array that is long enough. *)
Definition copy_into (dst : bytes) (off : nat) (src : bytes) : bytes :=
  take off dst ++ src ++ drop (off + length src) dst.

Record EncodedPrevoutEntry := { ee_bytes : bytes; ee_len : nat }.
Definition entry_as_ref (e : EncodedPrevoutEntry) : bytes := take (ee_len e) (ee_bytes e).

Section prevouts.
Context `{!Secp, !ScriptTemplates}.

Inductive CompactPrevoutScript :=
  | CP2pkh (pubkey_hash : bytes)
  | CP2sh (script_hash : bytes)
  | CP2wpkh (pubkey_hash : bytes)
  | CP2tr (output_key : XOnlyPublicKey)
  | CNonEligible
  | CWitnessGtV1 (version : Z).

Definition xonly_key_from_payload (payload : bytes) : res XOnlyPublicKey :=
  _ ← ensure (bool_decide (length payload = XONLY_KEY_LEN)) "invalid p2tr prevout payload length";
  ok_or (xonly_from_slice payload) "invalid p2tr x-only output key".

(** [EncodedPrevoutEntry::new]. *)
Definition encode_prevout_entry (script : CompactPrevoutScript) : EncodedPrevoutEntry :=
  let bytes0 := replicate ENCODED_PREVOUT_MAX_LEN 0 in
  let with_kind k := <[0%nat := kind_byte k]> bytes0 in
  match script with
  | CP2pkh pubkey_hash =>
      {| ee_bytes := copy_into (with_kind KdP2pkh) 1 pubkey_hash; ee_len := ENCODED_PREVOUT_HEADER_LEN + HASH160_LEN |}
  | CP2sh script_hash =>
      {| ee_bytes := copy_into (with_kind KdP2sh) 1 script_hash; ee_len := ENCODED_PREVOUT_HEADER_LEN + HASH160_LEN |}
  | CP2wpkh pubkey_hash =>
      {| ee_bytes := copy_into (with_kind KdP2wpkh) 1 pubkey_hash; ee_len := ENCODED_PREVOUT_HEADER_LEN + HASH160_LEN |}
  | CP2tr output_key =>
      {| ee_bytes := copy_into (with_kind KdP2tr) 1 (xonly_serialize output_key);
         ee_len := ENCODED_PREVOUT_HEADER_LEN + XONLY_KEY_LEN |}
  | CNonEligible => {| ee_bytes := with_kind KdNonEligible; ee_len := ENCODED_PREVOUT_HEADER_LEN |}
  | CWitnessGtV1 version =>
      {| ee_bytes := <[1%nat := version]> (with_kind KdWitnessGtV1); ee_len := ENCODED_PREVOUT_HEADER_LEN + 1 |}
  end.

Definition compact_prevout_script (script_pubkey : bytes) : res (option CompactPrevoutScript) :=
  k ← classify_script script_pubkey;
  Ok (match k with
      | KP2pkh h => Some (CP2pkh h)
      | KP2sh h => Some (CP2sh h)
      | KP2wpkh h => Some (CP2wpkh h)
      | KP2tr k => CP2tr <$> xonly_from_slice k
      | KWitnessUnknown version _ => if bool_decide (2 ≤ version) then Some (CWitnessGtV1 version) else Some CNonEligible
      | KP2wsh _ | KOther => Some CNonEligible
      | KOpReturn => None
      end).

Definition prevout_info_from_compact (s : CompactPrevoutScript) : PrevoutInfo :=
  {| script := match s with
               | CP2pkh pubkey_hash => PP2pkh pubkey_hash
               | CP2sh script_hash => PP2sh script_hash
               | CP2wpkh pubkey_hash => PP2wpkh pubkey_hash
               | CP2tr output_key => PP2tr output_key
               | CNonEligible => POther
               | CWitnessGtV1 version => PWitnessUnknown version
               end |}.

(** The kind byte and the payload of an entry, by its length. *)
Definition split_entry (b : bytes) : res (Z * bytes) :=
  let l := length b in
  if bool_decide (l = ENCODED_PREVOUT_HEADER_LEN) || bool_decide (l = ENCODED_PREVOUT_HEADER_LEN + 1)%nat
     || bool_decide (l = ENCODED_PREVOUT_HEADER_LEN + HASH160_LEN)%nat
     || bool_decide (l = ENCODED_PREVOUT_HEADER_LEN + XONLY_KEY_LEN)%nat then
    k ← index b 0; p ← slice b 1 l; Ok (k, p)
  else if bool_decide (l = LEGACY_ENCODED_PREVOUT_HEADER_LEN + HASH160_LEN)%nat
     || bool_decide (l = LEGACY_ENCODED_PREVOUT_HEADER_LEN + XONLY_KEY_LEN)%nat then
    k ← index b 8; p ← slice b 9 l; Ok (k, p)
  else Err "invalid prevout entry length".

Definition decode_prevout_entry (b : bytes) : res CompactPrevoutScript :=
  _ ← ensure (bool_decide (ENCODED_PREVOUT_HEADER_LEN ≤ length b)%nat) "prevout entry is too short";
  '(kind, payload) ← split_entry b;
  k ← from_byte kind;
  match k with
  | KdP2pkh => h ← hash160_from_payload payload "p2pkh prevout"; Ok (CP2pkh h)
  | KdP2sh => h ← hash160_from_payload payload "p2sh prevout"; Ok (CP2sh h)
  | KdP2wpkh => h ← hash160_from_payload payload "p2wpkh prevout"; Ok (CP2wpkh h)
  | KdP2tr => k ← xonly_key_from_payload payload; Ok (CP2tr k)
  | KdNonEligible => Ok CNonEligible
  | KdWitnessGtV1 =>
      _ ← ensure (bool_decide (length payload = 1%nat)) "invalid witness>v1 prevout payload length";
      v ← index payload 0; Ok (CWitnessGtV1 v)
  end.

(** ** Pending writes *)
Record PendingPrevoutWrites := {
  puts : gmap OutPointKey CompactPrevoutScript; deletes : gset OutPointKey
}.
Definition pending_default : PendingPrevoutWrites := {| puts := ∅; deletes := ∅ |}.

Inductive PendingPrevoutLookup := Present (entry : CompactPrevoutScript) | Tombstoned | Absent.

Definition pending_is_empty (self : PendingPrevoutWrites) : bool :=
  bool_decide (size (puts self) = 0%nat) && bool_decide (size (deletes self) = 0%nat).
Definition pending_len (self : PendingPrevoutWrites) : nat := size (puts self) + size (deletes self).

Definition pending_lookup (self : PendingPrevoutWrites) (outpoint : OutPointKey) : PendingPrevoutLookup :=
  match puts self !! outpoint with
  | Some entry => Present entry
  | None => if bool_decide (outpoint ∈ deletes self) then Tombstoned else Absent
  end.
Definition pending_put (self : PendingPrevoutWrites) (outpoint : OutPointKey) (entry : CompactPrevoutScript) : PendingPrevoutWrites :=
  {| puts := <[outpoint := entry]> (puts self); deletes := deletes self ∖ {[outpoint]} |}.
Definition pending_delete (self : PendingPrevoutWrites) (outpoint : OutPointKey) : PendingPrevoutWrites :=
  match puts self !! outpoint with
  | Some _ => {| puts := delete outpoint (puts self); deletes := deletes self |}
  | None => {| puts := puts self; deletes := {[outpoint]} ∪ deletes self |}
  end.

(** ** The store *)
Context `{!KvStore}.

Record PrevoutStore := { ps_db : Db; ps_tip_height : option Z; ps_tip_hash : option bytes }.

(** [PrevoutStore::open] on a database that RocksDB could open. *)
Definition prevout_open (db : Db) : res PrevoutStore :=
  tip_height ← match db_get db META_TIP_HEIGHT_KEY with
               | None => Ok None
               | Some b => _ ← ensure (bool_decide (length b = 8%nat)) "invalid prevout store tip height metadata";
                           Ok (Some (from_le b))
               end;
  tip_hash ← match db_get db META_TIP_HASH_KEY with
             | None => Ok None
             | Some b => _ ← ensure (bool_decide (length b = 32%nat)) "invalid prevout store tip hash metadata";
                         Ok (Some b)
             end;
  Ok {| ps_db := db; ps_tip_height := tip_height; ps_tip_hash := tip_hash |}.

Definition prevout_tip (self : PrevoutStore) : option Z * option bytes := (ps_tip_height self, ps_tip_hash self).

Definition lookup_prevout (self : PrevoutStore) (pending : PendingPrevoutWrites) (outpoint : OutPointKey) : res (option CompactPrevoutScript) :=
  match pending_lookup pending outpoint with
  | Present entry => Ok (Some entry)
  | Tombstoned => Ok None
  | Absent => match db_get (ps_db self) (rocks_prevout_key outpoint) with
              | None => Ok None
              | Some b => e ← decode_prevout_entry b; Ok (Some e)
              end
  end.

(** The maps are iterated in an order the source leaves open: that of [gmap]. *)
Definition apply_pending (self : PrevoutStore) (pending : PendingPrevoutWrites) (height : Z) (block_hash : bytes) : PrevoutStore :=
  let batch := (λ o, BDelete (rocks_prevout_key o)) <$> elements (deletes pending) in
  let batch := batch ++ ((λ '(o, e), BPut (rocks_prevout_key o) (entry_as_ref (encode_prevout_entry e))) <$> map_to_list (puts pending)) in
  let batch := batch ++ [BPut META_TIP_HEIGHT_KEY (le_bytes 8 height); BPut META_TIP_HASH_KEY block_hash] in
  {| ps_db := db_write (ps_db self) batch; ps_tip_height := Some height; ps_tip_hash := Some block_hash |}.

(** ** Enrichment *)
Context `{!Hash160, !Sha256}.

Record PrevoutMutationStats := { contexts_created : Z; delete_attempts : Z; scan_point_prevout_lookups : Z }.

Definition set_tweak (tx : TxScanInput) (t : option bytes) : TxScanInput :=
  {| tx_txid := tx_txid tx; tx_tx_index := tx_tx_index tx; tx_inputs := tx_inputs tx; tx_outputs := tx_outputs tx;
     tx_silent_payment_tweak := t |}.

Definition add_lookup (s : PrevoutMutationStats) : PrevoutMutationStats :=
  {| contexts_created := contexts_created s; delete_attempts := delete_attempts s;
     scan_point_prevout_lookups := wrap 64 (scan_point_prevout_lookups s + 1) |}.
Definition add_delete (s : PrevoutMutationStats) : PrevoutMutationStats :=
  {| contexts_created := contexts_created s; delete_attempts := wrap 64 (delete_attempts s + 1);
     scan_point_prevout_lookups := scan_point_prevout_lookups s |}.
Definition add_context (s : PrevoutMutationStats) : PrevoutMutationStats :=
  {| contexts_created := wrap 64 (contexts_created s + 1); delete_attempts := delete_attempts s;
     scan_point_prevout_lookups := scan_point_prevout_lookups s |}.

Definition input_context (self : PrevoutStore) (pending : PendingPrevoutWrites)
    (acc : list TxInputContext * PrevoutMutationStats) (input : TxInputScan) : res (list TxInputContext * PrevoutMutationStats) :=
  let '(ctx, stats) := acc in
  let stats := if is_coinbase (ti_previous_output input) then stats else add_lookup stats in
  entry ← lookup_prevout self pending (ti_previous_output input);
  Ok (ctx ++ [{| previous_output := ti_previous_output input; script_sig := ti_script_sig input;
                 witness := ti_witness input; prevout := prevout_info_from_compact <$> entry |}], stats).

Definition enrich_tx_scan_point (self : PrevoutStore) (pending : PendingPrevoutWrites) (tx : TxScanInput)
    (stats : PrevoutMutationStats) : res (TxScanInput * PrevoutMutationStats) :=
  if negb (existsb to_is_p2tr (tx_outputs tx)) then Ok (set_tweak tx None, stats)
  else if bool_decide (is_Some (tx_silent_payment_tweak tx)) then Ok (tx, stats)
  else
    '(ctx, stats) ← fold_res (input_context self pending) ([], stats) (tx_inputs tx);
    status ← compute_tx_scan_point ctx;
    Ok (set_tweak tx (match status with Computed tweak => Some tweak | _ => None end), stats).

Definition apply_tx_spends (pending : PendingPrevoutWrites) (tx : TxScanInput) (stats : PrevoutMutationStats) : PendingPrevoutWrites * PrevoutMutationStats :=
  foldl (λ '(pending, stats) input,
    if is_coinbase (ti_previous_output input) then (pending, stats)
    else (pending_delete pending (ti_previous_output input), add_delete stats)) (pending, stats) (tx_inputs tx).

Definition apply_tx_outputs (pending : PendingPrevoutWrites) (tx : TxScanInput) (stats : PrevoutMutationStats) : res (PendingPrevoutWrites * PrevoutMutationStats) :=
  fold_res (λ '(pending, stats) output,
    s ← compact_prevout_script (to_script_pubkey output);
    Ok (match s with
        | None => (pending, stats)
        | Some s => (pending_put pending {| op_txid := tx_txid tx; op_vout := to_vout output |} s, add_context stats)
        end)) (pending, stats) (tx_outputs tx).

Definition enrich_tx (self : PrevoutStore) (acc : PendingPrevoutWrites * list TxScanInput * PrevoutMutationStats)
    (tx : TxScanInput) : res (PendingPrevoutWrites * list TxScanInput * PrevoutMutationStats) :=
  let '(pending, txs, stats) := acc in
  '(tx, stats) ← enrich_tx_scan_point self pending tx stats;
  let '(pending, stats) := apply_tx_spends pending tx stats in
  '(pending, stats) ← apply_tx_outputs pending tx stats;
  Ok (pending, txs ++ [tx], stats).

Definition enrich_block_scan_points (self : PrevoutStore) (pending : PendingPrevoutWrites) (block : BlockScanInput) : res (PendingPrevoutWrites * BlockScanInput * PrevoutMutationStats) :=
  let stats := {| contexts_created := 0; delete_attempts := 0; scan_point_prevout_lookups := 0 |} in
  '(pending, txs, stats) ← fold_res (enrich_tx self) (pending, [], stats) (bk_txs block);
  Ok (pending, {| bk_height := bk_height block; bk_block_hash := bk_block_hash block;
                  bk_previous_block_hash := bk_previous_block_hash block; bk_raw_block_bytes := bk_raw_block_bytes block;
                  bk_txs := txs |}, stats).

End prevouts.

(** ** Entries *)

Section entry_proofs.
Context `{SC : Secp, ST : ScriptTemplates}.

Definition entry_wf (s : CompactPrevoutScript) : Prop :=
  match s with CP2pkh h | CP2sh h | CP2wpkh h => length h = 20%nat | _ => True end.

(** The kind and the payload an entry is written with. *)
Definition entry_kind (s : CompactPrevoutScript) : CompactPrevoutScriptKind :=
  match s with
  | CP2pkh _ => KdP2pkh | CP2sh _ => KdP2sh | CP2wpkh _ => KdP2wpkh | CP2tr _ => KdP2tr
  | CNonEligible => KdNonEligible | CWitnessGtV1 _ => KdWitnessGtV1
  end.
Definition entry_payload (s : CompactPrevoutScript) : bytes :=
  match s with
  | CP2pkh h | CP2sh h | CP2wpkh h => h | CP2tr k => xonly_serialize k | CNonEligible => [] | CWitnessGtV1 v => [v]
  end.
(** The kinds the first layout of the store had. *)
Definition legacy_kind (s : CompactPrevoutScript) : bool :=
  match s with CP2pkh _ | CP2sh _ | CP2wpkh _ | CP2tr _ => true | _ => false end.

Lemma take_copy_into k z src n :
  n = S (length src) → take n (copy_into (k :: z) 1 src) = k :: src.
Proof. intros ->. unfold copy_into. simpl. f_equal. by rewrite take_app_length. Qed.

Lemma xonly_length k : length (xonly_serialize k) = 32%nat.
Proof. apply xonly_serialize_wf. Qed.

Lemma entry_bytes s : entry_wf s →
  entry_as_ref (encode_prevout_entry s) = kind_byte (entry_kind s) :: entry_payload s.
Proof.
  intros Hs. unfold entry_as_ref.
  destruct s as [h|h|h|k| |v]; cbn [encode_prevout_entry ee_bytes ee_len entry_kind entry_payload]; try done;
    apply take_copy_into; simpl in Hs; rewrite ?xonly_length;
    unfold ENCODED_PREVOUT_HEADER_LEN, HASH160_LEN, XONLY_KEY_LEN; lia.
Qed.

Lemma entry_payload_length s : entry_wf s →
  (length (entry_payload s) = 0 ∨ length (entry_payload s) = 1 ∨ length (entry_payload s) = 20 ∨ length (entry_payload s) = 32)%nat ∧
  (legacy_kind s = true → length (entry_payload s) = 20 ∨ length (entry_payload s) = 32)%nat.
Proof. intros Hs. destruct s; simpl in *; rewrite ?xonly_length; split; intros; try done; lia. Qed.

(** The payload is read back whatever header was split off. *)
Lemma decode_payload b s :
  entry_wf s → (1 ≤ length b)%nat → split_entry b = Ok (kind_byte (entry_kind s), entry_payload s) →
  decode_prevout_entry b = Ok s.
Proof.
  intros Hs Hb E. unfold decode_prevout_entry. rewrite (ensure_ok (ENCODED_PREVOUT_HEADER_LEN ≤ length b)%nat) by done.
  rsimpl. rewrite E. rsimpl. destruct s as [h|h|h|k| |v]; cbn [entry_kind kind_byte from_byte entry_payload] in *; rsimpl;
    simpl in Hs; try done;
    try (unfold hash160_from_payload; rewrite (ensure_ok (length h = HASH160_LEN)) by done; rsimpl;
         rewrite copy_20_ok by done; done).
  unfold xonly_key_from_payload. rewrite (ensure_ok (length _ = XONLY_KEY_LEN)) by apply xonly_length.
  rsimpl. by rewrite xonly_from_serialize.
Qed.

Lemma split_entry_new s : entry_wf s →
  split_entry (kind_byte (entry_kind s) :: entry_payload s) = Ok (kind_byte (entry_kind s), entry_payload s).
Proof.
  intros Hs. destruct (entry_payload_length s Hs) as [Hl _]. unfold split_entry.
  set (l := length (_ :: _)).
  assert (Hc : bool_decide (l = ENCODED_PREVOUT_HEADER_LEN) || bool_decide (l = ENCODED_PREVOUT_HEADER_LEN + 1)%nat
     || bool_decide (l = ENCODED_PREVOUT_HEADER_LEN + HASH160_LEN)%nat
     || bool_decide (l = ENCODED_PREVOUT_HEADER_LEN + XONLY_KEY_LEN)%nat = true).
  { subst l. simpl. rewrite !orb_true_iff, !bool_decide_eq_true.
    unfold ENCODED_PREVOUT_HEADER_LEN, HASH160_LEN, XONLY_KEY_LEN. lia. }
  rewrite Hc. rewrite (index_ok _ 0 (kind_byte (entry_kind s))) by done. rsimpl.
  rewrite slice_ok by (subst l; simpl; lia). rsimpl. subst l. simpl. by rewrite drop_0, firstn_all2 by lia.
Qed.

Lemma split_entry_legacy v s : entry_wf s → legacy_kind s = true → length v = 8%nat →
  split_entry (v ++ kind_byte (entry_kind s) :: entry_payload s) = Ok (kind_byte (entry_kind s), entry_payload s).
Proof.
  intros Hs Hk Hv. destruct (entry_payload_length s Hs) as [_ Hl]. specialize (Hl Hk). unfold split_entry.
  assert (El : length (v ++ kind_byte (entry_kind s) :: entry_payload s) = (9 + length (entry_payload s))%nat).
  { rewrite length_app, Hv. done. }
  rewrite El. unfold ENCODED_PREVOUT_HEADER_LEN, LEGACY_ENCODED_PREVOUT_HEADER_LEN, HASH160_LEN, XONLY_KEY_LEN.
  assert (∀ m, (m < 9 ∨ m = 21 ∨ m = 33)%nat → bool_decide (9 + length (entry_payload s) = m)%nat = false) as Hn
    by (intros; apply bool_decide_false; lia).
  rewrite !Hn by lia. cbn [orb].
  assert (bool_decide (9 + length (entry_payload s) = 9 + 20)%nat || bool_decide (9 + length (entry_payload s) = 9 + 32)%nat = true) as ->.
  { rewrite orb_true_iff, !bool_decide_eq_true. lia. }
  rewrite (index_ok _ 8 (kind_byte (entry_kind s))) by (by rewrite lookup_app_r, Hv by lia). rsimpl.
  rewrite slice_ok by (rewrite length_app; simpl; lia). rsimpl.
  rewrite cons_middle, app_assoc, drop_app_exact by (rewrite length_app; simpl; lia).
  by rewrite firstn_all2 by lia.
Qed.

Lemma decode_encode_entry s : entry_wf s → decode_prevout_entry (entry_as_ref (encode_prevout_entry s)) = Ok s.
Proof.
  intros Hs. rewrite entry_bytes by done. apply decode_payload; [done|simpl; lia|by apply split_entry_new].
Qed.

(** A prevout entry decodes to the script it was written for, in the layout
    written today and, for the kinds that existed then, behind the eight-byte value of
    the first layout. *)
Theorem prevout_entry_roundtrip s v :
  entry_wf s → length v = 8%nat →
  decode_prevout_entry (entry_as_ref (encode_prevout_entry s)) = Ok s ∧
  (legacy_kind s = true → decode_prevout_entry (v ++ entry_as_ref (encode_prevout_entry s)) = Ok s).
Proof.
  intros Hs Hv. split; [by apply decode_encode_entry|]. intros Hk. rewrite entry_bytes by done.
  apply decode_payload; [done|rewrite length_app; simpl; lia|by apply split_entry_legacy].
Qed.
End entry_proofs.

(** ** The overlay of pending writes *)

Section overlay.
Context `{SC : Secp, ST : ScriptTemplates, KS : KvStore, HH : Hash160, SH : Sha256}.

Abbreviation prevout_map := (gmap OutPointKey CompactPrevoutScript).

(** The prevouts the store and the pending writes stand for. *)
Definition view (self : PrevoutStore) (p : PendingPrevoutWrites) (m : prevout_map) : Prop :=
  ∀ o, outpoint_wf o → lookup_prevout self p o = Ok (m !! o).

(** No pending put has a row in the database or a tombstone. *)
Definition fresh (self : PrevoutStore) (p : PendingPrevoutWrites) : Prop :=
  ∀ o e, puts p !! o = Some e → db_get (ps_db self) (rocks_prevout_key o) = None ∧ o ∉ deletes p.

Definition pending_wf (p : PendingPrevoutWrites) : Prop :=
  (∀ o e, puts p !! o = Some e → outpoint_wf o ∧ entry_wf e) ∧ (∀ o, o ∈ deletes p → outpoint_wf o).

Lemma rocks_key_inj o o' : outpoint_wf o → outpoint_wf o' → rocks_prevout_key o = rocks_prevout_key o' → o = o'.
Proof.
  destruct o as [t v], o' as [t' v']. intros [[Ht _] Hv] [[Ht' _] Hv'] E. injection E as E. unfold outpoint_bytes in E. cbn [op_txid op_vout] in *.
  apply app_inj_1 in E as [-> E]; [|by rewrite Ht, Ht'].
  f_equal. by rewrite <-(from_le_le_bytes 4 v), <-(from_le_le_bytes 4 v'), E.
Qed.

Lemma put_view self p m o e : view self p m → view self (pending_put p o e) (<[o := e]> m).
Proof.
  intros Hv o' Ho'. specialize (Hv o' Ho'). unfold lookup_prevout, pending_lookup in *. simpl.
  destruct (decide (o = o')) as [->|Hne]; [by rewrite !lookup_insert_eq|].
  rewrite !lookup_insert_ne by done. destruct (puts p !! o'); [done|].
  rewrite (bool_decide_ext (o' ∈ deletes p ∖ {[o]}) (o' ∈ deletes p)) by set_solver. done.
Qed.

Lemma delete_view self p m o : fresh self p → view self p m → view self (pending_delete p o) (delete o m).
Proof.
  intros Hf Hv o' Ho'. specialize (Hv o' Ho'). unfold pending_delete, lookup_prevout, pending_lookup in *.
  destruct (decide (o = o')) as [->|Hne].
  - rewrite lookup_delete_eq. destruct (puts p !! o') as [e|] eqn:E; simpl.
    + destruct (Hf _ _ E) as [Hd Hn]. by rewrite lookup_delete_eq, bool_decide_false, Hd.
    + by rewrite E, bool_decide_true by set_solver.
  - rewrite lookup_delete_ne by done. destruct (puts p !! o) as [e|] eqn:E; simpl.
    + by rewrite lookup_delete_ne.
    + destruct (puts p !! o'); [done|].
      rewrite (bool_decide_ext (o' ∈ {[o]} ∪ deletes p) (o' ∈ deletes p)) by set_solver. done.
Qed.

Lemma put_fresh self p o e :
  db_get (ps_db self) (rocks_prevout_key o) = None → fresh self p → fresh self (pending_put p o e).
Proof.
  intros Hd Hf o' e'. simpl. intros [[<- _]|[Hne Hp]]%lookup_insert_Some; [split; [done|set_solver]|].
  destruct (Hf _ _ Hp). split; [done|set_solver].
Qed.

Lemma delete_fresh self p o : fresh self p → fresh self (pending_delete p o).
Proof.
  intros Hf o' e'. unfold pending_delete. destruct (puts p !! o) eqn:E; simpl.
  - intros [_ Hp]%lookup_delete_Some. by eapply Hf.
  - intros Hp. destruct (Hf _ _ Hp). split; [done|]. assert (o ≠ o') by congruence. set_solver.
Qed.

(** ** Flushing the pending writes *)

Definition delete_ops (p : PendingPrevoutWrites) : WriteBatch := (λ o, BDelete (rocks_prevout_key o)) <$> elements (deletes p).
Definition put_op (oe : OutPointKey * CompactPrevoutScript) : BatchOp :=
  let '(o, e) := oe in BPut (rocks_prevout_key o) (entry_as_ref (encode_prevout_entry e)).
Definition put_ops (p : PendingPrevoutWrites) : WriteBatch := put_op <$> map_to_list (puts p).
Definition prevout_tip_ops (h : Z) (hash : bytes) : WriteBatch :=
  [BPut META_TIP_HEIGHT_KEY (le_bytes 8 h); BPut META_TIP_HASH_KEY hash].

Lemma batch_at_puts p o cur : pending_wf p → outpoint_wf o →
  batch_at (rocks_prevout_key o) cur (put_ops p) =
  match puts p !! o with Some e => Some (entry_as_ref (encode_prevout_entry e)) | None => cur end.
Proof.
  intros [Hp _] Ho.
  assert (Hin : ∀ op, op ∈ put_ops p → op_key op = rocks_prevout_key o →
    ∃ e, puts p !! o = Some e ∧ op = put_op (o, e)).
  { intros op ([o' e] & -> & Hm%elem_of_map_to_list)%list_elem_of_fmap Hk.
    destruct (Hp _ _ Hm) as [Hw _]. apply rocks_key_inj in Hk as ->; eauto. }
  destruct (puts p !! o) as [e|] eqn:E.
  - rewrite (batch_at_const _ (put_op (o, e))).
    + rewrite bool_decide_true; [done|]. apply list_elem_of_fmap. exists (put_op (o, e)). split; [done|].
      apply list_elem_of_fmap. exists (o, e). split; [done|]. by apply elem_of_map_to_list.
    + intros op Hop Hk. destruct (Hin op Hop Hk) as (e' & He & ->). by simplify_eq.
  - apply batch_at_other. intros op Hop Hk. destruct (Hin op Hop Hk) as (e' & He & _). done.
Qed.

Lemma batch_at_deletes p o cur : pending_wf p → outpoint_wf o →
  batch_at (rocks_prevout_key o) cur (delete_ops p) = if bool_decide (o ∈ deletes p) then None else cur.
Proof.
  intros [_ Hd] Ho.
  assert (Hin : ∀ op, op ∈ delete_ops p → op_key op = rocks_prevout_key o →
    o ∈ deletes p ∧ op = BDelete (rocks_prevout_key o)).
  { intros op (o' & -> & Hm%elem_of_elements)%list_elem_of_fmap Hk. simpl in Hk.
    apply rocks_key_inj in Hk as ->; eauto. }
  rewrite (batch_at_const _ (BDelete (rocks_prevout_key o))) by (intros; by apply Hin).
  rewrite (bool_decide_ext (_ ∈ _ <$> _) (o ∈ deletes p)); [done|]. rewrite list_elem_of_fmap. split.
  - intros (op & Hk & Hop). symmetry in Hk. by apply (Hin op).
  - intros Hm. exists (BDelete (rocks_prevout_key o)). split; [done|]. apply list_elem_of_fmap. exists o.
    split; [done|]. by apply elem_of_elements.
Qed.

Lemma batch_at_prevout_tip o cur h hash : batch_at (rocks_prevout_key o) cur (prevout_tip_ops h hash) = cur.
Proof. apply batch_at_other. intros op. unfold prevout_tip_ops. rewrite !elem_of_cons. intros [->|[->|?]]; [done..|set_solver]. Qed.

(** C33: flushing the pending writes changes no lookup: the database alone then holds
    the prevouts that the database and the pending writes stood for, and the tip is
    the flushed one, also after the store is opened again. *)
Theorem apply_pending_refines self p m h hash :
  view self p m → pending_wf p → in_width 64 h → length hash = 32%nat →
  let self' := apply_pending self p h hash in
  view self' pending_default m ∧ prevout_tip self' = (Some h, Some hash) ∧ prevout_open (ps_db self') = Ok self'.
Proof.
  intros Hv Hp Hh Hl self'. split_and!; [|done|].
  - intros o Ho. rewrite <-Hv by done. unfold lookup_prevout, pending_lookup.
    simpl. rewrite db_get_write, !batch_at_app.
    rewrite (batch_at_deletes p o _ Hp Ho : batch_at _ _ ((λ o, _) <$> _) = _).
    change ((λ '(o0, e), BPut (rocks_prevout_key o0) (entry_as_ref (encode_prevout_entry e))) <$> map_to_list (puts p)) with (put_ops p).
    rewrite batch_at_puts by done. rewrite (batch_at_prevout_tip o _ h hash : batch_at _ _ [_; _] = _).
    rewrite (bool_decide_false (o ∈ ∅)) by set_solver.
    destruct (puts p !! o) as [e|] eqn:E.
    + destruct (proj1 Hp _ _ E) as [_ He]. by rewrite decode_encode_entry.
    + by case_bool_decide.
  - unfold prevout_open, self'. simpl. rewrite !db_get_write, !batch_at_app.
    assert (∀ cur, batch_at META_TIP_HEIGHT_KEY cur (prevout_tip_ops h hash) = Some (le_bytes 8 h)) as E1 by reflexivity.
    assert (∀ cur, batch_at META_TIP_HASH_KEY cur (prevout_tip_ops h hash) = Some hash) as E2 by reflexivity.
    unfold prevout_tip_ops in E1, E2. rewrite E1, E2.
    rewrite (ensure_ok (length (le_bytes 8 h) = 8%nat)) by apply length_le_bytes. rsimpl.
    rewrite (ensure_ok (length hash = 32%nat)) by done. rsimpl.
    by rewrite from_le_le_bytes.
Qed.

(** Deleting an outpoint that has a pending put forgets the put without recording
    a tombstone: if the database still has a row for the outpoint (written before the
    put replaced it), that row is visible again although the outpoint was deleted. *)
Theorem pending_delete_resurrects self p o e b s :
  db_get (ps_db self) (rocks_prevout_key o) = Some b → decode_prevout_entry b = Ok s →
  lookup_prevout self (pending_delete (pending_put p o e) o) o = Ok (Some s).
Proof.
  intros Hb Hs. unfold pending_delete, lookup_prevout, pending_lookup. simpl.
  rewrite lookup_insert_eq. simpl. rewrite lookup_delete_eq, bool_decide_false by set_solver.
  by rewrite Hb, Hs.
Qed.

(** ** Enrichment against the map of prevouts *)

Definition spec_context (m : prevout_map) (i : TxInputScan) : TxInputContext :=
  {| previous_output := ti_previous_output i; script_sig := ti_script_sig i; witness := ti_witness i;
     prevout := prevout_info_from_compact <$> m !! ti_previous_output i |}.
(** The scan point is computed for transactions with a taproot output that do not
    carry one yet. *)
Definition spec_tweak (m : prevout_map) (tx : TxScanInput) : res TxScanInput :=
  if negb (existsb to_is_p2tr (tx_outputs tx)) then Ok (set_tweak tx None)
  else if bool_decide (is_Some (tx_silent_payment_tweak tx)) then Ok tx
  else
    status ← compute_tx_scan_point (spec_context m <$> tx_inputs tx);
    Ok (set_tweak tx (match status with Computed tweak => Some tweak | _ => None end)).
Definition spec_spends (m : prevout_map) (ins : list TxInputScan) : prevout_map :=
  foldl (λ m i, if is_coinbase (ti_previous_output i) then m else delete (ti_previous_output i) m) m ins.
(** The prevouts of the outputs that are not provably unspendable. *)
Definition storable (s : bytes) : option CompactPrevoutScript :=
  match compact_prevout_script s with Ok r => r | _ => None end.
Definition out_point (tx : TxScanInput) (o : TxOutputScan) : OutPointKey :=
  {| op_txid := tx_txid tx; op_vout := to_vout o |}.
Definition spec_outputs (tx : TxScanInput) (m : prevout_map) (os : list TxOutputScan) : prevout_map :=
  foldl (λ m o, match storable (to_script_pubkey o) with Some s => <[out_point tx o := s]> m | None => m end) m os.
Definition spec_tx (m : prevout_map) (tx : TxScanInput) : prevout_map :=
  spec_outputs tx (spec_spends m (tx_inputs tx)) (tx_outputs tx).
(** Each transaction sees the prevouts left by the ones before it. *)
Fixpoint spec_block (m : prevout_map) (txs : list TxScanInput) : res (list TxScanInput * prevout_map) :=
  match txs with
  | [] => Ok ([], m)
  | tx :: txs => tx' ← spec_tweak m tx; '(txs', m') ← spec_block (spec_tx m tx') txs; Ok (tx' :: txs', m')
  end.

(** The outpoints of a block are those of the chain, and the database has no row yet
    for an output the block creates. *)
Definition tx_fresh (self : PrevoutStore) (tx : TxScanInput) : Prop :=
  (∀ i, i ∈ tx_inputs tx → outpoint_wf (ti_previous_output i)) ∧
  (∀ o, o ∈ tx_outputs tx → db_get (ps_db self) (rocks_prevout_key (out_point tx o)) = None).

Lemma compact_total s : compact_prevout_script s = Ok (storable s).
Proof. unfold storable, compact_prevout_script. destruct (classify_sound s) as (k & -> & _). done. Qed.

Lemma contexts_view self p m ins ctx stats :
  view self p m → (∀ i, i ∈ ins → outpoint_wf (ti_previous_output i)) →
  ∃ stats', fold_res (input_context self p) (ctx, stats) ins = Ok (ctx ++ (spec_context m <$> ins), stats').
Proof.
  intros Hv. revert ctx stats. induction ins as [|i ins IH]; intros ctx stats Hw; [eexists; simpl; by rewrite app_nil_r|].
  cbn [fold_res input_context]. rewrite Hv by (apply Hw; left). rsimpl.
  edestruct IH as [s' ->]; [intros; apply Hw; by right|]. exists s'. by rewrite <-app_assoc.
Qed.

Lemma enrich_tx_view self p m tx stats :
  view self p m → (∀ i, i ∈ tx_inputs tx → outpoint_wf (ti_previous_output i)) →
  match spec_tweak m tx with
  | Ok tx' => ∃ stats', enrich_tx_scan_point self p tx stats = Ok (tx', stats')
  | Err e => enrich_tx_scan_point self p tx stats = Err e
  | Panic e => enrich_tx_scan_point self p tx stats = Panic e
  end.
Proof.
  intros Hv Hw. unfold spec_tweak, enrich_tx_scan_point.
  destruct (negb _); [eauto|]. case_bool_decide; [eauto|].
  destruct (contexts_view self p m (tx_inputs tx) [] stats Hv Hw) as [s' ->]. rsimpl. cbn [app].
  destruct (compute_tx_scan_point _); rsimpl; eauto.
Qed.

Lemma spends_view self tx p m stats :
  view self p m → fresh self p →
  ∃ p' stats', apply_tx_spends p tx stats = (p', stats') ∧ view self p' (spec_spends m (tx_inputs tx)) ∧ fresh self p'.
Proof.
  unfold apply_tx_spends, spec_spends. generalize (tx_inputs tx) as ins. intros ins. revert p m stats.
  induction ins as [|i ins IH]; intros p m stats Hv Hf; simpl; [eauto|].
  destruct (is_coinbase _); apply IH; auto using delete_view, delete_fresh.
Qed.

Lemma outputs_view self tx p m stats :
  (∀ o, o ∈ tx_outputs tx → db_get (ps_db self) (rocks_prevout_key (out_point tx o)) = None) →
  view self p m → fresh self p →
  ∃ p' stats', apply_tx_outputs p tx stats = Ok (p', stats') ∧ view self p' (spec_outputs tx m (tx_outputs tx)) ∧ fresh self p'.
Proof.
  unfold apply_tx_outputs, spec_outputs. generalize (tx_outputs tx) as os. intros os. revert p m stats.
  induction os as [|o os IH]; intros p m stats Hd Hv Hf; simpl; [eauto|].
  rewrite compact_total. rsimpl. destruct (storable _); apply IH;
    try (by intros; apply Hd; right); try apply put_view; try apply put_fresh; try done. apply Hd. left.
Qed.

Lemma spec_tweak_same m tx tx' : spec_tweak m tx = Ok tx' →
  tx_txid tx' = tx_txid tx ∧ tx_inputs tx' = tx_inputs tx ∧ tx_outputs tx' = tx_outputs tx.
Proof.
  unfold spec_tweak. destruct (negb _); [by intros [= <-]|]. case_bool_decide; [by intros [= <-]|].
  intros Hx. res_inv. done.
Qed.

Lemma tx_fresh_same self tx tx' :
  tx_txid tx' = tx_txid tx → tx_inputs tx' = tx_inputs tx → tx_outputs tx' = tx_outputs tx →
  tx_fresh self tx → tx_fresh self tx'.
Proof. intros E1 E2 E3 [H1 H2]. unfold tx_fresh, out_point. rewrite E1, E2, E3. by split. Qed.

Lemma enrich_one self p m tx acc stats :
  tx_fresh self tx → view self p m → fresh self p →
  match spec_tweak m tx with
  | Ok tx' => ∃ p' stats', enrich_tx self (p, acc, stats) tx = Ok (p', acc ++ [tx'], stats') ∧
                view self p' (spec_tx m tx') ∧ fresh self p'
  | Err e => enrich_tx self (p, acc, stats) tx = Err e
  | Panic e => enrich_tx self (p, acc, stats) tx = Panic e
  end.
Proof.
  intros Hx Hv Hf. pose proof (enrich_tx_view self p m tx stats Hv (proj1 Hx)) as He. unfold enrich_tx.
  destruct (spec_tweak m tx) as [tx'| |] eqn:Es; [|by rewrite He..]. destruct He as [s1 ->]. rsimpl.
  destruct (spec_tweak_same _ _ _ Es) as (E1 & E2 & E3).
  destruct (tx_fresh_same self tx tx' E1 E2 E3 Hx) as [_ Ho].
  destruct (spends_view self tx' p m s1 Hv Hf) as (p1 & s2 & -> & Hv1 & Hf1).
  destruct (outputs_view self tx' p1 _ s2 Ho Hv1 Hf1) as (p2 & s3 & -> & Hv2 & Hf2). rsimpl. eauto.
Qed.

Lemma enrich_txs self txs p m acc stats :
  Forall (tx_fresh self) txs → view self p m → fresh self p →
  match spec_block m txs with
  | Ok (txs', m') => ∃ p' stats', fold_res (enrich_tx self) (p, acc, stats) txs = Ok (p', acc ++ txs', stats') ∧
                       view self p' m' ∧ fresh self p'
  | Err e => fold_res (enrich_tx self) (p, acc, stats) txs = Err e
  | Panic e => fold_res (enrich_tx self) (p, acc, stats) txs = Panic e
  end.
Proof.
  intros Hx. revert p m acc stats. induction Hx as [|tx txs Hx Hxs IH]; intros p m acc stats Hv Hf.
  { simpl. rewrite app_nil_r. eauto. }
  cbn [spec_block fold_res]. pose proof (enrich_one self p m tx acc stats Hx Hv Hf) as He.
  destruct (spec_tweak m tx) as [tx'| |]; rsimpl; [|by rewrite He..].
  destruct He as (p1 & s1 & -> & Hv1 & Hf1). rsimpl.
  specialize (IH p1 _ (acc ++ [tx']) s1 Hv1 Hf1).
  destruct (spec_block (spec_tx m tx') txs) as [[txs' m']| |]; rsimpl; [|done..].
  destruct IH as (p2 & s2 & -> & ? & ?). exists p2, s2. by rewrite <-app_assoc.
Qed.

(** C32: enriching a block refines its specification over the map of prevouts the
    store and the pending writes stand for: every transaction's scan point is the one
    of its inputs in the map left by the transactions before it, spent outpoints leave
    the map and spendable outputs enter it; the enrichment fails exactly when a scan
    point does. *)
Theorem enrich_block_refines self p m block :
  Forall (tx_fresh self) (bk_txs block) → view self p m → fresh self p →
  match spec_block m (bk_txs block) with
  | Ok (txs', m') => ∃ p' block' stats, enrich_block_scan_points self p block = Ok (p', block', stats) ∧
                       bk_txs block' = txs' ∧ bk_height block' = bk_height block ∧
                       bk_block_hash block' = bk_block_hash block ∧ view self p' m' ∧ fresh self p'
  | Err e => enrich_block_scan_points self p block = Err e
  | Panic e => enrich_block_scan_points self p block = Panic e
  end.
Proof.
  intros Hx Hv Hf. unfold enrich_block_scan_points.
  set (s0 := Build_PrevoutMutationStats 0 0 0). pose proof (enrich_txs self (bk_txs block) p m [] s0 Hx Hv Hf) as He.
  destruct (spec_block m (bk_txs block)) as [[txs' m']| |]; [|by rewrite He..].
  destruct He as (p' & s' & -> & ? & ?). rsimpl. do 3 eexists. split; [reflexivity|]. simpl. eauto.
Qed.
End overlay.

(** ** A concrete store *)
#[local] Existing Instances toy_secp toy_hash160 std_templates toy_sha256 memory_store.

Definition demo_store : PrevoutStore :=
  {| ps_db := (∅ : gmap bytes bytes); ps_tip_height := None; ps_tip_hash := None |}.
Definition demo_prevout : OutPointKey := {| op_txid := replicate 32 4; op_vout := 1 |}.
(** The prevout of a key hash, pending. *)
Definition demo_entry : CompactPrevoutScript := CP2wpkh (hash160 demo_pubkey).
Definition demo_pending : PendingPrevoutWrites := {| puts := {[demo_prevout := demo_entry]}; deletes := ∅ |}.

Lemma demo_prevout_wf : outpoint_wf demo_prevout.
Proof. split; [split; [done|apply Forall_replicate; unfold is_byte; lia]|unfold in_width; simpl; lia]. Qed.

Lemma demo_view : view demo_store demo_pending {[demo_prevout := demo_entry]}.
Proof.
  intros o _. unfold lookup_prevout, pending_lookup. simpl puts.
  destruct ({[demo_prevout := demo_entry]} !! o); [done|].
  by rewrite bool_decide_false by set_solver.
Qed.
Lemma demo_fresh : fresh demo_store demo_pending.
Proof. intros o e _. split; [done|set_solver]. Qed.

Lemma prevout_entry_roundtrip_witness :
  decode_prevout_entry (entry_as_ref (encode_prevout_entry demo_entry)) = Ok demo_entry ∧
  (legacy_kind demo_entry = true →
   decode_prevout_entry (replicate 8 0 ++ entry_as_ref (encode_prevout_entry demo_entry)) = Ok demo_entry).
Proof. apply (prevout_entry_roundtrip demo_entry (replicate 8 0)); [apply hash160_wf|reflexivity]. Defined.

Lemma apply_pending_refines_witness :
  let self' := apply_pending demo_store demo_pending 5 (replicate 32 9) in
  view self' pending_default {[demo_prevout := demo_entry]} ∧
  prevout_tip self' = (Some 5, Some (replicate 32 9)) ∧ prevout_open (ps_db self') = Ok self'.
Proof.
  apply (apply_pending_refines demo_store demo_pending {[demo_prevout := demo_entry]} 5 (replicate 32 9));
    [apply demo_view| |unfold in_width; lia|done].
  split; [|intros o Ho; exfalso; revert Ho; simpl; set_solver].
  intros o e He. unfold demo_pending in He. cbn [puts] in He. apply lookup_singleton_Some in He as [<- <-]. split; [apply demo_prevout_wf|apply hash160_wf].
Defined.

Lemma pending_delete_resurrects_witness :
  let self := apply_pending demo_store demo_pending 5 (replicate 32 9) in
  lookup_prevout self (pending_delete (pending_put pending_default demo_prevout CNonEligible) demo_prevout) demo_prevout
  = Ok (Some demo_entry).
Proof.
  intros self. apply (pending_delete_resurrects self pending_default
    demo_prevout CNonEligible (entry_as_ref (encode_prevout_entry demo_entry))); subst self.
  - vm_compute. reflexivity.
  - apply decode_encode_entry, hash160_wf.
Defined.

(** A transaction that spends the pending prevout into a taproot output. *)
Definition demo_spend : TxScanInput := {|
  tx_txid := replicate 32 6; tx_tx_index := 1;
  tx_inputs := [{| ti_previous_output := demo_prevout; ti_script_sig := []; ti_witness := [[]; demo_pubkey] |}];
  tx_outputs := [{| to_vout := 0; to_value_sat := 1; to_script_pubkey := p2tr_bytes (be_bytes 32 5);
                    to_p2tr_xonly_key := None; to_is_p2tr := true; to_is_nums := false |}];
  tx_silent_payment_tweak := None |}.
Definition demo_enrich_block : BlockScanInput := {|
  bk_height := 5; bk_block_hash := replicate 32 9; bk_previous_block_hash := replicate 32 8;
  bk_raw_block_bytes := 300; bk_txs := [demo_spend] |}.

Lemma enrich_block_refines_witness :
  match spec_block {[demo_prevout := demo_entry]} [demo_spend] with
  | Ok (tx :: _, _) => bool_decide (is_Some (tx_silent_payment_tweak tx))
  | _ => false
  end = true ∧
  match spec_block {[demo_prevout := demo_entry]} (bk_txs demo_enrich_block) with
  | Ok (txs', m') => ∃ p' block' stats,
      enrich_block_scan_points demo_store demo_pending demo_enrich_block = Ok (p', block', stats) ∧
      bk_txs block' = txs' ∧ bk_height block' = bk_height demo_enrich_block ∧
      bk_block_hash block' = bk_block_hash demo_enrich_block ∧ view demo_store p' m' ∧ fresh demo_store p'
  | Err e => enrich_block_scan_points demo_store demo_pending demo_enrich_block = Err e
  | Panic e => enrich_block_scan_points demo_store demo_pending demo_enrich_block = Panic e
  end.
Proof.
  split; [vm_compute; reflexivity|].
  apply (enrich_block_refines demo_store demo_pending {[demo_prevout := demo_entry]} demo_enrich_block);
    [|apply demo_view|apply demo_fresh].
  constructor; [|constructor]. split; [|done].
  intros i Hi. cbn [demo_enrich_block demo_spend tx_inputs] in Hi. apply list_elem_of_singleton in Hi as ->.
  apply demo_prevout_wf.
Defined.
