(* ===== verification/Tasks.v ===== *)
(** * Concurrent tasks joined in order

    The runtime of [tokio] and [futures] as the sources, the indexer and the scanner use
    it.  Tasks that run together complete in an order the code does not control: the
    parameter [Scheduler], any permutation.  [buffer_unordered(n)] of a non-empty stream
    (so [n] is positive) yields the outcomes in that order; the callers sort them by a
    key and collect them.  [sort_by_key] is the stable insertion sort. *)

From S2P Require Import Prelude.

Class Scheduler := {
  completion {A} : list A → list A;
  completion_perm {A} (l : list A) : completion l ≡ₚ l
}.

(** [sort_by]: stable. *)
Fixpoint insert_by {A} (le : A → A → bool) (x : A) (l : list A) : list A :=
  match l with [] => [x] | y :: t => if le x y then x :: l else y :: insert_by le x t end.
Fixpoint sort_by {A} (le : A → A → bool) (l : list A) : list A :=
  match l with [] => [] | x :: l => insert_by le x (sort_by le l) end.

(** [collect::<Vec<(key, Result<_>)>>()], [sort_by_key], then the results in order. *)
Definition in_key_order {A} (outcomes : list (Z * res A)) : res (list A) :=
  map_res snd (sort_by (λ a b, bool_decide (a.1 ≤ b.1)) outcomes).

Section scheduled.
Context `{!Scheduler}.

(** [try_join!(a, b)]: both run; the failure that happens first ends the call. *)
Definition failure {A B} (r : res A) : list (res B) :=
  match r with Ok _ => [] | Err e => [Err e] | Panic p => [Panic p] end.
Definition try_join {A B} (a : res A) (b : res B) : res (A * B) :=
  match a, b with
  | Ok x, Ok y => Ok (x, y)
  | _, _ => default (Err "unreachable") (head (completion (failure a ++ failure b)))
  end.

(** The outcomes of tasks that are tagged with their keys. *)
Definition run_tagged {A B} (key : A → Z) (task : A → res B) (l : list A) : list (Z * res B) :=
  completion ((λ x, (key x, task x)) <$> l).
End scheduled.

(** ** Sorting *)

Lemma insert_by_perm {A} (le : A → A → bool) x l : insert_by le x l ≡ₚ x :: l.
Proof.
  induction l as [|y l IH]; [done|]. simpl. destruct (le x y); [done|]. rewrite IH. by constructor.
Qed.
Lemma sort_by_perm {A} (le : A → A → bool) l : sort_by le l ≡ₚ l.
Proof. induction l as [|x l IH]; [done|]. simpl. rewrite insert_by_perm. by constructor. Qed.

(** A sorted list of distinct keys does not depend on the order before sorting. *)
Lemma insert_by_sorted {A} (key : A → Z) x l :
  StronglySorted (λ a b, key a ≤ key b) l →
  StronglySorted (λ a b, key a ≤ key b) (insert_by (λ a b, bool_decide (key a ≤ key b)) x l).
Proof.
  induction 1 as [|y l Hl IH Hy]; [repeat constructor|]. simpl. case_bool_decide as E.
  - constructor; [by constructor|]. constructor; [done|]. eapply Forall_impl; [exact Hy|]. simpl. lia.
  - constructor; [done|]. rewrite insert_by_perm. constructor; [lia|done].
Qed.
Lemma sort_by_sorted {A} (key : A → Z) l :
  StronglySorted (λ a b, key a ≤ key b) (sort_by (λ a b, bool_decide (key a ≤ key b)) l).
Proof. induction l; [constructor|]. by apply insert_by_sorted. Qed.

Lemma sorted_perm_unique {A} (key : A → Z) l k :
  StronglySorted (λ a b, key a ≤ key b) l → StronglySorted (λ a b, key a ≤ key b) k → NoDup (key <$> l) → l ≡ₚ k → l = k.
Proof.
  intros Hl. revert k. induction Hl as [|x l Hl IH Hx]; intros k Hk Hn Hp; [by apply Permutation_nil in Hp|].
  destruct k as [|y k]; [by apply Permutation_sym, Permutation_nil in Hp|].
  rewrite fmap_cons in Hn. apply NoDup_cons in Hn as [Hni Hn]. inversion_clear Hk as [|? ? Hk' Hy].
  assert (x = y) as ->.
  { assert (y ∈ x :: l) as Hyin by (rewrite Hp; left). assert (x ∈ y :: k) as Hxin by (rewrite <-Hp; left).
    apply elem_of_cons in Hyin as [|Hyin]; [done|]. apply elem_of_cons in Hxin as [|Hxin]; [done|].
    rewrite Forall_forall in Hx, Hy. specialize (Hx y Hyin). specialize (Hy x Hxin). simpl in *.
    exfalso. apply Hni. replace (key x) with (key y) by lia. by apply list_elem_of_fmap_2. }
  f_equal. apply IH; [done|done|]. by apply Permutation_cons_inv in Hp.
Qed.

Lemma sort_by_unique {A} (key : A → Z) l k : NoDup (key <$> l) → l ≡ₚ k →
  sort_by (λ a b, bool_decide (key a ≤ key b)) l = sort_by (λ a b, bool_decide (key a ≤ key b)) k.
Proof.
  intros Hn Hp. apply (sorted_perm_unique key); [apply sort_by_sorted|apply sort_by_sorted| |].
  - by rewrite sort_by_perm.
  - by rewrite !sort_by_perm.
Qed.

Lemma collect_Ok {A} (l : list (res A)) ys : map_res id l = Ok ys ↔ l = Ok <$> ys.
Proof.
  rewrite map_res_Ok. split.
  - induction 1 as [|x y l ys Hx _ ->]; [done|]. by rewrite fmap_cons, <-Hx.
  - intros ->. induction ys; by constructor.
Qed.
Lemma collect_perm {A} (l k : list (res A)) ys : l ≡ₚ k → map_res id l = Ok ys → ∃ ys', map_res id k = Ok ys' ∧ ys ≡ₚ ys'.
Proof.
  intros Hp ->%collect_Ok. symmetry in Hp. apply Permutation_map_inv in Hp as (ys' & -> & Hp').
  exists ys'. split; [by apply collect_Ok|done].
Qed.


(** ** Tagged tasks *)

Lemma sort_by_ordered {A} (key : A → Z) l : StronglySorted (λ a b, key a ≤ key b) l → NoDup (key <$> l) →
  sort_by (λ a b, bool_decide (key a ≤ key b)) l = l.
Proof.
  intros Hs Hn. apply (sorted_perm_unique key); [apply sort_by_sorted|done| |apply sort_by_perm].
  by rewrite sort_by_perm.
Qed.

Section tagged.
Context `{!Scheduler}.

(** The results are those of the tasks one after the other, whatever the completion. *)
Lemma in_key_order_run {A B} (key : A → Z) (task : A → res B) l :
  StronglySorted (λ a b, key a < key b) l → in_key_order (run_tagged key task l) = map_res task l.
Proof.
  intros Hs. unfold in_key_order, run_tagged. set (tagged := (λ x, (key x, task x)) <$> l).
  assert (Hk : fst <$> tagged = key <$> l) by (unfold tagged; by rewrite <-list_fmap_compose).
  assert (Hd : NoDup (key <$> l)).
  { clear -Hs. induction Hs as [|x l Hs IH Hx]; [constructor|]. rewrite fmap_cons. constructor; [|done].
    intros (y & E & Hy)%list_elem_of_fmap. rewrite Forall_forall in Hx. specialize (Hx y Hy). lia. }
  assert (Ht : StronglySorted (λ a b : Z * res B, a.1 ≤ b.1) tagged).
  { unfold tagged. clear -Hs. induction Hs as [|x l Hs IH Hx]; [constructor|]. rewrite fmap_cons. constructor; [done|].
    apply Forall_fmap. eapply Forall_impl; [exact Hx|]. simpl. lia. }
  rewrite (sort_by_unique fst (completion tagged) tagged); [|by rewrite completion_perm, Hk|apply completion_perm].
  rewrite sort_by_ordered by (first [done|by rewrite Hk]).
  unfold tagged. clear. induction l as [|x l IH]; [done|]. cbn [fmap list_fmap map_res snd]. by destruct (task x); rsimpl; rewrite ?IH.
Qed.

Lemma try_join_Ok {A B} (a : res A) (b : res B) x y : try_join a b = Ok (x, y) ↔ a = Ok x ∧ b = Ok y.
Proof.
  split; [|by intros [-> ->]]. unfold try_join.
  assert (∀ l : list (res (A * B)), Forall (λ r, ∀ z, r ≠ Ok z) l → default (Err "unreachable") (head l) ≠ Ok (x, y)) as Hne.
  { intros [|r l]; [done|]. intros [Hr _]%Forall_cons. apply (Hr (x, y)). }
  assert (∀ C (r : res C), Forall (λ r, ∀ z : A * B, r ≠ Ok z) (failure r)) as Hf by (intros ? []; repeat constructor; discriminate).
  destruct a, b; try (intros E; exfalso; eapply Hne; [|exact E]; rewrite completion_perm; apply Forall_app; split; apply Hf).
  by intros [= -> ->].
Qed.

(** Tasks that all succeed, sorted by the key of their results. *)
Lemma sorted_completion {A} (key : A → Z) (l : list A) start n : key <$> l = seqZ start n →
  ∃ ys, map_res id (completion (Ok <$> l)) = Ok ys ∧ sort_by (λ a b, bool_decide (key a ≤ key b)) ys = l.
Proof.
  intros Hk. destruct (collect_perm (Ok <$> l) (completion (Ok <$> l)) l) as (ys & E & Hp);
    [by rewrite completion_perm|by apply collect_Ok|]. exists ys. split; [done|].
  rewrite <-(sort_by_unique key l ys) by (first [by rewrite Hk; apply NoDup_seqZ|done]).
  apply sort_by_ordered; [|by rewrite Hk; apply NoDup_seqZ]. clear -Hk. revert start n Hk.
  induction l as [|x l IH]; intros start n Hk; [constructor|]. destruct (decide (0 < n)) as [Hn|Hn]; [|by rewrite seqZ_nil in Hk by lia].
  rewrite seqZ_cons, fmap_cons in Hk by lia. injection Hk as Hx Hl. constructor; [by eapply IH|].
  apply Forall_forall. intros y Hy. assert (key y ∈ key <$> l) as Hin by (by apply list_elem_of_fmap_2). rewrite Hl in Hin. apply elem_of_seqZ in Hin. lia.
Qed.
End tagged.

Lemma seqZ_sorted_lt a n : StronglySorted (λ x y, id x < id y) (seqZ a n).
Proof.
  unfold seqZ. generalize (Z.to_nat n) 0%nat. intros k. induction k as [|k IH]; intros i; [constructor|].
  cbn [seq fmap list_fmap]. constructor; [apply IH|]. apply Forall_fmap, Forall_forall. intros j Hj%elem_of_seq. unfold id. cbn. lia.
Qed.
Lemma map_res_seqZ {A} (f : Z → res A) (g : Z → A) start n : (∀ i, start ≤ i < start + n → f i = Ok (g i)) →
  map_res f (seqZ start n) = Ok (g <$> seqZ start n).
Proof. intros H. apply map_res_total. intros i Hi%elem_of_seqZ. by apply H. Qed.
