(* ===== verification/ArchiveBackend.v ===== *)
(** * The storage backend boundary

    Model of [light-server/src/storage/backend.rs] and of the types of
    [light-server/src/storage/files.rs] it mentions.  The trait is the class
    [ArchiveBackend]: the server is modelled, and its theorems are proved, against it;
    the file archive is its instance.  A call that the model makes twice sees the same
    archive twice: changes to the archive between the calls of one request are not
    modelled. *)

From S2P Require Import Prelude LightBlock.

(** [light-server/src/lib.rs]. *)
Definition DEFAULT_MAX_RANGE_COUNT : Z := 1000.

Record ChainTip := { height : Z; block_hash : bytes }.
Record Manifest := {
  version : Z; network : bytes; genesis_hash : option bytes; finality_depth : Z;
  suggested_reorg_cache_depth : Z; max_range_count : Z; mf_tip : option ChainTip
}.
Record ServedBlock := { payload : bytes; served_block_hash : bytes }.

Class ArchiveBackend := {
  Archive : Type;
  manifest : Archive → res Manifest;
  archive_tip : Archive → res (option ChainTip);
  read_block : Archive → Z → res ServedBlock;
  read_block_filtered : Archive → Z → StoredBlockResponseFilter → res ServedBlock
}.
