(* ===== verification/FileArchive.v ===== *)
(** * The file archive

    Model of [light-server/src/storage/files.rs].  The state is the part of the file
    system under the archive's root: the files of the [blocks] directory by name, if
    the directory exists, and [manifest.json].  The JSON codec of the manifest
    ([serde_json]) is the parameter [ManifestJson]; failures of the disk other than a
    missing file are not modelled. *)

From S2P Require Import Prelude Bits Decimal Helper TaggedHash Bitmap SpentIds OutputHash LightBlock LightValid LightFilter LightWire ArchiveBackend.

Class ManifestJson := {
  to_vec_pretty : Manifest → bytes;
  from_json_slice : bytes → res Manifest;
  from_json_to_vec m : from_json_slice (to_vec_pretty m) = Ok m
}.

Record FileArchive := { blocks_dir : option (gmap bytes bytes); manifest_file : option bytes }.
Definition archive_new : FileArchive := {| blocks_dir := None; manifest_file := None |}.

(** [{height:010}.capnp], and its [with_extension("capnp.tmp")]. *)
Definition block_path (height : Z) : bytes := to_decimal_padded 10 height ++ ascii_bytes ".capnp".
Definition tmp_path (height : Z) : bytes := to_decimal_padded 10 height ++ ascii_bytes ".capnp.tmp".

(** The files of the [blocks] directory. *)
Definition files (self : FileArchive) : gmap bytes bytes := default ∅ (blocks_dir self).

Definition read_stored_block (self : FileArchive) (height : Z) : res bytes :=
  ok_or (files self !! block_path height) "No such file or directory".

Definition write_block_bytes (self : FileArchive) (height : Z) (bs : bytes) : FileArchive :=
  let dir := files self in
  let dir := <[tmp_path height := bs]> dir in
  let dir := <[block_path height := bs]> (delete (tmp_path height) dir) in
  {| blocks_dir := Some dir; manifest_file := manifest_file self |}.

(** ** Marking outputs as spent *)

(** [by_creation_height.entry(h).or_default().push(x)] on a [BTreeMap]: the entries in
    ascending order. *)
Fixpoint btree_push {V} (k : Z) (v : V) (m : list (Z * list V)) : list (Z * list V) :=
  match m with
  | [] => [(k, [v])]
  | (k', vs) :: m' =>
      if bool_decide (k < k') then (k, [v]) :: m
      else if bool_decide (k = k') then (k', vs ++ [v]) :: m'
      else (k', vs) :: btree_push k v m'
  end.

Definition group_spends (spends : list (Z * Z * Z)) : res (list (Z * list (Z * Z))) :=
  fold_res (λ by_creation_height '(creation_height, output_index, spent_height),
    h ← try_from 32 spent_height;
    Ok (btree_push creation_height (output_index, h) by_creation_height)) [] spends.

Definition set_spent_height (o : StoredOutputEntryInput) (h : Z) : StoredOutputEntryInput :=
  {| key := key o; spent_height := h; flags := flags o |}.
Definition set_outputs (s : StoredLightBlockInput) (os : list StoredOutputEntryInput) : StoredLightBlockInput := {|
  sb_height := sb_height s; sb_block_hash := sb_block_hash s;
  sb_previous_block_hash := sb_previous_block_hash s; sb_first_uid := sb_first_uid s;
  sb_tx_count := sb_tx_count s; sb_skipped_txs_for_tweaks := sb_skipped_txs_for_tweaks s;
  sb_tweaks := sb_tweaks s; sb_skipped_outputs := sb_skipped_outputs s; sb_outputs := os;
  sb_spends := sb_spends s; sb_raw_block_bytes := sb_raw_block_bytes s;
  sb_truncated_output_hash_for_two_labels := sb_truncated_output_hash_for_two_labels s;
  sb_truncated_output_hash_for_hundred_labels := sb_truncated_output_hash_for_hundred_labels s |}.

(** One spend of a decoded block: the state is the block and [updated]. *)
Definition mark_output (st : StoredLightBlockInput * nat) (spend : Z * Z) : res (StoredLightBlockInput * nat) :=
  let '(stored, updated) := st in
  let '(output_index, spent_h) := spend in
  output ← ok_or (sb_outputs stored !! Z.to_nat output_index) "storage output index maps outside storage outputs";
  if bool_decide (spent_height output ≠ spent_h) then
    Ok (set_outputs stored (<[Z.to_nat output_index := set_spent_height output spent_h]> (sb_outputs stored)), S updated)
  else Ok (stored, updated).

Section archive.
Context `{!CapnpPacked light_block, !CapnpPacked stored_light_block, !Sha256, !ManifestJson}.

Definition read_block_with_hash (self : FileArchive) (height : Z) : res ServedBlock :=
  stored ← read_stored_block self height;
  '(payload, block_hash) ← stored_light_block_to_response_bytes stored;
  Ok {| payload := payload; served_block_hash := block_hash |}.

Definition read_block_filtered_with_hash (self : FileArchive) (height : Z) (filter : StoredBlockResponseFilter) : res ServedBlock :=
  stored ← read_stored_block self height;
  '(payload, block_hash) ← stored_light_block_to_filtered_response_bytes stored filter;
  Ok {| payload := payload; served_block_hash := block_hash |}.

(** The body of the loop over one creation height, on the bytes of its file. *)
Definition mark_stored (stored_bytes : bytes) (updated : nat) (spends : list (Z * Z)) : res (bytes * nat) :=
  stored ← decode_stored_light_block stored_bytes;
  '(stored, updated) ← fold_res mark_output (stored, updated) spends;
  message ← encode_stored_light_block stored;
  bs ← to_packed_bytes message;
  Ok (bs, updated).

(** The loop over the creation heights.  Files already rewritten stay rewritten when a
    later one fails: the result is the archive and the outcome. *)
Fixpoint mark_blocks (self : FileArchive) (updated : nat) (by_creation_height : list (Z * list (Z * Z)))
    : FileArchive * res nat :=
  match by_creation_height with
  | [] => (self, Ok updated)
  | (creation_height, spends) :: rest =>
      match files self !! block_path creation_height with
      | None => mark_blocks self updated rest
      | Some stored_bytes =>
          match mark_stored stored_bytes updated spends with
          | Ok (bs, updated) => mark_blocks (write_block_bytes self creation_height bs) updated rest
          | Err e => (self, Err e)
          | Panic e => (self, Panic e)
          end
      end
  end.

Definition mark_spent_outputs (self : FileArchive) (spends : list (Z * Z * Z)) : FileArchive * res nat :=
  match group_spends spends with
  | Ok by_creation_height => mark_blocks self 0 by_creation_height
  | Err e => (self, Err e)
  | Panic e => (self, Panic e)
  end.

(** ** The tip and the manifest *)

(** [name.strip_suffix(".capnp")]. *)
Definition strip_suffix (suffix name : bytes) : option bytes :=
  let n := (length name - length suffix)%nat in
  if bool_decide (length suffix ≤ length name)%nat && bool_decide (drop n name = suffix) then Some (take n name) else None.

Definition best_height (best : option Z) (name : bytes) : option Z :=
  match strip_suffix (ascii_bytes ".capnp") name with
  | None => best
  | Some prefix =>
      match parse_u64 prefix with
      | None => best
      | Some h => match best with
                  | None => Some h
                  | Some b => if bool_decide (b < h) then Some h else best
                  end
      end
  end.

(** [read_dir] lists the directory in an order the source leaves open: that of [gmap]. *)
Definition tip_from_files (self : FileArchive) : option ChainTip :=
  match blocks_dir self with
  | None => None
  | Some dir =>
      (λ h, {| height := h; block_hash := [] |}) <$> foldl best_height None ((map_to_list dir).*1)
  end.

Definition read_manifest (self : FileArchive) : res Manifest :=
  bs ← ok_or (manifest_file self) "No such file or directory";
  from_json_slice bs.

Definition write_manifest (self : FileArchive) (m : Manifest) : FileArchive :=
  {| blocks_dir := blocks_dir self; manifest_file := Some (to_vec_pretty m) |}.

Definition file_tip (self : FileArchive) : res (option ChainTip) :=
  match read_manifest self with
  | Ok m => match mf_tip m with Some t => Ok (Some t) | None => Ok (tip_from_files self) end
  | _ => Ok (tip_from_files self)
  end.

#[export] Instance file_backend : ArchiveBackend := {|
  Archive := FileArchive;
  manifest := read_manifest;
  archive_tip := file_tip;
  read_block := read_block_with_hash;
  read_block_filtered := read_block_filtered_with_hash
|}.

End archive.

(** ** File names *)

Lemma block_path_inj h h' : in_width 64 h → in_width 64 h' → block_path h = block_path h' → h = h'.
Proof. intros Hh Hh' E. apply app_inv_tail in E. by eapply decimal_padded_inj. Qed.

Lemma block_tmp_ne h h' : block_path h ≠ tmp_path h'.
Proof.
  unfold block_path, tmp_path. intros E.
  change (ascii_bytes ".capnp") with (ascii_bytes ".c" ++ ascii_bytes "apnp") in E.
  change (ascii_bytes ".capnp.tmp") with (ascii_bytes ".capnp" ++ ascii_bytes ".tmp") in E.
  rewrite !app_assoc in E. apply app_inj_2 in E as [_ E]; done.
Qed.

Lemma strip_suffix_app s p : strip_suffix s (p ++ s) = Some p.
Proof.
  unfold strip_suffix. rewrite length_app, bool_decide_true by lia.
  replace (length p + length s - length s)%nat with (length p) by lia.
  by rewrite drop_app_length, take_app_length, bool_decide_true.
Qed.

Lemma files_write self h bs h' : in_width 64 h → in_width 64 h' →
  files (write_block_bytes self h bs) !! block_path h' = if bool_decide (h = h') then Some bs else files self !! block_path h'.
Proof.
  intros Hh Hh'. unfold write_block_bytes, files. simpl. case_bool_decide as E.
  - subst. by rewrite lookup_insert_eq.
  - rewrite lookup_insert_ne by (intros E'; by apply block_path_inj in E').
    pose proof (block_tmp_ne h' h). rewrite lookup_delete_ne by done. by rewrite lookup_insert_ne.
Qed.

(** ** Grouping *)

Abbreviation spend := (Z * Z * Z)%type.
Definition flatten (g : list (Z * list (Z * Z))) : list spend :=
  g ≫= λ '(c, vs), (λ '(i, h), (c, i, h)) <$> vs.

Lemma flatten_keys g c : Forall (λ '(k, _), k ≠ c) g → Forall (λ x : spend, x.1.1 ≠ c) (flatten g).
Proof.
  induction 1 as [|[k vs] g Hk Hg IH]; [constructor|]. unfold flatten. simpl. apply Forall_app. split; [|exact IH].
  apply Forall_fmap, Forall_forall. by intros [].
Qed.

Definition sorted_keys (g : list (Z * list (Z * Z))) : Prop := StronglySorted Z.lt g.*1.

Lemma btree_push_keys c v (g : list (Z * list (Z * Z))) k :
  k ∈ (btree_push c v g).*1 → k = c ∨ k ∈ g.*1.
Proof.
  induction g as [|[c' vs] g IH]; simpl; [set_solver|].
  repeat case_bool_decide; simpl; set_solver.
Qed.

Lemma btree_push_sorted c v g : sorted_keys g → sorted_keys (btree_push c v g).
Proof.
  unfold sorted_keys. induction g as [|[c' vs] g IH]; intros Hs; simpl; [repeat constructor|].
  inversion_clear Hs as [|? ? Hs' Hf]. repeat case_bool_decide; simpl.
  - constructor; [by constructor|]. constructor; [done|]. eapply Forall_impl; [exact Hf|]. simpl. lia.
  - by constructor.
  - constructor; [by apply IH|]. apply Forall_forall. intros k [->|Hk]%btree_push_keys; [lia|].
    rewrite Forall_forall in Hf. by apply Hf.
Qed.

Lemma sorted_keys_ne c vs g : sorted_keys ((c, vs) :: g) → Forall (λ '(k, _), k ≠ c) g.
Proof.
  intros Hs. inversion_clear Hs as [|? ? _ Hf]. rewrite Forall_fmap in Hf. eapply Forall_impl; [exact Hf|].
  intros [k ws]. simpl. lia.
Qed.

(** Grouping does not change the result of an operation that commutes on different keys. *)
Section grouping.
Context {A : Type} (f : A → spend → A).
Hypothesis f_comm : ∀ a c i h c' i' h', c ≠ c' → f (f a (c, i, h)) (c', i', h') = f (f a (c', i', h')) (c, i, h).

Lemma foldl_push_past a c i h (l : list spend) :
  Forall (λ x : spend, x.1.1 ≠ c) l → foldl f (f a (c, i, h)) l = f (foldl f a l) (c, i, h).
Proof.
  revert a. induction l as [|[[c' i'] h'] l IH]; intros a Hl; [done|]. inversion_clear Hl as [|? ? Hc Hl'].
  simpl in *. rewrite f_comm by congruence. by apply IH.
Qed.

Lemma foldl_btree_push a c i h g : sorted_keys g →
  foldl f a (flatten (btree_push c (i, h) g)) = f (foldl f a (flatten g)) (c, i, h).
Proof.
  revert a. induction g as [|[c' vs] g IH]; intros a Hs; [done|]. simpl.
  repeat case_bool_decide; unfold flatten in *; simpl.
  - apply foldl_push_past. apply (flatten_keys ((c', vs) :: g)). constructor; [lia|].
    inversion_clear Hs as [|? ? _ Hf]. rewrite Forall_fmap in Hf. eapply Forall_impl; [exact Hf|].
    intros [k ws]. simpl. lia.
  - subst c'. rewrite fmap_app, !foldl_app. simpl. apply foldl_push_past.
    apply flatten_keys. by eapply sorted_keys_ne.
  - rewrite !foldl_app. apply IH. by inversion Hs.
Qed.
End grouping.

Lemma btree_push_elem c i h g x : x ∈ flatten (btree_push c (i, h) g) → x = (c, i, h) ∨ x ∈ flatten g.
Proof.
  induction g as [|[c' vs] g IH]; simpl; unfold flatten in *; simpl.
  { rewrite elem_of_cons. tauto. }
  repeat case_bool_decide; simpl; [rewrite elem_of_cons; tauto| |].
  - rewrite fmap_app, !elem_of_app. subst c'. simpl. rewrite list_elem_of_singleton. tauto.
  - rewrite !elem_of_app. tauto.
Qed.

Definition push_spend (g : list (Z * list (Z * Z))) (x : spend) : list (Z * list (Z * Z)) :=
  let '(c, i, h) := x in btree_push c (i, h) g.

Lemma group_spends_ok spends : Forall (λ x : spend, x.2 < 2 ^ 32) spends →
  group_spends spends = Ok (foldl push_spend [] spends).
Proof.
  unfold group_spends. generalize (@nil (Z * list (Z * Z))). intros g Hs. revert g.
  induction Hs as [|[[c i] h] l Hh Hl IH]; intros g; [done|]. simpl in Hh. cbn [fold_res].
  rewrite (try_from_ok 32 h Hh). rsimpl. apply IH.
Qed.

Lemma grouped_sorted spends g : sorted_keys g → sorted_keys (foldl push_spend g spends).
Proof. revert g. induction spends as [|[[c i] h] l IH]; intros g Hg; [done|]. apply IH, btree_push_sorted, Hg. Qed.

Lemma grouped_foldl {A} (f : A → spend → A) spends g a :
  (∀ a c i h c' i' h', c ≠ c' → f (f a (c, i, h)) (c', i', h') = f (f a (c', i', h')) (c, i, h)) →
  sorted_keys g → foldl f a (flatten (foldl push_spend g spends)) = foldl f (foldl f a (flatten g)) spends.
Proof.
  intros Hf. revert g. induction spends as [|[[c i] h] l IH]; intros g Hg; [done|].
  cbn [foldl push_spend]. rewrite IH by by apply btree_push_sorted.
  by rewrite (foldl_btree_push f Hf).
Qed.

Lemma grouped_elem spends g x : x ∈ flatten (foldl push_spend g spends) → x ∈ flatten g ∨ x ∈ spends.
Proof.
  revert g. induction spends as [|[[c i] h] l IH]; intros g; [by left|]. cbn [foldl push_spend].
  intros [[->|?]%btree_push_elem|?]%IH; rewrite ?elem_of_cons; tauto.
Qed.

(** ** Marking, without the errors *)

Definition mark_one (st : StoredLightBlockInput * nat) (v : Z * Z) : StoredLightBlockInput * nat :=
  let '(s, n) := st in
  match sb_outputs s !! Z.to_nat v.1 with
  | Some o => if bool_decide (spent_height o ≠ v.2)
              then (set_outputs s (<[Z.to_nat v.1 := set_spent_height o v.2]> (sb_outputs s)), S n) else (s, n)
  | None => (s, n)
  end.
Abbreviation archive_map := (gmap Z StoredLightBlockInput).
Definition mark1 (st : archive_map * nat) (x : spend) : archive_map * nat :=
  let '(m, n) := st in let '(c, i, h) := x in
  match m !! c with
  | Some s => let '(s', n') := mark_one (s, n) (i, h) in (<[c := s']> m, n')
  | None => (m, n)
  end.

(** The counter only ever counts. *)
Lemma mark_one_count s n v : mark_one (s, n) v = ((mark_one (s, 0%nat) v).1, ((mark_one (s, 0%nat) v).2 + n)%nat).
Proof. unfold mark_one. destruct (_ !! _); [|done]. case_bool_decide; done. Qed.

Lemma mark1_comm st c i h c' i' h' : c ≠ c' →
  mark1 (mark1 st (c, i, h)) (c', i', h') = mark1 (mark1 st (c', i', h')) (c, i, h).
Proof.
  intros Hne. destruct st as [m n]. unfold mark1.
  destruct (m !! c) as [s|] eqn:E, (m !! c') as [s'|] eqn:E'; rewrite ?E, ?E'; try done.
  - rewrite (mark_one_count s n), (mark_one_count s' n).
    rewrite !lookup_insert_ne, E, E' by done. rewrite (mark_one_count s'), (mark_one_count s (_ + _)).
    generalize (mark_one (s, 0%nat) (i, h)) (mark_one (s', 0%nat) (i', h')). intros [s1 n1] [s2 n2].
    cbn [fst snd]. f_equal; [by rewrite insert_insert_ne|lia].
  - destruct (mark_one _ _). by rewrite lookup_insert_ne, E'.
  - destruct (mark_one _ _). by rewrite lookup_insert_ne, E.
Qed.

Definition marks_into (s : StoredLightBlockInput) (v : Z * Z) : Prop :=
  (Z.to_nat v.1 < length (sb_outputs s))%nat ∧ in_width 32 v.2.

(** What marking leaves alone. *)
Definition same_output (o o' : StoredOutputEntryInput) : Prop := key o' = key o ∧ flags o' = flags o.
Definition marked_from (s s' : StoredLightBlockInput) : Prop :=
  ∃ os, s' = set_outputs s os ∧ Forall2 same_output (sb_outputs s) os.

Lemma set_outputs_same s : set_outputs s (sb_outputs s) = s.
Proof. by destruct s. Qed.

Lemma Forall2_same_refl os : Forall2 same_output os os.
Proof. by apply Forall_Forall2_diag, Forall_forall. Qed.
Lemma marked_from_refl s : marked_from s s.
Proof. exists (sb_outputs s). split; [by rewrite set_outputs_same|apply Forall2_same_refl]. Qed.
Lemma marked_from_trans s1 s2 s3 : marked_from s1 s2 → marked_from s2 s3 → marked_from s1 s3.
Proof.
  intros (os & -> & H1) (os' & -> & H2). exists os'. split; [done|].
  simpl in H2. eapply Forall2_trans; [|exact H1|exact H2].
  intros x y z [E1 E2] [E3 E4]. split; congruence.
Qed.
Lemma marked_from_length s s' : marked_from s s' → length (sb_outputs s') = length (sb_outputs s).
Proof. intros (os & -> & HF). simpl. symmetry. by eapply Forall2_length. Qed.

Lemma mark_one_marked s n v : marked_from s (mark_one (s, n) v).1.
Proof.
  unfold mark_one. destruct (sb_outputs s !! Z.to_nat v.1) as [o|] eqn:E; [|apply marked_from_refl].
  case_bool_decide; [|apply marked_from_refl]. eexists. split; [reflexivity|].
  rewrite <-(list_insert_id (sb_outputs s) (Z.to_nat v.1) o E) at 1.
  apply Forall2_insert; [apply Forall2_same_refl|done].
Qed.

Lemma marks_into_marked s s' v : marked_from s s' → marks_into s v → marks_into s' v.
Proof. intros Hm [Hl Hw]. split; [by rewrite (marked_from_length s s')|done]. Qed.

Lemma mark_output_ok st v : marks_into st.1 v → mark_output st v = Ok (mark_one st v).
Proof.
  destruct st as [s n], v as [i h]. intros [Hl _]. unfold mark_output, mark_one. simpl in *.
  destruct (lookup_lt_is_Some_2 _ _ Hl) as [o ->]. rsimpl. case_bool_decide; done.
Qed.

Lemma mark_one_typed s n v : stored_typed s → in_width 32 v.2 → stored_typed (mark_one (s, n) v).1.
Proof.
  intros Ht Hv. unfold mark_one. destruct (sb_outputs s !! Z.to_nat v.1) as [o|] eqn:E; [|done].
  case_bool_decide; [|done]. destruct Ht. constructor; try done. simpl.
  apply Forall_insert; [done|]. rewrite Forall_lookup in st_outputs. destruct (st_outputs _ _ E) as (? & ? & ?). by split_and!.
Qed.

(** The validators do not look at the spent heights. *)
Lemma marked_valid s s' : marked_from s s' → stored_valid s → stored_valid s'.
Proof.
  intros Hm. pose proof (marked_from_length s s' Hm) as Hl. destruct Hm as (os & -> & _). simpl in Hl.
  intros []. unfold stored_bits, choose_truncated_output_hash_bits in *.
  constructor; simpl; unfold stored_bits, choose_truncated_output_hash_bits; simpl; rewrite ?Hl; done.
Qed.

Lemma marked_norm s s' : marked_from s s' → norm_stored s = s → norm_stored s' = s'.
Proof. intros (os & -> & _) E. apply (f_equal sb_tweaks) in E. unfold norm_stored, set_outputs. simpl in *. by rewrite E. Qed.

(** ** Later spends do not show in settled responses *)

(** Two versions of an output, of a block, that differ at most in spends above the
    height [T]. *)
Definition later_output (T : Z) (o o' : StoredOutputEntryInput) : Prop :=
  same_output o o' ∧ (spent_height o' = spent_height o ∨ (T < spent_height o ∧ T < spent_height o')).
Definition later_from (T : Z) (s s' : StoredLightBlockInput) : Prop :=
  ∃ os, s' = set_outputs s os ∧ Forall2 (later_output T) (sb_outputs s) os.
(** A filter whose answer is settled at height [T]. *)
Definition settled (T : Z) (f : StoredBlockResponseFilter) : Prop :=
  cutthrough_start f = None ∨ cutthrough_tip f = Some T.

Lemma later_output_refl T o : later_output T o o.
Proof. split; [done|by left]. Qed.
Lemma later_from_refl T s : later_from T s s.
Proof.
  exists (sb_outputs s). split; [by rewrite set_outputs_same|].
  apply Forall_Forall2_diag, Forall_forall. intros. apply later_output_refl.
Qed.
Lemma later_from_trans T s1 s2 s3 : later_from T s1 s2 → later_from T s2 s3 → later_from T s1 s3.
Proof.
  intros (os & -> & H1) (os' & -> & H2). exists os'. split; [done|].
  simpl in H2. eapply Forall2_trans; [|exact H1|exact H2].
  intros x y z [[E1 E2] Hs] [[E3 E4] Hs']. split; [split; congruence|]. lia.
Qed.

Lemma mark_one_later T s n v :
  T < v.2 → (∀ o, sb_outputs s !! Z.to_nat v.1 = Some o → T < spent_height o) →
  later_from T s (mark_one (s, n) v).1.
Proof.
  intros Hv Ho. unfold mark_one. destruct (sb_outputs s !! Z.to_nat v.1) as [o|] eqn:E; [|apply later_from_refl].
  case_bool_decide; [|apply later_from_refl]. eexists. split; [reflexivity|].
  rewrite <-(list_insert_id (sb_outputs s) (Z.to_nat v.1) o E) at 1.
  apply Forall2_insert; [apply Forall_Forall2_diag, Forall_forall; intros; apply later_output_refl|].
  split; [done|]. right. split; [by apply Ho|done].
Qed.

Lemma later_output_omit T h f o o' : settled T f → later_output T o o' → T < STORAGE_SPENT_HEIGHT_UNSPENT →
  should_omit_stored_output h o' f = should_omit_stored_output h o f.
Proof.
  intros Hf [[Hk Hfl] Ho] HT. unfold should_omit_stored_output. rewrite Hfl.
  destruct (filter_reuse f && _); [done|]. destruct (cutthrough_start f) as [start|] eqn:Es; [|done].
  destruct Hf as [?|Et]; [congruence|]. rewrite Et. cbn [default].
  destruct Ho as [->|[H1 H2]]; [done|].
  rewrite (bool_decide_false (spent_height o' ≤ T)), (bool_decide_false (spent_height o ≤ T)) by lia.
  by rewrite !andb_false_r.
Qed.

Section later.
Context (T : Z) (f : StoredBlockResponseFilter) (Hf : settled T f) (HT : T < STORAGE_SPENT_HEIGHT_UNSPENT).

Lemma keep_output_later h os os' st : Forall2 (later_output T) os os' →
  fold_res (keep_output h f) st os' = fold_res (keep_output h f) st os.
Proof.
  intros Ho. revert st. induction Ho as [|o o' os os' Ho Hos IH]; intros st; [done|]. cbn [fold_res].
  assert (keep_output h f st o' = keep_output h f st o) as ->.
  { unfold keep_output. destruct st as [ks n]. rewrite (later_output_omit T h f o o') by done.
    destruct Ho as [[-> _] _]. done. }
  destruct (keep_output h f st o); [apply IH|done..].
Qed.

Lemma filter_tweak_later s os st e : Forall2 (later_output T) (sb_outputs s) os →
  filter_tweak (set_outputs s os) f st e = filter_tweak s f st e.
Proof.
  intros Ho. pose proof (Forall2_length _ _ _ Ho) as Hl. unfold filter_tweak. destruct e as [t i].
  destruct (checked_add _ _ _) as [g|]; [|done]. rsimpl. cbn [set_outputs sb_outputs sb_height sb_tx_count].
  rewrite <-Hl. destruct (ensure _ _); [|done..]. rsimpl. unfold slice. rewrite <-Hl.
  destruct (_ && _); [|done]. rsimpl. by rewrite (keep_output_later _ _ _ _ (Forall2_take _ _ _ _ (Forall2_drop _ _ _ _ Ho))).
Qed.

Lemma filtered_later `{!Sha256} s s' : later_from T s s' →
  to_filtered_response_input s' f = to_filtered_response_input s f.
Proof.
  intros (os & -> & Ho). pose proof (Forall2_length _ _ _ Ho) as Hl. unfold to_filtered_response_input.
  destruct (negb _ && _).
  { unfold to_response_input_for_labels. cbn [set_outputs sb_outputs sb_raw_block_bytes]. by rewrite <-Hl. }
  cbn [set_outputs sb_tx_count sb_skipped_txs_for_tweaks sb_tweaks].
  destruct (derive_stored_tweak_tx_indexes _ _ _) as [ixs| |]; [|done..]. rsimpl.
  assert (∀ st l, fold_res (filter_tweak (set_outputs s os) f) st l = fold_res (filter_tweak s f) st l) as ->.
  { intros st l. revert st. induction l as [|e l IH]; intros st; [done|]. cbn [fold_res].
    rewrite filter_tweak_later by done. destruct (filter_tweak s f st e); [apply IH|done..]. }
  destruct (fold_res _ _ _) as [st| |]; [|done..]. rsimpl. cbn [set_outputs sb_outputs]. by rewrite <-Hl.
Qed.
End later.

(** ** The archive as a map of blocks *)

Section archive_proofs.
Context `{CL : !CapnpPacked light_block, CS : !CapnpPacked stored_light_block, SH : !Sha256, MJ : !ManifestJson}.

(** The file of height [h] is the message of the block [s]. *)
Definition archived (fs : FileArchive) (h : Z) (s : StoredLightBlockInput) : Prop :=
  stored_typed s ∧ norm_stored s = s ∧
  ∃ msg, encode_stored_light_block s = Ok msg ∧ capnp_fits msg ∧
         files fs !! block_path h = Some (write_message msg).
Definition holds_blocks (fs : FileArchive) (m : archive_map) : Prop :=
  ∀ h, in_width 64 h → match m !! h with
                       | Some s => archived fs h s
                       | None => files fs !! block_path h = None
                       end.

(** The reader limits of a message do not depend on the spent heights, which have a
    fixed size. *)
Definition fits_marked : Prop := ∀ s s' msg msg',
  marked_from s s' → encode_stored_light_block s = Ok msg → encode_stored_light_block s' = Ok msg' →
  capnp_fits msg → capnp_fits msg'.

Definition marks_archive (m : archive_map) (x : spend) : Prop :=
  let '(c, i, h) := x in in_width 64 c ∧ in_width 32 h ∧ ∀ s, m !! c = Some s → marks_into s (i, h).

Lemma archived_decode fs h s : archived fs h s →
  ∃ bs, files fs !! block_path h = Some bs ∧ decode_stored_light_block bs = Ok s.
Proof.
  intros (Ht & Hn & msg & He & Hf & Hl). exists (write_message msg). split; [done|].
  rewrite (stored_roundtrip s msg Ht He Hf). by rewrite Hn.
Qed.

Lemma mark_outputs_ok s n vs : Forall (marks_into s) vs →
  fold_res mark_output (s, n) vs = Ok (foldl mark_one (s, n) vs) ∧ marked_from s (foldl mark_one (s, n) vs).1 ∧
  (stored_typed s → stored_typed (foldl mark_one (s, n) vs).1).
Proof.
  intros Hv. revert s n Hv. induction vs as [|v vs IH]; intros s n Hv; [split_and!; [done|apply marked_from_refl|done]|].
  inversion_clear Hv as [|? ? Hv1 Hvs]. cbn [fold_res foldl]. rewrite mark_output_ok by done. rsimpl.
  pose proof (mark_one_marked s n v) as Hm. pose proof (mark_one_typed s n v) as Ht.
  destruct (mark_one (s, n) v) as [s' n']. cbn [fst] in *.
  destruct (IH s' n') as (-> & Hm' & Ht').
  { eapply Forall_impl; [exact Hvs|]. intros. by eapply marks_into_marked. }
  split_and!; [done|by eapply marked_from_trans|]. intros. apply Ht', Ht; [done|apply Hv1].
Qed.

Lemma mark_stored_ok fs h s n vs :
  fits_marked → archived fs h s → Forall (marks_into s) vs →
  ∃ bs, files fs !! block_path h = Some bs ∧ ∃ msg,
    mark_stored bs n vs = Ok (write_message msg, (foldl mark_one (s, n) vs).2) ∧
    let s' := (foldl mark_one (s, n) vs).1 in
    stored_typed s' ∧ norm_stored s' = s' ∧ encode_stored_light_block s' = Ok msg ∧ capnp_fits msg.
Proof.
  intros Hfits Ha Hv. destruct (archived_decode fs h s Ha) as (bs & Hb & Hd). exists bs. split; [done|].
  destruct Ha as (Ht & Hn & msg & He & Hf & _).
  destruct (mark_outputs_ok s n vs Hv) as (Hm & Hfrom & Hty). specialize (Hty Ht).
  assert (Hval : validate_stored_light_block_input s = Ok tt).
  { unfold encode_stored_light_block in He. by apply bind_Ok in He as ([] & ? & _). }
  apply validate_stored_ok in Hval; [|done].
  pose proof (marked_valid _ _ Hfrom Hval) as Hval'. apply validate_stored_ok in Hval'; [|done].
  pose proof (encode_stored_ok _ Hty Hval') as Ho. unfold mark_stored. rewrite Hd. rsimpl. rewrite Hm. rsimpl.
  destruct (foldl mark_one (s, n) vs) as [s' n']. cbn [fst snd] in *.
  destruct (encode_stored_light_block s') as [msg'| |] eqn:E'; [|done..]. rsimpl. exists msg'.
  split; [done|]. split_and!; [done|by eapply marked_norm|done|by eapply Hfits].
Qed.

(** Writing one block. *)
Lemma holds_write fs m h s msg : in_width 64 h → holds_blocks fs m →
  stored_typed s → norm_stored s = s → encode_stored_light_block s = Ok msg → capnp_fits msg →
  holds_blocks (write_block_bytes fs h (write_message msg)) (<[h := s]> m).
Proof.
  intros Hh Hm Ht Hn He Hf h' Hh'. specialize (Hm h' Hh'). rewrite lookup_insert.
  case_decide as E; [subst h'|].
  - split_and!; [done..|]. exists msg. split_and!; [done..|]. by rewrite files_write, bool_decide_true.
  - destruct (m !! h') as [s'|].
    + destruct Hm as (? & ? & msg' & ? & ? & Hl). split_and!; [done..|]. exists msg'. split_and!; [done..|].
      by rewrite files_write, bool_decide_false.
    + by rewrite files_write, bool_decide_false.
Qed.

(** The spends of one block. *)
Lemma foldl_mark1_block c m n s vs : m !! c = Some s →
  foldl mark1 (m, n) ((λ '(i, h), (c, i, h)) <$> vs) =
  (<[c := (foldl mark_one (s, n) vs).1]> m, (foldl mark_one (s, n) vs).2).
Proof.
  revert m n s. induction vs as [|[i h] vs IH]; intros m n s Hm; [simpl; by rewrite insert_id|].
  rewrite fmap_cons. cbn [foldl mark1]. rewrite Hm. destruct (mark_one (s, n) (i, h)) as [s' n'].
  rewrite (IH _ n' s') by apply lookup_insert_eq. by rewrite insert_insert_eq.
Qed.
Lemma foldl_mark1_missing c m n vs : m !! c = None →
  foldl mark1 (m, n) ((λ '(i, h), (c, i, h)) <$> vs) = (m, n).
Proof. intros Hm. induction vs as [|[i h] vs IH]; [done|]. rewrite fmap_cons. cbn [foldl mark1]. by rewrite Hm. Qed.

Lemma marks_archive_insert m c s s' x :
  m !! c = Some s → marked_from s s' → marks_archive m x → marks_archive (<[c := s']> m) x.
Proof.
  destruct x as [[c' i] h]. intros Hm Hf (? & ? & Hx). split_and!; [done..|].
  intros s2 [[<- <-]|[_ ?]]%lookup_insert_Some; [|by apply Hx]. eapply marks_into_marked; eauto.
Qed.

Lemma mark_blocks_ok fs m n g :
  fits_marked → holds_blocks fs m → Forall (marks_archive m) (flatten g) → Forall (λ '(c, vs), vs ≠ []) g →
  ∃ fs', mark_blocks fs n g = (fs', Ok (foldl mark1 (m, n) (flatten g)).2) ∧
         holds_blocks fs' (foldl mark1 (m, n) (flatten g)).1.
Proof.
  intros Hfits. revert fs m n. induction g as [|[c vs] g IH]; intros fs m n Hm Hg Hne; [eauto|].
  unfold flatten in *. cbn [mbind list_bind mark_blocks] in *. rewrite foldl_app.
  apply Forall_app in Hg as [Hvs Hg]. inversion_clear Hne as [|? ? Hv Hne'].
  assert (Hc : in_width 64 c).
  { destruct vs as [|[i h] vs]; [done|]. inversion_clear Hvs as [|? ? Hx _]. apply Hx. }
  pose proof (Hm c Hc) as Hmc. destruct (m !! c) as [s|] eqn:E.
  - rewrite (foldl_mark1_block c m n s vs E).
    assert (Hin : Forall (marks_into s) vs).
    { rewrite Forall_fmap in Hvs. eapply Forall_impl; [exact Hvs|]. intros [i h] Hx. by apply Hx. }
    destruct (mark_stored_ok fs c s n vs Hfits Hmc Hin) as (bs & -> & msg & -> & Ht & Hn & He & Hf).
    destruct (mark_outputs_ok s n vs Hin) as (_ & Hfrom & _).
    apply IH; [by apply holds_write| |done].
    eapply Forall_impl; [exact Hg|]. intros x Hx. by eapply marks_archive_insert.
  - rewrite Hmc, (foldl_mark1_missing c m n vs E). by apply IH.
Qed.

Lemma grouped_nonempty spends g : Forall (λ '(c, vs), vs ≠ []) g →
  Forall (λ '(c, vs), vs ≠ []) (foldl push_spend g spends).
Proof.
  revert g. induction spends as [|[[c i] h] l IH]; intros g Hg; [done|]. cbn [foldl push_spend]. apply IH.
  clear IH. induction Hg as [|[c' vs] g Hv Hg IH]; simpl; [by repeat constructor|].
  repeat case_bool_decide; repeat (constructor; try done). by destruct vs.
Qed.

Lemma mark_archive fs m spends :
  fits_marked → holds_blocks fs m → Forall (marks_archive m) spends →
  ∃ fs', mark_spent_outputs fs spends = (fs', Ok (foldl mark1 (m, 0%nat) spends).2) ∧
         holds_blocks fs' (foldl mark1 (m, 0%nat) spends).1.
Proof.
  intros Hfits Hm Hs. unfold mark_spent_outputs.
  rewrite group_spends_ok by (eapply Forall_impl; [exact Hs|]; intros [[c i] h] (_ & [_ ?] & _); done).
  pose proof (grouped_foldl mark1 spends [] (m, 0%nat) mark1_comm ltac:(constructor)) as E.
  change (foldl mark1 (m, 0%nat) (flatten [])) with (m, 0%nat) in E. rewrite <-E.
  apply mark_blocks_ok; [done..| |by apply grouped_nonempty].
  apply Forall_forall. intros x [Hx|Hx]%grouped_elem; [by apply not_elem_of_nil in Hx|].
  rewrite Forall_forall in Hs. by apply Hs.
Qed.

(** ** Theorems *)

(** C29: [mark_spent_outputs] refines marking on the map of blocks: whatever the order
    of the spends, the archive afterwards holds every block with its outputs' spent
    heights set in that order, blocks it does not have are skipped, nothing else
    changes, and the count returned is the number of heights that changed. *)
Theorem mark_spent_outputs_refines fs m spends :
  fits_marked → holds_blocks fs m → Forall (marks_archive m) spends →
  ∃ fs', mark_spent_outputs fs spends = (fs', Ok (foldl mark1 (m, 0%nat) spends).2) ∧
         holds_blocks fs' (foldl mark1 (m, 0%nat) spends).1.
Proof.
  apply mark_archive.
Qed.

(** Marks above [T] on outputs that are not spent by then. *)
Definition later_mark (T : Z) (m : archive_map) (x : spend) : Prop :=
  let '(c, i, h) := x in
  T < h ∧ ∀ s o, m !! c = Some s → sb_outputs s !! Z.to_nat i = Some o → T < spent_height o.

Lemma mark1_later T m n x : later_mark T m x →
  ∀ c s, m !! c = Some s → ∃ s', (mark1 (m, n) x).1 !! c = Some s' ∧ later_from T s s'.
Proof.
  destruct x as [[c i] h]. intros [Hh Ho] c' s' Hs'. unfold mark1.
  destruct (m !! c) as [s|] eqn:E; [|eexists; split; [done|apply later_from_refl]].
  pose proof (mark_one_later T s n (i, h) Hh ltac:(intros o; by apply Ho)) as Hl.
  destruct (mark_one (s, n) (i, h)) as [s1 n1]. simpl in *.
  destruct (decide (c = c')) as [->|Hne].
  - rewrite lookup_insert_eq. simplify_eq. eauto.
  - rewrite lookup_insert_ne by done. eexists. split; [done|apply later_from_refl].
Qed.

Lemma later_mark_preserved T m n x y : later_mark T m x → later_mark T m y → later_mark T (mark1 (m, n) x).1 y.
Proof.
  intros Hx. destruct y as [[c i] h]. intros [Hh Ho]. split; [done|]. intros s' o' Hs' Ho'.
  destruct (m !! c) as [s|] eqn:E.
  - destruct (mark1_later T m n x Hx c s E) as (s2 & Hs2 & os & -> & HF).
    rewrite Hs2 in Hs'. injection Hs' as <-. simpl in Ho'.
    destruct (Forall2_lookup_r _ _ _ _ _ HF Ho') as (o & Hlo & [_ Hsp]). specialize (Ho s o eq_refl Hlo). lia.
  - exfalso. destruct x as [[c1 i1] h1]. unfold mark1 in Hs'. destruct (m !! c1) as [s1|] eqn:E1; [|simpl in Hs'; congruence].
    destruct (mark_one (s1, n) (i1, h1)). simpl in Hs'. apply lookup_insert_Some in Hs' as [[-> _]|[_ ?]]; congruence.
Qed.

Lemma marks_later T m n spends : Forall (later_mark T m) spends →
  ∀ c s, m !! c = Some s → ∃ s', (foldl mark1 (m, n) spends).1 !! c = Some s' ∧ later_from T s s'.
Proof.
  revert m n. induction spends as [|x l IH]; intros m n Hl c s Hs; [eexists; split; [done|apply later_from_refl]|].
  inversion_clear Hl as [|? ? Hx Hl']. cbn [foldl].
  destruct (mark1_later T m n x Hx c s Hs) as (s1 & Hs1 & Hf1).
  assert (Forall (later_mark T (mark1 (m, n) x).1) l) as Hl1.
  { eapply Forall_impl; [exact Hl'|]. intros y. by apply later_mark_preserved. }
  destruct (mark1 (m, n) x) as [m1 n1]. destruct (IH m1 n1 Hl1 c s1 Hs1) as (s2 & Hs2 & Hf2).
  exists s2. split; [done|by eapply later_from_trans].
Qed.

(** C30: a response that is settled at height [T] (without cut-through, or with the
    explicit cut-through tip [T]) is immutable: recording spends of later blocks in the
    archive does not change the bytes served for any height. *)
Theorem later_spends_keep_responses fs m spends T f h :
  fits_marked → holds_blocks fs m → Forall (marks_archive m) spends → Forall (later_mark T m) spends →
  settled T f → T < STORAGE_SPENT_HEIGHT_UNSPENT → in_width 64 h → is_Some (m !! h) →
  read_block_filtered_with_hash (mark_spent_outputs fs spends).1 h f = read_block_filtered_with_hash fs h f.
Proof.
  intros Hfits Hm Hs Hl Hf HT Hh [s Es].
  destruct (mark_archive fs m spends Hfits Hm Hs) as (fs' & -> & Hm').
  destruct (marks_later T m 0%nat spends Hl h s Es) as (s' & Es' & Hfrom).
  pose proof (Hm h Hh) as Ha. rewrite Es in Ha. destruct (archived_decode fs h s Ha) as (bs & Hb & Hd).
  pose proof (Hm' h Hh) as Ha'. rewrite Es' in Ha'. destruct (archived_decode fs' h s' Ha') as (bs' & Hb' & Hd').
  unfold read_block_filtered_with_hash, read_stored_block. cbn [fst]. rewrite Hb, Hb'. rsimpl.
  unfold stored_light_block_to_filtered_response_bytes. rewrite Hd, Hd'. rsimpl.
  rewrite (filtered_later T f Hf HT s s' Hfrom). destruct Hfrom as (os & -> & _). done.
Qed.

End archive_proofs.

(** ** A concrete archive *)

#[export] Instance ChainTip_eq_dec : EqDecision ChainTip.
Proof. solve_decision. Defined.
#[export] Instance ChainTip_countable : Countable ChainTip.
Proof. refine (inj_countable' (λ t, (height t, block_hash t)) (λ '(a, b), Build_ChainTip a b) _). by intros []. Defined.
#[export] Instance Manifest_eq_dec : EqDecision Manifest.
Proof. solve_decision. Defined.
#[export] Instance Manifest_countable : Countable Manifest.
Proof.
  refine (inj_countable' (λ m, (version m, network m, genesis_hash m, finality_depth m,
    suggested_reorg_cache_depth m, max_range_count m, mf_tip m))
    (λ '(a, b, c, d, e, f, g), Build_Manifest a b c d e f g) _). by intros [].
Defined.

(** A codec for concrete manifests: every manifest is one number. *)
Definition toy_json : ManifestJson.
Proof.
  refine {|
    to_vec_pretty := λ m, [Z.pos (encode m)];
    from_json_slice := λ bs, match bs with
      | [Z.pos p] => match decode p with Some m => Ok m | None => Err "invalid manifest" end
      | _ => Err "invalid manifest" end |}.
  intros m. by rewrite decode_encode.
Defined.

#[local] Existing Instances toy_sha256 toy_json.
#[local] Instance toy_light : CapnpPacked light_block := toy_capnp light_block.
#[local] Instance toy_stored : CapnpPacked stored_light_block := toy_capnp stored_light_block.

Definition demo_message : stored_light_block :=
  match encode_stored_light_block demo_stored with Ok m => m | _ => Build_stored_light_block 0 0 [] [] 0 0 [] [] [] [] [] 0 [] [] end.
Definition demo_archive : FileArchive := write_block_bytes archive_new 10 (write_message demo_message).
Definition demo_blocks : archive_map := {[10 := demo_stored]}.

Lemma demo_archive_holds : holds_blocks demo_archive demo_blocks.
Proof.
  apply (holds_write archive_new ∅ 10 demo_stored demo_message); [split; lia| |apply demo_stored_typed|reflexivity|reflexivity|done].
  intros h _. by rewrite lookup_empty.
Qed.
Lemma toy_fits_marked : fits_marked.
Proof. by intros s s' msg msg' _ _ _ _. Qed.

(** A spend of the block's second output, and one of a block the archive lacks. *)
Definition demo_spends : list spend := [(10, 1, 20); (11, 0, 21)].
Lemma demo_spends_ok : Forall (marks_archive demo_blocks) demo_spends.
Proof.
  unfold demo_spends, marks_archive, marks_into, in_width, demo_blocks.
  apply Forall_cons. split; [|apply Forall_cons; split; [|apply Forall_nil; done]];
    (split_and!; try lia); intros s [? <-]%lookup_singleton_Some; simpl; lia.
Qed.

Lemma mark_spent_outputs_refines_witness :
  ∃ fs', mark_spent_outputs demo_archive demo_spends = (fs', Ok 1%nat) ∧
         holds_blocks fs' (foldl mark1 (demo_blocks, 0%nat) demo_spends).1.
Proof.
  apply (mark_spent_outputs_refines demo_archive demo_blocks demo_spends toy_fits_marked demo_archive_holds demo_spends_ok).
Defined.

Lemma later_spends_keep_responses_witness :
  let f := {| cutthrough_start := Some 5; cutthrough_tip := Some 12; filter_reuse := false; labels := None |} in
  read_block_filtered_with_hash (mark_spent_outputs demo_archive demo_spends).1 10 f =
  read_block_filtered_with_hash demo_archive 10 f.
Proof.
  intros f. apply (later_spends_keep_responses demo_archive demo_blocks demo_spends 12 f 10 toy_fits_marked
    demo_archive_holds demo_spends_ok); [|by right|done|split; lia|by exists demo_stored].
  unfold demo_spends, later_mark, demo_blocks.
  apply Forall_cons. split; [|apply Forall_cons; split; [|by apply Forall_nil]];
    (split; [lia|]); intros s o [? <-]%lookup_singleton_Some; [by intros [= <-]|lia].
Defined.
