(* ===== verification/JsonWire.v ===== *)
(** * JSON view of a light block

    Model of [light-server/src/json_wire.rs].  Hexadecimal strings are those of the
    [hex] crate, a parameter. *)

From S2P Require Import Prelude Decimal Helper SpentIds LightBlock LightWire.

Class Hex := { hex_encode : bytes → bytes }.

Record JsonTweakEntry := { j_output_count : Z; j_tweak : bytes }.
Record JsonLightBlock := {
  j_version : Z; j_height : Z; j_block_hash : bytes; j_previous_block_hash : bytes; j_first_uid : Z;
  j_tx_count : Z; j_skipped_txs_for_tweaks_bitmap : bytes; j_tweaks : list JsonTweakEntry;
  j_truncated_output_hash_bits : Z; j_truncated_output_hash_bytes : nat; j_truncated_output_hashes : bytes;
  j_spent_id_codec : bytes; j_spent_count : Z; j_spent_id_bytes : nat; j_spent_ids : bytes;
  j_decoded_spent_ids : list Z
}.

Definition spent_id_codec_name (codec : SpentIdCodec) : bytes :=
  match codec with EliasDeltaAscendingAbsolute => ascii_bytes "eliasDeltaAscendingAbsolute" end.

Section json.
Context `{!Hex, !CapnpPacked light_block, !CapnpPacked stored_light_block}.

Definition light_block_input_to_json (input : LightBlockInput) : res JsonLightBlock :=
  decoded_spends ← decode_light_block_spent_ids input;
  Ok {|
    j_version := WIRE_VERSION;
    j_height := lb_height input;
    j_block_hash := hex_encode (lb_block_hash input);
    j_previous_block_hash := hex_encode (lb_previous_block_hash input);
    j_first_uid := lb_first_uid input;
    j_tx_count := lb_tx_count input;
    j_skipped_txs_for_tweaks_bitmap := hex_encode (lb_skipped_txs_for_tweaks input);
    j_tweaks := (λ entry, {| j_output_count := output_count entry; j_tweak := hex_encode (drop 1 (tweak entry)) |})
                  <$> lb_tweaks input;
    j_truncated_output_hash_bits := lb_truncated_output_hash_bits input;
    j_truncated_output_hash_bytes := length (lb_truncated_output_hashes input);
    j_truncated_output_hashes := hex_encode (lb_truncated_output_hashes input);
    j_spent_id_codec := spent_id_codec_name (lb_spent_id_codec input);
    j_spent_count := lb_spent_count input;
    j_spent_id_bytes := length (lb_spent_ids input);
    j_spent_ids := hex_encode (lb_spent_ids input);
    j_decoded_spent_ids := decoded_spends |}.

Definition light_block_to_json (bs : bytes) : res JsonLightBlock :=
  input ← decode_light_block bs; light_block_input_to_json input.

(** A block that decodes has a JSON view: its spent ids were decoded once already. *)
Lemma light_block_to_json_ok bs r : decode_light_block bs = Ok r → is_ok (light_block_to_json bs) = true.
Proof.
  intros Hd. unfold light_block_to_json. rewrite Hd. rsimpl. unfold light_block_input_to_json.
  unfold decode_light_block in Hd. repeat (apply bind_Ok in Hd as (? & ? & Hd)). injection Hd as <-.
  match goal with H : validate_light_block_input _ = Ok _ |- _ => unfold validate_light_block_input in H; rename H into Hv end.
  repeat (apply bind_Ok in Hv as (? & ? & Hv)).
  match goal with H : decode_light_block_spent_ids _ = Ok _ |- _ => by rewrite H end.
Qed.
End json.
