(* ===== verification/Server.v ===== *)
(** * The light-data HTTP server

    Model of [light-server/src/server.rs]: the handlers, from the parsed query and the
    [Accept] header to the response.  The archive is the interface [ArchiveBackend].
    The router is in [CommandLine]; query parsing and the socket are not modelled; a response is its
    status, its header map and its body.  The JSON serializer ([serde_json]) is the
    parameter [JsonOut].  Heights are [u64]: their unchecked sums wrap. *)

From S2P Require Import Prelude Decimal Helper RangeFrame LightBlock LightWire ArchiveBackend JsonWire.

Definition DEFAULT_MAX_RESPONSE_BYTES : Z := 4 * 1024 * 1024.

Record ServerConfig := { bind : bytes; cfg_max_range_count : Z; cfg_max_response_bytes : Z }.
Definition config_new (b : bytes) : ServerConfig :=
  {| bind := b; cfg_max_range_count := DEFAULT_MAX_RANGE_COUNT; cfg_max_response_bytes := DEFAULT_MAX_RESPONSE_BYTES |}.

(** ** Errors of a handler *)
Record ApiError := { status : Z; error : string }.
Definition bad_request (message : string) : ApiError := {| status := 400; error := message |}.
Definition internal (e : string) : ApiError := {| status := 500; error := e |}.

(** [ApiResult], with panics. *)
Inductive api (A : Type) := AOk (a : A) | AErr (e : ApiError) | APanic (msg : string).
Arguments AOk {A} a.
Arguments AErr {A} e.
Arguments APanic {A} msg.
#[export] Instance api_ret : MRet api := λ A a, AOk a.
#[export] Instance api_bind : MBind api := λ A B f m,
  match m with AOk a => f a | AErr e => AErr e | APanic p => APanic p end.
(** [?] on an [anyhow::Result]: [impl From<anyhow::Error> for ApiError]. *)
Definition lift {A} (r : res A) : api A :=
  match r with Ok a => AOk a | Err e => AErr (internal e) | Panic p => APanic p end.
Definition reject_if (b : bool) (message : string) : api unit := if b then AErr (bad_request message) else AOk tt.

(** ** Responses *)
Abbreviation HeaderMap := (list (bytes * bytes)).
Record Response := { rs_status : Z; rs_headers : HeaderMap; rs_body : bytes }.
(** [HeaderMap::insert]. *)
Definition insert_header (name value : bytes) (h : HeaderMap) : HeaderMap :=
  base.filter (λ nv : bytes * bytes, nv.1 ≠ name) h ++ [(name, value)].
Definition get_header (name : bytes) (h : HeaderMap) : option bytes :=
  snd <$> head (base.filter (λ nv : bytes * bytes, nv.1 = name) h).

Inductive ResponseFormat := Capnp | Json.

(** [str::split(c)]. *)
Fixpoint split_on (c : Z) (s : bytes) : list bytes :=
  match s with
  | [] => [[]]
  | x :: s => if bool_decide (x = c) then [] :: split_on c s
              else match split_on c s with w :: ws => (x :: w) :: ws | [] => [[x]] end
  end.
(** [trim] on the characters a header value may have. *)
Definition is_blank (c : Z) : bool := bool_decide (c = 32) || bool_decide (c = 9).
Fixpoint trim_start (s : bytes) : bytes :=
  match s with c :: t => if is_blank c then trim_start t else s | [] => [] end.
Definition trim (s : bytes) : bytes := reverse (trim_start (reverse (trim_start s))).

(** The loop over the media types: the first supported one decides. *)
Fixpoint first_format (media_types : list bytes) : option ResponseFormat :=
  match media_types with
  | [] => None
  | m :: rest =>
      if bool_decide (m = ascii_bytes "application/json") || bool_decide (m = ascii_bytes "text/json") then Some Json
      else if bool_decide (m = ascii_bytes "application/octet-stream") || bool_decide (m = ascii_bytes "*/*") then Some Capnp
      else first_format rest
  end.
Definition response_format (accept : option bytes) : res ResponseFormat :=
  match accept with
  | None => Ok Capnp
  | Some accept =>
      ok_or (first_format ((λ part, trim (default [] (head (split_on 59 part)))) <$> split_on 44 accept))
        "unsupported Accept header; use application/octet-stream or application/json"
  end.

Definition response_with_content_type (body cache_control content_type : bytes) : Response :=
  {| rs_status := 200;
     rs_headers := insert_header (ascii_bytes "vary") (ascii_bytes "Accept")
       (insert_header (ascii_bytes "cache-control") cache_control
       (insert_header (ascii_bytes "content-type") content_type []));
     rs_body := body |}.
Definition binary_response (body cache_control : bytes) : Response :=
  response_with_content_type body cache_control (ascii_bytes "application/octet-stream").
Definition json_response (body cache_control : bytes) : Response :=
  response_with_content_type body cache_control (ascii_bytes "application/json; charset=utf-8").

Definition with_header (name : string) (value : bytes) (r : Response) : Response :=
  {| rs_status := rs_status r; rs_headers := insert_header (ascii_bytes name) value (rs_headers r); rs_body := rs_body r |}.

Section headers.
Context `{!Hex}.
Definition add_block_headers (r : Response) (height : Z) (block_hash : bytes) : Response :=
  let r := with_header "x-bitcoindata-light-version" (to_decimal WIRE_VERSION) r in
  let r := with_header "x-bitcoin-block-height" (to_decimal height) r in
  if bool_decide (block_hash = []) then r else with_header "x-bitcoin-block-hash" (hex_encode block_hash) r.
End headers.

Record RangeHeaderInfo := {
  ri_start : Z; ri_end : Z; ri_requested_end : Z; ri_count : Z; ri_complete : bool; ri_next_start : option Z
}.
Definition add_range_headers (r : Response) (info : RangeHeaderInfo) : Response :=
  let r := with_header "x-bitcoindata-range-start" (to_decimal (ri_start info)) r in
  let r := with_header "x-bitcoindata-range-end" (to_decimal (ri_end info)) r in
  let r := with_header "x-bitcoindata-range-count" (to_decimal (ri_count info)) r in
  let r := with_header "x-bitcoindata-requested-range-end" (to_decimal (ri_requested_end info)) r in
  let r := with_header "x-bitcoindata-range-complete" (ascii_bytes (if ri_complete info then "true" else "false")) r in
  match ri_next_start info with
  | Some next_start => with_header "x-bitcoindata-next-start" (to_decimal next_start) r
  | None => r
  end.

(** ** Cut-through and caching *)
Definition ensure_height_served (h : Z) (tip : ChainTip) : res unit :=
  ensure (bool_decide (h ≤ height tip)) "height is above served tip".

Definition resolve_cutthrough_tip (start cut_tip : option Z) (tip : ChainTip) : api (option Z) :=
  match start with
  | None => AOk None
  | Some start =>
      _ ← reject_if (bool_decide (height tip < start)) "cutthrough_start is above served tip";
      let cut_tip := default (height tip) cut_tip in
      _ ← reject_if (bool_decide (cut_tip < start)) "cutthrough_tip is below cutthrough_start";
      _ ← reject_if (bool_decide (height tip < cut_tip)) "cutthrough_tip is above served tip";
      AOk (Some cut_tip)
  end.

Definition ensure_cutthrough_tip_covers_height (cut_tip : option Z) (required_height : Z) : api unit :=
  match cut_tip with
  | Some t => reject_if (bool_decide (t < required_height)) "cutthrough_tip is below required response height"
  | None => AOk tt
  end.

Definition IMMUTABLE : bytes := ascii_bytes "public, max-age=31536000, immutable".
Definition NO_CACHE : bytes := ascii_bytes "no-cache".
Definition cache_control (m : Manifest) (tip : ChainTip) (h : Z) : bytes :=
  if bool_decide (finality_depth m ≤ saturating_sub (height tip) h) then IMMUTABLE else NO_CACHE.
Definition filtered_cache_control (m : Manifest) (tip : ChainTip) (h : Z) (start requested_tip : option Z) : bytes :=
  if bool_decide (is_Some start) && bool_decide (requested_tip = None) then NO_CACHE else cache_control m tip h.

(** ** Queries *)
Record SyncRangeQuery := {
  q_start : Z; q_count : option Z; q_cutthrough : bool; q_cutthrough_start : option Z;
  q_cutthrough_tip : option Z; q_filter_reuse : bool; q_labels : option Z; q_max_bytes : option Z
}.
Record SingleBlockQuery := {
  b_cutthrough : bool; b_cutthrough_start : option Z; b_cutthrough_tip : option Z;
  b_filter_reuse : bool; b_labels : option Z
}.
(** [a.or_else(|| flag.then_some(b))]. *)
Definition or_flag (a : option Z) (flag : bool) (b : Z) : option Z :=
  match a with Some x => Some x | None => if flag then Some b else None end.

Definition range_frame_header_len : Z := 4 + 2 + 4.
Definition range_frame_item_len (payload_len : Z) : Z := wrap 64 (4 + payload_len).

(** The object of a JSON range response. *)
Record RangeJson := {
  rj_version : Z; rj_format : bytes; rj_start : Z; rj_end : Z; rj_requested_end : Z; rj_count : Z;
  rj_complete : bool; rj_next_start : option Z; rj_blocks : list JsonLightBlock
}.
Class JsonOut := {
  block_json : JsonLightBlock → bytes;
  range_json : RangeJson → bytes;
  manifest_json : Manifest → bytes;
  tip_json : ChainTip → bytes
}.

Section server.
Context `{!ArchiveBackend, !Hex, !JsonOut, !CapnpPacked light_block, !CapnpPacked stored_light_block}.

Record AppState := { archive : Archive; max_range_count : Z; max_response_bytes : Z }.

Definition served_tip (a : Archive) : res ChainTip :=
  t ← archive_tip a; ok_or t "archive has no served tip".

Definition manifest_handler (state : AppState) : api bytes :=
  m ← lift (manifest (archive state)); AOk (manifest_json m).
Definition tip_handler (state : AppState) : api bytes :=
  t ← lift (served_tip (archive state)); AOk (tip_json t).

Definition single_block (state : AppState) (h : Z) (q : SingleBlockQuery) (accept : option bytes) : api Response :=
  format ← lift (response_format accept);
  tip ← lift (served_tip (archive state));
  _ ← lift (ensure_height_served h tip);
  m ← lift (manifest (archive state));
  let start := or_flag (b_cutthrough_start q) (b_cutthrough q) h in
  cut_tip ← resolve_cutthrough_tip start (b_cutthrough_tip q) tip;
  _ ← ensure_cutthrough_tip_covers_height cut_tip h;
  let filter := {| cutthrough_start := start; cutthrough_tip := cut_tip; filter_reuse := b_filter_reuse q; labels := b_labels q |} in
  served ← lift (read_block_filtered (archive state) h filter);
  let cc := filtered_cache_control m tip h start (b_cutthrough_tip q) in
  response ← match format with
             | Capnp => AOk (binary_response (payload served) cc)
             | Json => j ← lift (light_block_to_json (payload served)); AOk (json_response (block_json j) cc)
             end;
  AOk (add_block_headers response h (served_block_hash served)).

(** The loop over the requested offsets, from the height [h]: the state is [messages]
    and [framed_bytes]. *)
Fixpoint collect_range (a : Archive) (filter : StoredBlockResponseFilter) (max_bytes : Z) (h : Z)
    (remaining : nat) (messages : list bytes) (framed_bytes : Z) : res (list bytes) :=
  match remaining with
  | O => Ok messages
  | S remaining =>
      served ← read_block_filtered a h filter;
      projected ← ok_or (checked_add 64 framed_bytes (range_frame_item_len (len (payload served)))) "range response size overflow";
      if negb (bool_decide (messages = [])) && bool_decide (max_bytes < projected) then Ok messages
      else
        let messages := messages ++ [payload served] in
        if bool_decide (max_bytes < projected) then Ok messages
        else collect_range a filter max_bytes (h + 1) remaining messages projected
  end.

Definition range_body (format : ResponseFormat) (info : RangeHeaderInfo) (messages : list bytes) (cc : bytes) : res Response :=
  match format with
  | Capnp => body ← frame_range messages; Ok (binary_response body cc)
  | Json =>
      blocks ← map_res light_block_to_json messages;
      Ok (json_response (range_json {| rj_version := WIRE_VERSION; rj_format := ascii_bytes "light-block-range";
        rj_start := ri_start info; rj_end := ri_end info; rj_requested_end := ri_requested_end info;
        rj_count := ri_count info; rj_complete := ri_complete info; rj_next_start := ri_next_start info;
        rj_blocks := blocks |}) cc)
  end.

Definition block_range (state : AppState) (q : SyncRangeQuery) (accept : option bytes) : api Response :=
  let requested_count := default (max_range_count state) (q_count q) in
  _ ← reject_if (bool_decide (requested_count = 0)) "count must be greater than zero";
  _ ← reject_if (bool_decide (max_range_count state < requested_count)) "count exceeds max_range_count";
  let max_bytes := default (max_response_bytes state) (q_max_bytes q) in
  _ ← reject_if (bool_decide (max_bytes = 0)) "max_bytes must be greater than zero";
  _ ← reject_if (bool_decide (max_response_bytes state < max_bytes)) "max_bytes exceeds server max_response_bytes";
  format ← lift (response_format accept);
  tip ← lift (served_tip (archive state));
  m ← lift (manifest (archive state));
  _ ← reject_if (bool_decide (height tip < q_start q)) "start height is above served tip";
  let available := wrap 64 (height tip - q_start q + 1) in
  let requested_count := Z.min requested_count (if bool_decide (available < 2 ^ 32) then available else umax 32) in
  let requested_end := wrap 64 (q_start q + requested_count - 1) in
  let start := or_flag (q_cutthrough_start q) (q_cutthrough q) (q_start q) in
  cut_tip ← resolve_cutthrough_tip start (q_cutthrough_tip q) tip;
  _ ← ensure_cutthrough_tip_covers_height cut_tip requested_end;
  let filter := {| cutthrough_start := start; cutthrough_tip := cut_tip; filter_reuse := q_filter_reuse q; labels := q_labels q |} in
  messages ← lift (collect_range (archive state) filter max_bytes (q_start q) (Z.to_nat requested_count) [] range_frame_header_len);
  if bool_decide (messages = []) then AErr (internal "range response builder made no progress")
  else
    count ← lift (try_from 32 (len messages));
    let end_ := wrap 64 (q_start q + count - 1) in
    let complete := bool_decide (requested_end ≤ end_) in
    let next_start := if complete then None else Some (wrap 64 (end_ + 1)) in
    let cc := filtered_cache_control m tip end_ start (q_cutthrough_tip q) in
    let info := {| ri_start := q_start q; ri_end := end_; ri_requested_end := requested_end; ri_count := count;
                   ri_complete := complete; ri_next_start := next_start |} in
    response ← lift (range_body format info messages cc);
    AOk (add_range_headers response info).

End server.
