(* ===== verification/ServerFacts.v ===== *)
(** * What the range endpoint promises

    The specification of [/blocks/light] against the interface [ArchiveBackend], and
    the lemmas the theorems of [ServerSync] and [ServerCache] share: what the loop
    over the heights collects, and the answer to every query. *)

From S2P Require Import Prelude Decimal Helper RangeFrame LightBlock LightWire ArchiveBackend JsonWire Server.

(** ** Headers *)

Lemma filter_filter_other (n : bytes) (h : HeaderMap) :
  base.filter (λ nv : bytes * bytes, nv.1 = n) (base.filter (λ nv : bytes * bytes, nv.1 ≠ n) h) = [].
Proof. induction h as [|[m w] h IH]; [done|]. rewrite filter_cons. case_decide; [|done]. rewrite filter_cons. by case_decide. Qed.
Lemma filter_filter_ne (n n' : bytes) (h : HeaderMap) : n ≠ n' →
  base.filter (λ nv : bytes * bytes, nv.1 = n) (base.filter (λ nv : bytes * bytes, nv.1 ≠ n') h) =
  base.filter (λ nv : bytes * bytes, nv.1 = n) h.
Proof.
  intros Hn. induction h as [|[m w] h IH]; [done|]. rewrite !filter_cons. simpl.
  repeat case_decide; rewrite ?filter_cons; simpl; repeat case_decide; congruence.
Qed.

Lemma get_insert_same n v h : get_header n (insert_header n v h) = Some v.
Proof.
  unfold get_header, insert_header. rewrite filter_app, filter_filter_other. simpl.
  rewrite filter_cons. simpl. by rewrite decide_True.
Qed.
Lemma get_insert_ne n n' v h : n ≠ n' → get_header n (insert_header n' v h) = get_header n h.
Proof.
  intros Hn. unfold get_header, insert_header. rewrite filter_app, filter_filter_ne by done.
  rewrite filter_cons. simpl. rewrite decide_False by done. by rewrite app_nil_r.
Qed.

Definition H_COMPLETE : bytes := ascii_bytes "x-bitcoindata-range-complete".
Definition H_NEXT : bytes := ascii_bytes "x-bitcoindata-next-start".
Definition H_CACHE : bytes := ascii_bytes "cache-control".

(** Reading a header of a response through the ones added after it. *)
Ltac header_tac :=
  unfold add_range_headers, with_header, binary_response, json_response, response_with_content_type;
  cbn [rs_headers];
  repeat first [rewrite get_insert_same | rewrite get_insert_ne by done]; try done.

Lemma complete_header r info :
  get_header H_COMPLETE (rs_headers (add_range_headers r info)) = Some (ascii_bytes (if ri_complete info then "true" else "false")).
Proof. unfold H_COMPLETE. unfold add_range_headers. destruct (ri_next_start info); header_tac. Qed.
Lemma next_header r info n : ri_next_start info = Some n →
  get_header H_NEXT (rs_headers (add_range_headers r info)) = Some (to_decimal n).
Proof. intros E. unfold add_range_headers. rewrite E. unfold H_NEXT. header_tac. Qed.
Lemma add_headers_body r info : rs_body (add_range_headers r info) = rs_body r.
Proof. unfold add_range_headers. by destruct (ri_next_start info). Qed.
Lemma cache_header body cc info :
  get_header H_CACHE (rs_headers (add_range_headers (binary_response body cc) info)) = Some cc.
Proof. unfold H_CACHE, add_range_headers. destruct (ri_next_start info); header_tac. Qed.

(** ** The loop over the heights *)

Definition frame_len (ms : list bytes) : Z := 10 + foldr (λ m acc, 4 + len m + acc) 0 ms.

Lemma frame_len_snoc ms m : frame_len (ms ++ [m]) = frame_len ms + (4 + len m).
Proof. unfold frame_len. induction ms as [|x ms IH]; simpl in *; lia. Qed.
Lemma length_range_bytes ms : len (range_bytes ms) = frame_len ms.
Proof.
  unfold range_bytes, frame_len, RANGE_MAGIC. rewrite !length_app, !length_le_bytes. simpl length.
  rewrite !Nat2Z.inj_add. cut (len (ms ≫= item_bytes) = foldr (λ m acc, 4 + len m + acc) 0 ms); [lia|].
  induction ms as [|m ms IH]; [done|]. cbn [mbind list_bind foldr].
  rewrite length_app, Nat2Z.inj_add. fold (ms ≫= item_bytes). rewrite IH.
  unfold item_bytes. rewrite length_app, length_le_bytes. lia.
Qed.

Section range.
Context `{AB : !ArchiveBackend, HX : !Hex, JO : !JsonOut, CL : !CapnpPacked light_block, CS : !CapnpPacked stored_light_block}.

(** The archive answers a filter at height [h] with the payload [b]. *)
Definition answers (a : Archive) (f : StoredBlockResponseFilter) (h : Z) (b : bytes) : Prop :=
  ∃ served, read_block_filtered a h f = Ok served ∧ payload served = b ∧ len b < 2 ^ 32 - 4.
(** The payloads [ms] are the answers at the consecutive heights from [h]. *)
Definition consecutive (a : Archive) (f : StoredBlockResponseFilter) (h : Z) (ms : list bytes) : Prop :=
  ∀ i b, ms !! i = Some b → answers a f (h + Z.of_nat i) b.

Lemma consecutive_nil a f h : consecutive a f h [].
Proof. by intros i b Hb. Qed.
Lemma consecutive_app a f h ms ms' :
  consecutive a f h ms → consecutive a f (h + len ms) ms' → consecutive a f h (ms ++ ms').
Proof.
  intros H1 H2 i b [Hb|[Hl Hb]]%lookup_app_Some; [by apply H1|].
  apply H2 in Hb. by replace (h + len ms + Z.of_nat (i - length ms)) with (h + Z.of_nat i) in Hb by lia.
Qed.
Lemma consecutive_snoc a f h ms b :
  consecutive a f h ms → answers a f (h + len ms) b → consecutive a f h (ms ++ [b]).
Proof.
  intros H1 H2. apply consecutive_app; [done|]. intros [|i] b' Hb; simpl in Hb; [|done].
  injection Hb as <-. by rewrite Z.add_0_r.
Qed.
Lemma consecutive_frameable a f h ms : consecutive a f h ms → len ms < 2 ^ 32 → frameable ms.
Proof.
  intros Hc Hl. split; [done|]. apply Forall_lookup. intros i b Hb. destruct (Hc i b Hb) as (? & _ & _ & ?). lia.
Qed.

(** Why a range response ends where it does. *)
Definition stops (a : Archive) (f : StoredBlockResponseFilter) (max_bytes h : Z) (n : nat) (ms : list bytes) : Prop :=
  length ms = n ∨ max_bytes < frame_len ms ∨ ∃ b, answers a f (h + len ms) b ∧ max_bytes < frame_len (ms ++ [b]).

Lemma collect_ok a f max_bytes h0 n remaining ms :
  max_bytes < 2 ^ 63 → (∀ h, h0 + len ms ≤ h < h0 + len ms + Z.of_nat remaining → ∃ b, answers a f h b) →
  consecutive a f h0 ms → (ms = [] ∨ frame_len ms ≤ max_bytes) → (length ms + remaining)%nat = n →
  (0 < n)%nat →
  ∃ ms', collect_range a f max_bytes (h0 + len ms) remaining ms (frame_len ms) = Ok ms' ∧
    consecutive a f h0 ms' ∧ ms' ≠ [] ∧ (length ms' ≤ n)%nat ∧
    (frame_len ms' ≤ max_bytes ∨ length ms' = 1%nat) ∧ stops a f max_bytes h0 n ms'.
Proof.
  intros Hmax. revert ms. induction remaining as [|r IH]; intros ms Hans Hc Hf Hn Hpos.
  { exists ms. assert (ms ≠ []) by (intros ->; simpl in Hn; lia). split_and!; try done; [lia|by destruct Hf; [|left]|left; lia]. }
  destruct (Hans (h0 + len ms)) as (b & Hb); [lia|]. pose proof Hb as (served & Hr & Hp & Hlen).
  cbn [collect_range]. rewrite Hr. rsimpl. rewrite Hp. unfold range_frame_item_len.
  rewrite wrap_small by (unfold in_width; lia).
  rewrite (checked_add_ok 64) by (destruct Hf as [->|?]; [unfold frame_len; simpl; lia|lia]). rsimpl.
  pose proof (frame_len_snoc ms b) as Hs.
  destruct (negb (bool_decide (ms = [])) && bool_decide (max_bytes < frame_len ms + (4 + len b))) eqn:E.
  { apply andb_true_iff in E as [E1%negb_true_iff%bool_decide_eq_false_1 E2%bool_decide_eq_true_1].
    exists ms. split_and!; try done; [lia|by destruct Hf; [|left]|]. right. right. exists b. split; [done|lia]. }
  assert (Hc' : consecutive a f h0 (ms ++ [b])) by by apply consecutive_snoc.
  assert (Hne : ms ++ [b] ≠ []) by by destruct ms.
  destruct (decide (max_bytes < frame_len ms + (4 + len b))) as [Ho|Ho];
    [rewrite (bool_decide_true (max_bytes < _)) by done|rewrite (bool_decide_false (max_bytes < _)) by done].
  - exists (ms ++ [b]). rewrite length_app. simpl. split_and!; try done; [lia| |right; left; lia].
    right. rewrite (bool_decide_true (max_bytes < _)), andb_true_r in E by done.
    apply negb_false_iff, bool_decide_eq_true_1 in E as ->. done.
  - rewrite <-Hs. replace (h0 + len ms + 1) with (h0 + len (ms ++ [b])) by (rewrite length_app; simpl; lia).
    apply IH; try done; [|right; lia|rewrite length_app; simpl; lia].
    intros h Hh. rewrite length_app in Hh. simpl in Hh. apply Hans. lia.
Qed.

(** ** The answer to a query *)

(** An archive with a tip and a manifest, behind a server with sane limits. *)
Record serving (state : AppState) (tip : ChainTip) (m : Manifest) : Prop := {
  sv_tip : archive_tip (archive state) = Ok (Some tip);
  sv_manifest : manifest (archive state) = Ok m;
  sv_height : 0 ≤ height tip < 2 ^ 32 - 1;
  sv_max : 0 ≤ max_response_bytes state < 2 ^ 63;
  sv_max_count : 0 ≤ max_range_count state < 2 ^ 32
}.
(** It answers a filter at every height from [h] up to its tip. *)
Definition answering (state : AppState) (tip : ChainTip) (f : StoredBlockResponseFilter) (h : Z) : Prop :=
  ∀ i, h ≤ i ≤ height tip → ∃ b, answers (archive state) f i b.

Definition wanted (state : AppState) (q : SyncRangeQuery) : Z := default (max_range_count state) (q_count q).
Definition byte_cap (state : AppState) (q : SyncRangeQuery) : Z := default (max_response_bytes state) (q_max_bytes q).
(** The last height a query asks for. *)
Definition last_wanted (state : AppState) (tip : ChainTip) (q : SyncRangeQuery) : Z :=
  Z.min (q_start q + wanted state q - 1) (height tip).
Definition cut_start (q : SyncRangeQuery) : option Z := or_flag (q_cutthrough_start q) (q_cutthrough q) (q_start q).
Definition query_filter (tip : ChainTip) (q : SyncRangeQuery) : StoredBlockResponseFilter := {|
  cutthrough_start := cut_start q;
  cutthrough_tip := (λ _, default (height tip) (q_cutthrough_tip q)) <$> cut_start q;
  filter_reuse := q_filter_reuse q; labels := q_labels q |}.

(** The queries the documentation allows. *)
Record acceptable (state : AppState) (tip : ChainTip) (q : SyncRangeQuery) : Prop := {
  ac_count : 0 < wanted state q ≤ max_range_count state;
  ac_bytes : 0 < byte_cap state q ≤ max_response_bytes state;
  ac_start : q_start q ≤ height tip;
  ac_cut : ∀ s, cut_start q = Some s →
    s ≤ height tip ∧ s ≤ default (height tip) (q_cutthrough_tip q) ≤ height tip ∧
    last_wanted state tip q ≤ default (height tip) (q_cutthrough_tip q)
}.
(** The types of the parsed parameters. *)
Definition query_typed (q : SyncRangeQuery) : Prop :=
  0 ≤ q_start q ∧ (∀ n, q_count q = Some n → 0 ≤ n) ∧ (∀ n, q_max_bytes q = Some n → 0 ≤ n).

Definition range_info (state : AppState) (tip : ChainTip) (q : SyncRangeQuery) (ms : list bytes) : RangeHeaderInfo :=
  let e := q_start q + len ms - 1 in
  {| ri_start := q_start q; ri_end := e; ri_requested_end := last_wanted state tip q; ri_count := len ms;
     ri_complete := bool_decide (last_wanted state tip q ≤ e);
     ri_next_start := if bool_decide (last_wanted state tip q ≤ e) then None else Some (e + 1) |}.

Lemma resolve_ok tip q s : cut_start q = s →
  (∀ x, s = Some x → x ≤ height tip ∧ x ≤ default (height tip) (q_cutthrough_tip q) ≤ height tip) →
  resolve_cutthrough_tip s (q_cutthrough_tip q) tip = AOk ((λ _, default (height tip) (q_cutthrough_tip q)) <$> s).
Proof.
  intros _ Hs. unfold resolve_cutthrough_tip. destruct s as [x|]; [|done]. destruct (Hs x eq_refl) as (H1 & H2 & H3).
  unfold reject_if. rewrite !bool_decide_false by lia. done.
Qed.

(** What an accepted query collects. *)
Definition collected (state : AppState) (tip : ChainTip) (q : SyncRangeQuery) (ms : list bytes) : Prop :=
  consecutive (archive state) (query_filter tip q) (q_start q) ms ∧ ms ≠ [] ∧
  q_start q + len ms - 1 ≤ last_wanted state tip q ∧
  (frame_len ms ≤ byte_cap state q ∨ length ms = 1%nat) ∧
  stops (archive state) (query_filter tip q) (byte_cap state q) (q_start q)
    (Z.to_nat (last_wanted state tip q - q_start q + 1)) ms.

(** The handler after the loop over the heights. *)
Definition range_answer (state : AppState) (tip : ChainTip) (m : Manifest) (q : SyncRangeQuery) (format : ResponseFormat)
    (messages : list bytes) : api Response :=
  if bool_decide (messages = []) then AErr (internal "range response builder made no progress")
  else
    count ← lift (try_from 32 (len messages));
    let end_ := wrap 64 (q_start q + count - 1) in
    let complete := bool_decide (last_wanted state tip q ≤ end_) in
    let info := {| ri_start := q_start q; ri_end := end_; ri_requested_end := last_wanted state tip q; ri_count := count;
                   ri_complete := complete; ri_next_start := if complete then None else Some (wrap 64 (end_ + 1)) |} in
    response ← lift (range_body format info messages (filtered_cache_control m tip end_ (cut_start q) (q_cutthrough_tip q)));
    AOk (add_range_headers response info).

(** An acceptable query reaches the loop. *)
Lemma block_range_reaches state tip m q accept format :
  serving state tip m → query_typed q → acceptable state tip q → response_format accept = Ok format →
  block_range state q accept =
    (lift (collect_range (archive state) (query_filter tip q) (byte_cap state q) (q_start q)
       (Z.to_nat (last_wanted state tip q - q_start q + 1)) [] (frame_len [])) ≫= range_answer state tip m q format).
Proof.
  intros [Htip Hm Hh Hmax Hmc] (Hq & Hqc & Hqm) [Hc Hby Hst Hcut] Hfmt.
  unfold block_range. fold (wanted state q) (byte_cap state q) (cut_start q).
  unfold reject_if. rewrite (bool_decide_false (wanted state q = 0)), (bool_decide_false (_ < wanted state q)) by lia.
  rewrite (bool_decide_false (byte_cap state q = 0)), (bool_decide_false (_ < byte_cap state q)) by lia.
  cbn [mbind api_bind]. rewrite Hfmt. cbn [lift mbind api_bind]. unfold served_tip. rewrite Htip. rsimpl.
  cbn [lift mbind api_bind]. rewrite Hm. cbn [lift mbind api_bind].
  rewrite (bool_decide_false (height tip < q_start q)) by lia. cbn [mbind api_bind].
  rewrite (wrap_small 64 (height tip - q_start q + 1)) by (unfold in_width; lia).
  rewrite (bool_decide_true (height tip - q_start q + 1 < 2 ^ 32)) by lia.
  set (n := Z.min (wanted state q) (height tip - q_start q + 1)).
  assert (En : q_start q + n - 1 = last_wanted state tip q) by (unfold n, last_wanted; lia).
  rewrite En, (wrap_small 64 (last_wanted state tip q)) by (unfold in_width, last_wanted; lia).
  rewrite (resolve_ok tip q (cut_start q)) by (done || intros s Hs; split; apply Hcut in Hs; tauto).
  cbn [mbind api_bind].
  assert (ensure_cutthrough_tip_covers_height ((λ _ : Z, default (height tip) (q_cutthrough_tip q)) <$> cut_start q)
    (last_wanted state tip q) = AOk tt) as ->.
  { unfold ensure_cutthrough_tip_covers_height, reject_if. destruct (cut_start q) as [s|] eqn:Es; [|done].
    destruct (Hcut s eq_refl) as (_ & _ & Hc3). simpl. by rewrite bool_decide_false by lia. }
  cbn [mbind api_bind]. fold (query_filter tip q).
  assert (Z.to_nat n = Z.to_nat (last_wanted state tip q - q_start q + 1)) as -> by (rewrite <-En; lia).
  reflexivity.
Qed.

Lemma block_range_ok state tip m q accept format :
  serving state tip m → answering state tip (query_filter tip q) (q_start q) →
  query_typed q → acceptable state tip q → response_format accept = Ok format →
  ∃ ms, collected state tip q ms ∧
    block_range state q accept =
    (response ← lift (range_body format (range_info state tip q ms) ms
                        (filtered_cache_control m tip (q_start q + len ms - 1) (cut_start q) (q_cutthrough_tip q)));
     AOk (add_range_headers response (range_info state tip q ms))).
Proof.
  intros Hs Hb Ht Ha Hfmt. rewrite (block_range_reaches state tip m q accept format Hs Ht Ha Hfmt).
  destruct Hs as [_ _ Hh Hmax Hmc], Ht as (Hq & Hqc & Hqm), Ha as [Hc Hby Hst _].
  destruct (collect_ok (archive state) (query_filter tip q) (byte_cap state q) (q_start q)
    (Z.to_nat (last_wanted state tip q - q_start q + 1)) (Z.to_nat (last_wanted state tip q - q_start q + 1)) [])
    as (ms & Hcol & Hcons & Hne & Hlen & Hfit & Hstop).
  { lia. } { simpl. intros h Hr. apply Hb. unfold last_wanted in Hr. lia. }
  { apply consecutive_nil. } { by left. } { done. } { unfold last_wanted. lia. }
  simpl len in Hcol. rewrite Z.add_0_r in Hcol.
  assert (Hl : 0 < len ms ≤ last_wanted state tip q - q_start q + 1).
  { destruct ms; [done|]. unfold last_wanted in *. simpl in *. lia. }
  exists ms. split; [split_and!; try done; lia|]. rewrite Hcol. cbn [lift mbind api_bind]. unfold range_answer.
  rewrite (bool_decide_false (ms = [])) by done.
  rewrite (try_from_ok 32) by (unfold last_wanted in Hl; lia). cbn [lift mbind api_bind].
  rewrite (wrap_small 64 (q_start q + len ms - 1)) by (unfold in_width; unfold last_wanted in Hl; lia).
  unfold range_info. rewrite (wrap_small 64 (q_start q + len ms - 1 + 1)) by (unfold in_width; unfold last_wanted in Hl; lia).
  done.
Qed.

(** A query that starts at a height the archive cannot answer, as one below its first
    block, is the server's error: status 500, whatever the archive holds above. *)
Lemma range_missing_start state tip m q accept format e :
  serving state tip m → query_typed q → acceptable state tip q → response_format accept = Ok format →
  read_block_filtered (archive state) (q_start q) (query_filter tip q) = Err e →
  block_range state q accept = AErr (internal e).
Proof.
  intros Hs Ht Ha Hf He. rewrite (block_range_reaches state tip m q accept format Hs Ht Ha Hf).
  assert (0 < wanted state q) as Hw by apply Ha.
  assert (∃ n, Z.to_nat (last_wanted state tip q - q_start q + 1) = S n) as [n ->].
  { destruct Ha as [_ _ Hst _]. unfold last_wanted. exists (Z.to_nat (Z.min (wanted state q - 1) (height tip - q_start q))). lia. }
  cbn [collect_range]. by rewrite He.
Qed.

Definition capnp_page (state : AppState) (tip : ChainTip) (m : Manifest) (q : SyncRangeQuery) (ms : list bytes) : Response :=
  add_range_headers (binary_response (range_bytes ms)
    (filtered_cache_control m tip (q_start q + len ms - 1) (cut_start q) (q_cutthrough_tip q))) (range_info state tip q ms).

(** The binary answer: one frame with the collected payloads. *)
Lemma block_range_capnp state tip m q accept :
  serving state tip m → answering state tip (query_filter tip q) (q_start q) →
  query_typed q → acceptable state tip q → response_format accept = Ok Capnp →
  ∃ ms, collected state tip q ms ∧ frameable ms ∧ block_range state q accept = AOk (capnp_page state tip m q ms).
Proof.
  intros Hs Hb Ht Ha Hf. destruct (block_range_ok state tip m q accept Capnp Hs Hb Ht Ha Hf) as (ms & Hc & E).
  assert (frameable ms) as Hfr.
  { destruct Hc as (Hc & _ & Hl & _), Ht, Hs. eapply consecutive_frameable; [exact Hc|]. unfold last_wanted in Hl. lia. }
  exists ms. split_and!; [done..|]. rewrite E. unfold range_body. by rewrite frame_range_spec.
Qed.

End range.
