(* ===== verification/ServerSync.v ===== *)
(** * Paging through the chain

    The contract of [/blocks/light] for clients, from the lemmas of [ServerFacts]:
    which queries are answered, what a page holds, and that the paging loop of the
    README ([x-bitcoindata-next-start] until [x-bitcoindata-range-complete]) ends
    with every block asked for. *)

From S2P Require Import Prelude Decimal Helper RangeFrame LightBlock LightWire ArchiveBackend JsonWire Server ServerFacts.

(** One page of a client: the payloads of the frame, and where to go on. *)
Record page := { pg_blocks : list bytes; pg_complete : bool; pg_next : option Z }.
Definition read_page (r : Response) : option page :=
  match parse_range (rs_body r) with
  | Ok ms => Some {| pg_blocks := ms;
      pg_complete := bool_decide (get_header H_COMPLETE (rs_headers r) = Some (ascii_bytes "true"));
      pg_next := get_header H_NEXT (rs_headers r) ≫= parse_u64 |}
  | _ => None
  end.
Definition at_start (n : Z) (q : SyncRangeQuery) : SyncRangeQuery := {|
  q_start := n; q_count := q_count q; q_cutthrough := q_cutthrough q; q_cutthrough_start := q_cutthrough_start q;
  q_cutthrough_tip := q_cutthrough_tip q; q_filter_reuse := q_filter_reuse q; q_labels := q_labels q;
  q_max_bytes := q_max_bytes q |}.

Section sync.
Context `{AB : !ArchiveBackend, HX : !Hex, JO : !JsonOut, CL : !CapnpPacked light_block, CS : !CapnpPacked stored_light_block}.

(** The loop of the README: the same query again from the next start. *)
Fixpoint sync (fuel : nat) (state : AppState) (q : SyncRangeQuery) : option (list bytes) :=
  match fuel with
  | O => None
  | S fuel =>
      match block_range state q None with
      | AOk r =>
          p ← read_page r;
          if pg_complete p then Some (pg_blocks p)
          else n ← pg_next p; rest ← sync fuel state (at_start n q); Some (pg_blocks p ++ rest)
      | _ => None
      end
  end.

(** ** Which queries are answered *)

Definition verdict (state : AppState) (tip : ChainTip) (q : SyncRangeQuery) (r : api Response) : Prop :=
  match r with
  | AOk _ => acceptable state tip q
  | AErr e => ¬ acceptable state tip q ∧ status e = 400
  | APanic _ => False
  end.

(** The handler, from some check on: the query is acceptable, or it is rejected. *)
Definition decided (state : AppState) (tip : ChainTip) (q : SyncRangeQuery) {A} (r : api A) : Prop :=
  acceptable state tip q ∨ ¬ acceptable state tip q ∧ ∃ msg, r = AErr (bad_request msg).

Lemma reject_step state tip q (P : Prop) `{!Decision P} {A} msg (k : unit → api A) :
  (P → ¬ acceptable state tip q) → (¬ P → decided state tip q (k tt)) →
  decided state tip q (reject_if (bool_decide P) msg ≫= k).
Proof. intros H1 H2. unfold reject_if. case_bool_decide; [right; split; [by apply H1|by exists msg]|by apply H2]. Qed.
Lemma api_assoc {A B C} (r : api A) (f : A → api B) (g : B → api C) : (r ≫= f) ≫= g = r ≫= (λ a, f a ≫= g).
Proof. by destruct r. Qed.

Lemma range_decided state tip m q accept :
  serving state tip m → query_typed q → response_format accept = Ok Capnp →
  decided state tip q (block_range state q accept).
Proof.
  intros [Htip Hm Hh Hmax Hmc] (Hq & Hqc & Hqm) Hf. unfold block_range.
  fold (wanted state q) (byte_cap state q) (cut_start q).
  apply reject_step; [intros E [Hc _ _ _]; lia|intros N1].
  apply reject_step; [intros E [Hc _ _ _]; lia|intros N2].
  apply reject_step; [intros E [_ Hc _ _]; lia|intros N3].
  apply reject_step; [intros E [_ Hc _ _]; lia|intros N4].
  rewrite Hf. cbn [lift mbind api_bind]. unfold served_tip. rewrite Htip. rsimpl.
  cbn [lift mbind api_bind]. rewrite Hm. cbn [lift mbind api_bind].
  apply reject_step; [intros E [_ _ Hc _]; lia|intros N5].
  rewrite (wrap_small 64 (height tip - q_start q + 1)) by (unfold in_width; lia).
  rewrite (bool_decide_true (height tip - q_start q + 1 < 2 ^ 32)) by lia.
  assert (0 < wanted state q) as Hw.
  { unfold wanted in *. destruct (q_count q) as [n|]; simpl in *; [pose proof (Hqc n eq_refl)|]; lia. }
  assert (0 < byte_cap state q) as Hby.
  { unfold byte_cap in *. destruct (q_max_bytes q) as [n|]; simpl in *; [pose proof (Hqm n eq_refl)|]; lia. }
  assert (q_start q + Z.min (wanted state q) (height tip - q_start q + 1) - 1 = last_wanted state tip q) as ->
    by (unfold last_wanted; lia).
  rewrite (wrap_small 64 (last_wanted state tip q)) by (unfold in_width, last_wanted; lia).
  destruct (cut_start q) as [s|] eqn:Es; [|left; split; [lia..|by rewrite Es]].
  unfold resolve_cutthrough_tip. rewrite api_assoc.
  apply reject_step; [intros E [_ _ _ Hc]; specialize (Hc s Es); lia|intros N6]. rewrite api_assoc.
  apply reject_step; [intros E [_ _ _ Hc]; specialize (Hc s Es); lia|intros N7]. rewrite api_assoc.
  apply reject_step; [intros E [_ _ _ Hc]; specialize (Hc s Es); lia|intros N8]. cbn [mbind api_bind].
  unfold ensure_cutthrough_tip_covers_height.
  apply (reject_step state tip q); [intros E [_ _ _ Hc]; specialize (Hc s Es); lia|intros N9].
  left. split; [lia..|]. intros s' [= <-]%(eq_trans (eq_sym Es)). lia.
Qed.


(** ** What a page holds *)

(** The page a client reads from the answer [ms]. *)
Definition page_of (state : AppState) (tip : ChainTip) (q : SyncRangeQuery) (ms : list bytes) : page :=
  let complete := bool_decide (last_wanted state tip q ≤ q_start q + len ms - 1) in
  {| pg_blocks := ms; pg_complete := complete; pg_next := if complete then None else Some (q_start q + len ms) |}.

Lemma read_capnp_page state tip m q ms :
  frameable ms → in_width 64 (q_start q + len ms) →
  read_page (capnp_page state tip m q ms) = Some (page_of state tip q ms).
Proof.
  intros Hf Hw. unfold read_page, capnp_page. rewrite add_headers_body. cbn [rs_body binary_response response_with_content_type].
  rewrite parse_range_bytes by done. rewrite complete_header. unfold page_of, range_info. cbn [ri_complete].
  do 2 f_equal; destruct (bool_decide (last_wanted state tip q ≤ q_start q + len ms - 1)) eqn:E; [done|done| |].
  - unfold H_NEXT, add_range_headers, binary_response, response_with_content_type, with_header.
    cbn [ri_next_start rs_headers]. rewrite !get_insert_ne by done. done.
  - erewrite next_header by (cbn [ri_next_start]; reflexivity). cbn [mbind option_bind].
    replace (q_start q + len ms - 1 + 1) with (q_start q + len ms) by lia.
    exact (parse_decimal_padded 0 (q_start q + len ms) Hw).
Qed.

Lemma page_ok state tip m q accept :
  serving state tip m → answering state tip (query_filter tip q) (q_start q) → query_typed q →
  acceptable state tip q → response_format accept = Ok Capnp →
  ∃ r ms, block_range state q accept = AOk r ∧ rs_status r = 200 ∧ read_page r = Some (page_of state tip q ms) ∧
    len (rs_body r) = frame_len ms ∧ collected state tip q ms.
Proof.
  intros Hs Hb Ht Ha Hf. destruct (block_range_capnp state tip m q accept Hs Hb Ht Ha Hf) as (ms & Hc & Hfr & E).
  exists (capnp_page state tip m q ms), ms. split_and!; [done| | | |done].
  - unfold capnp_page, add_range_headers. by destruct (ri_next_start _).
  - apply read_capnp_page; [done|]. destruct Hc as (_ & _ & Hl & _), Ht, Hs. unfold last_wanted in Hl. unfold in_width. lia.
  - unfold capnp_page. rewrite add_headers_body. apply length_range_bytes.
Qed.


(** ** The paging loop *)

Lemma next_page_acceptable state tip q n :
  acceptable state tip q → q_cutthrough q = false → q_cutthrough_tip q = None → n ≤ height tip →
  acceptable state tip (at_start n q).
Proof.
  intros [Hc Hb Hs Hcut] Ecut Et Hn. split; [done..|].
  intros s Es. assert (cut_start q = Some s) as Es' by (unfold cut_start in *; cbn in Es; rewrite Ecut in *; done).
  specialize (Hcut s Es'). cbn [at_start q_cutthrough_tip]. rewrite Et in *. simpl default in *. unfold last_wanted. lia.
Qed.
Lemma next_page_filter tip q n : q_cutthrough q = false → query_filter tip (at_start n q) = query_filter tip q.
Proof. intros Ecut. unfold query_filter, cut_start. cbn. by rewrite Ecut. Qed.

(** The loop, from an acceptable query. *)
Lemma sync_ends state tip m q fuel :
  serving state tip m → answering state tip (query_filter tip q) (q_start q) → query_typed q →
  acceptable state tip q → q_cutthrough q = false → q_cutthrough_tip q = None → (Z.to_nat (height tip - q_start q) < fuel)%nat →
  ∃ ms, sync fuel state q = Some ms ∧ consecutive (archive state) (query_filter tip q) (q_start q) ms ∧
    last_wanted state tip q ≤ q_start q + len ms - 1 ≤ height tip.
Proof.
  intros Hs. revert q. induction fuel as [|fuel IH]; intros q Hb Ht Ha Ecut Et Hfuel; [lia|].
  destruct (page_ok state tip m q None Hs Hb Ht Ha eq_refl) as (r & ms & E & _ & Hp & _ & Hc & Hne & Hle & _).
  cbn [sync]. rewrite E, Hp. cbn [mbind option_bind page_of pg_complete pg_blocks pg_next].
  assert (0 < len ms) by (destruct ms; [done|simpl; lia]).
  destruct (decide (last_wanted state tip q ≤ q_start q + len ms - 1)) as [Hd|Hd].
  { rewrite bool_decide_true by done. exists ms. split_and!; [done..|]. unfold last_wanted in *. lia. }
  rewrite bool_decide_false by done. cbn [mbind option_bind].
  set (q' := at_start (q_start q + len ms) q). assert (last_wanted state tip q ≤ height tip) by (unfold last_wanted; lia).
  destruct (IH q') as (rest & Er & Hr & Hrl).
  { unfold q'. rewrite next_page_filter by done. intros i Hi. apply Hb. cbn [at_start q_start] in Hi. lia. }
  { destruct Ht as (Hq & Hqc & Hqm). split_and!; [unfold q'; cbn; lia|done|done]. }
  { apply next_page_acceptable; [done..|lia]. } { exact Ecut. } { exact Et. } { unfold q'. cbn [at_start q_start]. lia. }
  exists (ms ++ rest). rewrite Er. cbn [mbind option_bind]. split; [done|].
  unfold q' in *. rewrite next_page_filter in Hr by done. cbn [at_start q_start] in *.
  rewrite length_app. split; [by apply consecutive_app|]. destruct Ha. unfold last_wanted, wanted in *. cbn [at_start q_start q_count] in *. lia.
Qed.


(** A single block above the tip is refused with status 500, although the same mistake
    in a range query gets a 400. *)
Lemma single_block_above_tip state tip m h q accept :
  serving state tip m → height tip < h → response_format accept = Ok Capnp →
  ∃ msg, single_block state h q accept = AErr (internal msg).
Proof.
  intros [Htip Hm _ _ _] Hh Hf. unfold single_block. rewrite Hf. cbn [lift mbind api_bind]. unfold served_tip.
  rewrite Htip. rsimpl. cbn [lift mbind api_bind]. unfold ensure_height_served.
  rewrite bool_decide_false by lia. by eexists.
Qed.

(** A complete page need not end at the tip: the completeness of a page is relative to
    the count.  When the blocks asked for fit the byte cap, the first page of a client
    that starts more than [count] blocks below the tip says it is complete. *)
Lemma complete_below_tip state tip m q :
  serving state tip m → answering state tip (query_filter tip q) (q_start q) → query_typed q →
  acceptable state tip q → last_wanted state tip q < height tip →
  (∀ ms, collected state tip q ms → last_wanted state tip q ≤ q_start q + len ms - 1) →
  ∃ r p, block_range state q None = AOk r ∧ read_page r = Some p ∧ pg_complete p = true ∧ pg_next p = None ∧
    q_start q + len (pg_blocks p) - 1 < height tip.
Proof.
  intros Hs Hb Ht Ha Hlt Hfit. destruct (page_ok state tip m q None Hs Hb Ht Ha eq_refl) as (r & ms & E & _ & Hp & _ & Hc).
  exists r, (page_of state tip q ms). specialize (Hfit ms Hc). split; [done|]. split; [exact Hp|].
  unfold page_of. cbn [pg_complete pg_next pg_blocks]. rewrite bool_decide_true by done. split_and!; [done..|]. destruct Hc as (_ & _ & Hle & _). lia.
Qed.

End sync.

(** ** A concrete archive: the list of its payloads *)

#[local] Instance toy_backend : ArchiveBackend := {|
  Archive := list bytes;
  manifest := λ l, Ok {| version := 1; network := []; genesis_hash := None; finality_depth := 6;
    suggested_reorg_cache_depth := 6; ArchiveBackend.max_range_count := 10; mf_tip := None |};
  archive_tip := λ l, Ok (Some {| height := len l - 1; block_hash := [] |});
  read_block := λ l h, b ← ok_or (l !! Z.to_nat h) "missing"; Ok {| payload := b; served_block_hash := [] |};
  read_block_filtered := λ l h _, b ← ok_or (l !! Z.to_nat h) "missing"; Ok {| payload := b; served_block_hash := [] |}
|}.
#[local] Instance toy_hex : Hex := {| hex_encode := λ bs, bs |}.
#[local] Instance toy_out : JsonOut := {|
  block_json := λ _, []; range_json := λ _, []; manifest_json := λ _, []; tip_json := λ _, [] |}.

#[local] Instance toy_light : CapnpPacked light_block := toy_capnp light_block.
#[local] Instance toy_stored : CapnpPacked stored_light_block := toy_capnp stored_light_block.

Definition demo_state : AppState :=
  {| archive := [[1]; [2; 2]; [3; 3; 3]; [4]; [5; 5]] : list bytes; max_range_count := 10; max_response_bytes := 25 |}.
Definition demo_tip : ChainTip := {| height := 4; block_hash := [] |}.
Definition demo_manifest : Manifest := {| version := 1; network := []; genesis_hash := None; finality_depth := 6;
    suggested_reorg_cache_depth := 6; ArchiveBackend.max_range_count := 10; mf_tip := None |}.
Definition demo_query (count : Z) : SyncRangeQuery := {|
  q_start := 1; q_count := Some count; q_cutthrough := false; q_cutthrough_start := Some 1; q_cutthrough_tip := None;
  q_filter_reuse := false; q_labels := None; q_max_bytes := Some 20 |}.

Lemma demo_serving : serving demo_state demo_tip demo_manifest.
Proof.
  split; [reflexivity|reflexivity|cbn; lia..]. Qed.
Lemma demo_answering c : answering demo_state demo_tip (query_filter demo_tip (demo_query c)) 1.
Proof.
  intros h [H1 H2]. cbn [height demo_tip] in H2.
  assert (h = 1 ∨ h = 2 ∨ h = 3 ∨ h = 4) as [->|[->|[->| ->]]] by lia;
    (eexists; eexists; split; [reflexivity|]; split; [reflexivity|cbn; lia]).
Qed.
Lemma demo_typed c : 0 ≤ c → query_typed (demo_query c).
Proof. intros. split_and!; [simpl; lia|by intros ? [= <-]|by intros ? [= <-]]. Qed.
Lemma demo_acceptable c : 0 < c ≤ 10 → acceptable demo_state demo_tip (demo_query c).
Proof.
  intros H. split; [cbn; lia|cbn; lia|cbn; lia|]. intros s [= <-]. unfold last_wanted. cbn. lia.
Qed.

Example demo_rejected : block_range demo_state (demo_query 11) None = AErr (bad_request "count exceeds max_range_count").
Proof. reflexivity. Qed.

(** Three blocks asked for, two bytes too many for the second: three pages. *)
Example demo_sync : sync 4 demo_state (demo_query 3) = Some [[2; 2]; [3; 3; 3]; [4]; [5; 5]].
Proof. reflexivity. Qed.

(** With a count of one the loop ends at once, three blocks below the tip. *)
Example demo_sync_stops : sync 4 demo_state (demo_query 1) = Some [[2; 2]].
Proof. reflexivity. Qed.
