(* ===== verification/Sources.v ===== *)
(** * Block sources and the fetch pipeline

    Model of [core/src/source.rs], [core/src/pipeline.rs], [core/src/parse.rs] and
    [sources/src/polling.rs].  A source is a record of its operations; its answers do
    not change during one call of the functions below.  A stream is the list of the
    items it yields: [buffered(n)] (for a positive [n]) keeps the order of its input,
    so the number of requests in flight does not appear.  The consensus decoder of
    rust-bitcoin is the parameter [ConsensusDecode].  Heights are [u64]: their sums
    wrap. *)

From S2P Require Import Prelude UndoPayload.

Record RawBlockFrame := {
  rf_height : Z; rf_hash : bytes; rf_bytes : bytes; rf_spent_txouts : option BlockSpentTxOuts
}.

(** ** The trait *)
Record BlockSource := {
  get_block_hash : Z → res bytes;
  get_block_raw : bytes → res bytes;
  get_block_spent_txouts : bytes → res (option BlockSpentTxOuts);
  get_blocks_spent_txouts : list bytes → res (list (option BlockSpentTxOuts));
  get_best_height : res Z;
  get_block_by_height : Z → res RawBlockFrame;
  get_block_range_by_height : Z → nat → res (list RawBlockFrame);
  supports_block_range_batches : bool;
  supports_block_spent_txouts : bool;
  prefers_height_fetch : bool;
  source_name : bytes
}.

(** The default methods. *)
Definition default_spent_txouts (hash : bytes) : res (option BlockSpentTxOuts) := Ok None.
Definition default_blocks_spent_txouts (spent : bytes → res (option BlockSpentTxOuts)) (hashes : list bytes)
    : res (list (option BlockSpentTxOuts)) := map_res spent hashes.
Definition default_by_height (hash_of : Z → res bytes) (raw : bytes → res bytes)
    (spent : bytes → res (option BlockSpentTxOuts)) (height : Z) : res RawBlockFrame :=
  hash ← hash_of height;
  bs ← raw hash;
  spent_txouts ← spent hash;
  Ok {| rf_height := height; rf_hash := hash; rf_bytes := bs; rf_spent_txouts := spent_txouts |}.
Definition default_range (by_height : Z → res RawBlockFrame) (start_height : Z) (count : nat)
    : res (list RawBlockFrame) :=
  map_res (λ offset, by_height (wrap 64 (start_height + offset))) (seqZ 0 (Z.of_nat count)).

(** A source that implements the three required methods and nothing else. *)
Definition default_source (hash_of : Z → res bytes) (raw : bytes → res bytes) (best : res Z) (nm : bytes) : BlockSource := {|
  get_block_hash := hash_of;
  get_block_raw := raw;
  get_block_spent_txouts := default_spent_txouts;
  get_blocks_spent_txouts := default_blocks_spent_txouts default_spent_txouts;
  get_best_height := best;
  get_block_by_height := default_by_height hash_of raw default_spent_txouts;
  get_block_range_by_height := default_range (default_by_height hash_of raw default_spent_txouts);
  supports_block_range_batches := false;
  supports_block_spent_txouts := false;
  prefers_height_fetch := false;
  source_name := nm |}.

(** ** The pipeline *)

(** The range [start..(start + count)]. *)
Definition heights (start count : Z) : list Z := seqZ start (wrap 64 (start + count) - start).

(** Every request is made; the first error in height order is the result. *)
Definition prefetch_hashes (source : BlockSource) (start count : Z) : res (list bytes) :=
  map_res (get_block_hash source) (heights start count).

Definition raw_block_stream (source : BlockSource) (start_height : Z) (hashes : list bytes) : list (res RawBlockFrame) :=
  imap (λ i hash,
    let height := wrap 64 (start_height + Z.of_nat i) in
    bs ← get_block_raw source hash;
    Ok {| rf_height := height; rf_hash := hash; rf_bytes := bs; rf_spent_txouts := None |}) hashes.

Definition raw_block_stream_by_height (source : BlockSource) (start_height count : Z) : list (res RawBlockFrame) :=
  get_block_by_height source <$> heights start_height count.

(** The request of batch [batch_idx]: its first height and its size. *)
Definition batch_of (start_height count batch_size batch_idx : Z) : Z * Z :=
  let batch_start := wrap 64 (start_height + wrap 64 (batch_idx * batch_size)) in
  let remaining := wrap 64 (wrap 64 (start_height + count) - batch_start) in
  (batch_start, Z.min remaining batch_size).
Definition div_ceil (a b : Z) : Z := if bool_decide (0 < a mod b) then a / b + 1 else a / b.
Definition batch_count (count batch_size : Z) : Z := if bool_decide (count = 0) then 0 else div_ceil count batch_size.
(** [flat_map] over a batch's result. *)
Definition spread (result : res (list RawBlockFrame)) : list (res RawBlockFrame) :=
  match result with Ok frames => Ok <$> frames | Err e => [Err e] | Panic p => [Panic p] end.
Definition raw_block_stream_by_height_batched (source : BlockSource) (start_height count batch_size : Z)
    : list (res RawBlockFrame) :=
  let batch_size := Z.max batch_size 1 in
  seqZ 0 (batch_count count batch_size) ≫= λ batch_idx,
    let '(batch_start, this_count) := batch_of start_height count batch_size batch_idx in
    spread (get_block_range_by_height source batch_start (Z.to_nat this_count)).

Class ConsensusDecode := { Block : Type; consensus_decode : bytes → res Block }.

Section decoded.
Context `{!ConsensusDecode}.

Record DecodedBlockFrame := { df_height : Z; df_hash : bytes; df_block : Block }.
Definition decode_raw_block (frame : RawBlockFrame) : res DecodedBlockFrame :=
  block ← consensus_decode (rf_bytes frame);
  Ok {| df_height := rf_height frame; df_hash := rf_hash frame; df_block := block |}.
(** [.map(|raw| raw.and_then(decode_raw_block))]. *)
Definition decoded (stream : list (res RawBlockFrame)) : list (res DecodedBlockFrame) :=
  (λ raw, raw ≫= decode_raw_block) <$> stream.
Definition decoded_block_stream (source : BlockSource) (start_height : Z) (hashes : list bytes) :=
  decoded (raw_block_stream source start_height hashes).
Definition decoded_block_stream_by_height (source : BlockSource) (start_height count : Z) :=
  decoded (raw_block_stream_by_height source start_height count).
Definition decoded_block_stream_by_height_batched (source : BlockSource) (start_height count batch_size : Z) :=
  decoded (raw_block_stream_by_height_batched source start_height count batch_size).
End decoded.

(** ** Waiting for a new tip *)

(** The [PollingTipWatcher]'s loop, from the poll numbered [i]: the source changes
    between the polls.  The result is the number of the poll that returns. *)
Definition poll_hash (source : BlockSource) : res bytes :=
  height ← get_best_height source; get_block_hash source height.
Fixpoint wait_for_tip_change (fuel : nat) (source_at : nat → BlockSource) (i : nat) (old_tip : option bytes)
    : option (res nat) :=
  match fuel with
  | O => None
  | S fuel =>
      match poll_hash (source_at i) with
      | Ok hash => if bool_decide (old_tip ≠ Some hash) then Some (Ok i)
                   else wait_for_tip_change fuel source_at (S i) old_tip
      | Err e => Some (Err e)
      | Panic p => Some (Panic p)
      end
  end.

(** ** Lemmas *)

Lemma heights_small start count : 0 ≤ start → 0 ≤ count → start + count < 2 ^ 64 →
  heights start count = seqZ start count.
Proof. intros. unfold heights. rewrite wrap_small by (unfold in_width; lia). f_equal. lia. Qed.

(** A range request of the source gives the frames of its heights. *)
Definition ranges_by_height (source : BlockSource) : Prop :=
  ∀ start count, in_width 64 (start + Z.of_nat count) → 0 ≤ start →
    get_block_range_by_height source start count = map_res (get_block_by_height source) (seqZ start (Z.of_nat count)).

Lemma default_ranges hash_of raw best nm : ranges_by_height (default_source hash_of raw best nm).
Proof.
  intros start count [_ Hw] Hs. cbn [get_block_range_by_height get_block_by_height default_source]. unfold default_range.
  set (f := default_by_height hash_of raw default_spent_txouts).
  assert (∀ k, (k ≤ count)%nat → ∀ base, 0 ≤ base → base + Z.of_nat k ≤ Z.of_nat count →
    map_res (λ offset, f (wrap 64 (start + offset))) (seqZ base (Z.of_nat k)) = map_res f (seqZ (start + base) (Z.of_nat k))) as H.
  { induction k as [|k IH]; intros Hk base Hb Hle; [done|]. rewrite !(seqZ_cons _ (Z.of_nat (S k))) by lia.
    cbn [map_res]. rewrite wrap_small by (unfold in_width; lia).
    replace (Z.pred (Z.of_nat (S k))) with (Z.of_nat k) by lia.
    rewrite IH by lia. by replace (start + Z.succ base) with (Z.succ (start + base)) by lia. }
  rewrite H by lia. by rewrite Z.add_0_r.
Qed.

(** The batches of a range of heights tile it. *)
Lemma batches_tile (start count b : Z) (k : nat) : 0 ≤ start → 0 < b → start + count < 2 ^ 64 →
  (Z.of_nat k - 1) * b < count → 0 ≤ count →
  (seqZ 0 (Z.of_nat k) ≫= λ i, let '(s, n) := batch_of start count b i in seqZ s n) =
  seqZ start (Z.min (Z.of_nat k * b) count).
Proof.
  intros Hs Hb Hw. induction k as [|k IH]; intros Hk Hc; [by rewrite Z.min_l by lia|].
  replace (Z.of_nat (S k)) with (Z.of_nat k + 1) in * by lia. rewrite seqZ_app by lia.
  rewrite bind_app, IH by nia. replace (seqZ (0 + Z.of_nat k) 1) with [Z.of_nat k] by (by rewrite Z.add_0_l).
  assert (0 ≤ Z.of_nat k * b < count) as Hkb by nia.
  rewrite bind_cons. unfold batch_of.
  rewrite (wrap_small 64 (Z.of_nat k * b)) by (unfold in_width; nia).
  rewrite (wrap_small 64 (start + Z.of_nat k * b)), (wrap_small 64 (start + count)) by (unfold in_width; nia).
  rewrite wrap_small by (unfold in_width; nia). cbn [mbind list_bind]. rewrite app_nil_r, Z.min_l by nia.
  rewrite Z.mul_add_distr_r, Z.mul_1_l. revert Hkb. generalize (Z.of_nat k * b). clear IH Hk. intros x Hx.
  destruct (decide (x + b ≤ count)) as [Hl|Hl].
  - rewrite (Z.min_r (start + count - _)), (Z.min_l (x + b)) by lia. symmetry. apply seqZ_app; lia.
  - rewrite (Z.min_l (start + count - _)), (Z.min_r (x + b)) by lia.
    replace (start + count - (start + x)) with (count - x) by lia.
    rewrite <-seqZ_app by lia. f_equal. lia.
Qed.

Lemma div_ceil_bounds a b : 0 < a → 0 < b → (div_ceil a b - 1) * b < a ≤ div_ceil a b * b ∧ 0 ≤ div_ceil a b.
Proof.
  intros Ha Hb. unfold div_ceil. pose proof (Z.div_mod a b). pose proof (Z.mod_pos_bound a b). pose proof (Z.div_pos a b).
  case_bool_decide; nia.
Qed.

Lemma spread_ok source start count frames :
  map_res (get_block_by_height source) (seqZ start count) = Ok frames →
  spread (map_res (get_block_by_height source) (seqZ start count)) = get_block_by_height source <$> seqZ start count.
Proof.
  intros E. rewrite E. cbn [spread]. apply map_res_Ok in E. induction E as [|h f hs fs Hf _ IH]; [done|].
  by rewrite !fmap_cons, Hf, IH.
Qed.

Lemma fmap_of_bind {A B C} (f : B → C) (g : A → list B) l : f <$> (l ≫= g) = l ≫= λ x, f <$> g x.
Proof. induction l as [|x l IH]; [done|]. by rewrite !bind_cons, fmap_app, IH. Qed.
Lemma bind_ext_elem {A B} (f g : A → list B) l : (∀ x, x ∈ l → f x = g x) → l ≫= f = l ≫= g.
Proof.
  induction l as [|x l IH]; intros H; [done|]. rewrite !bind_cons, (H x) by left. f_equal. apply IH. intros. apply H. by right.
Qed.

(** Every height of a range answered: the request for the range succeeds. *)
Lemma by_height_all source start count :
  (∀ h, start ≤ h < start + count → ∃ frame, get_block_by_height source h = Ok frame) →
  ∃ frames, map_res (get_block_by_height source) (seqZ start count) = Ok frames.
Proof.
  intros H. assert (Forall (λ h, ∃ f, get_block_by_height source h = Ok f) (seqZ start count)) as Hall.
  { apply Forall_forall. intros h Hh%elem_of_seqZ. apply H. lia. }
  induction Hall as [|h hs [f Hf] _ [fs Hfs]]; [by exists []|]. exists (f :: fs). cbn [map_res]. rewrite Hf. rsimpl. by rewrite Hfs.
Qed.

Lemma batch_spread source start count b i :
  ranges_by_height source → 0 ≤ start → 0 < b → start + count < 2 ^ 64 → 0 ≤ i → i * b < count →
  (∀ h, start ≤ h < start + count → ∃ frame, get_block_by_height source h = Ok frame) →
  (let '(s, n) := batch_of start count b i in spread (get_block_range_by_height source s (Z.to_nat n))) =
  get_block_by_height source <$> (let '(s, n) := batch_of start count b i in seqZ s n).
Proof.
  intros Hr Hs Hb Hw Hi Hib Hf. unfold batch_of. assert (0 ≤ i * b) as Hx0 by nia. revert Hx0 Hib.
  generalize (i * b) as x. intros x Hx0 Hx.
  rewrite (wrap_small 64 x), (wrap_small 64 (start + x)), (wrap_small 64 (start + count)), wrap_small by (unfold in_width; lia).
  rewrite Hr by (unfold in_width; lia). rewrite Z2Nat.id by lia.
  destruct (by_height_all source (start + x) (Z.min (start + count - (start + x)) b)) as [frames E].
  { intros h Hh. apply Hf. lia. }
  by apply (spread_ok _ _ _ frames).
Qed.

(** ** Theorems *)

(** C31: batching is invisible.  For a source whose range requests answer with the
    frames of their heights (as the default method does), the batched stream yields,
    whatever the batch size, the same frames in the same strict height order as one
    request per height; decoding the two streams gives the same blocks. *)
Theorem batched_stream_same `{!ConsensusDecode} source start count batch_size :
  ranges_by_height source → 0 ≤ start → 0 ≤ count → start + count < 2 ^ 64 →
  (∀ h, start ≤ h < start + count → ∃ frame, get_block_by_height source h = Ok frame) →
  raw_block_stream_by_height_batched source start count batch_size = raw_block_stream_by_height source start count ∧
  decoded_block_stream_by_height_batched source start count batch_size = decoded_block_stream_by_height source start count.
Proof.
  intros Hr Hs Hc Hw Hf. unfold decoded_block_stream_by_height_batched, decoded_block_stream_by_height.
  cut (raw_block_stream_by_height_batched source start count batch_size = raw_block_stream_by_height source start count);
    [by intros ->|].
  unfold raw_block_stream_by_height_batched, raw_block_stream_by_height. rewrite heights_small by done.
  set (b := Z.max batch_size 1). assert (0 < b) as Hb by lia. unfold batch_count.
  destruct (decide (count = 0)) as [->|Hc0]; [by rewrite bool_decide_true|]. rewrite bool_decide_false by done.
  destruct (div_ceil_bounds count b) as [Hd Hd0]; [lia..|]. set (k := Z.to_nat (div_ceil count b)).
  replace (div_ceil count b) with (Z.of_nat k) in * by lia.
  pose proof (batches_tile start count b k Hs Hb Hw ltac:(lia) Hc) as Ht. rewrite Z.min_r in Ht by lia.
  rewrite <-Ht, fmap_of_bind. apply bind_ext_elem. intros i Hi%elem_of_seqZ.
  rewrite <-(batch_spread source start count b i) by (done || lia || nia). done.
Qed.

(** The polls that see the old tip change nothing. *)
Lemma wait_skip source_at old_tip fuel i k :
  (k < fuel)%nat → (∀ j, (j < k)%nat → ∃ hash, poll_hash (source_at (i + j)%nat) = Ok hash ∧ old_tip = Some hash) →
  wait_for_tip_change fuel source_at i old_tip = wait_for_tip_change (fuel - k) source_at (i + k) old_tip.
Proof.
  revert fuel i. induction k as [|k IH]; intros fuel i Hf Hold; [by rewrite Nat.sub_0_r, Nat.add_0_r|].
  destruct fuel as [|fuel]; [lia|]. destruct (Hold 0%nat) as (hash & Hp & ->); [lia|]. rewrite Nat.add_0_r in Hp.
  cbn [wait_for_tip_change]. rewrite Hp, bool_decide_false by (intros E; by apply E).
  rewrite IH by (lia || (intros j Hj; replace (S i + j)%nat with (i + S j)%nat by lia; apply Hold; lia)).
  by replace (S i + k)%nat with (i + S k)%nat by lia.
Qed.

(** The polling watcher returns at the first change: if the polls before the [k]-th
    saw the old tip and the [k]-th sees another hash (or fails), it returns there. *)
Theorem wait_returns_at_change (source_at : nat → BlockSource) old_tip fuel k :
  (k < fuel)%nat → (∀ j, (j < k)%nat → ∃ hash, poll_hash (source_at j) = Ok hash ∧ old_tip = Some hash) →
  wait_for_tip_change fuel source_at 0 old_tip =
  match poll_hash (source_at k) with
  | Ok hash => if bool_decide (old_tip ≠ Some hash) then Some (Ok k) else wait_for_tip_change (fuel - S k) source_at (S k) old_tip
  | Err e => Some (Err e)
  | Panic p => Some (Panic p)
  end.
Proof.
  intros Hf Hold. rewrite (wait_skip source_at old_tip fuel 0 k Hf Hold). cbn [Nat.add].
  destruct (fuel - k)%nat as [|n] eqn:E; [lia|]. cbn [wait_for_tip_change]. by replace (fuel - S k)%nat with n by lia.
Qed.

(** ** A concrete source: three blocks *)

Definition demo_source : BlockSource := default_source
  (λ h, ok_or ([[10]; [11]; [12]] !! Z.to_nat h) "no such height") (λ hash, Ok (255 :: hash)) (Ok 2) [].
#[local] Instance toy_decode : ConsensusDecode := {| Block := bytes; consensus_decode := λ bs, Ok bs |}.

Lemma batched_stream_same_witness :
  raw_block_stream_by_height_batched demo_source 0 3 2 = raw_block_stream_by_height demo_source 0 3 ∧
  decoded_block_stream_by_height_batched demo_source 0 3 2 = decoded_block_stream_by_height demo_source 0 3.
Proof.
  apply (batched_stream_same demo_source 0 3 2); [apply default_ranges|lia..|].
  intros h Hh. assert (h = 0 ∨ h = 1 ∨ h = 2) as [->|[->| ->]] by lia; eexists; reflexivity.
Defined.
Example demo_stream : df_hash ∘ default {| df_height := 0; df_hash := []; df_block := [] : Block |} ∘
    (λ r, match r with Ok d => Some d | _ => None end) <$> decoded_block_stream_by_height_batched demo_source 1 2 0 = [[11]; [12]].
Proof. reflexivity. Qed.
