(* ===== verification/MultiSource.v ===== *)
(** * Round robin over several sources

    Model of [sources/src/multi.rs].  The cursor is an atomic counter shared by all
    calls in flight: the state is threaded, and a call takes the list of the picks that
    other calls make before each of its own (none for a call that runs alone). *)

From S2P Require Import Prelude UndoPayload Sources.

Record MultiSource := { sources : list BlockSource; cursor : Z }.

(** [assert!(!sources.is_empty())]. *)
Definition multi_new (sources : list BlockSource) : res MultiSource :=
  match sources with [] => Panic "need at least one source" | _ => Ok {| sources := sources; cursor := 0 |} end.

(** [cursor.fetch_add(k)]. *)
Definition advance (k : Z) (self : MultiSource) : MultiSource :=
  {| sources := sources self; cursor := wrap 64 (cursor self + k) |}.
Definition pick (self : MultiSource) : res BlockSource :=
  index (sources self) (Z.to_nat (cursor self mod len (sources self))).

(** The loop of every method: [n] picks, the first answer wins; the state is the cursor
    and [last_err]. *)
Fixpoint try_sources {A} (n : nat) (call : BlockSource → res A) (others : list Z) (self : MultiSource)
    (last_err : option string) : MultiSource * res A :=
  match n with
  | O => (self, match last_err with Some e => Err e | None => Panic "called `Option::unwrap()` on a `None` value" end)
  | S n =>
      let self := advance (default 0 (head others)) self in
      match pick self with
      | Ok src =>
          let self := advance 1 self in
          match call src with
          | Ok a => (self, Ok a)
          | Err e => try_sources n call (tail others) self (Some e)
          | Panic p => (self, Panic p)
          end
      | Err e => (self, Err e)
      | Panic p => (self, Panic p)
      end
  end.
Definition multi_call {A} (call : BlockSource → res A) (others : list Z) (self : MultiSource) : MultiSource * res A :=
  try_sources (length (sources self)) call others self None.

(** ** The methods *)
Definition multi_get_block_hash others self (height : Z) := multi_call (λ src, get_block_hash src height) others self.
Definition multi_get_block_raw others self (hash : bytes) := multi_call (λ src, get_block_raw src hash) others self.
Definition multi_get_block_spent_txouts others self (hash : bytes) :=
  multi_call (λ src, get_block_spent_txouts src hash) others self.
Definition multi_get_blocks_spent_txouts others self (hashes : list bytes) :=
  multi_call (λ src, get_blocks_spent_txouts src hashes) others self.
Definition multi_get_best_height others self := multi_call get_best_height others self.
Definition multi_get_block_by_height others self (height : Z) := multi_call (λ src, get_block_by_height src height) others self.
Definition multi_get_block_range_by_height others self (start_height : Z) (count : nat) :=
  multi_call (λ src, get_block_range_by_height src start_height count) others self.
Definition multi_supports_block_range_batches self : bool := forallb supports_block_range_batches (sources self).
Definition multi_supports_block_spent_txouts self : bool := forallb supports_block_spent_txouts (sources self).
Definition multi_prefers_height_fetch self : bool := forallb prefers_height_fetch (sources self).

(** ** Specification: falling through a list of sources *)
Fixpoint fall_through {A} (call : BlockSource → res A) (l : list BlockSource) (last_err : option string) : nat * res A :=
  match l with
  | [] => (0%nat, match last_err with Some e => Err e | None => Panic "called `Option::unwrap()` on a `None` value" end)
  | src :: l =>
      match call src with
      | Ok a => (1%nat, Ok a)
      | Err e => let '(k, r) := fall_through call l (Some e) in (S k, r)
      | Panic p => (1%nat, Panic p)
      end
  end.
(** The sources in the order of the cursor. *)
Definition in_turn (self : MultiSource) : list BlockSource :=
  let i := Z.to_nat (cursor self mod len (sources self)) in drop i (sources self) ++ take i (sources self).

(** An outcome that agrees with the sources. *)
Definition answered {A} (call : BlockSource → res A) (l : list BlockSource) (r : res A) : Prop :=
  match r with
  | Ok a => ∃ src, src ∈ l ∧ call src = Ok a
  | Err e => ∃ src, src ∈ l ∧ call src = Err e
  | Panic p => ∃ src, src ∈ l ∧ call src = Panic p
  end.

Lemma pick_ok self : sources self ≠ [] → 0 ≤ cursor self →
  ∃ src, pick self = Ok src ∧ src ∈ sources self ∧ sources self !! Z.to_nat (cursor self mod len (sources self)) = Some src.
Proof.
  intros Hs Hc. assert (0 < len (sources self)) by (destruct (sources self); [done|simpl; lia]).
  destruct (lookup_lt_is_Some_2 (sources self) (Z.to_nat (cursor self mod len (sources self)))) as [src E].
  { pose proof (Z.mod_pos_bound (cursor self) (len (sources self))). lia. }
  exists src. split_and!; [by apply index_ok|by eapply list_elem_of_lookup_2|done].
Qed.

Lemma try_answered {A} n (call : BlockSource → res A) others self last_err :
  sources self ≠ [] →
  match last_err with Some e => ∃ src, src ∈ sources self ∧ call src = Err e | None => n ≠ 0%nat end →
  answered call (sources self) (try_sources n call others self last_err).2.
Proof.
  revert others self last_err. induction n as [|n IH]; intros others self last_err Hs Hl; [by destruct last_err|].
  cbn [try_sources]. set (self' := advance _ self).
  destruct (pick_ok self' Hs) as (src & -> & Hin & _); [by apply wrap_width|].
  destruct (call src) as [a|e|p] eqn:E; [by exists src| |by exists src].
  apply (IH (tail others) (advance 1 self') (Some e) Hs). by exists src.
Qed.

Lemma multi_answered {A} (call : BlockSource → res A) others self :
  sources self ≠ [] → answered call (sources self) (multi_call call others self).2.
Proof. intros Hs. apply try_answered; [done|]. by destruct (sources self). Qed.

Lemma fall_answered {A} (call : BlockSource → res A) l last_err :
  (∀ src, src ∈ l → no_panic (call src)) → (l ≠ [] ∨ is_Some last_err) →
  match (fall_through call l last_err).2 with
  | Ok a => ∃ src, src ∈ l ∧ call src = Ok a
  | Err _ => ∀ src, src ∈ l → ∃ e, call src = Err e
  | Panic _ => False
  end.
Proof.
  revert last_err. induction l as [|src l IH]; intros last_err Hp Hl.
  { destruct Hl as [?|[e ->]]; [done|]. cbn. intros src Hs. by apply not_elem_of_nil in Hs. }
  cbn [fall_through]. destruct (call src) as [a|e|p] eqn:E.
  - exists src. split; [left|done].
  - specialize (IH (Some e)). destruct (fall_through call l (Some e)) as [k r]. cbn in *.
    assert (∀ src, src ∈ l → no_panic (call src)) as Hp' by (intros; apply Hp; by right).
    specialize (IH Hp' (or_intror (mk_is_Some (Some e) e eq_refl))). destruct r; [|
      |done].
    + destruct IH as (s & ? & ?). exists s. split; [by right|done].
    + intros s [->|Hs]%elem_of_cons; [by eexists|by apply IH].
  - by apply (Hp src (list_elem_of_here _ _) p).
Qed.

(** The picks of a call that runs alone, from the cursor [c] on. *)
Definition turns (srcs : list BlockSource) (c : Z) (n : nat) : list BlockSource :=
  seqZ c (Z.of_nat n) ≫= λ i, option_list (srcs !! Z.to_nat (i mod len srcs)).

Lemma try_alone {A} n (call : BlockSource → res A) self last_err :
  sources self ≠ [] → 0 ≤ cursor self → cursor self + Z.of_nat n < 2 ^ 64 →
  try_sources n call [] self last_err =
  let '(k, r) := fall_through call (turns (sources self) (cursor self) n) last_err in
  ({| sources := sources self; cursor := cursor self + Z.of_nat k |}, r).
Proof.
  revert self last_err. induction n as [|n IH]; intros self last_err Hs Hc Hw.
  { cbn. destruct self. simpl. by rewrite Z.add_0_r. }
  cbn [try_sources]. change (tail (A:=Z) []) with (@nil Z). change (default 0 (head [])) with 0.
  assert (advance 0 self = self) as ->.
  { unfold advance. rewrite Z.add_0_r, wrap_small by (unfold in_width; lia). by destruct self. }
  destruct (pick_ok self Hs Hc) as (src & -> & _ & El).
  unfold turns. rewrite seqZ_cons by lia. rewrite bind_cons, El. change (option_list (Some src)) with [src]. cbn [app fall_through].
  replace (Z.pred (Z.of_nat (S n))) with (Z.of_nat n) by lia.
  assert (advance 1 self = {| sources := sources self; cursor := Z.succ (cursor self) |}) as ->.
  { unfold advance. rewrite wrap_small by (unfold in_width; lia). done. }
  destruct (call src) as [a|e|p]; [done| |done].
  rewrite IH by (first [exact Hs|cbn; lia]). fold (turns (sources self) (Z.succ (cursor self)) n). cbn [sources cursor].
  destruct (fall_through call (turns (sources self) (Z.succ (cursor self)) n) (Some e)) as [k r].
  do 2 f_equal. lia.
Qed.

Lemma turns_segment (l : list BlockSource) c (m : nat) :
  0 ≤ c → c mod len l + Z.of_nat m ≤ len l → turns l c m = take m (drop (Z.to_nat (c mod len l)) l).
Proof.
  revert c. induction m as [|m IH]; intros c Hc Hm; [done|].
  unfold turns. rewrite seqZ_cons by lia. rewrite bind_cons. replace (Z.pred (Z.of_nat (S m))) with (Z.of_nat m) by lia.
  fold (turns l (Z.succ c) m). pose proof (Z.mod_pos_bound c (len l) ltac:(lia)).
  destruct (lookup_lt_is_Some_2 l (Z.to_nat (c mod len l))) as [x Hx]; [lia|]. rewrite Hx, (drop_S _ x) by done.
  change (option_list (Some x)) with [x]. cbn [app take]. f_equal. destruct m as [|m]; [done|].
  assert (Z.succ c mod len l = c mod len l + 1) as E.
  { rewrite <-Z.add_1_r, Z.add_mod, (Z.mod_small 1), (Z.mod_small (_ + 1)) by lia. done. }
  rewrite IH by (rewrite ?E; lia). by replace (Z.to_nat (Z.succ c mod len l)) with (S (Z.to_nat (c mod len l))) by lia.
Qed.

Lemma turns_app l c (m n : nat) : turns l c (m + n) = turns l c m ++ turns l (c + Z.of_nat m) n.
Proof. unfold turns. by rewrite Nat2Z.inj_add, seqZ_app, bind_app by lia. Qed.

Lemma turns_in_turn self : sources self ≠ [] → 0 ≤ cursor self →
  turns (sources self) (cursor self) (length (sources self)) = in_turn self.
Proof.
  intros Hs Hc. unfold in_turn. destruct self as [l c]. cbn [sources cursor] in *.
  assert (0 < len l) by (destruct l; [done|simpl; lia]). pose proof (Z.mod_pos_bound c (len l) ltac:(lia)).
  set (i := Z.to_nat (c mod len l)). replace (length l) with ((length l - i) + i)%nat at 1 by lia.
  rewrite turns_app, turns_segment by lia. fold i. rewrite take_ge by (rewrite length_drop; lia). f_equal.
  destruct (decide (i = 0%nat)) as [Ei|Ei]; [by rewrite Ei|].
  assert ((c + Z.of_nat (length l - i)) mod len l = 0) as E.
  { replace (c + Z.of_nat (length l - i)) with (0 + (c / len l + 1) * len l); [rewrite Z.mod_add, Z.mod_0_l by lia; done|].
    pose proof (Z.div_mod c (len l)). lia. }
  rewrite turns_segment by (rewrite ?E; lia). by rewrite E, drop_0.
Qed.

(** A call that runs alone: the picks, and the answer when a source has one. *)
Lemma multi_alone_run {A} (call : BlockSource → res A) self :
  sources self ≠ [] → 0 ≤ cursor self → cursor self + len (sources self) < 2 ^ 64 →
  multi_call call [] self =
    (let '(k, r) := fall_through call (in_turn self) None in
     ({| sources := sources self; cursor := cursor self + Z.of_nat k |}, r)).
Proof. intros Hs Hc Hw. unfold multi_call. by rewrite try_alone, turns_in_turn. Qed.
Lemma in_turn_elem self src : src ∈ in_turn self ↔ src ∈ sources self.
Proof.
  unfold in_turn. set (i := Z.to_nat _). rewrite <-(take_drop i (sources self)) at 3. rewrite !elem_of_app. tauto.
Qed.
Lemma multi_alone {A} (call : BlockSource → res A) self :
  sources self ≠ [] → 0 ≤ cursor self → cursor self + len (sources self) < 2 ^ 64 →
  (∀ src, src ∈ sources self → no_panic (call src)) →
  match (multi_call call [] self).2 with
  | Ok a => ∃ src, src ∈ sources self ∧ call src = Ok a
  | Err _ => ∀ src, src ∈ sources self → ∃ e, call src = Err e
  | Panic _ => False
  end.
Proof.
  intros Hs Hc Hw Hp. rewrite multi_alone_run by done. pose proof (in_turn_elem self) as Hin.
  pose proof (fall_answered call (in_turn self) None) as H.
  destruct (fall_through call (in_turn self) None) as [k r]. cbn [snd] in *.
  assert (in_turn self ≠ []) as Hne.
  { destruct (sources self) as [|s l]; [done|]. intros E. assert (s ∈ in_turn self) as Hi by (apply Hin; left).
    rewrite E in Hi. by apply not_elem_of_nil in Hi. }
  specialize (H (λ src Hi, Hp src (proj1 (Hin src) Hi)) (or_introl Hne)).
  destruct r; [|intros src Hi; by apply H, Hin|done].
  destruct H as (src & Hi & E). exists src. by rewrite <-Hin.
Qed.

(** ** Theorems *)

(** A call that runs alone falls through to a healthy source.  It asks the sources
    in turn from the cursor, each at most once, and returns the first answer, moving the
    cursor by the number of sources asked; so it succeeds whenever some source answers,
    and an error means that every source failed.  (The cursor is far from its maximum.) *)
Theorem multi_falls_through {A} (call : BlockSource → res A) self :
  sources self ≠ [] → 0 ≤ cursor self → cursor self + len (sources self) < 2 ^ 64 →
  (∀ src, src ∈ sources self → no_panic (call src)) →
  multi_call call [] self =
    (let '(k, r) := fall_through call (in_turn self) None in
     ({| sources := sources self; cursor := cursor self + Z.of_nat k |}, r)) ∧
  match (multi_call call [] self).2 with
  | Ok a => ∃ src, src ∈ sources self ∧ call src = Ok a
  | Err _ => ∀ src, src ∈ sources self → ∃ e, call src = Err e
  | Panic _ => False
  end.
Proof. intros Hs Hc Hw Hp. split; [by apply multi_alone_run|by apply multi_alone]. Qed.

(** A call that does not run alone can fail although a source is healthy: with two
    sources, another call's picks between its own make it ask the failing one twice. *)
Lemma interleaved_misses_healthy {A} (call : BlockSource → res A) bad good e :
  call bad = Err e → (multi_call call [0; 1] {| sources := [bad; good]; cursor := 0 |}).2 = Err e.
Proof.
  intros E. vm_compute. by rewrite !E.
Qed.

(** ** Two sources, the first of which is down *)
Definition down_source : BlockSource := default_source (λ _, Err "down") (λ _, Err "down") (Err "down") [].
Definition demo_multi : MultiSource := {| sources := [down_source; demo_source]; cursor := 4 |}.

Lemma multi_falls_through_witness :
  multi_get_best_height [] demo_multi =
    (let '(k, r) := fall_through get_best_height (in_turn demo_multi) None in
     ({| sources := sources demo_multi; cursor := 4 + Z.of_nat k |}, r)) ∧
  match (multi_get_best_height [] demo_multi).2 with
  | Ok a => ∃ src, src ∈ sources demo_multi ∧ get_best_height src = Ok a
  | Err _ => ∀ src, src ∈ sources demo_multi → ∃ e, get_best_height src = Err e
  | Panic _ => False
  end.
Proof.
  apply (multi_falls_through get_best_height demo_multi); [done|cbn; lia|cbn; lia|].
  intros src [->|[->|[]%not_elem_of_nil]%elem_of_cons]%elem_of_cons p; discriminate.
Defined.
Example demo_multi_best : multi_get_best_height [] demo_multi = ({| sources := [down_source; demo_source]; cursor := 6 |}, Ok 2).
Proof. reflexivity. Qed.
