(* ===== verification/IndexerCache.v ===== *)
(** * The indexer with a partial cache

    The running indexer keeps in memory only the coins it created or looked up; the
    database holds the rest.  This file relates it to the indexer that keeps every coin
    in memory: a cache that agrees with the full map on the inputs of a block gives the
    same result, and the full map evolves as the database does. *)

From S2P Require Import Prelude Bits Helper TaggedHash Bitmap SpentIds OutputHash LightBlock LightValid CutThrough P2trIndexer P2trFacts Indexer Kv IndexStore.

(** ** A cache and the full map *)

(** [s] caches [f]: the same counters, a submap that agrees on the outpoints [D], and
    whatever [s] lacks is in the base map [L0]. *)
Record caches (D : list OutPointKey) (L0 : index_map) (s f : P2trIndexerState) : Prop := {
  ch_uid : next_uid s = next_uid f;
  ch_seen : seen_p2tr_keys s = seen_p2tr_keys f;
  ch_sub : outpoint_to_spend s ⊆ outpoint_to_spend f;
  ch_agree : ∀ o, o ∈ D → outpoint_to_spend s !! o = outpoint_to_spend f !! o;
  ch_base : ∀ o c, outpoint_to_spend f !! o = Some c → outpoint_to_spend s !! o = Some c ∨ L0 !! o = Some c
}.

Lemma caches_delete D L0 s f o u u' :
  caches D L0 s f → caches D L0
    {| next_uid := next_uid s; outpoint_to_spend := delete o (outpoint_to_spend s); live_uid_count := u; seen_p2tr_keys := seen_p2tr_keys s |}
    {| next_uid := next_uid f; outpoint_to_spend := delete o (outpoint_to_spend f); live_uid_count := u'; seen_p2tr_keys := seen_p2tr_keys f |}.
Proof.
  intros [Hu Hs Hsub Ha Hb]. split; cbn; [done|done|by apply delete_mono| |].
  - intros o' Ho. rewrite !lookup_delete. case_decide; [done|by apply Ha].
  - intros o' c. rewrite !lookup_delete. case_decide; [done|apply Hb].
Qed.
Lemma caches_insert D L0 s f o x u u' k k' :
  caches D L0 s f → k = k' → caches D L0
    {| next_uid := next_uid s; outpoint_to_spend := <[o := x]> (outpoint_to_spend s); live_uid_count := u; seen_p2tr_keys := k |}
    {| next_uid := next_uid f; outpoint_to_spend := <[o := x]> (outpoint_to_spend f); live_uid_count := u'; seen_p2tr_keys := k' |}.
Proof.
  intros [Hu Hs Hsub Ha Hb] ->. split; cbn; [done|done|by apply insert_mono| |].
  - intros o' Ho. rewrite !lookup_insert. case_decide; [done|by apply Ha].
  - intros o' c. rewrite !lookup_insert. case_decide; [by left|apply Hb].
Qed.
Lemma caches_seen D L0 s f u u' k k' :
  caches D L0 s f → k = k' → caches D L0
    {| next_uid := next_uid s; outpoint_to_spend := outpoint_to_spend s; live_uid_count := u; seen_p2tr_keys := k |}
    {| next_uid := next_uid f; outpoint_to_spend := outpoint_to_spend f; live_uid_count := u'; seen_p2tr_keys := k' |}.
Proof. intros [Hu Hs Hsub Ha Hb] ->. by split. Qed.
Lemma caches_next D L0 s f n u u' k k' :
  caches D L0 s f → k = k' → caches D L0
    {| next_uid := n; outpoint_to_spend := outpoint_to_spend s; live_uid_count := u; seen_p2tr_keys := k |}
    {| next_uid := n; outpoint_to_spend := outpoint_to_spend f; live_uid_count := u'; seen_p2tr_keys := k' |}.
Proof. intros [Hu Hs Hsub Ha Hb] ->. by split. Qed.

(** The accumulators of the two runs differ in the state alone. *)
Definition with_self (a : BlockAcc) (s : P2trIndexerState) : BlockAcc := {|
  acc_self := s; acc_outputs := acc_outputs a; acc_spends := acc_spends a; acc_skipped_txs := acc_skipped_txs a;
  acc_tweaks := acc_tweaks a; acc_skipped_outputs := acc_skipped_outputs a; acc_stats := acc_stats a;
  acc_created := acc_created a; acc_spent := acc_spent a |}.
Definition with_acc (t : TxAcc) (s : P2trIndexerState) : TxAcc :=
  {| ta_acc := with_self (ta_acc t) s; ta_has_p2tr := ta_has_p2tr t; ta_indexed := ta_indexed t |}.

Section cache.
Context (D : list OutPointKey) (L0 : index_map).

Lemma input_cached b tx a i a' s :
  caches D L0 s (acc_self a) → ti_previous_output i ∈ D → apply_input b tx a i = Ok a' →
  ∃ s', apply_input b tx (with_self a s) i = Ok (with_self a' s') ∧ caches D L0 s' (acc_self a').
Proof.
  intros Hc Hi H. unfold apply_input in *. cbn [acc_self with_self]. rewrite (ch_agree _ _ _ _ Hc _ Hi).
  destruct (outpoint_to_spend (acc_self a) !! ti_previous_output i) as [c|]; [|injection H as <-; by exists s].
  apply bind_Ok in H as (h & Hh & [= <-]). rewrite Hh. rsimpl. eexists. split; [reflexivity|]. by apply caches_delete.
Qed.

Lemma output_cached b fu tx t o t' s :
  caches D L0 s (acc_self (ta_acc t)) → apply_output b fu tx t o = Ok t' →
  ∃ s', apply_output b fu tx (with_acc t s) o = Ok (with_acc t' s') ∧ caches D L0 s' (acc_self (ta_acc t')).
Proof.
  intros Hc H. unfold apply_output in *. cbn [ta_acc with_acc acc_self with_self acc_stats acc_outputs ta_has_p2tr ta_indexed] in *.
  destruct (to_is_p2tr o); cbn [negb] in *; [|injection H as <-; by exists s].
  apply bind_Ok in H as (slot & Hs & H). rewrite Hs. rsimpl.
  apply bind_Ok in H as (n & Hn & H). rewrite Hn. rsimpl.
  apply bind_Ok in H as (k & Hk & H). rewrite Hk. rsimpl.
  rewrite (ch_seen _ _ _ _ Hc). destruct (see_key (seen_p2tr_keys (acc_self (ta_acc t))) k) as [seen re].
  destruct (to_is_nums o || _).
  { injection H as <-. eexists. split; [reflexivity|]. by apply caches_seen. }
  apply bind_Ok in H as (x & Hx & H). rewrite Hx. rsimpl.
  apply bind_Ok in H as (u & Hu & H). rewrite Hu. rsimpl.
  apply bind_Ok in H as (oi & Ho & H). rewrite Ho. rsimpl. injection H as <-.
  eexists. split; [reflexivity|]. by apply caches_insert.
Qed.

Lemma tx_cached b fu n a tx a' s :
  caches D L0 s (acc_self a) → (∀ i, i ∈ tx_inputs tx → ti_previous_output i ∈ D) → apply_tx b fu n a tx = Ok a' →
  ∃ s', apply_tx b fu n (with_self a s) tx = Ok (with_self a' s') ∧ caches D L0 s' (acc_self a').
Proof.
  intros Hc Hi H. unfold apply_tx in *. apply bind_Ok in H as (a1 & H1 & H). apply bind_Ok in H as (t & H2 & H).
  assert (∃ s1, fold_res (apply_input b tx) (with_self a s) (tx_inputs tx) = Ok (with_self a1 s1) ∧ caches D L0 s1 (acc_self a1))
    as (s1 & E1 & Hc1).
  { clear H H2. revert a s Hc H1. induction (tx_inputs tx) as [|i is_ IH]; intros a s Hc H1; cbn [fold_res] in *.
    { injection H1 as <-. by exists s. }
    apply bind_Ok in H1 as (a2 & Ha2 & H1). destruct (input_cached b tx a i a2 s Hc) as (s2 & -> & Hc2); [apply Hi; left|done|].
    rsimpl. apply IH; [intros; apply Hi; by right|done|done]. }
  rewrite E1. rsimpl.
  set (t0 := {| ta_acc := a1; ta_has_p2tr := false; ta_indexed := 0 |}) in *.
  change {| ta_acc := with_self a1 s1; ta_has_p2tr := false; ta_indexed := 0 |} with (with_acc t0 s1).
  assert (∃ s2, fold_res (apply_output b fu tx) (with_acc t0 s1) (tx_outputs tx) = Ok (with_acc t s2) ∧ caches D L0 s2 (acc_self (ta_acc t)))
    as (s2 & E2 & Hc2).
  { clear H H1 E1. change (acc_self a1) with (acc_self (ta_acc t0)) in Hc1. revert Hc1 H2. generalize t0, s1. clear t0 s1.
    induction (tx_outputs tx) as [|o os IH]; intros t0 s1 Hc1 H2; cbn [fold_res] in *; [injection H2 as <-; by exists s1|].
    apply bind_Ok in H2 as (t1 & Ht1 & H2). destruct (output_cached b fu tx t0 o t1 s1 Hc1 Ht1) as (s2 & -> & Hc2).
    rsimpl. by apply IH. }
  rewrite E2. rsimpl. cbn [ta_acc with_acc ta_indexed ta_has_p2tr with_self acc_skipped_txs acc_stats acc_tweaks] in *.
  destruct (bool_decide (0 < ta_indexed t)).
  - destruct (tx_silent_payment_tweak tx); injection H as <-; exists s2; by split.
  - apply bind_Ok in H as (sk & Hsk & H). rewrite Hsk. rsimpl. injection H as <-. exists s2. by split.
Qed.

Lemma block_cached `{SH : !Sha256} self b out self' s :
  caches D L0 s self → (∀ i, i ∈ bk_txs b ≫= tx_inputs → ti_previous_output i ∈ D) →
  apply_block_with_stats self b = Ok (out, self') →
  ∃ s', apply_block_with_stats s b = Ok (out, s') ∧ caches D L0 s' self'.
Proof.
  intros Hc Hi H. unfold apply_block_with_stats, finish_block in *. rewrite (ch_uid _ _ _ _ Hc).
  apply bind_Ok in H as (n & Hn & H). rewrite Hn. rsimpl. apply bind_Ok in H as (bm & Hbm & H). rewrite Hbm. rsimpl.
  apply bind_Ok in H as (a & Ha & H).
  match type of Ha with fold_res ?f ?a0 _ = _ =>
    assert (∃ s', fold_res f (with_self a0 s) (bk_txs b) = Ok (with_self a s') ∧ caches D L0 s' (acc_self a)) as (s' & E & Hc') end.
  { clear H. match type of Ha with fold_res _ ?a0 _ = _ => change self with (acc_self a0) in Hc; revert Hc Ha; generalize a0 end.
    intros a0. clear Hn Hbm. revert a0 s Hi. induction (bk_txs b) as [|tx txs IH]; intros a0 s Hi Hc Ha; cbn [fold_res] in *.
    { injection Ha as <-. by exists s. }
    apply bind_Ok in Ha as (a1 & Ha1 & Ha). destruct (tx_cached b (saturating_add 64 (next_uid self) 1) n a0 tx a1 s Hc) as (s1 & E1 & Hc1); [|exact Ha1|].
    { intros i Hin. apply Hi. rewrite bind_cons. apply elem_of_app. by left. }
    rewrite E1. rsimpl. apply IH; [|done|done]. intros i Hin. apply Hi. rewrite bind_cons. apply elem_of_app. by right. }
  change (with_self _ s) with {| acc_self := s; acc_outputs := []; acc_spends := []; acc_skipped_txs := bm; acc_tweaks := [];
    acc_skipped_outputs := []; acc_stats := set_tx_count stats_default n; acc_created := []; acc_spent := [] |} in E.
  rewrite E. rsimpl. cbn [with_self acc_self acc_stats acc_outputs acc_spends acc_skipped_txs acc_tweaks acc_skipped_outputs acc_created acc_spent] in *.
  rewrite (ch_uid _ _ _ _ Hc').
  apply bind_Ok in H as (nx & Hnx & H). rewrite Hnx. rsimpl.
  apply bind_Ok in H as (two & H2 & H). rewrite H2. rsimpl. apply bind_Ok in H as (hu & Hh & H). rewrite Hh. rsimpl.
  apply bind_Ok in H as (lb & Hl & H). rewrite Hl. rsimpl. injection H as <- <-. eexists. split; [reflexivity|].
  by apply caches_next; [|apply Hc'].
Qed.
End cache.

(** ** Walking through a block *)

Definition out_point (p : TxScanInput * TxOutputScan) : OutPointKey := {| op_txid := tx_txid p.1; op_vout := to_vout p.2 |}.
(** The outpoints of the P2TR outputs of some transactions, and those their inputs name. *)
Definition points (txs : list TxScanInput) : list OutPointKey := out_point <$> p2tr_outs txs.
Definition named (txs : list TxScanInput) : list OutPointKey := ti_previous_output <$> (txs ≫= tx_inputs).

Lemma points_cons tx txs : points (tx :: txs) = (out_point <$> p2tr_of tx) ++ points txs.
Proof. unfold points, p2tr_outs. by rewrite bind_cons, fmap_app. Qed.
Lemma named_cons tx txs : named (tx :: txs) = (ti_previous_output <$> tx_inputs tx) ++ named txs.
Proof. unfold named. by rewrite bind_cons, fmap_app. Qed.
Lemma points_app txs txs' : points (txs ++ txs') = points txs ++ points txs'.
Proof. unfold points, p2tr_outs. by rewrite bind_app, fmap_app. Qed.
Lemma named_app txs txs' : named (txs ++ txs') = named txs ++ named txs'.
Proof. unfold named. by rewrite bind_app, fmap_app. Qed.

(** An assertion about the map and the records of a block, kept by every input and
    every output, holds for the result of the block. *)
Section walk.
Context (P : list OutPointKey → list OutPointKey → index_map → list CreatedScopedUtxo → list SpentScopedUtxo →
  list StoredOutputEntryInput → Prop).
Definition at_acc (ins pts : list OutPointKey) (a : BlockAcc) : Prop :=
  P ins pts (outpoint_to_spend (acc_self a)) (acc_created a) (acc_spent a) (acc_outputs a).
Context (b : BlockScanInput).
Context (Hin : ∀ ins pts a tx i a', at_acc ins pts a → apply_input b tx a i = Ok a' → at_acc (ins ++ [ti_previous_output i]) pts a').
Context (Hout : ∀ ins pts fu t tx o t', tx ∈ bk_txs b → o ∈ tx_outputs tx → at_acc ins pts (ta_acc t) → apply_output b fu tx t o = Ok t' →
  at_acc ins (pts ++ if to_is_p2tr o then [out_point (tx, o)] else []) (ta_acc t')).

Lemma walk_tx fu n ins pts a tx a' : tx ∈ bk_txs b → at_acc ins pts a → apply_tx b fu n a tx = Ok a' →
  at_acc (ins ++ (ti_previous_output <$> tx_inputs tx)) (pts ++ (out_point <$> p2tr_of tx)) a'.
Proof.
  intros Htx Ha H. unfold apply_tx in H. apply bind_Ok in H as (a1 & H1 & H). apply bind_Ok in H as (t & H2 & H).
  apply (fold_res_ind (apply_input b tx) (λ l, at_acc (ins ++ (ti_previous_output <$> l)) pts)) in H1.
  2:{ cbn. by rewrite app_nil_r. }
  2:{ intros l x s1 s2 Hs Hx. rewrite fmap_app, app_assoc. by eapply Hin. }
  set (ins' := ins ++ _) in *.
  assert (∀ os pts t0, (∀ o, o ∈ os → o ∈ tx_outputs tx) → fold_res (apply_output b fu tx) t0 os = Ok t →
    at_acc ins' pts (ta_acc t0) → at_acc ins' (pts ++ (out_point <$> (pair tx <$> filter (λ o, to_is_p2tr o = true) os))) (ta_acc t)) as Hos.
  { intros os. induction os as [|o os IH]; intros pts0 t0 Hsub Hf Ht; cbn [fold_res] in Hf.
    { injection Hf as <-. cbn. by rewrite app_nil_r. }
    apply bind_Ok in Hf as (t1 & Ht1 & Hf). apply (Hout _ _ _ _ _ _ _ Htx (Hsub o (list_elem_of_here _ _)) Ht) in Ht1.
    specialize (IH _ t1 (λ o' Ho, Hsub o' (list_elem_of_further _ _ _ Ho)) Hf Ht1). rewrite filter_cons.
    rewrite <-app_assoc in IH. by destruct (to_is_p2tr o). }
  specialize (Hos _ _ _ (λ _ H, H) H2 H1).
  assert (p2tr_of tx = pair tx <$> filter (λ o, to_is_p2tr o = true) (tx_outputs tx)) as -> by done.
  case_bool_decide; [|apply bind_Ok in H as (? & _ & H)].
  - destruct (tx_silent_payment_tweak tx); by injection H as <-.
  - by injection H as <-.
Qed.

Lemma walk_block `{SH : !Sha256} self out self' :
  P [] [] (outpoint_to_spend self) [] [] [] → apply_block_with_stats self b = Ok (out, self') →
  P (named (bk_txs b)) (points (bk_txs b)) (outpoint_to_spend self') (ab_created_utxos out) (ab_spent_utxos out)
    (sb_outputs (ab_storage_block out)).
Proof.
  intros H0 R. unfold apply_block_with_stats, finish_block in R.
  apply bind_Ok in R as (n & _ & R). apply bind_Ok in R as (bm & _ & R). apply bind_Ok in R as (a & Ha & R).
  do 4 (apply bind_Ok in R as (? & _ & R)). injection R as <- <-. cbn.
  match type of Ha with fold_res ?f _ _ = _ =>
    assert (∀ txs ins pts a0, (∀ tx, tx ∈ txs → tx ∈ bk_txs b) → fold_res f a0 txs = Ok a → at_acc ins pts a0 →
      at_acc (ins ++ named txs) (pts ++ points txs) a) as Hgen end.
  { induction txs as [|tx txs IH]; intros ins pts a0 Hsub Hf Hc; cbn [fold_res] in Hf.
    { injection Hf as <-. cbn. by rewrite !app_nil_r. }
    apply bind_Ok in Hf as (a1 & Ha1 & Hf). rewrite named_cons, points_cons, !app_assoc.
    apply (IH _ _ a1); [intros; apply Hsub; by right|done|].
    eapply walk_tx; [apply Hsub; left|exact Hc|exact Ha1]. }
  by apply (Hgen (bk_txs b) [] [] _ (λ _ H, H) Ha).
Qed.
End walk.

(** What an output step does. *)
Lemma output_step b fu tx t o t' : apply_output b fu tx t o = Ok t' →
  (outpoint_to_spend (acc_self (ta_acc t')) = outpoint_to_spend (acc_self (ta_acc t)) ∧
   acc_created (ta_acc t') = acc_created (ta_acc t) ∧ acc_spent (ta_acc t') = acc_spent (ta_acc t) ∧
   acc_outputs (ta_acc t') = acc_outputs (ta_acc t)) ∨
  to_is_p2tr o = true ∧ ∃ c e, ue_outpoint (cu_entry c) = out_point (tx, o) ∧ ue_created_height (cu_entry c) = bk_height b ∧
   ue_output_index (cu_entry c) = len (acc_outputs (ta_acc t)) ∧
   Some (ue_p2tr_xonly_key (cu_entry c)) = to_p2tr_xonly_key o ∧
   outpoint_to_spend (acc_self (ta_acc t')) = add_created (outpoint_to_spend (acc_self (ta_acc t))) c ∧
   acc_created (ta_acc t') = acc_created (ta_acc t) ++ [c] ∧ acc_spent (ta_acc t') = acc_spent (ta_acc t) ∧
   acc_outputs (ta_acc t') = acc_outputs (ta_acc t) ++ [e].
Proof.
  intros H. unfold apply_output in H. destruct (to_is_p2tr o) eqn:Hp; cbn [negb] in H; [|injection H as <-; by left].
  apply bind_Ok in H as (? & _ & H). apply bind_Ok in H as (? & _ & H). apply bind_Ok in H as (k & Hk & H).
  destruct (see_key _ _) as [seen re]. destruct (_ || _); [injection H as <-; by left|].
  apply bind_Ok in H as (? & _ & H). apply bind_Ok in H as (uid & _ & H).
  apply bind_Ok in H as (oi & [-> _]%try_from_Ok & [= <-]). right. split; [done|].
  eexists _, _. split_and!; [| | | | |reflexivity|reflexivity|reflexivity]; try reflexivity.
  unfold p2tr_output_identity in Hk. by apply ok_or_Ok in Hk as ->.
Qed.

(** What an input step does. *)
Lemma input_step b tx a i a' : apply_input b tx a i = Ok a' →
  acc_created a' = acc_created a ∧ acc_outputs a' = acc_outputs a ∧
  ((outpoint_to_spend (acc_self a) !! ti_previous_output i = None ∧
    outpoint_to_spend (acc_self a') = outpoint_to_spend (acc_self a) ∧ acc_spent a' = acc_spent a) ∨
   ∃ s x, outpoint_to_spend (acc_self a) !! ti_previous_output i = Some s ∧
    su_outpoint x = ti_previous_output i ∧ su_creation_height x = sl_creation_height s ∧
    su_output_index x = sl_output_index s ∧ su_spent_height x = bk_height b ∧
    outpoint_to_spend (acc_self a') = delete (ti_previous_output i) (outpoint_to_spend (acc_self a)) ∧
    acc_spent a' = acc_spent a ++ [x]).
Proof.
  unfold apply_input. destruct (outpoint_to_spend (acc_self a) !! ti_previous_output i) as [s|] eqn:E.
  - intros (h & _ & [= <-])%bind_Ok. split_and!; [done|done|]. right. eexists s, _. cbn.
    split_and!; [done| | | | |reflexivity|reflexivity]; done.
  - intros [= <-]. split_and!; [done|done|]. by left.
Qed.

(** ** The ledger of a block *)

(** The coin [s] at [o]: of the map before the block, or created in it. *)
Definition coin_of (m0 : index_map) (created : list CreatedScopedUtxo) (o : OutPointKey) (s : SpendLookup) : Prop :=
  m0 !! o = Some s ∨ ∃ c, c ∈ created ∧ ue_outpoint (cu_entry c) = o ∧ created_lookup c = s.
Abbreviation spend_all := (foldl (λ (m : index_map) x, delete (su_outpoint x) m)).

Record ledger (b : BlockScanInput) (m0 : index_map) (ins pts : list OutPointKey) (m : index_map)
    (created : list CreatedScopedUtxo) (spent : list SpentScopedUtxo) (outputs : list StoredOutputEntryInput) : Prop := {
  lg_source : ∀ o s, m !! o = Some s → coin_of m0 created o s;
  lg_created : ∀ c, c ∈ created → ue_outpoint (cu_entry c) ∈ pts ∧ ue_created_height (cu_entry c) = bk_height b ∧
    0 ≤ ue_output_index (cu_entry c) < len outputs;
  lg_spent : ∀ x, x ∈ spent → su_outpoint x ∈ ins ∧ su_spent_height x = bk_height b ∧
    ∃ s, coin_of m0 created (su_outpoint x) s ∧ su_creation_height x = sl_creation_height s ∧
         su_output_index x = sl_output_index s;
  lg_index : NoDup pts → (∀ o, o ∈ pts → m0 !! o = None) → m = spend_all (foldl add_created m0 created) spent;
  lg_other : ∀ o, o ∉ pts → (o ∈ ins → m !! o = None) ∧ (o ∉ ins → m !! o = m0 !! o)
}.

Lemma coin_of_mono m0 c1 c2 o s : c1 ⊆ c2 → coin_of m0 c1 o s → coin_of m0 c2 o s.
Proof. intros Hc [?|(c & ? & ?)]; [by left|right]. exists c. split; [by apply Hc|done]. Qed.

Lemma spend_all_insert m l o s : (∀ x, x ∈ l → su_outpoint x ≠ o) → <[o := s]> (spend_all m l) = spend_all (<[o := s]> m) l.
Proof.
  revert m. induction l as [|x l IH]; intros m Hl; [done|]. cbn [foldl]. rewrite IH by (intros y Hy; apply Hl; by right).
  by rewrite delete_insert_ne by (apply Hl; left).
Qed.

Lemma ledger_input b m0 ins pts a tx i a' :
  at_acc (ledger b m0) ins pts a → apply_input b tx a i = Ok a' →
  at_acc (ledger b m0) (ins ++ [ti_previous_output i]) pts a'.
Proof.
  unfold at_acc. intros [Hs Hc Hp Hi Ho] (Ec & Eo & [(En & Em & Es)|(s & x & En & E1 & E2 & E3 & E4 & Em & Es)])%input_step;
    rewrite ?Ec, ?Eo, ?Em, ?Es.
  - split; [done|done| |done|].
    + intros y Hy. destruct (Hp y Hy) as (? & ? & ?). rewrite elem_of_app. tauto.
    + intros o Hno. destruct (Ho o Hno) as [Ho1 Ho2]. rewrite elem_of_app, list_elem_of_singleton. split; [|tauto].
      intros [?| ->]; [by apply Ho1|done].
  - split.
    + intros o c [_ Hoc]%lookup_delete_Some. by apply Hs.
    + done.
    + intros y [Hy| ->%list_elem_of_singleton]%elem_of_app; rewrite elem_of_app.
      * destruct (Hp y Hy) as (? & ? & ?). tauto.
      * rewrite list_elem_of_singleton, E1. split_and!; [by right|done|]. exists s. split_and!; [by apply Hs|done|done].
    + intros Hn Hf. rewrite foldl_app. cbn [foldl]. by rewrite E1, <-Hi.
    + intros o Hno. destruct (Ho o Hno) as [Ho1 Ho2]. rewrite elem_of_app, list_elem_of_singleton, lookup_delete.
      case_decide as Ed; [subst o|].
      * split; [done|]. intros []. by right.
      * split; [|tauto]. intros [?| ->]; [by apply Ho1|done].
Qed.

Lemma ledger_output b m0 ins pts fu t tx o t' :
  at_acc (ledger b m0) ins pts (ta_acc t) → apply_output b fu tx t o = Ok t' →
  at_acc (ledger b m0) ins (pts ++ if to_is_p2tr o then [out_point (tx, o)] else []) (ta_acc t').
Proof.
  unfold at_acc. intros [Hs Hc Hp Hi Ho] [(Em & Ec & Es & Eo)|(Et & c & e & E1 & E2 & E3 & E4 & Em & Ec & Es & Eo)]%output_step;
    rewrite ?Ec, ?Eo, ?Em, ?Es.
  - set (new := if to_is_p2tr o then _ else _). split; [done| |done| |].
    + intros y Hy. rewrite elem_of_app. destruct (Hc y Hy) as (? & ?). tauto.
    + intros Hn Hf. apply Hi; [by apply NoDup_app in Hn as [? _]|]. intros o' Ho'. apply Hf, elem_of_app. by left.
    + intros o' Hno. apply Ho. rewrite elem_of_app in Hno. tauto.
  - rewrite Et. split.
    + intros o' s. unfold add_created. intros [[<- <-]|[_ Hm]]%lookup_insert_Some.
      * right. exists c. rewrite elem_of_app, list_elem_of_singleton. tauto.
      * eapply coin_of_mono; [|by apply Hs]. set_solver.
    + rewrite length_app. intros y [Hy| ->%list_elem_of_singleton]%elem_of_app; rewrite elem_of_app.
      * destruct (Hc y Hy) as (? & ? & ?). split_and!; [by left|done|lia|lia].
      * rewrite E1, E2, E3. simpl length. split_and!; [right; by apply list_elem_of_singleton|done|lia|lia].
    + intros y Hy. destruct (Hp y Hy) as (? & ? & s & Hcs & ?). split_and!; [done|done|]. exists s. split; [|done].
      eapply coin_of_mono; [|exact Hcs]. set_solver.
    + intros Hn Hf. apply NoDup_app in Hn as (Hn & Hdis & _).
      rewrite Hi by (done || (intros; apply Hf, elem_of_app; by left)).
      unfold add_created at 1. rewrite foldl_app. cbn [foldl]. unfold add_created at 2. apply spend_all_insert.
      intros x Hx Ex. destruct (Hp x Hx) as (_ & _ & s & [Hms|(c' & Hc' & Ec' & _)] & _).
      * rewrite Ex, E1, Hf in Hms; [done|]. apply elem_of_app. right. by apply list_elem_of_singleton.
      * destruct (Hc c' Hc') as (Hin & _). rewrite Ec', Ex, E1 in Hin. apply (Hdis _ Hin). by apply list_elem_of_singleton.
    + intros o' Hno. rewrite elem_of_app, list_elem_of_singleton in Hno. unfold add_created.
      rewrite lookup_insert_ne by (intros <-; rewrite E1 in Hno; tauto). apply Ho. tauto.
Qed.

Lemma ledger_block `{SH : !Sha256} self b out self' : apply_block_with_stats self b = Ok (out, self') →
  ledger b (outpoint_to_spend self) (named (bk_txs b)) (points (bk_txs b)) (outpoint_to_spend self')
    (ab_created_utxos out) (ab_spent_utxos out) (sb_outputs (ab_storage_block out)).
Proof.
  apply (walk_block (ledger b (outpoint_to_spend self)) b).
  - intros. by eapply ledger_input.
  - intros. by eapply ledger_output.
  - split.
    + intros o s Hs. by left.
    + by intros c ?%not_elem_of_nil.
    + by intros c ?%not_elem_of_nil.
    + done.
    + intros o _. split; [by intros ?%not_elem_of_nil|done].
Qed.

(** ** The ledger of a chain *)
Section chain.
Context `{SH : !Sha256}.

Definition txs_of (blocks : list BlockScanInput) : list TxScanInput := blocks ≫= bk_txs.
Lemma txs_of_cons b blocks : txs_of (b :: blocks) = bk_txs b ++ txs_of blocks.
Proof. done. Qed.
Lemma txs_of_app bs1 bs2 : txs_of (bs1 ++ bs2) = txs_of bs1 ++ txs_of bs2.
Proof. apply bind_app. Qed.
(** Created by some of the blocks. *)
Definition created_in (outs : list AppliedBlock) (o : OutPointKey) (s : SpendLookup) : Prop :=
  ∃ out c, out ∈ outs ∧ c ∈ ab_created_utxos out ∧ ue_outpoint (cu_entry c) = o ∧ created_lookup c = s.

(** The records of a block's result. *)
Definition recorded (b : BlockScanInput) (out : AppliedBlock) : Prop :=
  (∀ c, c ∈ ab_created_utxos out → ue_outpoint (cu_entry c) ∈ points (bk_txs b) ∧ ue_created_height (cu_entry c) = bk_height b ∧
     0 ≤ ue_output_index (cu_entry c) < len (sb_outputs (ab_storage_block out))) ∧
  (∀ x, x ∈ ab_spent_utxos out → su_outpoint x ∈ named (bk_txs b) ∧ su_spent_height x = bk_height b).

Record chain_ledger (m0 : index_map) (blocks : list BlockScanInput) (outs : list AppliedBlock) (m : index_map) : Prop := {
  cl_recorded : Forall2 recorded blocks outs;
  cl_source : ∀ o s, m !! o = Some s → m0 !! o = Some s ∨ created_in outs o s;
  cl_spent : ∀ out x, out ∈ outs → x ∈ ab_spent_utxos out →
    ∃ s, (m0 !! su_outpoint x = Some s ∨ created_in outs (su_outpoint x) s) ∧
         su_creation_height x = sl_creation_height s ∧ su_output_index x = sl_output_index s;
  cl_index : NoDup (points (txs_of blocks)) → (∀ o, o ∈ points (txs_of blocks) → m0 !! o = None) → m = foldl index_block m0 outs;
  cl_other : ∀ o, o ∉ points (txs_of blocks) →
    (o ∈ named (txs_of blocks) → m !! o = None) ∧ (o ∉ named (txs_of blocks) → m !! o = m0 !! o)
}.

Lemma ledger_chain self blocks outs self' : apply_blocks self blocks = Ok (outs, self') →
  chain_ledger (outpoint_to_spend self) blocks outs (outpoint_to_spend self').
Proof.
  revert self outs. induction blocks as [|b blocks IH]; intros self outs H; cbn [apply_blocks] in H.
  { injection H as <- <-. split; [constructor|by left|by intros ? ? ?%not_elem_of_nil|done|].
    intros o _. split; [by intros ?%not_elem_of_nil|done]. }
  apply bind_Ok in H as ([out self1] & Hb & H). apply bind_Ok in H as ([outs' self2] & Hbs & [= <- <-]).
  pose proof (ledger_block self b out self1 Hb) as [Hs Hc Hp Hi Ho]. destruct (IH self1 outs' Hbs) as [Hr1 Hs1 Hp1 Hi1 Ho1].
  assert (Hcons : ∀ o s, created_in outs' o s → created_in (out :: outs') o s).
  { intros o s (out' & c & ? & ?). exists out', c. split; [by right|done]. }
  assert (Hsrc : ∀ o s, coin_of (outpoint_to_spend self) (ab_created_utxos out) o s →
    outpoint_to_spend self !! o = Some s ∨ created_in (out :: outs') o s).
  { intros o s [?|(c & ? & ? & ?)]; [by left|right]. exists out, c. split_and!; [left|done..]. }
  split.
  - constructor; [|done]. split; [done|]. intros x Hx. destruct (Hp x Hx) as (? & ? & _). done.
  - intros o s [?%Hs%Hsrc|?%Hcons]%Hs1; [done|by right].
  - intros out' x [->|Hout]%elem_of_cons Hx.
    + destruct (Hp x Hx) as (_ & _ & s & Hcs & ?). exists s. split; [by apply Hsrc|done].
    + destruct (Hp1 out' x Hout Hx) as (s & [?%Hs%Hsrc|?%Hcons] & ?); exists s; (split; [done || by right|done]).
  - rewrite txs_of_cons, points_app. intros Hn Hf. apply NoDup_app in Hn as (Hn & Hd & Hn'). cbn [foldl].
    rewrite Hi1; [f_equal; apply Hi; [done|]|done|].
    + intros o Hin. apply Hf, elem_of_app. by left.
    + intros o Hin. destruct (outpoint_to_spend self1 !! o) as [s|] eqn:E; [|done]. exfalso.
      apply Hs in E as [E|(c & Hcc & <- & _)].
      * rewrite Hf in E; [done|]. apply elem_of_app. by right.
      * by apply (Hd (ue_outpoint (cu_entry c))); [apply Hc|].
  - intros o. rewrite txs_of_cons, points_app, named_app, !elem_of_app. intros Hno.
    destruct (Ho o) as [Ha Hb']; [tauto|]. destruct (Ho1 o) as [Ha1 Hb1]; [tauto|]. split.
    + intros [Hin|Hin]; [|by apply Ha1]. destruct (decide (o ∈ named (txs_of blocks))) as [|Hnin]; [by apply Ha1|].
      rewrite Hb1 by done. by apply Ha.
    + intros Hnin. rewrite Hb1 by tauto. apply Hb'. tauto.
Qed.

(** A cache that agrees on the inputs of the chain gives the same results. *)
Lemma blocks_cached D L0 self blocks outs self' s :
  caches D L0 s self → (∀ o, o ∈ named (txs_of blocks) → o ∈ D) → apply_blocks self blocks = Ok (outs, self') →
  ∃ s', apply_blocks s blocks = Ok (outs, s') ∧ caches D L0 s' self'.
Proof.
  revert self outs s. induction blocks as [|b blocks IH]; intros self outs s Hc Hi H; cbn [apply_blocks] in *.
  { injection H as <- <-. by exists s. }
  apply bind_Ok in H as ([out self1] & Hb & H). apply bind_Ok in H as ([outs' self2] & Hbs & [= <- <-]).
  rewrite txs_of_cons, named_app in Hi. setoid_rewrite elem_of_app in Hi.
  destruct (block_cached D L0 self b out self1 s Hc) as (s1 & -> & Hc1); [|done|].
  { intros i Hin. apply Hi. left. unfold named. by apply list_elem_of_fmap_2. }
  rsimpl. destruct (IH self1 outs' s1 Hc1) as (s2 & -> & Hc2); [|done|by exists s2].
  intros o Ho. apply Hi. by right.
Qed.

Lemma apply_blocks_app self bs1 bs2 outs self' : apply_blocks self (bs1 ++ bs2) = Ok (outs, self') ↔
  ∃ outs1 self1 outs2, apply_blocks self bs1 = Ok (outs1, self1) ∧ apply_blocks self1 bs2 = Ok (outs2, self') ∧ outs = outs1 ++ outs2.
Proof.
  revert self outs self'. induction bs1 as [|b bs1 IH]; intros self outs self'; cbn [app apply_blocks].
  { split; [intros H; by exists [], self, outs|]. intros (? & ? & outs2 & [= <- <-] & ? & ->). done. }
  split.
  - intros ([out self1] & Hb & ([outs' self2] & (o1 & s1 & o2 & H1 & H2 & ->)%IH & [= <- <-])%bind_Ok)%bind_Ok.
    exists (out :: o1), s1, o2. rewrite Hb. rsimpl. by rewrite H1.
  - intros (o1 & s1 & o2 & ([out self1] & Hb & ([outs' self2] & H1 & [= <- <-])%bind_Ok)%bind_Ok & H2 & ->).
    rewrite Hb. rsimpl. assert (apply_blocks self1 (bs1 ++ bs2) = Ok (outs' ++ o2, self')) as ->; [|done].
    apply IH. by exists outs', self2, o2.
Qed.
End chain.
