(* ===== verification/Profile.v ===== *)
(** * Archive networks

    Model of [light-server/src/profile.rs]. *)

From S2P Require Import Prelude Decimal.

Definition MAINNET_TAPROOT_ACTIVATION_HEIGHT : Z := 709632.
Definition TESTNET_TAPROOT_ACTIVATION_HEIGHT : Z := 2011968.

Inductive ArchiveNetwork := Mainnet | Testnet | Signet | Regtest | Fixture.
Definition network_default : ArchiveNetwork := Mainnet.

Definition network_as_str (self : ArchiveNetwork) : bytes :=
  ascii_bytes match self with
  | Mainnet => "mainnet" | Testnet => "testnet" | Signet => "signet" | Regtest => "regtest" | Fixture => "fixture"
  end.

Definition default_start_height (self : ArchiveNetwork) : Z :=
  match self with
  | Mainnet => MAINNET_TAPROOT_ACTIVATION_HEIGHT
  | Testnet => TESTNET_TAPROOT_ACTIVATION_HEIGHT
  | Signet | Regtest | Fixture => 0
  end.

(** [str::to_ascii_lowercase] on the bytes of the string. *)
Definition to_ascii_lowercase (s : bytes) : bytes := (λ c, if bool_decide (65 ≤ c ≤ 90) then c + 32 else c) <$> s.
Definition network_from_str (s : bytes) : res ArchiveNetwork :=
  let l := to_ascii_lowercase s in
  if bool_decide (l = ascii_bytes "mainnet") || bool_decide (l = ascii_bytes "bitcoin") then Ok Mainnet
  else if bool_decide (l = ascii_bytes "testnet") || bool_decide (l = ascii_bytes "test") then Ok Testnet
  else if bool_decide (l = ascii_bytes "signet") then Ok Signet
  else if bool_decide (l = ascii_bytes "regtest") then Ok Regtest
  else if bool_decide (l = ascii_bytes "fixture") then Ok Fixture
  else Err "unknown archive network".

(** Printing a network and parsing it back. *)
Lemma network_str_roundtrip n : network_from_str (network_as_str n) = Ok n.
Proof. by destruct n. Qed.
