(* ===== verification/LightIndexer.v ===== *)
(** * The indexer binary

    Model of [light-server/src/bin/light_indexer.rs]: decoding a block with its undo
    data, fetching a chunk, the catch-up over a range of heights, and the loop of the
    [run] command.  The state on disk is the archive and the database; an outcome
    that fails after a write keeps what was written.

    rust-bitcoin ([RustBitcoin]), the capnp packing, serde_json, hex, the database, the
    curve and the hashes are parameters.  Decoding runs one task per frame: the order in
    which the tasks complete is the parameter [Scheduler], any permutation; a panic in a
    task becomes an error.  Logging, timing and the counters that are only logged are
    not modelled.  Heights are [u64] and sizes [usize]: unchecked sums wrap. *)

From S2P Require Import Prelude Decimal Helper TaggedHash LightBlock LightWire UndoPayload P2trIndexer ScriptClassify SpTweak Kv IndexStore ArchiveBackend FileArchive JsonWire Profile Sources Tasks.

Definition DEFAULT_CATCHUP_BATCH_SIZE : Z := 16.
Definition DEFAULT_FLUSH_BLOCKS : Z := 128.
Definition DEFAULT_MEMORY_BUDGET_MB : Z := 4096.
Definition mb_to_bytes (mb : Z) : Z := saturating_mul 64 (saturating_mul 64 mb 1024) 1024.
Definition ESTIMATED_PENDING_RAW_MULTIPLIER : Z := 4.
Definition ESTIMATED_PENDING_PAYLOAD_MULTIPLIER : Z := 2.
Definition ESTIMATED_PENDING_BLOCK_OVERHEAD_BYTES : Z := 64 * 1024.
Definition estimate_pending_memory_bytes (processed_raw_bytes pending_payload_bytes pending_blocks : Z) : Z :=
  saturating_add 64
    (saturating_add 64 (saturating_mul 64 processed_raw_bytes ESTIMATED_PENDING_RAW_MULTIPLIER)
                       (saturating_mul 64 pending_payload_bytes ESTIMATED_PENDING_PAYLOAD_MULTIPLIER))
    (saturating_mul 64 pending_blocks ESTIMATED_PENDING_BLOCK_OVERHEAD_BYTES).

(** ** What the indexer reads of rust-bitcoin's types *)
Record TxIn := { in_txid : bytes; in_vout : Z; in_script_sig : bytes; in_witness : list bytes }.
Record TxOut := { out_value : Z; out_script_pubkey : bytes }.
Class RustBitcoin := {
  BtcBlock : Type;
  Transaction : Type;
  deserialize : bytes → res BtcBlock;
  rb_block_hash : BtcBlock → bytes;
  rb_prev_blockhash : BtcBlock → bytes;
  rb_txdata : BtcBlock → list Transaction;
  compute_txid : Transaction → bytes;
  rb_input : Transaction → list TxIn;
  rb_output : Transaction → list TxOut;
  rb_is_coinbase : Transaction → bool
}.

(** [dedup_by]: drops an element equal to the one kept before it. *)
Fixpoint dedup {A} `{!EqDecision A} (l : list A) : list A :=
  match l with
  | [] => []
  | x :: t => match t with
              | [] => [x]
              | y :: _ => if bool_decide (x = y) then dedup t else x :: dedup t
              end
  end.

Definition outpoint_le (a b : OutPointKey) : bool :=
  if bool_decide (op_txid a = op_txid b) then bool_decide (op_vout a ≤ op_vout b) else lex_le (op_txid a) (op_txid b).

(** A spawned task: its panic is the error of [join]. *)
Definition join_task {A} (r : res A) : res A := match r with Panic _ => Err "decode worker failed" | r => r end.

Section indexer.
Context `{!RustBitcoin, !Scheduler, !Secp, !Hash160, !ScriptTemplates, !Sha256, !KvStore,
          !CapnpPacked light_block, !CapnpPacked stored_light_block, !ManifestJson, !Hex}.

(** ** Decoding a block *)

Definition prevout_info_from_spent_txout (prevout : SpentTxOut) : res PrevoutInfo :=
  kind ← classify_script (script_pubkey prevout);
  script ← match kind with
           | KP2pkh h => Ok (PP2pkh h)
           | KP2sh h => Ok (PP2sh h)
           | KP2wpkh h => Ok (PP2wpkh h)
           | KP2tr k => x ← ok_or (xonly_from_slice k) "malformed public key"; Ok (PP2tr x)
           | KWitnessUnknown version _ => Ok (if bool_decide (2 ≤ version) then PWitnessUnknown version else POther)
           | KP2wsh _ | KOpReturn | KOther => Ok POther
           end;
  Ok {| script := script |}.

Definition compute_sp_tweak_from_undo (tx_index : nat) (inputs : list TxInputScan) (outputs : list TxOutputScan)
    (spent_txouts : option BlockSpentTxOuts) : res (option bytes) :=
  if negb (existsb to_is_p2tr outputs) then Ok None
  else if bool_decide (tx_index = 0%nat) then Ok None
  else
    spent_txouts ← ok_or spent_txouts "missing spenttxouts undo data";
    undo_inputs ← ok_or (undo_txs spent_txouts !! tx_index) "spenttxouts missing undo tx entry";
    _ ← ensure (bool_decide (length undo_inputs = length inputs)) "spenttxouts input count mismatch";
    input_context ← map_res (λ '(input, prevout),
      info ← prevout_info_from_spent_txout prevout;
      Ok {| previous_output := ti_previous_output input; script_sig := ti_script_sig input;
            witness := ti_witness input; prevout := Some info |}) (zip inputs undo_inputs);
    status ← compute_tx_scan_point input_context;
    Ok (match status with Computed tweak => Some tweak | Ineligible _ | MissingPrevout _ => None end).

Definition scan_input (input : TxIn) : TxInputScan := {|
  ti_previous_output := {| op_txid := in_txid input; op_vout := in_vout input |};
  ti_script_sig := in_script_sig input; ti_witness := in_witness input |}.
(** The loop body over the outputs, at position [vout]. *)
Definition scan_output (vout : nat) (output : TxOut) : res TxOutputScan :=
  vout ← try_from 32 (Z.of_nat vout);
  p2tr_key ← extract_p2tr_xonly (out_script_pubkey output);
  Ok {| to_vout := vout; to_value_sat := out_value output; to_script_pubkey := out_script_pubkey output;
        to_p2tr_xonly_key := p2tr_key; to_is_p2tr := bool_decide (is_Some p2tr_key); to_is_nums := false |}.
Definition scan_tx (spent_txouts : option BlockSpentTxOuts) (tx_index : nat) (tx : Transaction) : res TxScanInput :=
  let txid := compute_txid tx in
  let inputs := scan_input <$> rb_input tx in
  outputs ← map_res (λ '(vout, output), scan_output vout output) (imap pair (rb_output tx));
  silent_payment_tweak ← compute_sp_tweak_from_undo tx_index inputs outputs spent_txouts;
  Ok {| tx_txid := txid; tx_tx_index := wrap 16 (Z.of_nat tx_index); tx_inputs := inputs; tx_outputs := outputs;
        tx_silent_payment_tweak := silent_payment_tweak |}.

Definition decode_block_frame (height : Z) (source_hash bs : bytes) (spent_txouts : option BlockSpentTxOuts) : res BlockScanInput :=
  block ← deserialize bs;
  _ ← ensure (bool_decide (rb_block_hash block = source_hash)) "source hash mismatch";
  txs ← map_res (λ '(tx_index, tx), scan_tx spent_txouts tx_index tx) (imap pair (rb_txdata block));
  raw_block_bytes ← try_from 32 (len bs);
  Ok {| bk_height := height; bk_block_hash := source_hash; bk_previous_block_hash := rb_prev_blockhash block;
        bk_raw_block_bytes := raw_block_bytes; bk_txs := txs |}.

(** ** Fetching a chunk *)

Record DecodedChunk := { dc_blocks : list BlockScanInput; dc_raw_bytes : Z }.

Definition set_undo (undo : option BlockSpentTxOuts) (f : RawBlockFrame) : RawBlockFrame :=
  {| rf_height := rf_height f; rf_hash := rf_hash f; rf_bytes := rf_bytes f; rf_spent_txouts := undo |}.
Definition missing_undo (frames : list RawBlockFrame) : list (nat * bytes) :=
  omap (λ '(i, f), match rf_spent_txouts f with None => Some (i, rf_hash f) | Some _ => None end) (imap pair frames).
(** Undo data for the frames that lack it. *)
Definition attach_undo (undo_source : BlockSource) (frames : list RawBlockFrame) : res (list RawBlockFrame) :=
  let missing := missing_undo frames in
  if bool_decide (missing = []) then Ok frames
  else
    fetched ← get_blocks_spent_txouts undo_source (missing.*2);
    _ ← ensure (bool_decide (length fetched = length missing)) "undo source returned too few spenttxouts entries";
    Ok (foldl (λ frames '((i, _), undo), alter (set_undo undo) i frames) frames (zip missing fetched)).

Definition decode_task (f : RawBlockFrame) : res BlockScanInput :=
  spent_txouts ← ok_or (rf_spent_txouts f) "undo source did not return spenttxouts";
  join_task (decode_block_frame (rf_height f) (rf_hash f) (rf_bytes f) (Some spent_txouts)).

Definition height_le (a b : BlockScanInput) : bool := bool_decide (bk_height a ≤ bk_height b).

Definition fetch_and_decode_chunk (source undo_source : BlockSource) (chunk_start : Z) (chunk_count : nat) : res DecodedChunk :=
  frames ← get_block_range_by_height source chunk_start chunk_count;
  _ ← ensure (bool_decide (length frames ≠ 0)%nat) "source returned an empty block range";
  frames ← attach_undo undo_source frames;
  let raw_bytes := foldl (λ acc f, wrap 64 (acc + len (rf_bytes f))) 0 frames in
  blocks ← map_res id (completion (decode_task <$> frames));
  Ok {| dc_blocks := sort_by height_le blocks; dc_raw_bytes := raw_bytes |}.

(** The checks on a pair of neighbours. *)
Fixpoint validate_links (prev : BlockScanInput) (rest : list BlockScanInput) : res unit :=
  match rest with
  | [] => Ok tt
  | current :: rest =>
      _ ← ensure (bool_decide (bk_height current = wrap 64 (bk_height prev + 1))) "decoded block heights are not contiguous";
      _ ← ensure (bool_decide (bk_previous_block_hash current = bk_block_hash prev)) "decoded block does not connect";
      validate_links current rest
  end.
Definition validate_decoded_chunk (decoded : list BlockScanInput) (expected_start_height : Z)
    (expected_previous_hash : option bytes) : res unit :=
  match decoded with
  | [] => Err "decoded block chunk is empty"
  | first :: rest =>
      _ ← ensure (bool_decide (bk_height first = expected_start_height)) "decoded block chunk starts at another height";
      _ ← match expected_previous_hash with
          | Some h => ensure (bool_decide (bk_previous_block_hash first = h)) "decoded block does not connect to previous chunk tip"
          | None => Ok tt
          end;
      validate_links first rest
  end.

Definition lookup_spend_uids_for_chunk (index_store : Db) (state : P2trIndexerState) (decoded : list BlockScanInput)
    : res (P2trIndexerState * list OutPointKey) :=
  let outpoints : list OutPointKey := base.filter (λ o, negb (is_coinbase o) && negb (contains_outpoint state o) = true)
    (ti_previous_output <$> ((decoded ≫= bk_txs) ≫= tx_inputs) : list OutPointKey) in
  let outpoints := dedup (sort_by outpoint_le outpoints) in
  if bool_decide (outpoints = []) then Ok (state, [])
  else
    found ← lookup_outpoint_uids index_store outpoints;
    Ok (cache_spend_uid_candidates state found).

(** ** Catching up *)

Record CatchUpConfig := {
  emit_start_height : Z; cu_finality_depth : Z; fetch_batch_size : Z; flush_blocks : Z; memory_budget_bytes : Z
}.
Record Pending := { pd_applied : AppliedBlock; pd_payload : bytes }.
(** The variables of the loop over the chunks. *)
Record ChunkState := {
  cs_state : P2trIndexerState; cs_pending : list Pending; cs_last : option (Z * bytes);
  cs_previous_tip_hash : option bytes; cs_processed_raw_bytes : Z; cs_pending_payload_bytes : Z; cs_chunk_start : Z
}.

(** The serial, ordered apply. *)
Definition apply_scan (emit_start : Z) (acc : P2trIndexerState * list Pending * Z) (scan : BlockScanInput)
    : res (P2trIndexerState * list Pending * Z) :=
  let '(state, pending, payload_bytes) := acc in
  if bool_decide (emit_start ≤ bk_height scan) then
    '(applied, state) ← apply_block_with_stats state scan;
    message ← encode_stored_light_block (ab_storage_block applied);
    payload ← to_packed_bytes message;
    Ok (state, pending ++ [{| pd_applied := applied; pd_payload := payload |}], saturating_add 64 payload_bytes (len payload))
  else Ok acc.

(** One pass of the loop: the new variables, and whether the memory budget ends it. *)
Definition chunk_step (index_store : Db) (source undo_source : BlockSource) (config : CatchUpConfig)
    (flush_end_height : Z) (c : ChunkState) : res (ChunkState * bool) :=
  let chunk_remaining := wrap 64 (wrap 64 (flush_end_height - cs_chunk_start c) + 1) in
  let chunk_count := Z.to_nat (Z.min chunk_remaining (fetch_batch_size config)) in
  chunk ← fetch_and_decode_chunk source undo_source (cs_chunk_start c) chunk_count;
  let processed := wrap 64 (cs_processed_raw_bytes c + dc_raw_bytes chunk) in
  let decoded := dc_blocks chunk in
  _ ← validate_decoded_chunk decoded (cs_chunk_start c) (cs_previous_tip_hash c);
  chunk_last ← expect (last decoded) "non-empty";
  '(state, rocksdb_spend_outpoints) ← lookup_spend_uids_for_chunk index_store (cs_state c) decoded;
  '(state, pending, payload_bytes) ←
    fold_res (apply_scan (emit_start_height config)) (state, cs_pending c, cs_pending_payload_bytes c) decoded;
  let '(state, _) := evict_spend_uid_candidates state rocksdb_spend_outpoints in
  let chunk_start := wrap 64 (bk_height chunk_last + 1) in
  let c := {| cs_state := state; cs_pending := pending; cs_last := Some (bk_height chunk_last, bk_block_hash chunk_last);
              cs_previous_tip_hash := Some (bk_block_hash chunk_last); cs_processed_raw_bytes := processed;
              cs_pending_payload_bytes := payload_bytes; cs_chunk_start := chunk_start |} in
  Ok (c, bool_decide (0 < memory_budget_bytes config) && bool_decide (chunk_start ≤ flush_end_height) &&
         bool_decide (memory_budget_bytes config ≤ estimate_pending_memory_bytes processed payload_bytes (len pending))).

(** The loop.  Every pass moves [chunk_start] up: [fuel] passes are enough for [fuel]
    heights. *)
Fixpoint chunk_loop (fuel : nat) (index_store : Db) (source undo_source : BlockSource) (config : CatchUpConfig)
    (flush_end_height : Z) (c : ChunkState) : res ChunkState :=
  if bool_decide (cs_chunk_start c ≤ flush_end_height) then
    match fuel with
    | O => Panic "out of fuel"
    | S fuel =>
        '(c, stop) ← chunk_step index_store source undo_source config flush_end_height c;
        if (stop : bool) then Ok c else chunk_loop fuel index_store source undo_source config flush_end_height c
    end
  else Ok c.

Definition display_hash (hash : bytes) : bytes := hex_encode (reverse hash).

Definition write_payloads (file_archive : FileArchive) (pending : list Pending) : FileArchive :=
  foldl (λ fs p, write_block_bytes fs (lb_height (ab_light_block (pd_applied p))) (pd_payload p)) file_archive pending.
Definition pending_spends (pending : list Pending) : list (Z * Z * Z) :=
  pending ≫= λ p, (λ spent, (su_creation_height spent, su_output_index spent, su_spent_height spent)) <$> ab_spent_utxos (pd_applied p).
Definition catch_up_manifest (network : ArchiveNetwork) (config : CatchUpConfig) (last_height : Z) (last_hash : bytes) : Manifest := {|
  version := WIRE_VERSION; ArchiveBackend.network := network_as_str network; genesis_hash := None;
  finality_depth := cu_finality_depth config; suggested_reorg_cache_depth := Z.max (cu_finality_depth config) 144;
  max_range_count := DEFAULT_MAX_RANGE_COUNT; mf_tip := Some {| height := last_height; block_hash := display_hash last_hash |} |}.

(** Stage 3, after the loop: the files, the marks, the commit, the manifest. *)
Definition flush_pending (file_archive : FileArchive) (index_store : Db) (network : ArchiveNetwork) (config : CatchUpConfig)
    (c : ChunkState) : FileArchive * Db * res (Z * P2trIndexerState) :=
  match cs_last c with
  | None => (file_archive, index_store, Panic "last height set")
  | Some (last_height, last_hash) =>
      let file_archive := write_payloads file_archive (cs_pending c) in
      let '(file_archive, marked) := mark_spent_outputs file_archive (pending_spends (cs_pending c)) in
      match marked with
      | Ok _ =>
          match commit_applied_blocks index_store (pd_applied <$> cs_pending c) last_height last_hash (last_uid (cs_state c)) with
          | Ok index_store =>
              (write_manifest file_archive (catch_up_manifest network config last_height last_hash), index_store,
               Ok (wrap 64 (last_height + 1), cs_state c))
          | Err e => (file_archive, index_store, Err e)
          | Panic p => (file_archive, index_store, Panic p)
          end
      | Err e => (file_archive, index_store, Err e)
      | Panic p => (file_archive, index_store, Panic p)
      end
  end.

Definition catch_up_ranges (file_archive : FileArchive) (index_store : Db) (network : ArchiveNetwork)
    (source undo_source : BlockSource) (state : P2trIndexerState) (config : CatchUpConfig) (start_height finalized_tip : Z)
    : FileArchive * Db * res (Z * P2trIndexerState) :=
  let remaining := wrap 64 (wrap 64 (finalized_tip - start_height) + 1) in
  let flush_count := Z.min remaining (flush_blocks config) in
  let flush_end_height := wrap 64 (wrap 64 (start_height + flush_count) - 1) in
  match (previous_tip_hash ← previous_tip_hash index_store;
         chunk_loop (Z.to_nat (flush_end_height + 1 - start_height)) index_store source undo_source config flush_end_height
           {| cs_state := state; cs_pending := []; cs_last := None; cs_previous_tip_hash := previous_tip_hash;
              cs_processed_raw_bytes := 0; cs_pending_payload_bytes := 0; cs_chunk_start := start_height |}) with
  | Ok c => flush_pending file_archive index_store network config c
  | Err e => (file_archive, index_store, Err e)
  | Panic p => (file_archive, index_store, Panic p)
  end.

(** ** The [run] command *)

(** Before the loop: the metadata, the restored state and the next height. *)
Definition run_start (index_store : Db) (undo_source : BlockSource) (network : ArchiveNetwork)
    (emit_start catchup_batch_size flush_count : Z) : Db * res (P2trIndexerState * Z) :=
  match (_ ← ensure (bool_decide (0 < catchup_batch_size)) "catchup_batch_size must be greater than zero";
         _ ← ensure (bool_decide (0 < flush_count)) "flush_blocks must be greater than zero";
         ensure (supports_block_spent_txouts undo_source) "light-indexer requires a REST undo source") with
  | Ok _ =>
      let '(index_store, meta) := ensure_meta index_store (network_as_str network) emit_start in
      (index_store,
       (_ ← meta;
        t ← tip index_store;
        Ok (restore_at_uid (default 0 (it_last_uid <$> t)), default emit_start ((λ t, wrap 64 (it_height t + 1)) <$> t))))
  | Err e => (index_store, Err e)
  | Panic p => (index_store, Panic p)
  end.

(** One pass of the loop, over the source as it is then. *)
Definition run_pass (file_archive : FileArchive) (index_store : Db) (network : ArchiveNetwork) (source undo_source : BlockSource)
    (config : CatchUpConfig) (state : P2trIndexerState) (chain_next_height : Z) : FileArchive * Db * res (Z * P2trIndexerState) :=
  match (best_height ← get_best_height source; _ ← get_block_hash source best_height; Ok best_height) with
  | Ok best_height =>
      let finalized_tip := saturating_sub best_height (cu_finality_depth config) in
      if bool_decide (chain_next_height ≤ finalized_tip) then
        catch_up_ranges file_archive index_store network source undo_source state config chain_next_height finalized_tip
      else (file_archive, index_store, Ok (chain_next_height, state))
  | Err e => (file_archive, index_store, Err e)
  | Panic p => (file_archive, index_store, Panic p)
  end.

(** The loop: one pass per element, each over the sources as they are then; the first
    error ends the command.  Between two passes that find nothing to do the command waits
    for a new tip ([Sources.wait_for_tip_change]); it never stops otherwise ([once] is a
    list of one element). *)
Fixpoint run_passes (file_archive : FileArchive) (index_store : Db) (network : ArchiveNetwork) (config : CatchUpConfig)
    (state : P2trIndexerState) (chain_next_height : Z) (passes : list (BlockSource * BlockSource))
    : FileArchive * Db * res (Z * P2trIndexerState) :=
  match passes with
  | [] => (file_archive, index_store, Ok (chain_next_height, state))
  | (source, undo_source) :: passes =>
      match run_pass file_archive index_store network source undo_source config state chain_next_height with
      | (file_archive, index_store, Ok (next, state)) => run_passes file_archive index_store network config state next passes
      | r => r
      end
  end.

Definition run_command (file_archive : FileArchive) (index_store : Db) (network : ArchiveNetwork) (undo_source : BlockSource)
    (finality_depth catchup_batch_size flush_count memory_budget_mb : Z) (passes : list (BlockSource * BlockSource))
    : FileArchive * Db * res (Z * P2trIndexerState) :=
  let emit_start := default_start_height network in
  match run_start index_store undo_source network emit_start catchup_batch_size flush_count with
  | (index_store, Ok (state, next)) =>
      run_passes file_archive index_store network
        {| emit_start_height := emit_start; cu_finality_depth := finality_depth; fetch_batch_size := catchup_batch_size;
           flush_blocks := flush_count; memory_budget_bytes := mb_to_bytes memory_budget_mb |} state next passes
  | (index_store, Err e) => (file_archive, index_store, Err e)
  | (index_store, Panic p) => (file_archive, index_store, Panic p)
  end.

End indexer.
