(* ===== verification/LightIndexerFacts.v ===== *)
(** * The indexer binary: lemmas

    Sorting and looking up the inputs of a chunk, the checks on a chunk, and the pass
    over one chunk related to the indexer with all coins in memory; the line logged for
    a range. *)

From S2P Require Import Prelude Bits Helper UndoPayload Bitmap SpentIds TaggedHash OutputHash LightBlock LightValid CutThrough LightWire P2trIndexer P2trFacts Indexer ScriptClassify SpTweak Decimal Kv IndexStore Tasks ArchiveBackend FileArchive JsonWire Sources IndexerCache Profile LightIndexer.

(** ** Sorting *)

Lemma dedup_cons {A} `{!EqDecision A} (a b : A) l :
  dedup (a :: b :: l) = if bool_decide (a = b) then dedup (b :: l) else a :: dedup (b :: l).
Proof. done. Qed.
Lemma dedup_elem {A} `{!EqDecision A} (l : list A) x : x ∈ dedup l ↔ x ∈ l.
Proof.
  induction l as [|a [|b l] IH]; [done|done|].
  rewrite dedup_cons.
  case_bool_decide as E; [subst; rewrite IH, !elem_of_cons; tauto|]. by rewrite !(elem_of_cons _ _ a), IH.
Qed.

(** ** Candidates *)

Definition null_point : OutPointKey := {| op_txid := replicate 32 0; op_vout := umax 32 |}.
Lemma is_coinbase_null o : is_coinbase o = true ↔ o = null_point.
Proof.
  unfold is_coinbase. rewrite andb_true_iff, !bool_decide_eq_true. destruct o as [t v]. simpl. split.
  - by intros [-> ->].
  - by intros [= -> ->].
Qed.

Lemma cache_all (L0 : index_map) found : (∀ o s, (o, s) ∈ found → L0 !! o = Some s) → ∀ self cached,
  let '(self', cached') := foldl cache_candidate (self, cached) found in
  next_uid self' = next_uid self ∧ seen_p2tr_keys self' = seen_p2tr_keys self ∧
  (∀ o, outpoint_to_spend self' !! o =
        match outpoint_to_spend self !! o with Some c => Some c | None => if bool_decide (o ∈ found.*1) then L0 !! o else None end) ∧
  (∀ o, o ∈ cached' → o ∈ cached ∨ o ∈ found.*1).
Proof.
  induction found as [|[o s] found IH]; intros Hf self cached.
  { cbn. split_and!; [done|done| |by left]. intros o. by destruct (_ !! o). }
  cbn [foldl cache_candidate]. assert (Hf' : ∀ o s, (o, s) ∈ found → L0 !! o = Some s) by (intros; apply Hf; by right).
  assert (Hos : L0 !! o = Some s) by (apply Hf; left).
  destruct (outpoint_to_spend self !! o) as [c|] eqn:E.
  - specialize (IH Hf' self cached). destruct (foldl cache_candidate (self, cached) found) as [self' cached'].
    destruct IH as (Hu & Hs & Hm & Hc). split_and!; [done|done| |].
    + intros o'. rewrite Hm. destruct (outpoint_to_spend self !! o') eqn:E'; [done|].
      rewrite fmap_cons. cbn [fst]. rewrite (bool_decide_ext (o' ∈ o :: found.*1) (o' ∈ found.*1)); [done|].
      rewrite elem_of_cons. split; [|by right]. intros [->|?]; [congruence|done].
    + intros o' Ho'. rewrite fmap_cons, elem_of_cons. destruct (Hc o' Ho'); tauto.
  - specialize (IH Hf' (with_spends self (<[o := s]> (outpoint_to_spend self))) (cached ++ [o])).
    destruct (foldl cache_candidate _ found) as [self' cached']. destruct IH as (Hu & Hs & Hm & Hc). split_and!; [done|done| |].
    + intros o'. rewrite Hm. cbn [outpoint_to_spend with_spends]. rewrite fmap_cons. cbn [fst].
      destruct (decide (o = o')) as [->|Hne].
      * rewrite lookup_insert_eq, E, bool_decide_true by left. by rewrite Hos.
      * rewrite lookup_insert_ne by done. destruct (outpoint_to_spend self !! o'); [done|].
        rewrite (bool_decide_ext (o' ∈ o :: found.*1) (o' ∈ found.*1)); [done|]. rewrite elem_of_cons. naive_solver.
    + intros o' Ho'. rewrite fmap_cons, elem_of_cons. destruct (Hc o' Ho') as [[?| ->%list_elem_of_singleton]%elem_of_app|?]; [by left|by right; left|by right; right].
Qed.

Lemma evict_all l : ∀ self n, let '(self', _) := foldl evict_candidate (self, n) l in
  next_uid self' = next_uid self ∧ seen_p2tr_keys self' = seen_p2tr_keys self ∧
  (∀ o, outpoint_to_spend self' !! o = if bool_decide (o ∈ l) then None else outpoint_to_spend self !! o).
Proof.
  induction l as [|o l IH]; intros self n; [done|]. cbn [foldl evict_candidate].
  destruct (outpoint_to_spend self !! o) as [c|] eqn:E.
  - specialize (IH (with_spends self (delete o (outpoint_to_spend self))) (n + 1)).
    destruct (foldl evict_candidate _ l) as [self' n']. destruct IH as (Hu & Hs & Hm). split_and!; [done|done|].
    intros o'. rewrite Hm. cbn [outpoint_to_spend with_spends]. destruct (decide (o' = o)) as [->|Hne].
    + rewrite lookup_delete_eq, (bool_decide_true (o ∈ o :: l)) by left. by destruct (bool_decide (o ∈ l)).
    + rewrite lookup_delete_ne by done. rewrite (bool_decide_ext (o' ∈ o :: l) (o' ∈ l)); [done|]. rewrite elem_of_cons. naive_solver.
  - specialize (IH self n). destruct (foldl evict_candidate _ l) as [self' n']. destruct IH as (Hu & Hs & Hm). split_and!; [done|done|].
    intros o'. rewrite Hm. destruct (decide (o' = o)) as [->|Hne].
    + rewrite E, (bool_decide_true (o ∈ o :: l)) by left. by destruct (bool_decide (o ∈ l)).
    + rewrite (bool_decide_ext (o' ∈ o :: l) (o' ∈ l)); [done|]. rewrite elem_of_cons. naive_solver.
Qed.

Section chunk.
Context `{RB : !RustBitcoin, SD : !Scheduler, SC : !Secp, HH : !Hash160, ST : !ScriptTemplates, SH : !Sha256, KV : !KvStore,
          CL : !CapnpPacked light_block, CS : !CapnpPacked stored_light_block, MJ : !ManifestJson, HX : !Hex}.

(** After the lookups the cache agrees with the full map on the inputs of the chunk. *)
Lemma lookup_chunk (d : Db) (L0 : index_map) state full decoded :
  holds d L0 → caches [] L0 state full →
  Forall outpoint_wf (named (txs_of decoded)) →
  outpoint_to_spend full !! null_point = None →
  (∀ o c, o ∈ named (txs_of decoded) → o ≠ null_point → L0 !! o = Some c → outpoint_to_spend full !! o = Some c) →
  ∃ state' cached, lookup_spend_uids_for_chunk d state decoded = Ok (state', cached) ∧
    caches (named (txs_of decoded)) L0 state' full ∧
    (∀ o, o ∈ cached → o ∈ named (txs_of decoded) ∧ is_Some (L0 !! o)).
Proof.
  intros Hd Hc Hw Hnull Hlive. unfold lookup_spend_uids_for_chunk.
  set (sel := base.filter _ _). set (os := dedup (sort_by outpoint_le sel)).
  assert (Hsel : ∀ o, o ∈ os ↔ o ∈ named (txs_of decoded) ∧ o ≠ null_point ∧ outpoint_to_spend state !! o = None).
  { intros o. unfold os. rewrite dedup_elem, (sort_by_perm outpoint_le sel). unfold sel.
    rewrite list_elem_of_filter, andb_true_iff, !negb_true_iff. unfold contains_outpoint.
    rewrite bool_decide_eq_false, <-eq_None_not_Some, <-not_true_iff_false, is_coinbase_null. unfold named, txs_of. tauto. }
  set (found := omap (λ o, pair o <$> L0 !! o) os).
  assert (Hfound : ∀ o s, (o, s) ∈ found ↔ o ∈ os ∧ L0 !! o = Some s).
  { intros o s. unfold found. rewrite list_elem_of_omap. split.
    - intros (o' & Ho & Hs). destruct (L0 !! o') as [s'|] eqn:E; [|done]. injection Hs as -> ->. done.
    - intros [Ho Hs]. exists o. by rewrite Hs. }
  assert (Hres : (if bool_decide (os = []) then Ok (state, []) else
      found ← lookup_outpoint_uids d os; Ok (cache_spend_uid_candidates state found)) = Ok (cache_spend_uid_candidates state found)).
  { case_bool_decide as E; [unfold found; by rewrite E|]. rewrite (lookup_outpoint_uids_spec d L0); [done|done|].
    apply Forall_forall. intros o (Ho & _)%Hsel. rewrite Forall_forall in Hw. by apply Hw. }
  rewrite Hres. clear Hres. unfold cache_spend_uid_candidates.
  pose proof (cache_all L0 found ltac:(intros o s ?%Hfound; tauto) state []) as H.
  destruct (foldl cache_candidate (state, []) found) as [state' cached]. destruct H as (Hu & Hs & Hm & Hcd).
  assert (Hfst : ∀ o, o ∈ found.*1 ↔ o ∈ os ∧ is_Some (L0 !! o)).
  { intros o. rewrite list_elem_of_fmap. split.
    - intros ([o' s] & -> & [? ?]%Hfound). by split; [|exists s].
    - intros [Ho [s Es]]. exists (o, s). split; [done|by apply Hfound]. }
  destruct Hc as [Hcu Hcs Hsub _ Hb]. exists state', cached. split; [done|]. split.
  - split.
    + by rewrite Hu.
    + by rewrite Hs.
    + apply map_subseteq_spec. intros o c. rewrite Hm. destruct (outpoint_to_spend state !! o) as [c'|] eqn:E.
      * intros [= <-]. by eapply lookup_weaken.
      * case_bool_decide as Hf; [|done]. intros Hl. apply Hfst in Hf as [(Hn & Hne & _)%Hsel _]. by apply Hlive.
    + intros o Ho. rewrite Hm. destruct (outpoint_to_spend state !! o) as [c'|] eqn:E.
      { symmetry. by eapply lookup_weaken. }
      destruct (decide (o = null_point)) as [->|Hne].
      { rewrite Hnull, bool_decide_false; [done|]. intros [(_ & ? & _)%Hsel _]%Hfst. done. }
      destruct (outpoint_to_spend full !! o) as [c|] eqn:Ef.
      * destruct (Hb o c Ef) as [?|El]; [congruence|]. rewrite bool_decide_true; [done|].
        apply Hfst. split; [by apply Hsel|by exists c].
      * case_bool_decide as Hf; [|done]. destruct (L0 !! o) as [c|] eqn:El; [|done].
        by rewrite (Hlive o c Ho Hne El) in Ef.
    + intros o c Hfo. destruct (Hb o c Hfo) as [Hso|?]; [left|by right]. by rewrite Hm, Hso.
  - intros o Ho. destruct (Hcd o Ho) as [?%not_elem_of_nil|[(? & _ & _)%Hsel ?]%Hfst]; [done|by split].
Qed.

(** Evicting candidates that the chunk spent changes nothing that matters. *)
Lemma evict_chunk D L0 state full cached :
  caches D L0 state full → (∀ o, o ∈ cached → outpoint_to_spend full !! o = None) →
  caches [] L0 (evict_spend_uid_candidates state cached).1 full.
Proof.
  intros [Hu Hs Hsub _ Hb] Hn. unfold evict_spend_uid_candidates.
  pose proof (evict_all cached state 0) as H. destruct (foldl evict_candidate (state, 0) cached) as [state' k].
  destruct H as (Hu' & Hs' & Hm). split; cbn [fst].
  - by rewrite Hu'.
  - by rewrite Hs'.
  - apply map_subseteq_spec. intros o c. rewrite Hm. case_bool_decide; [done|]. intros. by eapply lookup_weaken.
  - by intros o ?%not_elem_of_nil.
  - intros o c Hf. rewrite Hm. case_bool_decide as Ho; [by rewrite Hn in Hf|]. by apply Hb.
Qed.
End chunk.

(** ** The checks on a chunk *)

(** Consecutive heights from [start], each block on top of the one before. *)
Record linked_chunk (decoded : list BlockScanInput) (start : Z) (prev : option bytes) : Prop := {
  lc_nonempty : decoded ≠ [];
  lc_heights : ∀ i b, decoded !! i = Some b → bk_height b = start + Z.of_nat i;
  lc_links : ∀ i b b', decoded !! i = Some b → decoded !! S i = Some b' → bk_previous_block_hash b' = bk_block_hash b;
  lc_first : ∀ h b, prev = Some h → head decoded = Some b → bk_previous_block_hash b = h
}.

Lemma validate_links_iff prev rest : 0 ≤ bk_height prev → bk_height prev + len rest < 2 ^ 64 →
  validate_links prev rest = Ok tt ↔
  (∀ i b, rest !! i = Some b → bk_height b = bk_height prev + 1 + Z.of_nat i) ∧
  (∀ i b b', (prev :: rest) !! i = Some b → rest !! i = Some b' → bk_previous_block_hash b' = bk_block_hash b).
Proof.
  revert prev. induction rest as [|c rest IH]; intros prev H0 Hw.
  { split; [|done]. intros _. split; intros *; by rewrite lookup_nil. }
  cbn [length] in Hw. cbn [validate_links].
  rewrite wrap_small by (unfold in_width; lia).
  destruct (decide (bk_height c = bk_height prev + 1)) as [Eh|Eh]; cycle 1.
  { rewrite (bool_decide_false (bk_height c = bk_height prev + 1)) by exact Eh. rsimpl. split; [done|].
    intros [Hh _]. exfalso. apply Eh. rewrite (Hh 0%nat c eq_refl). lia. }
  rewrite (bool_decide_true (bk_height c = bk_height prev + 1)) by exact Eh. rsimpl.
  destruct (decide (bk_previous_block_hash c = bk_block_hash prev)) as [El|El]; cycle 1.
  { rewrite bool_decide_false by done. rsimpl. split; [done|]. intros [_ Hl]. exfalso. by apply El, (Hl 0%nat). }
  rewrite bool_decide_true by done. rsimpl. rewrite IH by lia. split.
  - intros [Hh Hl]. split.
    + intros [|i] b Hb; simpl in Hb; [injection Hb as <-; lia|]. rewrite (Hh i b Hb). lia.
    + intros [|i] b b' Hb Hb'; simpl in *; [by simplify_eq|]. by apply (Hl i).
  - intros [Hh Hl]. split.
    + intros i b Hb. rewrite (Hh (S i) b Hb). lia.
    + intros i b b' Hb Hb'. by apply (Hl (S i)).
Qed.

Lemma validate_chunk_iff decoded start prev : 0 ≤ start → start + len decoded < 2 ^ 64 →
  validate_decoded_chunk decoded start prev = Ok tt ↔ linked_chunk decoded start prev.
Proof.
  intros H0 Hw. destruct decoded as [|b rest]; [split; [done|by intros [? _ _ _]]|]. cbn [validate_decoded_chunk length] in *.
  destruct (decide (bk_height b = start)) as [Eh|Eh]; cycle 1.
  { rewrite bool_decide_false by done. rsimpl. split; [done|]. intros [_ Hh _ _]. exfalso. apply Eh. rewrite (Hh 0%nat b eq_refl). lia. }
  rewrite bool_decide_true by done. rsimpl.
  assert (Hlinks : validate_links b rest = Ok tt ↔
    (∀ i x, (b :: rest) !! i = Some x → bk_height x = start + Z.of_nat i) ∧
    (∀ i x x', (b :: rest) !! i = Some x → (b :: rest) !! S i = Some x' → bk_previous_block_hash x' = bk_block_hash x)).
  { rewrite validate_links_iff by lia. split; intros [Hh Hl]; split; try exact Hl.
    - intros [|i] x Hx; simpl in Hx; [injection Hx as <-; lia|]. rewrite (Hh i x Hx). lia.
    - intros i x Hx. rewrite (Hh (S i) x Hx). lia. }
  destruct prev as [h|].
  - destruct (decide (bk_previous_block_hash b = h)) as [Ep|Ep]; cycle 1.
    { rewrite bool_decide_false by done. rsimpl. split; [done|]. intros [_ _ _ Hf]. exfalso. by apply Ep, Hf. }
    rewrite bool_decide_true by done. rsimpl. rewrite Hlinks. split; [intros [Hh Hl]|by intros [_ Hh Hl _]].
    split; [done|done|done|]. intros h' b' [= <-] [= <-]. done.
  - rsimpl. rewrite Hlinks. split; [intros [Hh Hl]; by split|by intros [_ Hh Hl _]].
Qed.

(** ** The order in which the decoding tasks complete *)

Section order.
Context `{RB : !RustBitcoin, SC : !Secp, HH : !Hash160, ST : !ScriptTemplates, SH : !Sha256}.

Lemma fetch_any_order (S1 S2 : Scheduler) source undo_source start count c :
  @fetch_and_decode_chunk RB S1 SC HH ST SH source undo_source start count = Ok c → NoDup (bk_height <$> dc_blocks c) →
  @fetch_and_decode_chunk RB S2 SC HH ST SH source undo_source start count = Ok c.
Proof.
  unfold fetch_and_decode_chunk. intros H Hn.
  apply bind_Ok in H as (frames & -> & H). rsimpl. apply bind_Ok in H as ([] & -> & H). rsimpl.
  apply bind_Ok in H as (frames' & -> & H). rsimpl. apply bind_Ok in H as (ys & Hy & [= <-]). cbn [dc_blocks] in Hn.
  apply (collect_perm _ (@completion S2 _ (decode_task <$> frames'))) in Hy as (ys' & -> & Hp).
  - rsimpl. do 2 f_equal. symmetry. apply (sort_by_unique bk_height); [|done].
    rewrite (sort_by_perm height_le ys) in Hn. done.
  - rewrite !completion_perm. done.
Qed.
End order.

(** * The log line of an indexed range

    Model of the end of [catch_up_ranges] in [light-server/src/bin/light_indexer.rs]:
    the totals over the blocks of a flush and the fields of the line it logs.  Timings are
    not fields of the model.  The totals are [u32] sums that wrap; they run after the
    commit, so they can never cost the work of a range.

    The theorems: below [2^32] each total is the sum over the blocks, and the payload
    bytes it logs are the ones the memory budget was checked with. *)

(** One turn of the loop over the pending blocks: every field of the totals but
    [tx_count], which has a [u64] total of its own. *)
Definition add_block_stats (t s : BlockScopeStats) : BlockScopeStats := {|
  bs_tx_count := bs_tx_count t;
  bs_output_count_total := wrap 32 (bs_output_count_total t + bs_output_count_total s);
  bs_p2tr_output_count := wrap 32 (bs_p2tr_output_count t + bs_p2tr_output_count s);
  bs_p2tr_count := wrap 32 (bs_p2tr_count t + bs_p2tr_count s);
  bs_p2tr_nums_count := wrap 32 (bs_p2tr_nums_count t + bs_p2tr_nums_count s);
  bs_p2tr_reused_count := wrap 32 (bs_p2tr_reused_count t + bs_p2tr_reused_count s);
  bs_p2tr_excluded_by_scope_count := wrap 32 (bs_p2tr_excluded_by_scope_count t + bs_p2tr_excluded_by_scope_count s);
  bs_indexed_output_count := wrap 32 (bs_indexed_output_count t + bs_indexed_output_count s);
  bs_indexed_spent_count := wrap 32 (bs_indexed_spent_count t + bs_indexed_spent_count s);
  bs_tx_with_p2tr_output_count := wrap 32 (bs_tx_with_p2tr_output_count t + bs_tx_with_p2tr_output_count s);
  bs_tx_with_indexed_output_count := wrap 32 (bs_tx_with_indexed_output_count t + bs_tx_with_indexed_output_count s);
  bs_tweak_count := wrap 32 (bs_tweak_count t + bs_tweak_count s) |}.

Record RangeTotals := { rt_totals : BlockScopeStats; rt_tx_count : Z; rt_payload_bytes : Z }.
Definition add_pending (a : RangeTotals) (p : Pending) : RangeTotals :=
  let s := ab_stats (pd_applied p) in {|
    rt_totals := add_block_stats (rt_totals a) s;
    rt_tx_count := wrap 64 (rt_tx_count a + bs_tx_count s);
    rt_payload_bytes := wrap 64 (rt_payload_bytes a + len (pd_payload p)) |}.
Definition range_totals (pending : list Pending) : RangeTotals :=
  foldl add_pending {| rt_totals := stats_default; rt_tx_count := 0; rt_payload_bytes := 0 |} pending.

(** The fields of the line. *)
Record RangeLine := {
  rl_first_height : Z; rl_last_height : Z; rl_blocks : Z; rl_served_blocks : Z; rl_flush_blocks : Z; rl_memory_budget_mb : Z;
  rl_estimated_pending_mb : Z; rl_processed_raw_bytes : Z; rl_live_raw_bytes : Z; rl_payload_bytes : Z; rl_txs : Z; rl_outputs : Z;
  rl_p2tr_outputs : Z; rl_indexed_created : Z; rl_indexed_spent : Z; rl_tx_tweaks : Z; rl_marked_spent_outputs : Z;
  rl_last_uid : Z; rl_cached_outpoints : Z
}.
Definition range_line (config : CatchUpConfig) (first_height last_height : Z) (marked : nat) (c : ChunkState) : RangeLine :=
  let a := range_totals (cs_pending c) in
  let totals := rt_totals a in
  let processed_blocks := wrap 64 (wrap 64 (last_height - first_height) + 1) in
  let estimated := estimate_pending_memory_bytes (cs_processed_raw_bytes c) (cs_pending_payload_bytes c) (len (cs_pending c)) in {|
    rl_first_height := first_height; rl_last_height := last_height; rl_blocks := processed_blocks;
    rl_served_blocks := len (cs_pending c); rl_flush_blocks := flush_blocks config;
    rl_memory_budget_mb := memory_budget_bytes config / 1024 / 1024; rl_estimated_pending_mb := estimated / 1024 / 1024;
    rl_processed_raw_bytes := cs_processed_raw_bytes c; rl_live_raw_bytes := 0; rl_payload_bytes := rt_payload_bytes a;
    rl_txs := rt_tx_count a; rl_outputs := bs_output_count_total totals; rl_p2tr_outputs := bs_p2tr_output_count totals;
    rl_indexed_created := bs_indexed_output_count totals; rl_indexed_spent := bs_indexed_spent_count totals;
    rl_tx_tweaks := bs_tweak_count totals; rl_marked_spent_outputs := Z.of_nat marked; rl_last_uid := last_uid (cs_state c);
    rl_cached_outpoints := Z.of_nat (cached_outpoint_count (cs_state c)) |}.

(** ** The totals are sums *)

(** The totals the line has, by the counter of a block each sums. *)
Definition totalled : list (BlockScopeStats → Z) :=
  [bs_output_count_total; bs_p2tr_output_count; bs_p2tr_count; bs_p2tr_nums_count; bs_p2tr_reused_count;
   bs_p2tr_excluded_by_scope_count; bs_indexed_output_count; bs_indexed_spent_count; bs_tx_with_p2tr_output_count;
   bs_tx_with_indexed_output_count; bs_tweak_count].
Definition sum_of (f : Pending → Z) (pending : list Pending) : Z := foldr Z.add 0 (f <$> pending).

Lemma wrap_add w a b : 0 ≤ w → wrap w (wrap w a + b) = wrap w (a + b).
Proof. intros Hw. unfold wrap. by rewrite Z.add_mod_idemp_l by lia. Qed.
Lemma fold_totals pending : ∀ a,
  Forall (λ f, in_width 32 (f (rt_totals a))) totalled → in_width 64 (rt_tx_count a) → in_width 64 (rt_payload_bytes a) →
  let b := foldl add_pending a pending in
  Forall (λ f, f (rt_totals b) = wrap 32 (f (rt_totals a) + sum_of (λ p, f (ab_stats (pd_applied p))) pending)) totalled ∧
  rt_tx_count b = wrap 64 (rt_tx_count a + sum_of (λ p, bs_tx_count (ab_stats (pd_applied p))) pending) ∧
  rt_payload_bytes b = wrap 64 (rt_payload_bytes a + sum_of (λ p, len (pd_payload p)) pending).
Proof.
  induction pending as [|p pending IH]; intros a Ha Ht Hp; cbn zeta.
  - unfold sum_of. cbn [foldl fmap list_fmap foldr]. rewrite !Z.add_0_r, !wrap_small by done. split_and!; [|done|done].
    eapply Forall_impl; [exact Ha|]. intros f Hf. cbn beta. by rewrite Z.add_0_r, wrap_small.
  - cbn [foldl]. assert (Hw : Forall (λ f, f (rt_totals (add_pending a p)) = wrap 32 (f (rt_totals a) + f (ab_stats (pd_applied p)))) totalled).
    { unfold totalled. repeat constructor. }
    destruct (IH (add_pending a p)) as (H1 & H2 & H3).
    { eapply Forall_impl; [exact Hw|]. intros f ->. by apply wrap_width. }
    { by apply wrap_width. }
    { by apply wrap_width. }
    split_and!.
    + apply Forall_forall. intros f Hf. rewrite Forall_forall in H1, Hw. rewrite (H1 f Hf), (Hw f Hf), wrap_add by done.
      unfold sum_of. cbn [fmap list_fmap foldr]. by rewrite Z.add_assoc.
    + rewrite H2. cbn [add_pending rt_tx_count]. rewrite wrap_add by done. unfold sum_of. cbn [fmap list_fmap foldr]. by rewrite Z.add_assoc.
    + rewrite H3. cbn [add_pending rt_payload_bytes]. rewrite wrap_add by done. unfold sum_of. cbn [fmap list_fmap foldr]. by rewrite Z.add_assoc.
Qed.

(** Each total is the sum over the blocks of the flush, reduced to its width. *)
Lemma range_totals_spec (pending : list Pending) :
  Forall (λ f, f (rt_totals (range_totals pending)) = wrap 32 (sum_of (λ p, f (ab_stats (pd_applied p))) pending)) totalled ∧
  rt_tx_count (range_totals pending) = wrap 64 (sum_of (λ p, bs_tx_count (ab_stats (pd_applied p))) pending) ∧
  rt_payload_bytes (range_totals pending) = wrap 64 (sum_of (λ p, len (pd_payload p)) pending).
Proof.
  destruct (fold_totals pending {| rt_totals := stats_default; rt_tx_count := 0; rt_payload_bytes := 0 |}) as (H1 & H2 & H3).
  - unfold totalled. repeat constructor; vm_compute; congruence.
  - done.
  - done.
  - split_and!; [|exact H2|exact H3]. unfold totalled in *. repeat (apply Forall_cons in H1 as [? H1]). repeat constructor; done.
Qed.

(** ** The payload bytes of the memory budget *)
Section budget.
Context `{RB : !RustBitcoin, SD : !Scheduler, SC : !Secp, HH : !Hash160, ST : !ScriptTemplates, SH : !Sha256, KV : !KvStore,
          CL : !CapnpPacked light_block, CS : !CapnpPacked stored_light_block}.

Lemma sum_of_app f l p : sum_of f (l ++ [p]) = sum_of f l + f p.
Proof. unfold sum_of. induction l as [|x l IH]; [cbn; lia|]. rewrite <- app_comm_cons, !fmap_cons. cbn [foldr]. lia. Qed.
Lemma apply_scan_payload emit_start acc scan acc' : apply_scan emit_start acc scan = Ok acc' →
  acc.2 = Z.min (sum_of (λ p, len (pd_payload p)) acc.1.2) (umax 64) →
  acc'.2 = Z.min (sum_of (λ p, len (pd_payload p)) acc'.1.2) (umax 64).
Proof.
  destruct acc as [[state pending] n]. unfold apply_scan. destruct (bool_decide _); [|by intros [= <-]].
  intros H Hn. res_inv. cbn [fst snd] in *. subst n. rewrite sum_of_app. cbn [pd_payload]. unfold saturating_add. lia.
Qed.
Lemma apply_scans_payload emit_start scans : ∀ acc acc', fold_res (apply_scan emit_start) acc scans = Ok acc' →
  acc.2 = Z.min (sum_of (λ p, len (pd_payload p)) acc.1.2) (umax 64) →
  acc'.2 = Z.min (sum_of (λ p, len (pd_payload p)) acc'.1.2) (umax 64).
Proof.
  induction scans as [|scan scans IH]; intros acc acc' H Hn; [by injection H as <-|].
  cbn [fold_res] in H. destruct (apply_scan emit_start acc scan) as [a|e|q] eqn:E; [|done..].
  eapply IH; [exact H|]. by eapply apply_scan_payload.
Qed.
Definition payload_counted (c : ChunkState) : Prop :=
  cs_pending_payload_bytes c = Z.min (sum_of (λ p, len (pd_payload p)) (cs_pending c)) (umax 64).
Lemma chunk_step_payload index_store source undo_source config flush_end c c' stop :
  chunk_step index_store source undo_source config flush_end c = Ok (c', stop) → payload_counted c → payload_counted c'.
Proof.
  intros H Hc. unfold chunk_step in H. res_inv. unfold payload_counted. cbn [cs_pending_payload_bytes cs_pending].
  match goal with E : fold_res _ _ _ = Ok _ |- _ => apply apply_scans_payload in E; [exact E|exact Hc] end.
Qed.
Lemma chunk_loop_payload fuel index_store source undo_source config flush_end : ∀ c c',
  chunk_loop fuel index_store source undo_source config flush_end c = Ok c' → payload_counted c → payload_counted c'.
Proof.
  induction fuel as [|fuel IH]; intros c c' H Hc; cbn [chunk_loop] in H; destruct (bool_decide _); try (by injection H as <-); [done|].
  destruct (chunk_step _ _ _ _ _ c) as [[c1 stop]|e|q] eqn:E; [|done..]. cbn [mbind res_bind] in H.
  apply chunk_step_payload in E; [|done]. destruct stop; [by injection H as <-|]. by eapply IH.
Qed.

(** The payload bytes of the line are the ones the budget was checked with, unless they
    leave 64 bits: whatever the chunks of the range were. *)
Theorem logged_payload_bytes fuel index_store source undo_source config flush_end c c'
    (Hc : payload_counted c) (H : chunk_loop fuel index_store source undo_source config flush_end c = Ok c')
    (Hs : sum_of (λ p, len (pd_payload p)) (cs_pending c') < 2 ^ 64) :
  rt_payload_bytes (range_totals (cs_pending c')) = cs_pending_payload_bytes c'.
Proof.
  apply chunk_loop_payload in H; [|done]. destruct (range_totals_spec (cs_pending c')) as (_ & _ & ->).
  assert (0 ≤ sum_of (λ p, len (pd_payload p)) (cs_pending c')).
  { generalize (cs_pending c'). intros l. unfold sum_of. induction l as [|p l IH]; [done|]. rewrite fmap_cons. cbn [foldr]. lia. }
  rewrite H, wrap_small by (unfold in_width; lia). unfold umax. lia.
Qed.
End budget.
