(* ===== verification/LightIndexerSync.v ===== *)
(** * Catching up refines the in-memory indexer

    The pass of the indexer binary over a range of heights, with its cache, its chunks,
    its flush boundaries and its memory budget, does what the indexer with every coin
    in memory does on some non-empty prefix of the range: the files, the database and
    the cache it leaves are those of the abstract run. *)

From S2P Require Import Prelude Bits Decimal Helper TaggedHash Bitmap SpentIds OutputHash LightBlock LightValid LightWire CutThrough UndoPayload P2trIndexer P2trFacts Indexer ScriptClassify SpTweak Kv IndexStore IndexerCache ArchiveBackend FileArchive JsonWire Profile Sources Tasks LightIndexer LightIndexerFacts.

Section sync.
Context `{RB : !RustBitcoin, SD : !Scheduler, SC : !Secp, HH : !Hash160, ST : !ScriptTemplates, SH : !Sha256, KV : !KvStore,
          CL : !CapnpPacked light_block, CS : !CapnpPacked stored_light_block, MJ : !ManifestJson, HX : !Hex}.
(** The chain the source serves, by height. *)
Context (chain : Z → BlockScanInput).

Definition segment (h : Z) (n : nat) : list BlockScanInput := chain <$> seqZ h (Z.of_nat n).

(** A request for a chunk inside the range is answered with a non-empty prefix of it. *)
Definition serves (source undo_source : BlockSource) (h : Z) (n : nat) : Prop :=
  ∀ s k, h ≤ s → (0 < k)%nat → s + Z.of_nat k ≤ h + Z.of_nat n →
    ∃ j raw, (0 < j ≤ k)%nat ∧
      fetch_and_decode_chunk source undo_source s k = Ok {| dc_blocks := segment s j; dc_raw_bytes := raw |}.

(** Well-formed linked blocks that create fresh outpoints and spend none twice. *)
Record good_range (L0 : index_map) (h : Z) (n : nat) : Prop := {
  gr_bounds : 0 ≤ h ∧ h + Z.of_nat n < 2 ^ 32;
  gr_block : ∀ i, h ≤ i < h + Z.of_nat n → bk_height (chain i) = i ∧ block_wf (chain i);
  gr_links : ∀ i, h < i < h + Z.of_nat n → bk_previous_block_hash (chain i) = bk_block_hash (chain (i - 1));
  gr_points : NoDup (points (txs_of (segment h n)));
  gr_fresh : ∀ o, o ∈ points (txs_of (segment h n)) → L0 !! o = None ∧ o ≠ null_point ∧ outpoint_wf o;
  gr_named : ∀ o, o ∈ named (txs_of (segment h n)) → outpoint_wf o;
  gr_once : NoDup (filter (λ o, o ≠ null_point) (named (txs_of (segment h n))));
  gr_null : L0 !! null_point = None
}.

Lemma segment_app h (a b : nat) : segment h (a + b) = segment h a ++ segment (h + Z.of_nat a) b.
Proof. unfold segment. rewrite <-fmap_app, Nat2Z.inj_add. by rewrite seqZ_app by lia. Qed.
Lemma segment_split h (a n : nat) : (a ≤ n)%nat → segment h n = segment h a ++ segment (h + Z.of_nat a) (n - a).
Proof. intros. rewrite <-segment_app. f_equal. lia. Qed.
Lemma segment_lookup h n i b : segment h n !! i = Some b ↔ b = chain (h + Z.of_nat i) ∧ (i < n)%nat.
Proof.
  unfold segment. rewrite list_lookup_fmap. split.
  - destruct (seqZ h (Z.of_nat n) !! i) as [z|] eqn:E; [|done]. intros [= <-]. apply lookup_seqZ in E. split; [f_equal; lia|lia].
  - intros [-> Hi]. by rewrite lookup_seqZ_lt by lia.
Qed.
Lemma length_segment h n : length (segment h n) = n.
Proof. unfold segment. rewrite length_fmap, length_seqZ. lia. Qed.
Lemma segment_elem h n b : b ∈ segment h n ↔ ∃ i, b = chain i ∧ h ≤ i < h + Z.of_nat n.
Proof.
  unfold segment. rewrite list_elem_of_fmap. setoid_rewrite elem_of_seqZ. done.
Qed.
Lemma last_segment h n : (0 < n)%nat → last (segment h n) = Some (chain (h + Z.of_nat n - 1)).
Proof.
  intros Hn. rewrite last_lookup, length_segment. apply segment_lookup. split; [f_equal; lia|lia].
Qed.

(** What a prefix and the rest of a good range inherit. *)
Lemma good_prefix L0 h a n : (a ≤ n)%nat → good_range L0 h n → good_range L0 h a.
Proof.
  intros Ha [H1 H2 H3 H4 H5 H6 H7 H8]. rewrite (segment_split h a n Ha), txs_of_app in *.
  rewrite points_app in *. rewrite named_app in *. split; try done; try lia.
  - intros i Hi. apply H2. lia.
  - intros i Hi. apply H3. lia.
  - by apply NoDup_app in H4 as [? _].
  - intros o Ho. apply H5, elem_of_app. by left.
  - intros o Ho. apply H6, elem_of_app. by left.
  - rewrite filter_app in H7. by apply NoDup_app in H7 as [? _].
Qed.

(** ** The serial apply of a chunk *)

Definition encodes (out : AppliedBlock) : Prop := ∃ msg, encode_stored_light_block (ab_storage_block out) = Ok msg.
Definition pending_of (out : AppliedBlock) : Pending := {|
  pd_applied := out;
  pd_payload := match encode_stored_light_block (ab_storage_block out) with Ok msg => write_message msg | _ => [] end |}.

Lemma apply_scans emit state bs outs state' pending pb :
  apply_blocks state bs = Ok (outs, state') → Forall encodes outs → (∀ b, b ∈ bs → emit ≤ bk_height b) →
  ∃ pb', fold_res (apply_scan emit) (state, pending, pb) bs = Ok (state', pending ++ (pending_of <$> outs), pb').
Proof.
  revert state outs pending pb. induction bs as [|b bs IH]; intros state outs pending pb H He Hh; cbn [apply_blocks fold_res] in *.
  { injection H as <- <-. exists pb. by rewrite app_nil_r. }
  apply bind_Ok in H as ([out s1] & Hb & ([outs' s2] & Hbs & [= <- <-])%bind_Ok).
  inversion_clear He as [|? ? [msg Hm] He']. unfold apply_scan at 2. rewrite bool_decide_true by (apply Hh; left).
  rewrite Hb. rsimpl. rewrite Hm. rsimpl. unfold to_packed_bytes. rsimpl.
  destruct (IH s1 outs' (pending ++ [{| pd_applied := out; pd_payload := write_message msg |}])
    (saturating_add 64 pb (len (write_message msg))) Hbs He') as (pb' & ->); [intros; apply Hh; by right|].
  exists pb'. do 3 f_equal. rewrite fmap_cons, <-app_assoc. unfold pending_of at 2. by rewrite Hm.
Qed.

(** ** One pass over a chunk *)

Section loop.
Context (d : Db) (full : P2trIndexerState) (source undo_source : BlockSource) (config : CatchUpConfig).
Context (h : Z) (n : nat) (prev : option bytes) (outsN : list AppliedBlock) (fullN : P2trIndexerState).
Context (Hd : holds d (outpoint_to_spend full)) (Hgood : good_range (outpoint_to_spend full) h n).
Context (Hserves : serves source undo_source h n).
Context (Hprev : ∀ p, prev = Some p → bk_previous_block_hash (chain h) = p).
Context (Hrun : apply_blocks full (segment h n) = Ok (outsN, fullN)) (Henc : Forall encodes outsN).
Context (Hbatch : 0 < fetch_batch_size config) (Hemit : emit_start_height config ≤ h).

(** The variables of the loop after [j] blocks. *)
Record loop_inv (j : nat) (outs : list AppliedBlock) (fullj : P2trIndexerState) (c : ChunkState) : Prop := {
  li_apply : apply_blocks full (segment h j) = Ok (outs, fullj);
  li_cache : caches [] (outpoint_to_spend full) (cs_state c) fullj;
  li_pending : cs_pending c = pending_of <$> outs;
  li_prev : cs_previous_tip_hash c = if bool_decide (j = 0%nat) then prev else Some (bk_block_hash (chain (h + Z.of_nat j - 1)));
  li_last : cs_last c = if bool_decide (j = 0%nat) then None
                        else Some (h + Z.of_nat j - 1, bk_block_hash (chain (h + Z.of_nat j - 1)));
  li_start : cs_chunk_start c = h + Z.of_nat j
}.

Lemma run_prefix j : (j ≤ n)%nat → ∃ outs fullj, apply_blocks full (segment h j) = Ok (outs, fullj) ∧ Forall encodes outs.
Proof.
  intros Hj. pose proof Hrun as Hr. rewrite (segment_split h j n Hj) in Hr.
  apply apply_blocks_app in Hr as (o1 & s1 & o2 & H1 & _ & ->). apply Forall_app in Henc as [? _]. by exists o1, s1.
Qed.

Lemma chunk_linked j j1 : (j + j1 ≤ n)%nat → (0 < j1)%nat →
  validate_decoded_chunk (segment (h + Z.of_nat j) j1) (h + Z.of_nat j)
    (if bool_decide (j = 0%nat) then prev else Some (bk_block_hash (chain (h + Z.of_nat j - 1)))) = Ok tt.
Proof.
  intros Hj Hj1. destruct (gr_bounds _ _ _ Hgood) as [Hh Hb].
  apply validate_chunk_iff; [lia|rewrite length_segment; lia|]. split.
  - intros E. apply (f_equal length) in E. rewrite length_segment in E. simpl in E. lia.
  - intros i b [-> Hi]%segment_lookup. apply (gr_block _ _ _ Hgood). lia.
  - intros i b b' [-> Hi]%segment_lookup [-> Hi']%segment_lookup.
    rewrite (gr_links _ _ _ Hgood) by lia. do 2 f_equal. lia.
  - intros p b Hp Hb'. destruct (segment (h + Z.of_nat j) j1) as [|b0 l] eqn:E; [done|]. injection Hb' as ->.
    assert (b = chain (h + Z.of_nat j)) as ->.
    { assert (segment (h + Z.of_nat j) j1 !! 0%nat = Some b) as [-> _]%segment_lookup by (by rewrite E). f_equal. lia. }
    case_bool_decide as Hj0; [subst j; rewrite Z.add_0_r; by apply Hprev|]. injection Hp as <-.
    apply (gr_links _ _ _ Hgood). lia.
Qed.

(** An outpoint spent in the chunk and held by the database is still unspent before it. *)
Lemma chunk_live j j1 outs fullj o c : (j + j1 ≤ n)%nat → apply_blocks full (segment h j) = Ok (outs, fullj) →
  o ∈ named (txs_of (segment (h + Z.of_nat j) j1)) → o ≠ null_point → outpoint_to_spend full !! o = Some c →
  outpoint_to_spend fullj !! o = Some c.
Proof.
  intros Hj Ha Ho Hne Hc. pose proof (good_prefix _ _ (j + j1) _ Hj Hgood) as [_ _ _ _ Hf _ Honce _].
  rewrite segment_app, txs_of_app in *. rewrite points_app in *. rewrite named_app, filter_app in *.
  apply NoDup_app in Honce as (_ & Hdis & _).
  apply ledger_chain in Ha as [_ _ _ _ Hother]. destruct (Hother o) as [_ Hkeep].
  - intros Hin. destruct (Hf o) as (? & _); [by apply elem_of_app; left|congruence].
  - rewrite Hkeep; [done|]. intros Hin. apply (Hdis o); by apply list_elem_of_filter.
Qed.

Lemma null_unspent j outs fullj : (j ≤ n)%nat → apply_blocks full (segment h j) = Ok (outs, fullj) →
  outpoint_to_spend fullj !! null_point = None.
Proof.
  intros Hj Ha. pose proof (good_prefix _ _ j _ Hj Hgood) as Hg. apply ledger_chain in Ha as [_ _ _ _ Hother].
  destruct (Hother null_point) as [H1 H2].
  { intros Hin. by destruct (gr_fresh _ _ _ Hg _ Hin) as (_ & ? & _). }
  destruct (decide (null_point ∈ named (txs_of (segment h j)))) as [|Hn]; [by apply H1|]. rewrite H2 by done. exact (gr_null _ _ _ Hg).
Qed.

Lemma chunk_spent j outs fullj o : (j ≤ n)%nat → apply_blocks full (segment h j) = Ok (outs, fullj) →
  o ∈ named (txs_of (segment h j)) → is_Some (outpoint_to_spend full !! o) → outpoint_to_spend fullj !! o = None.
Proof.
  intros Hj Ha Ho [c Hc]. pose proof (good_prefix _ _ j _ Hj Hgood) as Hg. apply ledger_chain in Ha as [_ _ _ _ Hother].
  apply (Hother o); [|done]. intros (? & _)%(gr_fresh _ _ _ Hg). congruence.
Qed.

Lemma chunk_extends j outs fullj c : loop_inv j outs fullj c → (j < n)%nat →
  ∃ j' outs' fullj' c' stop, chunk_step d source undo_source config (h + Z.of_nat n - 1) c = Ok (c', stop) ∧
    (j < j' ≤ n)%nat ∧ loop_inv j' outs' fullj' c' ∧ Forall encodes outs'.
Proof.
  intros [Ha Hc Hp Ht Hl Hs] Hj. destruct (gr_bounds _ _ _ Hgood) as [Hh Hb].
  assert (2 ^ 32 < 2 ^ 64) as Hw by done. unfold chunk_step. rewrite Hs.
  replace (h + Z.of_nat n - 1 - (h + Z.of_nat j)) with (Z.of_nat n - Z.of_nat j - 1) by lia.
  rewrite (wrap_small 64 (Z.of_nat n - _ - 1)), wrap_small by (unfold in_width; lia).
  set (k := Z.to_nat _). destruct (Hserves (h + Z.of_nat j) k) as (j1 & raw & Hj1 & ->); [unfold k; lia..|].
  assert (j + j1 ≤ n)%nat as Hjn by (unfold k in *; lia).
  destruct (run_prefix (j + j1) Hjn) as (outs' & fullj' & Ha' & He'). rsimpl. cbn [dc_blocks dc_raw_bytes].
  rewrite Ht, chunk_linked by lia. rsimpl. rewrite last_segment by lia. rsimpl.
  rewrite segment_app in Ha'. pose proof Ha' as Ha0.
  apply apply_blocks_app in Ha0 as (outs1 & fullj1 & outs2 & Ha1 & Ha2 & ->). rewrite Ha in Ha1. injection Ha1 as <- <-.
  destruct (lookup_chunk d (outpoint_to_spend full) (cs_state c) fullj (segment (h + Z.of_nat j) j1)) as (s1 & cached & -> & Hc1 & Hcd);
    [done|done| |by eapply null_unspent; [|exact Ha]; lia|intros; by eapply chunk_live|].
  { apply Forall_forall. intros o Ho. apply (gr_named _ _ _ (good_prefix _ _ _ _ Hjn Hgood)).
    rewrite segment_app, txs_of_app, named_app. apply elem_of_app. by right. }
  rsimpl. destruct (blocks_cached _ _ _ _ _ _ _ Hc1 (λ o H, H) Ha2) as (s2 & Hs2 & Hc2). apply Forall_app in He' as [He1 He2].
  destruct (apply_scans (emit_start_height config) s1 _ outs2 s2 (cs_pending c) (cs_pending_payload_bytes c) Hs2 He2) as (pb & ->).
  { intros b (i & -> & Hi)%segment_elem. destruct (gr_block _ _ _ Hgood i); lia. }
  rsimpl. pose proof (evict_chunk _ _ s2 fullj' cached Hc2) as Hev.
  destruct (evict_spend_uid_candidates s2 cached) as [s3 ev]. cbn [fst] in Hev.
  exists (j + j1)%nat, (outs ++ outs2), fullj'. eexists _, _. split; [reflexivity|]. split; [lia|]. split; [|by apply Forall_app].
  destruct (gr_block _ _ _ Hgood (h + Z.of_nat j + Z.of_nat j1 - 1)) as [Hbh _]; [lia|].
  assert (h + Z.of_nat (j + j1) - 1 = h + Z.of_nat j + Z.of_nat j1 - 1) as El by lia.
  split; cbn [cs_state cs_pending cs_previous_tip_hash cs_last cs_chunk_start].
  - by rewrite segment_app.
  - apply Hev. intros o [Hin Hl0]%Hcd. eapply (chunk_spent (j + j1)); [done|by rewrite segment_app| |done].
    rewrite segment_app, txs_of_app, named_app. apply elem_of_app. by right.
  - by rewrite Hp, fmap_app.
  - by rewrite bool_decide_false, El by lia.
  - by rewrite bool_decide_false, Hbh, El by lia.
  - rewrite Hbh, wrap_small; [lia|unfold in_width; lia].
Qed.

Lemma loop_extends fuel j outs fullj c : loop_inv j outs fullj c → (j ≤ n)%nat → (n - j ≤ fuel)%nat → (0 < j)%nat ∨ (0 < n)%nat →
  Forall encodes outs →
  ∃ k outs' fullk c', chunk_loop fuel d source undo_source config (h + Z.of_nat n - 1) c = Ok c' ∧
    (0 < k ≤ n)%nat ∧ loop_inv k outs' fullk c' ∧ Forall encodes outs'.
Proof.
  revert j outs fullj c. induction fuel as [|fuel IH]; intros j outs fullj c Hi Hj Hf H0 He; cbn [chunk_loop].
  - rewrite (li_start _ _ _ _ Hi), bool_decide_false by lia. exists j, outs, fullj, c. split; [done|]. split; [lia|done].
  - rewrite (li_start _ _ _ _ Hi). destruct (decide (j < n)%nat) as [Hlt|Hge]; cycle 1.
    { rewrite bool_decide_false by lia. exists j, outs, fullj, c. split; [done|]. split; [lia|done]. }
    rewrite bool_decide_true by lia.
    destruct (chunk_extends j outs fullj c Hi Hlt) as (j' & outs' & fullj' & c' & stop & -> & Hj' & Hi' & He').
    rsimpl. destruct stop; [exists j', outs', fullj', c'; split; [done|]; split; [lia|done]|].
    apply (IH j' outs' fullj' c'); try done; lia.
Qed.

End loop.
End sync.
