(* ===== verification/LightIndexerToy.v ===== *)
(** * A concrete chain of two blocks

    The inputs of the witnesses of the indexer binary: concrete instances of the
    parameters, a block that creates a coin, one that spends it, and a source that
    serves them. *)

From S2P Require Import Prelude Bits Decimal Helper TaggedHash Bitmap SpentIds OutputHash LightBlock LightValid LightWire CutThrough UndoPayload P2trIndexer P2trFacts Indexer ScriptClassify SpTweak Kv IndexStore IndexerCache ArchiveBackend FileArchive JsonWire Profile Sources Tasks LightIndexer LightIndexerFacts LightIndexerSync.

Record toy_tx := { tt_txid : bytes; tt_inputs : list TxIn; tt_outputs : list TxOut }.
Record toy_block := { tb_hash : bytes; tb_prev : bytes; tb_txs : list toy_tx }.

Definition toy_in (n : Z) : TxIn := {| in_txid := replicate 32 n; in_vout := 0; in_script_sig := []; in_witness := [replicate 64 1] |}.
Definition toy_coinbase_in : TxIn := {| in_txid := replicate 32 0; in_vout := umax 32; in_script_sig := [1]; in_witness := [] |}.
Definition toy_p2tr_out (n : Z) : TxOut := {| out_value := 1000; out_script_pubkey := p2tr_bytes (replicate 32 n) |}.
Definition toy_coinbase (n : Z) : toy_tx :=
  {| tt_txid := replicate 32 n; tt_inputs := [toy_coinbase_in]; tt_outputs := [{| out_value := 50; out_script_pubkey := [106] |}] |}.
(** A transaction with a P2TR output; one that spends it. *)
Definition toy_blocks : list toy_block := [
  {| tb_hash := replicate 32 10; tb_prev := replicate 32 0;
     tb_txs := [toy_coinbase 20; {| tt_txid := replicate 32 21; tt_inputs := [toy_in 9]; tt_outputs := [toy_p2tr_out 5] |}] |};
  {| tb_hash := replicate 32 11; tb_prev := replicate 32 10;
     tb_txs := [toy_coinbase 22; {| tt_txid := replicate 32 23; tt_inputs := [toy_in 21]; tt_outputs := [toy_p2tr_out 6] |}] |}].
Definition toy_undo : list BlockSpentTxOuts := [
  {| undo_txs := [[]; [{| value_sat := 1000; script_pubkey := p2tr_bytes (replicate 32 4) |}]] |};
  {| undo_txs := [[]; [{| value_sat := 1000; script_pubkey := p2tr_bytes (replicate 32 5) |}]] |}].

(** The raw bytes of a block are its height. *)
Definition toy_bitcoin : RustBitcoin := {|
  BtcBlock := toy_block; Transaction := toy_tx;
  deserialize bs := ok_or (toy_blocks !! Z.to_nat (default 0 (head bs))) "no such block";
  rb_block_hash := tb_hash; rb_prev_blockhash := tb_prev; rb_txdata := tb_txs;
  compute_txid := tt_txid; rb_input := tt_inputs; rb_output := tt_outputs;
  rb_is_coinbase t := match tt_inputs t with
                      | [i] => bool_decide (in_txid i = replicate 32 0) && bool_decide (in_vout i = umax 32)
                      | _ => false end |}.
(** Tasks complete in the reverse order. *)
Definition toy_scheduler : Scheduler.
Proof. refine {| completion := @reverse |}. intros A l. apply reverse_Permutation. Defined.
Definition toy_hex : Hex := {| hex_encode := λ bs, bs |}.
#[export] Existing Instances toy_bitcoin toy_scheduler toy_secp toy_hash160 std_templates toy_sha256 memory_store toy_json toy_hex.
#[export] Instance toy_light : CapnpPacked light_block := toy_capnp light_block.
#[export] Instance toy_stored : CapnpPacked stored_light_block := toy_capnp stored_light_block.

Definition toy_hashes : list bytes := tb_hash <$> toy_blocks.
Definition toy_index (hash : bytes) : option nat := fst <$> list_find (λ h, h = hash) toy_hashes.
Definition toy_source : BlockSource := default_source
  (λ h, if bool_decide (2 ≤ h) then Ok (replicate 32 12) else ok_or (toy_hashes !! Z.to_nat h) "no such height")
  (λ hash, i ← ok_or (toy_index hash) "no such block"; Ok [Z.of_nat i]) (Ok 7) [].
Definition toy_undo_of (hash : bytes) : res (option BlockSpentTxOuts) := Ok (toy_index hash ≫= λ i, toy_undo !! i).
Definition toy_undo_source : BlockSource := {|
  get_block_hash := get_block_hash toy_source; get_block_raw := get_block_raw toy_source;
  get_block_spent_txouts := toy_undo_of; get_blocks_spent_txouts := default_blocks_spent_txouts toy_undo_of;
  get_best_height := Ok 7; get_block_by_height := get_block_by_height toy_source;
  get_block_range_by_height := get_block_range_by_height toy_source;
  supports_block_range_batches := false; supports_block_spent_txouts := true; prefers_height_fetch := false; source_name := [] |}.

Definition toy_scan (i : nat) : BlockScanInput :=
  match decode_block_frame (Z.of_nat i) (default [] (toy_hashes !! i)) [Z.of_nat i] (toy_undo !! i) with
  | Ok b => b
  | _ => {| bk_height := 0; bk_block_hash := []; bk_previous_block_hash := []; bk_raw_block_bytes := 0; bk_txs := [] |}
  end.
Definition toy_scan0 : BlockScanInput := Eval vm_compute in toy_scan 0.
Definition toy_scan1 : BlockScanInput := Eval vm_compute in toy_scan 1.
Definition toy_chain (h : Z) : BlockScanInput := if bool_decide (h = 0) then toy_scan0 else toy_scan1.


(** Both transactions that are not coinbases have a tweak, so their outputs are indexed. *)
Example toy_tweaks : map (λ tx, bool_decide (is_Some (tx_silent_payment_tweak tx))) (bk_txs toy_scan0 ++ bk_txs toy_scan1) =
  [false; true; false; true].
Proof. reflexivity. Qed.

Ltac scan_wf b :=
  constructor; try (typed_tac; fail); try (vm_compute; congruence);
  [ by intros [|[|i]] tx [= <-]
  | intros tx t Htx Ht; cbn [b bk_txs] in Htx; list_cases; subst tx; cbn in Ht; [done|]; injection Ht as <-; typed_tac
  | intros tx o Htx Ho Hp; cbn [b bk_txs] in Htx; list_cases; subst tx; cbn [tx_outputs] in Ho; list_cases; subst o;
    try discriminate Hp; (eexists; split; [reflexivity|typed_tac]) ].
Lemma toy_scan0_wf : block_wf toy_scan0.
Proof. scan_wf toy_scan0. Qed.
Lemma toy_scan1_wf : block_wf toy_scan1.
Proof. scan_wf toy_scan1. Qed.

Lemma toy_serves : serves toy_chain toy_source toy_undo_source 0 2.
Proof.
  intros s k Hs Hk Hle. exists k, (Z.of_nat k). split; [lia|].
  assert ((s = 0 ∧ k = 1%nat) ∨ (s = 0 ∧ k = 2%nat) ∨ (s = 1 ∧ k = 1%nat)) as [[-> ->]|[[-> ->]|[-> ->]]] by lia;
    vm_compute; reflexivity.
Qed.

Ltac outpoint_tac := unfold outpoint_wf, hash_wf; typed_tac.
Definition toy_point (t v : Z) : OutPointKey := {| op_txid := replicate 32 t; op_vout := v |}.
Lemma toy_points : points (txs_of (segment toy_chain 0 2)) = [toy_point 21 0; toy_point 23 0].
Proof. reflexivity. Qed.
Lemma toy_named : named (txs_of (segment toy_chain 0 2)) = [null_point; toy_point 9 0; null_point; toy_point 21 0].
Proof. reflexivity. Qed.

Lemma toy_good : good_range toy_chain ∅ 0 2.
Proof.
  assert (Hcases : ∀ i, 0 ≤ i < 0 + Z.of_nat 2 → i = 0 ∨ i = 1) by lia.
  split.
  - lia.
  - intros i [->| ->]%Hcases; (split; [reflexivity|]); [apply toy_scan0_wf|apply toy_scan1_wf].
  - intros i Hi. assert (i = 1) as -> by lia. reflexivity.
  - apply (bool_decide_unpack _). vm_compute. done.
  - intros o Ho. assert (Forall (λ o, o ≠ null_point ∧ outpoint_wf o) (points (txs_of (segment toy_chain 0 2)))) as Hall.
    { rewrite toy_points. constructor; [split; [done|outpoint_tac]|]. constructor; [split; [done|outpoint_tac]|]. constructor. }
    rewrite Forall_forall in Hall. split; [apply lookup_empty|by apply Hall].
  - apply Forall_forall. rewrite toy_named. do 4 (constructor; [outpoint_tac|]). constructor.
  - apply (bool_decide_unpack _). vm_compute. done.
  - apply lookup_empty.
Qed.
