(* ===== verification/LightIndexerFrame.v ===== *)
(** * What the indexer binary decodes is well typed

    A decoded block has the shape the indexer relies on: every transaction and output
    carries its own position, keys have 32 bytes and tweaks 33.  The order in which the
    decoding tasks complete is irrelevant. *)

From S2P Require Import Prelude Bits Decimal Helper TaggedHash Bitmap SpentIds OutputHash LightBlock LightValid LightWire CutThrough UndoPayload P2trIndexer P2trFacts Indexer ScriptClassify SpTweak Kv IndexStore IndexerCache ArchiveBackend FileArchive JsonWire Profile Sources Tasks LightIndexer LightIndexerFacts LightIndexerSync LightIndexerToy.

Section frame.
Context `{RB : !RustBitcoin, SC : !Secp, HH : !Hash160, ST : !ScriptTemplates, SH : !Sha256}.

(** The script of the output is a P2TR one. *)
Definition native (o : TxOut) : bool :=
  match extract_p2tr_xonly (out_script_pubkey o) with Ok (Some _) => true | _ => false end.

(** What the types and the limits of Bitcoin give about a block that decodes. *)
Record frame_wf (height : Z) (hash bs : bytes) (block : BtcBlock) : Prop := {
  fw_height : in_width 32 height;
  fw_hashes : array_wf 32 hash ∧ array_wf 32 (rb_prev_blockhash block);
  fw_size : 0 < len bs;
  fw_txs : len (rb_txdata block) ≤ 65535;
  fw_outputs : len (base.filter (λ o, native o = true) (rb_txdata block ≫= rb_output)) ≤ 65535;
  fw_inputs : len (rb_txdata block ≫= rb_input) < 2 ^ 32;
  fw_scripts : ∀ tx o, tx ∈ rb_txdata block → o ∈ rb_output tx → bytes_wf (out_script_pubkey o)
}.

Lemma scan_output_spec vout o s : scan_output vout o = Ok s →
  to_vout s = Z.of_nat vout ∧ Z.of_nat vout < 2 ^ 32 ∧ to_is_p2tr s = native o ∧
  (to_is_p2tr s = true → bytes_wf (out_script_pubkey o) → ∃ k, to_p2tr_xonly_key s = Some k ∧ array_wf 32 k).
Proof.
  unfold scan_output, native. intros (v & [-> Hv]%try_from_Ok & (k & Hk & [= <-])%bind_Ok)%bind_Ok. cbn. rewrite Hk.
  split; [done|]. split; [lia|]. split; [by destruct k|]. rewrite bool_decide_eq_true. intros [x ->] Hw. exists x. split; [done|].
  unfold extract_p2tr_xonly in Hk. destruct (classify_sound (out_script_pubkey o)) as (kind & Hc & Hs). rewrite Hc in Hk.
  cbn [mbind res_bind] in Hk. destruct kind; try done. injection Hk as ->. destruct Hs as [Hl E].
  split; [done|]. rewrite E in Hw. unfold p2tr_bytes in Hw. by apply Forall_app in Hw as [_ ?].
Qed.

Lemma tweak_typed_undo i inputs outputs undo t : compute_sp_tweak_from_undo i inputs outputs undo = Ok (Some t) → array_wf 33 t.
Proof.
  unfold compute_sp_tweak_from_undo. destruct (negb _); [done|]. case_bool_decide; [done|].
  intros (u & _ & (ui & _ & ([] & _ & (ctx & _ & (st & Hst & Ht)%bind_Ok)%bind_Ok)%bind_Ok)%bind_Ok)%bind_Ok.
  destruct st as [t'| |]; try done. injection Ht as ->. unfold compute_tx_scan_point in Hst.
  destruct (_ || _); [done|]. case_bool_decide; [done|]. destruct (spends_witness_version_greater_than_one ctx); [done|].
  apply bind_Ok in Hst as (keys & _ & Hst). case_bool_decide; [done|]. destruct (combine_keys keys) as [sum|]; [|done].
  apply bind_Ok in Hst as (o & _ & (s & _ & (p & _ & [= <-])%bind_Ok)%bind_Ok). apply serialize_wf.
Qed.

(** A scanned transaction next to the one it was made from. *)
Record scanned (i : nat) (tx : Transaction) (s : TxScanInput) : Prop := {
  sc_index : tx_tx_index s = wrap 16 (Z.of_nat i);
  sc_inputs : tx_inputs s = scan_input <$> rb_input tx;
  sc_outputs : Forall2 (λ o so, to_is_p2tr so = native o ∧ (to_is_p2tr so = true → bytes_wf (out_script_pubkey o) →
    ∃ k, to_p2tr_xonly_key so = Some k ∧ array_wf 32 k)) (rb_output tx) (tx_outputs s);
  sc_tweak : ∀ t, tx_silent_payment_tweak s = Some t → array_wf 33 t
}.

Lemma Forall2_imap_pair {A B} (P : nat * A → B → Prop) (Q : nat → A → B → Prop) l k :
  (∀ i x y, P (i, x) y → Q i x y) → Forall2 P (imap pair l) k → ∀ i x y, l !! i = Some x → k !! i = Some y → Q i x y.
Proof.
  intros H Hf i x y Hx Hy. apply H. eapply (Forall2_lookup_lr _ _ _ i); [exact Hf| |done].
  by rewrite list_lookup_imap, Hx.
Qed.
Lemma Forall2_imap_forget {A B} (P : nat * A → B → Prop) (Q : A → B → Prop) l k :
  (∀ i x y, P (i, x) y → Q x y) → Forall2 P (imap pair l) k → Forall2 Q l k.
Proof.
  intros H Hf. apply Forall2_same_length_lookup. split.
  - apply Forall2_length in Hf. by rewrite length_imap in Hf.
  - intros i x y Hx Hy. by apply (Forall2_imap_pair P (λ _, Q) l k H Hf i).
Qed.

Lemma scan_tx_spec undo i tx s : scan_tx undo i tx = Ok s → scanned i tx s.
Proof.
  unfold scan_tx. intros (outs & Ho%map_res_Ok & (tw & Ht & [= <-])%bind_Ok)%bind_Ok. split; cbn.
  - done.
  - done.
  - eapply Forall2_imap_forget; [|exact Ho]. intros j o so Hso%scan_output_spec. naive_solver.
  - intros t ->. by eapply tweak_typed_undo.
Qed.

Lemma p2tr_of_count i tx s : scanned i tx s → length (p2tr_of s) = length (base.filter (λ o, native o = true) (rb_output tx)).
Proof.
  intros [_ _ Ho _]. unfold p2tr_of. rewrite length_fmap.
  induction Ho as [|o so os sos [E _] _ IH]; [done|]. rewrite !filter_cons, E. case_decide; cbn; by rewrite IH.
Qed.

Lemma decoded_scanned undo height hash bs b block :
  decode_block_frame height hash bs undo = Ok b → deserialize bs = Ok block →
  bk_height b = height ∧ bk_block_hash b = hash ∧ bk_previous_block_hash b = rb_prev_blockhash block ∧
  bk_raw_block_bytes b = len bs ∧ len bs < 2 ^ 32 ∧ length (bk_txs b) = length (rb_txdata block) ∧
  ∀ i tx s, rb_txdata block !! i = Some tx → bk_txs b !! i = Some s → scanned i tx s.
Proof.
  unfold decode_block_frame. intros H Hd. rewrite Hd in H. cbn [mbind res_bind] in H.
  apply bind_Ok in H as ([] & _ & (txs & Ht & (raw & [-> Hr]%try_from_Ok & [= <-])%bind_Ok)%bind_Ok). cbn.
  split_and!; try done.
  - apply map_res_length in Ht. by rewrite length_imap in Ht.
  - apply map_res_Ok in Ht. intros i tx s. apply (Forall2_imap_pair _ scanned _ _ (λ j x y Hs, scan_tx_spec undo j x y Hs) Ht).
Qed.

Lemma bind_length_lookup {A B C D} (f : A → list C) (g : B → list D) l k :
  length l = length k → (∀ i x y, l !! i = Some x → k !! i = Some y → length (f x) = length (g y)) →
  length (l ≫= f) = length (k ≫= g).
Proof.
  revert k. induction l as [|x l IH]; intros [|y k] Hl H; simpl in Hl; try done. rewrite !bind_cons, !length_app.
  rewrite (H 0%nat x y), (IH k); [done|lia| |done|done]. intros i. apply (H (S i)).
Qed.

(** C17: what decodes is well typed.  Decoding a frame of a block within Bitcoin's limits
    gives a block on which every precondition of the indexer holds: the position of
    each transaction, 32-byte keys exactly on the P2TR outputs, 33-byte tweaks, sizes
    that fit their fields. *)
Theorem decoded_block_wf (undo : option BlockSpentTxOuts) (height : Z) (hash bs : bytes) (b : BlockScanInput) (block : BtcBlock)
  (Hdec : decode_block_frame height hash bs undo = Ok b) (Hblock : deserialize bs = Ok block)
  (Hwf : frame_wf height hash bs block) : block_wf b.
Proof.
  destruct (decoded_scanned _ _ _ _ _ _ Hdec Hblock) as (Hh & Hb & Hp & Hr & Hsz & Hlen & Hsc).
  destruct Hwf as [Wh [Wa Wb] Ws Wt Wo Wi Wsc].
  assert (Htx : ∀ s, s ∈ bk_txs b → ∃ i tx, rb_txdata block !! i = Some tx ∧ scanned i tx s).
  { intros s [i Hi]%list_elem_of_lookup. destruct (lookup_lt_is_Some_2 (rb_txdata block) i) as [tx Htx].
    { rewrite <-Hlen. by apply lookup_lt_Some in Hi. }
    exists i, tx. split; [done|by apply Hsc]. }
  split.
  - by rewrite Hh.
  - by rewrite Hb, Hp.
  - rewrite Hr. lia.
  - by rewrite Hlen.
  - intros i s Hs. pose proof (lookup_lt_Some _ _ _ Hs) as Hlt. destruct (lookup_lt_is_Some_2 (rb_txdata block) i) as [tx Hx]; [lia|].
    rewrite (sc_index _ _ _ (Hsc i tx s Hx Hs)), wrap_small; [done|]. unfold in_width. lia.
  - intros s t (i & tx & _ & Hs)%Htx Ht. by eapply (sc_tweak _ _ _ Hs).
  - intros s o (i & tx & Hi & Hs)%Htx [j Hj]%list_elem_of_lookup Hpt.
    destruct (Forall2_lookup_r _ _ _ _ _ (sc_outputs _ _ _ Hs) Hj) as (o' & Ho' & _ & Hk). apply Hk; [done|].
    apply (Wsc tx); [by eapply list_elem_of_lookup_2|by eapply list_elem_of_lookup_2].
  - assert (length (p2tr_outs (bk_txs b)) = length (rb_txdata block ≫= λ tx, base.filter (λ o, native o = true) (rb_output tx))) as ->.
    { apply bind_length_lookup; [done|]. intros i s tx Hs Hx. by eapply p2tr_of_count, Hsc. }
    replace (rb_txdata block ≫= (λ tx, base.filter (λ o, native o = true) (rb_output tx)))
      with (base.filter (λ o, native o = true) (rb_txdata block ≫= rb_output)); [done|]. clear.
    induction (rb_txdata block) as [|tx txs IH]; [done|]. by rewrite !bind_cons, filter_app, IH.
  - replace (length (bk_txs b ≫= tx_inputs)) with (length (rb_txdata block ≫= rb_input)); [done|].
    apply bind_length_lookup; [done|]. intros i tx s Hx Hs. by rewrite (sc_inputs _ _ _ (Hsc i tx s Hx Hs)), length_fmap.
Qed.

(** The order in which the decoding tasks complete does not matter: whatever the two
    schedulers, if a chunk decodes to blocks of distinct heights under one, it decodes
    to the same chunk under the other. *)
Theorem decode_order_irrelevant (S1 S2 : Scheduler) (source undo_source : BlockSource) (start : Z) (count : nat) (c : DecodedChunk)
  (Hc : @fetch_and_decode_chunk RB S1 SC HH ST SH source undo_source start count = Ok c)
  (Hn : NoDup (bk_height <$> dc_blocks c)) :
  @fetch_and_decode_chunk RB S2 SC HH ST SH source undo_source start count = Ok c.
Proof.
  by apply (fetch_any_order S1 S2).
Qed.
End frame.

Lemma toy_frame_wf : frame_wf 0 (replicate 32 10) [0] (nth 0 toy_blocks {| tb_hash := []; tb_prev := []; tb_txs := [] |}).
Proof.
  split; [unfold in_width; lia|split; typed_tac|done|vm_compute; congruence|vm_compute; congruence|vm_compute; congruence|].
  intros tx o Htx Ho. cbn in Htx. list_cases; subst tx; cbn in Ho; list_cases; subst o; typed_tac.
Qed.
Lemma decoded_block_wf_witness : block_wf toy_scan0.
Proof.
  apply (decoded_block_wf (RB := toy_bitcoin) (toy_undo !! 0%nat) 0 (replicate 32 10) [0] toy_scan0
    (nth 0 toy_blocks {| tb_hash := []; tb_prev := []; tb_txs := [] |})); [vm_compute; reflexivity|reflexivity|apply toy_frame_wf].
Defined.

(** Tasks that complete in the order they were started. *)
Definition ordered_scheduler : Scheduler.
Proof. refine {| completion A l := l |}. intros. reflexivity. Defined.
Lemma decode_order_irrelevant_witness :
  @fetch_and_decode_chunk toy_bitcoin ordered_scheduler toy_secp toy_hash160 std_templates toy_sha256 toy_source toy_undo_source 0 2 =
  Ok {| dc_blocks := [toy_scan0; toy_scan1]; dc_raw_bytes := 2 |}.
Proof.
  apply (decode_order_irrelevant toy_scheduler ordered_scheduler toy_source toy_undo_source 0 2); [vm_compute; reflexivity|].
  apply (bool_decide_unpack _). vm_compute. done.
Defined.
