(* ===== verification/LightIndexerRun.v ===== *)
(** * The passes of the indexer binary refine the in-memory indexer

    [synced] relates the files, the database and the cache to an abstract indexer: a
    state with every coin in memory and a map of archived blocks.  A pass of
    [catch_up_ranges] moves it by a non-empty prefix of the range; the loop of [run]
    reaches the finalized tip, and what it leaves does not depend on the batch size, the
    flush size, the memory budget or the order in which blocks are decoded. *)

From S2P Require Import Prelude Bits Decimal Helper TaggedHash Bitmap SpentIds OutputHash LightBlock LightValid LightWire CutThrough UndoPayload P2trIndexer P2trFacts Indexer ScriptClassify SpTweak Kv IndexStore IndexerCache ArchiveBackend FileArchive JsonWire Profile Sources Tasks LightIndexer LightIndexerFacts LightIndexerSync LightIndexerToy.

(** ** The abstract archive *)

Definition store_block (A : archive_map) (out : AppliedBlock) : archive_map :=
  <[sb_height (ab_storage_block out) := norm_stored (ab_storage_block out)]> A.
Definition spends_of (outs : list AppliedBlock) : list spend :=
  outs ≫= λ out, (λ x, (su_creation_height x, su_output_index x, su_spent_height x)) <$> ab_spent_utxos out.
Definition archive_after (A : archive_map) (outs : list AppliedBlock) : archive_map :=
  (foldl mark1 (foldl store_block A outs, 0%nat) (spends_of outs)).1.

(** Marking does not look at the counter. *)
Lemma marks_count m n l : (foldl mark1 (m, n) l).1 = (foldl mark1 (m, 0%nat) l).1.
Proof.
  assert (∀ n', (foldl mark1 (m, n) l).1 = (foldl mark1 (m, n') l).1) as H; [|apply H].
  revert m n. induction l as [|[[c i] h] l IH]; intros m n n'; [done|]. cbn [foldl mark1].
  destruct (m !! c) as [s|]; [|apply IH]. rewrite (mark_one_count s n), (mark_one_count s n'). cbn. apply IH.
Qed.
Lemma marks_app m l1 l2 : (foldl mark1 (m, 0%nat) (l1 ++ l2)).1 = (foldl mark1 ((foldl mark1 (m, 0%nat) l1).1, 0%nat) l2).1.
Proof. rewrite foldl_app. destruct (foldl mark1 (m, 0%nat) l1) as [m1 n1]. apply marks_count. Qed.

(** A block stored above all the marks can be stored first. *)
Lemma marks_insert m h s l : Forall (λ x : spend, x.1.1 ≠ h) l →
  (foldl mark1 (<[h := s]> m, 0%nat) l).1 = <[h := s]> (foldl mark1 (m, 0%nat) l).1.
Proof.
  intros Hl. revert m. induction Hl as [|[[c i] hs] l Hx Hl IH]; intros m; [done|]. cbn [foldl mark1]. cbn in Hx.
  rewrite lookup_insert_ne by done. destruct (m !! c) as [st|]; [|apply IH].
  rewrite (mark_one_count st 0%nat). cbn. rewrite insert_insert_ne by done.
  by rewrite (marks_count (<[h := s]> _)), (marks_count (<[c := _]> m)), IH.
Qed.
Lemma marks_store A outs l :
  (∀ x out, x ∈ l → out ∈ outs → x.1.1 ≠ sb_height (ab_storage_block out)) →
  (foldl mark1 (foldl store_block A outs, 0%nat) l).1 = foldl store_block (foldl mark1 (A, 0%nat) l).1 outs.
Proof.
  revert A. induction outs as [|out outs IH]; intros A H; [done|]. cbn [foldl].
  rewrite IH by (intros; apply H; [done|by right]). unfold store_block at 2.
  rewrite marks_insert; [done|]. apply Forall_forall. intros x Hx. apply H; [done|left].
Qed.
Lemma spends_of_app outs1 outs2 : spends_of (outs1 ++ outs2) = spends_of outs1 ++ spends_of outs2.
Proof. apply bind_app. Qed.
(** Batches compose. *)
Lemma archive_after_app A outs1 outs2 :
  (∀ x out, x ∈ spends_of outs1 → out ∈ outs2 → x.1.1 ≠ sb_height (ab_storage_block out)) →
  archive_after A (outs1 ++ outs2) = archive_after (archive_after A outs1) outs2.
Proof.
  intros H. unfold archive_after at 1. rewrite foldl_app, spends_of_app, marks_app, marks_store by done. done.
Qed.

(** What marking keeps of the blocks. *)
Lemma marks_keep m l h s : (foldl mark1 (m, 0%nat) l).1 !! h = Some s → ∃ s0, m !! h = Some s0 ∧ marked_from s0 s.
Proof.
  revert m. induction l as [|[[c i] hs] l IH]; intros m; [intros ?; exists s; split; [done|apply marked_from_refl]|].
  cbn [foldl mark1]. destruct (m !! c) as [st|] eqn:E; [|apply IH]. rewrite (mark_one_count st 0%nat). cbn.
  rewrite marks_count. intros (s1 & Hs1 & Hm)%IH. apply lookup_insert_Some in Hs1 as [[-> <-]|[_ ?]].
  - exists st. split; [done|]. eapply marked_from_trans; [|exact Hm]. exact (mark_one_marked st 0%nat (i, hs)).
  - by exists s1.
Qed.

(** Storing blocks at distinct heights. *)
Lemma stored_lookup A outs h :
  NoDup ((λ out, sb_height (ab_storage_block out)) <$> outs) →
  (∀ out, out ∈ outs → sb_height (ab_storage_block out) = h → foldl store_block A outs !! h = Some (norm_stored (ab_storage_block out))) ∧
  ((∀ out, out ∈ outs → sb_height (ab_storage_block out) ≠ h) → foldl store_block A outs !! h = A !! h).
Proof.
  revert A. induction outs as [|out outs IH]; intros A Hn; [split; [by intros ? ?%not_elem_of_nil|done]|].
  rewrite fmap_cons in Hn. apply NoDup_cons in Hn as [Hni Hn]. destruct (IH (store_block A out) Hn) as [H1 H2]. cbn [foldl]. split.
  - intros out' [->|Hin]%elem_of_cons Hh; [|by apply H1]. rewrite H2.
    + unfold store_block. subst h. by rewrite lookup_insert_eq.
    + intros out2 Hin2 E. apply Hni, list_elem_of_fmap. exists out2. by rewrite Hh, E.
  - intros Hne. rewrite H2 by (intros; apply Hne; by right). unfold store_block. apply lookup_insert_ne, Hne. left.
Qed.

(** ** What a good segment gives *)
Section run.
Context `{RB : !RustBitcoin, SD : !Scheduler, SC : !Secp, HH : !Hash160, ST : !ScriptTemplates, SH : !Sha256, KV : !KvStore,
          CL : !CapnpPacked light_block, CS : !CapnpPacked stored_light_block, MJ : !ManifestJson, HX : !Hex}.

(** The results of the blocks of a chain, each between the first and the last UID. *)
Definition results (lo hi : Z) (b : BlockScanInput) (out : AppliedBlock) : Prop :=
  ∃ s s', block_result s b out s' ∧ lo ≤ next_uid s ∧ next_uid s' ≤ hi.

Lemma chain_results H self blocks outs self' :
  indexer_wf H self → chain_wf H blocks → next_uid self + 65538 * (len blocks + 1) < 2 ^ 64 →
  apply_blocks self blocks = Ok (outs, self') →
  next_uid self ≤ next_uid self' ≤ next_uid self + 65535 * len blocks ∧
  Forall2 (results (next_uid self) (next_uid self')) blocks outs ∧
  (∀ H', H ≤ H' → (∀ b, b ∈ blocks → bk_height b ≤ H') → indexer_wf H' self').
Proof.
  revert H self outs. induction blocks as [|b blocks IH]; intros H self outs Hs Hc Hcap Ha; cbn [apply_blocks] in Ha.
  { injection Ha as <- <-. split; [cbn; lia|]. split; [constructor|]. intros H' HH' _. destruct Hs as [? Hs].
    split; [done|]. by eapply spends_wf_mono; [| |exact Hs]. }
  cbn [length] in Hcap. destruct Hc as (Hle & Hb & Hc).
  destruct (apply_block_ok self b H Hs Hle Hb ltac:(lia)) as (out & self1 & E & Hr). rewrite E in Ha. cbn [mbind res_bind] in Ha.
  apply bind_Ok in Ha as ([outs' self2] & Ha & [= <- <-]).
  pose proof (br_next_uid _ _ _ _ Hr) as Hn1. pose proof (bw_outputs b Hb) as Hob.
  destruct (IH (bk_height b) self1 outs' (br_wf _ _ _ _ Hr) Hc ltac:(lia) Ha) as (Hn & Hf & Hw).
  split; [cbn [length]; lia|]. split.
  - constructor; [exists self, self1; split; [done|lia]|]. eapply Forall2_impl; [exact Hf|].
    intros b' out' (s & s' & ? & ? & ?). exists s, s'. split; [done|lia].
  - intros H' HH' Hall. apply Hw; [apply Hall; left|]. intros; apply Hall; by right.
Qed.

Lemma dense_from_elem k ps s p : (s, p) ∈ dense_from k ps → p ∈ ps.
Proof.
  revert k. induction ps as [|q ps IH]; intros k; cbn [dense_from]; [by intros ?%not_elem_of_nil|].
  rewrite elem_of_app, elem_of_cons. destruct (in_scope q); [|intros [?%not_elem_of_nil|?]; [done|right; by eapply IH]].
  intros [[= -> ->]%list_elem_of_singleton|?]; [by left|right; by eapply IH].
Qed.

(** The records of a block fit the rows of the database. *)
Lemma result_applied_wf lo hi b out :
  results lo hi b out → recorded b out → block_wf b → 0 ≤ lo → hi < 2 ^ 64 →
  (∀ o, o ∈ points (bk_txs b) → outpoint_wf o) → (∀ o, o ∈ named (bk_txs b) → outpoint_wf o) → applied_wf out.
Proof.
  intros (s & s' & R & Hlo & Hhi) [Hc Hx] Hb H0 Hh Hp Hn. split; apply Forall_forall.
  - intros c Hin. destruct (Hc c Hin) as (Hop & Hch & Hoi). pose proof (bw_height b Hb) as Hbh.
    assert (ue_uid (cu_entry c) ∈ (created (ab_storage_block out)).*1) as Hu.
    { rewrite (block_uids _ _ _ _ R). apply list_elem_of_fmap. by exists c. }
    pose proof (block_uids_range _ _ _ _ _ R Hu) as Hur.
    pose proof (sv_outputs _ (br_valid _ _ _ _ R)) as Hlen. unfold in_width in *. split_and!; [by apply Hp|..].
    + unfold spend_wf, created_lookup, in_width, is_byte. cbn. destruct (cu_is_reused c); cbn; split_and!; try lia; done.
    + pose proof (br_created _ _ _ _ R) as Hcr. apply list_elem_of_lookup in Hin as [i Hi].
      destruct (Forall2_lookup_l _ _ _ _ _ Hcr Hi) as ([slot [tx o]] & Hsp & _ & _ & Hk).
      apply list_elem_of_lookup_2, dense_from_elem in Hsp. unfold p2tr_outs, p2tr_of in Hsp.
      apply list_elem_of_bind in Hsp as (tx' & (o' & [= <- <-] & [Hpt Ho]%list_elem_of_filter)%list_elem_of_fmap & Htx).
      destruct (bw_keys b Hb tx o) as (k & Ek & [Hk' _]); [done|done|by destruct (to_is_p2tr o)|].
      cbn in Hk. rewrite Ek in Hk. by injection Hk as ->.
  - intros x Hin. destruct (Hx x Hin) as [? _]. by apply Hn.
Qed.
Context (chain : Z → BlockScanInput) (meta : bytes → option bytes).
Notation segment := (segment chain).
Notation good_range := (good_range chain).

Lemma segment_chain_wf L0 h n H : good_range L0 h n → H ≤ h → chain_wf H (segment h n).
Proof.
  intros Hg. unfold LightIndexerSync.segment.
  assert (∀ k a H, (a + k ≤ n)%nat → H ≤ h + Z.of_nat a → chain_wf H (chain <$> seqZ (h + Z.of_nat a) (Z.of_nat k))) as Hgen.
  { clear H. induction k as [|k IH]; intros a H Ha Hle; [done|].
    rewrite seqZ_cons, fmap_cons by lia. cbn [chain_wf].
    destruct (gr_block _ _ _ _ Hg (h + Z.of_nat a)) as [Hh Hb]; [lia|]. split_and!; [lia|done|].
    replace (Z.succ (h + Z.of_nat a)) with (h + Z.of_nat (S a)) by lia.
    replace (Z.pred (Z.of_nat (S k))) with (Z.of_nat k) by lia. apply IH; lia. }
  intros Hle. pose proof (Hgen n 0%nat H) as Hn. rewrite Z.add_0_r in Hn. apply Hn; lia.
Qed.

(** What is left of a range after a prefix of it. *)
Lemma good_suffix full h n k outs fullk : (k ≤ n)%nat → good_range (outpoint_to_spend full) h n →
  apply_blocks full (segment h k) = Ok (outs, fullk) → good_range (outpoint_to_spend fullk) (h + Z.of_nat k) (n - k).
Proof.
  intros Hk Hg Ha. pose proof Hg as [H1 H2 H3 H4 H5 H6 H7 H8].
  pose proof (null_unspent chain full h n Hg k outs fullk Hk Ha) as Hnull. apply ledger_chain in Ha as [_ _ _ _ Hother].
  rewrite (segment_split chain h k n Hk), txs_of_app in *. rewrite points_app in *. rewrite named_app in *.
  apply NoDup_app in H4 as (_ & Hd & H4). rewrite filter_app in H7. apply NoDup_app in H7 as (_ & _ & H7).
  split; [lia|intros; apply H2; lia|intros; apply H3; lia|done| | |done|done].
  - intros o Ho. destruct (H5 o) as (Hl & ? & ?); [apply elem_of_app; by right|]. split_and!; [|done|done].
    destruct (Hother o) as [Hin Hout]; [intros Hp; by apply (Hd o)|].
    destruct (decide (o ∈ named (txs_of (segment h k)))); [by apply Hin|]. by rewrite Hout.
  - intros o Ho. apply H6, elem_of_app. by right.
Qed.

(** The blocks of a segment and their results. *)
Lemma segment_heights h n b : (∀ i, h ≤ i < h + Z.of_nat n → bk_height (chain i) = i) →
  b ∈ segment h n → h ≤ bk_height b < h + Z.of_nat n.
Proof. intros Hh (i & -> & Hi)%segment_elem. by rewrite Hh. Qed.

Lemma results_header lo hi b out : results lo hi b out → sb_height (ab_storage_block out) = bk_height b ∧ lb_height (ab_light_block out) = bk_height b.
Proof.
  intros (s & s' & R & _). destruct (br_header _ _ _ _ R) as (Hh & _). split; [done|].
  pose proof (br_light _ _ _ _ R) as Hl. unfold to_response_input_for_labels in Hl.
  apply bind_Ok in Hl as (st & _ & ([cnt ids] & _ & ([] & _ & [= <-])%bind_Ok)%bind_Ok). exact Hh.
Qed.

Lemma results_heights lo hi bs outs : Forall2 (results lo hi) bs outs →
  (λ out, sb_height (ab_storage_block out)) <$> outs = bk_height <$> bs.
Proof.
  induction 1 as [|b out bs outs Hr Hrs IH]; [done|]. rewrite !fmap_cons, IH. by destruct (results_header _ _ _ _ Hr) as [-> _].
Qed.

Definition fits (out : AppliedBlock) : Prop :=
  ∀ msg, encode_stored_light_block (ab_storage_block out) = Ok msg → capnp_fits msg.

Lemma results_encodes lo hi b out : results lo hi b out → encodes out.
Proof.
  intros (s & s' & R & _). pose proof (encode_stored_ok _ (br_typed _ _ _ _ R)) as Ho.
  specialize (Ho (proj2 (validate_stored_ok _ (br_typed _ _ _ _ R)) (br_valid _ _ _ _ R))).
  unfold encodes. destruct (encode_stored_light_block _) as [msg| |]; [by exists msg|done..].
Qed.

Lemma write_payloads_holds lo hi fs A bs outs :
  holds_blocks fs A → Forall2 (results lo hi) bs outs → Forall fits outs → (∀ b, b ∈ bs → in_width 64 (bk_height b)) →
  holds_blocks (write_payloads fs (pending_of <$> outs)) (foldl store_block A outs).
Proof.
  intros HA Hr. revert fs A HA. induction Hr as [|b out bs outs Hr Hrs IH]; intros fs A HA Hf Hb; [done|].
  rewrite Forall_cons in Hf. destruct Hf as [Hf Hfs]. rewrite fmap_cons. unfold write_payloads. cbn [foldl].
  apply IH; [|done|intros; apply Hb; by right].
  destruct (results_header _ _ _ _ Hr) as [Eh El]. destruct (results_encodes _ _ _ _ Hr) as [msg He].
  destruct Hr as (s & s' & R & _). unfold pending_of at 2, store_block. cbn [pd_applied pd_payload]; unfold pending_of; cbn [pd_applied pd_payload]. rewrite He, El, Eh.
  apply holds_write; [apply Hb; left|done|by apply norm_stored_typed, R|by rewrite norm_twice| |by apply Hf].
  by rewrite encode_norm by apply R.
Qed.

Lemma pending_spends_of outs : pending_spends (pending_of <$> outs) = spends_of outs.
Proof. unfold pending_spends, spends_of. induction outs as [|out outs IH]; [done|]. rewrite fmap_cons, !bind_cons. by rewrite IH. Qed.

(** Every coin was created below [next] and, when the archive has that block, at an
    output of it. *)
Definition coins_archived (m : index_map) (A : archive_map) (next : Z) : Prop :=
  ∀ o s, m !! o = Some s → 0 ≤ sl_creation_height s < next ∧ 0 ≤ sl_output_index s ∧
    ∀ st, A !! sl_creation_height s = Some st → (Z.to_nat (sl_output_index s) < length (sb_outputs st))%nat.

(** The coins and the spends of a segment point into the archive with its blocks stored. *)
Section marks.
Context (m0 : index_map) (A : archive_map) (h : Z) (n : nat) (outs : list AppliedBlock) (m : index_map) (lo hi : Z).
Hypothesis Hbounds : 0 ≤ h ∧ h + Z.of_nat n < 2 ^ 32.
Hypothesis Hheights : ∀ i, h ≤ i < h + Z.of_nat n → bk_height (chain i) = i.
Hypothesis Hcoins : coins_archived m0 A h.
Hypothesis Hledger : chain_ledger m0 (segment h n) outs m.
Hypothesis Hresults : Forall2 (results lo hi) (segment h n) outs.

Lemma outs_heights : (λ out, sb_height (ab_storage_block out)) <$> outs = seqZ h (Z.of_nat n).
Proof.
  assert ((λ out, sb_height (ab_storage_block out)) <$> outs = bk_height <$> segment h n) as ->.
  { by eapply results_heights. }
  unfold LightIndexerSync.segment. rewrite <-list_fmap_compose. rewrite <-(list_fmap_id (seqZ h (Z.of_nat n))) at 2.
  apply list_fmap_ext. intros i x Hx%list_elem_of_lookup_2%elem_of_seqZ. simpl. by apply Hheights.
Qed.

Lemma created_archived o s : created_in outs o s →
  h ≤ sl_creation_height s < h + Z.of_nat n ∧ 0 ≤ sl_output_index s ∧
  ∃ st, foldl store_block A outs !! sl_creation_height s = Some st ∧
        (Z.to_nat (sl_output_index s) < length (sb_outputs st))%nat.
Proof.
  intros (out & c & Hout & Hc & <- & <-). pose proof Hout as [i Hi]%list_elem_of_lookup.
  destruct (Forall2_lookup_r _ _ _ _ _ Hresults Hi) as (b & Hb & Hr).
  destruct (Forall2_lookup_r _ _ _ _ _ (cl_recorded _ _ _ _ Hledger) Hi) as (b' & Hb' & Hrec & _). simplify_eq.
  destruct (Hrec c Hc) as (_ & Hh & Hi'). destruct (results_header _ _ _ _ Hr) as [Eh _].
  apply list_elem_of_lookup_2 in Hb. pose proof (segment_heights h n b Hheights Hb) as Hbh. unfold created_lookup. cbn.
  rewrite Hh. split; [done|]. split; [lia|].
  exists (norm_stored (ab_storage_block out)). split; [|cbn; lia].
  apply (stored_lookup A outs (bk_height b)); [rewrite outs_heights; apply NoDup_seqZ|done|done].
Qed.

Lemma kept_archived o s : m0 !! o = Some s →
  0 ≤ sl_creation_height s < h ∧ 0 ≤ sl_output_index s ∧
  ∀ st, foldl store_block A outs !! sl_creation_height s = Some st → (Z.to_nat (sl_output_index s) < length (sb_outputs st))%nat.
Proof.
  intros Hs. destruct (Hcoins o s Hs) as (Hb & Hi & Ha). split; [done|]. split; [done|]. intros st.
  assert (foldl store_block A outs !! sl_creation_height s = A !! sl_creation_height s) as ->; [|apply Ha].
  apply stored_lookup; [rewrite outs_heights; apply NoDup_seqZ|]. intros out Hout E.
  assert (sb_height (ab_storage_block out) ∈ seqZ h (Z.of_nat n)) as ?%elem_of_seqZ; [|lia].
  rewrite <-outs_heights. apply list_elem_of_fmap. by exists out.
Qed.

Lemma spends_archived : Forall (marks_archive (foldl store_block A outs)) (spends_of outs).
Proof.
  apply Forall_forall. intros x (out & Hx & Hout)%list_elem_of_bind. apply list_elem_of_fmap in Hx as (sp & -> & Hsp).
  destruct (cl_spent _ _ _ _ Hledger out sp Hout Hsp) as (s & Hs & -> & ->).
  assert (in_width 32 (su_spent_height sp)) as Hw.
  { pose proof Hout as [i Hi]%list_elem_of_lookup.
    destruct (Forall2_lookup_r _ _ _ _ _ (cl_recorded _ _ _ _ Hledger) Hi) as (b & Hb & _ & Hrec).
    destruct (Hrec sp Hsp) as [_ ->]. apply list_elem_of_lookup_2 in Hb. pose proof (segment_heights h n b Hheights Hb).
    unfold in_width. lia. }
  unfold marks_archive, marks_into, in_width in *. destruct Hs as [Hs|Hs].
  - destruct (kept_archived _ _ Hs) as (? & ? & Ha). split_and!; try lia. intros st Hst. split; [by apply Ha|cbn; lia].
  - destruct (created_archived _ _ Hs) as (? & ? & st & Est & ?). split_and!; try lia.
    intros st' Hst. rewrite Est in Hst. injection Hst as <-. split; [done|cbn; lia].
Qed.

Lemma coins_after : coins_archived m (archive_after A outs) (h + Z.of_nat n).
Proof.
  intros o s Hs. unfold archive_after.
  destruct (cl_source _ _ _ _ Hledger o s Hs) as [Hs'|Hs'].
  - destruct (kept_archived _ _ Hs') as (? & ? & Ha). split; [lia|]. split; [done|].
    intros st (st0 & Hst0 & Hm)%marks_keep. rewrite (marked_from_length _ _ Hm). by apply Ha.
  - destruct (created_archived _ _ Hs') as (? & ? & st & Est & ?). split; [lia|]. split; [done|].
    intros st' (st0 & Hst0 & Hm)%marks_keep. rewrite (marked_from_length _ _ Hm). congruence.
Qed.

(** The spends are of coins created before the end of the segment. *)
Lemma spends_below x : x ∈ spends_of outs → x.1.1 < h + Z.of_nat n.
Proof.
  intros (out & Hx & Hout)%list_elem_of_bind. apply list_elem_of_fmap in Hx as (sp & -> & Hsp).
  destruct (cl_spent _ _ _ _ Hledger out sp Hout Hsp) as (s & [Hs|Hs] & Ec & _); cbn; rewrite Ec.
  - destruct (kept_archived _ _ Hs) as (? & _). lia.
  - destruct (created_archived _ _ Hs) as (? & _). lia.
Qed.
End marks.

(** ** One pass *)

(** The files, the database and the cache before height [next] stand for the indexer
    [full] with every coin in memory and the archive [A]. *)
Record synced (fs : FileArchive) (d : Db) (state full : P2trIndexerState) (A : archive_map) (next : Z) (t : option IndexTip) : Prop := {
  sy_holds : holds d (outpoint_to_spend full);
  sy_cache : caches [] (outpoint_to_spend full) state full;
  sy_blocks : holds_blocks fs A;
  sy_coins : coins_archived (outpoint_to_spend full) A next;
  sy_wf : indexer_wf next full;
  sy_tip : tip d = Ok t;
  sy_meta : ∀ k, k ∈ [KEY_NETWORK; KEY_START_HEIGHT] → db_get d k = meta k
}.

(** What a pass over [n] heights from [h] needs of the chain. *)
Record ready (full : P2trIndexerState) (t : option IndexTip) (h : Z) (n : nat) : Prop := {
  rd_chain : good_range (outpoint_to_spend full) h n;
  rd_link : ∀ x, t = Some x → (0 < n)%nat → bk_previous_block_hash (chain h) = it_block_hash x;
  rd_uids : next_uid full + 65538 * (Z.of_nat n + 1) < 2 ^ 64;
  rd_fits : ∀ k outs fullk, (k ≤ n)%nat → apply_blocks full (segment h k) = Ok (outs, fullk) → Forall fits outs
}.
Definition tip_at (full : P2trIndexerState) (last : Z) : IndexTip :=
  {| it_height := last; it_block_hash := bk_block_hash (chain last); it_last_uid := next_uid full |}.

Lemma flush_synced fs d state full A t network config h n k outs fullk c :
  fits_marked → synced fs d state full A h t → ready full t h n → (0 < k ≤ n)%nat →
  loop_inv chain full h (option_map it_block_hash t) k outs fullk c → 
  ∃ fs' d', flush_pending fs d network config c = (fs', d', Ok (h + Z.of_nat k, cs_state c)) ∧
    synced fs' d' (cs_state c) fullk (archive_after A outs) (h + Z.of_nat k) (Some (tip_at fullk (h + Z.of_nat k - 1))) ∧
    manifest_file fs' = Some (to_vec_pretty (catch_up_manifest network config (h + Z.of_nat k - 1) (bk_block_hash (chain (h + Z.of_nat k - 1))))).
Proof.
  intros Hfm [Hd Hcache HA Hco Hwf _ Hmeta] [Hg _ Hu Hf] Hk [Ha Hc Hp _ Hl _].
  pose proof (good_prefix chain _ _ k n ltac:(lia) Hg) as Hgk. destruct (gr_bounds _ _ _ _ Hgk) as [Hh0 Hhn].
  pose proof (segment_chain_wf _ _ _ h Hgk ltac:(lia)) as Hcw.
  destruct (chain_results h full _ outs fullk Hwf Hcw) as (Hnu & Hres & Hwf'); [rewrite length_segment; lia|done|].
  rewrite length_segment in Hnu. pose proof (ledger_chain _ _ _ _ Ha) as Hled.
  assert (Hhs : ∀ i, h ≤ i < h + Z.of_nat k → bk_height (chain i) = i) by (intros; by apply (gr_block _ _ _ _ Hgk)).
  destruct Hwf as [H0 _]. assert (H64 : 2 ^ 32 < 2 ^ 64) by done.
  unfold flush_pending. rewrite Hl, bool_decide_false by lia. rewrite Hp.
  pose proof (write_payloads_holds _ _ fs A _ outs HA Hres (Hf k outs fullk ltac:(lia) Ha)) as Hw.
  specialize (Hw ltac:(intros b Hb; pose proof (segment_heights h k b Hhs Hb); unfold in_width; lia)).
  rewrite pending_spends_of.
  destruct (mark_archive _ _ (spends_of outs) Hfm Hw) as (fs1 & -> & Hm1).
  { by eapply spends_archived. }
  assert (Hap : Forall applied_wf outs).
  { apply Forall_forall. intros out [i Hi]%list_elem_of_lookup.
    destruct (Forall2_lookup_r _ _ _ _ _ Hres Hi) as (b & Hb & Hr).
    destruct (Forall2_lookup_r _ _ _ _ _ (cl_recorded _ _ _ _ Hled) Hi) as (b' & Hb' & Hrec). simplify_eq.
    apply list_elem_of_lookup_2 in Hb.
    assert (∀ tx, tx ∈ bk_txs b → tx ∈ txs_of (segment h k)) as Htx by (intros tx Htx; apply list_elem_of_bind; by exists b).
    pose proof Hb as (j & -> & Hj)%segment_elem.
    eapply (result_applied_wf _ _ _ _ Hr Hrec); [by apply (gr_block _ _ _ _ Hgk)|lia|lia| |].
    - intros o Ho. apply (gr_fresh _ _ _ _ Hgk). unfold points in *. set_solver.
    - intros o Ho. apply (gr_named _ _ _ _ Hgk). unfold named in *. set_solver. }
  replace (pd_applied <$> (pending_of <$> outs)) with outs by (rewrite <-list_fmap_compose; symmetry; apply list_fmap_id).
  set (last := h + Z.of_nat k - 1). destruct (gr_block _ _ _ _ Hgk last ltac:(lia)) as [Hlh Hlw].
  destruct (commit_holds d (outpoint_to_spend full) outs last (bk_block_hash (chain last)) (last_uid (cs_state c))) as (d' & -> & Hd' & Ht' & Hk');
    [done|done|unfold in_width; lia|apply (bw_hashes _ Hlw)| |].
  { unfold last_uid. rewrite (ch_uid _ _ _ _ Hc). unfold in_width. lia. }
  rewrite <-(cl_index _ _ _ _ Hled) in Hd'; [|apply (gr_points _ _ _ _ Hgk)|intros o Ho; by apply (gr_fresh _ _ _ _ Hgk)].
  eexists _, d'. rewrite wrap_small by (unfold in_width; lia). replace (last + 1) with (h + Z.of_nat k) by lia.
  split; [done|]. split; [|done]. split.
  - done.
  - destruct Hc as [? ? ? ? _]. split; [done..|by intros ? ?%not_elem_of_nil|by right].
  - exact Hm1.
  - by eapply coins_after.
  - apply Hwf'; [lia|]. intros b Hb. pose proof (segment_heights h k b Hhs Hb). lia.
  - rewrite Ht'. unfold tip_at, last_uid. by rewrite (ch_uid _ _ _ _ Hc).
  - intros key Hkey. rewrite <-Hmeta by done. clear -Hk' Hkey.
    rewrite !elem_of_cons, elem_of_nil in Hkey. destruct Hkey as [->|[->|[]]]; (apply Hk'; [done|]);
      cbn; rewrite !elem_of_cons, elem_of_nil; intros [?|[?|[?|[]]]]; done.
Qed.

(** The bounds of the configuration. *)
Definition config_ok (config : CatchUpConfig) (h : Z) : Prop :=
  0 < fetch_batch_size config ∧ 0 < flush_blocks config ∧ emit_start_height config ≤ h.
(** The heights of one pass. *)
Definition pass_count (config : CatchUpConfig) (h finalized_tip : Z) : nat :=
  Z.to_nat (Z.min (finalized_tip - h + 1) (flush_blocks config)).

Lemma pass_synced fs d state full A t network config source undo_source h ft :
  fits_marked → synced fs d state full A h t → config_ok config h → h ≤ ft →
  ready full t h (pass_count config h ft) → serves chain source undo_source h (pass_count config h ft) → ft < 2 ^ 63 →
  ∃ k outs fullk fs' d' state', (0 < k ≤ pass_count config h ft)%nat ∧
    catch_up_ranges fs d network source undo_source state config h ft = (fs', d', Ok (h + Z.of_nat k, state')) ∧
    apply_blocks full (segment h k) = Ok (outs, fullk) ∧
    synced fs' d' state' fullk (archive_after A outs) (h + Z.of_nat k) (Some (tip_at fullk (h + Z.of_nat k - 1))) ∧
    manifest_file fs' = Some (to_vec_pretty (catch_up_manifest network config (h + Z.of_nat k - 1) (bk_block_hash (chain (h + Z.of_nat k - 1))))).
Proof.
  intros Hfm Hsy (Hbatch & Hflush & Hemit) Hle Hr Hs Hft. set (n := pass_count config h ft) in *.
  pose proof Hr as [Hg Hlink Hu _]. pose proof Hsy as [Hd Hc _ _ Hwf Ht _].
  destruct (gr_bounds _ _ _ _ Hg) as [Hh Hn]. assert (H64 : 2 ^ 32 < 2 ^ 63) by done. assert (2 ^ 63 < 2 ^ 64) by done.
  assert (Hnz : Z.of_nat n = Z.min (ft - h + 1) (flush_blocks config)) by (unfold n, pass_count; lia).
  pose proof (segment_chain_wf _ _ _ h Hg ltac:(lia)) as Hcw.
  destruct (apply_blocks_ok h full (segment h n) Hwf Hcw) as (outsN & fullN & HaN & _); [rewrite length_segment; lia|].
  destruct (chain_results h full _ outsN fullN Hwf Hcw) as (_ & Hres & _); [rewrite length_segment; lia|done|].
  assert (Henc : Forall encodes outsN).
  { apply Forall_forall. intros out [i Hi]%list_elem_of_lookup.
    destruct (Forall2_lookup_r _ _ _ _ _ Hres Hi) as (b & _ & Hb). by eapply results_encodes. }
  unfold catch_up_ranges. rewrite (wrap_small 64 (ft - h)), (wrap_small 64 (ft - h + 1)) by (unfold in_width; lia).
  rewrite <-Hnz. rewrite (wrap_small 64 (h + _)), wrap_small by (unfold in_width; lia).
  assert (Hpt : previous_tip_hash d = Ok (option_map it_block_hash t)) by (unfold previous_tip_hash; by rewrite Ht).
  rewrite Hpt. rsimpl.
  destruct (loop_extends chain d full source undo_source config h n (option_map it_block_hash t) outsN fullN Hd Hg Hs) with
    (fuel := Z.to_nat (h + Z.of_nat n - 1 + 1 - h)) (j := 0%nat) (outs := @nil AppliedBlock) (fullj := full)
    (c := {| cs_state := state; cs_pending := []; cs_last := None; cs_previous_tip_hash := option_map it_block_hash t;
             cs_processed_raw_bytes := 0; cs_pending_payload_bytes := 0; cs_chunk_start := h |})
    as (k & outs & fullk & c' & Hck & Hk & Hi & _); [|done|done|done|done| |lia|lia|lia|constructor|].
  { intros p Hp. destruct t as [x|]; [|done]. injection Hp as <-. apply Hlink; [done|lia]. }
  { split; cbn; [done|done|done|done|done|lia]. }
  rewrite Hck. destruct (flush_synced fs d state full A t network config h n k outs fullk c' Hfm Hsy Hr Hk Hi)
    as (fs' & d' & -> & Hsy' & Hm).
  exists k, outs, fullk, fs', d', (cs_state c'). split; [done|]. split; [done|]. split; [apply Hi|]. done.
Qed.

(** ** The loop of [run] *)

Lemma ready_prefix full t h a n : (a ≤ n)%nat → ready full t h n → ready full t h a.
Proof.
  intros Ha [Hg Hl Hu Hf]. split.
  - by eapply good_prefix.
  - intros x Hx ?. apply (Hl x); [done|lia].
  - lia.
  - intros k outs fullk ?. apply Hf. lia.
Qed.
Lemma ready_suffix full t h n k outs fullk H :
  ready full t h n → (0 < k ≤ n)%nat → indexer_wf H full → H ≤ h → apply_blocks full (segment h k) = Ok (outs, fullk) →
  ready fullk (Some (tip_at fullk (h + Z.of_nat k - 1))) (h + Z.of_nat k) (n - k).
Proof.
  intros [Hg _ Hu Hf] Hk Hwf Hle Ha. pose proof (good_prefix chain _ _ k n ltac:(lia) Hg) as Hgk.
  pose proof (segment_chain_wf _ _ _ H Hgk Hle) as Hcw.
  destruct (chain_results H full _ outs fullk Hwf Hcw) as (Hnu & _ & _); [rewrite length_segment; lia|done|].
  rewrite length_segment in Hnu. split.
  - eapply good_suffix; [lia|done|done].
  - intros x [= <-] ?. cbn. apply (gr_links _ _ _ _ Hg). lia.
  - lia.
  - intros j outs2 fullj Hj Ha2.
    assert (Forall fits (outs ++ outs2)) as [_ ?]%Forall_app; [|done].
    apply (Hf (k + j)%nat _ fullj); [lia|]. rewrite segment_app. apply apply_blocks_app. by exists outs, fullk, outs2.
Qed.
Lemma serves_sub source undo_source h n k j : (k + j ≤ n)%nat →
  serves chain source undo_source h n → serves chain source undo_source (h + Z.of_nat k) j.
Proof. intros Hkj Hs s m ? ? ?. apply Hs; lia. Qed.

(** The sources of a pass report the tip [best] and serve the range. *)
Definition pass_ready (best h : Z) (n : nat) (p : BlockSource * BlockSource) : Prop :=
  get_best_height p.1 = Ok best ∧ is_ok (get_block_hash p.1 best) ∧ serves chain p.1 p.2 h n.

Lemma batches_compose full A h k j n outs1 fullk outs2 fullj H :
  good_range (outpoint_to_spend full) h n → (k + j ≤ n)%nat → coins_archived (outpoint_to_spend full) A h →
  indexer_wf H full → H ≤ h → next_uid full + 65538 * (Z.of_nat n + 1) < 2 ^ 64 →
  apply_blocks full (segment h k) = Ok (outs1, fullk) → apply_blocks fullk (segment (h + Z.of_nat k) j) = Ok (outs2, fullj) →
  archive_after A (outs1 ++ outs2) = archive_after (archive_after A outs1) outs2.
Proof.
  intros Hg Hkj Hco Hwf Hle Hu Ha1 Ha2. apply archive_after_app. intros x out Hx Hout.
  pose proof (good_prefix chain _ _ k n ltac:(lia) Hg) as Hgk.
  pose proof (segment_chain_wf _ _ _ H Hgk Hle) as Hcw.
  destruct (chain_results H full _ outs1 fullk Hwf Hcw) as (Hnu & Hres1 & Hwf'); [rewrite length_segment; lia|done|].
  rewrite length_segment in Hnu.
  assert (Hhs : ∀ i, h ≤ i < h + Z.of_nat n → bk_height (chain i) = i) by (intros; by apply (gr_block _ _ _ _ Hg)).
  pose proof (spends_below (outpoint_to_spend full) A h k outs1 (outpoint_to_spend fullk) (next_uid full) (next_uid fullk)) as Hsb.
  specialize (Hsb ltac:(intros; apply Hhs; lia) Hco (ledger_chain _ _ _ _ Ha1) Hres1 x Hx).
  pose proof (good_suffix full h n k outs1 fullk ltac:(lia) Hg Ha1) as Hg2.
  pose proof (good_prefix chain _ _ j (n - k) ltac:(lia) Hg2) as Hgj.
  pose proof (segment_chain_wf _ _ _ (h + Z.of_nat k) Hgj ltac:(lia)) as Hcw2.
  assert (Hwf2 : indexer_wf (h + Z.of_nat k) fullk).
  { apply Hwf'; [lia|]. intros b Hb. pose proof (segment_heights h k b ltac:(intros; apply Hhs; lia) Hb). lia. }
  destruct (chain_results (h + Z.of_nat k) fullk (segment (h + Z.of_nat k) j) outs2 fullj Hwf2 Hcw2) as (_ & Hres2 & _); [rewrite length_segment; lia|done|].
  apply list_elem_of_lookup in Hout as [i Hi]. destruct (Forall2_lookup_r _ _ _ _ _ Hres2 Hi) as (b & Hb & Hr).
  destruct (results_header _ _ _ _ Hr) as [-> _]. apply list_elem_of_lookup_2 in Hb.
  pose proof (segment_heights (h + Z.of_nat k) j b ltac:(intros; apply Hhs; lia) Hb). lia.
Qed.

(** The tip after a run over [n] heights. *)
Definition tip_after_run (t : option IndexTip) (fulln : P2trIndexerState) (h : Z) (n : nat) : option IndexTip :=
  if bool_decide (n = 0%nat) then t else Some (tip_at fulln (h + Z.of_nat n - 1)).

Lemma tip_after_rest fullk fulln h n k : (k ≤ n)%nat → (k = n → fullk = fulln) →
  tip_after_run (Some (tip_at fullk (h + Z.of_nat k - 1))) fulln (h + Z.of_nat k) (n - k) = Some (tip_at fulln (h + Z.of_nat n - 1)).
Proof.
  intros Hk E. unfold tip_after_run. destruct (decide (n - k = 0)%nat) as [Hz|Hz].
  - rewrite bool_decide_true by done. rewrite E by lia. do 2 f_equal. lia.
  - rewrite bool_decide_false by done. do 2 f_equal. lia.
Qed.

(** The manifest after it: that of the last block, once there is one. *)
Definition manifest_after_run (fs : FileArchive) (network : ArchiveNetwork) (config : CatchUpConfig) (h : Z) (n : nat) : option bytes :=
  if bool_decide (n = 0%nat) then manifest_file fs
  else Some (to_vec_pretty (catch_up_manifest network config (h + Z.of_nat n - 1) (bk_block_hash (chain (h + Z.of_nat n - 1))))).
Lemma manifest_after_rest fs1 network config h n k : (k ≤ n)%nat →
  manifest_file fs1 = Some (to_vec_pretty (catch_up_manifest network config (h + Z.of_nat k - 1) (bk_block_hash (chain (h + Z.of_nat k - 1))))) →
  manifest_after_run fs1 network config (h + Z.of_nat k) (n - k) =
    Some (to_vec_pretty (catch_up_manifest network config (h + Z.of_nat n - 1) (bk_block_hash (chain (h + Z.of_nat n - 1))))).
Proof.
  intros Hk E. unfold manifest_after_run. replace (h + Z.of_nat k + Z.of_nat (n - k)) with (h + Z.of_nat n) by lia.
  case_bool_decide; [|done]. by replace k with n in E by lia.
Qed.

Lemma passes_synced network config best passes : fits_marked →
  ∀ fs d state full A t h n,
  synced fs d state full A h t → config_ok config h → ready full t h n →
  h + Z.of_nat n = saturating_sub best (cu_finality_depth config) + 1 →
  Forall (pass_ready best h n) passes → (n ≤ length passes)%nat →
  ∃ outs fulln fs' d' state', apply_blocks full (segment h n) = Ok (outs, fulln) ∧
    run_passes fs d network config state h passes = (fs', d', Ok (h + Z.of_nat n, state')) ∧
    synced fs' d' state' fulln (archive_after A outs) (h + Z.of_nat n) (tip_after_run t fulln h n) ∧
    manifest_file fs' = manifest_after_run fs network config h n.
Proof.
  intros Hfm. induction passes as [|[source undo] passes IH]; intros fs d state full A t h n Hsy Hcfg Hr Hend Hps Hlen; cbn [run_passes].
  { destruct n; [|simpl in Hlen; lia]. exists [], full, fs, d, state. rewrite Z.add_0_r. split_and!; [done|done|exact Hsy|done]. }
  rewrite Forall_cons in Hps. destruct Hps as ((Hb & Hbh & Hs) & Hps). cbn [fst snd] in *. unfold run_pass. rewrite Hb. rsimpl.
  destruct (get_block_hash source best) as [bh| |]; [|done..]. rsimpl.
  set (ft := saturating_sub best (cu_finality_depth config)) in *.
  destruct n as [|n'].
  { rewrite bool_decide_false by lia. apply (IH fs d state full A t h 0%nat); [done..|lia]. }
  set (n := S n') in *. rewrite bool_decide_true by lia.
  set (p := pass_count config h ft). pose proof Hcfg as (_ & Hfl & Hem).
  assert (p ≤ n)%nat as Hpn by (unfold p, pass_count; lia).
  destruct (pass_synced fs d state full A t network config source undo h ft Hfm Hsy Hcfg ltac:(lia)) as
    (k & outs1 & fullk & fs1 & d1 & state1 & Hk & -> & Ha1 & Hsy1 & Hm1).
  { by eapply ready_prefix. }
  { pose proof (serves_sub source undo h n 0 p ltac:(lia) Hs) as H. by rewrite Z.add_0_r in H. }
  { pose proof (gr_bounds _ _ _ _ (rd_chain _ _ _ _ Hr)) as Hgb. assert (2 ^ 32 < 2 ^ 63) by done. lia. }
  fold p in Hk. pose proof Hsy as [_ _ _ Hco Hwf _ _].
  destruct (IH fs1 d1 state1 fullk (archive_after A outs1) _ (h + Z.of_nat k) (n - k)%nat Hsy1) as
    (outs2 & fulln & fs' & d' & state' & Ha2 & Hrun & Hsy2 & Hm2).
  - unfold config_ok in *. lia.
  - by eapply (ready_suffix full t h n k); [|lia| | |].
  - lia.
  - eapply Forall_impl; [exact Hps|]. intros q (? & ? & Hq). split_and!; [done|done|]. eapply serves_sub; [|exact Hq]. lia.
  - simpl in Hlen. lia.
  - replace (h + Z.of_nat k + Z.of_nat (n - k)) with (h + Z.of_nat n) in * by lia.
    exists (outs1 ++ outs2), fulln, fs', d', state'. split_and!; [|done| |].
    + rewrite (segment_split chain h k n) by lia. apply apply_blocks_app. by exists outs1, fullk, outs2.
    + rewrite (batches_compose full A h k (n - k) n outs1 fullk outs2 fulln h); try done; [|apply Hr|lia|apply Hr].
      unfold tip_after_run at 1. rewrite (bool_decide_false (n = 0%nat)) by done.
      rewrite <-(tip_after_rest fullk fulln h n k) by (lia || (intros E; rewrite E, Nat.sub_diag in Ha2; by injection Ha2)). done.
    + rewrite Hm2. unfold manifest_after_run at 2. rewrite (bool_decide_false (n = 0%nat)) by done. apply manifest_after_rest; [lia|done].
Qed.
End run.

(** ** From one command to the next *)
Section command.
Context `{RB : !RustBitcoin, SD : !Scheduler, SC : !Secp, HH : !Hash160, ST : !ScriptTemplates, SH : !Sha256, KV : !KvStore,
          CL : !CapnpPacked light_block, CS : !CapnpPacked stored_light_block, MJ : !ManifestJson, HX : !Hex}.

(** No command is running: the files and the database stand for the indexer [full] and
    the archive [A] up to [next], and the metadata is of the network or absent. *)
Record at_rest (network : ArchiveNetwork) (fs : FileArchive) (d : Db) (full : P2trIndexerState) (A : archive_map)
    (next : Z) (t : option IndexTip) : Prop := {
  rt_synced : synced (db_get d) fs d (restore_at_uid (next_uid full)) full A next t;
  rt_next : default_start_height network ≤ next ∧
    match t with
    | None => next = default_start_height network ∧ next_uid full = 0
    | Some x => next = it_height x + 1 ∧ it_last_uid x = next_uid full
    end;
  rt_network : db_get d KEY_NETWORK = None ∨ db_get d KEY_NETWORK = Some (network_as_str network);
  rt_start : db_get d KEY_START_HEIGHT = None ∨ db_get d KEY_START_HEIGHT = Some (be_bytes 8 (default_start_height network))
}.
Definition meta_of (network : ArchiveNetwork) (k : bytes) : option bytes :=
  if bool_decide (k = KEY_NETWORK) then Some (network_as_str network) else Some (be_bytes 8 (default_start_height network)).

Lemma run_start_synced network fs d full A next t undo_source batch flush :
  at_rest network fs d full A next t → next < 2 ^ 64 → 0 < batch → 0 < flush → supports_block_spent_txouts undo_source = true →
  ∃ d', run_start d undo_source network (default_start_height network) batch flush =
      (d', Ok (restore_at_uid (next_uid full), next)) ∧
    synced (meta_of network) fs d' (restore_at_uid (next_uid full)) full A next t.
Proof.
  intros [[Hd Hc HA Hco Hwf Ht _] [Hge Hn] Hnet Hst] Hlt Hb Hf Hs. unfold run_start.
  rewrite (bool_decide_true (0 < batch)), (bool_decide_true (0 < flush)), Hs by done. rsimpl.
  destruct (ensure_meta_ok d _ _ Hnet Hst) as (d' & -> & H1 & H2 & Hk). destruct (holds_meta d d' _ Hk Hd) as [Hd' Ht'].
  exists d'. rsimpl. rewrite Ht', Ht. rsimpl. split.
  - assert (0 ≤ default_start_height network) by (by destruct network). destruct t as [x|]; cbn; destruct Hn as [-> Hu].
    + rewrite wrap_small by (unfold in_width; lia). by rewrite Hu.
    + by rewrite Hu.
  - split; try done; [by rewrite Ht'|]. intros k Hin. unfold meta_of. rewrite !elem_of_cons, elem_of_nil in Hin.
    destruct Hin as [->|[->|[]]]; done.
Qed.

Lemma untracked_chain self blocks outs self' : apply_blocks self blocks = Ok (outs, self') →
  seen_p2tr_keys self = None → seen_p2tr_keys self' = None.
Proof.
  revert self outs. induction blocks as [|b blocks IH]; intros self outs H Hs; cbn [apply_blocks] in H; [by injection H as <- <-|].
  apply bind_Ok in H as ([out s1] & Hb & ([outs' s2] & Hbs & [= <- <-])%bind_Ok). eapply IH; [exact Hbs|].
  by eapply untracked_reuse_never_flagged.
Qed.

(** Dropping the cache loses nothing. *)
Lemma synced_rest network fs d state full A next t :
  synced (meta_of network) fs d state full A next t → seen_p2tr_keys full = None →
  default_start_height network ≤ next →
  match t with
  | None => next = default_start_height network ∧ next_uid full = 0
  | Some x => next = it_height x + 1 ∧ it_last_uid x = next_uid full
  end →
  at_rest network fs d full A next t.
Proof.
  intros [Hd Hc HA Hco Hwf Ht Hm] Hs Hge Hn. split; [|done|right; apply (Hm KEY_NETWORK); left|right; apply (Hm KEY_START_HEIGHT); right; left].
  split; try done. split; [done|done| |by intros ? ?%not_elem_of_nil|by right]. apply map_empty_subseteq.
Qed.

(** The command, from rest to rest, and the manifest it leaves. *)
Lemma run_command_ends (chain : Z → BlockScanInput) (network : ArchiveNetwork) (fs : FileArchive) (d : Db)
    (full : P2trIndexerState) (A : archive_map) (h : Z) (n : nat) (t : option IndexTip) (undo_source : BlockSource)
    (finality_depth batch flush memory_mb best : Z) (passes : list (BlockSource * BlockSource))
  (Hfm : fits_marked) (Hrest : at_rest network fs d full A h t) (Hready : ready chain full t h n)
  (Hbatch : 0 < batch) (Hflush : 0 < flush) (Hundo : supports_block_spent_txouts undo_source = true)
  (Htip : h + Z.of_nat n = saturating_sub best finality_depth + 1)
  (Hpasses : Forall (pass_ready chain best h n) passes) (Henough : (n ≤ length passes)%nat) :
  ∃ outs fulln fs' d' state', apply_blocks full (segment chain h n) = Ok (outs, fulln) ∧
    run_command fs d network undo_source finality_depth batch flush memory_mb passes = (fs', d', Ok (h + Z.of_nat n, state')) ∧
    at_rest network fs' d' fulln (archive_after A outs) (h + Z.of_nat n) (tip_after_run chain t fulln h n) ∧
    manifest_file fs' = manifest_after_run chain fs network {| emit_start_height := default_start_height network; cu_finality_depth := finality_depth;
      fetch_batch_size := batch; flush_blocks := flush; memory_budget_bytes := mb_to_bytes memory_mb |} h n.
Proof.
  pose proof (gr_bounds _ _ _ _ (rd_chain _ _ _ _ _ Hready)) as Hb. assert (2 ^ 32 < 2 ^ 64) by done.
  destruct (run_start_synced _ _ _ _ _ _ _ undo_source batch flush Hrest) as (d0 & Hstart & Hsy); [lia|done..|].
  pose proof (rt_next _ _ _ _ _ _ _ Hrest) as [Hge Hn]. unfold run_command. rewrite Hstart.
  destruct (passes_synced chain (meta_of network) network
    {| emit_start_height := default_start_height network; cu_finality_depth := finality_depth; fetch_batch_size := batch;
       flush_blocks := flush; memory_budget_bytes := mb_to_bytes memory_mb |} best passes Hfm fs d0 _ full A t h n Hsy)
    as (outs & fulln & fs' & d' & state' & Ha & -> & Hsy' & Hm'); [done..|].
  exists outs, fulln, fs', d', state'. split; [done|]. split; [done|]. split; [|done].
  assert (seen_p2tr_keys full = None) as Hseen.
  { by rewrite <-(ch_seen _ _ _ _ (sy_cache _ _ _ _ _ _ _ _ (rt_synced _ _ _ _ _ _ _ Hrest))). }
  eapply synced_rest; [exact Hsy'|by eapply untracked_chain|lia|]. unfold tip_after_run.
  case_bool_decide as E; [|cbn; split; [lia|done]]. subst n. rewrite Z.add_0_r. cbn in Ha. by injection Ha as <- <-.
Qed.
Lemma run_command_rest (chain : Z → BlockScanInput) (network : ArchiveNetwork) (fs : FileArchive) (d : Db)
    (full : P2trIndexerState) (A : archive_map) (h : Z) (n : nat) (t : option IndexTip) (undo_source : BlockSource)
    (finality_depth batch flush memory_mb best : Z) (passes : list (BlockSource * BlockSource))
  (Hfm : fits_marked) (Hrest : at_rest network fs d full A h t) (Hready : ready chain full t h n)
  (Hbatch : 0 < batch) (Hflush : 0 < flush) (Hundo : supports_block_spent_txouts undo_source = true)
  (Htip : h + Z.of_nat n = saturating_sub best finality_depth + 1)
  (Hpasses : Forall (pass_ready chain best h n) passes) (Henough : (n ≤ length passes)%nat) :
  ∃ outs fulln fs' d' state', apply_blocks full (segment chain h n) = Ok (outs, fulln) ∧
    run_command fs d network undo_source finality_depth batch flush memory_mb passes = (fs', d', Ok (h + Z.of_nat n, state')) ∧
    at_rest network fs' d' fulln (archive_after A outs) (h + Z.of_nat n) (tip_after_run chain t fulln h n).
Proof.
  destruct (run_command_ends chain network fs d full A h n t undo_source finality_depth batch flush memory_mb best passes)
    as (outs & fulln & fs' & d' & state' & Ha & E & Hr & _); [done..|]. by exists outs, fulln, fs', d', state'.
Qed.

(** C6: the indexer command refines the indexer with every coin in memory.  Started on
    files and a database that stand for some indexer state and archive, with sources
    that serve a well-formed chain up to the finalized tip (in whatever pieces, decoded in
    whatever order), the command reaches the tip after at most one pass per block, and
    leaves files and a database that stand for the archive of all the blocks with all
    their spends marked.  The outcome does not depend on the batch size, the flush size,
    the memory budget or what the cache held; nor on how the work is split over several
    commands, since the next one may start from there. *)
Theorem run_command_refines (chain : Z → BlockScanInput) (network : ArchiveNetwork) (fs : FileArchive) (d : Db)
    (full : P2trIndexerState) (A : archive_map) (h : Z) (n : nat) (t : option IndexTip) (undo_source : BlockSource)
    (finality_depth batch flush memory_mb best : Z) (passes : list (BlockSource * BlockSource))
  (Hfm : fits_marked) (Hrest : at_rest network fs d full A h t) (Hready : ready chain full t h n)
  (Hbatch : 0 < batch) (Hflush : 0 < flush) (Hundo : supports_block_spent_txouts undo_source = true)
  (Htip : h + Z.of_nat n = saturating_sub best finality_depth + 1)
  (Hpasses : Forall (pass_ready chain best h n) passes) (Henough : (n ≤ length passes)%nat) :
  ∃ outs fulln fs' d' state', apply_blocks full (segment chain h n) = Ok (outs, fulln) ∧
    run_command fs d network undo_source finality_depth batch flush memory_mb passes = (fs', d', Ok (h + Z.of_nat n, state')) ∧
    at_rest network fs' d' fulln (archive_after A outs) (h + Z.of_nat n) (tip_after_run chain t fulln h n).
Proof. by apply (run_command_rest chain network fs d full A h n t undo_source finality_depth batch flush memory_mb best). Qed.
End command.

(** ** The witness: an empty archive and the chain of two blocks *)

Lemma toy_at_rest : at_rest Regtest archive_new demo_db (restore_at_uid 0) ∅ 0 None.
Proof.
  split; [split|done|by left|by left].
  - apply holds_empty.
  - split; [done|done|done|done|by right].
  - intros h _. by rewrite lookup_empty.
  - intros o s Hs. cbn in Hs. by apply lookup_empty_Some in Hs.
  - split; [done|]. split; intros *; cbn; by intros ?%lookup_empty_Some.
  - done.
  - done.
Qed.
Lemma toy_ready : ready toy_chain (restore_at_uid 0) None 0 2.
Proof.
  split; [apply toy_good|done|done|]. intros k outs fullk _ _. apply Forall_forall. by intros out _ msg _.
Qed.
Lemma toy_passes : Forall (pass_ready toy_chain 7 0 2) [(toy_source, toy_undo_source); (toy_source, toy_undo_source)].
Proof. repeat (constructor; [split_and!; [done|done|apply toy_serves]|]). constructor. Qed.

Lemma run_command_refines_witness :
  ∃ outs fulln fs' d' state', apply_blocks (restore_at_uid 0) (segment toy_chain 0 2) = Ok (outs, fulln) ∧
    run_command archive_new demo_db Regtest toy_undo_source 6 16 1 4096
      [(toy_source, toy_undo_source); (toy_source, toy_undo_source)] = (fs', d', Ok (2, state')) ∧
    at_rest Regtest fs' d' fulln (archive_after ∅ outs) 2 (tip_after_run toy_chain None fulln 0 2).
Proof.
  apply (run_command_refines toy_chain Regtest archive_new demo_db (restore_at_uid 0) ∅ 0 2 None toy_undo_source 6 16 1 4096 7);
    [by intros s s' msg msg' _ _ _ _|apply toy_at_rest|apply toy_ready|done|done|done|done|apply toy_passes|done].
Defined.
(** The coin of the first block is spent in the second; the coin of the second is left. *)
Example toy_run_index : (run_command archive_new demo_db Regtest toy_undo_source 6 16 1 4096
    [(toy_source, toy_undo_source); (toy_source, toy_undo_source)]).1.2 !! outpoint_key (toy_point 21 0) = None ∧
  is_Some ((run_command archive_new demo_db Regtest toy_undo_source 6 16 1 4096
    [(toy_source, toy_undo_source); (toy_source, toy_undo_source)]).1.2 !! outpoint_key (toy_point 23 0)).
Proof. split; [vm_compute; reflexivity|]. vm_compute. eauto. Qed.
