(* ===== verification/LightIndexerCrash.v ===== *)
(** * A flush that is interrupted

    The indexer writes the block files and marks the spent outputs before the database
    commits; the source's comment calls the files left by a crash harmless.  Here: a
    flush cut after any file write leaves the same database and an archive from which
    the next command reaches the archive it would have reached without the crash. *)

From S2P Require Import Prelude Bits Decimal Helper TaggedHash Bitmap SpentIds OutputHash LightBlock LightValid LightWire CutThrough UndoPayload P2trIndexer P2trFacts Indexer ScriptClassify SpTweak Kv IndexStore IndexerCache ArchiveBackend FileArchive JsonWire Profile Sources Tasks LightIndexer LightIndexerFacts LightIndexerSync LightIndexerToy LightIndexerRun.

(** ** What a list of marks does to one output *)

(** The spent height of output [j] of block [c]: that of the last mark of it. *)
Definition mark_value (c : Z) (j : nat) (v : Z) (l : list spend) : Z :=
  foldl (λ v x, if bool_decide (x.1.1 = c ∧ Z.to_nat x.1.2 = j) then x.2 else v) v l.
Definition marked_outputs (c : Z) (l : list spend) (s : StoredLightBlockInput) : StoredLightBlockInput :=
  set_outputs s (imap (λ j o, set_spent_height o (mark_value c j (spent_height o) l)) (sb_outputs s)).

Lemma mark_one_alter s n i h :
  (mark_one (s, n) (i, h)).1 = set_outputs s (alter (λ o, set_spent_height o h) (Z.to_nat i) (sb_outputs s)).
Proof.
  unfold mark_one. cbn [fst snd]. destruct (sb_outputs s !! Z.to_nat i) as [o|] eqn:E.
  - case_bool_decide as Eh; cbn [fst].
    + f_equal. apply list_eq. intros j. destruct (decide (j = Z.to_nat i)) as [->|Hne].
      * rewrite list_lookup_insert_eq by by apply lookup_lt_Some in E. by rewrite list_lookup_alter_eq, E.
      * by rewrite list_lookup_insert_ne, list_lookup_alter_ne by done.
    + rewrite <-(set_outputs_same s) at 1. f_equal. symmetry. apply list_eq. intros j.
      destruct (decide (j = Z.to_nat i)) as [->|Hne]; [|by rewrite list_lookup_alter_ne].
      rewrite list_lookup_alter_eq, E. cbn. f_equal. destruct o. cbn in *. by subst.
  - cbn [fst]. rewrite <-(set_outputs_same s) at 1. f_equal. symmetry. apply list_eq. intros j.
    destruct (decide (j = Z.to_nat i)) as [->|Hne]; [by rewrite list_lookup_alter_eq, E|by rewrite list_lookup_alter_ne].
Qed.

Lemma marks_lookup l : ∀ m c, (foldl mark1 (m, 0%nat) l).1 !! c = marked_outputs c l <$> m !! c.
Proof.
  induction l as [|[[c' i] h] l IH]; intros m c.
  { cbn. destruct (m !! c) as [s|]; [|done]. cbn. f_equal. unfold marked_outputs. cbn.
    rewrite <-(set_outputs_same s) at 1. f_equal. symmetry. apply list_eq. intros j. rewrite list_lookup_imap.
    destruct (sb_outputs s !! j) as [o|]; [|done]. cbn. f_equal. by destruct o. }
  cbn [foldl mark1]. destruct (m !! c') as [s'|] eqn:E.
  - rewrite (mark_one_count s' 0%nat). pose proof (mark_one_alter s' 0%nat i h) as Ha.
    destruct (mark_one (s', 0%nat) (i, h)) as [s1 n1]. cbn [fst snd] in *. rewrite marks_count, IH.
    destruct (decide (c' = c)) as [->|Hne].
    + rewrite lookup_insert_eq, E. cbn. f_equal. subst s1. unfold marked_outputs. destruct s' as [? ? ? ? ? ? ? ? os ? ? ? ?].
      unfold set_outputs. cbn. f_equal. apply list_eq. intros j. rewrite !list_lookup_imap.
      destruct (decide (j = Z.to_nat i)) as [->|Hj].
      * rewrite list_lookup_alter_eq. destruct (os !! Z.to_nat i) as [o|]; [|done]. cbn. rewrite bool_decide_true by done. done.
      * rewrite list_lookup_alter_ne by done. destruct (os !! j) as [o|]; [|done]. cbn.
        rewrite bool_decide_false; [done|]. by intros [_ ?].
    + rewrite lookup_insert_ne by done. destruct (m !! c) as [s|]; [|done]. cbn. f_equal. unfold marked_outputs. f_equal.
      apply imap_ext. intros j o _. cbn. rewrite bool_decide_false; [done|]. by intros [? _].
  - rewrite IH. destruct (decide (c' = c)) as [->|Hne]; [by rewrite E|]. destruct (m !! c) as [s|]; [|done]. cbn. f_equal.
    unfold marked_outputs. f_equal. apply imap_ext. intros j o _. cbn. rewrite bool_decide_false; [done|]. by intros [? _].
Qed.

(** Marks that are repeated later do not matter. *)
Lemma mark_value_hit c j v v' l : (∃ x, x ∈ l ∧ x.1.1 = c ∧ Z.to_nat x.1.2 = j) → mark_value c j v l = mark_value c j v' l.
Proof.
  revert v v'. induction l as [|x l IH]; intros v v' (y & Hy & Hc & Hj); [by apply not_elem_of_nil in Hy|].
  cbn. case_bool_decide as E; [done|]. apply IH. exists y. apply elem_of_cons in Hy as [->|Hy]; [by destruct E|done].
Qed.
Lemma mark_value_miss c j v l : (∀ x, x ∈ l → ¬ (x.1.1 = c ∧ Z.to_nat x.1.2 = j)) → mark_value c j v l = v.
Proof.
  revert v. induction l as [|x l IH]; intros v H; [done|]. cbn. rewrite bool_decide_false by (apply H; left).
  apply IH. intros y Hy. apply H. by right.
Qed.
Lemma mark_value_repeat c j v l1 l2 : (∀ x, x ∈ l1 → x ∈ l2) → mark_value c j (mark_value c j v l1) l2 = mark_value c j v l2.
Proof.
  intros Hsub. destruct (decide (Exists (λ x : spend, x.1.1 = c ∧ Z.to_nat x.1.2 = j) l1)) as [He|He].
  - apply Exists_exists in He as (x & Hx & ?). apply mark_value_hit. exists x. split; [by apply Hsub|done].
  - rewrite (mark_value_miss c j v l1); [done|]. intros x Hx Hm. apply He, Exists_exists. by exists x.
Qed.
Lemma marked_repeat c l1 l2 s : (∀ x, x ∈ l1 → x ∈ l2) → marked_outputs c l2 (marked_outputs c l1 s) = marked_outputs c l2 s.
Proof.
  intros Hsub. unfold marked_outputs, set_outputs. cbn. f_equal. apply list_eq. intros j. rewrite !list_lookup_imap.
  destruct (sb_outputs s !! j) as [o|]; [|done]. cbn. by rewrite mark_value_repeat.
Qed.

(** Blocks stored and marks made before they are repeated do not matter. *)
Lemma archive_after_repeat A outs0 l outs :
  NoDup ((λ out, sb_height (ab_storage_block out)) <$> outs) → (∀ out, out ∈ outs0 → out ∈ outs) →
  NoDup ((λ out, sb_height (ab_storage_block out)) <$> outs0) → (∀ x, x ∈ l → x ∈ spends_of outs) →
  archive_after (foldl mark1 (foldl store_block A outs0, 0%nat) l).1 outs = archive_after A outs.
Proof.
  intros Hn Hsub Hn0 Hl. apply map_eq. intros c. unfold archive_after. rewrite !marks_lookup.
  destruct (decide (Exists (λ out, sb_height (ab_storage_block out) = c) outs)) as [He|He].
  - apply Exists_exists in He as (out & Hout & Hc).
    rewrite !(proj1 (stored_lookup _ outs c Hn) out Hout Hc). done.
  - assert (Hne : ∀ out, out ∈ outs → sb_height (ab_storage_block out) ≠ c).
    { intros out Hout E. apply He, Exists_exists. by exists out. }
    rewrite !(proj2 (stored_lookup _ outs c Hn) Hne), marks_lookup.
    rewrite (proj2 (stored_lookup A outs0 c Hn0)) by (intros out Hout; by apply Hne, Hsub).
    destruct (A !! c) as [s|]; [|done]. cbn. f_equal. by apply marked_repeat.
Qed.

Section crash.
Context `{RB : !RustBitcoin, SD : !Scheduler, SC : !Secp, HH : !Hash160, ST : !ScriptTemplates, SH : !Sha256, KV : !KvStore,
          CL : !CapnpPacked light_block, CS : !CapnpPacked stored_light_block, MJ : !ManifestJson, HX : !Hex}.

(** [flush_pending] cut before the commit: after [i] block files, or after all of them and
    the rewritten files of [j] creation heights.  (A file is written under a temporary
    name that nothing reads, then renamed.) *)
Definition interrupted_flush (fs : FileArchive) (pending : list Pending) (i j : nat) : FileArchive :=
  let fs := write_payloads fs (take i pending) in
  if bool_decide (i < length pending)%nat then fs
  else match group_spends (pending_spends pending) with
       | Ok groups => (mark_blocks fs 0%nat (take j groups)).1
       | _ => fs
       end.

Lemma flatten_take j (g : list (Z * list (Z * Z))) x : x ∈ flatten (take j g) → x ∈ flatten g.
Proof.
  intros Hx. rewrite <-(take_drop j g). unfold flatten in *. rewrite bind_app. apply elem_of_app. by left.
Qed.

(** The archive a cut flush leaves. *)
Lemma interrupted_holds lo hi fs A bs outs i j :
  fits_marked → holds_blocks fs A → Forall2 (results lo hi) bs outs → Forall fits outs → (∀ b, b ∈ bs → in_width 64 (bk_height b)) →
  Forall (marks_archive (foldl store_block A outs)) (spends_of outs) →
  ∃ outs0 l, outs0 = take i outs ∧ (∀ x, x ∈ l → x ∈ spends_of outs) ∧
    holds_blocks (interrupted_flush fs (pending_of <$> outs) i j) (foldl mark1 (foldl store_block A outs0, 0%nat) l).1.
Proof.
  intros Hfm HA Hres Hfits Hb Hmarks. unfold interrupted_flush. rewrite <-fmap_take, length_fmap, pending_spends_of.
  assert (Hw : holds_blocks (write_payloads fs (pending_of <$> take i outs)) (foldl store_block A (take i outs))).
  { apply (write_payloads_holds lo hi fs A (take i bs)); [done|by apply Forall2_take|by apply Forall_take|].
    intros b Hin. apply Hb. by eapply elem_of_take in Hin as (k & Hk%list_elem_of_lookup_2 & _). }
  exists (take i outs). case_bool_decide as Hi.
  { exists []. split; [done|]. split; [by intros x ?%not_elem_of_nil|done]. }
  rewrite take_ge in * by lia.
  rewrite group_spends_ok by (eapply Forall_impl; [exact Hmarks|]; intros [[c k] h] (_ & [_ ?] & _); done).
  set (g := foldl push_spend [] (spends_of outs)).
  assert (Hg : ∀ x, x ∈ flatten (take j g) → x ∈ spends_of outs).
  { intros x [Hx|?]%flatten_take%grouped_elem; [by apply not_elem_of_nil in Hx|done]. }
  destruct (mark_blocks_ok _ _ 0%nat (take j g) Hfm Hw) as (fs' & -> & Hfs').
  - apply Forall_forall. intros x Hx%Hg. rewrite Forall_forall in Hmarks. by apply Hmarks.
  - apply Forall_take, grouped_nonempty. constructor.
  - exists (flatten (take j g)). done.
Qed.

End crash.

(** ** The witness: the flush of two blocks, cut while their spends are marked *)
Definition toy_result : list AppliedBlock * P2trIndexerState :=
  match apply_blocks (restore_at_uid 0) (segment toy_chain 0 2) with Ok r => r | _ => ([], restore_at_uid 0) end.

