(* ===== verification/Histogram.v ===== *)
(** * Log2 histograms

    Model of [stats/src/histogram.rs]: recording, merging and percentiles of a
    histogram of [u64] values.  Counters are [u64], the sum is [u128]; unchecked sums
    wrap.  [percentile] multiplies a float by the count: the target rank it computes is
    an argument, which [Report] instantiates; [mean] and [print] are in [Report]. *)

From S2P Require Import Prelude.

Record Log2Hist := { zeros : Z; buckets : list Z; hist_sum : Z; hist_max : Z }.
Definition hist_default : Log2Hist := {| zeros := 0; buckets := replicate 64 0; hist_sum := 0; hist_max := 0 |}.

(** [serialize]: the four fields. *)
Definition hist_serialize (self : Log2Hist) : Z * list Z * Z * Z := (zeros self, buckets self, hist_sum self, hist_max self).
Definition hist_deserialize (zeros : Z) (buckets : list Z) (sum max : Z) : res Log2Hist :=
  _ ← ensure (bool_decide (length buckets = 64%nat)) "invalid length, expected exactly 64 histogram buckets";
  Ok {| zeros := zeros; buckets := buckets; hist_sum := sum; hist_max := max |}.

Definition hist_record (self : Log2Hist) (v : Z) : Log2Hist :=
  let sum := wrap 128 (hist_sum self + v) in
  let max := if bool_decide (hist_max self < v) then v else hist_max self in
  if bool_decide (v = 0) then {| zeros := wrap 64 (zeros self + 1); buckets := buckets self; hist_sum := sum; hist_max := max |}
  else
    (* [63 - v.leading_zeros()] *)
    let k := Z.to_nat (Z.log2 v) in
    {| zeros := zeros self; buckets := alter (λ c, wrap 64 (c + 1)) k (buckets self); hist_sum := sum; hist_max := max |}.

Definition hist_count (self : Log2Hist) : Z := wrap 64 (zeros self + foldl (λ a c, wrap 64 (a + c)) 0 (buckets self)).

(** The loop over the buckets from number [k] on, [acc] the count so far. *)
Fixpoint percentile_from (k : nat) (acc target : Z) (bs : list Z) : option Z :=
  match bs with
  | [] => None
  | c :: bs =>
      let acc := wrap 64 (acc + c) in
      if bool_decide (target ≤ acc) then Some (saturating_sub (saturating_mul 64 (2 ^ Z.of_nat k) 2) 1)
      else percentile_from (S k) acc target bs
  end.
(** [target_of n] is [(p * n as f64).ceil() as u64]. *)
Definition percentile (self : Log2Hist) (target_of : Z → Z) : Z :=
  let n := hist_count self in
  if bool_decide (n = 0) then 0
  else
    let target := target_of n in
    if bool_decide (target ≤ zeros self) then 0
    else default (hist_max self) (percentile_from 0 (zeros self) target (buckets self)).

Definition hist_merge (self other : Log2Hist) : Log2Hist := {|
  zeros := wrap 64 (zeros self + zeros other);
  buckets := zip_with (λ a b, wrap 64 (a + b)) (buckets self) (buckets other);
  hist_sum := wrap 128 (hist_sum self + hist_sum other);
  hist_max := if bool_decide (hist_max self < hist_max other) then hist_max other else hist_max self |}.

Lemma hist_serde (self : Log2Hist) :
  let '(zeros, buckets, sum, max) := hist_serialize self in
  hist_deserialize zeros buckets sum max = Ok self ↔ length (buckets) = 64%nat.
Proof.
  destruct self as [z b s m]. cbn. unfold hist_deserialize. destruct (bool_decide _) eqn:E; cbn.
  - apply bool_decide_eq_true in E. done.
  - apply bool_decide_eq_false in E. by split.
Qed.

(** ** What a histogram holds *)

(** The bucket of a value: [None] for zero. *)
Definition bucket_of (v : Z) : option nat := if bool_decide (v = 0) then None else Some (Z.to_nat (Z.log2 v)).
Definition count_in (b : option nat) (vs : list Z) : Z := len (filter (λ v, bucket_of v = b) vs).
Definition total (vs : list Z) : Z := foldr Z.add 0 vs.
Definition maximum (vs : list Z) : Z := foldr Z.max 0 vs.

(** The histogram of a list of values. *)
Definition hist_of (vs : list Z) : Log2Hist := {|
  zeros := wrap 64 (count_in None vs);
  buckets := (λ k, wrap 64 (count_in (Some k) vs)) <$> seq 0 64;
  hist_sum := wrap 128 (total vs);
  hist_max := maximum vs |}.

Lemma count_in_app b vs ws : count_in b (vs ++ ws) = count_in b vs + count_in b ws.
Proof. unfold count_in. rewrite filter_app, length_app. lia. Qed.
Lemma count_in_one b v : count_in b [v] = if bool_decide (bucket_of v = b) then 1 else 0.
Proof. unfold count_in. rewrite filter_cons, filter_nil. case_decide; case_bool_decide; done. Qed.
Lemma total_app vs ws : total (vs ++ ws) = total vs + total ws.
Proof. unfold total. induction vs as [|v vs IH]; simpl; [done|]. rewrite IH. lia. Qed.
Lemma maximum_nonneg vs : 0 ≤ maximum vs.
Proof. unfold maximum. induction vs; simpl; lia. Qed.
Lemma maximum_app vs ws : maximum (vs ++ ws) = Z.max (maximum vs) (maximum ws).
Proof.
  pose proof (maximum_nonneg ws). unfold maximum in *. induction vs as [|v vs IH]; simpl; [lia|]. rewrite IH. lia.
Qed.
Lemma wrap_plus w a b : wrap w (wrap w a + wrap w b) = wrap w (a + b).
Proof. unfold wrap. by rewrite Zplus_mod_idemp_l, Zplus_mod_idemp_r. Qed.
Lemma wrap_plus_l w a b : wrap w (wrap w a + b) = wrap w (a + b).
Proof. unfold wrap. by rewrite Zplus_mod_idemp_l. Qed.

Lemma log2_bucket v : in_width 64 v → v ≠ 0 → (Z.to_nat (Z.log2 v) < 64)%nat.
Proof. intros [? ?] ?. assert (Z.log2 v < 64) by (apply Z.log2_lt_pow2; lia). pose proof (Z.log2_nonneg v). lia. Qed.

Lemma bucket_pos v : v ≠ 0 → bucket_of v = Some (Z.to_nat (Z.log2 v)).
Proof. intros. unfold bucket_of. by rewrite bool_decide_false. Qed.

Lemma record_hist_of vs v : in_width 64 v → hist_record (hist_of vs) v = hist_of (vs ++ [v]).
Proof.
  intros Hv. unfold hist_record, hist_of. cbn [zeros buckets hist_sum hist_max].
  assert (Hmax : (if bool_decide (maximum vs < v) then v else maximum vs) = maximum (vs ++ [v])).
  { rewrite maximum_app. pose proof (maximum_nonneg vs). destruct Hv. cbn. case_bool_decide; lia. }
  rewrite Hmax, !count_in_app, total_app, !count_in_one, !wrap_plus_l. cbn [total foldr]. rewrite Z.add_0_r.
  destruct (decide (v = 0)) as [->|Hne].
  - change (bool_decide (0 = 0)) with true. change (bool_decide (bucket_of 0 = None)) with true. cbv iota. f_equal.
    apply list_fmap_ext. intros i k _. rewrite count_in_app, count_in_one, (bool_decide_false (bucket_of 0 = Some k)) by done.
    by rewrite Z.add_0_r.
  - pose proof (bucket_pos v Hne) as Hb. rewrite Hb, (bool_decide_false (v = 0)), (bool_decide_false (Some _ = None)) by done.
    rewrite Z.add_0_r. f_equal. apply list_eq. intros i. set (k := Z.to_nat (Z.log2 v)) in *. destruct (decide (i = k)) as [->|Hik].
    + rewrite list_lookup_alter_eq, !list_lookup_fmap, lookup_seq_lt by (by apply log2_bucket). cbn.
      by rewrite wrap_plus_l, count_in_app, count_in_one, (bool_decide_true (bucket_of v = Some k)).
    + rewrite list_lookup_alter_ne by done. rewrite !list_lookup_fmap. destruct (seq 0 64 !! i) as [j|] eqn:E; [|done]. cbn.
      apply lookup_seq in E as [-> _]. rewrite count_in_app, count_in_one, (bool_decide_false (bucket_of v = Some (0 + i)%nat)).
      * by rewrite Z.add_0_r.
      * rewrite Hb. simpl. congruence.
Qed.

Lemma hist_of_nil : hist_of [] = hist_default.
Proof. reflexivity. Qed.
Lemma records_hist_of vs ws : Forall (in_width 64) ws → foldl hist_record (hist_of vs) ws = hist_of (vs ++ ws).
Proof.
  intros Hw. revert vs. induction Hw as [|w ws Hw Hws IH]; intros vs; [by rewrite app_nil_r|]. cbn [foldl].
  by rewrite record_hist_of, IH, <-app_assoc.
Qed.

Lemma merge_hist_of vs ws : hist_merge (hist_of vs) (hist_of ws) = hist_of (vs ++ ws).
Proof.
  unfold hist_merge, hist_of. cbn [zeros buckets hist_sum hist_max]. rewrite count_in_app, total_app, !wrap_plus. f_equal.
  - rewrite zip_with_fmap_l, zip_with_fmap_r, zip_with_diag. apply list_fmap_ext. intros i k _. by rewrite wrap_plus, count_in_app.
  - rewrite maximum_app. case_bool_decide; lia.
Qed.

(** ** Ranks *)

(** The number of values below [b]. *)
Definition below (b : Z) (vs : list Z) : Z := len (filter (λ v, v < b) vs).

Lemma below_cons b v vs : below b (v :: vs) = (if bool_decide (v < b) then 1 else 0) + below b vs.
Proof. unfold below. rewrite filter_cons. case_decide; case_bool_decide; try done; cbn [length]; lia. Qed.
Lemma count_in_cons b v vs : count_in b (v :: vs) = (if bool_decide (bucket_of v = b) then 1 else 0) + count_in b vs.
Proof. unfold count_in. rewrite filter_cons. case_decide; case_bool_decide; try done; cbn [length]; lia. Qed.

Lemma bucket_range v k : 0 ≤ v → bucket_of v = Some k ↔ 2 ^ Z.of_nat k ≤ v < 2 ^ Z.of_nat (S k).
Proof.
  intros Hv. unfold bucket_of. rewrite Nat2Z.inj_succ. pose proof (Z.pow_pos_nonneg 2 (Z.of_nat k) ltac:(lia) ltac:(lia)).
  case_bool_decide as E; [split; [done|lia]|]. pose proof (Z.log2_nonneg v). split.
  - intros [= <-]. rewrite Z2Nat.id by done. apply Z.log2_spec. lia.
  - intros Hk. f_equal. rewrite (Z.log2_unique v (Z.of_nat k)) by lia. lia.
Qed.

Lemma below_zero vs : Forall (in_width 64) vs → below (2 ^ Z.of_nat 0) vs = count_in None vs.
Proof.
  induction 1 as [|v vs Hv _ IH]; [done|]. rewrite below_cons, count_in_cons, IH. f_equal.
  change (2 ^ Z.of_nat 0) with 1. destruct Hv as [Hv _]. unfold bucket_of.
  destruct (decide (v = 0)) as [->|Hne]; [done|]. by rewrite (bool_decide_false (v = 0)), (bool_decide_false (v < 1)) by lia.
Qed.
Lemma below_succ k vs : Forall (in_width 64) vs → below (2 ^ Z.of_nat (S k)) vs = below (2 ^ Z.of_nat k) vs + count_in (Some k) vs.
Proof.
  induction 1 as [|v vs [Hv _] _ IH]; [done|]. rewrite !below_cons, count_in_cons, IH.
  pose proof (bucket_range v k Hv) as Hb. rewrite Nat2Z.inj_succ, Z.pow_succ_r in * by lia.
  rewrite (bool_decide_ext _ _ Hb). pose proof (Z.pow_pos_nonneg 2 (Z.of_nat k) ltac:(lia) ltac:(lia)).
  repeat case_bool_decide; lia.
Qed.
Lemma below_le b vs : below b vs ≤ len vs.
Proof. unfold below. pose proof (length_filter (λ v, v < b) vs). lia. Qed.
Lemma below_all vs : Forall (in_width 64) vs → below (2 ^ Z.of_nat 64) vs = len vs.
Proof.
  induction 1 as [|v vs [_ Hv] _ IH]; [done|]. rewrite below_cons, IH, bool_decide_true by done. cbn [length]. lia.
Qed.
Lemma count_in_nonneg b vs : 0 ≤ count_in b vs.
Proof. unfold count_in. lia. Qed.

Lemma count_in_le b vs : count_in b vs ≤ len vs.
Proof. unfold count_in. pose proof (length_filter (λ v, bucket_of v = b) vs). lia. Qed.

Definition bucket_counts (vs : list Z) (k m : nat) : list Z := (λ k, wrap 64 (count_in (Some k) vs)) <$> seq k m.
Lemma count_in_small vs k : Forall (in_width 64) vs → len vs < 2 ^ 64 → wrap 64 (count_in (Some k) vs) = count_in (Some k) vs.
Proof.
  intros Hw Hl. apply wrap_small. split; [apply count_in_nonneg|].
  pose proof (count_in_le (Some k) vs). lia.
Qed.

Lemma sum_buckets vs : Forall (in_width 64) vs → len vs < 2 ^ 64 → ∀ m k,
  foldl (λ a c, wrap 64 (a + c)) (wrap 64 (below (2 ^ Z.of_nat k) vs)) (bucket_counts vs k m) = wrap 64 (below (2 ^ Z.of_nat (k + m)) vs).
Proof.
  intros Hw Hl m. induction m as [|m IH]; intros k; [by rewrite Nat.add_0_r|].
  unfold bucket_counts. cbn [seq fmap list_fmap foldl]. rewrite wrap_plus, <-below_succ by done.
  fold (bucket_counts vs (S k) m). rewrite IH. by rewrite Nat.add_succ_r.
Qed.
Lemma foldl_wrap_shift l : ∀ z a, wrap 64 (z + foldl (λ a c, wrap 64 (a + c)) (wrap 64 a) l) = foldl (λ a c, wrap 64 (a + c)) (wrap 64 (z + a)) l.
Proof.
  induction l as [|c l IH]; intros z a; cbn [foldl].
  - by rewrite Z.add_comm, wrap_plus_l, Z.add_comm.
  - rewrite !wrap_plus_l, IH. by rewrite Z.add_assoc.
Qed.
(** The count is the number of values recorded. *)
Lemma count_hist_of vs : Forall (in_width 64) vs → len vs < 2 ^ 64 → hist_count (hist_of vs) = len vs.
Proof.
  intros Hw Hl. unfold hist_count, hist_of. cbn [zeros buckets]. rewrite <-below_zero by done.
  match goal with |- context [foldl ?f 0 ?l] => change (foldl f 0 l) with (foldl f (wrap 64 0) (bucket_counts vs 0 64)) end.
  rewrite foldl_wrap_shift, Z.add_0_r.
  assert (∀ x, wrap 64 (wrap 64 x) = wrap 64 x) as -> by (intros; unfold wrap; by rewrite Z.mod_mod).
  rewrite sum_buckets by done. rewrite below_all by done. apply wrap_small. unfold in_width. lia.
Qed.

Definition upper (k : nat) : Z := saturating_sub (saturating_mul 64 (2 ^ Z.of_nat k) 2) 1.
Lemma upper_spec k : (k < 63)%nat → upper k = 2 ^ Z.of_nat (S k) - 1.
Proof.
  intros Hk. unfold upper, saturating_sub, saturating_mul, umax. rewrite Nat2Z.inj_succ, Z.pow_succ_r by lia.
  assert (2 ^ Z.of_nat k < 2 ^ 63) by (apply Z.pow_lt_mono_r; lia).
  pose proof (Z.pow_pos_nonneg 2 (Z.of_nat k) ltac:(lia) ltac:(lia)). lia.
Qed.

Lemma percentile_from_spec vs t : Forall (in_width 64) vs → len vs < 2 ^ 64 → t ≤ len vs → ∀ m k, (k + m = 64)%nat →
  below (2 ^ Z.of_nat k) vs < t →
  ∃ j, percentile_from k (below (2 ^ Z.of_nat k) vs) t (bucket_counts vs k m) = Some (upper j) ∧ (j < 64)%nat ∧
    below (2 ^ Z.of_nat j) vs < t ≤ below (2 ^ Z.of_nat (S j)) vs.
Proof.
  intros Hw Hl Ht m. induction m as [|m IH]; intros k Hkm Hk.
  { replace k with 64%nat in Hk by lia. rewrite below_all in Hk by done. lia. }
  unfold bucket_counts. cbn [seq fmap list_fmap percentile_from]. rewrite count_in_small, <-below_succ by done.
  rewrite wrap_small by (pose proof (below_le (2 ^ Z.of_nat (S k)) vs); unfold in_width, below in *; lia).
  destruct (decide (t ≤ below (2 ^ Z.of_nat (S k)) vs)) as [Hd|Hd].
  - rewrite bool_decide_true by done. exists k. split; [done|]. lia.
  - rewrite bool_decide_false by done. apply (IH (S k)); lia.
Qed.

(** The percentile of recorded values.  For a rank [t] between 1 and the number of
    values, [percentile] is 0 when at least [t] values are 0; otherwise it is the upper
    bound of the only power-of-two bucket that holds the [t]-th smallest value: fewer
    than [t] values are below the bucket, and at least [t] are in it or below. *)
Theorem percentile_spec (vs : list Z) (target_of : Z → Z)
  (Hvs : Forall (in_width 64) vs) (Hlen : len vs < 2 ^ 64) (Ht : 1 ≤ target_of (len vs) ≤ len vs) :
  let t := target_of (len vs) in let p := percentile (foldl hist_record hist_default vs) target_of in
  (p = 0 ∧ t ≤ below 1 vs) ∨
  ∃ k, (k < 64)%nat ∧ p = upper k ∧ below (2 ^ Z.of_nat k) vs < t ≤ below (2 ^ Z.of_nat (S k)) vs.
Proof.
  intros t p. unfold p. rewrite <-hist_of_nil, records_hist_of by done. cbn [app]. unfold percentile.
  rewrite count_hist_of by done. rewrite bool_decide_false by lia. fold t.
  assert (Hz : zeros (hist_of vs) = below (2 ^ Z.of_nat 0) vs).
  { rewrite below_zero by done. cbn. apply wrap_small. pose proof (count_in_nonneg None vs).
    assert (count_in None vs ≤ len vs) by by apply count_in_le.
    split; [done|lia]. }
  rewrite Hz. destruct (decide (t ≤ below (2 ^ Z.of_nat 0) vs)) as [Hd|Hd].
  - rewrite bool_decide_true by done. by left.
  - rewrite bool_decide_false by done. right.
    destruct (percentile_from_spec vs t Hvs Hlen ltac:(lia) 64 0 eq_refl ltac:(lia)) as (k & E & Hk & Hb).
    exists k. split; [done|]. split; [|done]. change (buckets (hist_of vs)) with (bucket_counts vs 0 64). by rewrite E.
Qed.

(** The documentation calls the upper bound conservative; in the last bucket it is one
    short: a histogram of the largest value reports less than that value. *)
Lemma top_bucket_underestimates : percentile (hist_record hist_default (umax 64)) (λ n, n) = umax 64 - 1.
Proof. vm_compute. reflexivity. Qed.

(** Merging histograms is recording the values of both: whatever the split of the
    values, including the wrap-around of the counters. *)
Theorem hist_merge_records (vs ws : list Z) (Hvs : Forall (in_width 64) vs) (Hws : Forall (in_width 64) ws) :
  hist_merge (foldl hist_record hist_default vs) (foldl hist_record hist_default ws) = foldl hist_record hist_default (vs ++ ws).
Proof.
  rewrite <-hist_of_nil. rewrite (records_hist_of [] vs), (records_hist_of [] ws), (records_hist_of [] (vs ++ ws)); [apply (merge_hist_of vs ws)|by apply Forall_app|done|done].
Qed.

Lemma demo_values : Forall (in_width 64) [0; 5; 1; 300; 6].
Proof. repeat constructor; unfold in_width; lia. Qed.
Lemma percentile_spec_witness :
  let p := percentile (foldl hist_record hist_default [0; 5; 1; 300; 6]) (λ n, n - 1) in
  (p = 0 ∧ 4 ≤ below 1 [0; 5; 1; 300; 6]) ∨
  ∃ k, (k < 64)%nat ∧ p = upper k ∧ below (2 ^ Z.of_nat k) [0; 5; 1; 300; 6] < 4 ≤ below (2 ^ Z.of_nat (S k)) [0; 5; 1; 300; 6].
Proof. apply (percentile_spec [0; 5; 1; 300; 6] (λ n, n - 1) demo_values); simpl; lia. Defined.
Lemma hist_merge_records_witness :
  hist_merge (foldl hist_record hist_default [0; 5; 1; 300; 6]) (foldl hist_record hist_default [0; 5; 1; 300; 6]) =
  foldl hist_record hist_default ([0; 5; 1; 300; 6] ++ [0; 5; 1; 300; 6]).
Proof. apply (hist_merge_records [0; 5; 1; 300; 6] [0; 5; 1; 300; 6] demo_values demo_values). Defined.
