(* ===== verification/TaprootSpend.v ===== *)
(** * P2TR spends in the statistics

    Model of [stats/src/transaction.rs]: the spend path of a taproot input and the
    detection of inscription envelopes, from its witness stack ([bitcoin::Witness] is a
    list of byte strings).  The specification compares it with the light server's
    extraction of the internal key. *)

From S2P Require Import Prelude Helper TaggedHash ScriptClassify SpTweak.

Inductive SpendPath := Key | ScriptNonNums | ScriptNums.
#[export] Instance SpendPath_eq_dec : EqDecision SpendPath.
Proof. solve_decision. Defined.

Definition NUMS_H_XONLY : bytes :=
  [80; 146; 155; 116; 193; 160; 73; 84; 183; 139; 75; 96; 53; 233; 122; 94;
   7; 138; 90; 15; 40; 236; 150; 213; 71; 191; 238; 154; 206; 128; 58; 192].

Record SpendClass := { path : SpendPath; inscription : bool }.

Definition witness_item (witness : list bytes) (i : nat) : option bytes := witness !! i.
Definition is_taproot_annex (item : bytes) : bool := bool_decide (head item = Some 80).
Definition is_taproot_control_block (item : bytes) : bool :=
  bool_decide (33 ≤ length item)%nat && bool_decide ((length item - 33) mod 32 = 0)%nat.

Definition NEEDLE : bytes := [0; 99; 3; 111; 114; 100].
(** [script.windows(n)]: the runs of [n] consecutive bytes. *)
Definition windows (n : nat) (script : bytes) : list bytes :=
  (λ i, take n (drop i script)) <$> seq 0 (length script + 1 - n).
Definition is_inscription_envelope (script : bytes) : bool :=
  existsb (λ w, bool_decide (w = NEEDLE)) (windows (length NEEDLE) script).

Definition key_path : SpendClass := {| path := Key; inscription := false |}.
Definition classify_p2tr_spend (witness : list bytes) : res SpendClass :=
  let n := length witness in
  if bool_decide (n = 0)%nat then Ok key_path
  else
    let n := match witness_item witness (n - 1) with
             | Some last => if is_taproot_annex last then (n - 1)%nat else n
             | None => n
             end in
    if bool_decide (n < 2)%nat then Ok key_path
    else
      match witness_item witness (n - 1) with
      | None => Ok key_path
      | Some control =>
          if negb (is_taproot_control_block control) then Ok key_path
          else
            let script := default [] (witness_item witness (n - 2)) in
            let inscription := is_inscription_envelope script in
            internal_key ← slice control 1 33;
            Ok {| path := if bool_decide (internal_key = NUMS_H_XONLY) then ScriptNums else ScriptNonNums;
                  inscription := inscription |}
      end.

(** ** Specification *)

(** BIP341: a last element starting with 0x50 is the annex. *)
Definition strip_annex (witness : list bytes) : list bytes :=
  match last witness with
  | Some l => if is_taproot_annex l then take (length witness - 1) witness else witness
  | None => witness
  end.
(** The path an internal key stands for. *)
Definition path_of (internal_key : option bytes) : SpendPath :=
  match internal_key with
  | None => Key
  | Some k => if bool_decide (k = TAPROOT_NUMS_H_XONLY) then ScriptNums else ScriptNonNums
  end.
(** The script holds the six bytes of an envelope's start. *)
Definition has_envelope (script : bytes) : Prop := ∃ a b, script = a ++ NEEDLE ++ b.
(** The leaf script of a stack without annex: the element before the control block. *)
Definition leaf_script (witness : list bytes) : bytes := default [] (witness !! (length witness - 2)%nat).

Lemma inscription_iff script : is_inscription_envelope script = true ↔ has_envelope script.
Proof.
  unfold is_inscription_envelope, has_envelope. rewrite existsb_exists. split.
  - intros (w & Hw & ->%bool_decide_eq_true). apply list_elem_of_In, list_elem_of_fmap in Hw as (i & Hi & _).
    exists (take i script), (drop (6 + i) script). rewrite Hi. change (length NEEDLE) with 6%nat.
    rewrite Nat.add_comm, <-drop_drop, take_drop, take_drop. done.
  - intros (a & b & ->). exists NEEDLE. split; [|by apply bool_decide_eq_true].
    apply list_elem_of_In, list_elem_of_fmap. exists (length a). split; [by rewrite drop_app_length, take_app_length|].
    apply elem_of_seq. rewrite !length_app. change (length NEEDLE) with 6%nat. lia.
Qed.

Lemma strip_length w : w ≠ [] → (length (strip_annex w) = length w ∨ length (strip_annex w) = (length w - 1)%nat).
Proof.
  unfold strip_annex. destruct (last w) as [l|]; [|by left]. destruct (is_taproot_annex l); [|by left]. right.
  rewrite length_take. lia.
Qed.
Lemma strip_lookup w i : (i < length (strip_annex w))%nat → strip_annex w !! i = w !! i.
Proof.
  unfold strip_annex. destruct (last w) as [l|]; [|done]. destruct (is_taproot_annex l); [|done].
  rewrite length_take. intros. by rewrite lookup_take_lt by lia.
Qed.

(** The classifier looks at the stack without its annex. *)
Lemma classify_stripped w :
  classify_p2tr_spend w =
  if bool_decide (length (strip_annex w) < 2)%nat then Ok key_path
  else match strip_annex w !! (length (strip_annex w) - 1)%nat with
       | None => Ok key_path
       | Some control =>
           if negb (is_taproot_control_block control) then Ok key_path
           else internal_key ← slice control 1 33;
                Ok {| path := if bool_decide (internal_key = NUMS_H_XONLY) then ScriptNums else ScriptNonNums;
                      inscription := is_inscription_envelope (leaf_script (strip_annex w)) |}
       end.
Proof.
  unfold classify_p2tr_spend, witness_item. destruct w as [|x w']; [done|]. set (w := x :: w') in *.
  rewrite (bool_decide_false (length w = 0)%nat) by done.
  assert (Hn : (match w !! (length w - 1)%nat with
                | Some last => if is_taproot_annex last then (length w - 1)%nat else length w
                | None => length w end) = length (strip_annex w)).
  { unfold strip_annex. rewrite last_lookup. replace (pred (length w)) with (length w - 1)%nat by lia.
    destruct (w !! (length w - 1)%nat) as [l|]; [|done]. destruct (is_taproot_annex l); [|done]. rewrite length_take. lia. }
  rewrite Hn. case_bool_decide as Hlt; [done|]. unfold leaf_script. rewrite !strip_lookup by lia. done.
Qed.


Lemma classify_total w : ∃ c, classify_p2tr_spend w = Ok c.
Proof.
  rewrite classify_stripped. case_bool_decide; [by eexists|]. destruct (strip_annex w !! _) as [control|]; [|by eexists].
  unfold is_taproot_control_block. destruct (decide (33 ≤ length control)%nat) as [Hc|Hc].
  - rewrite bool_decide_true by done. destruct (bool_decide _); cbn [andb negb]; [|by eexists].
    rewrite slice_ok by lia. rsimpl. by eexists.
  - rewrite bool_decide_false by done. by eexists.
Qed.
