(* ===== verification/UtxoHash.v ===== *)
(** * The rolling UTXO hash

    Model of [stats/src/utxo_hash.rs]: an accumulator over the output and spend events of
    the last blocks.  SHA-256 is the parameter of [TaggedHash]. *)

From S2P Require Import Prelude Helper TaggedHash.

Record RollingUtxoHash := { uh_window : list bytes; uh_acc : bytes; uh_window_blocks : Z; uh_current_block : bytes }.

Definition zero32 : bytes := replicate 32 0.
#[local] Arguments zero32 : simpl never.
(** [dst[i] ^= src[i]] for the 32 bytes. *)
Definition xor_into (dst src : bytes) : bytes := zip_with Z.lxor dst src.

#[local] Arguments xor_into : simpl never.

Definition hex_digit (n : Z) : Z := if bool_decide (n < 10) then 48 + n else 87 + n.
(** [format!("{:02x}", b)] for each byte. *)
Definition hex_bytes (bs : bytes) : bytes := bs ≫= λ b, [hex_digit (b / 16); hex_digit (b mod 16)].

Definition uh_new (window_blocks : Z) : RollingUtxoHash :=
  {| uh_window := []; uh_acc := zero32; uh_window_blocks := window_blocks; uh_current_block := zero32 |}.
Definition uh_enabled (self : RollingUtxoHash) : bool := bool_decide (0 < uh_window_blocks self).

(** The loop that evicts the blocks beyond the window. *)
Fixpoint evict_blocks (window : list bytes) (acc : bytes) (window_blocks : Z) : list bytes * bytes :=
  match window with
  | [] => ([], acc)
  | old :: rest =>
      if bool_decide (window_blocks < len window) then evict_blocks rest (xor_into acc old) window_blocks else (window, acc)
  end.

Section hash.
Context `{SH : !Sha256}.

Definition with_current (self : RollingUtxoHash) (current : bytes) : RollingUtxoHash :=
  {| uh_window := uh_window self; uh_acc := uh_acc self; uh_window_blocks := uh_window_blocks self; uh_current_block := current |}.

Definition add_output (self : RollingUtxoHash) (global_id : Z) : RollingUtxoHash :=
  if uh_enabled self then
    let d := sha256 ([97; 100; 100] ++ be_bytes 8 global_id) in
    with_current self (xor_into (uh_current_block self) d)
  else self.
Definition remove_output (self : RollingUtxoHash) (global_id : Z) : RollingUtxoHash :=
  if uh_enabled self then
    let d := sha256 ([114; 101; 109] ++ be_bytes 8 global_id) in
    with_current self (xor_into (uh_current_block self) d)
  else self.
Definition finalize_block (self : RollingUtxoHash) : RollingUtxoHash * bytes :=
  if uh_enabled self then
    let acc := xor_into (uh_acc self) (uh_current_block self) in
    let '(window, acc) := evict_blocks (uh_window self ++ [uh_current_block self]) acc (uh_window_blocks self) in
    ({| uh_window := window; uh_acc := acc; uh_window_blocks := uh_window_blocks self; uh_current_block := zero32 |}, hex_bytes acc)
  else (self, []).

(** ** Specification *)

Inductive utxo_event := Added (id : Z) | Removed (id : Z).
Definition event_digest (e : utxo_event) : bytes :=
  sha256 (match e with Added id => [97; 100; 100] ++ be_bytes 8 id | Removed id => [114; 101; 109] ++ be_bytes 8 id end).
Definition apply_event (self : RollingUtxoHash) (e : utxo_event) : RollingUtxoHash :=
  match e with Added id => add_output self id | Removed id => remove_output self id end.
(** A block: its events in order, then [finalize_block]. *)
Definition hash_block (self : RollingUtxoHash) (events : list utxo_event) : RollingUtxoHash * bytes :=
  finalize_block (foldl apply_event self events).
Fixpoint hash_blocks (self : RollingUtxoHash) (blocks : list (list utxo_event)) : RollingUtxoHash * list bytes :=
  match blocks with
  | [] => (self, [])
  | b :: blocks =>
      let '(self, h) := hash_block self b in
      let '(self, hs) := hash_blocks self blocks in (self, h :: hs)
  end.

Definition xor_all (l : list bytes) : bytes := foldr xor_into zero32 l.
Definition block_delta (events : list utxo_event) : bytes := xor_all (event_digest <$> events).
(** The last [n] elements. *)
Definition lastn {A} (n : nat) (l : list A) : list A := drop (length l - n) l.

Definition digest32 (d : bytes) : Prop := length d = 32%nat.

Lemma xor_length a b : digest32 a → digest32 b → digest32 (xor_into a b).
Proof. intros Ha Hb. unfold digest32, xor_into in *. rewrite length_zip_with. lia. Qed.
Lemma xor_lookup a b i : xor_into a b !! i = x ← a !! i; y ← b !! i; Some (Z.lxor x y).
Proof. apply lookup_zip_with. Qed.
Lemma xor_comm a b : xor_into a b = xor_into b a.
Proof. apply list_eq. intros i. rewrite !xor_lookup. destruct (a !! i), (b !! i); cbn; try done. by rewrite Z.lxor_comm. Qed.
Lemma xor_assoc a b c : xor_into (xor_into a b) c = xor_into a (xor_into b c).
Proof.
  apply list_eq. intros i. rewrite !xor_lookup. destruct (a !! i), (b !! i); cbn; try done.
  destruct (c !! i); cbn; [|done]. by rewrite Z.lxor_assoc.
Qed.
Lemma zero_lookup i : (i < 32)%nat → zero32 !! i = Some 0.
Proof. intros. by apply lookup_replicate_2. Qed.
Lemma xor_zero a : digest32 a → xor_into a zero32 = a.
Proof.
  unfold digest32. intros Ha. apply list_eq. intros i. rewrite xor_lookup. destruct (a !! i) as [x|] eqn:E; [|done].
  apply lookup_lt_Some in E. rewrite zero_lookup by lia. cbn [mbind option_bind]. by rewrite Z.lxor_0_r.
Qed.
Lemma xor_self a : digest32 a → xor_into a a = zero32.
Proof.
  unfold digest32. intros Ha. apply list_eq. intros i. rewrite xor_lookup. destruct (a !! i) as [x|] eqn:E; cbn [mbind option_bind].
  - rewrite Z.lxor_nilpotent. symmetry. apply zero_lookup. apply lookup_lt_Some in E. lia.
  - symmetry. apply lookup_ge_None_2. apply lookup_ge_None_1 in E. unfold zero32. rewrite length_replicate. lia.
Qed.
Lemma xor_all_length l : Forall digest32 l → digest32 (xor_all l).
Proof. induction 1 as [|x l Hx Hl IH]; [done|]. by apply xor_length. Qed.
Lemma xor_all_app l k : Forall digest32 l → Forall digest32 k → xor_all (l ++ k) = xor_into (xor_all l) (xor_all k).
Proof.
  intros Hl Hk. induction Hl as [|x l Hx Hl IH].
  - cbn. by rewrite xor_comm, xor_zero by by apply xor_all_length.
  - cbn. fold (xor_all (l ++ k)) (xor_all l). by rewrite IH, xor_assoc.
Qed.
Lemma xor_all_perm l k : l ≡ₚ k → xor_all l = xor_all k.
Proof.
  induction 1 as [|x l k _ IH|x y l|l k m _ IH1 _ IH2]; [done|cbn; by f_equal| |by etrans].
  cbn. by rewrite <-!xor_assoc, (xor_comm y x).
Qed.
Lemma digest_length e : digest32 (event_digest e).
Proof. apply sha256_wf. Qed.
Lemma delta_length evs : digest32 (block_delta evs).
Proof. apply xor_all_length, Forall_fmap, Forall_forall. intros e _. apply digest_length. Qed.

(** The events of a block accumulate in [current_block]. *)
Lemma events_current evs : ∀ self, uh_enabled self = true → digest32 (uh_current_block self) →
  foldl apply_event self evs = with_current self (xor_into (uh_current_block self) (block_delta evs)).
Proof.
  induction evs as [|e evs IH]; intros self He Hc.
  { cbn. rewrite xor_zero by done. by destruct self. }
  cbn [foldl]. assert (apply_event self e = with_current self (xor_into (uh_current_block self) (event_digest e))) as ->.
  { destruct e; cbn; unfold add_output, remove_output; by rewrite He. }
  rewrite IH; [|done|by apply xor_length, digest_length]. cbn. unfold with_current. cbn. by rewrite xor_assoc.
Qed.

(** Eviction keeps the accumulator of the window. *)
Lemma evict_spec w window : 0 ≤ w → Forall digest32 window →
  evict_blocks window (xor_all window) w = (lastn (Z.to_nat w) window, xor_all (lastn (Z.to_nat w) window)).
Proof.
  intros Hw Hf. induction Hf as [|x l Hx Hl IH]; [done|]. cbn [evict_blocks].
  destruct (decide (w < len (x :: l))) as [Hd|Hd].
  - rewrite bool_decide_true by done. cbn [xor_all foldr]. fold (xor_all l).
    rewrite (xor_comm x), xor_assoc, xor_self, xor_zero by (done || by apply xor_all_length). rewrite IH. cbn [length] in Hd.
    assert (lastn (Z.to_nat w) (x :: l) = lastn (Z.to_nat w) l) as ->; [|done].
    unfold lastn. cbn [length]. replace (S (length l) - Z.to_nat w)%nat with (S (length l - Z.to_nat w)) by lia. done.
  - rewrite bool_decide_false by done.
    assert (lastn (Z.to_nat w) (x :: l) = x :: l) as ->; [|done].
    unfold lastn. replace (length (x :: l) - Z.to_nat w)%nat with 0%nat by lia. done.
Qed.

(** The state after some blocks. *)
Definition window_state (w : Z) (blocks : list (list utxo_event)) : RollingUtxoHash :=
  let window := lastn (Z.to_nat w) (block_delta <$> blocks) in
  {| uh_window := window; uh_acc := xor_all window; uh_window_blocks := w; uh_current_block := zero32 |}.

Lemma lastn_lastn_app {A} n (l : list A) x : (0 < n)%nat → lastn n (lastn n l ++ [x]) = lastn n (l ++ [x]).
Proof.
  intros Hn. unfold lastn. rewrite !length_app, length_drop. cbn [length].
  rewrite !drop_app_le by (rewrite ?length_drop; lia). rewrite drop_drop. do 2 f_equal. lia.
Qed.
Lemma hash_block_spec w blocks evs : 0 < w →
  hash_block (window_state w blocks) evs =
  (window_state w (blocks ++ [evs]), hex_bytes (xor_all (lastn (Z.to_nat w) (block_delta <$> blocks ++ [evs])))).
Proof.
  intros Hw. unfold hash_block. assert (He : uh_enabled (window_state w blocks) = true) by by apply bool_decide_eq_true.
  rewrite events_current by done. unfold finalize_block. unfold uh_enabled in *. cbn in He |- *. rewrite He.
  assert (Hz : xor_into zero32 (block_delta evs) = block_delta evs) by (rewrite xor_comm; apply xor_zero, delta_length). rewrite Hz.
  assert (Hf : ∀ bs, Forall digest32 (block_delta <$> bs)) by (intros bs; apply Forall_fmap, Forall_forall; intros; apply delta_length).
  set (win := lastn (Z.to_nat w) (block_delta <$> blocks)).
  assert (Hwin : Forall digest32 win) by by apply Forall_drop.
  assert (xor_into (xor_all win) (block_delta evs) = xor_all (win ++ [block_delta evs])) as ->.
  { rewrite xor_all_app; [|done|constructor; [apply delta_length|done]]. cbn. by rewrite xor_zero by apply delta_length. }
  rewrite evict_spec; [|lia|apply Forall_app; split; [done|constructor; [apply delta_length|done]]].
  unfold win. rewrite lastn_lastn_app by lia. unfold window_state. by rewrite fmap_app.
Qed.

Lemma hash_blocks_spec w blocks : 0 < w → ∀ done,
  hash_blocks (window_state w done) blocks =
  (window_state w (done ++ blocks),
   imap (λ i _, hex_bytes (xor_all (lastn (Z.to_nat w) (block_delta <$> done ++ take (S i) blocks)))) blocks).
Proof.
  intros Hw. induction blocks as [|b blocks IH]; intros prev; [by rewrite app_nil_r|]. cbn [hash_blocks].
  rewrite hash_block_spec, IH by done. rewrite <-app_assoc. cbn [app imap take]. f_equal. f_equal.
  apply imap_ext. intros i x _. cbn. by rewrite <-app_assoc.
Qed.

(** C40: the value reported after each block is the XOR of the digests of all the events of
    the last [window] blocks, each exactly once, whatever was evicted before.  It does
    not depend on the order of the events inside a block, so two servers that see the
    same blocks report the same values. *)
Theorem rolling_hash_window (w : Z) (blocks blocks' : list (list utxo_event))
  (Hw : 0 < w) (Hp : Forall2 Permutation blocks blocks') :
  (hash_blocks (uh_new w) blocks).2 =
    imap (λ i _, hex_bytes (xor_all (event_digest <$> concat (lastn (Z.to_nat w) (take (S i) blocks))))) blocks ∧
  (hash_blocks (uh_new w) blocks').2 = (hash_blocks (uh_new w) blocks).2.
Proof.
  assert (Hnew : uh_new w = window_state w []) by (unfold window_state, lastn; cbn; done).
  assert (Hdelta : ∀ bs, xor_all (block_delta <$> bs) = xor_all (event_digest <$> concat bs)).
  { intros bs. assert (Hf : ∀ evs : list utxo_event, Forall digest32 (event_digest <$> evs)).
    { intros evs. apply Forall_fmap, Forall_forall. intros; apply digest_length. }
    induction bs as [|evs bs IH]; [done|]. rewrite fmap_cons. cbn [concat]. rewrite fmap_app, xor_all_app by done.
    cbn [xor_all foldr]. fold (xor_all (block_delta <$> bs)). by rewrite IH. }
  rewrite Hnew, !hash_blocks_spec by done. cbn [snd app]. split.
  - apply imap_ext. intros i x _. cbn. unfold lastn. by rewrite length_fmap, <-fmap_drop, Hdelta.
  - assert (block_delta <$> blocks' = block_delta <$> blocks) as E.
    { clear -Hp. induction Hp as [|x y l k Hxy _ IH]; [done|]. rewrite !fmap_cons, IH. f_equal.
      symmetry. apply xor_all_perm. by rewrite Hxy. }
    apply list_eq. intros i. rewrite !list_lookup_imap. rewrite !fmap_take, E.
    destruct (blocks' !! i) as [x|] eqn:E1, (blocks !! i) as [y|] eqn:E2; try done;
      apply Forall2_length in Hp; apply lookup_lt_Some in E1 || apply lookup_lt_Some in E2;
      apply lookup_ge_None_1 in E2 || apply lookup_ge_None_1 in E1; lia.
Qed.
End hash.

Lemma rolling_hash_window_witness : let bs := [[Added 1; Added 2]; [Removed 1; Added 3]; [Removed 2]] in
  (@hash_blocks toy_sha256 (uh_new 2) bs).2 =
    imap (λ i _, hex_bytes (xor_all (event_digest (SH := toy_sha256) <$> concat (lastn 2 (take (S i) bs))))) bs ∧
  (@hash_blocks toy_sha256 (uh_new 2) [[Added 2; Added 1]; [Removed 1; Added 3]; [Removed 2]]).2 = (@hash_blocks toy_sha256 (uh_new 2) bs).2.
Proof.
  apply (@rolling_hash_window toy_sha256 2); [lia|]. repeat constructor. 
Defined.
