(* ===== verification/CodecCost.v ===== *)
(** * Codec costs of the spent-UID streams

    Model of the estimates of [stats/src/block.rs]: the price of a value under LEB128,
    Elias delta, Rice and escaped Rice coding, their accumulation, and the measurement of
    the sorted UIDs a block spends.  Prices are [u128] and wrap; the printing functions
    are in [Report]. *)

From S2P Require Import Prelude Bits Leb128 EliasDelta Histogram.

Definition RICE_K_COUNT : nat := 33.
Definition ESCAPED_RICE_THRESHOLDS : list Z := [128; 2048; 16384; 65536].
Definition ESCAPED_RICE_MAX_K : nat := 16.
Definition ESCAPED_RICE_K_COUNT : nat := ESCAPED_RICE_MAX_K + 1.
Definition PER_BLOCK_RICE_K_OVERHEAD_BITS : Z := 5.

(** The loop runs while [value >= 0x80]: at most nine times for a [u64]. *)
Fixpoint leb128_len_loop (fuel : nat) (value bytes : Z) : Z :=
  match fuel with
  | O => bytes
  | S fuel => if bool_decide (128 ≤ value) then leb128_len_loop fuel (Z.shiftr value 7) (bytes + 1) else bytes
  end.
Definition leb128_len_u64 (value : Z) : Z := leb128_len_loop 9 value 1.
Definition rice_bits (value : Z) (k : nat) : Z := wrap 64 (wrap 64 (Z.shiftr value (Z.of_nat k) + 1) + Z.of_nat k).
Definition elias_delta_bits (value : Z) : Z :=
  let len := 64 - leading_zeros 64 value in
  let len_len := 64 - leading_zeros 64 len in
  len + 2 * len_len - 1.
Definition elias_fano_bits (universe n : Z) : Z :=
  if bool_decide (n = 0) then 0
  else
    let lower_bits := if bool_decide (universe ≤ n) then 0 else Z.log2 (universe / n) in
    let lower := wrap 128 (n * lower_bits) in
    let upper := wrap 128 (wrap 128 (n + Z.shiftr universe lower_bits) + 1) in
    wrap 128 (lower + upper).

Record CodecValueCosts := {
  cc_leb128_bytes : Z; cc_elias_delta_bits : Z; cc_rice_bits_by_k : list Z; cc_escaped_rice_bits : list (list Z)
}.
Definition costs_new (value : Z) (zeroable : bool) : CodecValueCosts :=
  let leb128_bytes := leb128_len_u64 value in
  let elias_value := if zeroable then saturating_add 64 value 1 else value in
  {| cc_leb128_bytes := leb128_bytes;
     cc_elias_delta_bits := elias_delta_bits elias_value;
     cc_rice_bits_by_k := rice_bits value <$> seq 0 RICE_K_COUNT;
     cc_escaped_rice_bits := (λ threshold,
       (λ k, if bool_decide (value < threshold) then 1 + rice_bits value k else 1 + 8 * leb128_bytes) <$> seq 0 ESCAPED_RICE_K_COUNT)
         <$> ESCAPED_RICE_THRESHOLDS |}.

Record CodecEstimate := {
  es_values : Z; es_leb128_bytes : Z; es_elias_delta_bits : Z; es_rice_bits_by_k : list Z;
  es_escaped_rice_bits : list (list Z); es_hist : Log2Hist
}.
Definition estimate_default : CodecEstimate := {|
  es_values := 0; es_leb128_bytes := 0; es_elias_delta_bits := 0; es_rice_bits_by_k := replicate RICE_K_COUNT 0;
  es_escaped_rice_bits := replicate (length ESCAPED_RICE_THRESHOLDS) (replicate ESCAPED_RICE_K_COUNT 0); es_hist := hist_default |}.

(** The module [serde_rice_bits_by_k]: the array goes to a sequence and back only at its
    length. *)
Definition rice_bits_serialize (value : list Z) : list Z := value.
Definition rice_bits_deserialize (values : list Z) : res (list Z) :=
  _ ← ensure (bool_decide (length values = RICE_K_COUNT)) "invalid length, expected exactly 33 Rice buckets";
  Ok values.
Lemma rice_bits_roundtrip (v : list Z) : rice_bits_deserialize (rice_bits_serialize v) = Ok v ↔ length v = RICE_K_COUNT.
Proof.
  unfold rice_bits_deserialize, rice_bits_serialize. destruct (bool_decide _) eqn:E; cbn.
  - apply bool_decide_eq_true in E. done.
  - apply bool_decide_eq_false in E. by split.
Qed.

(** [for (dst, src) in dst.iter_mut().zip(src) { *dst += *src }]. *)
Definition add_each (dst src : list Z) : list Z := zip_with (λ a b, wrap 128 (a + b)) dst src.

Definition add_costs_no_hist (self : CodecEstimate) (costs : CodecValueCosts) : CodecEstimate := {|
  es_values := wrap 64 (es_values self + 1);
  es_leb128_bytes := wrap 128 (es_leb128_bytes self + cc_leb128_bytes costs);
  es_elias_delta_bits := wrap 128 (es_elias_delta_bits self + cc_elias_delta_bits costs);
  es_rice_bits_by_k := add_each (es_rice_bits_by_k self) (cc_rice_bits_by_k costs);
  es_escaped_rice_bits := zip_with add_each (es_escaped_rice_bits self) (cc_escaped_rice_bits costs);
  es_hist := es_hist self |}.
Definition add_costs (self : CodecEstimate) (value : Z) (costs : CodecValueCosts) : CodecEstimate :=
  let self := add_costs_no_hist self costs in
  {| es_values := es_values self; es_leb128_bytes := es_leb128_bytes self; es_elias_delta_bits := es_elias_delta_bits self;
     es_rice_bits_by_k := es_rice_bits_by_k self; es_escaped_rice_bits := es_escaped_rice_bits self;
     es_hist := hist_record (es_hist self) value |}.
Definition add_zeroable (self : CodecEstimate) (value : Z) : CodecEstimate := add_costs self value (costs_new value true).
Definition add_nonzero (self : CodecEstimate) (value : Z) : CodecEstimate := add_costs self value (costs_new value false).
Definition estimate_add (self : CodecEstimate) (value : Z) : CodecEstimate := add_zeroable self value.
Definition estimate_merge (self other : CodecEstimate) : CodecEstimate := {|
  es_values := wrap 64 (es_values self + es_values other);
  es_leb128_bytes := wrap 128 (es_leb128_bytes self + es_leb128_bytes other);
  es_elias_delta_bits := wrap 128 (es_elias_delta_bits self + es_elias_delta_bits other);
  es_rice_bits_by_k := add_each (es_rice_bits_by_k self) (es_rice_bits_by_k other);
  es_escaped_rice_bits := zip_with add_each (es_escaped_rice_bits self) (es_escaped_rice_bits other);
  es_hist := hist_merge (es_hist self) (es_hist other) |}.

Record RiceChoice := { rc_k : nat; rc_bits : Z }.
Record EscapedRiceChoice := { ec_threshold : Z; ec_k : nat; ec_bits : Z }.
Definition best_of (best : RiceChoice) (entry : nat * Z) : RiceChoice :=
  if bool_decide (entry.2 < rc_bits best) then {| rc_k := entry.1; rc_bits := entry.2 |} else best.
Definition best_rice (self : CodecEstimate) : RiceChoice :=
  let best := foldl best_of {| rc_k := 0; rc_bits := umax 128 |} (imap pair (es_rice_bits_by_k self)) in
  if bool_decide (es_values self = 0) then {| rc_k := 0; rc_bits := 0 |} else best.
Definition best_escaped_of (best : EscapedRiceChoice) (entry : Z * (nat * Z)) : EscapedRiceChoice :=
  let '(threshold, (k, bits)) := entry in
  if bool_decide (bits < ec_bits best) then {| ec_threshold := threshold; ec_k := k; ec_bits := bits |} else best.
Definition best_escaped_rice (self : CodecEstimate) : EscapedRiceChoice :=
  if bool_decide (es_values self = 0) then {| ec_threshold := 0; ec_k := 0; ec_bits := 0 |}
  else foldl best_escaped_of {| ec_threshold := 0; ec_k := 0; ec_bits := umax 128 |}
         (zip ESCAPED_RICE_THRESHOLDS (es_escaped_rice_bits self) ≫= λ '(threshold, row), pair threshold <$> imap pair row).

Record SortedUidCodecStats := {
  su_blocks_with_spends : Z; su_ef_bits_with_64bit_base : Z; su_delta_best_bits : Z; su_combined_best_bits : Z;
  su_first_offsets : CodecEstimate; su_deltas : CodecEstimate; su_combined : CodecEstimate
}.
Definition sorted_stats_default : SortedUidCodecStats := {|
  su_blocks_with_spends := 0; su_ef_bits_with_64bit_base := 0; su_delta_best_bits := 0; su_combined_best_bits := 0;
  su_first_offsets := estimate_default; su_deltas := estimate_default; su_combined := estimate_default |}.
Record SortedUidBlockEstimate := {
  be_values : Z; be_leb128_bytes : Z; be_rice_best_k : nat; be_rice_best_bits : Z; be_elias_delta_bits : Z;
  be_ef_bits_with_64bit_base : Z
}.
Definition block_estimate_default : SortedUidBlockEstimate := Build_SortedUidBlockEstimate 0 0 0 0 0 0.

(** The loop over the UIDs after the first: [prev], the two block estimates and the two
    run estimates. *)
Definition delta_step (acc : Z * (CodecEstimate * CodecEstimate) * (CodecEstimate * CodecEstimate)) (uid : Z) :=
  let '(prev, (block_combined, block_deltas), (deltas, combined)) := acc in
  let delta := uid - prev in
  let delta_costs := costs_new delta false in
  (uid, (add_costs_no_hist block_combined delta_costs, add_costs_no_hist block_deltas delta_costs),
   (add_costs deltas delta delta_costs, add_costs combined delta delta_costs)).

Definition measure_sorted_uid_stream (uids : list Z) (block_anchor_last_uid : Z) (stats : SortedUidCodecStats)
    : res (SortedUidCodecStats * SortedUidBlockEstimate) :=
  match merge_sort Z.le uids with
  | [] => Ok (stats, block_estimate_default)
  | first_uid :: rest =>
      if existsb (λ '(a, b), bool_decide (a = b)) (zip (first_uid :: rest) rest) then Panic "duplicate spent UID in same sorted UID stream"
      else
        first_offset ← expect (checked_sub block_anchor_last_uid first_uid) "spent UID exceeds block_anchor_last_uid";
        let first_offset_costs := costs_new first_offset true in
        let block_combined := add_costs_no_hist estimate_default first_offset_costs in
        let first_offsets := add_costs (su_first_offsets stats) first_offset first_offset_costs in
        let combined := add_costs (su_combined stats) first_offset first_offset_costs in
        let '(max_uid, (block_combined, block_deltas), (deltas, combined)) :=
          foldl delta_step (first_uid, (block_combined, estimate_default), (su_deltas stats, combined)) rest in
        let delta_best := if bool_decide (0 < es_values block_deltas)
                          then wrap 128 (su_delta_best_bits stats + wrap 128 (rc_bits (best_rice block_deltas) + PER_BLOCK_RICE_K_OVERHEAD_BITS))
                          else su_delta_best_bits stats in
        let combined_best := wrap 128 (su_combined_best_bits stats + wrap 128 (rc_bits (best_rice block_combined) + PER_BLOCK_RICE_K_OVERHEAD_BITS)) in
        let n := len uids in
        let universe := wrap 64 (max_uid - first_uid + 1) in
        let ef_bits_with_64bit_base := wrap 128 (64 + elias_fano_bits universe n) in
        let best := best_rice block_combined in
        Ok ({| su_blocks_with_spends := wrap 64 (su_blocks_with_spends stats + 1);
               su_ef_bits_with_64bit_base := wrap 128 (su_ef_bits_with_64bit_base stats + ef_bits_with_64bit_base);
               su_delta_best_bits := delta_best; su_combined_best_bits := combined_best;
               su_first_offsets := first_offsets; su_deltas := deltas; su_combined := combined |},
            {| be_values := es_values block_combined; be_leb128_bytes := es_leb128_bytes block_combined;
               be_rice_best_k := rc_k best; be_rice_best_bits := rc_bits best;
               be_elias_delta_bits := es_elias_delta_bits block_combined;
               be_ef_bits_with_64bit_base := ef_bits_with_64bit_base |})
  end.

(** ** The prices and the codecs *)

Lemma leb_len_spec f v b : 0 ≤ v < 128 ^ Z.of_nat (S f) → leb128_len_loop f v b = b - 1 + len (leb_bytes (S f) v).
Proof.
  revert v b. induction f as [|f IH]; intros v b Hv.
  { change (128 ^ Z.of_nat 1) with 128 in Hv. cbn. rewrite bool_decide_true by lia. cbn. lia. }
  cbn [leb128_len_loop]. rewrite shiftr_7. change (leb_bytes (S (S f)) v) with
    (if bool_decide (v < 128) then [v] else (v mod 128 + 128) :: leb_bytes (S f) (v / 128)).
  rewrite Nat2Z.inj_succ, Z.pow_succ_r in Hv by lia. destruct (decide (128 ≤ v)) as [Hd|Hd].
  - rewrite bool_decide_true, (bool_decide_false (v < 128)) by lia. rewrite IH by lia. cbn [length]. lia.
  - rewrite bool_decide_false, (bool_decide_true (v < 128)) by lia. cbn. lia.
Qed.
Lemma leb_len_bytes v : in_width 64 v → leb128_len_u64 v = len (leb_bytes 10 v).
Proof.
  intros Hv. unfold leb128_len_u64. rewrite leb_len_spec; [lia|]. change (128 ^ Z.of_nat 10) with (2 ^ 70).
  unfold in_width in Hv. lia.
Qed.
Lemma leb_values_length vs : Forall (in_width 64) vs → len (encode_leb128_values vs) = foldr Z.add 0 (leb128_len_u64 <$> vs).
Proof.
  intros Hvs. unfold encode_leb128_values. rewrite leb_encode_values_spec by done. cbn [app].
  induction Hvs as [|v vs Hv Hvs IH]; [done|]. rewrite bind_cons, length_app, fmap_cons. cbn [foldr].
  rewrite leb_len_bytes, <-IH by done. lia.
Qed.

Lemma delta_bits_length v : 1 ≤ v → len (delta_bits v) + 1 = elias_delta_bits v.
Proof.
  intros Hv. unfold elias_delta_bits. pose proof (Z.log2_nonneg v). rewrite n_bits_log2, n_bits_log2 by lia.
  unfold delta_bits. set (n := Z.log2 v + 1). pose proof (Z.log2_nonneg n).
  rewrite !length_app, length_replicate, !length_Z_to_bits. lia.
Qed.
Lemma elias_values_length vs : Forall (λ v, 1 ≤ v) vs →
  len (delta_stream vs) + len vs = foldr Z.add 0 (elias_delta_bits <$> vs).
Proof.
  intros Hvs. unfold delta_stream. induction Hvs as [|v vs Hv Hvs IH]; [done|].
  rewrite bind_cons, length_app, fmap_cons. cbn [foldr length]. rewrite <-delta_bits_length, <-IH by done. lia.
Qed.

(** ** The measurement of a block *)

(** The differences between consecutive UIDs. *)
Definition gaps (first : Z) (rest : list Z) : list Z := zip_with Z.sub rest (first :: rest).
(** A price summed over some values. *)
Definition price (f : CodecValueCosts → Z) (cs : list CodecValueCosts) : Z := foldr Z.add 0 (f <$> cs).
Definition rice_cost (k : nat) (c : CodecValueCosts) : Z := default 0 (cc_rice_bits_by_k c !! k).

Lemma price_app f cs ds : price f (cs ++ ds) = price f cs + price f ds.
Proof. unfold price. induction cs as [|c cs IH]; [done|]. cbn. rewrite IH. lia. Qed.

(** The estimate of some prices, added in turn to an empty one. *)
Record estimates (es : CodecEstimate) (cs : list CodecValueCosts) : Prop := {
  em_values : es_values es = wrap 64 (len cs);
  em_leb : es_leb128_bytes es = wrap 128 (price cc_leb128_bytes cs);
  em_elias : es_elias_delta_bits es = wrap 128 (price cc_elias_delta_bits cs);
  em_rice : es_rice_bits_by_k es = (λ k, wrap 128 (price (rice_cost k) cs)) <$> seq 0 RICE_K_COUNT
}.
Definition full_costs (c : CodecValueCosts) : Prop := length (cc_rice_bits_by_k c) = RICE_K_COUNT.

Lemma estimates_default : estimates estimate_default [].
Proof. split; reflexivity. Qed.
Lemma estimates_add es cs c : full_costs c → estimates es cs → estimates (add_costs_no_hist es c) (cs ++ [c]).
Proof.
  intros Hc [Hv Hl He Hr].
  split; cbn [add_costs_no_hist es_values es_leb128_bytes es_elias_delta_bits es_rice_bits_by_k]; rewrite ?Hv, ?Hl, ?He, ?Hr, ?price_app, ?wrap_plus_l.
  - rewrite length_app. f_equal. simpl. lia.
  - f_equal. unfold price. cbn. lia.
  - f_equal. unfold price. cbn. lia.
  - apply list_eq. intros k. unfold add_each. rewrite lookup_zip_with, !list_lookup_fmap.
    destruct (decide (k < RICE_K_COUNT)%nat) as [Hk|Hk].
    + rewrite lookup_seq_lt by done. cbn [fmap option_fmap option_map].
      destruct (lookup_lt_is_Some_2 (cc_rice_bits_by_k c) k) as [x Hx]; [by rewrite Hc|].
      rewrite Hx. cbn. rewrite wrap_plus_l, price_app. do 3 f_equal. unfold price, rice_cost. cbn. rewrite Hx. cbn. lia.
    + rewrite lookup_seq_ge by lia. done.
Qed.
Lemma full_costs_new v z : full_costs (costs_new v z).
Proof. unfold full_costs, costs_new. cbn [cc_rice_bits_by_k]. by rewrite length_fmap, length_seq. Qed.
Lemma rice_cost_new v z k : (k < RICE_K_COUNT)%nat → rice_cost k (costs_new v z) = rice_bits v k.
Proof. intros Hk. unfold rice_cost. cbn [cc_rice_bits_by_k costs_new]. by rewrite list_lookup_fmap, lookup_seq_lt. Qed.

(** The loop over the deltas. *)
Lemma delta_loop rest : ∀ prev bc bd ds cb cs1 cs2, estimates bc cs1 → estimates bd cs2 →
  ∃ ds' cb' bc' bd', foldl delta_step (prev, (bc, bd), (ds, cb)) rest = (List.last (prev :: rest) prev, (bc', bd'), (ds', cb')) ∧
    estimates bc' (cs1 ++ ((λ d, costs_new d false) <$> gaps prev rest)) ∧
    estimates bd' (cs2 ++ ((λ d, costs_new d false) <$> gaps prev rest)).
Proof.
  induction rest as [|u rest IH]; intros prev bc bd ds cb cs1 cs2 H1 H2.
  { exists ds, cb, bc, bd. cbn. by rewrite !app_nil_r. }
  cbn [foldl delta_step].
  edestruct (IH u) as (ds' & cb' & bc' & bd' & -> & E1 & E2);
    [apply estimates_add; [apply (full_costs_new (u - prev) false)|exact H1]|
     apply estimates_add; [apply (full_costs_new (u - prev) false)|exact H2]|].
  rewrite <-!app_assoc in *. cbn [app] in *.
  exists ds', cb', bc', bd'. split; [|done]. f_equal. f_equal. cbn [List.last]. destruct rest as [|x rest]; [done|].
  generalize u prev. clear. intros d d'. revert x. induction rest as [|y rest IH]; intros x; [done|]. apply IH.
Qed.

(** The best Rice parameter is the first of the least price. *)
Lemma best_fold l : ∀ best, let b := foldl best_of best l in
  (∀ e, e ∈ l → rc_bits b ≤ e.2) ∧ rc_bits b ≤ rc_bits best ∧ (b = best ∨ ∃ e, e ∈ l ∧ b = {| rc_k := e.1; rc_bits := e.2 |}).
Proof.
  induction l as [|e l IH]; intros best; [split; [by intros ? ?%not_elem_of_nil|]; split; [done|by left]|].
  cbn [foldl]. destruct (IH (best_of best e)) as (H1 & H2 & H3).
  assert (rc_bits (best_of best e) ≤ e.2 ∧ rc_bits (best_of best e) ≤ rc_bits best) as [He Hb].
  { unfold best_of. case_bool_decide; cbn; lia. }
  split; [|split].
  - intros e' [->|Hin]%elem_of_cons; [lia|by apply H1].
  - lia.
  - destruct H3 as [H3|(e' & Hin & H3)].
    + rewrite H3. unfold best_of. case_bool_decide; [right; exists e; split; [left|done]|by left].
    + right. exists e'. split; [by right|done].
Qed.
Lemma best_rice_spec es cs : estimates es cs → cs ≠ [] → len cs < 2 ^ 64 →
  (∀ k, (k < RICE_K_COUNT)%nat → 0 ≤ price (rice_cost k) cs < umax 128) →
  (rc_k (best_rice es) < RICE_K_COUNT)%nat ∧ rc_bits (best_rice es) = price (rice_cost (rc_k (best_rice es))) cs ∧
  ∀ k, (k < RICE_K_COUNT)%nat → rc_bits (best_rice es) ≤ price (rice_cost k) cs.
Proof.
  intros [Hv _ _ Hr] Hne Hl Hp. unfold best_rice. rewrite Hv, wrap_small by (unfold in_width; lia).
  rewrite bool_decide_false by (destruct cs; [done|cbn; lia]).
  assert (Hw : ∀ k, (k < RICE_K_COUNT)%nat → wrap 128 (price (rice_cost k) cs) = price (rice_cost k) cs).
  { intros k Hk. apply wrap_small. specialize (Hp k Hk). unfold in_width, umax in *. lia. }
  set (l := imap pair (es_rice_bits_by_k es)).
  assert (Hin : ∀ e, e ∈ l ↔ (e.1 < RICE_K_COUNT)%nat ∧ e.2 = price (rice_cost e.1) cs).
  { intros [k x]. unfold l. rewrite Hr. cbn [fst snd]. rewrite list_elem_of_lookup. split.
    - intros [i Hi]. rewrite list_lookup_imap, list_lookup_fmap in Hi. destruct (seq 0 RICE_K_COUNT !! i) as [j|] eqn:E; [|done].
      apply lookup_seq in E as [-> Hlt]. cbn in Hi. injection Hi as <- <-. split; [done|by apply Hw].
    - intros [Hk ->]. exists k. rewrite list_lookup_imap, list_lookup_fmap, lookup_seq_lt by done. cbn. by rewrite Hw. }
  destruct (best_fold l {| rc_k := 0; rc_bits := umax 128 |}) as (H1 & H2 & H3).
  assert (H0 : (0%nat, price (rice_cost 0) cs) ∈ l) by (apply Hin; split; [cbn [fst]; unfold RICE_K_COUNT; lia|done]).
  destruct H3 as [E|([k x] & Hkx & E)].
  { exfalso. specialize (H1 _ H0). rewrite E in H1. cbn in H1. specialize (Hp 0%nat ltac:(unfold RICE_K_COUNT; lia)). lia. }
  rewrite E in *. cbn in *. apply Hin in Hkx as [Hk Hx]. cbn in *. split; [done|]. split; [done|].
  intros k' Hk'. apply (H1 (k', price (rice_cost k') cs)). by apply Hin.
Qed.

Definition total_of (f : Z → Z) (vs : list Z) : Z := foldr Z.add 0 (f <$> vs).

Lemma total_of_bound f vs b : Forall (λ v, 0 ≤ f v ≤ b) vs → 0 ≤ total_of f vs ≤ len vs * b.
Proof. unfold total_of. induction 1 as [|v vs Hv _ IH]; [done|]. cbn [fmap list_fmap foldr length]. lia. Qed.
Lemma total_of_ext f g vs : Forall (λ v, f v = g v) vs → total_of f vs = total_of g vs.
Proof. unfold total_of. induction 1 as [|v vs Hv _ IH]; [done|]. cbn. by rewrite Hv, IH. Qed.
Lemma total_of_plus f c vs : total_of (λ v, f v + c) vs = total_of f vs + c * len vs.
Proof. unfold total_of. induction vs as [|v vs IH]; cbn [fmap list_fmap foldr length]; lia. Qed.

Lemma rice_bits_bound v k : 0 ≤ v → 0 ≤ rice_bits v k ≤ umax 64.
Proof. intros. unfold rice_bits. pose proof (wrap_width 64 (wrap 64 (Z.shiftr v (Z.of_nat k) + 1) + Z.of_nat k)). unfold in_width, umax in *. lia. Qed.

(** The pairs of neighbours of a sorted list show its duplicates. *)
Lemma neighbours_distinct x l : StronglySorted Z.le (x :: l) →
  existsb (λ '(a, b), bool_decide (a = b)) (zip (x :: l) l) = false ↔ NoDup (x :: l).
Proof.
  revert x. induction l as [|y l IH]; intros x [Hs Hx]%StronglySorted_inv; [cbn; split; [intros _; apply NoDup_singleton|done]|].
  cbn [zip_with existsb]. rewrite orb_false_iff, bool_decide_eq_false, (IH y Hs). apply Forall_cons in Hx as [Hxy Hx].
  apply StronglySorted_inv in Hs as [Hs Hy]. split.
  - intros [Hne Hnd]. constructor; [|done]. intros [->|Hin]%elem_of_cons; [done|].
    rewrite Forall_forall in Hy. specialize (Hy x Hin). lia.
  - intros [Hnin Hnd]%NoDup_cons. split; [|done]. intros ->. apply Hnin. by left.
Qed.
Lemma sorted_strict l : StronglySorted Z.le l → NoDup l → StronglySorted Z.lt l.
Proof.
  induction 1 as [|x l Hs IH Hx]; [by constructor|]. intros [Hn Hnd]%NoDup_cons. constructor; [by apply IH|].
  rewrite Forall_forall in *. intros y Hy. specialize (Hx y Hy). assert (x ≠ y) by (by intros ->). lia.
Qed.
Lemma gaps_positive rest : ∀ first, 0 ≤ first → StronglySorted Z.lt (first :: rest) →
  Forall (λ u, u < umax 64) rest → Forall (λ g, 1 ≤ g < umax 64) (gaps first rest).
Proof.
  induction rest as [|u rest IH]; intros first H0 [Hs Hf]%StronglySorted_inv Hb; [constructor|].
  apply Forall_cons in Hf as [Hu _]. apply Forall_cons in Hb as [Hb Hbs]. unfold gaps. cbn [zip_with]. constructor; [lia|].
  apply (IH u); [lia|done|done].
Qed.
Lemma length_gaps first rest : length (gaps first rest) = length rest.
Proof. unfold gaps. rewrite length_zip_with. simpl. lia. Qed.

(** The costs of a block: the first offset, then the gaps. *)
Definition block_costs (offset : Z) (gs : list Z) : list CodecValueCosts :=
  costs_new offset true :: ((λ d, costs_new d false) <$> gs).
Lemma price_block f (g h : Z → Z) offset gs : f (costs_new offset true) = h offset → (∀ d, f (costs_new d false) = g d) →
  price f (block_costs offset gs) = h offset + total_of g gs.
Proof.
  intros H0 Hd. unfold price, block_costs, total_of. cbn [fmap list_fmap foldr]. rewrite H0. f_equal. rewrite <-list_fmap_compose.
  rewrite (list_fmap_ext _ g gs); [done|]. intros i d _. apply Hd.
Qed.

Lemma saturating_add_small a b : a + b ≤ umax 64 → saturating_add 64 a b = a + b.
Proof. unfold saturating_add. lia. Qed.

Lemma sorted_cons uids first rest : merge_sort Z.le uids = first :: rest →
  StronglySorted Z.le (first :: rest) ∧ first :: rest ≡ₚ uids.
Proof.
  intros E. rewrite <-E. split; [apply (StronglySorted_merge_sort Z.le uids)|apply merge_sort_Permutation].
Qed.
(** The measurement of sorted, distinct UIDs the smallest of which is below the anchor. *)
Lemma measure_shape uids anchor stats first rest : merge_sort Z.le uids = first :: rest → NoDup uids → first ≤ anchor →
  ∃ stats' bc, estimates bc (block_costs (anchor - first) (gaps first rest)) ∧
    let ef := wrap 128 (64 + elias_fano_bits (wrap 64 (List.last rest first - first + 1)) (len uids)) in
    measure_sorted_uid_stream uids anchor stats = Ok (stats',
      {| be_values := es_values bc; be_leb128_bytes := es_leb128_bytes bc; be_rice_best_k := rc_k (best_rice bc);
         be_rice_best_bits := rc_bits (best_rice bc); be_elias_delta_bits := es_elias_delta_bits bc; be_ef_bits_with_64bit_base := ef |}).
Proof.
  intros E Hnd Hle. destruct (sorted_cons _ _ _ E) as [Hs Hp]. unfold measure_sorted_uid_stream. rewrite E.
  rewrite <-Hp in Hnd. apply neighbours_distinct in Hnd as ->; [|done]. rewrite checked_sub_ok by done. rsimpl.
  assert (H1 : estimates (add_costs_no_hist estimate_default (costs_new (anchor - first) true)) [costs_new (anchor - first) true]).
  { apply (estimates_add _ []); [apply full_costs_new|apply estimates_default]. }
  edestruct (delta_loop rest first _ _ (su_deltas stats) (add_costs (su_combined stats) (anchor - first) (costs_new (anchor - first) true))
    [costs_new (anchor - first) true] [] H1 estimates_default) as (ds & cb & bc & bd & -> & Hbc & Hbd).
  eexists _, bc. split; [exact Hbc|]. cbv zeta. do 6 f_equal. by destruct rest.
Qed.

Lemma leb_len_bound v : in_width 64 v → 0 ≤ leb128_len_u64 v ≤ umax 64.
Proof.
  intros Hv. rewrite leb_len_bytes by done. assert (∀ n w, (length (leb_bytes n w) ≤ n)%nat) as Hb.
  { induction n as [|n IH]; intros w; [done|]. cbn [leb_bytes]. case_bool_decide; cbn [length]; [lia|]. specialize (IH (w / 128)). lia. }
  specialize (Hb 10%nat v). unfold umax. lia.
Qed.
Lemma elias_bits_bound v : 1 ≤ v < 2 ^ 64 → 0 ≤ elias_delta_bits v ≤ umax 64.
Proof.
  intros Hv. unfold elias_delta_bits. assert (Z.log2 v < 64) by (apply Z.log2_lt_pow2; lia). pose proof (Z.log2_nonneg v).
  rewrite n_bits_log2, n_bits_log2 by lia. assert (Z.log2 (Z.log2 v + 1) < 7) by (apply Z.log2_lt_pow2; lia).
  pose proof (Z.log2_nonneg (Z.log2 v + 1)). unfold umax. lia.
Qed.

(** The estimate of a block's costs. *)
Lemma block_estimate bc offset gs : estimates bc (block_costs offset gs) → 0 ≤ offset < umax 64 →
  Forall (λ g, 1 ≤ g < umax 64) gs → len gs + 1 < 2 ^ 32 →
  es_values bc = len gs + 1 ∧
  es_leb128_bytes bc = len (encode_leb128_values (offset :: gs)) ∧
  es_elias_delta_bits bc = len (delta_stream ((offset + 1) :: gs)) + (len gs + 1) ∧
  (rc_k (best_rice bc) < RICE_K_COUNT)%nat ∧
  rc_bits (best_rice bc) = total_of (λ v, rice_bits v (rc_k (best_rice bc))) (offset :: gs) ∧
  ∀ k, (k < RICE_K_COUNT)%nat → rc_bits (best_rice bc) ≤ total_of (λ v, rice_bits v k) (offset :: gs).
Proof.
  intros Hbc Ho Hg Hl. pose proof Hbc as [Hv Hleb Hel _].
  assert (Hlen : len (block_costs offset gs) = len gs + 1) by (unfold block_costs; cbn [length]; rewrite length_fmap; lia).
  assert (Hw : Forall (in_width 64) (offset :: gs)).
  { constructor; [unfold in_width, umax in *; lia|]. eapply Forall_impl; [exact Hg|]. unfold in_width, umax. cbn. lia. }
  assert (Hrice : ∀ k, (k < RICE_K_COUNT)%nat → price (rice_cost k) (block_costs offset gs) = total_of (λ v, rice_bits v k) (offset :: gs)).
  { intros k Hk. apply (price_block _ (λ v, rice_bits v k) (λ v, rice_bits v k)); [by apply rice_cost_new|intros; by apply rice_cost_new]. }
  assert (Hbig : ∀ f b, Forall (λ v, 0 ≤ f v ≤ b) (offset :: gs) → b ≤ umax 64 → 0 ≤ total_of f (offset :: gs) < umax 128).
  { intros f b Hf Hb. pose proof (total_of_bound f _ b Hf) as Ht. cbn [length] in Ht. unfold umax in *. nia. }
  assert (Hr : ∀ k, 0 ≤ total_of (λ v, rice_bits v k) (offset :: gs) < umax 128).
  { intros k. apply (Hbig _ (umax 64)); [|lia]. eapply Forall_impl; [exact Hw|]. intros v [Hv0 _]. by apply rice_bits_bound. }
  assert (Hsmall : ∀ t, 0 ≤ t < umax 128 → wrap 128 t = t) by (intros; apply wrap_small; unfold in_width, umax in *; lia).
  split; [|split; [|split]].
  - rewrite Hv, Hlen. apply wrap_small. unfold in_width. lia.
  - rewrite Hleb, (price_block _ leb128_len_u64 leb128_len_u64), (leb_values_length _ Hw) by done. apply Hsmall.
    apply (Hbig leb128_len_u64 (umax 64)); [|lia]. eapply Forall_impl; [exact Hw|]. apply leb_len_bound.
  - assert (Hp : Forall (λ v, 1 ≤ v < 2 ^ 64) ((offset + 1) :: gs)).
    { constructor; [unfold umax in *; lia|]. eapply Forall_impl; [exact Hg|]. unfold umax. cbn. lia. }
    rewrite Hel, (price_block _ elias_delta_bits (λ v, elias_delta_bits (v + 1))).
    + change (wrap 128 (total_of elias_delta_bits ((offset + 1) :: gs)) = len (delta_stream ((offset + 1) :: gs)) + (len gs + 1)).
      rewrite Hsmall.
      * unfold total_of. rewrite <-(elias_values_length ((offset + 1) :: gs)); [cbn [length]; lia|]. eapply Forall_impl; [exact Hp|]. cbn. lia.
      * pose proof (total_of_bound elias_delta_bits ((offset + 1) :: gs) (umax 64)) as Ht. cbn [length] in Ht.
        specialize (Ht ltac:(eapply Forall_impl; [exact Hp|]; apply elias_bits_bound)). unfold umax in *. nia.
    + unfold costs_new. cbn [cc_elias_delta_bits]. by rewrite saturating_add_small by lia.
    + done.
  - destruct (best_rice_spec bc _ Hbc) as (Hk & He & Hmin).
    + done.
    + rewrite Hlen. lia.
    + intros k Hk. rewrite Hrice by done. apply Hr.
    + split; [done|]. rewrite He. rewrite Hrice by done. split; [done|]. intros k' Hk'. rewrite <-Hrice, <-(Hrice k') by done.
      rewrite <-He. by apply Hmin.
Qed.
(** The prices are those of the light server's codecs.  The LEB128 price of some
    [u64]s is the number of bytes [encode_leb128_values] writes; the Elias-delta price is
    one bit per value more than the bits [encode_elias_delta_values] packs. *)
Theorem prices_match_codecs (vs : list Z) (Hvs : Forall (λ v, 1 ≤ v < 2 ^ 64) vs) :
  total_of leb128_len_u64 vs = len (encode_leb128_values vs) ∧
  encode_elias_delta_values vs = Ok (pack (delta_stream vs)) ∧
  total_of elias_delta_bits vs = len (delta_stream vs) + len vs.
Proof.
  assert (H1 : Forall (λ v, 1 ≤ v) vs) by (eapply Forall_impl; [exact Hvs|]; cbn; lia). split; [|split].
  - symmetry. apply leb_values_length. eapply Forall_impl; [exact Hvs|]. unfold in_width. cbn. lia.
  - by apply encode_elias_delta_spec.
  - symmetry. by apply elias_values_length.
Qed.

(** C37: the measurement of a block's spent UIDs.  For distinct UIDs up to the anchor, the
    estimate prices the distance of the anchor to the least UID followed by the gaps of
    the sorted UIDs: their number, the bytes of their LEB128 encoding, the bits of their
    Elias-delta encoding (the distance plus one; one bit per value too many), and the
    least total of the 33 Rice codes, with the parameter that attains it. *)
Theorem measure_stream_spec (uids : list Z) (anchor : Z) (stats : SortedUidCodecStats) (Hne : uids ≠ []) (Hnd : NoDup uids)
  (Hu : Forall (λ u, 0 ≤ u ≤ anchor) uids) (Ha : anchor < umax 64) (Hl : len uids < 2 ^ 32) :
  ∃ first rest stats' est, measure_sorted_uid_stream uids anchor stats = Ok (stats', est) ∧
    first :: rest ≡ₚ uids ∧ StronglySorted Z.lt (first :: rest) ∧
    let offset := anchor - first in let gs := gaps first rest in
    be_values est = len uids ∧
    be_leb128_bytes est = len (encode_leb128_values (offset :: gs)) ∧
    be_elias_delta_bits est = len (delta_stream ((offset + 1) :: gs)) + len uids ∧
    (be_rice_best_k est < RICE_K_COUNT)%nat ∧
    be_rice_best_bits est = total_of (λ v, rice_bits v (be_rice_best_k est)) (offset :: gs) ∧
    ∀ k, (k < RICE_K_COUNT)%nat → be_rice_best_bits est ≤ total_of (λ v, rice_bits v k) (offset :: gs).
Proof.
  destruct (merge_sort Z.le uids) as [|first rest] eqn:E.
  { pose proof (merge_sort_Permutation Z.le uids) as Hp. rewrite E in Hp. by apply Permutation_nil_l in Hp. }
  destruct (sorted_cons _ _ _ E) as [Hs Hp]. assert (Hb : Forall (λ u, 0 ≤ u ≤ anchor) (first :: rest)) by by rewrite Hp.
  apply Forall_cons in Hb as [Hf Hr]. pose proof (Permutation_length Hp) as Hlen. cbn [length] in Hlen.
  destruct (measure_shape uids anchor stats first rest E Hnd ltac:(lia)) as (stats' & bc & Hbc & Hm).
  assert (Hss : StronglySorted Z.lt (first :: rest)) by (apply sorted_strict; [done|by rewrite Hp]).
  exists first, rest. eexists stats', _. split; [exact Hm|]. split; [done|]. split; [done|].
  destruct (block_estimate bc (anchor - first) (gaps first rest) Hbc) as (Hv & Hrest); [lia| | |].
  - apply gaps_positive; [lia|done|]. eapply Forall_impl; [exact Hr|]. cbn. lia.
  - rewrite length_gaps. lia.
  - rewrite length_gaps in *. replace (len rest + 1) with (len uids) in * by lia. by split.
Qed.

(** When the measurement panics.  It returns exactly on no UID at all, or on distinct
    UIDs the least of which does not exceed the anchor; the others are not compared with
    the anchor. *)
Theorem measure_returns_iff (uids : list Z) (anchor : Z) (stats : SortedUidCodecStats) :
  is_ok (measure_sorted_uid_stream uids anchor stats) = true ↔ uids = [] ∨ NoDup uids ∧ ∃ u, u ∈ uids ∧ u ≤ anchor.
Proof.
  destruct (merge_sort Z.le uids) as [|first rest] eqn:E.
  { pose proof (merge_sort_Permutation Z.le uids) as Hp. rewrite E in Hp. apply Permutation_nil_l in Hp.
    split; [by left|]. intros _. unfold measure_sorted_uid_stream. by rewrite E. }
  destruct (sorted_cons _ _ _ E) as [Hs Hp].
  assert (Hne : uids ≠ []) by (intros ->; by apply Permutation_nil_r in Hp).
  assert (Hmin : (∃ u, u ∈ uids ∧ u ≤ anchor) ↔ first ≤ anchor).
  { apply StronglySorted_inv in Hs as [_ Hf]. rewrite Forall_forall in Hf. split.
    - intros (u & Hu & Hle). rewrite <-Hp in Hu. apply elem_of_cons in Hu as [->|Hu]; [done|]. specialize (Hf u Hu). lia.
    - intros Hle. exists first. split; [rewrite <-Hp; left|done]. }
  rewrite Hmin. split.
  - intros Hok. right. unfold measure_sorted_uid_stream in Hok. rewrite E in Hok.
    destruct (existsb _ _) eqn:Hd; [done|]. apply neighbours_distinct in Hd; [|done]. split; [by rewrite <-Hp|].
    unfold checked_sub in Hok. by case_bool_decide.
  - intros [?|[Hnd Hle]]; [done|].
    destruct (measure_shape uids anchor stats first rest E Hnd Hle) as (stats' & bc & _ & Hm). by rewrite Hm.
Qed.

Lemma prices_match_codecs_witness :
  total_of leb128_len_u64 [1; 300; 2 ^ 63] = len (encode_leb128_values [1; 300; 2 ^ 63]) ∧
  encode_elias_delta_values [1; 300; 2 ^ 63] = Ok (pack (delta_stream [1; 300; 2 ^ 63])) ∧
  total_of elias_delta_bits [1; 300; 2 ^ 63] = len (delta_stream [1; 300; 2 ^ 63]) + 3.
Proof. apply (prices_match_codecs [1; 300; 2 ^ 63]). repeat constructor; lia. Defined.
Lemma measure_stream_spec_witness : ∃ first rest stats' est,
  measure_sorted_uid_stream [90; 7; 12] 100 sorted_stats_default = Ok (stats', est) ∧
    first :: rest ≡ₚ [90; 7; 12] ∧ StronglySorted Z.lt (first :: rest) ∧
    let offset := 100 - first in let gs := gaps first rest in
    be_values est = 3 ∧
    be_leb128_bytes est = len (encode_leb128_values (offset :: gs)) ∧
    be_elias_delta_bits est = len (delta_stream ((offset + 1) :: gs)) + 3 ∧
    (be_rice_best_k est < RICE_K_COUNT)%nat ∧
    be_rice_best_bits est = total_of (λ v, rice_bits v (be_rice_best_k est)) (offset :: gs) ∧
    ∀ k, (k < RICE_K_COUNT)%nat → be_rice_best_bits est ≤ total_of (λ v, rice_bits v k) (offset :: gs).
Proof.
  refine (measure_stream_spec [90; 7; 12] 100 sorted_stats_default _ _ _ _ _);
    [done|repeat constructor; rewrite ?elem_of_cons, ?elem_of_nil; lia|repeat constructor; lia|unfold umax; lia|cbn; lia].
Defined.
