(* ===== verification/BlockStats.v ===== *)
(** * Counters of a run and of a block

    Model of the accumulators of [stats/src/block.rs]: the totals of a run ([Stats]), the
    counters of one block ([PerBlock]) and the row of a block ([BlockStats]).  Counters
    are [u64] and wrap.  Updates of a field use the record setters of coqutil. *)

From S2P Require Import Prelude TaprootSpend ScriptType Histogram CodecCost.
From coqutil Require Import Datatypes.RecordSetters.
Export DoubleBraceUpdate.

Inductive SpendContext := SameTx | SameBlock | Earlier.

(** [x += 1]. *)
Definition inc (x : Z) : Z := wrap 64 (x + 1).

(** ** The totals of a run *)
Record Stats := {
  st_spends : Z; st_outputs : Z; st_p2tr_outputs : Z; st_p2tr_reused : Z; st_p2tr_spends : Z;
  st_p2tr_keypath_spends : Z; st_p2tr_scriptpath_spends : Z; st_p2tr_nums_spends : Z;
  st_p2tr_sp_eligible_spends : Z; st_p2tr_inscription_spends : Z; st_p2tr_nums_and_inscription_spends : Z;
  st_same_tx_spends : Z; st_p2tr_same_tx_spends : Z; st_same_block_spends : Z; st_p2tr_same_block_spends : Z;
  st_nonsp_txs : Z; st_nonsp_tx_outputs : Z; st_script_outputs : TypeCounts; st_script_inputs : TypeCounts;
  st_sorted_spent_ids : SortedUidCodecStats; st_sorted_p2tr_spent_ids : SortedUidCodecStats
}.
Definition stats_new : Stats := {|
  st_spends := 0; st_outputs := 0; st_p2tr_outputs := 0; st_p2tr_reused := 0; st_p2tr_spends := 0;
  st_p2tr_keypath_spends := 0; st_p2tr_scriptpath_spends := 0; st_p2tr_nums_spends := 0;
  st_p2tr_sp_eligible_spends := 0; st_p2tr_inscription_spends := 0; st_p2tr_nums_and_inscription_spends := 0;
  st_same_tx_spends := 0; st_p2tr_same_tx_spends := 0; st_same_block_spends := 0;
  st_p2tr_same_block_spends := 0; st_nonsp_txs := 0; st_nonsp_tx_outputs := 0;
  st_script_outputs := counts_default; st_script_inputs := counts_default;
  st_sorted_spent_ids := sorted_stats_default; st_sorted_p2tr_spent_ids := sorted_stats_default
|}.

Definition record_spend (ctx : SpendContext) (self : Stats) : Stats :=
  let self := self {{ st_spends ::= inc }} in
  match ctx with
  | SameTx => self {{ st_same_tx_spends ::= inc }}
  | SameBlock => self {{ st_same_block_spends ::= inc }}
  | Earlier => self
  end.

Definition record_p2tr_spend (class : SpendClass) (ctx : SpendContext) (self : Stats) : Stats :=
  let self := self {{ st_p2tr_spends ::= inc }} in
  let self := match ctx with
              | SameTx => self {{ st_p2tr_same_tx_spends ::= inc }}
              | SameBlock => self {{ st_p2tr_same_block_spends ::= inc }}
              | Earlier => self
              end in
  let self := match path class with
              | Key => self {{ st_p2tr_keypath_spends ::= inc; st_p2tr_sp_eligible_spends ::= inc }}
              | ScriptNonNums => self {{ st_p2tr_scriptpath_spends ::= inc; st_p2tr_sp_eligible_spends ::= inc }}
              | ScriptNums => self {{ st_p2tr_scriptpath_spends ::= inc; st_p2tr_nums_spends ::= inc }}
              end in
  if inscription class then
    let self := self {{ st_p2tr_inscription_spends ::= inc }} in
    if bool_decide (path class = ScriptNums) then self {{ st_p2tr_nums_and_inscription_spends ::= inc }} else self
  else self.

Definition record_output_script (t : ScriptType) (self : Stats) : Stats := self {{ st_script_outputs := record (st_script_outputs self) t }}.
Definition record_input_script (t : ScriptType) (self : Stats) : Stats := self {{ st_script_inputs := record (st_script_inputs self) t }}.

(** ** The row of a block *)
Record BlockLocalStats := { lo_output_count : Z; lo_p2tr_output_count : Z; lo_script_outputs : TypeCounts }.
Definition local_default : BlockLocalStats := {| lo_output_count := 0; lo_p2tr_output_count := 0; lo_script_outputs := counts_default |}.
Record ChainDerivedStats := {
  ch_last_global_id : Z; ch_p2tr_reused_count : Z; ch_spends : Z; ch_p2tr_spends : Z;
  ch_p2tr_keypath_spends : Z; ch_p2tr_scriptpath_spends : Z; ch_p2tr_nums_spends : Z;
  ch_p2tr_sp_eligible_spends : Z; ch_p2tr_inscription_spends : Z; ch_p2tr_nums_and_inscription_spends : Z;
  ch_nonsp_txs : Z; ch_nonsp_tx_outputs : Z; ch_script_inputs : TypeCounts; ch_utxo_hash : bytes;
  ch_utxo_hash_window : Z
}.
Definition chain_default : ChainDerivedStats := {|
  ch_last_global_id := 0; ch_p2tr_reused_count := 0; ch_spends := 0; ch_p2tr_spends := 0;
  ch_p2tr_keypath_spends := 0; ch_p2tr_scriptpath_spends := 0; ch_p2tr_nums_spends := 0;
  ch_p2tr_sp_eligible_spends := 0; ch_p2tr_inscription_spends := 0; ch_p2tr_nums_and_inscription_spends := 0;
  ch_nonsp_txs := 0; ch_nonsp_tx_outputs := 0; ch_script_inputs := counts_default; ch_utxo_hash := [];
  ch_utxo_hash_window := 0
|}.
Record BlockStats := {
  row_height : Z; row_block_hash : bytes; row_stats_version : Z; row_local : BlockLocalStats;
  row_chain : ChainDerivedStats; row_last_global_id : Z; row_output_count : Z; row_p2tr_output_count : Z;
  row_p2tr_reused_count : Z; row_spends : Z; row_p2tr_spends : Z; row_p2tr_keypath_spends : Z;
  row_p2tr_scriptpath_spends : Z; row_p2tr_nums_spends : Z; row_p2tr_sp_eligible_spends : Z;
  row_p2tr_inscription_spends : Z; row_p2tr_nums_and_inscription_spends : Z; row_nonsp_txs : Z;
  row_nonsp_tx_outputs : Z; row_script_outputs : TypeCounts; row_script_inputs : TypeCounts;
  row_sorted_spent_values : Z; row_sorted_spent_leb128_bytes : Z; row_sorted_spent_rice_best_k : nat;
  row_sorted_spent_rice_best_bits : Z; row_sorted_spent_elias_delta_bits : Z; row_sorted_spent_ef_bits : Z;
  row_sorted_p2tr_spent_values : Z; row_sorted_p2tr_spent_leb128_bytes : Z;
  row_sorted_p2tr_spent_rice_best_k : nat; row_sorted_p2tr_spent_rice_best_bits : Z;
  row_sorted_p2tr_spent_elias_delta_bits : Z; row_sorted_p2tr_spent_ef_bits : Z; row_utxo_hash : bytes;
  row_utxo_hash_window : Z
}.
Definition STATS_STATE_VERSION : Z := 6.
Definition row_default : BlockStats := {|
  row_height := 0; row_block_hash := []; row_stats_version := 0; row_local := local_default;
  row_chain := chain_default; row_last_global_id := 0; row_output_count := 0; row_p2tr_output_count := 0;
  row_p2tr_reused_count := 0; row_spends := 0; row_p2tr_spends := 0; row_p2tr_keypath_spends := 0;
  row_p2tr_scriptpath_spends := 0; row_p2tr_nums_spends := 0; row_p2tr_sp_eligible_spends := 0;
  row_p2tr_inscription_spends := 0; row_p2tr_nums_and_inscription_spends := 0; row_nonsp_txs := 0;
  row_nonsp_tx_outputs := 0; row_script_outputs := counts_default; row_script_inputs := counts_default;
  row_sorted_spent_values := 0; row_sorted_spent_leb128_bytes := 0; row_sorted_spent_rice_best_k := 0%nat;
  row_sorted_spent_rice_best_bits := 0; row_sorted_spent_elias_delta_bits := 0; row_sorted_spent_ef_bits := 0;
  row_sorted_p2tr_spent_values := 0; row_sorted_p2tr_spent_leb128_bytes := 0;
  row_sorted_p2tr_spent_rice_best_k := 0%nat; row_sorted_p2tr_spent_rice_best_bits := 0;
  row_sorted_p2tr_spent_elias_delta_bits := 0; row_sorted_p2tr_spent_ef_bits := 0; row_utxo_hash := [];
  row_utxo_hash_window := 0
|}.
Definition row_new (height : Z) : BlockStats := row_default {{ row_height := height; row_stats_version := STATS_STATE_VERSION }}.

Definition refresh_classes (self : BlockStats) : BlockStats := self {{
  row_local := {| lo_output_count := row_output_count self; lo_p2tr_output_count := row_p2tr_output_count self;
                  lo_script_outputs := row_script_outputs self |};
  row_chain := {|
    ch_last_global_id := row_last_global_id self; ch_p2tr_reused_count := row_p2tr_reused_count self;
    ch_spends := row_spends self; ch_p2tr_spends := row_p2tr_spends self;
    ch_p2tr_keypath_spends := row_p2tr_keypath_spends self;
    ch_p2tr_scriptpath_spends := row_p2tr_scriptpath_spends self;
    ch_p2tr_nums_spends := row_p2tr_nums_spends self;
    ch_p2tr_sp_eligible_spends := row_p2tr_sp_eligible_spends self;
    ch_p2tr_inscription_spends := row_p2tr_inscription_spends self;
    ch_p2tr_nums_and_inscription_spends := row_p2tr_nums_and_inscription_spends self;
    ch_nonsp_txs := row_nonsp_txs self; ch_nonsp_tx_outputs := row_nonsp_tx_outputs self;
    ch_script_inputs := row_script_inputs self; ch_utxo_hash := row_utxo_hash self;
    ch_utxo_hash_window := row_utxo_hash_window self
  |} }}.

(** ** The counters of a block *)
Record PerBlock := {
  pb_spends : Z; pb_output_count : Z; pb_p2tr_output_count : Z; pb_p2tr_reused_count : Z; pb_p2tr_spends : Z;
  pb_p2tr_keypath_spends : Z; pb_p2tr_scriptpath_spends : Z; pb_p2tr_nums_spends : Z;
  pb_p2tr_sp_eligible_spends : Z; pb_p2tr_inscription_spends : Z; pb_p2tr_nums_and_inscription_spends : Z;
  pb_nonsp_txs : Z; pb_nonsp_tx_outputs : Z; pb_script_outputs : TypeCounts; pb_script_inputs : TypeCounts;
  pb_spent_uids : list Z; pb_p2tr_spent_uids : list Z
}.
Definition per_block_default : PerBlock := {|
  pb_spends := 0; pb_output_count := 0; pb_p2tr_output_count := 0; pb_p2tr_reused_count := 0;
  pb_p2tr_spends := 0; pb_p2tr_keypath_spends := 0; pb_p2tr_scriptpath_spends := 0; pb_p2tr_nums_spends := 0;
  pb_p2tr_sp_eligible_spends := 0; pb_p2tr_inscription_spends := 0; pb_p2tr_nums_and_inscription_spends := 0;
  pb_nonsp_txs := 0; pb_nonsp_tx_outputs := 0; pb_script_outputs := counts_default;
  pb_script_inputs := counts_default; pb_spent_uids := []; pb_p2tr_spent_uids := []
|}.

Definition pb_record_spend_uid (uid : Z) (is_p2tr : bool) (self : PerBlock) : PerBlock :=
  let self := self {{ pb_spends ::= inc; pb_spent_uids ::= λ l, l ++ [uid] }} in
  if is_p2tr then self {{ pb_p2tr_spent_uids ::= λ l, l ++ [uid] }} else self.

Definition set_spent_estimate (e : SortedUidBlockEstimate) (row : BlockStats) : BlockStats := row {{
  row_sorted_spent_values := be_values e; row_sorted_spent_leb128_bytes := be_leb128_bytes e;
  row_sorted_spent_rice_best_k := be_rice_best_k e; row_sorted_spent_rice_best_bits := be_rice_best_bits e;
  row_sorted_spent_elias_delta_bits := be_elias_delta_bits e;
  row_sorted_spent_ef_bits := be_ef_bits_with_64bit_base e }}.
Definition set_p2tr_estimate (e : SortedUidBlockEstimate) (row : BlockStats) : BlockStats := row {{
  row_sorted_p2tr_spent_values := be_values e; row_sorted_p2tr_spent_leb128_bytes := be_leb128_bytes e;
  row_sorted_p2tr_spent_rice_best_k := be_rice_best_k e;
  row_sorted_p2tr_spent_rice_best_bits := be_rice_best_bits e;
  row_sorted_p2tr_spent_elias_delta_bits := be_elias_delta_bits e;
  row_sorted_p2tr_spent_ef_bits := be_ef_bits_with_64bit_base e }}.
(** The measurement also sorts the two vectors in place. *)
Definition measure_sorted_uid_encoding (block_anchor_last_uid : Z) (self : PerBlock) (run_stats : Stats) (row : BlockStats)
    : res (PerBlock * Stats * BlockStats) :=
  '(ids, all) ← measure_sorted_uid_stream (pb_spent_uids self) block_anchor_last_uid (st_sorted_spent_ids run_stats);
  let run_stats := run_stats {{ st_sorted_spent_ids := ids }} in
  let row := set_spent_estimate all row in
  '(ids, p2tr) ← measure_sorted_uid_stream (pb_p2tr_spent_uids self) block_anchor_last_uid (st_sorted_p2tr_spent_ids run_stats);
  let run_stats := run_stats {{ st_sorted_p2tr_spent_ids := ids }} in
  let row := set_p2tr_estimate p2tr row in
  Ok (self {{ pb_spent_uids ::= merge_sort Z.le; pb_p2tr_spent_uids ::= merge_sort Z.le }}, run_stats, row).

Definition pb_record_p2tr_spend (class : SpendClass) (self : PerBlock) : PerBlock :=
  let self := self {{ pb_p2tr_spends ::= inc }} in
  let self := match path class with
              | Key => self {{ pb_p2tr_keypath_spends ::= inc; pb_p2tr_sp_eligible_spends ::= inc }}
              | ScriptNonNums => self {{ pb_p2tr_scriptpath_spends ::= inc; pb_p2tr_sp_eligible_spends ::= inc }}
              | ScriptNums => self {{ pb_p2tr_scriptpath_spends ::= inc; pb_p2tr_nums_spends ::= inc }}
              end in
  if inscription class then
    let self := self {{ pb_p2tr_inscription_spends ::= inc }} in
    if bool_decide (path class = ScriptNums) then self {{ pb_p2tr_nums_and_inscription_spends ::= inc }} else self
  else self.

Definition pb_record_output (is_p2tr reused : bool) (self : PerBlock) : PerBlock :=
  let self := self {{ pb_output_count ::= inc }} in
  if is_p2tr then
    let self := self {{ pb_p2tr_output_count ::= inc }} in
    if reused then self {{ pb_p2tr_reused_count ::= inc }} else self
  else self.
Definition pb_record_output_script (t : ScriptType) (self : PerBlock) : PerBlock := self {{ pb_script_outputs := record (pb_script_outputs self) t }}.
Definition pb_record_input_script (t : ScriptType) (self : PerBlock) : PerBlock := self {{ pb_script_inputs := record (pb_script_inputs self) t }}.

Definition drain_into (self : PerBlock) (row : BlockStats) : PerBlock * BlockStats :=
  let row := row {{
      row_spends := pb_spends self; row_output_count := pb_output_count self;
      row_p2tr_output_count := pb_p2tr_output_count self; row_p2tr_reused_count := pb_p2tr_reused_count self;
      row_p2tr_spends := pb_p2tr_spends self; row_p2tr_keypath_spends := pb_p2tr_keypath_spends self;
      row_p2tr_scriptpath_spends := pb_p2tr_scriptpath_spends self;
      row_p2tr_nums_spends := pb_p2tr_nums_spends self;
      row_p2tr_sp_eligible_spends := pb_p2tr_sp_eligible_spends self;
      row_p2tr_inscription_spends := pb_p2tr_inscription_spends self;
      row_p2tr_nums_and_inscription_spends := pb_p2tr_nums_and_inscription_spends self;
      row_nonsp_txs := pb_nonsp_txs self; row_nonsp_tx_outputs := pb_nonsp_tx_outputs self;
      row_script_outputs := pb_script_outputs self; row_script_inputs := pb_script_inputs self }} in
  let self := self {{
      pb_script_outputs := counts_default; pb_script_inputs := counts_default; pb_spent_uids := [];
      pb_p2tr_spent_uids := []; pb_spends := 0; pb_output_count := 0; pb_p2tr_output_count := 0;
      pb_p2tr_reused_count := 0; pb_p2tr_spends := 0; pb_p2tr_keypath_spends := 0;
      pb_p2tr_scriptpath_spends := 0; pb_p2tr_nums_spends := 0; pb_p2tr_sp_eligible_spends := 0;
      pb_p2tr_inscription_spends := 0; pb_p2tr_nums_and_inscription_spends := 0; pb_nonsp_txs := 0;
      pb_nonsp_tx_outputs := 0 }} in
  (self, row).
