(* ===== verification/ScanBlock.v ===== *)
(** * The statistics of one block

    Model of the stateless preparation of a block and of the serial commit of a block in
    [stats/src/scan.rs].  rust-bitcoin is the parameter [RustBitcoin], SHA-256 [Sha256],
    the script templates [ScriptTemplates].  The body of the loop over the frames is cut
    at its nested loops: inputs, outputs, transactions, the row.  Timing is not
    modelled; [last_id] and the counters are [u64] and wrap. *)

From S2P Require Import Prelude Helper TaggedHash ScriptClassify UndoPayload P2trIndexer JsonWire Sources Tasks LightIndexer TaprootSpend ScriptType Histogram CodecCost UtxoHash BlockStats.
From coqutil Require Import Datatypes.RecordSetters.

(** ** Prepared blocks *)
Record PreparedInput := { pi_previous_output : OutPointKey; pi_p2tr_spend_class : SpendClass }.
Record PreparedTx := {
  pt_txid : bytes; pt_is_coinbase : bool; pt_inputs : list PreparedInput;
  pt_output_script_types : list ScriptType; pt_output_xonly_keys : list (option bytes)
}.
Record PreparedBlockFrame := { pf_height : Z; pf_hash : bytes; pf_txs : list PreparedTx }.

Definition extract_xonly_script (script : bytes) : option bytes :=
  if bool_decide (length script = 34%nat) && bool_decide (script !! 0%nat = Some 81) && bool_decide (script !! 1%nat = Some 32)
  then Some (take 32 (drop 2 script)) else None.

Section prepare.
Context `{RB : !RustBitcoin, ST : !ScriptTemplates}.

(** [btc_data_core]'s decoder is rust-bitcoin's. *)
Definition stats_decode : ConsensusDecode := {| Block := BtcBlock; consensus_decode := deserialize |}.
#[local] Existing Instance stats_decode.

Definition prepare_input (vin : TxIn) : res PreparedInput :=
  p2tr_spend_class ← classify_p2tr_spend (in_witness vin);
  Ok {| pi_previous_output := {| op_txid := in_txid vin; op_vout := in_vout vin |}; pi_p2tr_spend_class := p2tr_spend_class |}.
Definition prepare_output (out : TxOut) : ScriptType * option bytes :=
  let script_type := classify_script_type (out_script_pubkey out) in
  (script_type, if bool_decide (script_type = P2tr) then extract_xonly_script (out_script_pubkey out) else None).
Definition prepare_tx (tx : Transaction) : res PreparedTx :=
  let txid := compute_txid tx in
  let is_coinbase := rb_is_coinbase tx in
  inputs ← (if is_coinbase then Ok [] else map_res prepare_input (rb_input tx));
  let outputs := prepare_output <$> rb_output tx in
  Ok {| pt_txid := txid; pt_is_coinbase := is_coinbase; pt_inputs := inputs;
        pt_output_script_types := fst <$> outputs; pt_output_xonly_keys := snd <$> outputs |}.
Definition prepare_decoded_block (frame : DecodedBlockFrame) : res PreparedBlockFrame :=
  txs ← map_res prepare_tx (rb_txdata (df_block frame));
  Ok {| pf_height := df_height frame; pf_hash := df_hash frame; pf_txs := txs |}.
Definition prepare_raw_block (frame : RawBlockFrame) : res PreparedBlockFrame :=
  decode_raw_block frame ≫= prepare_decoded_block.
End prepare.

(** ** The state of the scanner *)

(** The upper 60 bits are the output id, the lower 4 the script type. *)
Record UtxoEntry := { packed : Z }.
Definition SCRIPT_TYPE_BITS : Z := 4.
Definition SCRIPT_TYPE_MASK : Z := Z.shiftl 1 SCRIPT_TYPE_BITS - 1.
Definition MAX_ID : Z := Z.shiftr (umax 64) SCRIPT_TYPE_BITS.
Definition entry_new (id : Z) (script_type : ScriptType) : UtxoEntry :=
  {| packed := Z.lor (wrap 64 (Z.shiftl id SCRIPT_TYPE_BITS)) (to_u8 script_type) |}.
Definition entry_id (self : UtxoEntry) : Z := Z.shiftr (packed self) SCRIPT_TYPE_BITS.
Definition entry_script_type (self : UtxoEntry) : ScriptType := from_u8 (Z.land (packed self) SCRIPT_TYPE_MASK).

Record StatsScannerState := {
  last_id : Z; utxo : gmap OutPointKey UtxoEntry; seen_keys : gset bytes; stats : Stats;
  utxo_hash : RollingUtxoHash; missing : Z
}.
Definition scanner_new (utxo_hash_window : Z) : StatsScannerState := {|
  last_id := 0; utxo := ∅; seen_keys := ∅; stats := stats_new; utxo_hash := uh_new utxo_hash_window; missing := 0 |}.

(** ** The commit of a block *)
Record TxFlags := { any_sp_eligible_input : bool; has_non_p2tr_input : bool; p2tr_input_seen : bool }.
Definition flags_new : TxFlags := {| any_sp_eligible_input := false; has_non_p2tr_input := false; p2tr_input_seen := false |}.

Section commit.
Context `{SH : !Sha256, HX : !Hex}.

(** The display order of a hash ([checkpoint.rs]). *)
Definition block_hash_hex (hash : bytes) : bytes := hex_encode (reverse hash).

Definition spend_context (prev_id last_id_at_tx_start last_id_at_block_start : Z) : SpendContext :=
  if bool_decide (last_id_at_tx_start < prev_id) then SameTx
  else if bool_decide (last_id_at_block_start < prev_id) then SameBlock
  else Earlier.

Definition commit_input (last_id_at_tx_start last_id_at_block_start : Z) (acc : StatsScannerState * PerBlock * TxFlags)
    (input : PreparedInput) : StatsScannerState * PerBlock * TxFlags :=
  let '(state, per_block, flags) := acc in
  match utxo state !! pi_previous_output input with
  | Some entry =>
      let state := state {{ utxo ::= delete (pi_previous_output input) }} in
      let prev_id := entry_id entry in
      let prev_script_type := entry_script_type entry in
      let ctx := spend_context prev_id last_id_at_tx_start last_id_at_block_start in
      let is_p2tr_spend := bool_decide (prev_script_type = P2tr) in
      let state := state {{ stats ::= record_spend ctx }} in
      let per_block := pb_record_spend_uid prev_id is_p2tr_spend per_block in
      let state := state {{ stats ::= record_input_script prev_script_type }} in
      let per_block := pb_record_input_script prev_script_type per_block in
      let '(state, per_block, flags) :=
        if is_p2tr_spend then
          let class := pi_p2tr_spend_class input in
          (state {{ stats ::= record_p2tr_spend class ctx }}, pb_record_p2tr_spend class per_block,
           {| any_sp_eligible_input := negb (bool_decide (path class = ScriptNums)) || any_sp_eligible_input flags;
              has_non_p2tr_input := has_non_p2tr_input flags; p2tr_input_seen := true |})
        else (state, per_block, flags {{ has_non_p2tr_input := true }}) in
      (state {{ utxo_hash ::= λ h, remove_output h prev_id }}, per_block, flags)
  | None => (state {{ missing ::= inc }}, per_block, flags {{ has_non_p2tr_input := true }})
  end.

Definition commit_output (txid : bytes) (tx_is_nonsp : bool) (acc : StatsScannerState * PerBlock)
    (output : nat * (ScriptType * option bytes)) : StatsScannerState * PerBlock :=
  let '(state, per_block) := acc in
  let '(vout_idx, (script_type, xonly_key)) := output in
  let state := state {{ last_id ::= inc }} in
  let is_p2tr := bool_decide (script_type = P2tr) in
  let '(state, reused) := match xonly_key with
                          | Some k => (state {{ seen_keys ::= union {[k]} }}, bool_decide (k ∈ seen_keys state))
                          | None => (state, false)
                          end in
  let state := state {{ stats ::= λ s, record_output_script script_type (s {{ st_outputs ::= inc }}) }} in
  let per_block := pb_record_output_script script_type per_block in
  let state := if is_p2tr then
                 let state := state {{ stats ::= λ s, s {{ st_p2tr_outputs ::= inc }} }} in
                 if reused then state {{ stats ::= λ s, s {{ st_p2tr_reused ::= inc }} }} else state
               else state in
  let per_block := pb_record_output is_p2tr reused per_block in
  let '(state, per_block) :=
    if tx_is_nonsp then (state {{ stats ::= λ s, s {{ st_nonsp_tx_outputs ::= inc }} }}, per_block {{ pb_nonsp_tx_outputs ::= inc }})
    else (state, per_block) in
  let op := {| op_txid := txid; op_vout := wrap 32 (Z.of_nat vout_idx) |} in
  let state := state {{ utxo ::= insert op (entry_new (last_id state) script_type) }} in
  (state {{ utxo_hash ::= λ h, add_output h (last_id state) }}, per_block).

Definition commit_tx (last_id_at_block_start : Z) (acc : StatsScannerState * PerBlock) (tx : PreparedTx) : StatsScannerState * PerBlock :=
  let '(state, per_block) := acc in
  let last_id_at_tx_start := last_id state in
  let '(state, per_block, flags) :=
    if pt_is_coinbase tx then (state, per_block, flags_new)
    else foldl (commit_input last_id_at_tx_start last_id_at_block_start) (state, per_block, flags_new) (pt_inputs tx) in
  let tx_is_nonsp := negb (pt_is_coinbase tx) && p2tr_input_seen flags && negb (any_sp_eligible_input flags) && negb (has_non_p2tr_input flags) in
  let '(state, per_block) :=
    if tx_is_nonsp then (state {{ stats ::= λ s, s {{ st_nonsp_txs ::= inc }} }}, per_block {{ pb_nonsp_txs ::= inc }})
    else (state, per_block) in
  foldl (commit_output (pt_txid tx) tx_is_nonsp) (state, per_block)
    (imap pair (zip (pt_output_script_types tx) (pt_output_xonly_keys tx))).

(** The row, from the counters of the block. *)
Definition build_row (utxo_hash_window : Z) (h : Z) (hash : bytes) (last_id_at_block_start : Z)
    (state : StatsScannerState) (per_block : PerBlock) : res (StatsScannerState * BlockStats) :=
  let '(uh, utxo_hash_hex) := finalize_block (utxo_hash state) in
  let state := state {{ utxo_hash := uh }} in
  let row := (row_new h) {{ row_block_hash := block_hash_hex hash; row_last_global_id := last_id state;
                          row_utxo_hash := utxo_hash_hex; row_utxo_hash_window := utxo_hash_window }} in
  '(per_block, run_stats, row) ← measure_sorted_uid_encoding (last_id state) per_block (stats state) row;
  let state := state {{ stats := run_stats }} in
  let '(_, row) := drain_into per_block row in
  let row := row {{ row_output_count := wrap 64 (last_id state - last_id_at_block_start) }} in
  Ok (state, refresh_classes row).

Definition commit_block (utxo_hash_window : Z) (state : StatsScannerState) (frame : PreparedBlockFrame)
    : res (StatsScannerState * BlockStats) :=
  let last_id_at_block_start := last_id state in
  let '(state, per_block) := foldl (commit_tx last_id_at_block_start) (state, per_block_default) (pf_txs frame) in
  build_row utxo_hash_window (pf_height frame) (pf_hash frame) last_id_at_block_start state per_block.
End commit.

(** ** Specification: a ledger and its events *)

(** The coins created since the start of the scan, each with its number and type. *)
Record Ledger := { lg_last : Z; lg_coins : gmap OutPointKey (Z * ScriptType); lg_seen : gset bytes }.
Inductive ScanEvent :=
  | ESpend (id : Z) (t : ScriptType) (class : SpendClass) (ctx : SpendContext)
  | EMissing
  | ENonsp
  | EOutput (id : Z) (t : ScriptType) (reused nonsp : bool).

Definition ledger_input (tx_start block_start : Z) (acc : Ledger * list ScanEvent) (input : PreparedInput) : Ledger * list ScanEvent :=
  let '(l, evs) := acc in
  match lg_coins l !! pi_previous_output input with
  | Some (id, t) =>
      ({| lg_last := lg_last l; lg_coins := delete (pi_previous_output input) (lg_coins l); lg_seen := lg_seen l |},
       evs ++ [ESpend id t (pi_p2tr_spend_class input) (spend_context id tx_start block_start)])
  | None => (l, evs ++ [EMissing])
  end.
(** An input that proves that the transaction cannot pay a silent address. *)
Definition nums_spend (e : ScanEvent) : bool :=
  match e with ESpend _ P2tr class _ => bool_decide (path class = ScriptNums) | _ => false end.
Definition nonsp (is_coinbase : bool) (inputs : list ScanEvent) : bool :=
  negb is_coinbase && bool_decide (inputs ≠ []) && forallb nums_spend inputs.
Definition ledger_output (txid : bytes) (is_nonsp : bool) (acc : Ledger * list ScanEvent)
    (output : nat * (ScriptType * option bytes)) : Ledger * list ScanEvent :=
  let '(l, evs) := acc in
  let '(vout, (t, key)) := output in
  let id := lg_last l + 1 in
  let op := {| op_txid := txid; op_vout := wrap 32 (Z.of_nat vout) |} in
  ({| lg_last := id; lg_coins := <[op := (id, t)]> (lg_coins l);
      lg_seen := match key with Some k => {[k]} ∪ lg_seen l | None => lg_seen l end |},
   evs ++ [EOutput id t (match key with Some k => bool_decide (k ∈ lg_seen l) | None => false end) is_nonsp]).
Definition tx_outputs (tx : PreparedTx) : list (nat * (ScriptType * option bytes)) :=
  imap pair (zip (pt_output_script_types tx) (pt_output_xonly_keys tx)).
Definition ledger_tx (block_start : Z) (acc : Ledger * list ScanEvent) (tx : PreparedTx) : Ledger * list ScanEvent :=
  let '(l, evs) := acc in
  let '(l', spends) := if pt_is_coinbase tx then (l, []) else foldl (ledger_input (lg_last l) block_start) (l, []) (pt_inputs tx) in
  let is_nonsp := nonsp (pt_is_coinbase tx) spends in
  foldl (ledger_output (pt_txid tx) is_nonsp) (l', evs ++ spends ++ (if is_nonsp then [ENonsp] else [])) (tx_outputs tx).
Definition ledger_block (l : Ledger) (txs : list PreparedTx) : Ledger * list ScanEvent :=
  foldl (ledger_tx (lg_last l)) (l, []) txs.

(** What each counter counts. *)
Definition cnt (p : ScanEvent → bool) (evs : list ScanEvent) : Z := len (filter (λ e, p e = true) evs).
Definition is_spend (e : ScanEvent) : bool := match e with ESpend _ _ _ _ => true | _ => false end.
Definition is_output (e : ScanEvent) : bool := match e with EOutput _ _ _ _ => true | _ => false end.
Definition is_nonsp (e : ScanEvent) : bool := match e with ENonsp => true | _ => false end.
Definition is_missing (e : ScanEvent) : bool := match e with EMissing => true | _ => false end.
Definition p2tr_spend (p : SpendClass → bool) (e : ScanEvent) : bool := match e with ESpend _ P2tr class _ => p class | _ => false end.
Definition spend_in (p : SpendContext → bool) (e : ScanEvent) : bool := match e with ESpend _ _ _ ctx => p ctx | _ => false end.
Definition p2tr_output (p : bool → bool) (e : ScanEvent) : bool := match e with EOutput _ P2tr reused _ => p reused | _ => false end.
Definition nonsp_output (e : ScanEvent) : bool := match e with EOutput _ _ _ b => b | _ => false end.
Definition has_path (p : SpendPath) (c : SpendClass) : bool := bool_decide (path c = p).
Definition same_tx (c : SpendContext) : bool := match c with SameTx => true | _ => false end.
Definition same_block (c : SpendContext) : bool := match c with SameBlock => true | _ => false end.
Definition spend_type (e : ScanEvent) : option ScriptType := match e with ESpend _ t _ _ => Some t | _ => None end.
Definition output_type (e : ScanEvent) : option ScriptType := match e with EOutput _ t _ _ => Some t | _ => None end.
Definition spend_types (evs : list ScanEvent) : list ScriptType := omap spend_type evs.
Definition output_types (evs : list ScanEvent) : list ScriptType := omap output_type evs.

(** The counters that a run, a block and its row share. *)
Definition shared_counters : list ((Stats → Z) * (PerBlock → Z) * (BlockStats → Z) * (ScanEvent → bool)) := [
  (st_spends, pb_spends, row_spends, is_spend);
  (st_p2tr_outputs, pb_p2tr_output_count, row_p2tr_output_count, p2tr_output (λ _, true));
  (st_p2tr_reused, pb_p2tr_reused_count, row_p2tr_reused_count, p2tr_output id);
  (st_p2tr_spends, pb_p2tr_spends, row_p2tr_spends, p2tr_spend (λ _, true));
  (st_p2tr_keypath_spends, pb_p2tr_keypath_spends, row_p2tr_keypath_spends, p2tr_spend (has_path Key));
  (st_p2tr_scriptpath_spends, pb_p2tr_scriptpath_spends, row_p2tr_scriptpath_spends, p2tr_spend (λ c, negb (has_path Key c)));
  (st_p2tr_nums_spends, pb_p2tr_nums_spends, row_p2tr_nums_spends, p2tr_spend (has_path ScriptNums));
  (st_p2tr_sp_eligible_spends, pb_p2tr_sp_eligible_spends, row_p2tr_sp_eligible_spends, p2tr_spend (λ c, negb (has_path ScriptNums c)));
  (st_p2tr_inscription_spends, pb_p2tr_inscription_spends, row_p2tr_inscription_spends, p2tr_spend inscription);
  (st_p2tr_nums_and_inscription_spends, pb_p2tr_nums_and_inscription_spends, row_p2tr_nums_and_inscription_spends,
   p2tr_spend (λ c, has_path ScriptNums c && inscription c));
  (st_nonsp_txs, pb_nonsp_txs, row_nonsp_txs, is_nonsp);
  (st_nonsp_tx_outputs, pb_nonsp_tx_outputs, row_nonsp_tx_outputs, nonsp_output);
  (st_outputs, pb_output_count, row_output_count, is_output)
].
(** Those of the run alone. *)
Definition run_counters : list ((Stats → Z) * (ScanEvent → bool)) := [
  (st_same_tx_spends, spend_in same_tx); (st_same_block_spends, spend_in same_block);
  (st_p2tr_same_tx_spends, λ e, p2tr_spend (λ _, true) e && spend_in same_tx e);
  (st_p2tr_same_block_spends, λ e, p2tr_spend (λ _, true) e && spend_in same_block e)
].

(** ** Packed entries *)

Lemma to_from_u8 t : from_u8 (to_u8 t) = t.
Proof. by destruct t. Qed.
Lemma to_u8_range t : 0 ≤ to_u8 t < 16.
Proof. destruct t; cbn; lia. Qed.
Lemma packed_new id t : 0 ≤ id < 2 ^ 60 → packed (entry_new id t) = id * 16 + to_u8 t.
Proof.
  intros Hid. pose proof (to_u8_range t). cbn [packed entry_new]. unfold SCRIPT_TYPE_BITS. rewrite Z.shiftl_mul_pow2 by lia.
  rewrite wrap_small by (unfold in_width; lia).
  assert (Hz : Z.land (id * 2 ^ 4) (to_u8 t) = 0); [|rewrite <-Z.lxor_lor, <-Z.add_nocarry_lxor by done; lia].
  apply Z.bits_inj'. intros n Hn. rewrite Z.land_spec, Z.bits_0. destruct (decide (n < 4)) as [Hn4|Hn4].
  - by rewrite Z.mul_pow2_bits_low.
  - rewrite (Z.bits_above_log2 (to_u8 t)); [apply andb_false_r|lia|].
    destruct (decide (to_u8 t = 0)) as [->|]; [cbn; lia|]. apply Z.log2_lt_pow2; [lia|].
    apply Z.lt_le_trans with (2 ^ 4); [lia|]. apply Z.pow_le_mono_r; lia.
Qed.
Lemma entry_id_new id t : 0 ≤ id < 2 ^ 60 → entry_id (entry_new id t) = id.
Proof.
  intros Hid. pose proof (to_u8_range t). unfold entry_id. rewrite packed_new by done. unfold SCRIPT_TYPE_BITS.
  rewrite Z.shiftr_div_pow2 by lia. lia.
Qed.
Lemma entry_type_new id t : 0 ≤ id < 2 ^ 60 → entry_script_type (entry_new id t) = t.
Proof.
  intros Hid. pose proof (to_u8_range t). unfold entry_script_type. rewrite packed_new by done.
  change SCRIPT_TYPE_MASK with (Z.ones 4). rewrite Z.land_ones by lia.
  replace ((id * 16 + to_u8 t) mod 2 ^ 4) with (to_u8 t) by lia. apply to_from_u8.
Qed.

(** ** The commit follows the ledger *)

Definition stats_event (s : Stats) (e : ScanEvent) : Stats :=
  match e with
  | ESpend _ t class ctx =>
      let s := record_input_script t (record_spend ctx s) in if bool_decide (t = P2tr) then record_p2tr_spend class ctx s else s
  | EMissing => s
  | ENonsp => s {{ st_nonsp_txs ::= inc }}
  | EOutput _ t reused nonsp =>
      let s := record_output_script t (s {{ st_outputs ::= inc }}) in
      let s := if bool_decide (t = P2tr) then let s := s {{ st_p2tr_outputs ::= inc }} in if reused then s {{ st_p2tr_reused ::= inc }} else s else s in
      if nonsp then s {{ st_nonsp_tx_outputs ::= inc }} else s
  end.
Definition pb_event (b : PerBlock) (e : ScanEvent) : PerBlock :=
  match e with
  | ESpend id t class _ =>
      let b := pb_record_input_script t (pb_record_spend_uid id (bool_decide (t = P2tr)) b) in
      if bool_decide (t = P2tr) then pb_record_p2tr_spend class b else b
  | EMissing => b
  | ENonsp => b {{ pb_nonsp_txs ::= inc }}
  | EOutput _ t reused nonsp =>
      let b := pb_record_output (bool_decide (t = P2tr)) reused (pb_record_output_script t b) in
      if nonsp then b {{ pb_nonsp_tx_outputs ::= inc }} else b
  end.
(** The event of the rolling hash. *)
Definition hash_events (evs : list ScanEvent) : list utxo_event :=
  omap (λ e, match e with ESpend id _ _ _ => Some (Removed id) | EOutput id _ _ _ => Some (Added id) | _ => None end) evs.

Lemma cnt_app p evs1 evs2 : cnt p (evs1 ++ evs2) = cnt p evs1 + cnt p evs2.
Proof. unfold cnt. rewrite filter_app, length_app. lia. Qed.
Lemma cnt_one p e : cnt p [e] = if p e then 1 else 0.
Proof. unfold cnt. rewrite filter_cons, filter_nil. by destruct (p e). Qed.

Definition ledger_of (state : StatsScannerState) : Ledger := {|
  lg_last := last_id state; lg_coins := (λ e, (entry_id e, entry_script_type e)) <$> utxo state; lg_seen := seen_keys state |}.

Section refinement.
Context `{SH : !Sha256, HX : !Hex}.

(** What the events of a run of the loops leave. *)
Definition follows (state : StatsScannerState) (pb : PerBlock) (evs : list ScanEvent) (state' : StatsScannerState) (pb' : PerBlock) : Prop :=
  stats state' = foldl stats_event (stats state) evs ∧ pb' = foldl pb_event pb evs ∧
  utxo_hash state' = foldl apply_event (utxo_hash state) (hash_events evs) ∧
  missing state' = foldl (λ m e, if is_missing e then inc m else m) (missing state) evs ∧
  last_id state' = last_id state + cnt is_output evs.

Lemma follows_nil state pb : follows state pb [] state pb.
Proof. repeat split. change (cnt is_output []) with 0. lia. Qed.
Lemma follows_app s1 p1 e1 s2 p2 e2 s3 p3 : follows s1 p1 e1 s2 p2 → follows s2 p2 e2 s3 p3 → follows s1 p1 (e1 ++ e2) s3 p3.
Proof.
  intros (A1 & B1 & C1 & D1 & L1) (A2 & B2 & C2 & D2 & L2). unfold follows, hash_events in *.
  rewrite omap_app, !foldl_app, cnt_app, <-A1, <-B1, <-C1, <-D1. repeat split; try done. lia.
Qed.

Definition flags_of (evs : list ScanEvent) : TxFlags := {|
  any_sp_eligible_input := existsb (p2tr_spend (λ c, negb (has_path ScriptNums c))) evs;
  has_non_p2tr_input := existsb (λ e, negb (p2tr_spend (λ _, true) e)) evs;
  p2tr_input_seen := existsb (p2tr_spend (λ _, true)) evs |}.

Lemma flags_snoc evs e : flags_of (evs ++ [e]) = {|
  any_sp_eligible_input := p2tr_spend (λ c, negb (has_path ScriptNums c)) e || any_sp_eligible_input (flags_of evs);
  has_non_p2tr_input := negb (p2tr_spend (λ _, true) e) || has_non_p2tr_input (flags_of evs);
  p2tr_input_seen := p2tr_spend (λ _, true) e || p2tr_input_seen (flags_of evs) |}.
Proof.
  unfold flags_of. rewrite !existsb_app. cbn [existsb any_sp_eligible_input has_non_p2tr_input p2tr_input_seen].
  rewrite !orb_false_r. f_equal; apply orb_comm.
Qed.

Lemma commit_input_spec ts bs state pb evs input :
  ∃ e state' pb', commit_input ts bs (state, pb, flags_of evs) input = (state', pb', flags_of (evs ++ [e])) ∧
    ledger_input ts bs (ledger_of state, evs) input = (ledger_of state', evs ++ [e]) ∧ follows state pb [e] state' pb'.
Proof.
  unfold commit_input, ledger_input. cbn [lg_coins ledger_of]. rewrite lookup_fmap.
  destruct state as [li ut sk st uh mi]. cbn [utxo].
  destruct (ut !! pi_previous_output input) as [entry|] eqn:E; cbn [fmap option_fmap option_map].
  - set (e := ESpend (entry_id entry) (entry_script_type entry) (pi_p2tr_spend_class input) (spend_context (entry_id entry) ts bs)).
    exists e, {| last_id := li; utxo := delete (pi_previous_output input) ut; seen_keys := sk; stats := stats_event st e;
                 utxo_hash := remove_output uh (entry_id entry); missing := mi |}, (pb_event pb e).
    split; [|split].
    + rewrite flags_snoc. cbn [p2tr_spend e]. cbv zeta. unfold pb_event, stats_event, e, has_path.
      destruct (entry_script_type entry); reflexivity.
    + unfold ledger_of. cbn [utxo last_id seen_keys lg_last lg_coins lg_seen]. by rewrite fmap_delete.
    + repeat split. rewrite cnt_one. cbn. lia.
  - exists EMissing, {| last_id := li; utxo := ut; seen_keys := sk; stats := st; utxo_hash := uh; missing := inc mi |}, pb.
    split; [by rewrite flags_snoc|]. split; [done|]. repeat split. rewrite cnt_one. cbn. lia.
Qed.

Lemma commit_inputs_spec ts bs inputs : ∀ state pb evs, ∃ evs' state' pb',
  foldl (commit_input ts bs) (state, pb, flags_of evs) inputs = (state', pb', flags_of (evs ++ evs')) ∧
  foldl (ledger_input ts bs) (ledger_of state, evs) inputs = (ledger_of state', evs ++ evs') ∧
  follows state pb evs' state' pb' ∧ lg_last (ledger_of state') = lg_last (ledger_of state).
Proof.
  induction inputs as [|input inputs IH]; intros state pb evs.
  { exists [], state, pb. rewrite app_nil_r. split; [done|]. split; [done|]. split; [apply follows_nil|done]. }
  cbn [foldl]. destruct (commit_input_spec ts bs state pb evs input) as (e & s1 & p1 & -> & EL & F1).
  assert (L1 : lg_last (ledger_of s1) = lg_last (ledger_of state)).
  { unfold ledger_input in EL. apply (f_equal (λ x, lg_last x.1)) in EL. by destruct (lg_coins (ledger_of state) !! _) as [[]|]. }
  rewrite EL. destruct (IH s1 p1 (evs ++ [e])) as (evs' & s2 & p2 & -> & -> & F2 & L2).
  exists ([e] ++ evs'), s2, p2. rewrite app_assoc. split; [done|]. split; [done|]. split; [by eapply follows_app|congruence].
Qed.

(** The flags decide as the specification does. *)
Lemma nonsp_flags cb evs : let f := flags_of evs in
  negb cb && p2tr_input_seen f && negb (any_sp_eligible_input f) && negb (has_non_p2tr_input f) = nonsp cb evs.
Proof.
  unfold nonsp. cbn [flags_of p2tr_input_seen any_sp_eligible_input has_non_p2tr_input]. destruct cb; [done|]. cbn [negb andb].
  destruct evs as [|e evs]; [done|]. rewrite (bool_decide_true (e :: evs ≠ [])) by done. cbn [andb].
  assert (∀ l, forallb nums_spend l = negb (existsb (p2tr_spend (λ c, negb (has_path ScriptNums c))) l) &&
                                     negb (existsb (λ e, negb (p2tr_spend (λ _, true) e)) l)) as ->.
  { induction l as [|x l IH]; [done|]. cbn [forallb existsb]. rewrite IH, !negb_orb.
    destruct x as [id t c ctx| | |]; try by rewrite !andb_false_r.
    destruct t; cbn; rewrite ?andb_false_r; try done. unfold has_path. case_bool_decide; done. }
  rewrite <-andb_assoc. destruct (negb (existsb (λ e, negb (p2tr_spend (λ _, true) e)) (e :: evs))) eqn:Hn; [|by rewrite !andb_false_r].
  apply negb_true_iff in Hn. cbn [existsb] in Hn |- *. apply orb_false_iff in Hn as [Hn _]. apply negb_false_iff in Hn. by rewrite Hn.
Qed.

Lemma commit_output_spec txid is_nonsp state pb evs output : 0 ≤ last_id state → last_id state + 1 < 2 ^ 60 →
  ∃ e state' pb', commit_output txid is_nonsp (state, pb) output = (state', pb') ∧
    ledger_output txid is_nonsp (ledger_of state, evs) output = (ledger_of state', evs ++ [e]) ∧ follows state pb [e] state' pb' ∧
    last_id state' = last_id state + 1.
Proof.
  intros H0 Hl. destruct state as [li ut sk st uh mi]. destruct output as [vout [t key]]. cbn [last_id] in *.
  assert (Hinc : inc li = li + 1) by (apply wrap_small; unfold in_width; lia).
  set (e := EOutput (li + 1) t (match key with Some k => bool_decide (k ∈ sk) | None => false end) is_nonsp).
  set (op := {| op_txid := txid; op_vout := wrap 32 (Z.of_nat vout) |}).
  exists e, {| last_id := inc li; utxo := <[op := entry_new (inc li) t]> ut;
               seen_keys := match key with Some k => {[k]} ∪ sk | None => sk end; stats := stats_event st e;
               utxo_hash := add_output uh (inc li); missing := mi |}, (pb_event pb e).
  split; [|split; [|split]].
  - unfold commit_output, stats_event, pb_event, e. cbv beta iota zeta. destruct key as [k|].
    + lazymatch goal with |- context [bool_decide (k ∈ seen_keys ?x)] => change (bool_decide (k ∈ seen_keys x)) with (bool_decide (k ∈ sk)) end.
      destruct (bool_decide (t = P2tr)), (bool_decide (k ∈ sk)), is_nonsp; reflexivity.
    + destruct (bool_decide (t = P2tr)), is_nonsp; reflexivity.
  - unfold ledger_output, ledger_of. cbn [utxo last_id seen_keys lg_last lg_coins lg_seen]. rewrite fmap_insert, Hinc, entry_id_new, entry_type_new by lia. done.
  - unfold follows. cbn. rewrite Hinc. repeat split.
  - done.
Qed.

Lemma commit_outputs_spec txid is_nonsp outputs : ∀ state pb evs, 0 ≤ last_id state → last_id state + len outputs < 2 ^ 60 →
  ∃ evs' state' pb', foldl (commit_output txid is_nonsp) (state, pb) outputs = (state', pb') ∧
    foldl (ledger_output txid is_nonsp) (ledger_of state, evs) outputs = (ledger_of state', evs ++ evs') ∧
    follows state pb evs' state' pb' ∧ last_id state' = last_id state + len outputs.
Proof.
  induction outputs as [|output outputs IH]; intros state pb evs H0 Hl.
  { exists [], state, pb. rewrite app_nil_r. split; [done|]. split; [done|]. split; [apply follows_nil|cbn; lia]. }
  cbn [foldl length] in *. destruct (commit_output_spec txid is_nonsp state pb evs output) as (e & s1 & p1 & -> & -> & F1 & L1); [lia|lia|].
  destruct (IH s1 p1 (evs ++ [e])) as (evs' & s2 & p2 & -> & -> & F2 & L2); [lia|lia|].
  exists ([e] ++ evs'), s2, p2. rewrite app_assoc. split; [done|]. split; [done|]. split; [by eapply follows_app|lia].
Qed.
Definition n_outputs (tx : PreparedTx) : Z := len (tx_outputs tx).

Lemma commit_tx_spec bs state pb evs tx : 0 ≤ last_id state → last_id state + n_outputs tx < 2 ^ 60 →
  ∃ evs' state' pb', commit_tx bs (state, pb) tx = (state', pb') ∧
    ledger_tx bs (ledger_of state, evs) tx = (ledger_of state', evs ++ evs') ∧
    follows state pb evs' state' pb' ∧ last_id state' = last_id state + n_outputs tx.
Proof.
  intros H0 Hl. unfold commit_tx, ledger_tx. change (lg_last (ledger_of state)) with (last_id state).
  assert (∃ spends s1 p1, (if pt_is_coinbase tx then (state, pb, flags_new)
      else foldl (commit_input (last_id state) bs) (state, pb, flags_new) (pt_inputs tx)) = (s1, p1, flags_of spends) ∧
    (if pt_is_coinbase tx then (ledger_of state, []) else foldl (ledger_input (last_id state) bs) (ledger_of state, []) (pt_inputs tx)) =
      (ledger_of s1, spends) ∧ follows state pb spends s1 p1 ∧ last_id s1 = last_id state) as (spends & s1 & p1 & -> & -> & F1 & L1).
  { destruct (pt_is_coinbase tx).
    - exists [], state, pb. split; [done|]. split; [done|]. split; [apply follows_nil|done].
    - destruct (commit_inputs_spec (last_id state) bs (pt_inputs tx) state pb []) as (spends & s1 & p1 & E1 & E2 & F1 & L1). by exists spends, s1, p1. }
  pose proof (nonsp_flags (pt_is_coinbase tx) spends) as Hn. cbv zeta in Hn. rewrite Hn. clear Hn.
  set (b := nonsp (pt_is_coinbase tx) spends). set (mid := if b then [ENonsp] else []).
  assert (∃ s2 p2, (if b then (s1 {{ stats ::= λ s, s {{ st_nonsp_txs ::= inc }} }}, p1 {{ pb_nonsp_txs ::= inc }}) else (s1, p1)) = (s2, p2) ∧
    ledger_of s1 = ledger_of s2 ∧ follows s1 p1 mid s2 p2 ∧ last_id s2 = last_id s1) as (s2 & p2 & -> & -> & F2 & L2).
  { destruct s1 as [li ut sk st uh mi]. subst mid. destruct b.
    - eexists _, _. split; [reflexivity|]. split; [done|]. split; [|done]. repeat split. rewrite cnt_one. cbn. lia.
    - eexists _, _. split; [reflexivity|]. split; [done|]. split; [apply follows_nil|done]. }
  unfold n_outputs in *. fold (tx_outputs tx).
  destruct (commit_outputs_spec (pt_txid tx) b (tx_outputs tx) s2 p2 (evs ++ spends ++ mid)) as (evs' & s3 & p3 & -> & -> & F3 & L3); [lia|lia|].
  exists (spends ++ mid ++ evs'), s3, p3. split; [done|]. split; [by rewrite !app_assoc|].
  split; [|lia]. eapply follows_app; [exact F1|]. by eapply follows_app.
Qed.

Definition block_outputs (txs : list PreparedTx) : Z := foldr Z.add 0 (n_outputs <$> txs).
Lemma block_outputs_nonneg txs : 0 ≤ block_outputs txs.
Proof. unfold block_outputs. induction txs as [|tx txs IH]; [done|]. cbn [fmap list_fmap foldr]. unfold n_outputs at 1. lia. Qed.
Lemma commit_txs_spec bs txs : ∀ state pb evs, 0 ≤ last_id state → last_id state + block_outputs txs < 2 ^ 60 →
  ∃ evs' state' pb', foldl (commit_tx bs) (state, pb) txs = (state', pb') ∧
    foldl (ledger_tx bs) (ledger_of state, evs) txs = (ledger_of state', evs ++ evs') ∧
    follows state pb evs' state' pb' ∧ last_id state' = last_id state + block_outputs txs.
Proof.
  induction txs as [|tx txs IH]; intros state pb evs H0 Hl.
  { exists [], state, pb. rewrite app_nil_r. split; [done|]. split; [done|]. split; [apply follows_nil|cbn; lia]. }
  unfold block_outputs in *. cbn [fmap list_fmap foldr] in *. fold (block_outputs txs) in *. pose proof (block_outputs_nonneg txs).
  assert (0 ≤ n_outputs tx) by (unfold n_outputs; lia).
  cbn [foldl]. destruct (commit_tx_spec bs state pb evs tx) as (evs1 & s1 & p1 & -> & -> & F1 & L1); [lia|lia|].
  destruct (IH s1 p1 (evs ++ evs1)) as (evs2 & s2 & p2 & -> & -> & F2 & L2); [lia|lia|].
  exists (evs1 ++ evs2), s2, p2. split; [done|]. split; [by rewrite app_assoc|]. split; [by eapply follows_app|lia].
Qed.
End refinement.

(** ** The counters count the events *)

Lemma count_one_counter {S} (step : S → ScanEvent → S) (f : S → Z) (p : ScanEvent → bool) evs :
  (∀ s e, f (step s e) = if p e then inc (f s) else f s) → ∀ s, in_width 64 (f s) → f (foldl step s evs) = wrap 64 (f s + cnt p evs).
Proof.
  intros Hstep. induction evs as [|e evs IH]; intros s Hs.
  { cbn [foldl]. change (cnt p []) with 0. by rewrite Z.add_0_r, wrap_small. }
  cbn [foldl]. change (e :: evs) with ([e] ++ evs). rewrite cnt_app, cnt_one, IH.
  - rewrite Hstep. destruct (p e); unfold inc; [rewrite wrap_plus_l; f_equal; lia|f_equal; lia].
  - rewrite Hstep. destruct (p e); [by apply wrap_width|done].
Qed.

Definition counter_steps (c : (Stats → Z) * (PerBlock → Z) * (BlockStats → Z) * (ScanEvent → bool)) : Prop :=
  let '(f, g, r, p) := c in
  (∀ s e, f (stats_event s e) = if p e then inc (f s) else f s) ∧ (∀ b e, g (pb_event b e) = if p e then inc (g b) else g b).
Ltac counter_case :=
  split; [intros [] [? [] [[] []] []| | |? [] [] []]|intros [] [? [] [[] []] ?| | |? [] [] []]]; reflexivity.
Lemma shared_counter_steps : Forall counter_steps shared_counters.
Proof. unfold shared_counters. repeat (apply List.Forall_cons; [counter_case|]). apply List.Forall_nil. Qed.
Lemma run_counter_steps : Forall (λ c : (Stats → Z) * (ScanEvent → bool), ∀ s e, c.1 (stats_event s e) = if c.2 e then inc (c.1 s) else c.1 s) run_counters.
Proof. unfold run_counters. repeat (apply List.Forall_cons || apply List.Forall_nil); intros [] [? [] [[] []] []| | |? [] [] []]; reflexivity. Qed.

Lemma fold_proj {S A} (step : S → ScanEvent → S) (f : S → A) (g : A → ScanEvent → A) evs :
  (∀ s e, f (step s e) = g (f s) e) → ∀ s, f (foldl step s evs) = foldl g (f s) evs.
Proof. intros H. induction evs as [|e evs IH]; intros s; [done|]. cbn [foldl]. by rewrite IH, H. Qed.
Lemma fold_omap {A B} (sel : ScanEvent → option B) (g : A → B → A) evs a :
  foldl (λ a e, match sel e with Some x => g a x | None => a end) a evs = foldl g a (omap sel evs).
Proof. revert a. induction evs as [|e evs IH]; intros a; [done|]. cbn. rewrite IH. by destruct (sel e). Qed.

Ltac fold_field step g sel :=
  etrans; [apply (fold_proj step _ (λ c e, match sel e with Some x => g c x | None => c end))|apply fold_omap];
  intros [] [? [] [[] []] []| | |? [] [] []]; reflexivity.
Lemma stats_types s evs :
  st_script_outputs (foldl stats_event s evs) = foldl record (st_script_outputs s) (output_types evs) ∧
  st_script_inputs (foldl stats_event s evs) = foldl record (st_script_inputs s) (spend_types evs).
Proof. split; [fold_field stats_event record output_type|fold_field stats_event record spend_type]. Qed.
Lemma pb_types b evs :
  pb_script_outputs (foldl pb_event b evs) = foldl record (pb_script_outputs b) (output_types evs) ∧
  pb_script_inputs (foldl pb_event b evs) = foldl record (pb_script_inputs b) (spend_types evs).
Proof. split; [fold_field pb_event record output_type|fold_field pb_event record spend_type]. Qed.

(** The numbers of the coins spent. *)
Definition spent_id (e : ScanEvent) : option Z := match e with ESpend id _ _ _ => Some id | _ => None end.
Definition p2tr_spent_id (e : ScanEvent) : option Z := match e with ESpend id P2tr _ _ => Some id | _ => None end.
Definition spent_ids (evs : list ScanEvent) : list Z := omap spent_id evs.
Definition p2tr_spent_ids (evs : list ScanEvent) : list Z := omap p2tr_spent_id evs.
Lemma fold_snoc {A} (l k : list A) : foldl (λ l x, l ++ [x]) k l = k ++ l.
Proof. revert k. induction l as [|x l IH]; intros k; cbn; [by rewrite app_nil_r|]. by rewrite IH, <-app_assoc. Qed.
Lemma pb_uids b evs : pb_spent_uids (foldl pb_event b evs) = pb_spent_uids b ++ spent_ids evs ∧
  pb_p2tr_spent_uids (foldl pb_event b evs) = pb_p2tr_spent_uids b ++ p2tr_spent_ids evs.
Proof.
  split; rewrite <-fold_snoc; [fold_field pb_event (λ (l : list Z) x, l ++ [x]) spent_id|fold_field pb_event (λ (l : list Z) x, l ++ [x]) p2tr_spent_id].
Qed.
Lemma p2tr_sublist evs : p2tr_spent_ids evs `sublist_of` spent_ids evs.
Proof. induction evs as [|[? [] ? ?| | |] evs IH]; cbn; [constructor|..]; try done; by constructor. Qed.

(** ** No coin is spent twice *)

Record ledger_ok (l : Ledger) : Prop := {
  lk_last : 0 ≤ lg_last l;
  lk_range op id t : lg_coins l !! op = Some (id, t) → 1 ≤ id ≤ lg_last l;
  lk_inj op op' id t t' : lg_coins l !! op = Some (id, t) → lg_coins l !! op' = Some (id, t') → op = op'
}.
(** The coins spent so far in a block are distinct, known, and gone. *)
Record block_ok (l : Ledger) (spent : list Z) : Prop := {
  bk_ledger : ledger_ok l;
  bk_nodup : NoDup spent;
  bk_gone id : id ∈ spent → 1 ≤ id ≤ lg_last l ∧ ∀ op t, lg_coins l !! op ≠ Some (id, t)
}.

Lemma spent_app e1 e2 : spent_ids (e1 ++ e2) = spent_ids e1 ++ spent_ids e2.
Proof. apply omap_app. Qed.

Lemma ledger_input_ok ts bs l evs input : block_ok l (spent_ids evs) →
  block_ok (ledger_input ts bs (l, evs) input).1 (spent_ids (ledger_input ts bs (l, evs) input).2).
Proof.
  intros [[H0 Hr Hi] Hn Hg]. unfold ledger_input. destruct (lg_coins l !! pi_previous_output input) as [[id t]|] eqn:E; cbn [fst snd].
  - rewrite spent_app. cbn [spent_ids omap list_omap]. split.
    + split; cbn [lg_last lg_coins]; [done| |].
      * intros op id' t' [_ Hl]%lookup_delete_Some. by eapply Hr.
      * intros op op' id' t1 t2 [_ H1]%lookup_delete_Some [_ H2]%lookup_delete_Some. by eapply Hi.
    + apply NoDup_app. split; [done|]. split; [|apply NoDup_singleton]. intros x Hx ->%list_elem_of_singleton.
      destruct (Hg id Hx) as [_ Hgone]. by apply (Hgone _ _ E).
    + cbn [lg_last lg_coins]. intros x [Hx|Hx]%elem_of_app.
      * destruct (Hg x Hx) as [Hb Hgone]. split; [done|]. intros op t' [_ Hl]%lookup_delete_Some. by apply (Hgone _ _ Hl).
      * apply list_elem_of_singleton in Hx as ->. split; [by eapply Hr|]. intros op t' [Hne Hl]%lookup_delete_Some.
        by apply Hne, (Hi _ _ _ _ _ E Hl).
  - rewrite spent_app. cbn [spent_ids omap list_omap]. rewrite app_nil_r. by split.
Qed.
Lemma ledger_output_ok txid b l evs output : block_ok l (spent_ids evs) →
  block_ok (ledger_output txid b (l, evs) output).1 (spent_ids (ledger_output txid b (l, evs) output).2).
Proof.
  intros [[H0 Hr Hi] Hn Hg]. destruct output as [vout [t key]]. unfold ledger_output. cbn [fst snd].
  rewrite spent_app. cbn [spent_ids omap list_omap]. rewrite app_nil_r. set (op0 := {| op_txid := txid; op_vout := _ |}). split; [|done|].
  - split; cbn [lg_last lg_coins]; [lia| |].
    + intros op id t' [[_ E]|[_ Hl]]%lookup_insert_Some; [injection E as E _; lia|]. apply Hr in Hl. lia.
    + intros op op' id t1 t2 [[<- E1]|[Hne H1]]%lookup_insert_Some [[<- E2]|[_ H2]]%lookup_insert_Some; [done| | |by eapply Hi].
      * injection E1 as E1 _. apply Hr in H2. lia.
      * injection E2 as E2 _. apply Hr in H1. lia.
  - cbn [lg_last lg_coins]. intros x Hx. destruct (Hg x Hx) as [Hb Hgone]. split; [lia|].
    intros op t' [[_ E]|[_ Hl]]%lookup_insert_Some; [injection E as E _; lia|by apply (Hgone _ _ Hl)].
Qed.
Lemma fold_block_ok {A} (step : Ledger * list ScanEvent → A → Ledger * list ScanEvent) xs :
  (∀ l evs x, block_ok l (spent_ids evs) → block_ok (step (l, evs) x).1 (spent_ids (step (l, evs) x).2)) →
  ∀ l evs, block_ok l (spent_ids evs) → block_ok (foldl step (l, evs) xs).1 (spent_ids (foldl step (l, evs) xs).2).
Proof.
  intros Hs. induction xs as [|x xs IH]; intros l evs H; [done|]. cbn [foldl]. apply (Hs _ _ x) in H.
  destruct (step (l, evs) x) as [l' evs']. by apply IH.
Qed.

Lemma inputs_prefix ts bs inputs : ∀ l evs evs', foldl (ledger_input ts bs) (l, evs ++ evs') inputs =
  ((foldl (ledger_input ts bs) (l, evs') inputs).1, evs ++ (foldl (ledger_input ts bs) (l, evs') inputs).2).
Proof.
  induction inputs as [|input inputs IH]; intros l evs evs'; [done|]. cbn [foldl]. unfold ledger_input at 2 4 6.
  destruct (lg_coins l !! pi_previous_output input) as [[id t]|]; by rewrite <-app_assoc, IH.
Qed.
Lemma ledger_tx_ok bs l evs tx : block_ok l (spent_ids evs) →
  block_ok (ledger_tx bs (l, evs) tx).1 (spent_ids (ledger_tx bs (l, evs) tx).2).
Proof.
  intros H. unfold ledger_tx.
  assert (∃ l' spends, (if pt_is_coinbase tx then (l, []) else foldl (ledger_input (lg_last l) bs) (l, []) (pt_inputs tx)) = (l', spends) ∧
    block_ok l' (spent_ids (evs ++ spends))) as (l' & spends & -> & H').
  { destruct (pt_is_coinbase tx); [exists l, []; by rewrite app_nil_r|].
    pose proof (fold_block_ok (ledger_input (lg_last l) bs) (pt_inputs tx) (ledger_input_ok _ _) l evs H) as Hf.
    rewrite <-(app_nil_r evs), inputs_prefix in Hf. destruct (foldl _ (l, []) _) as [l' spends]. by exists l', spends. }
  apply (fold_block_ok (ledger_output (pt_txid tx) _) (tx_outputs tx) (ledger_output_ok _ _)).
  rewrite app_assoc, spent_app. destruct (nonsp _ _); cbn [spent_ids omap list_omap spent_id]; by rewrite app_nil_r.
Qed.
Lemma ledger_block_ok l txs : ledger_ok l → block_ok (ledger_block l txs).1 (spent_ids (ledger_block l txs).2).
Proof.
  intros H. apply (fold_block_ok (ledger_tx (lg_last l)) txs (ledger_tx_ok _)). split; [done|constructor|by intros ? ?%elem_of_nil].
Qed.

Record scanner_ok (state : StatsScannerState) : Prop := {
  so_ledger : ledger_ok (ledger_of state);
  so_shared : Forall (λ '(f, _, _, _), in_width 64 (f (stats state))) shared_counters;
  so_run : Forall (λ '(f, _), in_width 64 (f (stats state))) run_counters;
  so_missing : in_width 64 (missing state)
}.
Lemma scanner_new_ok w : scanner_ok (scanner_new w).
Proof.
  split; [|repeat constructor; unfold in_width; cbn; lia..|unfold in_width; cbn; lia].
  split; cbn; [lia|..]; intros *; rewrite fmap_empty, lookup_empty; done.
Qed.

(** A measured stream: no panic when its coins are distinct and known. *)
Lemma measure_known uids anchor stats : NoDup uids → (∀ u, u ∈ uids → u ≤ anchor) →
  ∃ stats' est, measure_sorted_uid_stream uids anchor stats = Ok (stats', est).
Proof.
  intros Hn Hu. assert (H : is_ok (measure_sorted_uid_stream uids anchor stats) = true).
  { apply measure_returns_iff. destruct uids as [|u uids]; [by left|]. right. split; [done|]. exists u. split; [left|apply Hu; left]. }
  destruct (measure_sorted_uid_stream uids anchor stats) as [[s e]| |]; [by exists s, e|done|done].
Qed.

Section refinement.
Context `{SH : !Sha256, HX : !Hex}.

(** The row of a block with the events [evs]. *)
Definition row_spec (w : Z) (frame : PreparedBlockFrame) (before after : Ledger) (evs : list ScanEvent) (uh : bytes) (row : BlockStats) : Prop :=
  row_height row = pf_height frame ∧ row_block_hash row = block_hash_hex (pf_hash frame) ∧
  row_stats_version row = STATS_STATE_VERSION ∧ row_last_global_id row = lg_last after ∧
  Forall (λ '(_, _, r, p), r row = wrap 64 (cnt p evs)) shared_counters ∧
  row_script_outputs row = foldl record counts_default (output_types evs) ∧
  row_script_inputs row = foldl record counts_default (spend_types evs) ∧
  row_utxo_hash row = uh ∧ row_utxo_hash_window row = w ∧
  (∃ stats s1 all, measure_sorted_uid_stream (spent_ids evs) (lg_last after) stats = Ok (s1, all) ∧ set_spent_estimate all row = row) ∧
  (∃ stats s1 p2tr, measure_sorted_uid_stream (p2tr_spent_ids evs) (lg_last after) stats = Ok (s1, p2tr) ∧ set_p2tr_estimate p2tr row = row).

Lemma build_row_spec w frame before state pb ids all ids' p2tr :
  measure_sorted_uid_stream (pb_spent_uids pb) (last_id state) (st_sorted_spent_ids (stats state)) = Ok (ids, all) →
  measure_sorted_uid_stream (pb_p2tr_spent_uids pb) (last_id state) (st_sorted_p2tr_spent_ids (stats state)) = Ok (ids', p2tr) →
  ∃ state' row, build_row w (pf_height frame) (pf_hash frame) before state pb = Ok (state', row) ∧
    last_id state' = last_id state ∧ utxo state' = utxo state ∧ seen_keys state' = seen_keys state ∧ missing state' = missing state ∧
    stats state' = (stats state) {{ st_sorted_spent_ids := ids; st_sorted_p2tr_spent_ids := ids' }} ∧
    (utxo_hash state', row_utxo_hash row) = finalize_block (utxo_hash state) ∧
    row_height row = pf_height frame ∧ row_block_hash row = block_hash_hex (pf_hash frame) ∧
    row_stats_version row = STATS_STATE_VERSION ∧ row_last_global_id row = last_id state ∧ row_utxo_hash_window row = w ∧
    row_output_count row = wrap 64 (last_id state - before) ∧
    Forall (λ '(_, g, r, _), r row = g pb) (take 12 shared_counters) ∧
    row_script_outputs row = pb_script_outputs pb ∧ row_script_inputs row = pb_script_inputs pb ∧
    set_spent_estimate all row = row ∧ set_p2tr_estimate p2tr row = row ∧ refresh_classes row = row.
Proof.
  destruct state as [li ut sk st uh mi]. cbn [stats last_id]. intros H1 H2. unfold build_row. cbn [utxo_hash].
  destruct (finalize_block uh) as [uh' hex].
  unfold measure_sorted_uid_encoding. cbn [last_id stats apply_update constant]. rewrite H1. rsimpl. cbv beta iota zeta.
  lazymatch goal with |- context [measure_sorted_uid_stream (pb_p2tr_spent_uids pb) li ?x] => change x with (st_sorted_p2tr_spent_ids st) end.
  rewrite H2. rsimpl. cbv beta iota zeta.
  clear H1 H2. destruct st, pb, all, p2tr. cbv -[wrap Z.sub block_hash_hex STATS_STATE_VERSION merge_sort].
  eexists _, _. split; [reflexivity|]. repeat (split; [reflexivity|]). split; [repeat (apply List.Forall_cons; [reflexivity|]); apply List.Forall_nil|].
  repeat (split; [reflexivity|]). reflexivity.
Qed.

Lemma count_stats evs s : Forall (λ '(f, _, _, _), in_width 64 (f s)) shared_counters → Forall (λ '(f, _), in_width 64 (f s)) run_counters →
  Forall (λ '(f, _, _, p), f (foldl stats_event s evs) = wrap 64 (f s + cnt p evs)) shared_counters ∧
  Forall (λ '(f, p), f (foldl stats_event s evs) = wrap 64 (f s + cnt p evs)) run_counters.
Proof.
  intros Hs Hr. split.
  - pose proof shared_counter_steps as Hc. rewrite !Forall_forall in *. intros [[[f g] r] p] Hin.
    destruct (Hc _ Hin) as [Hf _]. apply count_one_counter; [exact Hf|]. apply (Hs _ Hin).
  - pose proof run_counter_steps as Hc. rewrite !Forall_forall in *. intros [f p] Hin.
    apply count_one_counter; [apply (Hc _ Hin)|]. apply (Hr _ Hin).
Qed.
Lemma count_pb evs : Forall (λ '(_, g, _, p), g (foldl pb_event per_block_default evs) = wrap 64 (cnt p evs)) shared_counters.
Proof.
  pose proof shared_counter_steps as Hc. rewrite !Forall_forall in *. intros [[[f g] r] p] Hin. destruct (Hc _ Hin) as [_ Hg].
  assert (H0 : g per_block_default = 0).
  { revert g Hin Hg. clear. intros g Hin _. revert Hin. unfold shared_counters. rewrite !elem_of_cons, elem_of_nil. naive_solver. }
  rewrite (count_one_counter pb_event g p evs Hg), H0; [done|]. rewrite H0. done.
Qed.
(** The measurement leaves the counters alone. *)
Lemma sorted_setters_frame s ids ids' : let s' := s {{ st_sorted_spent_ids := ids; st_sorted_p2tr_spent_ids := ids' }} in
  Forall (λ '(f, _, _, _), f s' = f s) shared_counters ∧ Forall (λ '(f, _), f s' = f s) run_counters ∧
  st_script_outputs s' = st_script_outputs s ∧ st_script_inputs s' = st_script_inputs s.
Proof.
  destruct s. cbv zeta. split; [repeat (apply List.Forall_cons; [reflexivity|]); apply List.Forall_nil|].
  split; [repeat (apply List.Forall_cons; [reflexivity|]); apply List.Forall_nil|done].
Qed.
Lemma missing_count evs : ∀ m, in_width 64 m → foldl (λ m e, if is_missing e then inc m else m) m evs = wrap 64 (m + cnt is_missing evs).
Proof. intros m Hm. exact (count_one_counter (λ m e, if is_missing e then inc m else m) (λ m, m) is_missing evs (λ _ _, eq_refl) m Hm). Qed.

Lemma row_counts row evs : Forall (λ '(_, g, r, _), r row = g (foldl pb_event per_block_default evs)) (take 12 shared_counters) →
  row_output_count row = wrap 64 (cnt is_output evs) → Forall (λ '(_, _, r, p), r row = wrap 64 (cnt p evs)) shared_counters.
Proof.
  intros R7 R6. pose proof (count_pb evs) as Cp. rewrite Forall_forall in *. intros [[[f g] r] q] Hin. specialize (Cp _ Hin). cbn beta iota in Cp.
  change shared_counters with (take 12 shared_counters ++ [(st_outputs, pb_output_count, row_output_count, is_output)]) in Hin.
  apply elem_of_app in Hin as [Hin|Hin]; [rewrite (R7 _ Hin); exact Cp|].
  apply list_elem_of_singleton in Hin. by injection Hin as -> -> -> ->.
Qed.
Lemma counted_stats st0 st s evs ids ids' : stats s = foldl stats_event (stats st0) evs → scanner_ok st0 →
  stats st = (stats s) {{ st_sorted_spent_ids := ids; st_sorted_p2tr_spent_ids := ids' }} →
  Forall (λ '(f, _, _, p), f (stats st) = wrap 64 (f (stats st0) + cnt p evs)) shared_counters ∧
  Forall (λ '(f, p), f (stats st) = wrap 64 (f (stats st0) + cnt p evs)) run_counters ∧
  st_script_outputs (stats st) = foldl record (st_script_outputs (stats st0)) (output_types evs) ∧
  st_script_inputs (stats st) = foldl record (st_script_inputs (stats st0)) (spend_types evs).
Proof.
  intros F1 [_ Hs Hr _] B5. destruct (count_stats evs (stats st0) Hs Hr) as [Cs Cr]. rewrite <-F1 in Cs, Cr.
  destruct (sorted_setters_frame (stats s) ids ids') as (S1 & S2 & S3 & S4). rewrite <-B5 in S1, S2, S3, S4.
  destruct (stats_types (stats st0) evs) as [T1 T2]. split; [|split; [|split; [by rewrite S3, F1|by rewrite S4, F1]]].
  - rewrite Forall_forall in *. intros [[[f g] r] q] Hin. rewrite (S1 _ Hin). apply (Cs _ Hin).
  - rewrite Forall_forall in *. intros [f q] Hin. rewrite (S2 _ Hin). apply (Cr _ Hin).
Qed.
Lemma measured_ids evs p anchor (st : Stats) : p = foldl pb_event per_block_default evs → NoDup (spent_ids evs) →
  (∀ u, u ∈ spent_ids evs → u ≤ anchor) → pb_spent_uids p = spent_ids evs ∧ pb_p2tr_spent_uids p = p2tr_spent_ids evs ∧
  (∃ ids all, measure_sorted_uid_stream (spent_ids evs) anchor (st_sorted_spent_ids st) = Ok (ids, all)) ∧
  (∃ ids p2tr, measure_sorted_uid_stream (p2tr_spent_ids evs) anchor (st_sorted_p2tr_spent_ids st) = Ok (ids, p2tr)).
Proof.
  intros -> Hnd Hle. destruct (pb_uids per_block_default evs) as [Hu Hpu]. split; [done|]. split; [done|]. split; [by apply measure_known|].
  apply measure_known; [eapply sublist_NoDup; [exact Hnd|apply p2tr_sublist]|].
  intros u Hin. apply Hle. eapply elem_of_sublist; [exact Hin|apply p2tr_sublist].
Qed.

(** The commit of a block implements the ledger.  From a well-formed state, any
    prepared block whose outputs fit the 60 bits of an id is committed without a panic
    into a well-formed state; the coins, their numbers and the known keys are those of
    the ledger; every counter of the run grows by the number of the events it counts,
    and the row holds those numbers, the types, the measured ids and the rolling hash. *)
Lemma commit_block_spec (w : Z) (state : StatsScannerState) (frame : PreparedBlockFrame) (Hok : scanner_ok state)
  (Hfit : last_id state + block_outputs (pf_txs frame) < 2 ^ 60) :
  let '(after, evs) := ledger_block (ledger_of state) (pf_txs frame) in
  let '(uh, hex) := hash_block (utxo_hash state) (hash_events evs) in
  ∃ state' row, commit_block w state frame = Ok (state', row) ∧ scanner_ok state' ∧ ledger_of state' = after ∧
    Forall (λ '(f, _, _, p), f (stats state') = wrap 64 (f (stats state) + cnt p evs)) shared_counters ∧
    Forall (λ '(f, p), f (stats state') = wrap 64 (f (stats state) + cnt p evs)) run_counters ∧
    st_script_outputs (stats state') = foldl record (st_script_outputs (stats state)) (output_types evs) ∧
    st_script_inputs (stats state') = foldl record (st_script_inputs (stats state)) (spend_types evs) ∧
    missing state' = wrap 64 (missing state + cnt is_missing evs) ∧ utxo_hash state' = uh ∧
    row_spec w frame (ledger_of state) after evs hex row ∧ refresh_classes row = row.
Proof.
  pose proof Hok as [Hl Hs Hr Hm]. pose proof (lk_last _ Hl) as H0. cbn in H0.
  destruct (commit_txs_spec (last_id state) (pf_txs frame) state per_block_default [] H0 Hfit) as (evs & s & p & E1 & E2 & (F1 & F2 & F3 & F4 & F5) & L).
  pose proof (ledger_block_ok (ledger_of state) (pf_txs frame) Hl) as Hb.
  unfold ledger_block in *. change (lg_last (ledger_of state)) with (last_id state) in *. rewrite E2 in *. cbn [app fst snd] in *.
  destruct Hb as [Hl' Hnd Hgone]. destruct (hash_block (utxo_hash state) (hash_events evs)) as [uh hex] eqn:Eh.
  destruct (measured_ids evs p (last_id s) (stats s) F2 Hnd ltac:(intros u Hin; apply (Hgone u Hin)))
    as (Hu & Hpu & (ids & all & M1) & (ids' & p2tr & M2)).
  destruct (build_row_spec w frame (last_id state) s p ids all ids' p2tr ltac:(by rewrite Hu) ltac:(by rewrite Hpu)) as
    (state' & row & EB & B1 & B2 & B3 & B4 & B5 & B6 & R1 & R2 & R3 & R4 & R5 & R6 & R7 & R8 & R9 & R10 & R11 & R12).
  exists state', row. split; [unfold commit_block; rewrite E1; exact EB|].
  assert (Hled : ledger_of state' = ledger_of s) by (unfold ledger_of; by rewrite B1, B2, B3).
  destruct (counted_stats state state' s evs ids ids' F1 Hok B5) as (Cs & Cr & T1 & T2).
  rewrite missing_count in F4 by done. rewrite <-B4 in F4.
  assert (Huh : (utxo_hash state', row_utxo_hash row) = (uh, hex)) by (rewrite B6, F3; exact Eh). injection Huh as Huh Hhex.
  destruct (pb_types per_block_default evs) as [T3 T4]. rewrite <-F2 in T3, T4.
  split; [split|repeat (split; [done|]); split; [|done]].
  - by rewrite Hled.
  - rewrite Forall_forall in *. intros [[[f g] r] q] Hin. rewrite (Cs _ Hin). by apply wrap_width.
  - rewrite Forall_forall in *. intros [f q] Hin. rewrite (Cr _ Hin). by apply wrap_width.
  - rewrite F4. by apply wrap_width.
  - unfold row_spec. cbn [lg_last ledger_of]. repeat (split; [done|]). split.
    { apply row_counts; [by rewrite <-F2|]. rewrite R6, F5. f_equal. lia. }
    split; [by rewrite R8|]. split; [by rewrite R9|]. split; [done|]. split; [done|].
    split; [by exists (st_sorted_spent_ids (stats s)), ids, all|by exists (st_sorted_p2tr_spent_ids (stats s)), ids', p2tr].
Qed.
End refinement.

(** ** A sequence of blocks *)
Section blocks.
Context `{SH : !Sha256, HX : !Hex}.

(** The commits of the loop over the frames, without the sink and the checkpoints. *)
Fixpoint commit_blocks (w : Z) (state : StatsScannerState) (frames : list PreparedBlockFrame) : res (StatsScannerState * list BlockStats) :=
  match frames with
  | [] => Ok (state, [])
  | frame :: frames =>
      '(state, row) ← commit_block w state frame;
      '(state, rows) ← commit_blocks w state frames;
      Ok (state, row :: rows)
  end.

Definition chain_outputs (frames : list PreparedBlockFrame) : Z := foldr Z.add 0 ((λ f, block_outputs (pf_txs f)) <$> frames).
Lemma chain_outputs_nonneg frames : 0 ≤ chain_outputs frames.
Proof.
  unfold chain_outputs. induction frames as [|f frames IH]; [done|]. cbn [fmap list_fmap foldr].
  pose proof (block_outputs_nonneg (pf_txs f)). lia.
Qed.

(** The ledger after some blocks, and what their rows hold. *)
Definition ledger_blocks (l : Ledger) (frames : list PreparedBlockFrame) : Ledger :=
  foldl (λ l frame, (ledger_block l (pf_txs frame)).1) l frames.
Fixpoint rows_spec (w : Z) (l : Ledger) (uh : RollingUtxoHash) (frames : list PreparedBlockFrame) (rows : list BlockStats) : Prop :=
  match frames, rows with
  | [], [] => True
  | frame :: frames, row :: rows =>
      let '(after, evs) := ledger_block l (pf_txs frame) in
      let '(uh', hex) := hash_block uh (hash_events evs) in
      row_spec w frame l after evs hex row ∧ refresh_classes row = row ∧ rows_spec w after uh' frames rows
  | _, _ => False
  end.
Definition sum_rows (r : BlockStats → Z) (rows : list BlockStats) : Z := foldr Z.add 0 (r <$> rows).

Lemma ledger_block_last state frame : 0 ≤ last_id state → last_id state + block_outputs (pf_txs frame) < 2 ^ 60 →
  lg_last (ledger_block (ledger_of state) (pf_txs frame)).1 = last_id state + block_outputs (pf_txs frame).
Proof.
  intros H0 Hl. destruct (commit_txs_spec (last_id state) (pf_txs frame) state per_block_default [] H0 Hl) as (evs & s & p & _ & E & _ & L).
  unfold ledger_block. change (lg_last (ledger_of state)) with (last_id state). by rewrite E.
Qed.

Lemma commit_blocks_spec w frames : ∀ state, scanner_ok state → last_id state + chain_outputs frames < 2 ^ 60 →
  ∃ state' rows, commit_blocks w state frames = Ok (state', rows) ∧ scanner_ok state' ∧
    last_id state' = last_id state + chain_outputs frames ∧
    ledger_of state' = ledger_blocks (ledger_of state) frames ∧ rows_spec w (ledger_of state) (utxo_hash state) frames rows ∧
    Forall (λ '(f, _, r, _), f (stats state') = wrap 64 (f (stats state) + sum_rows r rows)) shared_counters.
Proof.
  induction frames as [|frame frames IH]; intros state Hok Hl.
  { exists state, []. split; [done|]. split; [done|]. split; [cbn; lia|]. split; [done|]. split; [done|].
    destruct Hok as [_ Hs _ _]. rewrite Forall_forall in *. intros [[[f g] r] q] Hin. cbn. rewrite Z.add_0_r. symmetry. apply wrap_small. apply (Hs _ Hin). }
  unfold chain_outputs in Hl. cbn [fmap list_fmap foldr] in Hl. fold (chain_outputs frames) in Hl. pose proof (chain_outputs_nonneg frames).
  pose proof (lk_last _ (so_ledger _ Hok)) as H0. cbn in H0.
  pose proof (commit_block_spec w state frame Hok ltac:(lia)) as Hc. pose proof (ledger_block_last state frame H0 ltac:(lia)) as Hlast.
  cbn [rows_spec ledger_blocks foldl]. destruct (ledger_block (ledger_of state) (pf_txs frame)) as [after evs].
  destruct (hash_block (utxo_hash state) (hash_events evs)) as [uh hex].
  destruct Hc as (s1 & row & E1 & Ok1 & L1 & C1 & _ & _ & _ & _ & U1 & R1 & R2). cbn [fst] in *.
  assert (HL : last_id s1 = last_id state + block_outputs (pf_txs frame)) by (rewrite <-Hlast, <-L1; done).
  destruct (IH s1 Ok1) as (s2 & rows & E2 & Ok2 & N2 & L2 & R3 & C2); [lia|].
  exists s2, (row :: rows). cbn [commit_blocks]. rewrite E1. rsimpl. rewrite E2. rsimpl. split; [done|]. split; [done|].
  split; [unfold chain_outputs; cbn [fmap list_fmap foldr]; fold (chain_outputs frames); lia|].
  rewrite L2, L1. split; [done|]. rewrite L1, U1 in R3. split; [done|].
  destruct R1 as (_ & _ & _ & _ & Rc & _). rewrite Forall_forall in *. intros [[[f g] r] q] Hin.
  specialize (C1 _ Hin). specialize (C2 _ Hin). specialize (Rc _ Hin). cbn beta iota in *. rewrite C2, C1.
  unfold sum_rows. cbn [fmap list_fmap foldr]. rewrite Rc, wrap_plus_l. unfold wrap.
  rewrite (Z.add_comm (_ mod _)), Z.add_assoc, <-(Z.add_comm (_ mod _)), (Zplus_mod_idemp_l). f_equal. lia.
Qed.

(** C9: the scanner implements the ledger, whatever the blocks.  From a well-formed state,
    any blocks whose outputs fit the 60 bits of an id are committed without a panic; the
    coins, their numbers and the known keys are those of the ledger; each row counts the
    events of its block; and the totals of the run grow by the sums of the rows. *)
Theorem commit_blocks_refine (w : Z) (state : StatsScannerState) (frames : list PreparedBlockFrame) (Hok : scanner_ok state)
  (Hfit : last_id state + chain_outputs frames < 2 ^ 60) :
  ∃ state' rows, commit_blocks w state frames = Ok (state', rows) ∧ scanner_ok state' ∧
    ledger_of state' = ledger_blocks (ledger_of state) frames ∧ rows_spec w (ledger_of state) (utxo_hash state) frames rows ∧
    Forall (λ '(f, _, r, _), f (stats state') = wrap 64 (f (stats state) + sum_rows r rows)) shared_counters.
Proof.
  destruct (commit_blocks_spec w frames state Hok Hfit) as (state' & rows & E & Ok' & _ & L & R & C). by exists state', rows.
Qed.
End blocks.

(** ** Prepared blocks *)
Section prepared.
Context `{RB : !RustBitcoin, ST : !ScriptTemplates}.
#[local] Existing Instance stats_decode.

(** A P2TR output has its key, and no other output has one. *)
Lemma prepare_output_key out : match prepare_output out with
  | (P2tr, Some k) => length k = 32%nat ∧ out_script_pubkey out = p2tr_bytes k | (P2tr, None) => False | (_, k) => k = None end.
Proof.
  unfold prepare_output. destruct (classify_script_type (out_script_pubkey out)) eqn:E; try done. rewrite bool_decide_true by done.
  assert (Hp : s_is_p2tr (out_script_pubkey out) = true) by (unfold classify_script_type in E; by repeat case_match).
  apply s_is_p2tr_spec in Hp as (k & Hk & Es). rewrite Es. unfold extract_xonly_script, p2tr_bytes. rewrite length_app, Hk. cbn.
  rewrite drop_0, take_ge by lia. done.
Qed.

(** The stateless preparation of a block never fails. *)
Lemma prepare_total frame : ∃ txs, prepare_decoded_block frame = Ok {| pf_height := df_height frame; pf_hash := df_hash frame; pf_txs := txs |} ∧
  Forall2 (λ tx p, pt_txid p = compute_txid tx ∧ pt_is_coinbase p = rb_is_coinbase tx ∧ n_outputs p = len (rb_output tx)) (rb_txdata (df_block frame)) txs.
Proof.
  assert (Hin : ∀ l, ∃ ins, map_res prepare_input l = Ok ins).
  { induction l as [|i l [ins IH]]; [by exists []|]. cbn [map_res].
    assert (∃ p, prepare_input i = Ok p) as [p ->].
    { unfold prepare_input. destruct (classify_total (in_witness i)) as [c ->]. rsimpl. by eexists. }
    rsimpl. rewrite IH. rsimpl. by eexists. }
  assert (Htx : ∀ tx, ∃ p, prepare_tx tx = Ok p ∧ pt_txid p = compute_txid tx ∧ pt_is_coinbase p = rb_is_coinbase tx ∧ n_outputs p = len (rb_output tx)).
  { intros tx. unfold prepare_tx. assert (∃ ins, (if rb_is_coinbase tx then Ok [] else map_res prepare_input (rb_input tx)) = Ok ins) as [ins ->].
    { destruct (rb_is_coinbase tx); [by exists []|apply Hin]. }
    rsimpl. eexists. split; [done|]. split; [done|]. split; [done|]. unfold n_outputs, tx_outputs. cbn.
    rewrite length_imap, length_zip_with, !length_fmap. lia. }
  unfold prepare_decoded_block. assert (∀ l, ∃ ps, map_res prepare_tx l = Ok ps ∧
    Forall2 (λ tx p, pt_txid p = compute_txid tx ∧ pt_is_coinbase p = rb_is_coinbase tx ∧ n_outputs p = len (rb_output tx)) l ps) as H.
  { induction l as [|tx l (ps & IH1 & IH2)]; [by exists []|]. destruct (Htx tx) as (p & E & Hp). cbn [map_res]. rewrite E. rsimpl.
    rewrite IH1. rsimpl. eexists. split; [done|]. by constructor. }
  destruct (H (rb_txdata (df_block frame))) as (ps & -> & Hps). rsimpl. by exists ps.
Qed.
End prepared.

(** A block that creates a P2TR coin, spends it with the NUMS key, and creates another. *)
Definition demo_class : SpendClass := {| path := ScriptNums; inscription := true |}.
Definition demo_frame : PreparedBlockFrame := {| pf_height := 7; pf_hash := replicate 32 1; pf_txs := [
  {| pt_txid := replicate 32 2; pt_is_coinbase := true; pt_inputs := []; pt_output_script_types := [P2tr; P2pkh];
     pt_output_xonly_keys := [Some (replicate 32 9); None] |};
  {| pt_txid := replicate 32 3; pt_is_coinbase := false;
     pt_inputs := [{| pi_previous_output := {| op_txid := replicate 32 2; op_vout := 0 |}; pi_p2tr_spend_class := demo_class |}];
     pt_output_script_types := [P2tr]; pt_output_xonly_keys := [Some (replicate 32 9)] |}] |}.
Definition demo_spender : PreparedBlockFrame := {| pf_height := 8; pf_hash := replicate 32 2; pf_txs := [
  {| pt_txid := replicate 32 4; pt_is_coinbase := false;
     pt_inputs := [{| pi_previous_output := {| op_txid := replicate 32 3; op_vout := 0 |}; pi_p2tr_spend_class := key_path |}];
     pt_output_script_types := [P2wpkh]; pt_output_xonly_keys := [None] |}] |}.
#[local] Definition demo_hex : Hex := {| hex_encode := λ bs, bs |}.
Lemma commit_blocks_refine_witness : ∃ state' rows,
  commit_blocks (SH := toy_sha256) (HX := demo_hex) 2 (scanner_new 2) [demo_frame; demo_spender] = Ok (state', rows) ∧ scanner_ok state' ∧
    ledger_of state' = ledger_blocks (ledger_of (scanner_new 2)) [demo_frame; demo_spender] ∧
    rows_spec (SH := toy_sha256) (HX := demo_hex) 2 (ledger_of (scanner_new 2)) (utxo_hash (scanner_new 2)) [demo_frame; demo_spender] rows ∧
    Forall (λ '(f, _, r, _), f (stats state') = wrap 64 (f (stats (scanner_new 2)) + sum_rows r rows)) shared_counters.
Proof. apply (@commit_blocks_refine toy_sha256 demo_hex 2 (scanner_new 2) [demo_frame; demo_spender] (scanner_new_ok 2)). vm_compute. reflexivity. Defined.
