(* ===== verification/Checkpoint.v ===== *)
(** * Checkpoints of the scanner

    Model of [stats/src/checkpoint.rs].  The state is the checkpoint directory, if it
    exists: its files by name.  Postcard is the parameter [Postcard] with its round
    trip; failures of the disk other than a missing file are not modelled, and file
    names are UTF-8.  A path orders as its name does: all lie in one directory. *)

From S2P Require Import Prelude Decimal Helper TaggedHash P2trIndexer SpTweak JsonWire Tasks LightIndexer LightIndexerFacts TaprootSpend ScriptType Histogram CodecCost UtxoHash BlockStats ScanBlock.

Definition CHECKPOINT_FORMAT_VERSION : Z := 1.
Record CheckpointConfig := { every : Z; keep : nat; cp_enabled : bool }.

(** ** When a checkpoint is due *)
Record CheckpointWriter := { cw_cfg : CheckpointConfig; processed_since_checkpoint : Z }.
Definition writer_new (cfg : CheckpointConfig) : CheckpointWriter := {| cw_cfg := cfg; processed_since_checkpoint := 0 |}.
Definition writer_enabled (self : CheckpointWriter) : bool := cp_enabled (cw_cfg self) && bool_decide (0 < every (cw_cfg self)).
Definition on_committed_block (self : CheckpointWriter) : CheckpointWriter * bool :=
  if negb (writer_enabled self) then (self, false)
  else
    let processed := wrap 64 (processed_since_checkpoint self + 1) in
    if bool_decide (every (cw_cfg self) ≤ processed) then ({| cw_cfg := cw_cfg self; processed_since_checkpoint := 0 |}, true)
    else ({| cw_cfg := cw_cfg self; processed_since_checkpoint := processed |}, false).
Definition needs_final_flush (self : CheckpointWriter) : bool :=
  writer_enabled self && bool_decide (0 < processed_since_checkpoint self).

Record StatsCheckpoint := {
  cp_format_version : Z; cp_stats_state_version : Z; cp_start_height : Z; cp_next_height : Z; cp_height : Z;
  cp_block_hash : bytes; cp_utxo_hash_window : Z; cp_finality_depth : Z; cp_scanner_state : StatsScannerState
}.
Class Postcard := {
  to_allocvec : StatsCheckpoint → bytes;
  from_postcard : bytes → res StatsCheckpoint;
  from_to_postcard c : from_postcard (to_allocvec c) = Ok c
}.

(** ** The directory *)
Abbreviation CheckpointDir := (option (gmap bytes bytes)).

Definition starts_with (prefix name : bytes) : bool := bool_decide (take (length prefix) name = prefix).
Definition ends_with (suffix name : bytes) : bool :=
  bool_decide (length suffix ≤ length name)%nat && bool_decide (drop (length name - length suffix) name = suffix).
Definition is_checkpoint_name (name : bytes) : bool :=
  starts_with (ascii_bytes "checkpoint-") name && ends_with (ascii_bytes ".postcard") name.

Section checkpoint.
Context `{HX : !Hex, PC : !Postcard}.

Definition checkpoint_path (height : Z) (hash : bytes) : bytes :=
  ascii_bytes "checkpoint-" ++ to_decimal_padded 12 height ++ ascii_bytes "-" ++ block_hash_hex hash ++ ascii_bytes ".postcard".
(** [path.with_extension("postcard.tmp")]. *)
Definition tmp_checkpoint_path (height : Z) (hash : bytes) : bytes := checkpoint_path height hash ++ ascii_bytes ".tmp".

Definition save_checkpoint (dir : CheckpointDir) (checkpoint : StatsCheckpoint) : CheckpointDir :=
  let files := default ∅ dir in
  let path := checkpoint_path (cp_height checkpoint) (cp_block_hash checkpoint) in
  let tmp := tmp_checkpoint_path (cp_height checkpoint) (cp_block_hash checkpoint) in
  let bs := to_allocvec checkpoint in
  Some (<[path := bs]> (delete tmp (<[tmp := bs]> files))).

Definition load_checkpoint (dir : CheckpointDir) (path : bytes) : res StatsCheckpoint :=
  bs ← ok_or (default ∅ dir !! path) "No such file or directory";
  from_postcard bs.

Definition list_checkpoints_newest_first (dir : CheckpointDir) : list bytes :=
  match dir with
  | None => []
  | Some files => reverse (sort_by lex_le (filter (λ name, is_checkpoint_name name = true) (map_to_list files).*1))
  end.

Definition prune_checkpoints (dir : CheckpointDir) (keep : nat) : CheckpointDir :=
  if bool_decide (keep = 0)%nat then dir
  else
    let checkpoints := list_checkpoints_newest_first dir in
    if bool_decide (length checkpoints ≤ keep)%nat then dir
    else
      let remove_count := (length checkpoints - keep)%nat in
      (λ files, foldl (λ files p, delete p files) files (take remove_count (reverse checkpoints))) <$> dir.

Definition write_checkpoint (self : CheckpointWriter) (dir : CheckpointDir) (checkpoint : StatsCheckpoint) : CheckpointDir :=
  if negb (writer_enabled self) then dir
  else prune_checkpoints (save_checkpoint dir checkpoint) (keep (cw_cfg self)).
End checkpoint.

(** ** Heights in names *)

Lemma digits_length k : ∀ fuel n, (1 ≤ k ≤ fuel)%nat → 0 ≤ n < 10 ^ Z.of_nat k → (1 ≤ length (digits fuel n) ≤ k)%nat.
Proof.
  induction k as [|k IH]; intros fuel n Hk Hn; [lia|]. destruct fuel as [|fuel]; [lia|]. cbn [digits].
  case_bool_decide as Hd; [cbn; lia|]. rewrite Nat2Z.inj_succ, Z.pow_succ_r in Hn by lia. rewrite length_app. cbn [length].
  destruct k as [|k]; [change (10 ^ Z.of_nat 0) with 1 in Hn; lia|].
  specialize (IH fuel (n / 10) ltac:(lia)). lia.
Qed.
Lemma padded_spec k n : (1 ≤ k ≤ 20)%nat → 0 ≤ n < 10 ^ Z.of_nat k →
  ∃ l, to_decimal_padded k n = (λ d, 48 + d) <$> l ∧ length l = k ∧ Forall (λ d, 0 ≤ d < 10) l ∧ value 0 l = n.
Proof.
  intros Hk Hn. rewrite padded_digits. eexists. split; [done|]. pose proof (digits_length k 20 n Hk Hn).
  destruct (digits_spec 20 n) as (Hf & Hv & _).
  { assert (10 ^ Z.of_nat k ≤ 10 ^ Z.of_nat 20) by (apply Z.pow_le_mono_r; lia). lia. }
  split; [rewrite length_app, length_replicate; lia|]. split; [|by rewrite value_zeros].
  apply Forall_app. split; [apply Forall_replicate; lia|done].
Qed.
Lemma value_mono l : ∀ k a b s t, length l = length k → Forall (λ d, 0 ≤ d < 10) l → Forall (λ d, 0 ≤ d < 10) k →
  0 ≤ a → 0 ≤ b → (a < b ∨ a = b ∧ lex_le (((λ d, 48 + d) <$> l) ++ s) (((λ d, 48 + d) <$> k) ++ t) = true) → value a l ≤ value b k.
Proof.
  induction l as [|x l IH]; intros [|y k] a b s t Hlen Hl Hk Ha Hb H; try done; [cbn; lia|].
  apply Forall_cons in Hl as [Hx Hl]. apply Forall_cons in Hk as [Hy Hk]. injection Hlen as Hlen.
  change (value a (x :: l)) with (value (a * 10 + x) l). change (value b (y :: k)) with (value (b * 10 + y) k).
  apply (IH k _ _ s t); try done; [lia|lia|]. destruct H as [H|[-> H]]; [left; lia|].
  rewrite !fmap_cons, <-!app_comm_cons, lex_le_cons in H. destruct H as [H|[H H']]; [left; lia|right; split; [lia|done]].
Qed.
Lemma lex_le_app_same p a b : lex_le (p ++ a) (p ++ b) = lex_le a b.
Proof.
  induction p as [|x p IH]; [done|]. rewrite <-!app_comm_cons. cbn [lex_le]. rewrite (bool_decide_false (x < x)), (bool_decide_true (x = x)) by lia. done.
Qed.

Section facts.
Context `{HX : !Hex, PC : !Postcard}.

(** Names order as heights do. *)
Lemma checkpoint_path_order h1 x1 h2 x2 : 0 ≤ h1 < 10 ^ 12 → 0 ≤ h2 < 10 ^ 12 →
  lex_le (checkpoint_path h1 x1) (checkpoint_path h2 x2) = true → h1 ≤ h2.
Proof.
  intros H1 H2. unfold checkpoint_path. rewrite lex_le_app_same.
  destruct (padded_spec 12 h1) as (l1 & -> & L1 & F1 & <-); [lia|done|]. destruct (padded_spec 12 h2) as (l2 & -> & L2 & F2 & <-); [lia|done|].
  intros H. eapply value_mono; [congruence|done|done|lia|lia|]. right. split; [done|exact H].
Qed.

Definition after_eq (a b : bytes) : Prop := lex_le b a = true.
#[local] Instance after_trans : Transitive after_eq.
Proof. intros a b c H1 H2. unfold after_eq in *. by eapply lex_le_trans. Qed.
#[local] Instance after_anti : AntiSymm (=) after_eq.
Proof. intros a b H1 H2. by apply lex_le_antisym. Qed.

Lemma insert_lex_sorted x l : StronglySorted (λ a b, lex_le a b = true) l → StronglySorted (λ a b, lex_le a b = true) (insert_by lex_le x l).
Proof.
  induction l as [|y l IH]; intros Hs; cbn [insert_by]; [repeat constructor|]. apply StronglySorted_inv in Hs as [Hs Hy].
  destruct (lex_le x y) eqn:E.
  - constructor; [by constructor|]. constructor; [done|]. eapply Forall_impl; [exact Hy|]. intros z Hz. by eapply lex_le_trans.
  - constructor; [by apply IH|]. rewrite insert_by_perm. constructor; [|done]. destruct (lex_le_total x y); [congruence|done].
Qed.
Lemma sort_lex_sorted l : StronglySorted (λ a b, lex_le a b = true) (sort_by lex_le l).
Proof. induction l; [constructor|]. by apply insert_lex_sorted. Qed.
Lemma reverse_sorted l : StronglySorted (λ a b, lex_le a b = true) l → StronglySorted after_eq (reverse l).
Proof.
  induction 1 as [|x l Hs IH Hx]; [constructor|]. rewrite reverse_cons. apply StronglySorted_app_2; [|done|repeat constructor].
  intros a b Ha ->%list_elem_of_singleton. rewrite elem_of_reverse in Ha. rewrite Forall_forall in Hx. exact (Hx a Ha).
Qed.

Lemma list_spec dir : StronglySorted after_eq (list_checkpoints_newest_first dir) ∧ NoDup (list_checkpoints_newest_first dir) ∧
  ∀ name, name ∈ list_checkpoints_newest_first dir ↔ is_checkpoint_name name = true ∧ is_Some (default ∅ dir !! name).
Proof.
  destruct dir as [files|]; cbn [list_checkpoints_newest_first default].
  - split; [apply reverse_sorted, sort_lex_sorted|]. split.
    + rewrite (reverse_Permutation (sort_by _ _)), sort_by_perm. apply NoDup_filter, NoDup_fst_map_to_list.
    + intros name. rewrite elem_of_reverse, (sort_by_perm lex_le), list_elem_of_filter, list_elem_of_fmap. f_equiv. split.
      * intros ([k v] & -> & Hin). apply elem_of_map_to_list in Hin. by exists v.
      * intros [v Hv]. exists (name, v). split; [done|]. by apply elem_of_map_to_list.
  - split; [constructor|]. split; [constructor|]. intros name. rewrite elem_of_nil, lookup_empty. by split; [|intros [_ [? ?]]].
Qed.
(** A sorted list of the names is the list. *)
Lemma list_unique dir l : StronglySorted after_eq l → NoDup l →
  (∀ name, name ∈ l ↔ is_checkpoint_name name = true ∧ is_Some (default ∅ dir !! name)) → list_checkpoints_newest_first dir = l.
Proof.
  intros Hs Hn Hl. destruct (list_spec dir) as (Hs' & Hn' & Hl'). apply (StronglySorted_unique after_eq); [done|done|].
  apply NoDup_Permutation; [done|done|]. intros name. by rewrite Hl, Hl'.
Qed.

Lemma checkpoint_path_name h x : is_checkpoint_name (checkpoint_path h x) = true.
Proof.
  unfold is_checkpoint_name, starts_with, ends_with, checkpoint_path. rewrite take_app_length, bool_decide_true by done.
  set (p := ascii_bytes ".postcard"). rewrite !app_assoc. set (q := _ ++ block_hash_hex x).
  rewrite length_app, !bool_decide_true; [done| |lia]. apply drop_app_exact. lia.
Qed.
Lemma tmp_path_name h x : is_checkpoint_name (tmp_checkpoint_path h x) = false.
Proof.
  unfold is_checkpoint_name, tmp_checkpoint_path. apply andb_false_intro2. unfold ends_with. apply andb_false_intro2.
  apply bool_decide_eq_false_2. unfold checkpoint_path. rewrite !app_assoc. set (q := _ ++ block_hash_hex x). clearbody q.
  rewrite length_app. change (length (ascii_bytes ".tmp")) with 4%nat. rewrite length_app. change (length (ascii_bytes ".postcard")) with 9%nat.
  rewrite <-app_assoc. replace (length q + 9 + 4 - 9)%nat with (length q + 4)%nat by lia.
  rewrite <-drop_drop, drop_app_length. by intros ?.
Qed.

Lemma save_names dir c : let path := checkpoint_path (cp_height c) (cp_block_hash c) in
  (∀ name, name ∈ list_checkpoints_newest_first (save_checkpoint dir c) ↔ name = path ∨ name ∈ list_checkpoints_newest_first dir) ∧
  load_checkpoint (save_checkpoint dir c) path = Ok c ∧
  ∀ name, is_checkpoint_name name = true → name ≠ path → load_checkpoint (save_checkpoint dir c) name = load_checkpoint dir name.
Proof.
  intros path. set (tmp := tmp_checkpoint_path (cp_height c) (cp_block_hash c)).
  assert (Hat : ∀ name, is_checkpoint_name name = true → default ∅ (save_checkpoint dir c) !! name = if bool_decide (name = path) then Some (to_allocvec c) else default ∅ dir !! name).
  { intros name Hname. unfold save_checkpoint. fold path tmp. cbn [default from_option id]. case_bool_decide as E; [by rewrite E, lookup_insert_eq|].
    rewrite lookup_insert_ne by done. assert (tmp ≠ name) by (intros <-; pose proof (tmp_path_name (cp_height c) (cp_block_hash c)); unfold tmp in *; congruence).
    by rewrite lookup_delete_ne, lookup_insert_ne. }
  split; [|split].
  - intros name. destruct (list_spec (save_checkpoint dir c)) as (_ & _ & ->). destruct (list_spec dir) as (_ & _ & ->). split.
    + intros [Hn Hs]. rewrite Hat in Hs by done. case_bool_decide; [by left|by right].
    + intros [->|[Hn Hs]]; (split; [by try apply checkpoint_path_name|]); rewrite Hat by (try done; apply checkpoint_path_name); case_bool_decide; done.
  - unfold load_checkpoint. rewrite Hat by apply checkpoint_path_name. rewrite bool_decide_true by done. rsimpl. apply from_to_postcard.
  - intros name Hn Hne. unfold load_checkpoint. rewrite Hat by done. by rewrite bool_decide_false.
Qed.

Lemma fold_delete_lookup (ps : list bytes) : ∀ (files : gmap bytes bytes) name,
  foldl (λ files p, delete p files) files ps !! name = if bool_decide (name ∈ ps) then None else files !! name.
Proof.
  induction ps as [|p ps IH]; intros files name; [by rewrite bool_decide_false by apply not_elem_of_nil|]. cbn [foldl]. rewrite IH.
  destruct (decide (name ∈ ps)) as [Hin|Hin].
  - by rewrite !bool_decide_true by (try done; by right).
  - rewrite (bool_decide_false (name ∈ ps)) by done. destruct (decide (name = p)) as [->|Hne].
    + rewrite bool_decide_true by left. by rewrite lookup_delete_eq.
    + rewrite bool_decide_false by (by intros [?|?]%elem_of_cons). by rewrite lookup_delete_ne.
Qed.

(** Pruning keeps a prefix of the list, and its files. *)
Lemma prune_list dir k : k ≠ 0%nat → let l := list_checkpoints_newest_first dir in
  list_checkpoints_newest_first (prune_checkpoints dir k) = take k l ∧
  ∀ name, name ∈ take k l → load_checkpoint (prune_checkpoints dir k) name = load_checkpoint dir name.
Proof.
  intros Hk l. destruct (list_spec dir) as (Hs & Hn & Hl). fold l in Hs, Hn, Hl. unfold prune_checkpoints. rewrite bool_decide_false by done. fold l.
  destruct (decide (length l ≤ k)%nat) as [Hle|Hle].
  { rewrite bool_decide_true by done. by rewrite take_ge by done. }
  rewrite bool_decide_false by done.
  assert (Hrem : take (length l - k) (reverse l) = reverse (drop k l)).
  { rewrite <-(take_drop k l) at 2. rewrite reverse_app. apply take_app_exact. rewrite length_reverse, length_drop. lia. }
  rewrite Hrem. assert (Hd : ∀ name, name ∈ take k l ↔ name ∈ l ∧ name ∉ reverse (drop k l)).
  { intros name. rewrite elem_of_reverse. rewrite <-(take_drop k l) in Hn. apply NoDup_app in Hn as (_ & Hn & _). split.
    - intros Hin. split; [by eapply elem_of_prefix, prefix_take|by apply Hn].
    - intros [Hin Hnot]. rewrite <-(take_drop k l) in Hin. apply elem_of_app in Hin as [?|?]; done. }
  assert (Hat : ∀ name, default ∅ ((λ files, foldl (λ files p, delete p files) files (reverse (drop k l))) <$> dir) !! name =
    if bool_decide (name ∈ reverse (drop k l)) then None else default ∅ dir !! name).
  { intros name. destruct dir as [files|]; cbn [fmap option_fmap option_map default from_option id]; [by rewrite fold_delete_lookup|].
    rewrite lookup_empty. by case_bool_decide. }
  split.
  - apply list_unique.
    + rewrite <-(take_drop k l) in Hs. by apply StronglySorted_app_1_l in Hs.
    + rewrite <-(take_drop k l) in Hn. by apply NoDup_app in Hn as (? & _).
    + intros name. rewrite Hd, Hl, Hat. case_bool_decide as E; [|tauto]. split; [by intros [_ ?]|intros [_ [? Hx]]; discriminate Hx].
  - intros name [_ Hin]%Hd. unfold load_checkpoint. rewrite Hat. by rewrite bool_decide_false.
Qed.

(** C38: the checkpoints on disk.  Writing a checkpoint adds it and keeps the newest: the
    list is the first [keep] of the names there were and the new one, in descending
    order; the files kept load as before and the new one, if kept, as what was written;
    and names in descending order have descending heights. *)
Theorem write_checkpoint_keeps_newest (writer : CheckpointWriter) (dir : CheckpointDir) (c : StatsCheckpoint)
  (Hen : writer_enabled writer = true) (Hk : keep (cw_cfg writer) ≠ 0%nat) :
  let path := checkpoint_path (cp_height c) (cp_block_hash c) in let dir' := write_checkpoint writer dir c in
  ∃ l, StronglySorted (λ a b, lex_le b a = true) l ∧ NoDup l ∧
    (∀ name, name ∈ l ↔ name = path ∨ name ∈ list_checkpoints_newest_first dir) ∧
    list_checkpoints_newest_first dir' = take (keep (cw_cfg writer)) l ∧
    (∀ name, name ∈ list_checkpoints_newest_first dir' → load_checkpoint dir' name = if bool_decide (name = path) then Ok c else load_checkpoint dir name) ∧
    ∀ h1 x1 h2 x2, 0 ≤ h1 < 10 ^ 12 → 0 ≤ h2 < 10 ^ 12 → lex_le (checkpoint_path h1 x1) (checkpoint_path h2 x2) = true → h1 ≤ h2.
Proof.
  intros path dir'. unfold dir', write_checkpoint. rewrite Hen. cbn [negb].
  destruct (save_names dir c) as (Hnames & Hnew & Hold). destruct (list_spec (save_checkpoint dir c)) as (Hs & Hn & Hl).
  destruct (prune_list (save_checkpoint dir c) (keep (cw_cfg writer)) Hk) as (Hp & Hload).
  exists (list_checkpoints_newest_first (save_checkpoint dir c)). split; [exact Hs|]. split; [done|]. split; [done|]. split; [done|].
  split; [|exact checkpoint_path_order]. intros name. rewrite Hp. intros Hin. rewrite Hload by done.
  assert (Hin' : name ∈ list_checkpoints_newest_first (save_checkpoint dir c)) by (by eapply elem_of_prefix, prefix_take).
  apply Hl in Hin' as [Hname _].
  case_bool_decide as E; [by rewrite E|by apply Hold].
Qed.
End facts.

(** ** A concrete Postcard *)

(** A type is countable when its values are tuples of countable ones. *)
Definition eq_dec_by {A B} `{!EqDecision B} (f : A → B) (g : B → A) (H : ∀ x, g (f x) = x) : EqDecision A.
Proof. intros x y. destruct (decide (f x = f y)) as [E|E]; [left; by rewrite <-(H x), <-(H y), E|right; by intros ->]. Defined.
Definition TypeCounts_tuple (c : TypeCounts) := (c_p2pk c, c_p2pkh c, c_p2sh c, c_p2wpkh c, c_p2wsh c, c_p2tr c, c_p2a c, c_op_return c, c_unknown c).
Definition TypeCounts_of '(x0, x1, x2, x3, x4, x5, x6, x7, x8) : TypeCounts := Build_TypeCounts x0 x1 x2 x3 x4 x5 x6 x7 x8.
Lemma TypeCounts_tuple_of c : TypeCounts_of (TypeCounts_tuple c) = c.
Proof. by destruct c. Qed.
#[export] Instance TypeCounts_eq_dec : EqDecision TypeCounts := eq_dec_by _ _ TypeCounts_tuple_of.
#[export] Instance TypeCounts_countable : Countable TypeCounts := inj_countable' _ _ TypeCounts_tuple_of.
Definition Log2Hist_tuple (c : Log2Hist) := (zeros c, buckets c, hist_sum c, hist_max c).
Definition Log2Hist_of '(x0, x1, x2, x3) : Log2Hist := Build_Log2Hist x0 x1 x2 x3.
Lemma Log2Hist_tuple_of c : Log2Hist_of (Log2Hist_tuple c) = c.
Proof. by destruct c. Qed.
#[export] Instance Log2Hist_eq_dec : EqDecision Log2Hist := eq_dec_by _ _ Log2Hist_tuple_of.
#[export] Instance Log2Hist_countable : Countable Log2Hist := inj_countable' _ _ Log2Hist_tuple_of.
Definition CodecEstimate_tuple (c : CodecEstimate) := (es_values c, es_leb128_bytes c, es_elias_delta_bits c, es_rice_bits_by_k c, es_escaped_rice_bits c, es_hist c).
Definition CodecEstimate_of '(x0, x1, x2, x3, x4, x5) : CodecEstimate := Build_CodecEstimate x0 x1 x2 x3 x4 x5.
Lemma CodecEstimate_tuple_of c : CodecEstimate_of (CodecEstimate_tuple c) = c.
Proof. by destruct c. Qed.
#[export] Instance CodecEstimate_eq_dec : EqDecision CodecEstimate := eq_dec_by _ _ CodecEstimate_tuple_of.
#[export] Instance CodecEstimate_countable : Countable CodecEstimate := inj_countable' _ _ CodecEstimate_tuple_of.
Definition SortedUidCodecStats_tuple (c : SortedUidCodecStats) := (su_blocks_with_spends c, su_ef_bits_with_64bit_base c, su_delta_best_bits c, su_combined_best_bits c, su_first_offsets c, su_deltas c, su_combined c).
Definition SortedUidCodecStats_of '(x0, x1, x2, x3, x4, x5, x6) : SortedUidCodecStats := Build_SortedUidCodecStats x0 x1 x2 x3 x4 x5 x6.
Lemma SortedUidCodecStats_tuple_of c : SortedUidCodecStats_of (SortedUidCodecStats_tuple c) = c.
Proof. by destruct c. Qed.
#[export] Instance SortedUidCodecStats_eq_dec : EqDecision SortedUidCodecStats := eq_dec_by _ _ SortedUidCodecStats_tuple_of.
#[export] Instance SortedUidCodecStats_countable : Countable SortedUidCodecStats := inj_countable' _ _ SortedUidCodecStats_tuple_of.
Definition Stats_tuple (c : Stats) := (st_spends c, st_outputs c, st_p2tr_outputs c, st_p2tr_reused c, st_p2tr_spends c, st_p2tr_keypath_spends c, st_p2tr_scriptpath_spends c, st_p2tr_nums_spends c, st_p2tr_sp_eligible_spends c, st_p2tr_inscription_spends c, st_p2tr_nums_and_inscription_spends c, st_same_tx_spends c, st_p2tr_same_tx_spends c, st_same_block_spends c, st_p2tr_same_block_spends c, st_nonsp_txs c, st_nonsp_tx_outputs c, st_script_outputs c, st_script_inputs c, st_sorted_spent_ids c, st_sorted_p2tr_spent_ids c).
Definition Stats_of '(x0, x1, x2, x3, x4, x5, x6, x7, x8, x9, x10, x11, x12, x13, x14, x15, x16, x17, x18, x19, x20) : Stats := Build_Stats x0 x1 x2 x3 x4 x5 x6 x7 x8 x9 x10 x11 x12 x13 x14 x15 x16 x17 x18 x19 x20.
Lemma Stats_tuple_of c : Stats_of (Stats_tuple c) = c.
Proof. by destruct c. Qed.
#[export] Instance Stats_eq_dec : EqDecision Stats := eq_dec_by _ _ Stats_tuple_of.
#[export] Instance Stats_countable : Countable Stats := inj_countable' _ _ Stats_tuple_of.
Definition RollingUtxoHash_tuple (c : RollingUtxoHash) := (uh_window c, uh_acc c, uh_window_blocks c, uh_current_block c).
Definition RollingUtxoHash_of '(x0, x1, x2, x3) : RollingUtxoHash := Build_RollingUtxoHash x0 x1 x2 x3.
Lemma RollingUtxoHash_tuple_of c : RollingUtxoHash_of (RollingUtxoHash_tuple c) = c.
Proof. by destruct c. Qed.
#[export] Instance RollingUtxoHash_eq_dec : EqDecision RollingUtxoHash := eq_dec_by _ _ RollingUtxoHash_tuple_of.
#[export] Instance RollingUtxoHash_countable : Countable RollingUtxoHash := inj_countable' _ _ RollingUtxoHash_tuple_of.
Definition UtxoEntry_tuple (c : UtxoEntry) := packed c.
Definition UtxoEntry_of x0 : UtxoEntry := Build_UtxoEntry x0.
Lemma UtxoEntry_tuple_of c : UtxoEntry_of (UtxoEntry_tuple c) = c.
Proof. by destruct c. Qed.
#[export] Instance UtxoEntry_eq_dec : EqDecision UtxoEntry := eq_dec_by _ _ UtxoEntry_tuple_of.
#[export] Instance UtxoEntry_countable : Countable UtxoEntry := inj_countable' _ _ UtxoEntry_tuple_of.
Definition StatsScannerState_tuple (c : StatsScannerState) := (last_id c, utxo c, seen_keys c, stats c, utxo_hash c, missing c).
Definition StatsScannerState_of '(x0, x1, x2, x3, x4, x5) : StatsScannerState := Build_StatsScannerState x0 x1 x2 x3 x4 x5.
Lemma StatsScannerState_tuple_of c : StatsScannerState_of (StatsScannerState_tuple c) = c.
Proof. by destruct c. Qed.
#[export] Instance StatsScannerState_eq_dec : EqDecision StatsScannerState := eq_dec_by _ _ StatsScannerState_tuple_of.
#[export] Instance StatsScannerState_countable : Countable StatsScannerState := inj_countable' _ _ StatsScannerState_tuple_of.
Definition StatsCheckpoint_tuple (c : StatsCheckpoint) := (cp_format_version c, cp_stats_state_version c, cp_start_height c, cp_next_height c, cp_height c, cp_block_hash c, cp_utxo_hash_window c, cp_finality_depth c, cp_scanner_state c).
Definition StatsCheckpoint_of '(x0, x1, x2, x3, x4, x5, x6, x7, x8) : StatsCheckpoint := Build_StatsCheckpoint x0 x1 x2 x3 x4 x5 x6 x7 x8.
Lemma StatsCheckpoint_tuple_of c : StatsCheckpoint_of (StatsCheckpoint_tuple c) = c.
Proof. by destruct c. Qed.
#[export] Instance StatsCheckpoint_eq_dec : EqDecision StatsCheckpoint := eq_dec_by _ _ StatsCheckpoint_tuple_of.
#[export] Instance StatsCheckpoint_countable : Countable StatsCheckpoint := inj_countable' _ _ StatsCheckpoint_tuple_of.

Definition toy_postcard : Postcard.
Proof.
  refine {| to_allocvec c := [Zpos (encode c)];
            from_postcard bs := match bs with [Zpos p] => ok_or (decode p) "end of input" | _ => Err "end of input" end |}.
  intros c. by rewrite decode_encode.
Defined.

Definition demo_checkpoint (h : Z) : StatsCheckpoint := {|
  cp_format_version := 1; cp_stats_state_version := 6; cp_start_height := 0; cp_next_height := h + 1; cp_height := h;
  cp_block_hash := replicate 32 h; cp_utxo_hash_window := 0; cp_finality_depth := 6; cp_scanner_state := scanner_new 0 |}.
Definition demo_writer : CheckpointWriter := writer_new {| every := 1; keep := 2; cp_enabled := true |}.
#[local] Definition plain_hex : Hex := {| hex_encode := λ bs, bs |}.
#[local] Existing Instances plain_hex toy_postcard.
Lemma write_checkpoint_keeps_newest_witness :
  let c := demo_checkpoint 12 in let dir := save_checkpoint (save_checkpoint None (demo_checkpoint 10)) (demo_checkpoint 11) in
  let path := checkpoint_path (cp_height c) (cp_block_hash c) in let dir' := write_checkpoint demo_writer dir c in
  ∃ l, StronglySorted (λ a b, lex_le b a = true) l ∧ NoDup l ∧
    (∀ name, name ∈ l ↔ name = path ∨ name ∈ list_checkpoints_newest_first dir) ∧
    list_checkpoints_newest_first dir' = take 2 l ∧
    (∀ name, name ∈ list_checkpoints_newest_first dir' → load_checkpoint dir' name = if bool_decide (name = path) then Ok c else load_checkpoint dir name) ∧
    ∀ h1 x1 h2 x2, 0 ≤ h1 < 10 ^ 12 → 0 ≤ h2 < 10 ^ 12 → lex_le (checkpoint_path h1 x1) (checkpoint_path h2 x2) = true → h1 ≤ h2.
Proof. apply (write_checkpoint_keeps_newest demo_writer _ (demo_checkpoint 12)); [reflexivity|done]. Defined.
