(* ===== verification/StatsSinks.v ===== *)
(** * The sinks of the scanner

    Model of [stats/src/sinks.rs], [sinks/csv.rs] and [sinks/fanout.rs].  A sink is a
    state and its operations; an operation that fails keeps what it did.  The file of a
    CSV sink is its bytes; tokio's [BufWriter] is the parameter [BufWriter]: what it has
    not yet passed to the file, and how much a write passes on.  Failures of the disk
    and a file that another program removes are not modelled; text is ASCII. *)

From S2P Require Import Prelude Decimal TaprootSpend ScriptType Histogram CodecCost BlockStats.
From coqutil Require Import Datatypes.RecordSetters.
From stdpp Require Import pretty.
#[local] Open Scope Z_scope.

(** ** The trait *)
Class StatsSink := {
  SinkState : Type;
  emit_block : BlockStats → SinkState → SinkState * res unit;
  emit_run : Stats → SinkState → SinkState * res unit;
  rollback_to_height : Z → SinkState → SinkState * res unit;
  flush : SinkState → SinkState * res unit;
  sink_name : SinkState → string
}.

(** What the scanner relies on: the rows a sink holds, in order, and the rows a crash
    leaves; [row_fits] are the rows the sink can write.  Only a resumed scan rolls back. *)
Class EmitLaws (S : StatsSink) := {
  sink_holds : SinkState → list BlockStats → Prop;
  sink_durable : SinkState → list BlockStats → Prop;
  row_fits : BlockStats → Prop;
  durable_holds s rows : sink_durable s rows → sink_holds s rows;
  emit_block_holds s rows row : sink_holds s rows → row_fits row →
    ∃ s', emit_block row s = (s', Ok tt) ∧ sink_holds s' (rows ++ [row]);
  emit_run_holds s rows st : sink_holds s rows → ∃ s', emit_run st s = (s', Ok tt) ∧ sink_holds s' rows;
  flush_holds s rows : sink_holds s rows → ∃ s', flush s = (s', Ok tt) ∧ sink_durable s' rows
}.
Class SinkLaws (S : StatsSink) `{EL : !EmitLaws S} := {
  rollback_holds s rows h : sink_holds s rows →
    ∃ s', rollback_to_height h s = (s', Ok tt) ∧ sink_durable s' (filter (λ r, row_height r ≤ h) rows)
}.

(** ** CSV *)
Class BufWriter := {
  Bw : Type;
  bw_new : Bw;
  buffered : Bw → bytes;
  bw_write : Bw → bytes → bytes * Bw;
  bw_flush : Bw → bytes * Bw;
  bw_new_empty : buffered bw_new = [];
  bw_write_keeps w data : (bw_write w data).1 ++ buffered (bw_write w data).2 = buffered w ++ data;
  bw_flush_all w : (bw_flush w).1 = buffered w ∧ buffered (bw_flush w).2 = []
}.

Definition BLOCK_STATS_HEADER : bytes := ascii_bytes (
  "height,block_hash,stats_version,last_global_id,output_count,p2tr_output_count,p2tr_reused_count," ++
  "spends," ++
  "p2tr_spends,p2tr_keypath_spends,p2tr_scriptpath_spends,p2tr_nums_spends," ++
  "p2tr_sp_eligible_spends,p2tr_inscription_spends,p2tr_nums_and_inscription_spends," ++
  "nonsp_txs,nonsp_tx_outputs," ++
  "out_p2pk,out_p2pkh,out_p2sh,out_p2wpkh,out_p2wsh,out_p2tr,out_p2a,out_op_return,out_unknown," ++
  "in_p2pk,in_p2pkh,in_p2sh,in_p2wpkh,in_p2wsh,in_p2tr,in_p2a,in_op_return,in_unknown," ++
  "sorted_spent_values,sorted_spent_leb128_bytes," ++
  "sorted_spent_rice_best_k,sorted_spent_rice_best_bits,sorted_spent_elias_delta_bits,sorted_spent_ef_bits_with_64bit_base," ++
  "sorted_p2tr_spent_values,sorted_p2tr_spent_leb128_bytes," ++
  "sorted_p2tr_spent_rice_best_k,sorted_p2tr_spent_rice_best_bits,sorted_p2tr_spent_elias_delta_bits,sorted_p2tr_spent_ef_bits_with_64bit_base," ++
  "utxo_hash,utxo_hash_window")%string.

(** [to_string] of a [u128]: at most 39 digits. *)
Definition to_decimal_128 (n : Z) : bytes := (λ d, 48 + d) <$> digits 39 n.
Definition counts_fields (c : TypeCounts) : list bytes := to_decimal <$> [
  c_p2pk c; c_p2pkh c; c_p2sh c; c_p2wpkh c; c_p2wsh c; c_p2tr c; c_p2a c; c_op_return c; c_unknown c].
Definition row_fields (r : BlockStats) : list bytes := [
  to_decimal (row_height r); row_block_hash r; to_decimal (row_stats_version r); to_decimal (row_last_global_id r);
  to_decimal (row_output_count r); to_decimal (row_p2tr_output_count r); to_decimal (row_p2tr_reused_count r);
  to_decimal (row_spends r); to_decimal (row_p2tr_spends r); to_decimal (row_p2tr_keypath_spends r);
  to_decimal (row_p2tr_scriptpath_spends r); to_decimal (row_p2tr_nums_spends r); to_decimal (row_p2tr_sp_eligible_spends r);
  to_decimal (row_p2tr_inscription_spends r); to_decimal (row_p2tr_nums_and_inscription_spends r);
  to_decimal (row_nonsp_txs r); to_decimal (row_nonsp_tx_outputs r)] ++
  counts_fields (row_script_outputs r) ++ counts_fields (row_script_inputs r) ++ [
  to_decimal (row_sorted_spent_values r); to_decimal_128 (row_sorted_spent_leb128_bytes r);
  to_decimal (Z.of_nat (row_sorted_spent_rice_best_k r)); to_decimal_128 (row_sorted_spent_rice_best_bits r);
  to_decimal_128 (row_sorted_spent_elias_delta_bits r); to_decimal_128 (row_sorted_spent_ef_bits r);
  to_decimal (row_sorted_p2tr_spent_values r); to_decimal_128 (row_sorted_p2tr_spent_leb128_bytes r);
  to_decimal (Z.of_nat (row_sorted_p2tr_spent_rice_best_k r)); to_decimal_128 (row_sorted_p2tr_spent_rice_best_bits r);
  to_decimal_128 (row_sorted_p2tr_spent_elias_delta_bits r); to_decimal_128 (row_sorted_p2tr_spent_ef_bits r);
  row_utxo_hash r; to_decimal (row_utxo_hash_window r)].

(** [fields.join(",")]. *)
Fixpoint join_comma (fields : list bytes) : bytes :=
  match fields with [] => [] | [f] => f | f :: fields => f ++ [44] ++ join_comma fields end.
Definition row_line (r : BlockStats) : bytes := join_comma (row_fields r) ++ [10].

(** [content.lines()]: a final newline opens no line; a carriage return before one is
    dropped. *)
Fixpoint split_lines (s : bytes) : list bytes :=
  match s with
  | [] => []
  | c :: s => if bool_decide (c = 10) then [] :: split_lines s
              else match split_lines s with [] => [[c]] | l :: ls => (c :: l) :: ls end
  end.
Definition strip_cr (line : bytes) : bytes := if bool_decide (last line = Some 13) then take (length line - 1) line else line.
Definition lines (s : bytes) : list bytes := strip_cr <$> split_lines s.
(** [line.split(',').next()]. *)
Fixpoint first_field (line : bytes) : bytes :=
  match line with [] => [] | c :: line => if bool_decide (c = 44) then [] else c :: first_field line end.

Definition keep_line (height : Z) (entry : nat * bytes) : bytes :=
  let '(i, line) := entry in
  if bool_decide (i = 0)%nat then line ++ [10]
  else match parse_u64 (first_field line) with
       | None => []
       | Some row_height => if bool_decide (row_height ≤ height) then line ++ [10] else []
       end.
Definition rollback_csv_to_height (content : bytes) (height : Z) : bytes := imap pair (lines content) ≫= keep_line height.

Section csv.
Context `{BW : !BufWriter}.

(** The file, and the handle: in append mode, or with its own position. *)
Record StatsCsvSink := {
  csv_path : string; csv_name : string;
  csv_file : bytes; csv_append : bool; csv_pos : nat; csv_inner : Bw
}.

(** A write of the handle: at the end of the file, or at its position (a gap reads as
    zeros). *)
Definition file_write (self : StatsCsvSink) (data : bytes) : StatsCsvSink :=
  if csv_append self then self {{ csv_file := csv_file self ++ data }}
  else
    let pos := csv_pos self in
    let padded := csv_file self ++ replicate (pos - length (csv_file self)) 0 in
    self {{ csv_file := take pos padded ++ data ++ drop (pos + length data) padded; csv_pos := (pos + length data)%nat }}.
Definition csv_write_all (self : StatsCsvSink) (data : bytes) : StatsCsvSink :=
  let '(out, w) := bw_write (csv_inner self) data in
  (file_write self out) {{ csv_inner := w }}.
Definition csv_do_flush (self : StatsCsvSink) : StatsCsvSink :=
  let '(out, w) := bw_flush (csv_inner self) in
  (file_write self out) {{ csv_inner := w }}.

(** The header and its newline are two writes. *)
Definition write_header (self : StatsCsvSink) : StatsCsvSink := csv_write_all (csv_write_all self BLOCK_STATS_HEADER) [10].
Definition csv_open (path : string) (content : bytes) (append : bool) : StatsCsvSink := {|
  csv_path := path; csv_name := "csv:" +:+ path; csv_file := content; csv_append := append; csv_pos := 0; csv_inner := bw_new |}.
Definition csv_create (path : string) : StatsCsvSink := write_header (csv_open path [] false).
Definition csv_open_append (path : string) (content : bytes) : StatsCsvSink :=
  let self := csv_open path content true in
  if bool_decide (length content = 0)%nat then write_header self else self.

Definition csv_emit_block (r : BlockStats) (self : StatsCsvSink) : StatsCsvSink * res unit := (csv_write_all self (row_line r), Ok tt).
(** [tokio::fs::write] replaces the content of the file; the handle stays as it is. *)
Definition csv_rollback_to_height (height : Z) (self : StatsCsvSink) : StatsCsvSink * res unit :=
  let self := csv_do_flush self in
  (self {{ csv_file := rollback_csv_to_height (csv_file self) height }}, Ok tt).
Definition csv_flush (self : StatsCsvSink) : StatsCsvSink * res unit := (csv_do_flush self, Ok tt).

Definition csv_sink : StatsSink := {|
  SinkState := StatsCsvSink; emit_block := csv_emit_block; emit_run _ self := (self, Ok tt);
  rollback_to_height := csv_rollback_to_height; flush := csv_flush; sink_name := csv_name |}.
End csv.

(** ** Fanout *)
Section fanout.
Context `{S : !StatsSink}.

Record Fanout := { fo_sinks : list SinkState; fo_name : string }.
Definition fanout_new (sinks : list SinkState) : Fanout :=
  {| fo_sinks := sinks; fo_name := "fanout(" +:+ pretty (length sinks) +:+ ")" |}.
Definition fanout_push (sink : SinkState) (self : Fanout) : Fanout :=
  let sinks := fo_sinks self ++ [sink] in {| fo_sinks := sinks; fo_name := "fanout(" +:+ pretty (length sinks) +:+ ")" |}.
Lemma fanout_push_new sink sinks : fanout_push sink (fanout_new sinks) = fanout_new (sinks ++ [sink]).
Proof. done. Qed.
Definition fanout_len (self : Fanout) : nat := length (fo_sinks self).
Definition fanout_is_empty (self : Fanout) : bool := bool_decide (length (fo_sinks self) = 0)%nat.

(** [join_all]: every sink runs, whatever the others return; its outcome with its name. *)
Definition run_all (op : SinkState → SinkState * res unit) (sinks : list SinkState) : list SinkState * list (string * res unit) :=
  (fst ∘ op <$> sinks, (λ s, (sink_name s, (op s).2)) <$> sinks).
Definition failures (results : list (string * res unit)) : list (string * string) :=
  omap (λ '(n, r), match r with Err e => Some (n, e) | _ => None end) results.
Definition panics (results : list (string * res unit)) : list string :=
  omap (λ '(_, r), match r with Panic p => Some p | _ => None end) results.
Definition failure_line (failure : string * string) : string :=
  String (Ascii.ascii_of_nat 10) ("  [" +:+ failure.1 +:+ "] " +:+ failure.2).
(** The errors of all the sinks in one message; a panic of one unwinds through the join. *)
Definition collect (results : list (string * res unit)) (op : string) : res unit :=
  match panics results with
  | p :: _ => Panic p
  | [] =>
      match failures results with
      | [] => Ok tt
      | errs =>
          Err (foldl (λ msg failure, msg +:+ failure_line failure)
                 ("fanout " +:+ op +:+ ": " +:+ pretty (length errs) +:+ " failed") errs)
      end
  end.
Definition fan (name : string) (op : SinkState → SinkState * res unit) (self : Fanout) : Fanout * res unit :=
  if fanout_is_empty self then (self, Ok tt)
  else let '(sinks, results) := run_all op (fo_sinks self) in ({| fo_sinks := sinks; fo_name := fo_name self |}, collect results name).
Definition fanout_sink : StatsSink := {|
  SinkState := Fanout; emit_block row := fan "emit_block" (emit_block row); emit_run st := fan "emit_run" (emit_run st);
  rollback_to_height h := fan "rollback_to_height" (rollback_to_height h); flush := fan "flush" flush; sink_name := fo_name |}.
End fanout.

(** ** The text of the rows *)

Definition no_break (l : bytes) : Prop := 10 ∉ l ∧ 13 ∉ l.
Definition csv_text (rows : list BlockStats) : bytes := BLOCK_STATS_HEADER ++ [10] ++ (rows ≫= row_line).
Definition csv_row_fits (r : BlockStats) : Prop := in_width 64 (row_height r) ∧ Forall no_break (row_fields r).

Lemma no_break_app a b : no_break (a ++ b) ↔ no_break a ∧ no_break b.
Proof. unfold no_break. rewrite !elem_of_app. tauto. Qed.
Lemma join_no_break fs : Forall no_break fs → no_break (join_comma fs).
Proof.
  induction 1 as [|f fs Hf Hfs IH]; [split; apply not_elem_of_nil|]. destruct fs as [|g fs]; [done|].
  change (no_break (f ++ [44] ++ join_comma (g :: fs))). rewrite !no_break_app. split; [done|]. split; [|done].
  split; rewrite list_elem_of_singleton; lia.
Qed.
Lemma split_lines_app l rest : 10 ∉ l → split_lines (l ++ 10 :: rest) = l :: split_lines rest.
Proof.
  induction l as [|c l IH]; intros Hl; [done|]. apply not_elem_of_cons in Hl as [Hc Hl].
  rewrite <-app_comm_cons. cbn [split_lines]. by rewrite bool_decide_false, IH.
Qed.
Lemma strip_cr_id l : 13 ∉ l → strip_cr l = l.
Proof. intros Hl. unfold strip_cr. rewrite bool_decide_false; [done|]. intros E. by apply Hl, last_Some_elem_of. Qed.
Lemma lines_app l rest : no_break l → lines (l ++ 10 :: rest) = l :: lines rest.
Proof. intros [H10 H13]. unfold lines. by rewrite split_lines_app, fmap_cons, strip_cr_id. Qed.
Lemma header_no_break : no_break BLOCK_STATS_HEADER.
Proof. split; apply (bool_decide_unpack _); vm_compute; exact I. Qed.
Lemma lines_text rows : Forall csv_row_fits rows → lines (csv_text rows) = BLOCK_STATS_HEADER :: ((λ r, join_comma (row_fields r)) <$> rows).
Proof.
  intros Hr. unfold csv_text. cbn [app]. rewrite lines_app by apply header_no_break. f_equal.
  induction Hr as [|r rows [_ Hr] _ IH]; [done|]. rewrite bind_cons, fmap_cons. unfold row_line at 1.
  rewrite <-app_assoc. cbn [app]. by rewrite lines_app, IH by by apply join_no_break.
Qed.

Lemma first_field_app f rest : 44 ∉ f → first_field (f ++ 44 :: rest) = f.
Proof.
  induction f as [|c f IH]; intros Hf; [done|]. apply not_elem_of_cons in Hf as [Hc Hf]. rewrite <-app_comm_cons.
  cbn [first_field]. by rewrite bool_decide_false, IH.
Qed.
Lemma decimal_bytes n b : 0 ≤ n < 10 ^ 20 → b ∈ to_decimal n → 48 ≤ b < 58.
Proof.
  intros Hn Hb. unfold to_decimal in Hb. apply list_elem_of_fmap in Hb as (d & -> & Hd).
  destruct (digits_spec 20 n) as (Hf & _); [done|]. rewrite Forall_forall in Hf. specialize (Hf d Hd). lia.
Qed.
Lemma parse_decimal n : in_width 64 n → parse_u64 (to_decimal n) = Some n.
Proof. intros H. exact (parse_decimal_padded 0 n H). Qed.
Lemma row_height_parsed r : in_width 64 (row_height r) → parse_u64 (first_field (join_comma (row_fields r))) = Some (row_height r).
Proof.
  intros Hh. change (join_comma (row_fields r)) with (to_decimal (row_height r) ++ 44 :: join_comma (tail (row_fields r))).
  rewrite first_field_app, parse_decimal; [done|done|]. intros Hin. apply decimal_bytes in Hin; [lia|].
  unfold in_width in Hh. change (10 ^ 20) with 100000000000000000000. lia.
Qed.

(** Rolling back the text of some rows keeps those up to the height. *)
Lemma rollback_text rows h : Forall csv_row_fits rows → rollback_csv_to_height (csv_text rows) h = csv_text (filter (λ r, row_height r ≤ h) rows).
Proof.
  intros Hr. unfold rollback_csv_to_height. rewrite lines_text by done. cbn [imap mbind list_bind keep_line].
  rewrite bool_decide_true by done. unfold csv_text. rewrite <-app_assoc. do 2 f_equal.
  assert (∀ k, imap (λ i x, (S (k + i), x)) ((λ r, join_comma (row_fields r)) <$> rows) ≫= keep_line h = filter (λ r, row_height r ≤ h) rows ≫= row_line) as H.
  { induction Hr as [|r rows [Hh _] _ IH]; intros k; [done|]. rewrite fmap_cons. cbn [imap]. rewrite bind_cons, filter_cons. cbn [keep_line].
    rewrite bool_decide_false by done. rewrite row_height_parsed by done.
    assert (imap ((λ i x, (S (k + i), x)) ∘ S) ((λ r, join_comma (row_fields r)) <$> rows) = imap (λ i x, (S (S k + i), x)) ((λ r, join_comma (row_fields r)) <$> rows)) as ->.
    { apply imap_ext. intros i x _. cbn. by rewrite Nat.add_succ_r. }
    rewrite IH. case_bool_decide; case_decide; try done. }
  apply (H 0%nat).
Qed.

(** ** The sinks keep the interface's promises *)
Section csv_laws.
Context `{BW : !BufWriter}.

(** A CSV sink opened to append: its file and what it has yet to write are the text. *)
Definition csv_holds (self : StatsCsvSink) (rows : list BlockStats) : Prop :=
  csv_append self = true ∧ csv_file self ++ buffered (csv_inner self) = csv_text rows ∧ Forall csv_row_fits rows.

(** Nothing is left to write. *)
Definition csv_durable (self : StatsCsvSink) (rows : list BlockStats) : Prop :=
  csv_holds self rows ∧ buffered (csv_inner self) = [].

Lemma csv_write_all_spec self data : csv_append self = true →
  csv_append (csv_write_all self data) = true ∧
  csv_file (csv_write_all self data) ++ buffered (csv_inner (csv_write_all self data)) = (csv_file self ++ buffered (csv_inner self)) ++ data.
Proof.
  intros Ha. unfold csv_write_all. pose proof (bw_write_keeps (csv_inner self) data) as Hw. destruct (bw_write (csv_inner self) data) as [out w].
  destruct self as [pa na f a p i]. cbn in *. subst a. unfold constant. cbn. split; [done|]. by rewrite <-!app_assoc, Hw.
Qed.
Lemma csv_do_flush_spec self : csv_append self = true →
  csv_append (csv_do_flush self) = true ∧ csv_file (csv_do_flush self) = csv_file self ++ buffered (csv_inner self) ∧
  buffered (csv_inner (csv_do_flush self)) = [].
Proof.
  intros Ha. unfold csv_do_flush. destruct (bw_flush_all (csv_inner self)) as [H1 H2]. destruct (bw_flush (csv_inner self)) as [out w].
  destruct self as [pa na f a p i]. cbn in *. subst a. unfold constant. cbn. by rewrite H1.
Qed.
Lemma text_snoc rows r : csv_text (rows ++ [r]) = csv_text rows ++ row_line r.
Proof. unfold csv_text. rewrite bind_app, bind_cons. cbn [mbind list_bind]. by rewrite app_nil_r, <-!app_assoc. Qed.

Lemma csv_open_holds path content rows : content = csv_text rows ∨ content = [] ∧ rows = [] → Forall csv_row_fits rows →
  csv_holds (csv_open_append path content) rows.
Proof.
  intros H Hr. unfold csv_open_append. destruct H as [->|[-> ->]].
  - rewrite bool_decide_false by (unfold csv_text; rewrite length_app; change (length BLOCK_STATS_HEADER) with (length BLOCK_STATS_HEADER); vm_compute (length BLOCK_STATS_HEADER); lia).
    split; [done|]. cbn. by rewrite bw_new_empty, app_nil_r.
  - rewrite bool_decide_true by done. unfold write_header.
    destruct (csv_write_all_spec (csv_open path [] true) BLOCK_STATS_HEADER eq_refl) as [A1 E1].
    destruct (csv_write_all_spec _ [10] A1) as [A2 E2]. split; [done|]. rewrite E2, E1. cbn [csv_file csv_inner csv_open]. by rewrite bw_new_empty.
Qed.

#[export] Program Instance csv_emits : EmitLaws csv_sink := {| sink_holds := csv_holds; sink_durable := csv_durable; row_fits := csv_row_fits |}.
Next Obligation. by intros s rows [H _]. Qed.
Next Obligation.
  intros s rows row (Ha & Ht & Hr) Hrow. cbn. eexists. split; [done|]. destruct (csv_write_all_spec s (row_line row) Ha) as [A E].
  split; [done|]. split; [by rewrite E, Ht, text_snoc|]. apply Forall_app. split; [done|]. apply Forall_cons; by split; [|constructor].
Qed.
Next Obligation. intros s rows st H. by exists s. Qed.
Next Obligation.
  intros s rows (Ha & Ht & Hr). cbn. eexists. split; [done|]. destruct (csv_do_flush_spec s Ha) as (A & E1 & E2).
  split; [|done]. split; [done|]. split; [by rewrite E2, app_nil_r, E1|done].
Qed.
#[export] Program Instance csv_laws : SinkLaws csv_sink.
Next Obligation.
  intros s rows h (Ha & Ht & Hr). cbn. eexists. split; [done|]. destruct (csv_do_flush_spec s Ha) as (A & E1 & E2).
  unfold csv_durable, csv_holds. destruct (csv_do_flush s) as [pa na f a p i]. cbn in *. unfold constant. split; [|done]. split; [done|].
  split; [|eapply Forall_sublist_sub; [apply sublist_filter|done]].
  change (rollback_csv_to_height f h ++ buffered i = csv_text (filter (λ r, row_height r ≤ h) rows)).
  by rewrite E2, app_nil_r, E1, Ht, rollback_text.
Qed.

(** The file itself is the text. *)
Lemma csv_durable_file s rows : csv_durable s rows → csv_file s = csv_text rows.
Proof. intros [(_ & Ht & _) Hb]. by rewrite Hb, app_nil_r in Ht. Qed.

(** A created CSV sink writes at its own position, the end of the file as long as nothing
    rolls it back. *)
Definition created_holds (self : StatsCsvSink) (rows : list BlockStats) : Prop :=
  csv_append self = false ∧ csv_pos self = length (csv_file self) ∧
  csv_file self ++ buffered (csv_inner self) = csv_text rows ∧ Forall csv_row_fits rows.
Lemma file_write_end self data : csv_append self = false → csv_pos self = length (csv_file self) →
  file_write self data = {|
    csv_path := csv_path self; csv_name := csv_name self; csv_file := csv_file self ++ data; csv_append := false; csv_pos := length (csv_file self ++ data); csv_inner := csv_inner self |}.
Proof.
  destruct self as [pa na f a p i]. cbn. intros -> ->. unfold file_write, constant. cbn. rewrite Nat.sub_diag, app_nil_r, take_ge by lia.
  rewrite drop_ge, app_nil_r by lia. by rewrite length_app.
Qed.
Lemma created_write self data content : csv_append self = false → csv_pos self = length (csv_file self) →
  csv_file self ++ buffered (csv_inner self) = content →
  let self' := csv_write_all self data in
  csv_append self' = false ∧ csv_pos self' = length (csv_file self') ∧ csv_file self' ++ buffered (csv_inner self') = content ++ data.
Proof.
  intros Ha Hp <-. unfold csv_write_all. pose proof (bw_write_keeps (csv_inner self) data) as Hw. destruct (bw_write (csv_inner self) data) as [out w].
  rewrite file_write_end by done. unfold constant. cbn in *. split_and!; [done|done|]. by rewrite <-!app_assoc, Hw.
Qed.
Lemma created_flush self : csv_append self = false → csv_pos self = length (csv_file self) →
  let self' := csv_do_flush self in
  csv_append self' = false ∧ csv_pos self' = length (csv_file self') ∧ csv_file self' = csv_file self ++ buffered (csv_inner self) ∧ buffered (csv_inner self') = [].
Proof.
  intros Ha Hp. unfold csv_do_flush. destruct (bw_flush_all (csv_inner self)) as [H1 H2]. destruct (bw_flush (csv_inner self)) as [out w].
  rewrite file_write_end by done. unfold constant. cbn in *. by rewrite H1.
Qed.
Lemma csv_create_holds path : created_holds (csv_create path) [].
Proof.
  unfold csv_create, write_header.
  destruct (created_write (csv_open path [] false) BLOCK_STATS_HEADER [] eq_refl eq_refl) as (A1 & P1 & E1);
    [cbn; by rewrite bw_new_empty|].
  destruct (created_write _ [10] _ A1 P1 E1) as (A2 & P2 & E2). split_and!; [done|done|exact E2|constructor].
Qed.
Program Definition created_emits : EmitLaws csv_sink := {|
  sink_holds := created_holds; sink_durable s rows := created_holds s rows ∧ buffered (csv_inner s) = []; row_fits := csv_row_fits |}.
Next Obligation. by intros s rows [H _]. Qed.
Next Obligation.
  intros s rows row (Ha & Hp & Ht & Hr) Hrow. cbn. eexists. split; [done|]. destruct (created_write s (row_line row) _ Ha Hp Ht) as (A & P & E).
  split_and!; [done|done|by rewrite E, text_snoc|]. apply Forall_app. split; [done|]. apply Forall_cons; by split; [|constructor].
Qed.
Next Obligation. intros s rows st H. by exists s. Qed.
Next Obligation.
  intros s rows (Ha & Hp & Ht & Hr). cbn. eexists. split; [done|]. destruct (created_flush s Ha Hp) as (A & P & E1 & E2).
  split; [|done]. split_and!; [done|done|by rewrite E2, app_nil_r, E1|done].
Qed.
Lemma created_durable_file s rows : @sink_durable _ created_emits s rows → csv_file s = csv_text rows.
Proof. intros [(_ & _ & Ht & _) Hb]. by rewrite Hb, app_nil_r in Ht. Qed.
End csv_laws.

Section fanout_laws.
Context {S : StatsSink} `{EL : !EmitLaws S}.

(** All the sinks succeed: so does the fanout. *)
Lemma fan_ok name op self (P Q : SinkState → Prop) : (∀ s, P s → ∃ s', op s = (s', Ok tt) ∧ Q s') → Forall P (fo_sinks self) →
  ∃ self', fan name op self = (self', Ok tt) ∧ Forall Q (fo_sinks self').
Proof.
  intros Hop Hs. assert (collect (run_all op (fo_sinks self)).2 name = Ok tt ∧ Forall Q (run_all op (fo_sinks self)).1) as [E HQ].
  { unfold collect. assert (panics (run_all op (fo_sinks self)).2 = [] ∧ failures (run_all op (fo_sinks self)).2 = [] ∧
      Forall Q (run_all op (fo_sinks self)).1) as (-> & -> & HQ); [|done].
    clear -Hop Hs; induction Hs as [|s sinks (s' & E & HQ)%Hop _ (IH1 & IH2 & IH3)]; [done|]. cbn in *. rewrite E. cbn. split_and!; [done..|by constructor]. }
  unfold fan. destruct (fanout_is_empty self) eqn:Ee.
  - exists self. split; [done|]. apply bool_decide_eq_true in Ee. destruct (fo_sinks self); [constructor|done].
  - destruct (run_all op (fo_sinks self)) as [sinks results]. cbn [fst snd] in *. rewrite E. by eexists.
Qed.
(** What [collect] answers: success when all succeed, an error when one fails and none
    panics. *)
Lemma collect_spec results name :
  (collect results name = Ok tt ↔ Forall (λ x, x.2 = Ok tt) results) ∧
  ((∃ e, collect results name = Err e) ↔ Exists (λ x, is_err x.2) results ∧ Forall (λ x, ¬ ∃ p, x.2 = Panic p) results).
Proof.
  assert (Hp : panics results = [] ↔ Forall (λ x, ¬ ∃ p, x.2 = Panic p) results).
  { induction results as [|[n [[]|e|p]] results IH]; cbn; rewrite ?Forall_cons; cbn; [done|naive_solver..]. }
  assert (Hf : failures results = [] ↔ ¬ Exists (λ x, is_err x.2) results).
  { clear. induction results as [|[n [[]|e|p]] results IH]; cbn; rewrite ?Exists_cons, ?Exists_nil; cbn.
    - tauto.
    - rewrite IH. tauto.
    - split; [done|]. intros H. exfalso. apply H. by left.
    - rewrite IH. tauto. }
  assert (Hok : Forall (λ x, x.2 = Ok tt) results ↔ panics results = [] ∧ failures results = []).
  { clear. induction results as [|[n [[]|e|p]] results IH]; cbn; rewrite ?Forall_cons; cbn; [done|naive_solver..]. }
  rewrite Hok, <-Hp. unfold collect. destruct (panics results) as [|p ps]; [|split; split; [done|naive_solver|by intros [? [=]]|by intros [_ [=]]]].
  destruct (failures results) as [|x errs] eqn:E.
  - split; [done|]. split; [by intros [? [=]]|]. intros [H _]. by apply Hf in H.
  - split; [split; [done|naive_solver]|]. split; [intros _|by eexists]. split; [|done].
    destruct (decide (Exists (λ x, is_err x.2) results)) as [|H]; [done|]. apply Hf in H. done.
Qed.
(** A failing sink never stops the others, and the fanout fails when one of them does:
    each sink has taken its step, and the outcome is the collected one. *)
Lemma fan_runs_all name op self :
  fo_sinks (fan name op self).1 = fst ∘ op <$> fo_sinks self ∧ fo_name (fan name op self).1 = fo_name self ∧
  ((fan name op self).2 = Ok tt ↔ Forall (λ s, (op s).2 = Ok tt) (fo_sinks self)) ∧
  ((∃ e, (fan name op self).2 = Err e) ↔
    Exists (λ s, is_err (op s).2) (fo_sinks self) ∧ Forall (λ s, ¬ ∃ p, (op s).2 = Panic p) (fo_sinks self)).
Proof.
  assert (Hfan : (fan name op self).2 = collect (run_all op (fo_sinks self)).2 name ∧ fo_sinks (fan name op self).1 = fst ∘ op <$> fo_sinks self ∧
    fo_name (fan name op self).1 = fo_name self).
  { unfold fan. destruct (fanout_is_empty self) eqn:Ee; [|done]. apply bool_decide_eq_true in Ee. cbn [fst snd].
    by destruct (fo_sinks self). }
  destruct Hfan as (-> & -> & ->). split; [done|]. split; [done|]. cbn [run_all snd]. set (results := (λ s, (sink_name s, (op s).2)) <$> fo_sinks self).
  destruct (collect_spec results name) as [Hok Herr]. rewrite Hok, Herr. unfold results.
  rewrite Forall_fmap, Exists_fmap, Forall_fmap. done.
Qed.

#[export] Program Instance fanout_emits : EmitLaws (fanout_sink (S := S)) := {|
  sink_holds self rows := Forall (λ s : SinkState, sink_holds s rows) (fo_sinks self);
  sink_durable self rows := Forall (λ s : SinkState, sink_durable s rows) (fo_sinks self); row_fits := row_fits |}.
Next Obligation. intros sinks rows Hs. eapply Forall_impl; [exact Hs|]. intros s H. by apply durable_holds. Qed.
Next Obligation. intros sinks rows row Hs Hrow. apply (fan_ok _ _ _ _ _ (λ s H, emit_block_holds s rows row H Hrow) Hs). Qed.
Next Obligation. intros sinks rows st Hs. apply (fan_ok _ _ _ _ _ (λ s H, emit_run_holds s rows st H) Hs). Qed.
Next Obligation. intros sinks rows Hs. apply (fan_ok _ _ _ _ _ (λ s H, flush_holds s rows H) Hs). Qed.
#[export] Program Instance fanout_laws `{SL : !SinkLaws S} : SinkLaws (fanout_sink (S := S)).
Next Obligation. intros SL sinks rows h Hs. apply (fan_ok _ _ _ _ _ (λ s H, rollback_holds s rows h H) Hs). Qed.
End fanout_laws.
