(* ===== verification/StatsScan.v ===== *)
(** * The scan loop

    Model of [scan] and its helpers in [stats/src/scan.rs]: the batches of prepared
    blocks, the serial commit with its sink and its checkpoints, and the restart from a
    checkpoint.  The world is the state of the sink and the checkpoint directory: an
    outcome that fails keeps what was written.

    The order in which the fetches of a batch complete is the parameter [Scheduler];
    the number of fetches in flight, the reserves and the progress interval do not appear;
    timers and progress lines are in [ScanMetrics].  Heights are [u64]: unchecked sums wrap. *)

From S2P Require Import Prelude Decimal Helper TaggedHash ScriptClassify UndoPayload P2trIndexer SpTweak JsonWire Sources Tasks LightIndexer LightIndexerFacts TaprootSpend ScriptType Histogram CodecCost UtxoHash BlockStats ScanBlock Checkpoint StatsSinks.
From coqutil Require Import Datatypes.RecordSetters.

Record ScanConfig := {
  sc_start : Z; sc_blocks : Z; sc_source_batch_size : Z; sc_utxo_hash_window : Z; sc_finality_depth : Z; sc_checkpoints : CheckpointConfig
}.

Section scan.
Context `{RB : !RustBitcoin, ST : !ScriptTemplates, SC : !Scheduler, SH : !Sha256, HX : !Hex, PC : !Postcard} {SK : StatsSink}.

(** ** State and errors *)
Record World := { w_sink : SinkState; w_dir : CheckpointDir }.
Definition IO (A : Type) : Type := World → World * res A.
#[global] Instance io_bind : MBind IO := λ A B f m w,
  let '(w, r) := m w in match r with Ok a => f a w | Err e => (w, Err e) | Panic p => (w, Panic p) end.
Lemma io_bind_ok {A B} (m : IO A) (f : A → IO B) w w' a : m w = (w', Ok a) → (m ≫= f) w = f a w'.
Proof. intros E. unfold mbind, io_bind. by rewrite E. Qed.
Definition lift {A} (r : res A) : IO A := λ w, (w, r).
Definition on_sink {A} (op : SinkState → SinkState * res A) : IO A := λ w,
  let '(s, r) := op (w_sink w) in ({| w_sink := s; w_dir := w_dir w |}, r).
Definition on_dir (op : CheckpointDir → CheckpointDir) : IO unit := λ w,
  ({| w_sink := w_sink w; w_dir := op (w_dir w) |}, Ok tt).

(** ** Fetch and prepare *)

(** [spawn_blocking(..).await]: a panic of the task is an error. *)
Definition join_prepare {A} (msg : string) (r : res A) : res A := match r with Panic _ => Err msg | r => r end.
Definition prepare_raw_block_blocking (frame : RawBlockFrame) : res PreparedBlockFrame :=
  join_prepare "prepare worker task failed" (prepare_raw_block frame).
Definition prepare_raw_blocks_blocking (frames : list RawBlockFrame) : res (list PreparedBlockFrame) :=
  join_prepare "prepare batch worker task failed" (map_res prepare_raw_block frames).

Definition fetch_and_prepare_batch (source : BlockSource) (start_height count : Z) : res (list PreparedBlockFrame) :=
  if supports_block_range_batches source then
    frames ← get_block_range_by_height source start_height (Z.to_nat count);
    prepare_raw_blocks_blocking frames
  else
    prepared ← map_res id (completion ((λ height,
      raw ← get_block_by_height source height; prepare_raw_block_blocking raw) <$> heights start_height count));
    Ok (sort_by (λ a b, bool_decide (pf_height a ≤ pf_height b)) prepared).

(** ** Checkpoints *)
Definition make_checkpoint (cfg : ScanConfig) (state : StatsScannerState) (height : Z) (block_hash : bytes) : StatsCheckpoint := {|
  cp_format_version := CHECKPOINT_FORMAT_VERSION; cp_stats_state_version := STATS_STATE_VERSION; cp_start_height := sc_start cfg;
  cp_next_height := wrap 64 (height + 1); cp_height := height; cp_block_hash := block_hash;
  cp_utxo_hash_window := sc_utxo_hash_window cfg; cp_finality_depth := sc_finality_depth cfg; cp_scanner_state := state |}.

(** The loop over the paths. *)
Fixpoint try_checkpoints (source : BlockSource) (cfg : ScanConfig) (dir : CheckpointDir) (paths : list bytes) : res (option StatsCheckpoint) :=
  match paths with
  | [] => Ok None
  | path :: paths =>
      match load_checkpoint dir path with
      | Err _ => try_checkpoints source cfg dir paths
      | Panic p => Panic p
      | Ok checkpoint =>
          if bool_decide (cp_stats_state_version checkpoint ≠ STATS_STATE_VERSION) then try_checkpoints source cfg dir paths
          else if bool_decide (cp_utxo_hash_window checkpoint ≠ sc_utxo_hash_window cfg) then try_checkpoints source cfg dir paths
          else
            canonical_hash ← get_block_hash source (cp_height checkpoint);
            if bool_decide (canonical_hash = cp_block_hash checkpoint) then Ok (Some checkpoint)
            else try_checkpoints source cfg dir paths
      end
  end.
Definition restore_newest_valid_checkpoint (source : BlockSource) (cfg : ScanConfig) (dir : CheckpointDir) : res (option StatsCheckpoint) :=
  try_checkpoints source cfg dir (list_checkpoints_newest_first dir).

(** ** The loop *)
Record LoopState := { ls_state : StatsScannerState; ls_writer : CheckpointWriter; ls_last : option (Z * bytes) }.

Definition commit_frame (cfg : ScanConfig) (ls : LoopState) (frame : PreparedBlockFrame) : IO LoopState :=
  '(state, row) ← lift (commit_block (sc_utxo_hash_window cfg) (ls_state ls) frame);
  _ ← on_sink (emit_block row);
  let '(writer, due) := on_committed_block (ls_writer ls) in
  let ls := {| ls_state := state; ls_writer := writer; ls_last := Some (pf_height frame, pf_hash frame) |} in
  if due then
    _ ← on_dir (λ dir, write_checkpoint writer dir (make_checkpoint cfg state (pf_height frame) (pf_hash frame)));
    lift (Ok ls)
  else lift (Ok ls).
Fixpoint commit_frames (cfg : ScanConfig) (ls : LoopState) (frames : list PreparedBlockFrame) : IO LoopState :=
  match frames with
  | [] => lift (Ok ls)
  | frame :: frames => ls ← commit_frame cfg ls frame; commit_frames cfg ls frames
  end.

(** The [while] loop; each turn moves [next_height] by at least one. *)
Fixpoint scan_loop (fuel : nat) (source : BlockSource) (cfg : ScanConfig) (max_end : Z) (next_height : Z) (ls : LoopState) : IO LoopState :=
  if bool_decide (max_end < next_height) then lift (Ok ls)
  else
    match fuel with
    | O => lift (Panic "out of fuel")
    | S fuel =>
        let batch_size := Z.max (sc_source_batch_size cfg) 1 in
        let remaining := wrap 64 (max_end - next_height + 1) in
        let this_count := Z.min remaining batch_size in
        batch ← lift (fetch_and_prepare_batch source next_height this_count);
        ls ← commit_frames cfg ls batch;
        scan_loop fuel source cfg max_end (wrap 64 (next_height + this_count)) ls
    end.

(** From the restored (or fresh) state to the end of the scan. *)
Definition scan_from (source : BlockSource) (cfg : ScanConfig) (max_end scan_start : Z) (state : StatsScannerState) : IO Stats :=
  let checkpoint_writer := writer_new (sc_checkpoints cfg) in
  if bool_decide (max_end < scan_start) then lift (Ok (stats state))
  else
    ls ← scan_loop (Z.to_nat (max_end - scan_start + 1)) source cfg max_end scan_start
            {| ls_state := state; ls_writer := checkpoint_writer; ls_last := None |};
    _ ← (if needs_final_flush (ls_writer ls) then
            match ls_last ls with
            | Some (height, hash) =>
                on_dir (λ dir, write_checkpoint (ls_writer ls) dir (make_checkpoint cfg (ls_state ls) height hash))
            | None => lift (Ok tt)
            end
          else lift (Ok tt));
    _ ← on_sink (emit_run (stats (ls_state ls)));
    _ ← on_sink flush;
    lift (Ok (stats (ls_state ls))).

Definition restored (source : BlockSource) (cfg : ScanConfig) : IO (option StatsCheckpoint) :=
  λ w, (w, restore_newest_valid_checkpoint source cfg (w_dir w)).

Definition scan (source : BlockSource) (cfg : ScanConfig) : IO Stats :=
  tip_height ← lift (get_best_height source);
  let safe_height := saturating_sub tip_height (sc_finality_depth cfg) in
  let requested_end := saturating_add 64 (sc_start cfg) (saturating_sub (sc_blocks cfg) 1) in
  if bool_decide (safe_height < sc_start cfg) then lift (Ok stats_new)
  else
    let max_end := Z.min requested_end safe_height in
    '(scan_start, state) ← (
      if cp_enabled (sc_checkpoints cfg) then
        found ← restored source cfg;
        match found with
        | Some checkpoint =>
            _ ← on_sink (rollback_to_height (cp_height checkpoint));
            lift (Ok (cp_next_height checkpoint, cp_scanner_state checkpoint))
        | None => lift (Ok (sc_start cfg, scanner_new (sc_utxo_hash_window cfg)))
        end
      else lift (Ok (sc_start cfg, scanner_new (sc_utxo_hash_window cfg))));
    scan_from source cfg max_end scan_start state.
End scan.

(** ** The ideal scan *)

Lemma filter_all {A} (P : A → Prop) `{!∀ x, Decision (P x)} (l : list A) : Forall P l → filter P l = l.
Proof. induction 1 as [|x l Hx _ IH]; [done|]. rewrite filter_cons, decide_True, IH by done. done. Qed.
Lemma filter_none {A} (P : A → Prop) `{!∀ x, Decision (P x)} (l : list A) : Forall (λ x, ¬ P x) l → filter P l = [].
Proof. induction 1 as [|x l Hx _ IH]; [done|]. rewrite filter_cons, decide_False, IH by done. done. Qed.

Section ideal.
Context `{SH : !Sha256, HX : !Hex}.
Context (chain : Z → PreparedBlockFrame) (start window hi : Z).
Hypothesis chain_heights : ∀ h, start ≤ h ≤ hi → pf_height (chain h) = h.

(** The blocks from the start up to a height, all committed to a fresh state. *)
Definition frames_upto (k : Z) : list PreparedBlockFrame := chain <$> seqZ start (k - start + 1).
Definition ideal (k : Z) : res (StatsScannerState * list BlockStats) := commit_blocks window (scanner_new window) (frames_upto k).
Hypothesis chain_fits : chain_outputs (frames_upto hi) < 2 ^ 60.

Lemma commit_blocks_app w f1 f2 : ∀ s, commit_blocks w s (f1 ++ f2) =
  '(s1, r1) ← commit_blocks w s f1; '(s2, r2) ← commit_blocks w s1 f2; Ok (s2, r1 ++ r2).
Proof.
  induction f1 as [|f f1 IH]; intros s.
  { cbn [app commit_blocks]. rsimpl. by destruct (commit_blocks w s f2) as [[]| |]. }
  cbn [app commit_blocks]. destruct (commit_block w s f) as [[s1 r]| |]; rsimpl; [|done|done]. rewrite IH.
  destruct (commit_blocks w s1 f1) as [[s2 r2]| |]; rsimpl; [|done|done]. by destruct (commit_blocks w s2 f2) as [[]| |].
Qed.
Lemma chain_outputs_app f1 f2 : chain_outputs (f1 ++ f2) = chain_outputs f1 + chain_outputs f2.
Proof. unfold chain_outputs. induction f1 as [|f f1 IH]; [done|]. cbn [app fmap list_fmap foldr] in *. rewrite IH. lia. Qed.
Lemma rows_heights w frames : ∀ l uh rows, rows_spec w l uh frames rows → row_height <$> rows = pf_height <$> frames.
Proof.
  induction frames as [|f frames IH]; intros l uh [|r rows] H; try done. cbn [rows_spec] in H.
  destruct (ledger_block l (pf_txs f)) as [after evs]. destruct (hash_block uh (hash_events evs)) as [uh' hex].
  destruct H as ((Hr & _) & _ & H). rewrite !fmap_cons, Hr. f_equal. by eapply IH.
Qed.

Lemma frames_split k j : start - 1 ≤ k → k ≤ j → frames_upto j = frames_upto k ++ (chain <$> seqZ (k + 1) (j - k)).
Proof.
  intros Hk Hj. unfold frames_upto. rewrite <-fmap_app. f_equal. replace (j - start + 1) with ((k - start + 1) + (j - k)) by lia.
  rewrite seqZ_app by lia. do 2 f_equal. lia.
Qed.
Lemma ideal_ok k : start - 1 ≤ k ≤ hi → ∃ s rs, ideal k = Ok (s, rs) ∧ scanner_ok s ∧ row_height <$> rs = seqZ start (k - start + 1).
Proof.
  intros Hk. assert (Hfit : chain_outputs (frames_upto k) < 2 ^ 60).
  { rewrite (frames_split k hi), chain_outputs_app in chain_fits by lia. pose proof (chain_outputs_nonneg (chain <$> seqZ (k + 1) (hi - k))). lia. }
  destruct (commit_blocks_spec window (frames_upto k) (scanner_new window) (scanner_new_ok window)) as (s & rs & E & Ok & _ & _ & R & _); [cbn; lia|].
  exists s, rs. split; [exact E|]. split; [done|]. rewrite (rows_heights _ _ _ _ _ R). unfold frames_upto. rewrite <-list_fmap_compose.
  rewrite <-(list_fmap_id (seqZ _ _)) at 2. apply list_fmap_ext. intros i h Hh. apply lookup_seqZ in Hh. apply (chain_heights h). lia.
Qed.

Lemma ideal_extend k j s rs : start - 1 ≤ k → k ≤ j ≤ hi → ideal k = Ok (s, rs) →
  ∃ s' rs', commit_blocks window s (chain <$> seqZ (k + 1) (j - k)) = Ok (s', rs') ∧ ideal j = Ok (s', rs ++ rs') ∧ row_height <$> rs' = seqZ (k + 1) (j - k).
Proof.
  intros Hk Hj E. destruct (ideal_ok j ltac:(lia)) as (s' & rs'' & Ej & _ & Hh). destruct (ideal_ok k ltac:(lia)) as (sk & rk & Ek & _ & Hhk).
  rewrite E in Ek. injection Ek as -> ->. unfold ideal in *. rewrite (frames_split k j) in * by lia. rewrite commit_blocks_app, E in Ej.
  rewrite commit_blocks_app, E. cbn [mbind res_bind] in *.
  destruct (commit_blocks window sk _) as [[s1 r1]| |]; cbn [mbind res_bind] in *; [|done|done]. injection Ej as <- <-.
  exists s1, r1. split; [done|]. split; [done|].
  rewrite fmap_app, Hhk in Hh. replace (j - start + 1) with ((k - start + 1) + (j - k)) in Hh by lia. rewrite (seqZ_app _ (k - start + 1) (j - k)) in Hh by lia.
  apply app_inv_head in Hh. rewrite Hh. f_equal. lia.
Qed.

(** The rows up to a height are those of the ideal scan to that height. *)
Lemma ideal_filter h k sh rh s rs : start - 1 ≤ h → h ≤ k ≤ hi → ideal h = Ok (sh, rh) → ideal k = Ok (s, rs) →
  filter (λ r, row_height r ≤ h) rs = rh.
Proof.
  intros Hh Hk Eh Ek. destruct (ideal_extend h k sh rh) as (s' & rs' & _ & E & Hr); [done|done|done|]. rewrite Ek in E. injection E as -> ->.
  destruct (ideal_ok h ltac:(lia)) as (s1 & r1 & E1 & _ & Hr1). rewrite Eh in E1. injection E1 as <- <-.
  rewrite filter_app. rewrite (filter_all _ rh), (filter_none _ rs'), app_nil_r; [done| |].
  - apply Forall_forall. intros r Hin. assert (Hrow : row_height r ∈ row_height <$> rs') by (by apply list_elem_of_fmap_2).
    rewrite Hr in Hrow. apply elem_of_seqZ in Hrow. lia.
  - apply Forall_forall. intros r Hin. assert (Hrow : row_height r ∈ row_height <$> rh) by (by apply list_elem_of_fmap_2).
    rewrite Hr1 in Hrow. apply elem_of_seqZ in Hrow. lia.
Qed.
End ideal.

(** ** The files a checkpoint write leaves *)
Section writes.
Context `{HX : !Hex, PC : !Postcard}.

Lemma write_names writer dir c : writer_enabled writer = true →
  list_checkpoints_newest_first (write_checkpoint writer dir c) ≠ [] ∧
  ∀ name, name ∈ list_checkpoints_newest_first (write_checkpoint writer dir c) →
    name = checkpoint_path (cp_height c) (cp_block_hash c) ∧ load_checkpoint (write_checkpoint writer dir c) name = Ok c ∨
    name ∈ list_checkpoints_newest_first dir ∧ load_checkpoint (write_checkpoint writer dir c) name = load_checkpoint dir name.
Proof.
  intros Hen. unfold write_checkpoint. rewrite Hen. cbn [negb]. destruct (save_names dir c) as (Hn & Hnew & Hold).
  set (saved := save_checkpoint dir c) in *. set (path := checkpoint_path _ _) in *.
  assert (Hne : list_checkpoints_newest_first saved ≠ []).
  { intros E. assert (path ∈ list_checkpoints_newest_first saved) as H by (apply Hn; by left). rewrite E in H. by apply not_elem_of_nil in H. }
  assert (Hsaved : ∀ name, name ∈ list_checkpoints_newest_first saved → name = path ∧ load_checkpoint saved name = Ok c ∨
    name ∈ list_checkpoints_newest_first dir ∧ load_checkpoint saved name = load_checkpoint dir name).
  { intros name Hin. destruct (decide (name = path)) as [->|Hd]; [by left|]. right. apply Hn in Hin as Hin'. destruct Hin' as [?|Hin']; [done|].
    split; [done|]. apply Hold; [|done]. destruct (list_spec saved) as (_ & _ & Hl). by apply Hl in Hin as [? _]. }
  destruct (decide (keep (cw_cfg writer) = 0%nat)) as [E|E].
  { unfold prune_checkpoints. by rewrite bool_decide_true. }
  destruct (prune_list saved _ E) as (-> & Hload). split.
  - destruct (list_checkpoints_newest_first saved), (keep (cw_cfg writer)); done.
  - intros name Hin. rewrite Hload by done. apply Hsaved. by eapply elem_of_prefix, prefix_take.
Qed.
End writes.

(** ** The scan reaches the ideal *)
Section honest.
Context `{RB : !RustBitcoin, ST : !ScriptTemplates, SC : !Scheduler, SH : !Sha256, HX : !Hex, PC : !Postcard} {SK : StatsSink} `{EL : !EmitLaws SK}.
Context (chain : Z → PreparedBlockFrame) (start window hi : Z).
Context (chain_heights : ∀ h, start ≤ h ≤ hi → pf_height (chain h) = h) (chain_fits : chain_outputs (frames_upto chain start hi) < 2 ^ 60).
Context (start_pos : 0 ≤ start) (hi_small : hi < 10 ^ 12).
Context (rows_fit : ∀ k s rs, k ≤ hi → ideal chain start window k = Ok (s, rs) → Forall row_fits rs).

(** A source that serves the chain up to [hi]. *)
Record serves (source : BlockSource) : Prop := {
  sv_block h : start ≤ h ≤ hi → ∃ raw, get_block_by_height source h = Ok raw ∧ prepare_raw_block raw = Ok (chain h);
  sv_hash h : start ≤ h ≤ hi → get_block_hash source h = Ok (pf_hash (chain h));
  sv_range s n : start ≤ s → 0 < n → s + n ≤ hi + 1 →
    ∃ raws, get_block_range_by_height source s (Z.to_nat n) = Ok raws ∧ map_res prepare_raw_block raws = Ok (chain <$> seqZ s n)
}.

(** A checkpoint of the ideal scan. *)
Record honest_checkpoint (k : Z) (c : StatsCheckpoint) : Prop := {
  hc_height : start ≤ cp_height c ≤ k;
  hc_version : cp_stats_state_version c = STATS_STATE_VERSION;
  hc_window : cp_utxo_hash_window c = window;
  hc_next : cp_next_height c = cp_height c + 1;
  hc_hash : cp_block_hash c = pf_hash (chain (cp_height c));
  hc_state : ∃ rs, ideal chain start window (cp_height c) = Ok (cp_scanner_state c, rs)
}.
(** The sink holds the rows up to [k]; the checkpoints are of heights up to [k]. *)
Record scanned (k : Z) (w : World) : Prop := {
  sn_rows : ∃ s rs, ideal chain start window k = Ok (s, rs) ∧ sink_holds (w_sink w) rs;
  sn_dir : ∀ name, name ∈ list_checkpoints_newest_first (w_dir w) → ∃ c, load_checkpoint (w_dir w) name = Ok c ∧
    name = checkpoint_path (cp_height c) (cp_block_hash c) ∧ honest_checkpoint k c
}.

Lemma batch_honest source next count : serves source → start ≤ next → 0 < count → next + count ≤ hi + 1 →
  fetch_and_prepare_batch source next count = Ok (chain <$> seqZ next count).
Proof.
  intros [Hb _ Hr] Hn Hc Hhi. unfold fetch_and_prepare_batch. destruct (supports_block_range_batches source).
  - destruct (Hr next count) as (raws & -> & E); [done..|]. rsimpl. unfold prepare_raw_blocks_blocking. by rewrite E.
  - rewrite heights_small by lia.
    assert (E : ((λ height, raw ← get_block_by_height source height; prepare_raw_block_blocking raw) <$> seqZ next count) = Ok <$> (chain <$> seqZ next count)).
    { rewrite <-list_fmap_compose. apply list_fmap_ext. intros i h Hh. apply lookup_seqZ in Hh.
      destruct (Hb h) as (raw & E1 & E2); [lia|]. rewrite E1. rsimpl. unfold prepare_raw_block_blocking. by rewrite E2. }
    rewrite E. clear E. destruct (sorted_completion pf_height (chain <$> seqZ next count) next count) as (ys & -> & Hys); [|rsimpl; by rewrite Hys].
    rewrite <-list_fmap_compose. rewrite <-(list_fmap_id (seqZ next count)) at 2. apply list_fmap_ext. intros i h Hh.
    apply lookup_seqZ in Hh. apply (chain_heights h). lia.
Qed.

Context (cfg : ScanConfig) (cfg_start : sc_start cfg = start) (cfg_window : sc_utxo_hash_window cfg = window)
  (cfg_every : every (sc_checkpoints cfg) < 2 ^ 64).

(** The loop between two blocks, [k] the last height committed, [from] the first. *)
Record loop_ok (from k : Z) (w : World) (ls : LoopState) : Prop := {
  lo_scanned : scanned k w;
  lo_state : ∃ rs, ideal chain start window k = Ok (ls_state ls, rs);
  lo_cfg : cw_cfg (ls_writer ls) = sc_checkpoints cfg;
  lo_processed : 0 ≤ processed_since_checkpoint (ls_writer ls) ∧
    (writer_enabled (ls_writer ls) = true → processed_since_checkpoint (ls_writer ls) < every (sc_checkpoints cfg));
  lo_last : from ≤ k → ls_last ls = Some (k, pf_hash (chain k)) ∧
    (writer_enabled (ls_writer ls) = true → processed_since_checkpoint (ls_writer ls) = 0 → list_checkpoints_newest_first (w_dir w) ≠ [])
}.

Lemma made_honest k s rs : start ≤ k ≤ hi → ideal chain start window k = Ok (s, rs) →
  honest_checkpoint k (make_checkpoint cfg s k (pf_hash (chain k))).
Proof.
  intros Hk E. split; cbn; [lia|done|done| |done|by exists rs]. apply wrap_small. unfold in_width. lia.
Qed.
Lemma honest_mono k j c : k ≤ j → honest_checkpoint k c → honest_checkpoint j c.
Proof. intros Hkj [H1 H2 H3 H4 H5 H6]. split; try done. lia. Qed.

(** Writing a checkpoint of the current height keeps the directory honest. *)
Lemma write_scanned k sink dir writer s rs : start ≤ k ≤ hi → ideal chain start window k = Ok (s, rs) → writer_enabled writer = true →
  scanned k {| w_sink := sink; w_dir := dir |} →
  let dir' := write_checkpoint writer dir (make_checkpoint cfg s k (pf_hash (chain k))) in
  scanned k {| w_sink := sink; w_dir := dir' |} ∧ list_checkpoints_newest_first dir' ≠ [].
Proof.
  intros Hk E Hen [Hrows Hdir] dir'. destruct (write_names writer dir (make_checkpoint cfg s k (pf_hash (chain k))) Hen) as (Hne & Hn).
  split; [|done]. split; [done|]. cbn in *. intros name Hin. destruct (Hn name Hin) as [[Hname Hl]|[Hin' Hl]].
  - eexists. split; [exact Hl|]. split; [exact Hname|]. by eapply made_honest.
  - unfold dir'. rewrite Hl. by apply Hdir.
Qed.

Lemma commit_frame_ok from k w ls : start - 1 ≤ k → k < hi → loop_ok from k w ls →
  ∃ w' ls', commit_frame cfg ls (chain (k + 1)) w = (w', Ok ls') ∧ loop_ok from (k + 1) w' ls'.
Proof.
  intros Hk Hhi [[(s & rs & Ei & Hsink) Hdir] (rs' & Es) Hcfg [Hp0 Hp] _]. rewrite Ei in Es. injection Es as -> <-.
  destruct (ideal_extend chain start window hi chain_heights chain_fits k (k + 1) _ _ Hk ltac:(lia) Ei) as (s' & rows & Ec & Ei' & Hh).
  replace (k + 1 - k) with 1 in * by lia.
  assert (Hseq : seqZ (k + 1) 1 = [k + 1]) by (rewrite seqZ_cons by lia; done). rewrite Hseq in Ec.
  cbn [fmap list_fmap commit_blocks] in Ec. unfold commit_frame. rewrite cfg_window.
  destruct (commit_block window (ls_state ls) (chain (k + 1))) as [[s1 row]| |]; cbn [mbind res_bind] in Ec; [|done|done]. injection Ec as -> <-.
  assert (Hfit : row_fits row).
  { specialize (rows_fit (k + 1) _ _ ltac:(lia) Ei'). apply Forall_app in rows_fit as [_ Hf]. by apply Forall_cons in Hf as [Hf _]. }
  destruct (emit_block_holds (w_sink w) rs row Hsink Hfit) as (sink' & Ee & Hsink').
  rewrite (io_bind_ok _ _ w w (s', row)) by done. rewrite (io_bind_ok _ _ w {| w_sink := sink'; w_dir := w_dir w |} tt) by (unfold on_sink; by rewrite Ee).
  assert (Hht : pf_height (chain (k + 1)) = k + 1) by (apply chain_heights; lia). rewrite Hht.
  assert (Hscan : scanned (k + 1) {| w_sink := sink'; w_dir := w_dir w |}).
  { split; [by exists s', (rs ++ [row])|]. cbn. intros name Hin. destruct (Hdir name Hin) as (c & Hl & Hn & Hc). exists c. split; [done|]. split; [done|]. by apply (honest_mono k); [lia|]. }
  unfold on_committed_block. destruct (writer_enabled (ls_writer ls)) eqn:Hen; cbn [negb].
  - specialize (Hp eq_refl). rewrite Hcfg. rewrite wrap_small by (unfold in_width; lia). case_bool_decide as Hdue.
    +      destruct (write_scanned (k + 1) sink' (w_dir w) {| cw_cfg := sc_checkpoints cfg; processed_since_checkpoint := 0 |} s' (rs ++ [row])) as [Hs Hne];
        [lia|done|unfold writer_enabled in *; by rewrite Hcfg in Hen|done|].
      eexists _, _. split; [reflexivity|]. split; [exact Hs|by eexists|done| |done]. cbn. unfold writer_enabled in Hen. rewrite Hcfg in Hen.
      apply andb_true_iff in Hen as [_ Hen%bool_decide_eq_true]. lia.
    + eexists _, _. split; [reflexivity|]. split; [exact Hscan|by eexists|done|cbn; lia|]. intros _. split; [done|]. cbn. lia.
  - eexists _, _. split; [reflexivity|]. split; [exact Hscan|by eexists|done|cbn; by rewrite Hen|]. intros _. split; [done|]. cbn. by rewrite Hen.
Qed.

Lemma commit_frames_ok from n : ∀ k w ls, start - 1 ≤ k → k + Z.of_nat n ≤ hi → loop_ok from k w ls →
  ∃ w' ls', commit_frames cfg ls (chain <$> seqZ (k + 1) (Z.of_nat n)) w = (w', Ok ls') ∧ loop_ok from (k + Z.of_nat n) w' ls'.
Proof.
  induction n as [|n IH]; intros k w ls Hk Hn H; [exists w, ls; by rewrite Z.add_0_r|].
  rewrite seqZ_cons by lia. replace (Z.pred (Z.of_nat (S n))) with (Z.of_nat n) by lia. rewrite fmap_cons. cbn [commit_frames].
  destruct (commit_frame_ok from k w ls) as (w1 & ls1 & E1 & H1); [lia|lia|done|]. rewrite (io_bind_ok _ _ _ _ _ E1).
  destruct (IH (k + 1) w1 ls1) as (w2 & ls2 & E2 & H2); [lia|lia|done|]. replace (Z.succ (k + 1)) with (k + 1 + 1) by lia. rewrite E2.
  exists w2, ls2. split; [done|]. by replace (k + Z.of_nat (S n)) with (k + 1 + Z.of_nat n) by lia.
Qed.

Lemma scan_loop_ok source from max_end fuel : serves source → max_end ≤ hi → ∀ k w ls, start - 1 ≤ k ≤ max_end → max_end - k ≤ Z.of_nat fuel → loop_ok from k w ls →
  ∃ w' ls', scan_loop fuel source cfg max_end (k + 1) ls w = (w', Ok ls') ∧ loop_ok from max_end w' ls'.
Proof.
  intros Hsrc Hmax. induction fuel as [|fuel IH]; intros k w ls Hk Hf H.
  { assert (k = max_end) as -> by lia. cbn [scan_loop]. rewrite bool_decide_true by lia. by exists w, ls. }
  cbn [scan_loop]. destruct (decide (max_end < k + 1)) as [Hd|Hd].
  { assert (k = max_end) as -> by lia. rewrite bool_decide_true by lia. by exists w, ls. }
  rewrite bool_decide_false by lia. cbv zeta. rewrite (wrap_small 64 (max_end - (k + 1) + 1)) by (unfold in_width; lia).
  set (count := Z.min (max_end - (k + 1) + 1) (Z.max (sc_source_batch_size cfg) 1)).
  rewrite (batch_honest source (k + 1) count Hsrc) by lia. rewrite (io_bind_ok _ _ w w (chain <$> seqZ (k + 1) count)) by done.
  destruct (commit_frames_ok from (Z.to_nat count) k w ls) as (w1 & ls1 & E1 & H1); [lia|lia|done|]. rewrite Z2Nat.id in E1, H1 by lia. rewrite (io_bind_ok _ _ _ _ _ E1).
  rewrite wrap_small by (unfold in_width; lia). replace (k + 1 + count) with (k + count + 1) by lia.
  apply IH; [lia|lia|done].
Qed.

(** A world between two runs: what was scanned can be restored. *)
Definition settled (k : Z) (w : World) : Prop := scanned k w ∧ (start ≤ k → list_checkpoints_newest_first (w_dir w) ≠ []).

(** Restoring finds the newest checkpoint. *)
Lemma restore_ok source k w : serves source → k ≤ hi → scanned k w →
  (restore_newest_valid_checkpoint source cfg (w_dir w) = Ok None ∧ list_checkpoints_newest_first (w_dir w) = []) ∨
  ∃ c, restore_newest_valid_checkpoint source cfg (w_dir w) = Ok (Some c) ∧ honest_checkpoint k c ∧
    (∀ name c', name ∈ list_checkpoints_newest_first (w_dir w) → load_checkpoint (w_dir w) name = Ok c' → cp_height c' ≤ cp_height c).
Proof.
  intros [_ Hh _] Hk [_ Hdir]. unfold restore_newest_valid_checkpoint. destruct (list_spec (w_dir w)) as (Hsort & _ & _).
  destruct (list_checkpoints_newest_first (w_dir w)) as [|name rest] eqn:El; [by left|]. right.
  destruct (Hdir name ltac:(left)) as (c & Hl & Hname & Hc). exists c. cbn [try_checkpoints]. rewrite Hl.
  pose proof Hc as [H1 H2 H3 H4 H5 H6]. rewrite H2, H3, cfg_window, !bool_decide_false by (by intros []). rewrite Hh by lia. rsimpl.
  rewrite H5, bool_decide_true by done. split; [done|]. split; [done|]. intros name' c' [->|Hin]%elem_of_cons Hl'; [rewrite Hl in Hl'; injection Hl' as ->; lia|].
  destruct (Hdir name' ltac:(by right)) as (c2 & Hl2 & Hname2 & [H1' _ _ _ _ _]). rewrite Hl' in Hl2. injection Hl2 as <-.
  apply StronglySorted_inv in Hsort as [_ Hall]. rewrite Forall_forall in Hall. specialize (Hall name' Hin). unfold after_eq in Hall.
  rewrite Hname, Hname2 in Hall. apply checkpoint_path_order in Hall; lia.
Qed.

(** The scan from a height whose state is known. *)
Lemma scan_from_ok source max_end k w s rs : serves source → start - 1 ≤ k → k ≤ max_end → max_end ≤ hi → scanned k w → ideal chain start window k = Ok (s, rs) →
  (k = max_end → start ≤ k → list_checkpoints_newest_first (w_dir w) ≠ []) → writer_enabled (writer_new (sc_checkpoints cfg)) = true →
  ∃ w' s' rs', scan_from source cfg max_end (k + 1) s w = (w', Ok (stats s')) ∧ ideal chain start window max_end = Ok (s', rs') ∧ settled max_end w' ∧
    (k < max_end ∨ sink_durable (w_sink w) rs → sink_durable (w_sink w') rs').
Proof.
  intros Hsrc Hk Hkm Hm Hscan Ei Hne Hen. unfold scan_from. destruct (decide (max_end < k + 1)) as [Hd|Hd].
  { assert (k = max_end) as -> by lia. rewrite bool_decide_true by lia. exists w, s, rs. split; [done|]. split; [done|]. split; [split; [done|by apply Hne]|]. intros [?|?]; [lia|done]. }
  rewrite bool_decide_false by lia.
  destruct (scan_loop_ok source (k + 1) max_end (Z.to_nat (max_end - (k + 1) + 1)) Hsrc Hm k w
    {| ls_state := s; ls_writer := writer_new (sc_checkpoints cfg); ls_last := None |}) as (w1 & ls & E & [Hs1 (rs1 & Es1) Hcfg1 [Hp0 Hp] Hlast]); [lia|lia| |].
  { split; [done|by exists rs|done|cbn; split; [lia|]|lia]. intros He. unfold writer_enabled in He. apply andb_true_iff in He as [_ He%bool_decide_eq_true]. exact He. }
  rewrite (io_bind_ok _ _ _ _ _ E). destruct (Hlast ltac:(lia)) as [El Hnz].
  assert (Hw : writer_enabled (ls_writer ls) = true) by (unfold writer_enabled in *; by rewrite Hcfg1).
  assert (∃ dir', (if needs_final_flush (ls_writer ls) then match ls_last ls with
      | Some (height, hash) => on_dir (λ dir, write_checkpoint (ls_writer ls) dir (make_checkpoint cfg (ls_state ls) height hash))
      | None => lift (Ok tt) end else lift (Ok tt)) w1 = ({| w_sink := w_sink w1; w_dir := dir' |}, Ok tt) ∧
    scanned max_end {| w_sink := w_sink w1; w_dir := dir' |} ∧ list_checkpoints_newest_first dir' ≠ []) as (dir' & Ef & Hs2 & Hne2).
  { unfold needs_final_flush. rewrite Hw. cbn [andb]. case_bool_decide as Hpos.
    - rewrite El. eexists. split; [reflexivity|]. destruct w1. eapply write_scanned; [lia|exact Es1|done|done].
    - exists (w_dir w1). destruct w1. split; [done|]. split; [done|]. apply Hnz; [done|lia]. }
  rewrite (io_bind_ok _ _ _ _ _ Ef). destruct Hs2 as [(s' & rs' & Ei' & Hsink) Hdir]. rewrite Es1 in Ei'. injection Ei' as <- <-.
  destruct (emit_run_holds (w_sink w1) rs1 (stats (ls_state ls)) Hsink) as (s2 & E2 & H2).
  rewrite (io_bind_ok _ _ _ {| w_sink := s2; w_dir := dir' |} tt) by (unfold on_sink; cbn [w_sink w_dir]; by rewrite E2).
  destruct (flush_holds s2 rs1 H2) as (s3 & E3 & H3).
  rewrite (io_bind_ok _ _ _ {| w_sink := s3; w_dir := dir' |} tt) by (unfold on_sink; cbn [w_sink w_dir]; by rewrite E3).
  exists {| w_sink := s3; w_dir := dir' |}, (ls_state ls), rs1. split; [done|]. split; [done|]. split; [|done]. split; [|done].
  split; [exists (ls_state ls), rs1; split; [done|by apply durable_holds]|done].
Qed.

Context (cfg_enabled : cp_enabled (sc_checkpoints cfg) = true) (cfg_every_pos : 0 < every (sc_checkpoints cfg)).

Context `{SL : !SinkLaws SK}.
(** A scan of a settled world ends with the ideal scan. *)
Lemma scan_settled source tip k w : serves source → get_best_height source = Ok tip → settled k w → start - 1 ≤ k →
  let safe := saturating_sub tip (sc_finality_depth cfg) in
  let max_end := Z.min (saturating_add 64 start (saturating_sub (sc_blocks cfg) 1)) safe in
  start ≤ safe → k ≤ max_end ≤ hi →
  ∃ w' s rs, scan source cfg w = (w', Ok (stats s)) ∧ ideal chain start window max_end = Ok (s, rs) ∧ settled max_end w' ∧ sink_durable (w_sink w') rs.
Proof.
  intros Hsrc Htip [Hscan Hne] Hk safe max_end Hsafe Hme. unfold scan. rewrite (io_bind_ok _ _ w w tip) by (unfold lift; by rewrite Htip).
  rewrite cfg_start. fold safe. rewrite bool_decide_false by lia. fold max_end.
  assert (Hms : start ≤ max_end) by (unfold max_end, saturating_add, saturating_sub, umax; lia).
  assert (Hwr : writer_enabled (writer_new (sc_checkpoints cfg)) = true) by (unfold writer_enabled; cbn; rewrite cfg_enabled; by apply bool_decide_eq_true).
  rewrite cfg_enabled. destruct (restore_ok source k w Hsrc ltac:(lia) Hscan) as [[Er El]|(c & Er & Hc & Hnew)].
  - assert (k = start - 1) as -> by (destruct (decide (start ≤ k)) as [Hd|Hd]; [by specialize (Hne Hd)|lia]).
    rewrite (io_bind_ok _ _ w w (start, scanner_new window)) by (rewrite (io_bind_ok _ _ w w None) by (unfold restored; by rewrite Er); by rewrite cfg_window).
    assert (Ei : ideal chain start window (start - 1) = Ok (scanner_new window, [])) by (unfold ideal, frames_upto; by replace (start - 1 - start + 1) with 0 by lia).
    destruct (scan_from_ok source max_end (start - 1) w (scanner_new window) [] Hsrc) as (w' & s' & rs' & E & Ei' & Hs' & Hd); try done; try lia.
    replace (start - 1 + 1) with start in E by lia. exists w', s', rs'. split; [exact E|]. split; [done|]. split; [done|]. apply Hd. left. lia.
  - pose proof Hc as [H1 H2 H3 H4 H5 (rh & H6)]. destruct Hscan as [(s & rs & Ei & Hsink) Hdir].
    destruct (rollback_holds (w_sink w) rs (cp_height c) Hsink) as (sink' & Eb & Hb).
    rewrite (ideal_filter chain start window hi chain_heights chain_fits (cp_height c) k _ rh s rs) in Hb by (done || lia).
    set (w1 := {| w_sink := sink'; w_dir := w_dir w |}).
    rewrite (io_bind_ok _ _ w w1 (cp_height c + 1, cp_scanner_state c)); cycle 1.
    { rewrite (io_bind_ok _ _ w w (Some c)) by (unfold restored; by rewrite Er).
      rewrite (io_bind_ok _ _ w w1 tt) by (unfold on_sink; by rewrite Eb). by rewrite H4. }
    destruct (scan_from_ok source max_end (cp_height c) w1 (cp_scanner_state c) rh Hsrc) as (w' & s' & rs' & E & Ei' & Hs' & Hd); try done; try lia.
    + split; [exists (cp_scanner_state c), rh; split; [done|by apply durable_holds]|]. cbn [w_dir w1]. intros name Hin.
      destruct (Hdir name Hin) as (c' & Hl & Hn & Hc'). exists c'. split; [done|]. split; [done|]. specialize (Hnew name c' Hin Hl).
      destruct Hc' as [G1 G2 G3 G4 G5 G6]. split; try done. lia.
    + intros _ _. cbn [w_dir w1]. apply Hne. lia.
    + exists w', s', rs'. split; [exact E|]. split; [done|]. split; [done|]. apply Hd. by right.
Qed.
End honest.
