(* ===== verification/StatsScanRuns.v ===== *)
(** * Runs of the scanner

    What the command [btc-data-stats --resume] guarantees over several runs: a sequence
    of runs, and a run that follows an interrupted one, end with the rows and the totals
    of one scan of the whole range; what a scan leaves alone, and the run without
    [--resume]. *)

From S2P Require Import Prelude Helper UndoPayload Bitmap TaggedHash LightBlock LightWire P2trIndexer ScriptClassify ScriptType SpTweak Decimal Kv Tasks ArchiveBackend FileArchive JsonWire Sources LightIndexer LightIndexerFacts LightIndexerToy Histogram TaprootSpend UtxoHash CodecCost BlockStats ScanBlock Checkpoint StatsSinks StatsScan.

Section runs.
Context `{RB : !RustBitcoin, ST : !ScriptTemplates, SC : !Scheduler, SH : !Sha256, HX : !Hex, PC : !Postcard} {SK : StatsSink} `{EL : !EmitLaws SK, SL : !SinkLaws SK}.
Context (chain : Z → PreparedBlockFrame) (start window hi : Z).

(** The chain up to [hi]: its heights, ids of 60 bits, and rows the sink can write. *)
Record chain_ok : Prop := {
  ck_start : 0 ≤ start;
  ck_hi : hi < 10 ^ 12;
  ck_heights h : start ≤ h ≤ hi → pf_height (chain h) = h;
  ck_fits : chain_outputs (frames_upto chain start hi) < 2 ^ 60;
  ck_rows k s rs : k ≤ hi → ideal chain start window k = Ok (s, rs) → Forall row_fits rs
}.

(** A run with checkpoints that starts where the others do, and the last height it reaches. *)
Record run_reaches (k e : Z) (source : BlockSource) (cfg : ScanConfig) : Prop := {
  rr_source : serves chain start hi source;
  rr_start : sc_start cfg = start;
  rr_window : sc_utxo_hash_window cfg = window;
  rr_enabled : cp_enabled (sc_checkpoints cfg) = true;
  rr_every : 0 < every (sc_checkpoints cfg) < 2 ^ 64;
  rr_end : ∃ tip, get_best_height source = Ok tip ∧ start ≤ saturating_sub tip (sc_finality_depth cfg) ∧
    e = Z.min (saturating_add 64 start (saturating_sub (sc_blocks cfg) 1)) (saturating_sub tip (sc_finality_depth cfg));
  rr_range : k ≤ e ≤ hi
}.
Fixpoint runs_reach (k : Z) (runs : list (BlockSource * ScanConfig)) (ends : list Z) : Prop :=
  match runs, ends with
  | [], [] => True
  | (source, cfg) :: runs, e :: ends => run_reaches k e source cfg ∧ runs_reach e runs ends
  | _, _ => False
  end.
Fixpoint run_scans (runs : list (BlockSource * ScanConfig)) : IO (list Stats) :=
  match runs with
  | [] => lift (Ok [])
  | (source, cfg) :: runs => st ← scan source cfg; sts ← run_scans runs; lift (Ok (st :: sts))
  end.

Lemma run_once k e source cfg w : chain_ok → start - 1 ≤ k → run_reaches k e source cfg → settled chain start window k w →
  ∃ w' s rs, scan source cfg w = (w', Ok (stats s)) ∧ ideal chain start window e = Ok (s, rs) ∧ settled chain start window e w' ∧ sink_durable (w_sink w') rs.
Proof.
  intros [K1 K2 K3 K4 K5] Hk [R1 R2 R3 R4 [R5 R6] (tip & Ht & Hsafe & ->) R7] Hw.
  by apply (scan_settled chain start window hi K3 K4 K1 K2 K5 cfg R2 R3 R6 R4 R5 source tip k w R1 Ht Hw Hk Hsafe R7).
Qed.

(** C7: successive runs of the scanner.  From a world whose rows and checkpoints stem from
    a scan up to some height (or a fresh one), any sequence of runs over a growing chain,
    whatever their batches, finality depths and numbers of kept checkpoints, ends with
    exactly the rows of one uninterrupted scan on durable storage, and every run returns
    the totals of such a scan. *)
Theorem scan_runs_ideal (runs : list (BlockSource * ScanConfig)) (ends : list Z) (k e : Z) (w : World)
  (Hchain : chain_ok) (Hk : start - 1 ≤ k) (Hw : settled chain start window k w) (Hruns : runs_reach k runs ends) (He : last ends = Some e) :
  ∃ w' sts s rs, run_scans runs w = (w', Ok sts) ∧
    Forall2 (λ e st, ∃ s rs, ideal chain start window e = Ok (s, rs) ∧ st = stats s) ends sts ∧
    ideal chain start window e = Ok (s, rs) ∧ sink_durable (w_sink w') rs ∧ settled chain start window e w'.
Proof.
  revert k w ends Hk Hw Hruns He. induction runs as [|[source cfg] runs IH]; intros k w [|e1 ends] Hk Hw Hruns He; try done.
  destruct Hruns as [Hrun Hruns]. destruct (run_once k e1 source cfg w Hchain Hk Hrun Hw) as (w1 & s1 & rs1 & E1 & I1 & W1 & D1).
  assert (Hk1 : start - 1 ≤ e1) by (destruct Hrun as [_ _ _ _ _ _ ?]; lia). cbn [run_scans]. rewrite (io_bind_ok _ _ _ _ _ E1).
  destruct ends as [|e2 ends].
  - destruct runs as [|[]]; [|done]. injection He as <-. exists w1, [stats s1], s1, rs1. split; [done|]. split; [|done].
    constructor; [by exists s1, rs1|constructor].
  - destruct (IH e1 w1 (e2 :: ends) Hk1 W1 Hruns He) as (w2 & sts & s & rs & E2 & F2 & I2 & D2 & W2).
    exists w2, (stats s1 :: sts), s, rs. rewrite (io_bind_ok _ _ _ _ _ E2). split; [done|]. split; [|done]. constructor; [by exists s1, rs1|done].
Qed.

End runs.

(** ** Two runs over the concrete chain *)

(** tokio's [BufWriter] with its default capacity. *)
Definition toy_buf : BufWriter.
Proof.
  refine {| Bw := bytes; bw_new := []; buffered b := b; bw_flush b := (b, []);
            bw_write b data := if bool_decide (8192 < len b + len data)
                               then if bool_decide (8192 ≤ len data) then (b ++ data, []) else (b, data)
                               else ([], b ++ data) |}; [done| |done].
  intros b data. repeat case_bool_decide; cbn; by rewrite ?app_nil_r, ?app_assoc.
Defined.
Definition real_hex : Hex := {| hex_encode := hex_bytes |}.
#[local] Existing Instances toy_buf real_hex toy_postcard.

Definition prepared_at (h : Z) : PreparedBlockFrame :=
  match get_block_by_height toy_source h with
  | Ok raw => match prepare_raw_block raw with Ok f => f | _ => demo_frame end
  | _ => demo_frame
  end.
Definition prepared0 : PreparedBlockFrame := Eval vm_compute in prepared_at 0.
Definition prepared1 : PreparedBlockFrame := Eval vm_compute in prepared_at 1.
Definition scan_chain (h : Z) : PreparedBlockFrame := if bool_decide (h = 0) then prepared0 else prepared1.

Definition demo_cfg (blocks batch : Z) : ScanConfig := {|
  sc_start := 0; sc_blocks := blocks; sc_source_batch_size := batch; sc_utxo_hash_window := 1; sc_finality_depth := 6;
  sc_checkpoints := {| every := 1; keep := 2; cp_enabled := true |} |}.
Definition fresh_world : World (SK := csv_sink) := {| w_sink := (csv_open_append "rows.csv" [] : @SinkState csv_sink); w_dir := None |}.

Lemma scan_serves : serves scan_chain 0 1 toy_source.
Proof.
  split.
  - intros h Hh. assert (h = 0 ∨ h = 1) as [->| ->] by lia; (eexists; split; [reflexivity|vm_compute; reflexivity]).
  - intros h Hh. assert (h = 0 ∨ h = 1) as [->| ->] by lia; vm_compute; reflexivity.
  - intros s n Hs Hn Hle. assert ((s = 0 ∧ n = 1) ∨ (s = 0 ∧ n = 2) ∨ (s = 1 ∧ n = 1)) as [[-> ->]|[[-> ->]|[-> ->]]] by lia;
      (eexists; split; [reflexivity|vm_compute; reflexivity]).
Qed.
#[local] Instance csv_row_fits_dec r : Decision (csv_row_fits r).
Proof. unfold csv_row_fits, no_break. apply _. Defined.
Lemma scan_chain_ok : chain_ok (SK := csv_sink) scan_chain 0 1 1.
Proof.
  split; [lia|lia| |vm_compute; reflexivity|].
  - intros h Hh. assert (h = 0 ∨ h = 1) as [->| ->] by lia; reflexivity.
  - intros k s rs Hk E. assert (k ≤ -1 ∨ k = 0 ∨ k = 1) as [Hn|Hk'] by lia.
    { unfold ideal, frames_upto in E. rewrite seqZ_nil in E by lia. injection E as _ <-. constructor. }
    assert (match ideal scan_chain 0 1 k with Ok (_, rs) => bool_decide (Forall csv_row_fits rs) = true | _ => False end) as Hb
      by (destruct Hk' as [->| ->]; vm_compute; reflexivity).
    rewrite E in Hb. by apply bool_decide_eq_true in Hb.
Qed.
Lemma fresh_settled : settled (SK := csv_sink) scan_chain 0 1 (-1) fresh_world.
Proof.
  split; [|lia]. split.
  - exists (scanner_new 1), []. split; [reflexivity|]. apply csv_open_holds; [by right|constructor].
  - intros name Hin. by apply elem_of_nil in Hin.
Qed.
Lemma demo_reaches k e blocks batch : k ≤ e ≤ 1 → e = Z.min (saturating_add 64 0 (saturating_sub blocks 1)) 1 →
  run_reaches scan_chain 0 1 1 k e toy_source (demo_cfg blocks batch).
Proof.
  intros Hk He. split; [apply scan_serves|done|done|done|cbn; lia| |lia]. exists 7. split; [reflexivity|].
  change (saturating_sub 7 (sc_finality_depth (demo_cfg blocks batch))) with 1. split; [lia|done].
Qed.

Lemma scan_runs_ideal_witness : ∃ w' sts s rs,
  run_scans (SK := csv_sink) [(toy_source, demo_cfg 1 1); (toy_source, demo_cfg 5 3)] fresh_world = (w', Ok sts) ∧
    Forall2 (λ e st, ∃ s rs, ideal scan_chain 0 1 e = Ok (s, rs) ∧ st = stats s) [0; 1] sts ∧
    ideal scan_chain 0 1 1 = Ok (s, rs) ∧ sink_durable (w_sink w') rs ∧ settled scan_chain 0 1 1 w'.
Proof.
  apply (scan_runs_ideal (SK := csv_sink) scan_chain 0 1 1 [(toy_source, demo_cfg 1 1); (toy_source, demo_cfg 5 3)] [0; 1] (-1) 1 fresh_world
    scan_chain_ok); [lia|exact fresh_settled| |reflexivity].
  split; [apply demo_reaches; [lia|reflexivity]|]. split; [apply demo_reaches; [lia|reflexivity]|done].
Defined.

(** ** The CSV sink does not keep the rows it was given *)

Lemma commit_frame_sink {SK : StatsSink} cfg ls frame w w' ls' : commit_frame (SK := SK) cfg ls frame w = (w', Ok ls') →
  ∃ s row, commit_block (sc_utxo_hash_window cfg) (ls_state ls) frame = Ok (s, row) ∧ w_sink w' = (emit_block row (w_sink w)).1.
Proof.
  unfold commit_frame, mbind, io_bind, lift. destruct (commit_block _ _ _) as [[s row]| |]; [|done|done]. intros E. exists s, row. split; [done|].
  unfold on_sink in E. destruct (emit_block row (w_sink w)) as [sink [[]| |]]; cbn [w_sink w_dir fst] in *; [|done|done].
  destruct (on_committed_block _) as [writer []]; by injection E as <- _.
Qed.

(** After the commit of the first block a checkpoint of it is on disk, and the file is
    still empty: the header and the row are in the writer's buffer.  A crash at this
    point loses the row, and the next run starts after it. *)
Lemma checkpoint_outruns_csv : ∃ w ls, commit_frames (SK := csv_sink) (demo_cfg 5 3)
    {| ls_state := scanner_new 1; ls_writer := writer_new (sc_checkpoints (demo_cfg 5 3)); ls_last := None |} [prepared0] fresh_world = (w, Ok ls) ∧
  list_checkpoints_newest_first (w_dir w) ≠ [] ∧ csv_file (w_sink w) = [].
Proof.
  pose proof scan_chain_ok as [K1 K2 K3 K4 K5]. destruct fresh_settled as [Hs _].
  destruct (commit_frame_ok (SK := csv_sink) scan_chain 0 1 1 K3 K4 K1 K2 K5 (demo_cfg 5 3) eq_refl eq_refl 0 (-1) fresh_world
    {| ls_state := scanner_new 1; ls_writer := writer_new (sc_checkpoints (demo_cfg 5 3)); ls_last := None |}) as (w & ls & E & [_ _ L3 [L4 L5] L6]); [lia|lia| |].
  { split; [done|by exists []|done|cbn; lia|lia]. }
  exists w, ls. split; [cbn [commit_frames]; by rewrite (io_bind_ok _ _ _ _ _ E)|]. split.
  - assert (Hen : writer_enabled (ls_writer ls) = true) by (unfold writer_enabled; by rewrite L3).
    destruct (L6 ltac:(lia)) as [_ Hne]. apply Hne; [done|]. specialize (L5 Hen). cbn in L5. lia.
  - apply commit_frame_sink in E as (s & row & Ec & ->).
    assert (Hrow : match commit_block 1 (scanner_new 1) prepared0 with
                   | Ok (_, row) => csv_file (csv_emit_block row (csv_open_append "rows.csv" [])).1 = [] | _ => True end) by (vm_compute; reflexivity).
    change (commit_block 1 (scanner_new 1) prepared0 = Ok (s, row)) in Ec. rewrite Ec in Hrow. exact Hrow.
Qed.

(** * What a scan does to its world

    Two frame properties of the scan: it keeps what every operation of the sink keeps,
    and without checkpoints it does not look at their directory.  The command without [--resume] is a
    scan of a fresh sink, and ends with the rows of the ideal scan. *)

Section blind.
Context `{RB : !RustBitcoin, ST : !ScriptTemplates, SC : !Scheduler, SH : !Sha256, HX : !Hex, PC : !Postcard} {SK : StatsSink}.

(** The same world with another checkpoint directory. *)
Definition with_dir (d : CheckpointDir) (w : World) : World := {| w_sink := w_sink w; w_dir := d |}.
(** A computation that neither reads nor writes the directory. *)
Definition blind {A} (m : IO A) : Prop := ∀ w d, m (with_dir d w) = (with_dir d (m w).1, (m w).2).

Lemma blind_lift {A} (r : res A) : blind (lift r).
Proof. by intros [s d] d'. Qed.
Lemma blind_sink {A} (op : SinkState → SinkState * res A) : blind (on_sink op).
Proof. intros [s d] d'. unfold on_sink, with_dir. cbn. by destruct (op s). Qed.
Lemma blind_bind {A B} (m : IO A) (f : A → IO B) :
  blind m → (∀ w w' a, m w = (w', Ok a) → blind (f a)) → blind (m ≫= f).
Proof.
  intros Hm Hf w d. unfold mbind, io_bind. rewrite Hm. destruct (m w) as [w' [a|e|p]] eqn:E; cbn [fst snd]; [|done|done].
  by apply (Hf w w').
Qed.

Lemma commit_frame_blind cfg ls frame : writer_enabled (ls_writer ls) = false → blind (commit_frame cfg ls frame).
Proof.
  intros Hw. unfold commit_frame. apply blind_bind; [apply blind_lift|]. intros _ _ [state row] _.
  apply blind_bind; [apply blind_sink|]. intros _ _ [] _. unfold on_committed_block. rewrite Hw. cbn [negb]. apply blind_lift.
Qed.
Lemma commit_frame_disabled cfg ls frame w w' ls' : writer_enabled (ls_writer ls) = false →
  commit_frame cfg ls frame w = (w', Ok ls') → ls_writer ls' = ls_writer ls.
Proof.
  intros Hw. unfold commit_frame, mbind, io_bind, lift. destruct (commit_block _ _ _) as [[state row]| |]; [|done|done].
  destruct (on_sink _ w) as [w1 [[]| |]]; [|done|done]. unfold on_committed_block. rewrite Hw. cbn [negb]. by intros [= _ <-].
Qed.
Lemma commit_frames_blind cfg frames : ∀ ls, writer_enabled (ls_writer ls) = false → blind (commit_frames cfg ls frames) ∧
  ∀ w w' ls', commit_frames cfg ls frames w = (w', Ok ls') → ls_writer ls' = ls_writer ls.
Proof.
  induction frames as [|f frames IH]; intros ls Hw; cbn [commit_frames].
  { split; [apply blind_lift|]. by intros w w' ls' [= _ <-]. }
  split.
  - apply blind_bind; [by apply commit_frame_blind|]. intros w w' ls' E. apply IH. by rewrite (commit_frame_disabled _ _ _ _ _ _ Hw E).
  - intros w w' ls'. unfold mbind, io_bind. destruct (commit_frame cfg ls f w) as [w1 [ls1| |]] eqn:E; [|done|done]. intros E2.
    pose proof (commit_frame_disabled _ _ _ _ _ _ Hw E) as E1. rewrite <-E1. eapply IH; [by rewrite E1|done].
Qed.
Lemma scan_loop_blind source cfg max_end fuel : ∀ next ls, writer_enabled (ls_writer ls) = false → blind (scan_loop fuel source cfg max_end next ls) ∧
  ∀ w w' ls', scan_loop fuel source cfg max_end next ls w = (w', Ok ls') → ls_writer ls' = ls_writer ls.
Proof.
  induction fuel as [|fuel IH]; intros next ls Hw; cbn [scan_loop]; (case_bool_decide; [split; [apply blind_lift|by intros w w' ls' [= _ <-]]|]).
  { split; [apply blind_lift|done]. }
  cbv zeta. set (count := Z.min _ _). split.
  - apply blind_bind; [apply blind_lift|]. intros _ _ batch _. destruct (commit_frames_blind cfg batch ls Hw) as [Hb Hk].
    apply blind_bind; [done|]. intros w w' ls' E. apply IH. by rewrite (Hk _ _ _ E).
  - intros w w' ls'. unfold mbind, io_bind, lift. destruct (fetch_and_prepare_batch source next count) as [batch| |]; [|done|done].
    destruct (commit_frames_blind cfg batch ls Hw) as [_ Hk].
    destruct (commit_frames cfg ls batch w) as [w1 [ls1| |]] eqn:E; [|done|done]. intros E2. specialize (Hk _ _ _ E). rewrite <-Hk.
    eapply IH; [by rewrite Hk|done].
Qed.

(** A property of the sink that its operations keep. *)
Context (P : SinkState → Prop).
Definition keeps_sink {A} (m : IO A) : Prop := ∀ w, P (w_sink w) → P (w_sink (m w).1).
Lemma keeps_lift {A} (r : res A) : keeps_sink (lift r).
Proof. by intros w. Qed.
Lemma keeps_dir op : keeps_sink (on_dir op).
Proof. by intros w. Qed.
Lemma keeps_op {A} (op : SinkState → SinkState * res A) : (∀ s, P s → P (op s).1) → keeps_sink (on_sink op).
Proof. intros Hop w Hw. unfold on_sink. specialize (Hop (w_sink w) Hw). by destruct (op (w_sink w)). Qed.
Lemma keeps_bind {A B} (m : IO A) (f : A → IO B) : keeps_sink m → (∀ a, keeps_sink (f a)) → keeps_sink (m ≫= f).
Proof.
  intros Hm Hf w Hw. unfold mbind, io_bind. specialize (Hm w Hw). destruct (m w) as [w' [a|e|p]]; [|done|done]. by apply Hf.
Qed.
Context (P_block : ∀ r s, P s → P (emit_block r s).1) (P_run : ∀ st s, P s → P (emit_run st s).1)
  (P_rollback : ∀ h s, P s → P (rollback_to_height h s).1) (P_flush : ∀ s, P s → P (flush s).1).

Lemma commit_frames_keeps cfg frames : ∀ ls, keeps_sink (commit_frames cfg ls frames).
Proof.
  induction frames as [|f frames IH]; intros ls; cbn [commit_frames]; [apply keeps_lift|]. apply keeps_bind; [|intros ls'; apply IH].
  apply keeps_bind; [apply keeps_lift|]. intros [state row]. apply keeps_bind; [apply keeps_op; eauto|]. intros _.
  destruct (on_committed_block _) as [writer []]; [|apply keeps_lift]. apply keeps_bind; [apply keeps_dir|]. intros _. apply keeps_lift.
Qed.
Lemma scan_loop_keeps source cfg max_end fuel : ∀ next ls, keeps_sink (scan_loop fuel source cfg max_end next ls).
Proof.
  induction fuel as [|fuel IH]; intros next ls; cbn [scan_loop]; (case_bool_decide; [apply keeps_lift|]); [apply keeps_lift|]. cbv zeta.
  apply keeps_bind; [apply keeps_lift|]. intros batch. apply keeps_bind; [apply commit_frames_keeps|]. intros ls'. apply IH.
Qed.
Lemma scan_keeps source cfg : keeps_sink (scan source cfg).
Proof.
  unfold scan. apply keeps_bind; [apply keeps_lift|]. intros best. cbv zeta. case_bool_decide; [apply keeps_lift|].
  apply keeps_bind.
  - destruct (cp_enabled _); [|apply keeps_lift]. apply keeps_bind; [by intros w|]. intros [c|]; [|apply keeps_lift].
    apply keeps_bind; [apply keeps_op; eauto|]. intros _. apply keeps_lift.
  - intros [scan_start state]. unfold scan_from. case_bool_decide; [apply keeps_lift|]. apply keeps_bind; [apply scan_loop_keeps|]. intros ls.
    apply keeps_bind. { destruct (needs_final_flush _); [|apply keeps_lift]. destruct (ls_last ls) as [[]|]; [apply keeps_dir|apply keeps_lift]. }
    intros _. apply keeps_bind; [apply keeps_op; eauto|]. intros _. apply keeps_bind; [apply keeps_op; eauto|]. intros _. apply keeps_lift.
Qed.
End blind.

Section plain.
Context `{RB : !RustBitcoin, ST : !ScriptTemplates, SC : !Scheduler, SH : !Sha256, HX : !Hex, PC : !Postcard} {SK : StatsSink} `{EL : !EmitLaws SK}.
Context (chain : Z → PreparedBlockFrame) (start window hi : Z).
Context (chain_heights : ∀ h, start ≤ h ≤ hi → pf_height (chain h) = h) (chain_fits : chain_outputs (frames_upto chain start hi) < 2 ^ 60).
Context (start_pos : 0 ≤ start) (hi_small : hi < 10 ^ 12).
Context (rows_fit : ∀ k s rs, k ≤ hi → ideal chain start window k = Ok (s, rs) → Forall row_fits rs).
Context (cfg : ScanConfig) (cfg_start : sc_start cfg = start) (cfg_window : sc_utxo_hash_window cfg = window)
  (cfg_every : 0 ≤ every (sc_checkpoints cfg) < 2 ^ 64) (cfg_disabled : cp_enabled (sc_checkpoints cfg) = false).

(** A scan of a fresh sink without checkpoints is the ideal scan, whatever the directory
    holds, and leaves the directory as it is. *)
Lemma scan_plain source tip w : serves chain start hi source → get_best_height source = Ok tip → sink_holds (w_sink w) [] →
  let safe := saturating_sub tip (sc_finality_depth cfg) in
  let max_end := Z.min (saturating_add 64 start (saturating_sub (sc_blocks cfg) 1)) safe in
  start ≤ safe → max_end ≤ hi →
  ∃ w' s rs, scan source cfg w = (w', Ok (stats s)) ∧ ideal chain start window max_end = Ok (s, rs) ∧
    sink_durable (w_sink w') rs ∧ w_dir w' = w_dir w.
Proof.
  intros Hsrc Htip Hsink safe max_end Hsafe Hme. unfold scan. rewrite (io_bind_ok _ _ w w tip) by (unfold lift; by rewrite Htip).
  rewrite cfg_start. fold safe. rewrite bool_decide_false by lia. fold max_end.
  assert (Hms : start ≤ max_end) by (clear -Hsafe Hme start_pos hi_small; unfold max_end, saturating_add, saturating_sub, umax in *; lia).
  rewrite cfg_disabled. rewrite (io_bind_ok _ _ w w (start, scanner_new window)) by by rewrite cfg_window.
  unfold scan_from. rewrite bool_decide_false by lia. set (ls0 := {| ls_state := scanner_new window; ls_writer := _; ls_last := None |}).
  assert (Hoff : writer_enabled (ls_writer ls0) = false) by (unfold writer_enabled; cbn; by rewrite cfg_disabled).
  set (fuel := Z.to_nat _). set (w0 := with_dir None w).
  assert (H0 : loop_ok chain start window cfg start (start - 1) w0 ls0).
  { split; [split| |done|split; [cbn; lia|intros He; by rewrite Hoff in He]|lia].
    - exists (scanner_new window), []. split; [|done]. unfold ideal, frames_upto. by replace (start - 1 - start + 1) with 0 by lia.
    - intros name Hin. by apply elem_of_nil in Hin.
    - exists []. unfold ideal, frames_upto. by replace (start - 1 - start + 1) with 0 by lia. }
  destruct (scan_loop_ok chain start window hi chain_heights chain_fits start_pos hi_small rows_fit cfg cfg_window (proj2 cfg_every)
    source start max_end fuel Hsrc Hme (start - 1) w0 ls0) as (w1 & ls & E & [[(s & rs & Ei & Hrows) _] (rs1 & Es1) _ _ _]); [lia|lia|done|].
  rewrite Ei in Es1. injection Es1 as -> ->. replace (start - 1 + 1) with start in E by lia.
  destruct (scan_loop_blind source cfg max_end fuel start ls0 Hoff) as [Hb Hk]. pose proof (Hk _ _ _ E) as Hwr.
  assert (E' : scan_loop fuel source cfg max_end start ls0 w = (with_dir (w_dir w) w1, Ok ls)).
  { replace w with (with_dir (w_dir w) w0) at 1 by (by destruct w). by rewrite Hb, E. }
  rewrite (io_bind_ok _ _ _ _ _ E'). unfold needs_final_flush. rewrite Hwr, Hoff. cbn [andb]. set (w2 := with_dir (w_dir w) w1).
  rewrite (io_bind_ok _ _ w2 w2 tt) by done.
  destruct (emit_run_holds (w_sink w1) rs1 (stats (ls_state ls)) Hrows) as (s2 & E2 & H2).
  rewrite (io_bind_ok _ _ _ {| w_sink := s2; w_dir := w_dir w |} tt) by (unfold on_sink; cbn [w2 with_dir w_sink w_dir]; by rewrite E2).
  destruct (flush_holds s2 rs1 H2) as (s3 & E3 & H3).
  rewrite (io_bind_ok _ _ _ {| w_sink := s3; w_dir := w_dir w |} tt) by (unfold on_sink; cbn [w_sink w_dir]; by rewrite E3).
  by exists {| w_sink := s3; w_dir := w_dir w |}, (ls_state ls), rs1.
Qed.
End plain.
