(* ===== verification/Text.v ===== *)
(** * Text of HTTP bodies

    What the sources use of [str] and of the [hex] crate on the answers of a node: the
    Unicode trim, the ASCII classes and decoding.  Strings are their UTF-8 bytes.  The
    [hex] crate is the parameter [HexDecode] with its documented behaviour. *)

From S2P Require Import Prelude Decimal JsonWire.

(** [char::is_ascii_hexdigit], [u8::is_ascii_whitespace]. *)
Definition is_ascii_hexdigit (c : Z) : bool :=
  bool_decide (48 ≤ c ≤ 57) || bool_decide (65 ≤ c ≤ 70) || bool_decide (97 ≤ c ≤ 102).
Definition is_ascii_whitespace (c : Z) : bool := bool_decide (c ∈ [9; 10; 12; 13; 32]).

Fixpoint skip_while (p : Z → bool) (s : bytes) : bytes :=
  match s with [] => [] | c :: t => if p c then skip_while p t else s end.

(** The encodings of the characters with the property [White_Space]. *)
Definition whitespace : list bytes :=
  [[9]; [10]; [11]; [12]; [13]; [32]; [194; 133]; [194; 160]; [225; 154; 128]] ++
  ((λ c, [226; 128; c]) <$> seqZ 128 11) ++
  [[226; 128; 168]; [226; 128; 169]; [226; 128; 175]; [226; 129; 159]; [227; 128; 128]].

(** Drops the encodings of [ws] from the front; every turn drops a byte at least. *)
Fixpoint strip_front (ws : list bytes) (fuel : nat) (s : bytes) : bytes :=
  match fuel with
  | O => s
  | S fuel =>
      match List.find (λ w, bool_decide (take (length w) s = w)) ws with
      | Some w => strip_front ws fuel (drop (length w) s)
      | None => s
      end
  end.
Definition trim_start (s : bytes) : bytes := strip_front whitespace (length s) s.
Definition trim_end (s : bytes) : bytes := reverse (strip_front (reverse <$> whitespace) (length s) (reverse s)).
Definition trim (s : bytes) : bytes := trim_end (trim_start s).

(** [s.ends_with(c)] and [s.pop()] for an ASCII character, in a loop. *)
Definition trim_end_char (c : Z) (s : bytes) : bytes := reverse (skip_while (λ b, bool_decide (b = c)) (reverse s)).

(** [s.split_once(c)]. *)
Fixpoint split_once (c : Z) (s : bytes) : option (bytes * bytes) :=
  match s with
  | [] => None
  | b :: t => if bool_decide (b = c) then Some ([], t) else (λ '(l, r), (b :: l, r)) <$> split_once c t
  end.
(** [s.contains(pattern)]. *)
Fixpoint contains (pattern s : bytes) : bool :=
  bool_decide (take (length pattern) s = pattern) || match s with [] => false | _ :: t => contains pattern t end.

(** The [hex] crate: [decode] reads two digits of either case per byte and fails on odd
    lengths and other characters; [encode] writes lower case. *)
Class HexDecode `{HX : Hex} := {
  hex_decode : bytes → res bytes;
  hex_encode_digits b : bytes_wf b → Forall (λ c, is_ascii_hexdigit c = true) (hex_encode b);
  hex_encode_length b : length (hex_encode b) = (2 * length b)%nat;
  hex_decode_encode b : bytes_wf b → hex_decode (hex_encode b) = Ok b;
  hex_decode_length s b : hex_decode s = Ok b → length s = (2 * length b)%nat;
  hex_decode_digits s n : length s = (2 * n)%nat → Forall (λ c, is_ascii_hexdigit c = true) s → is_ok (hex_decode s) = true;
  hex_decode_no_panic s : no_panic (hex_decode s)
}.
#[global] Arguments HexDecode {HX}.

(** [hex::decode_to_slice] into [n] bytes. *)
Definition decode_to_slice `{!Hex, !HexDecode} (s : bytes) (n : nat) : res bytes :=
  if bool_decide (length s = 2 * n)%nat then hex_decode s else Err "Invalid string length".

(** ** Lemmas *)

Lemma hexdigit_range c : is_ascii_hexdigit c = true ↔ (48 ≤ c ≤ 57 ∨ 65 ≤ c ≤ 70 ∨ 97 ≤ c ≤ 102).
Proof. unfold is_ascii_hexdigit. rewrite !orb_true_iff, !bool_decide_eq_true. tauto. Qed.

(** A byte that is no whitespace and starts no whitespace ends the stripping. *)
Lemma strip_front_stop ws fuel c s : Forall (λ w, head w ≠ Some c ∧ w ≠ []) ws → strip_front ws fuel (c :: s) = c :: s.
Proof.
  intros Hws. destruct fuel as [|fuel]; [done|]. cbn [strip_front].
  destruct (List.find _ ws) as [w|] eqn:E; [|done]. apply find_some in E as [Hin Hw]. apply list_elem_of_In in Hin.
  rewrite Forall_forall in Hws. destruct (Hws w Hin) as [Hc Hn]. apply bool_decide_eq_true in Hw.
  destruct w as [|b w]; [done|]. cbn [length take] in Hw. injection Hw as -> _. by cbn in Hc.
Qed.
Lemma strip_front_nil ws fuel : Forall (λ w, w ≠ []) ws → strip_front ws fuel [] = [].
Proof.
  intros Hws. destruct fuel as [|fuel]; [done|]. cbn [strip_front].
  destruct (List.find _ ws) as [w|] eqn:E; [|done]. apply find_some in E as [Hin Hw]. apply list_elem_of_In in Hin.
  rewrite Forall_forall in Hws. apply bool_decide_eq_true in Hw. destruct w; [by destruct (Hws [] Hin)|]. by rewrite take_nil in Hw.
Qed.

(** A printable ASCII byte. *)
Definition printable (c : Z) : Prop := 32 < c < 127.
Lemma printable_stops c : printable c → Forall (λ w, head w ≠ Some c ∧ w ≠ []) whitespace ∧
  Forall (λ w, head w ≠ Some c ∧ w ≠ []) (reverse <$> whitespace).
Proof.
  unfold printable. intros Hc. split; vm_compute; repeat (constructor; [split; [intros [= E]; lia|done]|]); constructor.
Qed.
Lemma reverse_printable s d r : Forall printable s → reverse s = d :: r → printable d.
Proof. intros Hs%Forall_reverse E. rewrite E in Hs. by inversion Hs. Qed.
Lemma trim_end_printable s : Forall printable s → reverse (strip_front (reverse <$> whitespace) (length s) (reverse s)) = s.
Proof.
  intros Hs. destruct (reverse s) as [|d r] eqn:E; rewrite <-(reverse_involutive s), E.
  - rewrite strip_front_nil; [done|]. vm_compute. repeat constructor; done.
  - rewrite strip_front_stop; [done|]. by eapply printable_stops, reverse_printable.
Qed.
Lemma trim_start_printable c s : printable c → trim_start (c :: s) = c :: s.
Proof. intros Hc. apply strip_front_stop. by apply printable_stops. Qed.
Lemma trim_printable s : Forall printable s → trim s = s.
Proof.
  intros Hs. unfold trim. destruct s as [|c s]; [done|]. rewrite trim_start_printable by by inversion Hs.
  by apply trim_end_printable.
Qed.
(** The newline a node ends its text answers with. *)
Lemma trim_newline s : Forall printable s → trim (s ++ [10]) = s.
Proof.
  intros Hs. unfold trim. destruct s as [|c s]; [done|]. rewrite <-app_comm_cons, trim_start_printable by by inversion Hs.
  unfold trim_end. rewrite app_comm_cons, reverse_app, length_app, Nat.add_comm. change (reverse [10]) with [10].
  change (length [10]) with 1%nat. cbn [app strip_front Nat.add].
  assert (∀ t, List.find (λ w, bool_decide (take (length w) (10 :: t) = w)) (reverse <$> whitespace) = Some [10]) as H
    by (intros t; vm_compute; reflexivity).
  rewrite H. change (drop (length [10]) (10 :: reverse (c :: s))) with (reverse (c :: s)). by apply trim_end_printable.
Qed.

Lemma hexdigit_printable s : Forall (λ c, is_ascii_hexdigit c = true) s → Forall printable s.
Proof. intros Hs. eapply Forall_impl; [exact Hs|]. intros c H%hexdigit_range. unfold printable. lia. Qed.
Lemma forallb_hexdigits s : forallb is_ascii_hexdigit s = true ↔ Forall (λ c, is_ascii_hexdigit c = true) s.
Proof. rewrite forallb_forall, Forall_forall. by setoid_rewrite list_elem_of_In. Qed.

(** A 64-digit text decodes to 32 bytes. *)
Lemma decode_to_slice_encode `{HX : Hex, HD : !HexDecode} b n : bytes_wf b → length b = n → decode_to_slice (hex_encode b) n = Ok b.
Proof.
  intros Hb Hn. unfold decode_to_slice. rewrite bool_decide_true by (rewrite hex_encode_length; lia). by apply hex_decode_encode.
Qed.
Lemma decode_to_slice_length `{HX : Hex, HD : !HexDecode} s n b : decode_to_slice s n = Ok b → length b = n.
Proof. unfold decode_to_slice. case_bool_decide; [|done]. intros E%hex_decode_length. lia. Qed.

(** ** The crate's algorithm, for the concrete instances *)
Definition hex_value (c : Z) : Z := if bool_decide (c ≤ 57) then c - 48 else if bool_decide (c ≤ 70) then c - 55 else c - 87.
Fixpoint hex_read (s : bytes) : res bytes :=
  match s with
  | [] => Ok []
  | [_] => Err "Odd number of digits"
  | a :: b :: t =>
      if is_ascii_hexdigit a && is_ascii_hexdigit b then (λ bs, 16 * hex_value a + hex_value b :: bs) <$> hex_read t
      else Err "Invalid character"
  end.
Lemma hex_read_pairs (P : bytes → Prop) : P [] → (∀ a, P [a]) → (∀ a b t, P t → P (a :: b :: t)) → ∀ s, P s.
Proof.
  intros H0 H1 H2. fix IH 1. intros [|a [|b t]]; [exact H0|apply H1|apply H2, IH].
Qed.
Lemma hex_read_length s b : hex_read s = Ok b → length s = (2 * length b)%nat.
Proof.
  revert b. induction s as [|a|a c t IH] using hex_read_pairs; intros b; cbn [hex_read]; [by intros [= <-]|done|].
  destruct (_ && _); [|done]. destruct (hex_read t) as [bs| |]; [|done|done]. cbn [fmap res_fmap]. intros [= <-].
  specialize (IH bs eq_refl). cbn [length]. lia.
Qed.
Lemma hex_read_digits s n : length s = (2 * n)%nat → Forall (λ c, is_ascii_hexdigit c = true) s → is_ok (hex_read s) = true.
Proof.
  revert n. induction s as [|a|a c t IH] using hex_read_pairs; intros n Hl Hs; cbn [hex_read]; [done|cbn in Hl; lia|].
  rewrite !Forall_cons in Hs. destruct Hs as (-> & -> & Hs). cbn [andb].
  specialize (IH (n - 1)%nat ltac:(cbn in Hl; lia) Hs). by destruct (hex_read t).
Qed.
Lemma hex_read_no_panic s : no_panic (hex_read s).
Proof.
  induction s as [|a|a c t IH] using hex_read_pairs; intros p; cbn [hex_read]; [done|done|].
  destruct (_ && _); [|done]. destruct (hex_read t) as [| |q]; [done|done|]. by destruct (IH q).
Qed.
