(* ===== verification/Node.v ===== *)
(** * What a source promises

    The contract between the source trait of [core/src/source.rs] and its clients: the
    answers of a source that is backed by a node with the best chain [chain], up to the
    height [tip].  The adapters are proved to keep it over an honest node
    ([RestSource], [RpcSource], [EsploraSource], [IpcSource], [MultiSource]); the
    indexer and the scanner are proved correct over any source that keeps it. *)

From S2P Require Import Prelude UndoPayload Sources Tasks.

Record NodeBlock := { nb_hash : bytes; nb_bytes : bytes; nb_undo : BlockSpentTxOuts }.

(** The default range over a method that answers every height. *)
Lemma default_range_frames (by_height : Z → res RawBlockFrame) (f : Z → RawBlockFrame) start n :
  0 ≤ start → start + Z.of_nat n < 2 ^ 64 → (∀ h, start ≤ h < start + Z.of_nat n → by_height h = Ok (f h)) →
  default_range by_height start n = Ok (f <$> seqZ start (Z.of_nat n)).
Proof.
  intros H0 Hw Hf. unfold default_range. rewrite (map_res_seqZ _ (λ o, f (start + o))).
  - f_equal. pose proof (fmap_add_seqZ start 0 (Z.of_nat n)) as E. rewrite Z.add_0_r in E. by rewrite <-E, <-list_fmap_compose.
  - intros i Hi. rewrite wrap_small by (unfold in_width; lia). apply Hf. lia.
Qed.

Section node.
Context (chain : Z → NodeBlock) (tip : Z).

(** Heights are [i32] in Bitcoin Core; hashes have 32 bytes. *)
Record node_wf : Prop := {
  nw_tip : 0 ≤ tip < 2 ^ 31;
  nw_hash h : 0 ≤ h ≤ tip → bytes_wf (nb_hash (chain h)) ∧ length (nb_hash (chain h)) = 32%nat
}.

Definition frame_at (undo : bool) (h : Z) : RawBlockFrame := {|
  rf_height := h; rf_hash := nb_hash (chain h); rf_bytes := nb_bytes (chain h);
  rf_spent_txouts := if undo then Some (nb_undo (chain h)) else None |}.

(** The answers about the blocks of the chain; [undo] tells whether the source knows the
    spent outputs. *)
Record serves_chain (undo : bool) (source : BlockSource) : Prop := {
  sc_hash h : 0 ≤ h ≤ tip → get_block_hash source h = Ok (nb_hash (chain h));
  sc_raw h : 0 ≤ h ≤ tip → get_block_raw source (nb_hash (chain h)) = Ok (nb_bytes (chain h));
  sc_best : get_best_height source = Ok tip;
  sc_by_height h : 0 ≤ h ≤ tip → get_block_by_height source h = Ok (frame_at undo h);
  sc_range start n : 0 ≤ start → (0 < n)%nat → start + Z.of_nat n ≤ tip + 1 →
    get_block_range_by_height source start n = Ok (frame_at undo <$> seqZ start (Z.of_nat n));
  sc_undo h : 0 ≤ h ≤ tip →
    get_block_spent_txouts source (nb_hash (chain h)) = Ok (if undo then Some (nb_undo (chain h)) else None);
  sc_undos hs : hs ≠ [] → Forall (λ h, 0 ≤ h ≤ tip) hs →
    get_blocks_spent_txouts source ((λ h, nb_hash (chain h)) <$> hs) =
      Ok ((λ h, if undo then Some (nb_undo (chain h)) else None) <$> hs);
  sc_flag : supports_block_spent_txouts source = undo
}.

(** A batch over the chain is the list of its blocks. *)
Lemma serves_ranges undo source start n : serves_chain undo source → 0 ≤ start → (0 < n)%nat → start + Z.of_nat n ≤ tip + 1 →
  get_block_range_by_height source start n = map_res (get_block_by_height source) (seqZ start (Z.of_nat n)).
Proof.
  intros Hs H0 Hn Ht. rewrite (sc_range _ _ Hs) by done. symmetry. apply map_res_seqZ. intros i Hi.
  apply (sc_by_height _ _ Hs). lia.
Qed.

(** The default methods keep the contract when the required ones do. *)
Lemma default_blocks_undos (spent : bytes → res (option BlockSpentTxOuts)) (f : Z → option BlockSpentTxOuts) hs :
  (∀ h, 0 ≤ h ≤ tip → spent (nb_hash (chain h)) = Ok (f h)) → Forall (λ h, 0 ≤ h ≤ tip) hs →
  default_blocks_spent_txouts spent ((λ h, nb_hash (chain h)) <$> hs) = Ok (f <$> hs).
Proof.
  intros Hs Hh. unfold default_blocks_spent_txouts. apply map_res_Ok. rewrite Forall2_fmap.
  induction Hh; constructor; [by apply Hs|done].
Qed.
Lemma default_serves hash_of raw nm : node_wf →
  (∀ h, 0 ≤ h ≤ tip → hash_of h = Ok (nb_hash (chain h))) → (∀ h, 0 ≤ h ≤ tip → raw (nb_hash (chain h)) = Ok (nb_bytes (chain h))) →
  serves_chain false (default_source hash_of raw (Ok tip) nm).
Proof.
  intros [Ht _] Hh Hr. split; try done.
  - intros h H. cbn. unfold default_by_height. rewrite Hh by done. rsimpl. by rewrite Hr by done.
  - intros start n H0 Hn Hs. apply default_range_frames; [done|lia|]. intros h H. cbn.
    unfold default_by_height. rewrite Hh by lia. rsimpl. rewrite Hr by lia. done.
  - intros hs _ Hhs. apply default_blocks_undos; [|done]. done.
Qed.
End node.
