(* ===== verification/RestSource.v ===== *)
(** * Bitcoin Core's REST interface as a source

    Model of [sources/src/rest.rs].  The HTTP client is the parameter [HttpClient]: one
    GET request answered with a status, headers and a body, or failed.  The requests of
    a batch run together; a batch is for at least one block ([buffer_unordered(0)] of
    [futures] never yields, and no caller asks for an empty batch).  Texts are UTF-8
    bytes; [serde_json] on the chain information is the parameter [ChainInfoJson].  The
    client's time-outs and pool are not modelled. *)

From S2P Require Import Prelude Decimal UndoPayload Sources Tasks JsonWire Text Node.

(** A body can fail to arrive; [resp_retry_after] is the header [Retry-After]. *)
Record HttpResponse := { resp_status : Z; resp_retry_after : option bytes; resp_body : res bytes }.
(** [reqwest]: [text_of] is the decoding of a body to a string (the identity on ASCII). *)
Class HttpClient := {
  http_get : bytes → res HttpResponse;
  text_of : bytes → bytes;
  text_ascii s : Forall (λ c, 0 ≤ c < 128) s → text_of s = s
}.
Class ChainInfoJson := { parse_chain_info : bytes → res Z }.

(** [StatusCode::is_success]. *)
Definition is_success (status : Z) : bool := bool_decide (200 ≤ status < 300).

Record RestSource := { rest_base : bytes }.
Definition normalize_base (base : bytes) : bytes := trim_end_char 47 base.
Definition rest_new (base : bytes) : RestSource := {| rest_base := normalize_base base |}.

Definition to_hex_display `{!Hex} (hash : bytes) : bytes := hex_encode (reverse hash).

(** The body without surrounding ASCII whitespace. *)
Definition trim_ascii (bs : bytes) : bytes :=
  reverse (skip_while is_ascii_whitespace (reverse (skip_while is_ascii_whitespace bs))).
Definition decode_rest_binary_or_hex `{!Hex, !HexDecode} (bs : bytes) : res bytes :=
  let trimmed := trim_ascii bs in
  if negb (bool_decide (trimmed = [])) && Nat.even (length trimmed) && forallb is_ascii_hexdigit trimmed then
    match hex_decode trimmed with
    | Ok decoded => Ok decoded
    | Err _ => Err "REST {what} looked like hex but failed to decode"
    | Panic p => Panic p
    end
  else Ok bs.

Section rest.
Context `{HX : Hex, HD : !HexDecode, HC : !HttpClient, CI : !ChainInfoJson, SD : !Scheduler}.

Definition url (self : RestSource) (path : bytes) : bytes := rest_base self ++ path.

(** [get_text] and [get_bytes] differ in what they read of a successful answer. *)
Definition rest_get (self : RestSource) (path : bytes) : res bytes :=
  resp ← http_get (url self path);
  if negb (is_success (resp_status resp)) then Err "REST {} for {}: {}" else resp_body resp.
Definition get_text (self : RestSource) (path : bytes) : res bytes := text_of <$> rest_get self path.
Definition get_bytes (self : RestSource) (path : bytes) : res bytes := rest_get self path.

Definition block_hash_path (height : Z) : bytes :=
  ascii_bytes "/rest/blockhashbyheight/" ++ to_decimal height ++ ascii_bytes ".hex".
Definition raw_path (hash : bytes) : bytes := ascii_bytes "/rest/block/" ++ to_hex_display hash ++ ascii_bytes ".bin".
Definition undo_path (hash : bytes) : bytes := ascii_bytes "/rest/spenttxouts/" ++ to_hex_display hash ++ ascii_bytes ".bin".

(** The check on the text of a block hash, also of the Esplora source. *)
Definition parse_block_hash (text : bytes) : res bytes :=
  let trimmed := trim text in
  if negb (bool_decide (length trimmed = 64%nat)) || negb (forallb is_ascii_hexdigit trimmed)
  then Err "expected 64-char hex block hash for height"
  else reverse <$> decode_to_slice trimmed 32.

Definition rest_block_hash (self : RestSource) (height : Z) : res bytes :=
  text ← get_text self (block_hash_path height);
  parse_block_hash text.
Definition rest_block_raw (self : RestSource) (hash : bytes) : res bytes := get_bytes self (raw_path hash).
Definition rest_block_spent_txouts (self : RestSource) (hash : bytes) : res (option BlockSpentTxOuts) :=
  bs ← get_bytes self (undo_path hash);
  bs ← decode_rest_binary_or_hex bs;
  Some <$> decode_spent_txouts_payload bs.
Definition rest_block_by_height (self : RestSource) (height : Z) : res RawBlockFrame :=
  hash ← rest_block_hash self height;
  '(bs, spent_txouts) ← try_join (rest_block_raw self hash) (rest_block_spent_txouts self hash);
  Ok {| rf_height := height; rf_hash := hash; rf_bytes := bs; rf_spent_txouts := spent_txouts |}.
Definition rest_best_height (self : RestSource) : res Z :=
  text ← get_text self (ascii_bytes "/rest/chaininfo.json");
  parse_chain_info text.

(** ** Batches *)
Definition get_block_hashes_by_height (self : RestSource) (start_height : Z) (count : nat) : res (list bytes) :=
  in_key_order (run_tagged id (rest_block_hash self) ((λ offset, wrap 64 (start_height + offset)) <$> seqZ 0 (Z.of_nat count))).
(** The requests of [hashes], tagged with their positions. *)
Definition run_indexed {A} (task : bytes → res A) (hashes : list bytes) : res (list A) :=
  in_key_order (run_tagged fst (λ '(_, hash), task hash) (imap (λ i hash, (Z.of_nat i, hash)) hashes)).
Definition get_blocks_raw (self : RestSource) (hashes : list bytes) : res (list bytes) :=
  run_indexed (rest_block_raw self) hashes.
Definition rest_blocks_spent_txouts (self : RestSource) (hashes : list bytes) : res (list (option BlockSpentTxOuts)) :=
  run_indexed (rest_block_spent_txouts self) hashes.
Definition rest_block_range (self : RestSource) (start_height : Z) (count : nat) : res (list RawBlockFrame) :=
  hashes ← get_block_hashes_by_height self start_height count;
  '(blocks, spent_txouts) ← try_join (get_blocks_raw self hashes) (rest_blocks_spent_txouts self hashes);
  if bool_decide (length blocks ≠ length hashes) then Err "REST batch returned {} blocks for {} hashes"
  else if bool_decide (length spent_txouts ≠ length hashes) then Err "REST batch returned {} spenttxouts entries for {} hashes"
  else Ok (imap (λ offset '(hash, bs, spent), {|
    rf_height := wrap 64 (start_height + Z.of_nat offset); rf_hash := hash; rf_bytes := bs; rf_spent_txouts := spent |})
    (zip (zip hashes blocks) spent_txouts)).

Definition rest_source (self : RestSource) : BlockSource := {|
  get_block_hash := rest_block_hash self;
  get_block_raw := rest_block_raw self;
  get_block_spent_txouts := rest_block_spent_txouts self;
  get_blocks_spent_txouts := rest_blocks_spent_txouts self;
  get_best_height := rest_best_height self;
  get_block_by_height := rest_block_by_height self;
  get_block_range_by_height := rest_block_range self;
  supports_block_range_batches := true;
  supports_block_spent_txouts := true;
  prefers_height_fetch := false;
  source_name := rest_base self |}.
End rest.

(** ** Spent outputs: binary or hex *)

Lemma skip_while_elem p s c : c ∈ s → p c = false → c ∈ skip_while p s.
Proof.
  intros Hc Hp. induction s as [|b s IH]; [done|]. cbn [skip_while]. destruct (p b) eqn:E; [|done].
  apply IH. by apply elem_of_cons in Hc as [->|?]; [congruence|].
Qed.
Lemma skip_while_none p s : Forall (λ c, p c = false) s → skip_while p s = s.
Proof. inversion 1; [done|]. cbn. by rewrite H0. Qed.
Lemma trim_ascii_elem bs c : c ∈ bs → is_ascii_whitespace c = false → c ∈ trim_ascii bs.
Proof.
  intros Hc Hp. unfold trim_ascii. rewrite elem_of_reverse. apply skip_while_elem; [|done].
  rewrite elem_of_reverse. by apply skip_while_elem.
Qed.
Lemma hexdigit_not_white c : is_ascii_hexdigit c = true → is_ascii_whitespace c = false.
Proof.
  intros H%hexdigit_range. unfold is_ascii_whitespace. apply bool_decide_eq_false. rewrite !elem_of_cons, elem_of_nil. lia.
Qed.
Lemma trim_ascii_hex s : Forall (λ c, is_ascii_hexdigit c = true) s → trim_ascii (s ++ [10]) = s.
Proof.
  intros Hs. assert (Hw : Forall (λ c, is_ascii_whitespace c = false) s).
  { eapply Forall_impl; [exact Hs|]. apply hexdigit_not_white. }
  unfold trim_ascii. destruct s as [|c s]; [done|]. inversion Hw as [|? ? Hc Hw']; subst.
  cbn [app skip_while]. rewrite Hc, app_comm_cons, reverse_app. change (reverse [10]) with [10]. cbn [app skip_while].
  change (is_ascii_whitespace 10) with true. cbn [skip_while].
  rewrite skip_while_none; [apply reverse_involutive|]. by apply Forall_reverse.
Qed.

Section decode.
Context `{HX : Hex, HD : !HexDecode}.

(** Hex text is decoded, surrounded by whitespace or not. *)
Lemma decode_rest_hex bs : bytes_wf bs → bs ≠ [] → decode_rest_binary_or_hex (hex_encode bs ++ [10]) = Ok bs.
Proof.
  intros Hb Hn. unfold decode_rest_binary_or_hex. rewrite trim_ascii_hex by by apply hex_encode_digits.
  pose proof (hex_encode_length bs) as Hl. rewrite bool_decide_false.
  2: { intros E. rewrite E in Hl. destruct bs; [done|]. cbn in Hl. lia. }
  rewrite Hl, Nat.even_mul. cbn [negb andb orb Nat.even].
  rewrite (proj2 (forallb_hexdigits _)) by by apply hex_encode_digits. by rewrite hex_decode_encode.
Qed.
(** A payload with a byte that is neither a digit nor whitespace is binary. *)
Lemma decode_rest_binary bs c : c ∈ bs → is_ascii_whitespace c = false → is_ascii_hexdigit c = false →
  decode_rest_binary_or_hex bs = Ok bs.
Proof.
  intros Hc Hw Hx. unfold decode_rest_binary_or_hex.
  destruct (forallb is_ascii_hexdigit (trim_ascii bs)) eqn:E; [|by rewrite andb_false_r].
  apply forallb_hexdigits in E. rewrite Forall_forall in E. pose proof (E c (trim_ascii_elem bs c Hc Hw)). congruence.
Qed.

(** The undo data of a block starts with the coinbase, which spends nothing. *)
Record undo_wf (u : BlockSpentTxOuts) : Prop := {
  uw_payload : payload_wf u; uw_bytes : bytes_wf (payload_bytes u); uw_coinbase : head (undo_txs u) = Some []
}.
Lemma undo_payload_zero u : head (undo_txs u) = Some [] → 0 ∈ payload_bytes u.
Proof.
  destruct u as [[|ins txs]]; [done|]. cbn. intros [= ->]. unfold payload_bytes. cbn [undo_txs].
  rewrite elem_of_app. right. rewrite bind_cons, elem_of_app. left. by vm_compute; left.
Qed.
Lemma decode_rest_undo u payload : undo_wf u → payload = payload_bytes u ∨ payload = hex_encode (payload_bytes u) ++ [10] →
  (bs ← decode_rest_binary_or_hex payload; decode_spent_txouts_payload bs) = Ok u.
Proof.
  intros [Hp Hb Hc] Hpay. pose proof (undo_payload_zero u Hc) as H0.
  assert (decode_rest_binary_or_hex payload = Ok (payload_bytes u)) as ->.
  { destruct Hpay as [-> | ->]; [by apply (decode_rest_binary _ 0)|apply decode_rest_hex; [done|]]. by intros E; rewrite E in H0; apply elem_of_nil in H0. }
  by apply spent_txouts_roundtrip.
Qed.
End decode.

(** ** Over an honest node *)
Section honest.
Context `{HX : Hex, HD : !HexDecode, HC : !HttpClient, CI : !ChainInfoJson, SD : !Scheduler}.

Lemma parse_block_hash_newline hash : bytes_wf hash → length hash = 32%nat →
  parse_block_hash (text_of (to_hex_display hash ++ [10])) = Ok hash.
Proof.
  intros Hb Hl. unfold to_hex_display. pose proof (hex_encode_digits (reverse hash) (proj2 (Forall_reverse _ _) Hb)) as Hd.
  rewrite text_ascii.
  2: { apply Forall_app. split; [|repeat constructor; lia]. eapply Forall_impl; [exact Hd|]. intros c Hc%hexdigit_range. lia. }
  unfold parse_block_hash. rewrite trim_newline by by apply hexdigit_printable.
  rewrite hex_encode_length, length_reverse, Hl, (proj2 (forallb_hexdigits _)) by done.
  rewrite decode_to_slice_encode by (first [by apply Forall_reverse|by rewrite length_reverse]).
  cbn. by rewrite reverse_involutive.
Qed.
(** Whatever the server answers, a returned hash has 32 bytes. *)
Lemma parse_block_hash_length text hash : parse_block_hash text = Ok hash → length hash = 32%nat.
Proof.
  unfold parse_block_hash. destruct (_ || _); [done|]. destruct (decode_to_slice _ _) as [b| |] eqn:E; [|done|done].
  intros [= <-]. rewrite length_reverse. by eapply decode_to_slice_length.
Qed.

Context (chain : Z → NodeBlock) (tip : Z) (self : RestSource).

(** A GET of [path] succeeds with [body]. *)
Definition answers (path body : bytes) : Prop :=
  ∃ resp, http_get (url self path) = Ok resp ∧ is_success (resp_status resp) = true ∧ resp_body resp = Ok body.

(** What Bitcoin Core documents of the four endpoints: hashes as 64 digits in display
    order and a newline, blocks as raw bytes, spent outputs in the layout of
    [UndoPayload], as bytes or as hex. *)
Record rest_node : Prop := {
  rn_hash h : 0 ≤ h ≤ tip → answers (block_hash_path h) (to_hex_display (nb_hash (chain h)) ++ [10]);
  rn_raw h : 0 ≤ h ≤ tip → answers (raw_path (nb_hash (chain h))) (nb_bytes (chain h));
  rn_undo h : 0 ≤ h ≤ tip → undo_wf (nb_undo (chain h)) ∧ ∃ payload, answers (undo_path (nb_hash (chain h))) payload ∧
    (payload = payload_bytes (nb_undo (chain h)) ∨ payload = hex_encode (payload_bytes (nb_undo (chain h))) ++ [10]);
  rn_info : ∃ body, answers (ascii_bytes "/rest/chaininfo.json") body ∧ parse_chain_info (text_of body) = Ok tip
}.

Lemma answers_get path body : answers path body → rest_get self path = Ok body.
Proof. intros (resp & E & Hs & Hb). unfold rest_get. rewrite E. rsimpl. by rewrite Hs. Qed.

Context (wf : node_wf chain tip) (node : rest_node).

Lemma rest_hash_ok h : 0 ≤ h ≤ tip → rest_block_hash self h = Ok (nb_hash (chain h)).
Proof.
  intros Hh. unfold rest_block_hash, get_text. rewrite (answers_get _ _ (rn_hash node h Hh)).
  destruct (nw_hash _ _ wf h Hh). cbn. by apply parse_block_hash_newline.
Qed.
Lemma rest_raw_ok h : 0 ≤ h ≤ tip → rest_block_raw self (nb_hash (chain h)) = Ok (nb_bytes (chain h)).
Proof. intros Hh. by apply answers_get, rn_raw. Qed.
Lemma rest_undo_ok h : 0 ≤ h ≤ tip → rest_block_spent_txouts self (nb_hash (chain h)) = Ok (Some (nb_undo (chain h))).
Proof.
  intros Hh. destruct (rn_undo node h Hh) as (Hu & payload & Ha & Hp). unfold rest_block_spent_txouts, get_bytes.
  rewrite (answers_get _ _ Ha). rsimpl. pose proof (decode_rest_undo _ _ Hu Hp) as E.
  destruct (decode_rest_binary_or_hex payload) as [bs| |]; [|done|done]. cbn in E |- *. by rewrite E.
Qed.

(** Requests in flight together, collected by position: the answers in order. *)
Lemma run_indexed_ok {A} (task : bytes → res A) (f : Z → A) hs :
  (∀ h, 0 ≤ h ≤ tip → task (nb_hash (chain h)) = Ok (f h)) → Forall (λ h, 0 ≤ h ≤ tip) hs →
  run_indexed task ((λ h, nb_hash (chain h)) <$> hs) = Ok (f <$> hs).
Proof.
  intros Ht Hh. unfold run_indexed. rewrite in_key_order_run.
  - apply map_res_Ok. rewrite imap_fmap. rewrite Forall_lookup in Hh. apply Forall2_same_length_lookup_2.
    + by rewrite length_imap, length_fmap.
    + intros i [j hash] y. rewrite list_lookup_imap. destruct (hs !! i) as [h|] eqn:E; [|done]. cbn. intros [= <- <-].
      rewrite list_lookup_fmap, E. intros [= <-]. by apply Ht, Hh with i.
  - set (l := (λ h, nb_hash (chain h)) <$> hs).
    assert (∀ (k : nat) (l : list bytes), StronglySorted (λ a b : Z * bytes, a.1 < b.1) (imap (λ i hash, (Z.of_nat (k + i), hash)) l)) as H.
    { intros k l'. revert k. induction l' as [|x l' IH]; intros k; [constructor|]. cbn [imap]. constructor.
      - specialize (IH (S k)). eapply (eq_ind _ (StronglySorted _) IH). apply imap_ext. intros i y _. cbn. do 2 f_equal. lia.
      - apply Forall_lookup. intros i [j y]. rewrite list_lookup_imap. destruct (l' !! i); [|done]. cbn. intros [= <- _]. lia. }
    apply (H 0%nat l).
Qed.

Lemma rest_range_ok start n : 0 ≤ start → (0 < n)%nat → start + Z.of_nat n ≤ tip + 1 →
  rest_block_range self start n = Ok (frame_at chain true <$> seqZ start (Z.of_nat n)).
Proof.
  intros H0 Hn Ht. destruct (nw_tip _ _ wf) as [Ht0 Ht1]. set (hs := seqZ start (Z.of_nat n)).
  assert (Hin : Forall (λ h, 0 ≤ h ≤ tip) hs) by (apply Forall_forall; intros h Hh%elem_of_seqZ; lia).
  unfold rest_block_range, get_block_hashes_by_height.
  assert ((λ offset, wrap 64 (start + offset)) <$> seqZ 0 (Z.of_nat n) = hs) as ->.
  { unfold hs. pose proof (fmap_add_seqZ start 0 (Z.of_nat n)) as E. rewrite Z.add_0_r in E. rewrite <-E.
    apply list_fmap_ext. intros i o Ho. apply lookup_seqZ in Ho. apply wrap_small. unfold in_width. lia. }
  rewrite in_key_order_run by apply seqZ_sorted_lt.
  rewrite (map_res_total _ (λ h, nb_hash (chain h))) by (intros h Hh; apply rest_hash_ok; rewrite Forall_forall in Hin; by apply Hin).
  rsimpl. unfold get_blocks_raw, rest_blocks_spent_txouts.
  rewrite (run_indexed_ok _ (λ h, nb_bytes (chain h)) hs) by (first [apply rest_raw_ok|done]).
  rewrite (run_indexed_ok _ (λ h, Some (nb_undo (chain h))) hs) by (first [apply rest_undo_ok|done]).
  cbn [try_join]. rsimpl. rewrite !bool_decide_false by (rewrite !length_fmap; by intros []).
  f_equal. apply list_eq. intros i. rewrite list_lookup_imap, list_lookup_fmap.
  rewrite !lookup_zip_with, !list_lookup_fmap. destruct (hs !! i) as [h|] eqn:E; [|done]. cbn. do 2 f_equal.
  unfold frame_at. apply lookup_seqZ in E. f_equal. rewrite wrap_small by (unfold in_width; lia). lia.
Qed.

(** The REST source over an honest Bitcoin Core node keeps the contract of a source:
    hashes, blocks and spent outputs of every height up to the tip are the node's, a
    batch holds its frames in height order, whatever the order in which the requests in
    flight complete and whether the node serves the spent outputs as bytes or as hex. *)
Theorem rest_serves : serves_chain chain tip true (rest_source self).
Proof.
  split; cbn; try done.
  - apply rest_hash_ok.
  - apply rest_raw_ok.
  - destruct (rn_info node) as (body & Ha & Hp). unfold rest_best_height, get_text. rewrite (answers_get _ _ Ha). exact Hp.
  - intros h Hh. unfold rest_block_by_height. rewrite rest_hash_ok by done. rsimpl. by rewrite rest_raw_ok, rest_undo_ok by done.
  - apply rest_range_ok.
  - apply rest_undo_ok.
  - intros hs _ Hhs. apply run_indexed_ok; [apply rest_undo_ok|done].
Qed.
End honest.
