(* ===== verification/RpcSource.v ===== *)
(** * Bitcoin Core's JSON-RPC as a source

    Model of [sources/src/rpc_client.rs] and of the source in [sources/src/rpc.rs].
    HTTP and [serde_json] are the parameter [RpcTransport]: a request or a batch goes
    out, replies with their JSON values come back.  The request ids are drawn from one
    counter shared by all calls of the process: [next_id] is the counter when a call
    starts and [others] the draws of other calls between its own. *)

From S2P Require Import Prelude Decimal UndoPayload Sources Tasks JsonWire Text Node RestSource.

(** ** The client *)
Inductive RpcParams := PEmpty | PHeight (height : Z) | PBlock (hash_hex : bytes) (verbosity : Z).
Record RpcReq := { rq_id : Z; rq_method : bytes; rq_params : RpcParams }.
Inductive RpcValue := VString (s : bytes) | VNumber (n : Z).
Record RpcErr := { re_code : Z; re_message : bytes }.
Record RpcReply := { rp_id : Z; rp_result : option RpcValue; rp_error : option RpcErr }.
Class RpcTransport := {
  rpc_post : RpcReq → res RpcReply;
  rpc_post_batch : list RpcReq → res (list RpcReply)
}.

(** Deserializing a result of the expected type; an absent result is [None]. *)
Definition as_string (v : RpcValue) : res bytes := match v with VString s => Ok s | _ => Err "invalid type: expected a string" end.
Definition as_u64 (v : RpcValue) : res Z :=
  match v with VNumber n => if bool_decide (in_width 64 n) then Ok n else Err "invalid value: expected u64" | _ => Err "invalid type: expected u64" end.
Definition typed {R} (as_r : RpcValue → res R) (reply : RpcReply) : res (Z * option R * option RpcErr) :=
  result ← match rp_result reply with Some v => Some <$> as_r v | None => Ok None end;
  Ok (rp_id reply, result, rp_error reply).

(** [REQ_ID.fetch_add(1)], [n] times. *)
Fixpoint draw_ids (n : nat) (others : list Z) (next_id : Z) : list Z * Z :=
  match n with
  | O => ([], next_id)
  | S n =>
      let id := wrap 64 (next_id + default 0 (head others)) in
      let '(ids, next_id) := draw_ids n (tail others) (wrap 64 (id + 1)) in
      (id :: ids, next_id)
  end.

Section client.
Context `{RT : !RpcTransport}.

Definition call {R} (as_r : RpcValue → res R) (id : Z) (method : string) (params : RpcParams) : res R :=
  reply ← rpc_post {| rq_id := id; rq_method := ascii_bytes method; rq_params := params |};
  '(_, result, error) ← typed as_r reply;
  match error with
  | Some _ => Err "RPC {} error {}: {}"
  | None => ok_or result "empty RPC result"
  end.

(** [responses.into_iter().map(..).collect::<HashMap<_, _>>()]: the last of an id wins. *)
Definition insert_response {R} (by_id : gmap Z (option R * option RpcErr)) (resp : Z * option R * option RpcErr) : gmap Z (option R * option RpcErr) :=
  let '(id, result, error) := resp in <[id := (result, error)]> by_id.
(** The loop over the ids of the requests: the replies that are left and the results. *)
Definition take_reply {R} (acc : gmap Z (option R * option RpcErr) * list R) (id : Z) : res (gmap Z (option R * option RpcErr) * list R) :=
  let '(by_id, out) := acc in
  '(result, error) ← ok_or (by_id !! id) "missing JSON-RPC batch response";
  match error with
  | Some _ => Err "RPC batch error"
  | None => r ← ok_or result "empty RPC batch result"; Ok (delete id by_id, out ++ [r])
  end.
Definition batch_call {R} (as_r : RpcValue → res R) (requests : list RpcReq) : res (list R) :=
  if bool_decide (length requests = 0)%nat then Ok []
  else
    let ordered_ids := rq_id <$> requests in
    replies ← rpc_post_batch requests;
    responses ← map_res (typed as_r) replies;
    let by_id := foldl insert_response ∅ responses in
    snd <$> fold_res take_reply (by_id, []) ordered_ids.

Definition rpc_get_block_hash (id : Z) (height : Z) : res bytes := call as_string id "getblockhash" (PHeight height).
Definition rpc_get_block_count (id : Z) : res Z := call as_u64 id "getblockcount" PEmpty.
Definition get_block_raw_hex `{!Hex, !HexDecode} (id : Z) (hash_hex : bytes) : res bytes :=
  hex_str ← call as_string id "getblock" (PBlock hash_hex 0);
  hex_decode hex_str.
Definition get_block_hashes (ids : list Z) (start_height : Z) (count : nat) : res (list bytes) :=
  batch_call as_string (zip_with (λ id offset, {| rq_id := id; rq_method := ascii_bytes "getblockhash";
                                                  rq_params := PHeight (wrap 64 (start_height + offset)) |})
                          ids (seqZ 0 (Z.of_nat count))).
Definition get_blocks_raw_hex `{!Hex, !HexDecode} (ids : list Z) (hashes_hex : list bytes) : res (list bytes) :=
  hex_blocks ← batch_call as_string (zip_with (λ id hash_hex, {| rq_id := id; rq_method := ascii_bytes "getblock";
                                                                 rq_params := PBlock hash_hex 0 |}) ids hashes_hex);
  map_res hex_decode hex_blocks.
End client.

(** ** The source *)
Section source.
Context `{HX : Hex, HD : !HexDecode, RT : !RpcTransport}.

Definition display_to_hash (hash_hex : bytes) : res bytes := reverse <$> decode_to_slice hash_hex 32.

Definition rpc_block_hash (next_id : Z) (height : Z) : res bytes :=
  hex_str ← rpc_get_block_hash next_id height; display_to_hash hex_str.
Definition rpc_block_raw (next_id : Z) (hash : bytes) : res bytes := get_block_raw_hex next_id (to_hex_display hash).
Definition rpc_best_height (next_id : Z) : res Z := rpc_get_block_count next_id.

Definition rpc_block_range (next_id : Z) (others others' : list Z) (start_height : Z) (count : nat) : res (list RawBlockFrame) :=
  let '(ids, next_id) := draw_ids count others next_id in
  hashes_hex ← get_block_hashes ids start_height count;
  hashes ← map_res display_to_hash hashes_hex;
  let '(ids, _) := draw_ids (length hashes_hex) others' next_id in
  bs ← get_blocks_raw_hex ids hashes_hex;
  if bool_decide (length bs ≠ length hashes) then Err "RPC batch returned {} blocks for {} hashes"
  else Ok (imap (λ offset '(hash, bs), {| rf_height := wrap 64 (start_height + Z.of_nat offset); rf_hash := hash;
                                          rf_bytes := bs; rf_spent_txouts := None |}) (zip hashes bs)).

Definition rpc_source (next_id : Z) (others others' : list Z) (nm : bytes) : BlockSource := {|
  get_block_hash := rpc_block_hash next_id;
  get_block_raw := rpc_block_raw next_id;
  get_block_spent_txouts := default_spent_txouts;
  get_blocks_spent_txouts := default_blocks_spent_txouts default_spent_txouts;
  get_best_height := rpc_best_height next_id;
  get_block_by_height := default_by_height (rpc_block_hash next_id) (rpc_block_raw (wrap 64 (next_id + 1 + default 0 (head others')))) default_spent_txouts;
  get_block_range_by_height := rpc_block_range next_id others others';
  supports_block_range_batches := true;
  supports_block_spent_txouts := false;
  prefers_height_fetch := false;
  source_name := nm |}.
End source.

(** ** Distinct ids *)

Lemma length_draw_ids n others c : length (draw_ids n others c).1 = n.
Proof.
  revert others c. induction n as [|n IH]; intros others c; [done|]. cbn [draw_ids].
  specialize (IH (tail others) (wrap 64 (wrap 64 (c + default 0 (head others)) + 1))).
  destruct (draw_ids n _ _). cbn in *. by rewrite IH.
Qed.
Definition sum_list_Z (l : list Z) : Z := foldr Z.add 0 l.
Lemma sum_list_Z_pos l : Forall (Z.le 0) l → 0 ≤ sum_list_Z l.
Proof. induction 1 as [|x l Hx _ IH]; [done|]. change (sum_list_Z (x :: l)) with (x + sum_list_Z l). lia. Qed.

(** The ids of one batch are distinct while the counter does not go all the way round. *)
Lemma draw_ids_from n others c : Forall (Z.le 0) others →
  ∃ gaps, length gaps = n ∧ StronglySorted Z.lt gaps ∧ Forall (λ g, 0 ≤ g < Z.of_nat n + sum_list_Z others) gaps ∧
    (draw_ids n others c).1 = (λ g, wrap 64 (c + g)) <$> gaps.
Proof.
  revert others c. induction n as [|n IH]; intros others c Ho; [exists []; repeat split; constructor|].
  cbn [draw_ids]. set (o := default 0 (head others)). set (c' := wrap 64 (wrap 64 (c + o) + 1)).
  assert (Ho' : Forall (Z.le 0) (tail others)) by (destruct others; [done|by inversion Ho]).
  assert (0 ≤ o ∧ sum_list_Z others = o + sum_list_Z (tail others)) as [Hop Hsum].
  { unfold o. destruct others; [done|]. inversion Ho; subst. cbn. lia. }
  pose proof (sum_list_Z_pos _ Ho') as Hpos.
  destruct (IH (tail others) c' Ho') as (gaps & Hl & Hs & Hb & E). destruct (draw_ids n (tail others) c') as [ids c''].
  cbn [fst] in *. exists (o :: ((λ g, o + 1 + g) <$> gaps)). split_and!.
  - cbn. by rewrite length_fmap, Hl.
  - constructor.
    + clear -Hs. induction Hs as [|g gaps Hs IHs Hg]; [constructor|]. cbn. constructor; [done|]. apply Forall_fmap.
      eapply Forall_impl; [exact Hg|]. cbn. lia.
    + apply Forall_fmap. eapply Forall_impl; [exact Hb|]. cbn. lia.
  - constructor; [lia|]. apply Forall_fmap. eapply Forall_impl; [exact Hb|]. cbn. lia.
  - cbn. f_equal. rewrite E, <-list_fmap_compose. apply list_fmap_ext. intros i g _. cbn. unfold c', wrap.
    rewrite Zplus_mod_idemp_l, <-Z.add_assoc, Zplus_mod_idemp_l. f_equal. lia.
Qed.
Lemma draw_ids_NoDup n others c : Forall (Z.le 0) others → Z.of_nat n + sum_list_Z others ≤ 2 ^ 64 → NoDup (draw_ids n others c).1.
Proof.
  intros Ho Hb. destruct (draw_ids_from n others c Ho) as (gaps & _ & Hs & Hg & ->).
  assert (NoDup gaps) as Hn.
  { clear -Hs. induction Hs as [|g gaps _ IH Hg]; [constructor|]. constructor; [|done]. intros Hin.
    rewrite Forall_forall in Hg. specialize (Hg g Hin). lia. }
  apply NoDup_fmap_2_strong; [|done]. rewrite Forall_forall in Hg. intros x y Hx Hy E. apply Hg in Hx, Hy. unfold wrap in E.
  assert ((x - y) mod 2 ^ 64 = 0) as E0.
  { replace (x - y) with ((c + x) - (c + y)) by lia. rewrite Zminus_mod, E, Z.sub_diag. done. }
  apply Z.mod_divide in E0 as [k Hk]; [|lia]. assert (k = 0) by nia. lia.
Qed.

(** ** A batch is answered in the order of its requests *)
Section batch.
Context {R : Type}.
Abbreviation entry := (option R * option RpcErr)%type.

Lemma collect_kept (l : list (Z * option R * option RpcErr)) (m : gmap Z entry) id :
  id ∉ (λ e, e.1.1) <$> l → foldl insert_response m l !! id = m !! id.
Proof.
  revert m. induction l as [|[[i r] e] l IH]; intros m Hni; [done|]. rewrite fmap_cons in Hni.
  apply not_elem_of_cons in Hni as [Hne Hni]. cbn [foldl]. rewrite IH by done. by apply lookup_insert_ne.
Qed.
Lemma collect_by_id (l : list (Z * option R * option RpcErr)) (m : gmap Z entry) id r e :
  NoDup ((λ e, e.1.1) <$> l) → (id, r, e) ∈ l → foldl insert_response m l !! id = Some (r, e).
Proof.
  revert m. induction l as [|[[i r'] e'] l IH]; intros m Hn Hin; [by apply elem_of_nil in Hin|].
  rewrite fmap_cons in Hn. apply NoDup_cons in Hn as [Hni Hn]. cbn [foldl].
  apply elem_of_cons in Hin as [[= -> -> ->]|Hin]; [|by apply IH].
  rewrite collect_kept by done. apply lookup_insert_eq.
Qed.
Lemma take_replies (ids : list Z) (xs : list R) (m : gmap Z entry) out : NoDup ids →
  Forall2 (λ id x, m !! id = Some (Some x, None)) ids xs →
  ∃ m', fold_res take_reply (m, out) ids = Ok (m', out ++ xs).
Proof.
  intros Hn H. revert m out Hn H. revert xs. induction ids as [|id ids IH]; intros xs m out Hn H; inversion H as [|? x ? xs' Hx Hxs]; subst.
  { exists m. by rewrite app_nil_r. }
  apply NoDup_cons in Hn as [Hni Hn]. cbn [fold_res].
  assert (take_reply (m, out) id = Ok (delete id m, out ++ [x])) as -> by (unfold take_reply; by rewrite Hx). rsimpl.
  destruct (IH xs' (delete id m) (out ++ [x]) Hn) as [m' ->].
  - apply Forall2_same_length_lookup_2; [by eapply Forall2_length|]. intros i j y Hj Hy.
    rewrite lookup_delete_ne by (intros ->; apply Hni; by eapply list_elem_of_lookup_2).
    by eapply Forall2_lookup_lr in Hxs.
  - exists m'. by rewrite <-app_assoc.
Qed.

Context `{RT : !RpcTransport} (as_r : RpcValue → res R).

Definition good_reply (req : RpcReq) (v : RpcValue) : RpcReply := {| rp_id := rq_id req; rp_result := Some v; rp_error := None |}.

(** The replies of a batch may come in any order. *)
Lemma batch_in_order reqs vs xs replies : NoDup (rq_id <$> reqs) → length vs = length reqs → map_res as_r vs = Ok xs →
  rpc_post_batch reqs = Ok replies → replies ≡ₚ zip_with good_reply reqs vs → batch_call as_r reqs = Ok xs.
Proof.
  intros Hn Hl Hv Hpost Hp. unfold batch_call. case_bool_decide as E0.
  { destruct reqs; [|done]. destruct vs; [|done]. cbn in Hv. injection Hv as <-. done. }
  rewrite Hpost. rsimpl. set (entries := zip_with (λ req x, (rq_id req, Some x, None)) reqs xs : list (Z * option R * option RpcErr)).
  assert (map_res (typed as_r) (zip_with good_reply reqs vs) = Ok entries) as Ht.
  { clear -Hl Hv. revert vs xs Hl Hv entries. induction reqs as [|q reqs IH]; intros [|v vs] xs Hl Hv; try done.
    cbn [map_res] in Hv. apply bind_Ok in Hv as (x & Hx & Hv). apply bind_Ok in Hv as (xs' & Hxs & [= <-]).
    cbn [zip_with map_res].
    assert (typed as_r (good_reply q v) = Ok (rq_id q, Some x, None)) as -> by (unfold typed, good_reply; cbn [rp_result]; by rewrite Hx).
    rsimpl.
    rewrite (IH vs xs') by (first [done|cbn in Hl; lia]). done. }
  apply map_res_Ok in Ht. destruct (Permutation_Forall2 (Permutation_sym Hp) Ht) as (responses & Hr & Hf).
  rewrite (proj2 (map_res_Ok _ _ _) Hf). rsimpl.
  assert (Hlx : length xs = length reqs) by (rewrite (map_res_length _ _ _ Hv); done).
  assert (Hk : (λ e : Z * option R * option RpcErr, e.1.1) <$> entries = rq_id <$> reqs).
  { unfold entries. clear -Hlx. revert xs Hlx. induction reqs as [|q reqs IH]; intros [|x xs] Hl; try done. cbn. f_equal. apply IH. cbn in Hl. lia. }
  destruct (take_replies (rq_id <$> reqs) xs (foldl insert_response ∅ responses) [] Hn) as [m ->]; [|done].
  apply Forall2_same_length_lookup_2; [by rewrite length_fmap|]. intros i id x Hi Hx.
  apply collect_by_id; [by rewrite <-Hr, Hk|]. rewrite <-Hr. apply list_elem_of_lookup. exists i.
  unfold entries. rewrite list_lookup_fmap in Hi. destruct (reqs !! i) as [q|] eqn:Eq; [|done]. injection Hi as <-.
  by rewrite lookup_zip_with, Eq, Hx.
Qed.
End batch.

(** ** Over an honest node *)
Section honest.
Context `{HX : Hex, HD : !HexDecode, RT : !RpcTransport}.
Context (chain : Z → NodeBlock) (tip : Z).

(** What Bitcoin Core documents of the three methods. *)
Inductive node_value : string → RpcParams → RpcValue → Prop :=
| value_hash h : 0 ≤ h ≤ tip → node_value "getblockhash" (PHeight h) (VString (to_hex_display (nb_hash (chain h))))
| value_block h : 0 ≤ h ≤ tip →
    node_value "getblock" (PBlock (to_hex_display (nb_hash (chain h))) 0) (VString (hex_encode (nb_bytes (chain h))))
| value_count : node_value "getblockcount" PEmpty (VNumber tip).

(** A request is answered with its value and its id; a batch of requests with distinct
    ids with one reply per request, in any order (JSON-RPC 2.0). *)
Record rpc_node : Prop := {
  rpn_one id m p v : node_value m p v → rpc_post {| rq_id := id; rq_method := ascii_bytes m; rq_params := p |} =
    Ok {| rp_id := id; rp_result := Some v; rp_error := None |};
  rpn_batch reqs vs : reqs ≠ [] → NoDup (rq_id <$> reqs) →
    Forall2 (λ req v, ∃ m, rq_method req = ascii_bytes m ∧ node_value m (rq_params req) v) reqs vs →
    ∃ replies, rpc_post_batch reqs = Ok replies ∧ replies ≡ₚ zip_with good_reply reqs vs;
  rpn_bytes h : 0 ≤ h ≤ tip → bytes_wf (nb_bytes (chain h))
}.

Context (wf : node_wf chain tip) (node : rpc_node).

Lemma display_to_hash_ok h : 0 ≤ h ≤ tip → display_to_hash (to_hex_display (nb_hash (chain h))) = Ok (nb_hash (chain h)).
Proof.
  intros Hh. destruct (nw_hash _ _ wf h Hh) as [Hb Hl]. unfold display_to_hash, to_hex_display.
  rewrite decode_to_slice_encode by (first [by apply Forall_reverse|by rewrite length_reverse]). cbn. by rewrite reverse_involutive.
Qed.
Lemma call_ok {R} (as_r : RpcValue → res R) id m p v x : node_value m p v → as_r v = Ok x → call as_r id m p = Ok x.
Proof. intros Hv Hx. unfold call. rewrite (rpn_one node _ _ _ _ Hv). rsimpl. unfold typed. cbn [rp_result]. by rewrite Hx. Qed.
Lemma rpc_hash_ok id h : 0 ≤ h ≤ tip → rpc_block_hash id h = Ok (nb_hash (chain h)).
Proof.
  intros Hh. unfold rpc_block_hash, rpc_get_block_hash. rewrite (call_ok as_string id _ _ _ _ (value_hash h Hh) eq_refl). by apply display_to_hash_ok.
Qed.
Lemma rpc_raw_ok id h : 0 ≤ h ≤ tip → rpc_block_raw id (nb_hash (chain h)) = Ok (nb_bytes (chain h)).
Proof.
  intros Hh. unfold rpc_block_raw, get_block_raw_hex. rewrite (call_ok as_string id _ _ _ _ (value_block h Hh) eq_refl). rsimpl.
  by apply hex_decode_encode, (rpn_bytes node).
Qed.

(** A batch of string results, one per height. *)
Lemma batch_strings ids hs (m : string) (params : Z → RpcParams) (f : Z → bytes) : length ids = length hs → NoDup ids →
  (∀ h, h ∈ hs → node_value m (params h) (VString (f h))) →
  batch_call as_string (zip_with (λ id h, {| rq_id := id; rq_method := ascii_bytes m; rq_params := params h |}) ids hs) = Ok (f <$> hs).
Proof.
  intros Hl Hn Hv. set (reqs := zip_with _ ids hs).
  assert (Hids : rq_id <$> reqs = ids).
  { unfold reqs. clear -Hl. revert hs Hl. induction ids as [|i ids IH]; intros [|h hs] Hl; try done. cbn. f_equal. apply IH. cbn in Hl. lia. }
  assert (Hlr : length reqs = length hs) by (unfold reqs; rewrite length_zip_with; lia).
  destruct (decide (hs = [])) as [->|Hne].
  { unfold batch_call. destruct reqs; [done|discriminate Hlr]. }
  destruct (rpn_batch node reqs ((λ h, VString (f h)) <$> hs)) as (replies & Hpost & Hp).
  - intros E. rewrite E in Hlr. by destruct hs.
  - by rewrite Hids.
  - apply Forall2_same_length_lookup_2; [by rewrite length_fmap|]. intros i q v Hq Hv'. unfold reqs in Hq.
    apply lookup_zip_with_Some in Hq as (id & h & -> & _ & Hh). rewrite list_lookup_fmap, Hh in Hv'. injection Hv' as <-.
    exists m. split; [done|]. apply Hv. by eapply list_elem_of_lookup_2.
  - eapply (batch_in_order as_string); [by rewrite Hids| | |exact Hpost|exact Hp].
    + by rewrite length_fmap.
    + clear. induction hs as [|h hs IH]; [done|]. cbn [fmap list_fmap map_res as_string]. rsimpl. cbn in IH. by rewrite IH.
Qed.

Lemma rpc_range_ok next_id others others' start n : 0 ≤ start → (0 < n)%nat → start + Z.of_nat n ≤ tip + 1 →
  Forall (Z.le 0) others → Forall (Z.le 0) others' → sum_list_Z others < 2 ^ 63 → sum_list_Z others' < 2 ^ 63 →
  rpc_block_range next_id others others' start n = Ok (frame_at chain false <$> seqZ start (Z.of_nat n)).
Proof.
  intros H0 Hn Ht Ho Ho' Hs Hs'. destruct (nw_tip _ _ wf) as [Ht0 Ht1]. set (hs := seqZ start (Z.of_nat n)).
  assert (Hin : ∀ h, h ∈ hs → 0 ≤ h ≤ tip) by (intros h Hh%elem_of_seqZ; lia).
  assert (Hlen : length hs = n) by (unfold hs; rewrite length_seqZ; lia).
  unfold rpc_block_range. pose proof (length_draw_ids n others next_id) as Hl1.
  pose proof (draw_ids_NoDup n others next_id Ho ltac:(lia)) as Hn1. destruct (draw_ids n others next_id) as [ids next_id'].
  cbn [fst] in Hl1, Hn1. unfold get_block_hashes.
  assert (zip_with (λ id offset, {| rq_id := id; rq_method := ascii_bytes "getblockhash"; rq_params := PHeight (wrap 64 (start + offset)) |}) ids (seqZ 0 (Z.of_nat n)) =
          zip_with (λ id h, {| rq_id := id; rq_method := ascii_bytes "getblockhash"; rq_params := PHeight h |}) ids hs) as ->.
  { unfold hs. pose proof (fmap_add_seqZ start 0 (Z.of_nat n)) as E. rewrite Z.add_0_r in E. rewrite <-E, zip_with_fmap_r.
    apply list_eq. intros i. rewrite !lookup_zip_with. destruct (ids !! i); [|done]. cbn.
    destruct (seqZ 0 (Z.of_nat n) !! i) as [o|] eqn:Eo; [|done]. apply lookup_seqZ in Eo. cbn.
    rewrite wrap_small by (unfold in_width; lia). done. }
  rewrite (batch_strings ids hs "getblockhash" PHeight (λ h, to_hex_display (nb_hash (chain h))))
    by (first [lia|done|intros h Hh; apply value_hash; by apply Hin]).
  rsimpl. set (hexes := (λ h, to_hex_display (nb_hash (chain h))) <$> hs).
  assert (map_res display_to_hash hexes = Ok ((λ h, nb_hash (chain h)) <$> hs)) as ->.
  { apply map_res_Ok. unfold hexes. rewrite Forall2_fmap. apply Forall_Forall2_diag, Forall_forall. intros h Hh.
    by apply display_to_hash_ok, Hin. }
  rsimpl. assert (length hexes = n) as -> by (unfold hexes; by rewrite length_fmap).
  pose proof (length_draw_ids n others' next_id') as Hl2. pose proof (draw_ids_NoDup n others' next_id' Ho' ltac:(lia)) as Hn2.
  destruct (draw_ids n others' next_id') as [ids' next_id'']. cbn [fst] in Hl2, Hn2. unfold get_blocks_raw_hex, hexes.
  rewrite zip_with_fmap_r.
  rewrite (batch_strings ids' hs "getblock" (λ h, PBlock (to_hex_display (nb_hash (chain h))) 0) (λ h, hex_encode (nb_bytes (chain h))))
    by (first [lia|done|intros h Hh; apply value_block; by apply Hin]).
  rsimpl. assert (map_res hex_decode ((λ h, hex_encode (nb_bytes (chain h))) <$> hs) = Ok ((λ h, nb_bytes (chain h)) <$> hs)) as ->.
  { apply map_res_Ok. rewrite Forall2_fmap. apply Forall_Forall2_diag, Forall_forall. intros h Hh.
    by apply hex_decode_encode, (rpn_bytes node), Hin. }
  rsimpl. rewrite bool_decide_false by (rewrite !length_fmap; by intros []). f_equal. apply list_eq. intros i.
  rewrite list_lookup_imap, list_lookup_fmap, lookup_zip_with, !list_lookup_fmap. destruct (hs !! i) as [h|] eqn:E; [|done]. cbn.
  do 2 f_equal. unfold frame_at. apply lookup_seqZ in E. f_equal. rewrite wrap_small by (unfold in_width; lia). lia.
Qed.

(** The JSON-RPC source over an honest Bitcoin Core node keeps the contract of a
    source, whatever ids other calls draw from the shared counter in between and in
    whatever order the node answers the requests of a batch. *)
Theorem rpc_serves next_id others others' nm : Forall (Z.le 0) others → Forall (Z.le 0) others' →
  sum_list_Z others < 2 ^ 63 → sum_list_Z others' < 2 ^ 63 → serves_chain chain tip false (rpc_source next_id others others' nm).
Proof.
  intros Ho Ho' Hs Hs'. destruct (nw_tip _ _ wf) as [Ht0 Ht1]. split; cbn; try done.
  - intros h. apply rpc_hash_ok.
  - intros h. apply rpc_raw_ok.
  - unfold rpc_best_height, rpc_get_block_count. rewrite (call_ok as_u64 next_id _ _ _ tip value_count); [done|]. cbn.
    rewrite bool_decide_true; [done|]. unfold in_width. lia.
  - intros h Hh. unfold default_by_height. rewrite rpc_hash_ok by done. rsimpl. by rewrite rpc_raw_ok by done.
  - intros start n H0 Hn Ht. by apply rpc_range_ok.
  - intros hs _ Hhs. by apply (default_blocks_undos chain tip).
Qed.
End honest.
