(* ===== verification/RpcAuth.v ===== *)
(** * Credentials of the JSON-RPC source

    Model of the authentication half of [sources/src/rpc.rs] on Unix: explicit
    credentials or the cookie file of a Bitcoin Core data directory.  The environment
    variables and the readable files are the record [Env]; paths are bytes. *)

From S2P Require Import Prelude Decimal JsonWire Text.

Record Env := { var_bitcoin_data_dir : option bytes; var_home : option bytes; read_to_string : bytes → option bytes }.

(** [Path::join] with a relative component. *)
Definition join (path component : bytes) : bytes :=
  match last path with
  | None => component
  | Some c => if bool_decide (c = 47) then path ++ component else path ++ [47] ++ component
  end.
Definition cookie : bytes := ascii_bytes ".cookie".

Definition default_bitcoin_datadir (env : Env) : option bytes :=
  match var_bitcoin_data_dir env with
  | Some dir => if bool_decide (dir = []) then (λ p, join p (ascii_bytes ".bitcoin")) <$> var_home env else Some dir
  | None => (λ p, join p (ascii_bytes ".bitcoin")) <$> var_home env
  end.

Definition network_candidate (url datadir : bytes) : bytes :=
  if contains (ascii_bytes ":18443") url then join (join datadir (ascii_bytes "regtest")) cookie
  else if contains (ascii_bytes ":18332") url then join (join datadir (ascii_bytes "testnet3")) cookie
  else if contains (ascii_bytes ":38332") url then join (join datadir (ascii_bytes "signet")) cookie
  else join datadir cookie.
(** [if !unique.contains(&candidate) { unique.push(candidate) }]. *)
Definition push_unique (unique : list bytes) (candidate : bytes) : list bytes :=
  if bool_decide (candidate ∈ unique) then unique else unique ++ [candidate].
Definition default_cookie_candidates (env : Env) (url : bytes) : list bytes :=
  match default_bitcoin_datadir env with
  | None => []
  | Some datadir =>
      foldl push_unique [] [network_candidate url datadir; join datadir cookie; join (join datadir (ascii_bytes "regtest")) cookie;
        join (join datadir (ascii_bytes "testnet3")) cookie; join (join datadir (ascii_bytes "signet")) cookie]
  end.

(** The loop over the candidates: the first readable file decides. *)
Fixpoint try_cookies (env : Env) (candidates : list bytes) : res (bytes * bytes) :=
  match candidates with
  | [] => Err "RPC username/password not supplied and no readable Bitcoin Core cookie file found"
  | path :: candidates =>
      match read_to_string env path with
      | None => try_cookies env candidates
      | Some contents =>
          '(user, pass) ← ok_or (split_once 58 (trim contents)) "invalid RPC cookie format";
          if bool_decide (user = []) || bool_decide (pass = []) then Err "invalid RPC cookie: empty username or password"
          else Ok (user, pass)
      end
  end.
Definition read_cookie_auth (env : Env) (url : bytes) (cookie_file : option bytes) : res (bytes * bytes) :=
  try_cookies env (match cookie_file with Some path => [path] | None => default_cookie_candidates env url end).
Definition resolve_auth (env : Env) (url user pass : bytes) (cookie_file : option bytes) : res (bytes * bytes) :=
  match bool_decide (user = []), bool_decide (pass = []) with
  | false, false => Ok (user, pass)
  | true, true => read_cookie_auth env url cookie_file
  | _, _ => Err "RPC auth requires both --rpc-user and --rpc-pass, or neither to use cookie auth"
  end.

(** ** What is sent *)

Lemma split_once_Some c s l r : split_once c s = Some (l, r) ↔ s = l ++ [c] ++ r ∧ c ∉ l.
Proof.
  split.
  - revert l r. induction s as [|b s IH]; intros l r; cbn [split_once]; [done|]. case_bool_decide as E.
    + intros [= <- <-]. subst. split; [done|]. apply not_elem_of_nil.
    + destruct (split_once c s) as [[l' r']|]; [|done]. intros [= <- <-]. destruct (IH l' r' eq_refl) as [-> Hc].
      split; [done|]. rewrite not_elem_of_cons. split; [congruence|done].
  - revert s. induction l as [|b l IH]; intros s [-> Hc]; cbn [app split_once]; [by rewrite bool_decide_true|].
    apply not_elem_of_cons in Hc as [Hb Hc]. rewrite bool_decide_false by congruence.
    change (c :: r) with ([c] ++ r). by rewrite (IH _ (conj eq_refl Hc)).
Qed.

(** The first readable file among the candidates. *)
Definition first_readable (env : Env) (candidates : list bytes) : option bytes := head (omap (read_to_string env) candidates).
Lemma try_cookies_first env candidates u p :
  try_cookies env candidates = Ok (u, p) ↔
  ∃ contents, first_readable env candidates = Some contents ∧ trim contents = u ++ [58] ++ p ∧ 58 ∉ u ∧ u ≠ [] ∧ p ≠ [].
Proof.
  unfold first_readable. induction candidates as [|path candidates IH]; cbn [try_cookies omap list_omap].
  { split; [done|]. by intros (? & ? & _). }
  destruct (read_to_string env path) as [contents|]; [|done]. cbn [head]. split.
  - intros ([u' p'] & Hs%ok_or_Ok & H)%bind_Ok. apply split_once_Some in Hs as [Hs Hc].
    destruct (bool_decide_reflect (u' = [])); [done|]. destruct (bool_decide_reflect (p' = [])); [done|].
    cbn in H. injection H as -> ->. by exists contents.
  - intros (c & [= <-] & Ht & Hc & Hu & Hp). rewrite (proj2 (split_once_Some 58 (trim contents) u p)) by done. rsimpl.
    by rewrite !bool_decide_false.
Qed.

Lemma push_unique_NoDup l c : NoDup l → NoDup (push_unique l c).
Proof.
  intros Hn. unfold push_unique. case_bool_decide as E; [done|]. apply NoDup_app. split_and!; [done| |apply NoDup_singleton].
  intros x Hx ->%list_elem_of_singleton. done.
Qed.
Lemma push_unique_head l c : l ≠ [] → head (push_unique l c) = head l.
Proof. intros Hl. unfold push_unique. case_bool_decide; [done|]. by destruct l. Qed.
Lemma candidates_facts l : NoDup (foldl push_unique [] l) ∧ head (foldl push_unique [] l) = head l.
Proof.
  assert (∀ l acc, NoDup acc → NoDup (foldl push_unique acc l)) as Hn.
  { clear l. induction l as [|c l IH]; intros acc Ha; [done|]. cbn. by apply IH, push_unique_NoDup. }
  assert (∀ l acc, acc ≠ [] → head (foldl push_unique acc l) = head acc) as Hh.
  { clear l Hn. induction l as [|c l IH]; intros acc Ha; [done|]. cbn. rewrite IH, push_unique_head; [done|done|].
    unfold push_unique. case_bool_decide; [done|]. by destruct acc. }
  split; [by apply Hn; constructor|]. destruct l as [|c l]; [done|]. cbn [foldl]. rewrite Hh; unfold push_unique; rewrite bool_decide_false by apply not_elem_of_nil; done.
Qed.

(** Authentication: explicit credentials are used as they are; half a pair is refused;
    without any, the first readable cookie decides, and it has the form [user:pass] with
    both parts non-empty; without an explicit file the candidates are tried from the
    network of the URL's port on, none twice. *)
Theorem resolve_auth_spec env url user pass cookie_file u p :
  resolve_auth env url user pass cookie_file = Ok (u, p) ↔
  (user ≠ [] ∧ pass ≠ [] ∧ u = user ∧ p = pass) ∨
  (user = [] ∧ pass = [] ∧ ∃ contents,
    first_readable env (match cookie_file with Some path => [path] | None => default_cookie_candidates env url end) = Some contents ∧
    trim contents = u ++ [58] ++ p ∧ 58 ∉ u ∧ u ≠ [] ∧ p ≠ []).
Proof.
  unfold resolve_auth, read_cookie_auth. destruct (bool_decide_reflect (user = [])), (bool_decide_reflect (pass = [])).
  - rewrite try_cookies_first. naive_solver.
  - naive_solver.
  - naive_solver.
  - split; [intros [= <- <-]; by left|]. intros [(_ & _ & -> & ->)|(? & _)]; [done|done].
Qed.
Lemma candidates_in_order env url datadir : default_bitcoin_datadir env = Some datadir →
  NoDup (default_cookie_candidates env url) ∧ head (default_cookie_candidates env url) = Some (network_candidate url datadir).
Proof. intros E. unfold default_cookie_candidates. rewrite E. apply candidates_facts. Qed.
