(* ===== verification/EsploraSource.v ===== *)
(** * Esplora as a source

    Model of [sources/src/esplora.rs]: the retry loop and the source.  The server is the
    parameter [EsploraServer]: what it answers to each attempt of a request.  The waits
    of a call are a list of milliseconds; the throttle that all calls of a source share
    is in [EsploraThrottle]. *)

From S2P Require Import Prelude Decimal UndoPayload Sources Tasks JsonWire Text Node RestSource.

Class EsploraServer := { http_attempt : bytes → nat → res HttpResponse }.

(** [parse_retry_after]: seconds; the header as a string when it is one. *)
Definition parse_retry_after (resp : HttpResponse) : option Z :=
  v ← resp_retry_after resp;
  secs ← parse_u64 (trim v);
  Some (wrap 64 (secs * 1000)).

(** What the loop does with the outcome of an attempt. *)
Inductive Verdict := Return (resp : HttpResponse) | Retry (wait_ms : Z) | GiveUp (msg : string) | Unwind (msg : string).
Definition verdict (outcome : res HttpResponse) (delay_ms : Z) : Verdict :=
  match outcome with
  | Ok resp =>
      let status := resp_status resp in
      if is_success status then Return resp
      else if bool_decide (status = 429) || bool_decide (500 ≤ status < 600) then Retry (default delay_ms (parse_retry_after resp))
      else GiveUp "HTTP {} for {}"
  | Err _ => Retry delay_ms
  | Panic p => Unwind p
  end.
Definition next_delay (delay_ms : Z) : Z := Z.min (wrap 64 (delay_ms * 2)) 60000.
Definition max_attempts : nat := 8.
Definition first_delay : Z := 2000.

Section esplora.
Context `{ES : !EsploraServer}.

(** The loop over the attempts from [attempt] on, with the waits between them. *)
Fixpoint retry_loop (n attempt : nat) (url : bytes) (delay_ms : Z) : res HttpResponse * list Z :=
  match n with
  | O => (Err "giving up on {} after retries", [])
  | S n =>
      match verdict (http_attempt url attempt) delay_ms with
      | Return resp => (Ok resp, [])
      | Retry wait_ms => let '(r, waits) := retry_loop n (S attempt) url (next_delay delay_ms) in (r, wait_ms :: waits)
      | GiveUp e => (Err e, [])
      | Unwind p => (Panic p, [])
      end
  end.
Definition get_with_retry (url : bytes) : res HttpResponse := (retry_loop max_attempts 0 url first_delay).1.

Context `{HX : Hex, HD : !HexDecode, HC : !HttpClient}.

Record EsploraSource := { esplora_base : bytes }.

Definition esplora_text (self : EsploraSource) (path : bytes) : res bytes :=
  resp ← get_with_retry (esplora_base self ++ path);
  text_of <$> resp_body resp.
Definition esplora_block_hash (self : EsploraSource) (height : Z) : res bytes :=
  text ← esplora_text self (ascii_bytes "/block-height/" ++ to_decimal height);
  parse_block_hash text.
Definition esplora_block_raw (self : EsploraSource) (hash : bytes) : res bytes :=
  resp ← get_with_retry (esplora_base self ++ ascii_bytes "/block/" ++ to_hex_display hash ++ ascii_bytes "/raw");
  resp_body resp.
Definition esplora_best_height (self : EsploraSource) : res Z :=
  text ← esplora_text self (ascii_bytes "/blocks/tip/height");
  ok_or (parse_u64 (trim text)) "invalid digit found in string".
Definition esplora_source (self : EsploraSource) : BlockSource :=
  default_source (esplora_block_hash self) (esplora_block_raw self) (esplora_best_height self) (esplora_base self).
End esplora.
#[global] Arguments EsploraSource : clear implicits.

(** ** The retry loop *)

(** The delay of an attempt without [Retry-After]: it doubles up to one minute. *)
Definition backoff (attempt : nat) : Z := Z.min (2000 * 2 ^ Z.of_nat attempt) 60000.
Lemma next_backoff k : next_delay (backoff k) = backoff (S k).
Proof.
  unfold next_delay, backoff. rewrite Nat2Z.inj_succ, Z.pow_succ_r by lia.
  pose proof (Z.pow_pos_nonneg 2 (Z.of_nat k) ltac:(lia) ltac:(lia)). rewrite wrap_small by (unfold in_width; lia). lia.
Qed.

(** An attempt that the loop repeats: the request failed, or status 429 or 5xx. *)
Definition retryable (outcome : res HttpResponse) : Prop :=
  match outcome with
  | Ok resp => ¬ 200 ≤ resp_status resp < 300 ∧ (resp_status resp = 429 ∨ 500 ≤ resp_status resp < 600)
  | Err _ => True
  | Panic _ => False
  end.
#[export] Instance retryable_dec outcome : Decision (retryable outcome).
Proof. destruct outcome; apply _. Defined.
(** The wait after it: what the server asks for, or the backoff. *)
Definition wait_of (outcome : res HttpResponse) (attempt : nat) : Z :=
  match outcome with Ok resp => default (backoff attempt) (parse_retry_after resp) | _ => backoff attempt end.

Lemma verdict_retry outcome k : retryable outcome → verdict outcome (backoff k) = Retry (wait_of outcome k).
Proof.
  destruct outcome as [resp|e|p]; [|done|done]. intros [Hn Hr]. unfold verdict, is_success. rewrite bool_decide_false by done.
  destruct Hr as [-> |Hr]; [done|]. by rewrite (bool_decide_true (500 ≤ _ < 600)), orb_true_r.
Qed.
Definition final (outcome : res HttpResponse) : res HttpResponse :=
  match outcome with Ok resp => if is_success (resp_status resp) then Ok resp else Err "HTTP {} for {}" | r => r end.
Lemma verdict_final outcome delay : ¬ retryable outcome →
  match verdict outcome delay with Return r => Ok r | GiveUp e => Err e | Unwind p => Panic p | Retry _ => Err "" end = final outcome ∧
  ∀ w, verdict outcome delay ≠ Retry w.
Proof.
  destruct outcome as [resp|e|p]; cbn; [|by intros []|by intros _]. unfold is_success. intros Hn.
  case_bool_decide as Hs; [done|]. destruct (_ || _) eqn:E; [|done]. exfalso. apply Hn. split; [done|].
  by rewrite orb_true_iff, !bool_decide_eq_true in E.
Qed.

Section retry.
Context `{ES : !EsploraServer}.

Lemma retry_loop_spec n k url :
  (∃ j, (j < n)%nat ∧ (∀ i, (i < j)%nat → retryable (http_attempt url (k + i))) ∧ ¬ retryable (http_attempt url (k + j)) ∧
     retry_loop n k url (backoff k) =
       (final (http_attempt url (k + j)), (λ i, wait_of (http_attempt url (k + i)) (k + i)) <$> seq 0 j)) ∨
  ((∀ i, (i < n)%nat → retryable (http_attempt url (k + i))) ∧
   retry_loop n k url (backoff k) =
     (Err "giving up on {} after retries", (λ i, wait_of (http_attempt url (k + i)) (k + i)) <$> seq 0 n)).
Proof.
  revert k. induction n as [|n IH]; intros k; [right; split; [lia|done]|].
  assert (∀ j, (λ i, wait_of (http_attempt url (S k + i)) (S k + i)) <$> seq 0 j =
               (λ i, wait_of (http_attempt url (k + i)) (k + i)) <$> seq 1 j) as Hshift.
  { intros j. rewrite <-(fmap_S_seq 0), <-list_fmap_compose. apply list_fmap_ext. intros _ i _. cbn. by rewrite Nat.add_succ_r. }
  cbn [retry_loop]. destruct (decide (retryable (http_attempt url k))) as [Hr|Hr].
  - rewrite verdict_retry, next_backoff by done. destruct (IH (S k)) as [(j & Hj & Hb & Hf & E)|[Hb E]]; rewrite E, Hshift.
    + left. exists (S j). split_and!; [lia| | |].
      * intros [|i] Hi; [by rewrite Nat.add_0_r|]. specialize (Hb i ltac:(lia)). by rewrite Nat.add_succ_r.
      * by rewrite Nat.add_succ_r.
      * rewrite Nat.add_succ_r. cbn [seq fmap list_fmap]. by rewrite Nat.add_0_r.
    + right. split; [|cbn [seq fmap list_fmap]; by rewrite Nat.add_0_r].
      intros [|i] Hi; [by rewrite Nat.add_0_r|]. specialize (Hb i ltac:(lia)). by rewrite Nat.add_succ_r.
  - left. exists 0%nat. rewrite Nat.add_0_r. split_and!; [lia|lia|done|].
    destruct (verdict_final _ (backoff k) Hr) as [<- Hno].
    destruct (verdict _ _) as [| w| |] eqn:E; [done|by destruct (Hno w)|done|done].
Qed.

(** C22: the retry loop ends after at most eight requests.  It returns the outcome of the
    first attempt that is neither a failed request nor status 429 or 5xx, and gives up
    when all eight are; before each new attempt it waits as long as the server asks, or
    2 s doubled with every attempt up to a minute. *)
Theorem retry_ends (url : bytes) :
  ∃ k waits, retry_loop max_attempts 0 url first_delay = (get_with_retry url, waits) ∧ (k ≤ 8)%nat ∧
    waits = (λ i, wait_of (http_attempt url i) i) <$> seq 0 k ∧ (∀ i, (i < k)%nat → retryable (http_attempt url i)) ∧
    (if decide (k < 8)%nat then ¬ retryable (http_attempt url k) ∧ get_with_retry url = final (http_attempt url k)
     else get_with_retry url = Err "giving up on {} after retries").
Proof.
  unfold get_with_retry. destruct (retry_loop_spec max_attempts 0 url) as [(j & Hj & Hb & Hf & E)|[Hb E]]; change (backoff 0) with first_delay in E; rewrite E.
  - exists j, ((λ i, wait_of (http_attempt url i) i) <$> seq 0 j). unfold max_attempts in Hj. rewrite decide_True by lia.
    split_and!; [done|lia|done|done|done|done].
  - exists 8%nat, ((λ i, wait_of (http_attempt url i) i) <$> seq 0 8). split_and!; [done|lia|done|done|done].
Qed.
End retry.

(** ** Over an honest server *)
Section honest.
Context `{ES : !EsploraServer, HX : Hex, HD : !HexDecode, HC : !HttpClient}.
Context (chain : Z → NodeBlock) (tip : Z) (self : EsploraSource).

(** The server answers one of the eight attempts, after refusals that ask for a retry. *)
Definition answers_in_time (path body : bytes) : Prop :=
  ∃ k resp, (k < 8)%nat ∧ (∀ i, (i < k)%nat → retryable (http_attempt (esplora_base self ++ path) i)) ∧
    http_attempt (esplora_base self ++ path) k = Ok resp ∧ is_success (resp_status resp) = true ∧ resp_body resp = Ok body.
Lemma answers_in_time_get path body : answers_in_time path body →
  ∃ resp, get_with_retry (esplora_base self ++ path) = Ok resp ∧ resp_body resp = Ok body.
Proof.
  intros (k & resp & Hk & Hb & E & Hs & Hbody). exists resp. split; [|done]. unfold get_with_retry.
  assert (¬ retryable (http_attempt (esplora_base self ++ path) k)) as Hr.
  { rewrite E. cbn. intros [Hn _]. unfold is_success in Hs. apply bool_decide_eq_true in Hs. lia. }
  destruct (retry_loop_spec max_attempts 0 (esplora_base self ++ path)) as [(j & Hj & Hb' & Hf & El)|[Hb' _]]; cbn [Nat.add] in *.
  - change (backoff 0) with first_delay in El. rewrite El. cbn [fst].
    assert (j = k) as ->; [|by rewrite E; cbn; rewrite Hs].
    destruct (lt_eq_lt_dec j k) as [[Hlt|]|Hlt]; [by destruct Hf; apply Hb|done|by destruct Hr; apply Hb'].
  - destruct Hr. apply Hb'. unfold max_attempts. lia.
Qed.

(** The Esplora API: hashes as 64 digits, raw blocks, the tip height in decimal. *)
Record esplora_node : Prop := {
  en_hash h : 0 ≤ h ≤ tip → answers_in_time (ascii_bytes "/block-height/" ++ to_decimal h) (to_hex_display (nb_hash (chain h)));
  en_raw h : 0 ≤ h ≤ tip →
    answers_in_time (ascii_bytes "/block/" ++ to_hex_display (nb_hash (chain h)) ++ ascii_bytes "/raw") (nb_bytes (chain h));
  en_tip : answers_in_time (ascii_bytes "/blocks/tip/height") (to_decimal tip)
}.

Context (wf : node_wf chain tip) (node : esplora_node).

Lemma esplora_text_ok path body : answers_in_time path body → esplora_text self path = Ok (text_of body).
Proof. intros (resp & E & Hb)%answers_in_time_get. unfold esplora_text. rewrite E. rsimpl. by rewrite Hb. Qed.

Lemma parse_block_hash_plain hash : bytes_wf hash → length hash = 32%nat → parse_block_hash (text_of (to_hex_display hash)) = Ok hash.
Proof.
  intros Hb Hl. unfold to_hex_display. pose proof (hex_encode_digits (reverse hash) (proj2 (Forall_reverse _ _) Hb)) as Hd.
  rewrite text_ascii by (eapply Forall_impl; [exact Hd|]; intros c Hc%hexdigit_range; lia).
  unfold parse_block_hash. rewrite trim_printable by by apply hexdigit_printable.
  rewrite hex_encode_length, length_reverse, Hl, (proj2 (forallb_hexdigits _)) by done.
  rewrite decode_to_slice_encode by (first [by apply Forall_reverse|by rewrite length_reverse]).
  cbn. by rewrite reverse_involutive.
Qed.
Lemma decimal_printable n : 0 ≤ n < 2 ^ 64 → Forall printable (to_decimal n).
Proof.
  intros Hn. unfold to_decimal. destruct (digits_spec 20 n) as (Hf & _ & _).
  { change (10 ^ Z.of_nat 20) with 100000000000000000000. lia. }
  apply Forall_fmap. eapply Forall_impl; [exact Hf|]. unfold printable. cbn. lia.
Qed.

(** The Esplora source keeps the contract of a source when the server gives each
    answer within eight attempts, after any number of failed requests and of refusals
    with status 429 or 5xx. *)
Theorem esplora_serves : serves_chain chain tip false (esplora_source self).
Proof.
  destruct (nw_tip _ _ wf) as [Ht0 Ht1].
  assert (esplora_best_height self = Ok tip) as Hbest.
  { unfold esplora_best_height. rewrite (esplora_text_ok _ _ (en_tip node)). rsimpl.
    pose proof (decimal_printable tip ltac:(lia)) as Hp.
    rewrite text_ascii by (eapply Forall_impl; [exact Hp|]; unfold printable; lia). rewrite trim_printable by done.
    pose proof (parse_decimal_padded 0 tip ltac:(unfold in_width; lia)) as E. unfold to_decimal_padded in E.
    change (0 - length (to_decimal tip))%nat with 0%nat in E. cbn [replicate app] in E. by rewrite E. }
  unfold esplora_source. rewrite Hbest. apply default_serves; [done| |].
  - intros h Hh. unfold esplora_block_hash. rewrite (esplora_text_ok _ _ (en_hash node h Hh)). rsimpl.
    destruct (nw_hash _ _ wf h Hh). by apply parse_block_hash_plain.
  - intros h Hh. unfold esplora_block_raw. destruct (answers_in_time_get _ _ (en_raw node h Hh)) as (resp & -> & Hb). exact Hb.
Qed.
End honest.
