(* ===== verification/EsploraThrottle.v ===== *)
(** * The throttle of the Esplora source

    Model of [throttle], [extend_dormancy] and the waits of [get_with_retry] in
    [sources/src/esplora.rs] for all the calls of one source that run together: a step
    relation between the states of the source.  The calls share the clock, the atomic
    [dormant_until] and the mutex [last_req]; a step is what one call does between two
    points where others can run.  The clock is one and never goes
    back, and a sleep ends when its
    time is over or later.  The outcome of a request is any of the server's. *)

From S2P Require Import Prelude Decimal UndoPayload Sources Tasks JsonWire Text Node RestSource EsploraSource.
From stdpp Require Import relations.
Open Scope Z_scope.

(** Where a call is: in [throttle], waiting for the answer of an attempt, or asleep
    before the next attempt. *)
Inductive Pc :=
| LoadDormant                 (* the top of the loop *)
| ReadClock (dormant : Z)     (* [dormant_until] is loaded *)
| SleepDormant (until : Z)
| WantLock                    (* [last_req.lock().await] *)
| Locked                      (* the mutex is held *)
| SleepGap (until : Z)        (* the mutex is held *)
| Stamp                       (* [*last = now_ms()]; the mutex is held *)
| Send
| Await                       (* the request is sent *)
| Backoff (until : Z)
| Finished.
Record Call := { pc : Pc; attempt : nat; delay_ms : Z }.
Definition new_call : Call := {| pc := LoadDormant; attempt := 0; delay_ms := first_delay |}.
Definition goto (p : Pc) (c : Call) : Call := {| pc := p; attempt := attempt c; delay_ms := delay_ms c |}.

Record Source := {
  clock : Z; dormant_until : Z; last_req : Z; calls : gmap nat Call;
  stamps : list Z;             (* ghost: the values written to [last_req], newest first *)
  requests : list (nat * Z)    (* ghost: the requests sent, newest first *)
}.
Definition set_call (i : nat) (c : Call) (s : Source) : Source := {|
  clock := clock s; dormant_until := dormant_until s; last_req := last_req s; calls := <[i := c]> (calls s);
  stamps := stamps s; requests := requests s |}.
Definition source_new (now : Z) : Source := {|
  clock := now; dormant_until := 0; last_req := 0; calls := ∅; stamps := []; requests := [] |}.

(** [*last = now_ms()] and the release of the mutex. *)
Definition stamp (s : Source) : Source := {|
  clock := clock s; dormant_until := dormant_until s; last_req := clock s; calls := calls s;
  stamps := clock s :: stamps s; requests := requests s |}.
Definition send (i : nat) (s : Source) : Source := {|
  clock := clock s; dormant_until := dormant_until s; last_req := last_req s; calls := calls s;
  stamps := stamps s; requests := (i, clock s) :: requests s |}.
(** [fetch_max(now_ms() + ms_from_now)]. *)
Definition extend_dormancy (ms_from_now : Z) (s : Source) : Source := {|
  clock := clock s; dormant_until := Z.max (dormant_until s) (wrap 64 (clock s + ms_from_now)); last_req := last_req s;
  calls := calls s; stamps := stamps s; requests := requests s |}.

Definition holds_lock (p : Pc) : bool := match p with Locked | SleepGap _ | Stamp => true | _ => false end.
Definition lock_free (s : Source) : Prop := map_Forall (λ _ c, holds_lock (pc c) = false) (calls s).

Section throttle.
Context (min_gap_ms : Z).

(** The rest of [throttle] once the dormancy is over. *)
Definition after_dormancy : Pc := if bool_decide (min_gap_ms = 0) then Send else WantLock.

(** The end of an attempt: the call is over, or asleep until the next one; after the
    eighth it gives up. *)
Definition attempt_done (outcome : res HttpResponse) (c : Call) (s : Source) : Call * Source :=
  match verdict outcome (delay_ms c) with
  | Retry wait_ms =>
      ({| pc := Backoff (clock s + wait_ms); attempt := S (attempt c); delay_ms := next_delay (delay_ms c) |},
       extend_dormancy wait_ms s)
  | _ => (goto Finished c, s)
  end.

Inductive step : Source → Source → Prop :=
| step_tick s ms : 0 ≤ ms →
    step s {| clock := clock s + ms; dormant_until := dormant_until s; last_req := last_req s; calls := calls s;
              stamps := stamps s; requests := requests s |}
| step_call s i : calls s !! i = None → step s (set_call i new_call s)
| step_load s i c : calls s !! i = Some c → pc c = LoadDormant → step s (set_call i (goto (ReadClock (dormant_until s)) c) s)
| step_read s i c d : calls s !! i = Some c → pc c = ReadClock d →
    step s (set_call i (goto (if bool_decide (d ≤ clock s) then after_dormancy else SleepDormant (clock s + (d - clock s))) c) s)
| step_awake s i c t : calls s !! i = Some c → pc c = SleepDormant t → t ≤ clock s → step s (set_call i (goto LoadDormant c) s)
| step_lock s i c : calls s !! i = Some c → pc c = WantLock → lock_free s → step s (set_call i (goto Locked c) s)
| step_elapsed s i c : calls s !! i = Some c → pc c = Locked →
    let elapsed := saturating_sub (clock s) (last_req s) in
    step s (set_call i (goto (if bool_decide (elapsed < min_gap_ms) then SleepGap (clock s + (min_gap_ms - elapsed)) else Stamp) c) s)
| step_gap s i c t : calls s !! i = Some c → pc c = SleepGap t → t ≤ clock s → step s (set_call i (goto Stamp c) s)
| step_stamp s i c : calls s !! i = Some c → pc c = Stamp → step s (set_call i (goto Send c) (stamp s))
| step_send s i c : calls s !! i = Some c → pc c = Send → step s (set_call i (goto Await c) (send i s))
| step_answer s i c outcome c' s' : calls s !! i = Some c → pc c = Await → attempt_done outcome c s = (c', s') →
    step s (set_call i c' s')
| step_retry s i c t : calls s !! i = Some c → pc c = Backoff t → t ≤ clock s →
    step s (set_call i (goto (if bool_decide (attempt c < max_attempts)%nat then LoadDormant else Finished) c) s).

Definition reachable (now : Z) : Source → Prop := rtc step (source_new now).

(** ** The invariant *)

(** Stamps, newest first, at least the gap apart. *)
Fixpoint spaced (l : list Z) : Prop :=
  match l with t :: (u :: _) as rest => u + min_gap_ms ≤ t ∧ spaced rest | _ => True end.
(** The requests of a call. *)
Definition sent (s : Source) (i : nat) : nat := length (filter (λ r, r.1 = i) (requests s)).
(** The calls between their stamp and their request. *)
Definition in_send (c : Call) : bool := match pc c with Send => true | _ => false end.
Definition count_calls (p : Call → bool) (m : gmap nat Call) : nat := size (filter (λ kc, p kc.2 = true) m).

Definition gap_ok (s : Source) (c : Call) : Prop :=
  match pc c with
  | SleepGap t => last_req s + min_gap_ms ≤ t
  | Stamp => last_req s + min_gap_ms ≤ clock s
  | _ => True
  end.
Definition sent_ok (s : Source) (i : nat) (c : Call) : Prop :=
  match pc c with
  | Await => sent s i = S (attempt c) ∧ (attempt c < max_attempts)%nat
  | Finished => (sent s i ≤ max_attempts)%nat
  | Backoff _ => sent s i = attempt c ∧ (attempt c ≤ max_attempts)%nat
  | _ => sent s i = attempt c ∧ (attempt c < max_attempts)%nat
  end.

Record source_ok (now : Z) (s : Source) : Prop := {
  so_last : last_req s = default 0 (head (stamps s));
  so_clock : last_req s ≤ clock s ∧ now ≤ clock s;
  so_spaced : spaced (stamps s);
  so_start : Forall (Z.le now) (stamps s);
  so_gap i c : calls s !! i = Some c → gap_ok s c;
  so_sent i c : calls s !! i = Some c → sent_ok s i c;
  so_unsent i : calls s !! i = None → sent s i = 0%nat;
  so_lock i j c d : calls s !! i = Some c → calls s !! j = Some d → holds_lock (pc c) = true → holds_lock (pc d) = true → i = j;
  so_paid : min_gap_ms ≠ 0 → (length (stamps s) = length (requests s) + count_calls in_send (calls s))%nat
}.

(** Changing one call. *)
Lemma count_set p m i c : (count_calls p (<[i := c]> m) + (match m !! i with Some o => Nat.b2n (p o) | None => 0 end) =
  count_calls p m + Nat.b2n (p c))%nat.
Proof.
  unfold count_calls. set (f := λ kc : nat * Call, p kc.2 = true).
  assert (Hdel : ∀ m : gmap nat Call, size (filter f m) = (size (filter f (delete i m)) + match m !! i with Some o => Nat.b2n (p o) | None => 0 end)%nat).
  { clear m. intros m. rewrite map_filter_delete. destruct (m !! i) as [o|] eqn:E.
    - destruct (p o) eqn:Ep; cbn [Nat.b2n].
      + assert (filter f m !! i = Some o) as Hi by (apply map_lookup_filter_Some; split; done).
        rewrite map_size_delete_Some by (by eexists). assert (size (filter f m) ≠ 0)%nat; [|lia].
        intros H0%map_size_empty_iff. by rewrite H0 in Hi.
      + rewrite map_size_delete_None; [lia|]. apply map_lookup_filter_None. right. intros x Hx. unfold f. cbn. congruence.
    - rewrite map_size_delete_None; [lia|]. apply map_lookup_filter_None. by left. }
  rewrite (Hdel (<[i := c]> m)), (Hdel m), delete_insert_eq, lookup_insert_eq. lia.
Qed.

Context (gap_pos : 0 ≤ min_gap_ms).

(** A step that changes one call and nothing that is shared. *)
Lemma set_ok now s i o c : source_ok now s → calls s !! i = o →
  gap_ok s c → sent_ok s i c → (holds_lock (pc c) = true → lock_free s ∨ ∃ c0, o = Some c0 ∧ holds_lock (pc c0) = true) →
  (min_gap_ms ≠ 0 → in_send c = match o with Some c0 => in_send c0 | None => false end) →
  source_ok now (set_call i c s).
Proof.
  intros [H1 H2 H3 H4 H5 H6 H7 H8 H9] Ho Hg Hs Hl Hp. split; cbn; try done.
  - intros j d [[<- <-]|[Hne Hd]]%lookup_insert_Some; [done|]. by apply (H5 j).
  - intros j d [[<- <-]|[Hne Hd]]%lookup_insert_Some; [done|]. by apply (H6 j).
  - intros j [Hd Hne]%lookup_insert_None. by apply H7.
  - intros j k d e Hd He Hhd Hhe. apply lookup_insert_Some in Hd as [[<- <-]|[Hne Hd]], He as [[<- <-]|[Hne' He]]; try done.
    + destruct (Hl Hhd) as [Hf|(c0 & -> & Hc0)]; [|by apply (H8 i k c0 e)]. specialize (Hf k e He). cbn in Hf. congruence.
    + destruct (Hl Hhe) as [Hf|(c0 & -> & Hc0)]; [|by apply (H8 j i d c0)]. specialize (Hf j d Hd). cbn in Hf. congruence.
    + by apply (H8 j k d e).
  - intros Hm. rewrite (H9 Hm). specialize (Hp Hm). pose proof (count_set in_send (calls s) i c) as Hc. rewrite Ho, Hp in Hc.
    destruct o; cbn in *; lia.
Qed.

Lemma spaced_cons l t : spaced l → (∀ u, head l = Some u → u + min_gap_ms ≤ t) → spaced (t :: l).
Proof. intros Hl Hu. destruct l as [|u l]; [done|]. split; [by apply Hu|done]. Qed.

Lemma sent_cons s i c j : sent (set_call i c (send i s)) j = (sent s j + if decide (i = j) then 1 else 0)%nat.
Proof. unfold sent. cbn [requests set_call send]. rewrite filter_cons. cbn [fst]. case_decide; cbn [length]; lia. Qed.

Lemma step_ok now s s' : source_ok now s → step s s' → source_ok now s'.
Proof.
  intros Hok Hst. destruct Hst as [s ms Hms|s i Hi|s i c Hi Hpc|s i c d Hi Hpc|s i c t Hi Hpc Ht|s i c Hi Hpc Hf|s i c Hi Hpc el|s i c t Hi Hpc Ht|s i c Hi Hpc|s i c Hi Hpc|s i c out c' s' Hi Hpc Hd|s i c t Hi Hpc Ht].
  - (* tick *) destruct Hok as [H1 H2 H3 H4 H5 H6 H7 H8 H9]. split; cbn; try done; [lia|].
    intros i c Hc. specialize (H5 i c Hc). unfold gap_ok in *. cbn. destruct (pc c); lia.
  - (* call *) apply (set_ok now s i None); [done|done|done| |done|done]. split; [by apply (so_unsent _ _ Hok)|vm_compute; lia].
  - (* load *) pose proof (so_sent _ _ Hok i c Hi) as Hs. unfold sent_ok in Hs. rewrite Hpc in Hs.
    apply (set_ok now s i (Some c)); [done..|intros _; unfold in_send; by rewrite Hpc].
  - (* read *) pose proof (so_sent _ _ Hok i c Hi) as Hs. unfold sent_ok in Hs. rewrite Hpc in Hs. unfold after_dormancy.
    apply (set_ok now s i (Some c)); [done|done| | | |]; repeat case_bool_decide; try done; intros _; unfold in_send; by rewrite Hpc.
  - (* awake *) pose proof (so_sent _ _ Hok i c Hi) as Hs. unfold sent_ok in Hs. rewrite Hpc in Hs.
    apply (set_ok now s i (Some c)); [done..|intros _; unfold in_send; by rewrite Hpc].
  - (* lock *) pose proof (so_sent _ _ Hok i c Hi) as Hs. unfold sent_ok in Hs. rewrite Hpc in Hs.
    apply (set_ok now s i (Some c)); [done|done|done|done|by left|intros _; unfold in_send; by rewrite Hpc].
  - (* elapsed *) pose proof (so_sent _ _ Hok i c Hi) as Hs. unfold sent_ok in Hs. rewrite Hpc in Hs.
    pose proof (so_clock _ _ Hok) as [Hcl _]. unfold el, saturating_sub in *.
    apply (set_ok now s i (Some c)); [done|done| | | |].
    + case_bool_decide; cbn; lia.
    + by case_bool_decide.
    + right. exists c. by rewrite Hpc.
    + intros _. unfold in_send. rewrite Hpc. by case_bool_decide.
  - (* gap *) pose proof (so_sent _ _ Hok i c Hi) as Hs. unfold sent_ok in Hs. rewrite Hpc in Hs.
    pose proof (so_gap _ _ Hok i c Hi) as Hg. unfold gap_ok in Hg. rewrite Hpc in Hg.
    apply (set_ok now s i (Some c)); [done|done|cbn; lia|done|right; exists c; by rewrite Hpc|intros _; unfold in_send; by rewrite Hpc].
  - (* stamp *) pose proof (so_sent _ _ Hok i c Hi) as Hs. unfold sent_ok in Hs. rewrite Hpc in Hs.
    pose proof (so_gap _ _ Hok i c Hi) as Hg. unfold gap_ok in Hg. rewrite Hpc in Hg.
    destruct Hok as [H1 H2 H3 H4 H5 H6 H7 H8 H9]. split; cbn; try done.
    + lia.
    + apply spaced_cons; [done|]. intros u Hu. rewrite Hu in H1. cbn in H1. lia.
    + constructor; [lia|done].
    + intros j d [[<- <-]|[Hne Hj]]%lookup_insert_Some; [done|].
      unfold gap_ok. destruct (pc d) eqn:Ed; try done; destruct Hne; apply (H8 i j c d); try done; by rewrite ?Hpc, ?Ed.
    + intros j d [[<- <-]|[Hne Hj]]%lookup_insert_Some; [done|]. by apply (H6 j).
    + intros j [Hj _]%lookup_insert_None. by apply H7.
    + intros j k d e [[<- <-]|[Hne Hj]]%lookup_insert_Some; [done|].
      intros [[<- <-]|[Hne' Hk]]%lookup_insert_Some; [done|]. by apply (H8 j k d e).
    + intros Hm. specialize (H9 Hm). pose proof (count_set in_send (calls s) i (goto Send c)) as Hc. rewrite Hi in Hc.
      unfold in_send at 2 in Hc. rewrite Hpc in Hc. cbn in Hc. rewrite H9. lia.
  - (* send *) pose proof (so_sent _ _ Hok i c Hi) as Hs. unfold sent_ok in Hs. rewrite Hpc in Hs.
    destruct Hok as [H1 H2 H3 H4 H5 H6 H7 H8 H9]. split; cbn; try done.
    + intros j d [[<- <-]|[Hne Hj]]%lookup_insert_Some; [done|]. by apply (H5 j).
    + intros j d [[<- <-]|[Hne Hj]]%lookup_insert_Some.
      * unfold sent_ok. cbn [pc goto attempt]. rewrite sent_cons, decide_True by done. split; lia.
      * specialize (H6 j d Hj). unfold sent_ok in *.
        assert (sent (set_call i (goto Await c) (send i s)) j = sent s j) as ->; [|done].
        rewrite sent_cons, decide_False by done. lia.
    + intros j [Hj Hne]%lookup_insert_None. change (sent (set_call i (goto Await c) (send i s)) j = 0%nat). rewrite sent_cons, decide_False, H7 by done. lia.
    + intros j k d e [[<- <-]|[Hne Hj]]%lookup_insert_Some; [done|].
      intros [[<- <-]|[Hne' Hk]]%lookup_insert_Some; [done|]. by apply (H8 j k d e).
    + intros Hm. specialize (H9 Hm). pose proof (count_set in_send (calls s) i (goto Await c)) as Hc. rewrite Hi in Hc.
      unfold in_send at 2 in Hc. rewrite Hpc in Hc. cbn in Hc. rewrite H9. lia.
  - (* answer *) pose proof (so_sent _ _ Hok i c Hi) as Hs. unfold sent_ok in Hs. rewrite Hpc in Hs.
    unfold attempt_done in Hd. destruct (verdict out (delay_ms c)) as [|w| |]; injection Hd as <- <-.
    2: { apply (set_ok now (extend_dormancy w s) i (Some c)); [|done|done| |done|intros _; unfold in_send; by rewrite Hpc].
         - destruct Hok as [H1 H2 H3 H4 H5 H6 H7 H8 H9]. by split.
         - unfold sent_ok. cbn [pc attempt]. change (sent (extend_dormancy w s) i) with (sent s i). lia. }
    all: apply (set_ok now s i (Some c)); [done|done|done| |done|intros _; unfold in_send; by rewrite Hpc]; unfold sent_ok; cbn [pc goto]; lia.
  - (* retry *) pose proof (so_sent _ _ Hok i c Hi) as Hs. unfold sent_ok in Hs. rewrite Hpc in Hs.
    apply (set_ok now s i (Some c)); [done|done| | | |]; case_bool_decide; try done; try (intros _; unfold in_send; by rewrite Hpc);
      unfold sent_ok; cbn [pc goto attempt]; lia.
Qed.

Lemma reachable_ok now s : 0 ≤ now → reachable now s → source_ok now s.
Proof.
  intros Hnow. unfold reachable. assert (source_ok now (source_new now)) as H0.
  { split; cbn; try done; try lia; intros; cbn; by rewrite ?lookup_empty in *. }
  revert H0. generalize (source_new now). intros s0 H0 Hr. induction Hr as [s0|s0 s1 s2 Hs _ IH]; [done|]. by eapply IH, step_ok.
Qed.

(** The stamps of a spaced list span the gaps between them. *)
Lemma spaced_span now l t : spaced (t :: l) → Forall (Z.le now) (t :: l) → len l * min_gap_ms ≤ t - now.
Proof.
  revert t. induction l as [|u l IH]; intros t Hs Hn; inversion_clear Hn as [|? ? Ht Hn']; [cbn; lia|].
  destruct Hs as [Hu Hs]. specialize (IH u Hs Hn'). cbn [length]. lia.
Qed.

(** C21: the shared throttle, however the calls of a source interleave.  At most one call
    is between reading and stamping [last_req]; consecutive stamps are the minimal gap
    apart; every request is paid for by a stamp of its own, so in any state at most one
    request more than one per gap since the start has been sent; and no call has sent
    more than eight. *)
Theorem throttle_rate (now : Z) (s : Source) (Hnow : 0 ≤ now) (Hr : reachable now s) :
  spaced (stamps s) ∧
  (∀ i j c d, calls s !! i = Some c → calls s !! j = Some d → holds_lock (pc c) = true → holds_lock (pc d) = true → i = j) ∧
  (min_gap_ms ≠ 0 → (len (requests s) - 1) * min_gap_ms ≤ clock s - now) ∧
  ∀ i, (sent s i ≤ 8)%nat.
Proof.
  apply reachable_ok in Hr as [H1 H2 H3 H4 H5 H6 H7 H8 H9]; [|done]. split_and!; [done|done| |].
  - intros Hm. specialize (H9 Hm). destruct (stamps s) as [|t l]; [cbn in H9; lia|].
    pose proof (spaced_span now l t H3 H4). cbn in H1, H9. assert (len (requests s) - 1 ≤ len l) by lia. nia.
  - intros i. destruct (calls s !! i) as [c|] eqn:E; [|rewrite H7 by done; lia].
    specialize (H6 i c E). unfold sent_ok, max_attempts in H6. destruct (pc c); lia.
Qed.
End throttle.

(** ** A request during the dormancy

    [throttle] checks [dormant_until] before it waits for the mutex and for the gap, not
    after: a call that has passed the check sends its request although another call has
    made the source dormant in the meantime. *)
Definition refused : res HttpResponse := Ok {| resp_status := 429; resp_retry_after := None; resp_body := Ok [] |}.
(** One step of a concrete run, with the state evaluated. *)
Ltac go tac :=
  eapply rtc_l; [tac|];
  match goal with |- rtc _ ?s _ => let v := eval vm_compute in s in change s with v end.
(** Call 0 has been refused and sleeps; call 1 has slept out the gap and sends next. *)
Definition demo_source : Source := {|
  clock := 1200; dormant_until := 3000; last_req := 1200;
  calls := <[0%nat := {| pc := Backoff 3000; attempt := 1; delay_ms := 4000 |}]> {[1%nat := {| pc := Send; attempt := 0; delay_ms := 2000 |}]};
  stamps := [1200; 1000]; requests := [(0%nat, 1000)] |}.
Lemma demo_reachable : reachable 200 1000 demo_source.
Proof.
  unfold reachable.
  go ltac:(apply (step_call 200 _ 0); reflexivity).
  go ltac:(eapply (step_load 200 _ 0); reflexivity).
  go ltac:(eapply (step_read 200 _ 0); reflexivity).
  go ltac:(eapply (step_lock 200 _ 0); [reflexivity|reflexivity|refine (bool_decide_unpack _ _); vm_compute; exact I]).
  go ltac:(eapply (step_elapsed 200 _ 0); reflexivity).
  go ltac:(eapply (step_stamp 200 _ 0); reflexivity).
  go ltac:(eapply (step_send 200 _ 0); reflexivity).
  go ltac:(apply (step_call 200 _ 1); reflexivity).
  go ltac:(eapply (step_load 200 _ 1); reflexivity).
  go ltac:(eapply (step_read 200 _ 1); reflexivity).
  go ltac:(eapply (step_lock 200 _ 1); [reflexivity|reflexivity|refine (bool_decide_unpack _ _); vm_compute; exact I]).
  go ltac:(eapply (step_elapsed 200 _ 1); reflexivity).
  go ltac:(eapply (step_answer 200 _ 0 _ refused); reflexivity).
  go ltac:(apply (step_tick 200 _ 200); lia).
  go ltac:(eapply (step_gap 200 _ 1); [reflexivity|reflexivity|vm_compute; congruence]).
  go ltac:(eapply (step_stamp 200 _ 1); reflexivity).
  match goal with |- rtc _ ?s _ => change demo_source with s end. apply rtc_refl.
Qed.
Lemma sends_while_dormant : ∃ s s' i, reachable 200 1000 s ∧ step 200 s s' ∧
  requests s' = (i, clock s) :: requests s ∧ clock s < dormant_until s.
Proof.
  eexists demo_source, _, 1%nat. split; [apply demo_reachable|]. split; [eapply (step_send 200 _ 1); reflexivity|]. by vm_compute.
Qed.

Lemma throttle_rate_witness :
  spaced 200 (stamps demo_source) ∧
  (∀ i j c d, calls demo_source !! i = Some c → calls demo_source !! j = Some d → holds_lock (pc c) = true → holds_lock (pc d) = true → i = j) ∧
  (200 ≠ 0 → (len (requests demo_source) - 1) * 200 ≤ clock demo_source - 1000) ∧
  ∀ i, (sent demo_source i ≤ 8)%nat.
Proof. apply (throttle_rate 200 ltac:(lia) 1000 demo_source); [lia|apply demo_reachable]. Defined.
