(* ===== verification/IpcSource.v ===== *)
(** * Bitcoin Core's multiprocess interface as a source

    Model of [sources/src/ipc.rs].  The generated Cap'n Proto client of the [Chain]
    interface is the parameter [ChainClient]: the answer of the node to each request, on
    any of its worker threads; a field that cannot be read is an [Err].  The actor takes
    the requests from its channel one after the other, gives each the next thread and
    answers them as their calls complete.  The second part is the handshake
    that makes such a client. *)

From S2P Require Import Prelude UndoPayload Decimal Tasks JsonWire Sources Text Node.

(** ** The node's interface *)
Record FoundBlock := { fb_found : bool; fb_height : Z; fb_hash : res bytes; fb_data : res bytes }.
Class ChainClient := {
  chain_get_height : nat → res (bool * Z);                          (* [has_result], [result] *)
  chain_get_block_hash : nat → Z → res bytes;
  chain_find_block : nat → bytes → res (bool * res FoundBlock);
  chain_find_first : nat → Z → Z → res (bool * res FoundBlock);     (* the minimal time and height *)
  chain_wait_if_tip_changed : nat → bytes → res unit;
  chain_wait : nat → res unit
}.

Inductive IpcRequest :=
| GetBestHeight
| GetBlockHash (height : Z)
| GetBlockRaw (hash : bytes)
| GetBlockByHeight (height : Z)
| WaitForTipChange (old_tip : option bytes).

Section handlers.
Context `{CC : !ChainClient}.

(** [i32::try_from] of a height. *)
Definition height_i32 (height : Z) : res Z :=
  if bool_decide (height < 2 ^ 31) then Ok height else Err "height {height} does not fit Bitcoin Core IPC Int32 height".
Definition data_to_hash (data : bytes) : res bytes :=
  if bool_decide (length data ≠ 32)%nat then Err "IPC {field} returned {} bytes, expected 32" else Ok data.

Definition ipc_best_height (thread : nat) : res Z :=
  '(has_result, height) ← chain_get_height thread;
  if negb has_result then Err "IPC Chain.getHeight returned no active tip"
  else if bool_decide (height < 0) then Err "IPC Chain.getHeight returned negative height {height}"
  else Ok height.
Definition ipc_block_hash (thread : nat) (height : Z) : res bytes :=
  height_i32 ← height_i32 height;
  hash ← chain_get_block_hash thread height_i32;
  data_to_hash hash.
Definition ipc_block_by_height (thread : nat) (height : Z) : res RawBlockFrame :=
  height_i32 ← height_i32 height;
  '(result, block) ← chain_find_first thread 0 height_i32;
  if negb result then Err "IPC Chain.findFirstBlockWithTimeAndHeight did not find block at height {height}"
  else
    block ← block;
    if negb (fb_found block) then Err "IPC Chain.findFirstBlockWithTimeAndHeight returned found=false for height {height}"
    else if bool_decide (fb_height block ≠ height_i32)
    then Err "IPC Chain.findFirstBlockWithTimeAndHeight returned height {}, expected {}"
    else
      hash ← fb_hash block;
      hash ← data_to_hash hash;
      data ← fb_data block;
      Ok {| rf_height := height; rf_hash := hash; rf_bytes := data; rf_spent_txouts := None |}.
Definition ipc_block_raw (thread : nat) (hash : bytes) : res bytes :=
  '(result, block) ← chain_find_block thread hash;
  if negb result then Err "IPC Chain.findBlock did not find block {}"
  else block ← block; fb_data block.
Definition ipc_wait_for_tip_change (thread : nat) (old_tip : option bytes) : res unit :=
  match old_tip with Some old_tip => chain_wait_if_tip_changed thread old_tip | None => chain_wait thread end.

(** ** The actor *)

(** [pick_thread]: the thread and the new [next]. *)
Definition pick_thread (threads next : nat) : nat * nat := (next, ((next + 1) mod threads)%nat).
(** [run]: the requests in the order of the channel, each with its thread. *)
Fixpoint run_actor (threads next : nat) (requests : list IpcRequest) : list (nat * IpcRequest) :=
  match requests with
  | [] => []
  | req :: requests => let '(thread, next) := pick_thread threads next in (thread, req) :: run_actor threads next requests
  end.
(** [connect_with_threads]: at least one thread. *)
Definition thread_pool (thread_count : nat) : nat := Nat.max thread_count 1.

(** The caller's side: a stopped actor, and a handler that unwinds and drops the reply,
    are errors. *)
Definition request {A} (running : bool) (handler : res A) : res A :=
  if negb running then Err "IPC actor is not running"
  else match handler with Panic _ => Err "IPC actor dropped response" | r => r end.

(** The source; [thread] is the one the actor gives the request. *)
Definition ipc_source (running : bool) (thread : nat) (nm : bytes) : BlockSource :=
  let by_height height := request running (ipc_block_by_height thread height) in {|
  get_block_hash height := request running (ipc_block_hash thread height);
  get_block_raw hash := request running (ipc_block_raw thread hash);
  get_block_spent_txouts := default_spent_txouts;
  get_blocks_spent_txouts := default_blocks_spent_txouts default_spent_txouts;
  get_best_height := request running (ipc_best_height thread);
  get_block_by_height := by_height;
  get_block_range_by_height := default_range by_height;
  supports_block_range_batches := false;
  supports_block_spent_txouts := false;
  prefers_height_fetch := true;
  source_name := nm |}.
Definition ipc_watch (running : bool) (thread : nat) (old_tip : option bytes) : res unit :=
  request running (ipc_wait_for_tip_change thread old_tip).
End handlers.

(** ** Theorems *)

(** The [i]-th request runs on thread [(next + i) mod threads]: in range, in turn. *)
Lemma run_actor_threads threads next reqs i : (next < threads)%nat → (i < length reqs)%nat →
  run_actor threads next reqs !! i = (λ req, (((next + i) mod threads)%nat, req)) <$> reqs !! i.
Proof.
  intros Hn. revert next i Hn. induction reqs as [|req reqs IH]; intros next i Hn Hi; [cbn in Hi; lia|].
  cbn [run_actor pick_thread]. destruct i as [|i].
  - cbn. rewrite Nat.add_0_r, Nat.mod_small by done. done.
  - cbn [lookup list_lookup]. change (run_actor threads ((next + 1) mod threads) reqs !! i =
      (λ req, (((next + S i) mod threads)%nat, req)) <$> reqs !! i).
    assert ((next + 1) mod threads < threads)%nat by (apply Nat.mod_upper_bound; lia). cbn in Hi. rewrite IH by lia.
    assert (((next + 1) mod threads + i) mod threads = (next + S i) mod threads)%nat as E; [|by destruct (reqs !! i); cbn; rewrite ?E].
    rewrite Nat.Div0.add_mod_idemp_l. f_equal. lia.
Qed.

Section ipc.
Context `{CC : !ChainClient}.

(** Whatever the node answers, a block by height is a block the node found at that very
    height, which is an [i32], with a hash of 32 bytes. *)
Lemma ipc_by_height_checked thread h frame : 0 ≤ h → ipc_block_by_height thread h = Ok frame →
  h < 2 ^ 31 ∧ rf_height frame = h ∧ length (rf_hash frame) = 32%nat ∧ ∃ block, chain_find_first thread 0 h = Ok (true, Ok block) ∧
    fb_found block = true ∧ fb_height block = h ∧ fb_hash block = Ok (rf_hash frame) ∧ fb_data block = Ok (rf_bytes frame).
Proof.
  intros Hh H. unfold ipc_block_by_height in H. apply bind_Ok in H as (h' & Hi & H). unfold height_i32 in Hi.
  case_bool_decide as Hlt; [|done]. injection Hi as <-. apply bind_Ok in H as ([[] block] & Hf & H); [|done].
  cbn [negb] in H. apply bind_Ok in H as (b & -> & H). destruct (fb_found b) eqn:Ef; [|done]. cbn [negb] in H.
  case_bool_decide as Hb; [done|]. res_inv. unfold data_to_hash in *. case_bool_decide as Hl; [done|]. res_inv. cbn. split_and!; [done|done|done|]. by exists b.
Qed.

Context (chain : Z → NodeBlock) (tip : Z) (threads : nat).

(** Bitcoin Core's [Chain] interface, on every worker thread. *)
Record ipc_node : Prop := {
  in_height t : (t < threads)%nat → chain_get_height t = Ok (true, tip);
  in_hash t h : (t < threads)%nat → 0 ≤ h ≤ tip → chain_get_block_hash t h = Ok (nb_hash (chain h));
  in_block t h : (t < threads)%nat → 0 ≤ h ≤ tip →
    ∃ b, chain_find_block t (nb_hash (chain h)) = Ok (true, Ok b) ∧ fb_data b = Ok (nb_bytes (chain h));
  in_first t h : (t < threads)%nat → 0 ≤ h ≤ tip → chain_find_first t 0 h =
    Ok (true, Ok {| fb_found := true; fb_height := h; fb_hash := Ok (nb_hash (chain h)); fb_data := Ok (nb_bytes (chain h)) |})
}.

(** The IPC source over an honest Bitcoin Core node keeps the contract of a source,
    on whatever worker thread the actor runs each request. *)
Theorem ipc_serves (thread : nat) (nm : bytes) (wf : node_wf chain tip) (node : ipc_node) (Ht : (thread < threads)%nat) :
  serves_chain chain tip false (ipc_source true thread nm).
Proof.
  destruct (nw_tip _ _ wf) as [Ht0 Ht1].
  assert (∀ h, 0 ≤ h ≤ tip → request true (ipc_block_by_height thread h) = Ok (frame_at chain false h)) as Hby.
  { intros h Hh. unfold ipc_block_by_height, height_i32. rewrite bool_decide_true by lia. rsimpl.
    rewrite (in_first node) by done. rsimpl. cbn [negb fb_found fb_height fb_hash fb_data]. rewrite bool_decide_false by (by intros []).
    rsimpl. unfold data_to_hash. destruct (nw_hash _ _ wf h Hh) as [_ Hl]. by rewrite bool_decide_false by (by intros []). }
  split; cbn; try done.
  - intros h Hh. unfold ipc_block_hash, height_i32. rewrite bool_decide_true by lia. rsimpl. rewrite (in_hash node) by done. rsimpl.
    unfold data_to_hash. destruct (nw_hash _ _ wf h Hh) as [_ Hl]. by rewrite bool_decide_false by (by intros []).
  - intros h Hh. unfold ipc_block_raw. destruct (in_block node thread h Ht Hh) as (b & -> & Hb). rsimpl. cbn [negb]. by rewrite Hb.
  - unfold ipc_best_height. rewrite (in_height node) by done. rsimpl. by rewrite bool_decide_false by lia.
  - intros start n H0 Hn Hs. apply default_range_frames; [done|lia|]. intros h Hh. apply Hby. lia.
  - intros hs _ Hhs. by apply (default_blocks_undos chain tip).
Qed.
End ipc.

(** * Connecting to a node's IPC socket

    Model of [IpcSource::connect], [connect_with_threads] and [IpcActor::connect] of
    [sources/src/ipc.rs]: the handshake over the generated Cap'n Proto interfaces
    [Init] and [ThreadMap], the pool of worker threads, and the actor that reports on a
    channel whether it is ready.  The answers of the node are the class [NodeInit]; the
    model keeps the calls it makes, in order.

    The theorem: a connection makes the calls of the protocol up to the first one that
    fails, in order, and either answers that failure or holds a client of the chain and
    exactly the threads asked for, at least one; it never panics. *)

(** The outcome of a call: sending fails, the response cannot be read, or its result is
    missing, each with the error of the library. *)
Inductive reply (A : Type) := NoAnswer (e : string) | BadResponse (e : string) | NoResult (e : string) | Answer (a : A).
Arguments NoAnswer {A} e.
Arguments BadResponse {A} e.
Arguments NoResult {A} e.
Arguments Answer {A} a.

Class NodeInit := {
  ThreadMap : Type;
  Thread : Type;
  unix_connect : bytes → option string;                (* the error, if any *)
  init_construct : reply ThreadMap;
  make_thread : ThreadMap → nat → reply Thread;    (* the answer to the call of this number *)
  make_chain_context : option string;               (* building the context of the request *)
  make_chain : Thread → reply ChainClient;
  build_runtime : option string;
  spawn_thread : option string
}.

Section connect.
Context `{NI : !NodeInit}.

Inductive IpcCall := CConnect (path : bytes) | CConstruct | CMakeThread (index : nat) | CMakeChain (t : Thread).
Definition Calls (A : Type) : Type := list IpcCall → list IpcCall * res A.
#[global] Instance calls_bind : MBind Calls := λ A B f m log,
  let '(log, r) := m log in match r with Ok a => f a log | Err e => (log, Err e) | Panic p => (log, Panic p) end.
Definition pure {A} (r : res A) : Calls A := λ log, (log, r).
(** A call whose error the caller prefixes. *)
Definition call {A} (c : IpcCall) (r : res A) : Calls A := λ log, (log ++ [c], r).

(** A step that fails with the error, if there is one. *)
Definition unless (e : option string) (msg : string → string) : res unit := match e with Some e => Err (msg e) | None => Ok tt end.

Definition answered {A} (failed bad missing : string) (r : reply A) : res A :=
  match r with NoAnswer _ => Err failed | BadResponse _ => Err bad | NoResult _ => Err missing | Answer a => Ok a end.

Record IpcActor := { threads : list Thread; next : nat; chain : ChainClient }.

(** The loop [for index in 0..thread_count]. *)
Fixpoint make_threads (thread_map : ThreadMap) (index : nat) (n : nat) (threads : list Thread) : Calls (list Thread) :=
  match n with
  | O => pure (Ok threads)
  | S n =>
      thread ← call (CMakeThread index) (answered "IPC ThreadMap.makeThread #{index} failed: {err}"
        "IPC makeThread #{index} response failed: {err}" "IPC makeThread #{index} did not return thread: {err}"
        (make_thread thread_map index));
      make_threads thread_map (S index) n (threads ++ [thread])
  end.

Definition actor_connect (socket_path : bytes) (thread_count : nat) : Calls IpcActor :=
  _ ← call (CConnect socket_path)
    (unless (unix_connect socket_path) (λ _, "failed to connect to IPC socket {}: {err}"%string));
  thread_map ← call CConstruct (answered "IPC Init.construct failed: {err}" "IPC Init.construct response failed: {err}"
    "IPC Init.construct did not return thread map: {err}" init_construct);
  threads ← make_threads thread_map 0 thread_count [];
  _ ← pure (unless make_chain_context (λ _, "IPC makeChain context failed: {err}"%string));
  first ← pure (index threads 0);
  chain ← call (CMakeChain first) (answered "IPC Init.makeChain failed: {err}" "IPC makeChain response failed: {err}"
    "IPC makeChain did not return Chain client: {err}" (make_chain first));
  pure (Ok {| threads := threads; next := 0; chain := chain |}).

(** The thread of the actor: what it sends on the channel, [None] if it unwinds before,
    and the actor that then runs. *)
Definition actor_thread (socket_path : bytes) (thread_count : nat) : Calls (option (res IpcActor)) := λ log,
  match build_runtime with
  | Some e => (log, Ok (Some (Err e)))
  | None =>
      let '(log, r) := actor_connect socket_path thread_count log in
      (log, Ok (match r with Panic _ => None | r => Some r end))
  end.

Record IpcHandle := { socket_path : bytes; name : bytes; channel_capacity : Z; actor : IpcActor }.
Definition connect_with_threads (path : bytes) (thread_count : nat) : Calls IpcHandle :=
  let thread_count := thread_pool thread_count in
  let name := ascii_bytes "ipc:" ++ path in
  let channel_capacity := Z.max (wrap 64 (Z.of_nat thread_count * 8)) 128 in
  _ ← pure (unless spawn_thread id);
  ready ← actor_thread path thread_count;
  pure (match ready with
    | Some (Ok actor) => Ok {| socket_path := path; name := name; channel_capacity := channel_capacity; actor := actor |}
    | Some (Err e) => Err e
    | Some (Panic p) => Panic p
    | None => Err "IPC actor failed to start: {err}"
    end).

(** [IpcSource::connect]: the number of threads from the environment, or eight. *)
Definition env_thread_count (value : option bytes) : nat := default 8%nat (Z.to_nat <$> (value ≫= parse_u64)).
Definition connect (env_value : option bytes) (path : bytes) : Calls IpcHandle :=
  connect_with_threads path (env_thread_count env_value).

(** The source a handle is: the actor runs its requests. *)
Definition handle_source (h : IpcHandle) (thread : nat) : BlockSource :=
  ipc_source (CC := chain (actor h)) true thread (name h).

(** ** The protocol *)

(** The calls of a connection with these threads. *)
Definition protocol (path : bytes) (first : Thread) (n : nat) : list IpcCall :=
  [CConnect path; CConstruct] ++ (CMakeThread <$> seq 0 n) ++ [CMakeChain first].

(** What a node must answer for a connection with [n] threads. *)
Record accepts (path : bytes) (n : nat) (ts : list Thread) (client : ChainClient) : Prop := {
  ac_spawn : spawn_thread = None;
  ac_runtime : build_runtime = None;
  ac_socket : unix_connect path = None;
  ac_threads : ∃ map, init_construct = Answer map ∧ length ts = n ∧ ∀ i t, ts !! i = Some t → make_thread map i = Answer t;
  ac_context : make_chain_context = None;
  ac_chain : ∃ t, ts !! 0%nat = Some t ∧ make_chain t = Answer client
}.

Lemma calls_bind_eq {A B} (m : Calls A) (f : A → Calls B) log :
  (m ≫= f) log = match (m log).2 with Ok a => f a (m log).1 | Err e => ((m log).1, Err e) | Panic p => ((m log).1, Panic p) end.
Proof. unfold mbind, calls_bind. by destruct (m log) as [l r]. Qed.

Lemma answered_ok {A} f b m (r : reply A) a : answered f b m r = Ok a ↔ r = Answer a.
Proof. destruct r; cbn; split; intros H; (discriminate H || by injection H as <-). Qed.
Lemma answered_no_panic {A} f b m (r : reply A) : no_panic (answered f b m r).
Proof. by destruct r. Qed.

(** The threads that were made, and the calls that made them or stopped. *)
Lemma make_threads_spec map n : ∀ i acc log log' r, make_threads map i n acc log = (log', r) → no_panic r ∧
  (∀ ts, r = Ok ts → ∃ new, ts = acc ++ new ∧ length new = n ∧ (∀ j t, new !! j = Some t → make_thread map (i + j) = Answer t) ∧
     log' = log ++ (CMakeThread <$> seq i n)) ∧
  (is_ok r = false → ∃ k, (k < n)%nat ∧ log' = log ++ (CMakeThread <$> seq i (S k)) ∧ ¬ ∃ t, make_thread map (i + k) = Answer t).
Proof.
  induction n as [|n IH]; intros i acc log log' r H.
  - injection H as <- <-. split; [done|]. split; [|done]. intros ts [= <-]. exists []. rewrite !app_nil_r. done.
  - cbn [make_threads] in H. rewrite calls_bind_eq in H. cbn [call fst snd] in H.
    destruct (make_thread map i) as [e|e|e|t] eqn:E; cbn [answered] in H.
    1-3: injection H as <- <-; split; [done|]; split; [done|]; intros _; exists 0%nat; rewrite Nat.add_0_r, E;
         (split; [lia|split; [done|by intros [? ?]]]).
    apply IH in H as (Hp & Hok & Herr). split; [done|]. split.
    + intros ts ->. destruct (Hok ts eq_refl) as (new & -> & Hl & Hnew & ->). exists (t :: new).
      rewrite <- !app_assoc. split; [done|]. split; [cbn; lia|]. split; [|done].
      intros [|j] t' Hj; cbn in Hj; [injection Hj as <-; by rewrite Nat.add_0_r|].
      rewrite Nat.add_succ_r. by apply (Hnew j).
    + intros Hr. destruct (Herr Hr) as (k & Hk & -> & Hno). exists (S k). rewrite <- app_assoc.
      split; [lia|]. split; [done|]. by rewrite Nat.add_succ_r.
Qed.

(** A connection attempt: the calls stop at the first failure. *)
Lemma actor_connect_spec path n log r : (0 < n)%nat → spawn_thread = None → build_runtime = None →
  actor_connect path n [] = (log, r) →
  no_panic r ∧
  (∀ a, r = Ok a → next a = 0%nat ∧ accepts path n (threads a) (chain a) ∧
     ∃ first, threads a !! 0%nat = Some first ∧ log = protocol path first n) ∧
  (is_ok r = false → (∀ ts client, ¬ accepts path n ts client) ∧
     (log `prefix_of` [CConnect path; CConstruct] ++ (CMakeThread <$> seq 0 n) ∨ ∃ first, log = protocol path first n)).
Proof.
  intros Hn Hs Hr H. unfold actor_connect in H. rewrite !calls_bind_eq in H. cbn [call fst snd] in H.
  destruct (unix_connect path) as [e|] eqn:Eu; cbn [unless] in H.
  { injection H as <- <-. split; [done|]. split; [done|]. intros _. split.
    - intros ts cl [_ _ ? _ _ _]. congruence.
    - left. by eexists. }
  destruct init_construct as [e|e|e|map] eqn:Ei; cbn [answered] in H.
  1-3: injection H as <- <-; split; [done|]; split; [done|]; intros _; split;
       [intros ts cl [_ _ _ (m & ? & _) _ _]; congruence|left; by eexists].
  destruct (make_threads map 0 n [] ([] ++ [CConnect path] ++ [CConstruct])) as [log1 r1] eqn:Em.
  change (([] ++ [CConnect path]) ++ [CConstruct]) with ([] ++ [CConnect path] ++ [CConstruct]) in H.
  rewrite calls_bind_eq, Em in H. cbn [fst snd] in H.
  pose proof (make_threads_spec _ _ _ _ _ _ _ Em) as (Hp & Hok & Herr).
  destruct r1 as [ts|e|p]; [|injection H as <- <-|by destruct (Hp p)].
  2:{ split; [done|]. split; [done|]. intros _. destruct (Herr eq_refl) as (k & Hk & -> & Hno). split.
    - intros ts cl [_ _ _ (m & Hm & Hl & Hts) _ _]. rewrite Ei in Hm. injection Hm as <-. apply Hno.
      destruct (lookup_lt_is_Some_2 ts k) as [t Ht]; [lia|]. exists t. by apply Hts.
    - left. exists (CMakeThread <$> seq (S k) (n - S k)). rewrite <- app_assoc, <- fmap_app. f_equal. f_equal.
      rewrite <- seq_app. f_equal. lia. }
  destruct (Hok ts eq_refl) as (new & -> & Hl & Hnew & ->). cbn [app] in *. clear Hok Herr Hp.
  set (log1 := [CConnect path; CConstruct] ++ (CMakeThread <$> seq 0 n)) in *.
  rewrite calls_bind_eq in H. cbn [pure fst snd] in H.
  destruct make_chain_context as [e|] eqn:Ec; cbn [unless] in H.
  { injection H as <- <-. split; [done|]. split; [done|]. intros _. split; [|by left].
    intros ts cl [_ _ _ _ ? _]. congruence. }
  destruct (lookup_lt_is_Some_2 new 0%nat) as [first Hf]; [lia|].
  rewrite !calls_bind_eq in H. unfold index, expect in H. rewrite Hf in H. cbn [pure call fst snd] in H.
  rewrite calls_bind_eq in H. cbn [call fst snd] in H.
  assert (Hlog : log1 ++ [CMakeChain first] = protocol path first n) by (unfold log1, protocol; by rewrite <- app_assoc).
  destruct (make_chain first) as [e|e|e|client] eqn:Ek; cbn [answered] in H.
  1-3: injection H as <- <-; split; [done|]; split; [done|]; intros _; split; [|right; by exists first];
       intros ts cl [_ _ _ (m & Hm & Hlt & Hts) _ (t & Ht & Hc)]; rewrite Ei in Hm; injection Hm as <-;
       pose proof (Hts _ _ Ht) as E1; pose proof (Hnew _ _ Hf) as E2; cbn in E2; congruence.
  injection H as <- <-. split; [done|]. split; [|done]. intros a [= <-]. split; [done|]. split; [|by exists first].
  constructor; [done..|exists map; split_and!; [done|done|exact Hnew]|done|by exists first].
Qed.

Lemma accepts_unique path n ts ts' c c' : accepts path n ts c → accepts path n ts' c' → ts = ts' ∧ c = c'.
Proof.
  intros [_ _ _ (m & Hm & Hl & Hts) _ (t & Ht & Hc)] [_ _ _ (m' & Hm' & Hl' & Hts') _ (t' & Ht' & Hc')].
  assert (m = m') as <- by congruence.
  assert (Hn : ∀ i t, ts !! i = Some t → ts' !! i = Some t).
  { intros i u Hi. pose proof (Hts i u Hi) as E. apply lookup_lt_Some in Hi.
    destruct (lookup_lt_is_Some_2 ts' i) as [u' Hu']; [lia|]. pose proof (Hts' _ _ Hu'). congruence. }
  assert (ts = ts') as <-.
  { apply list_eq_same_length with (length ts); [lia|done|]. intros i u u' Hi Hu Hu'. apply Hn in Hu. congruence. }
  split; [done|]. congruence.
Qed.

(** ** Property *)

(** For a socket path and any number of threads: connecting never panics; it
    succeeds exactly when the node accepts every step, and then holds the chain client
    and the threads the node made, at least one and as many as asked, the first one next,
    after exactly the calls of the protocol; otherwise it answers an error after the calls
    up to the first that failed. *)
Theorem ipc_connects (path : bytes) (count : nat) :
  let n := Nat.max count 1 in let '(log, r) := connect_with_threads path count [] in
  no_panic r ∧
  (∀ ts client, (∃ h, r = Ok h ∧ threads (actor h) = ts ∧ chain (actor h) = client) ↔ accepts path n ts client) ∧
  (∀ h, r = Ok h → socket_path h = path ∧ next (actor h) = 0%nat ∧ length (threads (actor h)) = n ∧
     ∃ first, threads (actor h) !! 0%nat = Some first ∧ log = protocol path first n) ∧
  (is_ok r = false → log `prefix_of` [CConnect path; CConstruct] ++ (CMakeThread <$> seq 0 n) ∨ ∃ first, log = protocol path first n).
Proof.
  intros n. unfold connect_with_threads. cbv zeta. rewrite !calls_bind_eq. cbn [pure fst snd].
  destruct spawn_thread as [e|] eqn:Es; cbn [unless id].
  { split; [done|]. split; [|split; [done|intros _; left; by eexists]].
    intros ts c. split; [intros (h & ? & _); done|intros [? _ _ _ _ _]; congruence]. }
  unfold actor_thread, thread_pool. fold n.
  destruct build_runtime as [e|] eqn:Er; cbn [pure fst snd].
  { split; [done|]. split; [|split; [done|intros _; left; by eexists]].
    intros ts c. split; [intros (h & ? & _); done|intros [_ ? _ _ _ _]; congruence]. }
  destruct (actor_connect path n []) as [log r] eqn:E.
  pose proof (actor_connect_spec path n log r ltac:(lia) Es Er E) as (Hp & Hok & Herr).
  destruct r as [a|e|p]; [| |by destruct (Hp p)]; cbn [pure fst snd].
  - destruct (Hok a eq_refl) as (Hnext & Hacc & Hfirst). split; [done|]. split; [|split; [|done]].
    + intros ts c. split; [by intros (h & [= <-] & <- & <-)|]. intros Ha.
      destruct (accepts_unique _ _ _ _ _ _ Hacc Ha) as [<- <-]. eexists. split; [done|]. done.
    + intros h [= <-]. cbn [actor socket_path]. split_and!; [done|done| |done]. by destruct Hacc as [_ _ _ (m & _ & ? & _) _ _].
  - destruct (Herr eq_refl) as [Hno Hlog]. split; [done|]. split; [|split; [done|done]].
    intros ts c. split; [by intros (h & ? & _)|]. intros Ha. by destruct (Hno ts c).
Qed.
End connect.

(** A node that accepts: its threads are numbers. *)
Definition quiet_client : ChainClient := {|
  chain_get_height := λ _, Ok (true, 7); chain_get_block_hash := λ _ _, Ok (replicate 32 1);
  chain_find_block := λ _ _, Err "no block"; chain_find_first := λ _ _ _, Err "no block";
  chain_wait_if_tip_changed := λ _ _, Ok tt; chain_wait := λ _, Ok tt |}.
Definition toy_init : NodeInit := {|
  ThreadMap := unit; Thread := nat; unix_connect := λ _, None; init_construct := Answer tt; make_thread := λ _ i, Answer (10 + i)%nat;
  make_chain_context := None; make_chain := λ _, Answer quiet_client; build_runtime := None; spawn_thread := None |}.
#[local] Existing Instance toy_init.

Example toy_connection : ((connect (Some (ascii_bytes "3")) (ascii_bytes "s") []).1,
    (λ h, (threads (actor h), channel_capacity h)) <$> (connect None (ascii_bytes "s") []).2) =
  ([CConnect (ascii_bytes "s"); CConstruct; CMakeThread 0; CMakeThread 1; CMakeThread 2; CMakeChain 10%nat],
   Ok ([10; 11; 12; 13; 14; 15; 16; 17]%nat, 128)).
Proof. vm_compute. reflexivity. Qed.
