(* ===== verification/MultiServes.v ===== *)
(** * Sources that tell the truth, and several of them behind one

    The contract of [Node] weakened twice: a source may or may not know the spent
    outputs, and it may fail, as long as what it answers is the chain.  A
    [MultiSource] over such sources is itself a source; the theorem says when it
    answers every request. *)

From S2P Require Import Prelude Decimal UndoPayload Sources Tasks JsonWire Node MultiSource.

(** ** Requests

    The calls of the trait, by the type of their answer. *)
Inductive Request : Type → Type :=
| RHash (height : Z) : Request bytes
| RRaw (hash : bytes) : Request bytes
| RUndo (hash : bytes) : Request (option BlockSpentTxOuts)
| RUndos (hashes : list bytes) : Request (list (option BlockSpentTxOuts))
| RBest : Request Z
| RByHeight (height : Z) : Request RawBlockFrame
| RRange (start_height : Z) (count : nat) : Request (list RawBlockFrame).
Definition ask (src : BlockSource) {A} (r : Request A) : res A :=
  match r with
  | RHash h => get_block_hash src h
  | RRaw hash => get_block_raw src hash
  | RUndo hash => get_block_spent_txouts src hash
  | RUndos hashes => get_blocks_spent_txouts src hashes
  | RBest => get_best_height src
  | RByHeight h => get_block_by_height src h
  | RRange s n => get_block_range_by_height src s n
  end.

Section truth.
Context (chain : Z → NodeBlock) (tip : Z).

Definition in_chain (h : Z) : Prop := 0 ≤ h ≤ tip.
Definition undo_of (h : Z) (u : option BlockSpentTxOuts) : Prop := u = None ∨ u = Some (nb_undo (chain h)).
Record frame_of (h : Z) (f : RawBlockFrame) : Prop := {
  fo_height : rf_height f = h;
  fo_hash : rf_hash f = nb_hash (chain h);
  fo_bytes : rf_bytes f = nb_bytes (chain h);
  fo_undo : undo_of h (rf_spent_txouts f)
}.

(** The requests about blocks of the chain, and their right answers. *)
Definition about_chain {A} (r : Request A) : Prop :=
  match r with
  | RHash h | RByHeight h => in_chain h
  | RRaw hash | RUndo hash => ∃ h, in_chain h ∧ hash = nb_hash (chain h)
  | RUndos hashes => hashes ≠ [] ∧ ∃ hs, Forall in_chain hs ∧ hashes = (λ h, nb_hash (chain h)) <$> hs
  | RBest => True
  | RRange s n => 0 ≤ s ∧ (0 < n)%nat ∧ s + Z.of_nat n ≤ tip + 1
  end.
Definition right {A} (r : Request A) : A → Prop :=
  match r with
  | RHash h => λ a, a = nb_hash (chain h)
  | RRaw hash => λ a, ∀ h, in_chain h → hash = nb_hash (chain h) → a = nb_bytes (chain h)
  | RUndo hash => λ a, ∀ h, in_chain h → hash = nb_hash (chain h) → undo_of h a
  | RUndos hashes => λ a, ∀ hs, Forall in_chain hs → hashes = (λ h, nb_hash (chain h)) <$> hs → Forall2 undo_of hs a
  | RBest => λ a, a = tip
  | RByHeight h => frame_of h
  | RRange s n => Forall2 frame_of (seqZ s (Z.of_nat n))
  end.

(** Never wrong; and never failing. *)
Definition truthful (src : BlockSource) : Prop :=
  ∀ A (r : Request A), about_chain r → match ask src r with Ok a => right r a | Err _ => True | Panic _ => False end.
Definition tells (src : BlockSource) : Prop :=
  ∀ A (r : Request A), about_chain r → ∃ a, ask src r = Ok a ∧ right r a.

Lemma tells_truthful src : tells src → truthful src.
Proof. intros Hs A r Hr. by destruct (Hs A r Hr) as (a & -> & Ha). Qed.

Lemma frame_at_of undo h : frame_of h (frame_at chain undo h).
Proof. split; try done. unfold undo_of. cbn. destruct undo; auto. Qed.
Lemma undo_known undo h : undo_of h (if undo : bool then Some (nb_undo (chain h)) else None).
Proof. unfold undo_of. destruct undo; auto. Qed.

(** A source that keeps the contract of [Node] tells the chain. *)
Lemma serves_tells undo src : serves_chain chain tip undo src → tells src.
Proof.
  intros [H1 H2 H3 H4 H5 H6 H7 _] A r. destruct r as [h|hash|hash|hashes| |h|s n]; cbn [about_chain ask right].
  - intros Hh. rewrite H1 by done. by eexists.
  - intros (h & Hh & ->). exists (nb_bytes (chain h)). split; [by apply H2|]. intros h' Hh' E. specialize (H2 h Hh) as E1. rewrite E, H2 in E1 by done. by injection E1.
  - intros (h & Hh & ->). eexists. split; [by apply H6|]. intros h' Hh' E. specialize (H6 h Hh) as E1. rewrite E, H6 in E1 by done.
    injection E1 as <-. apply undo_known.
  - intros (Hne & hs & Hhs & ->). eexists. split; [apply H7; [by intros ->|done]|]. intros hs' Hhs' E.
    assert (Hne' : hs' ≠ []) by (intros ->; by apply Hne). specialize (H7 hs ltac:(by intros ->) Hhs) as E1. rewrite E, H7 in E1 by done.
    injection E1 as <-. rewrite Forall2_fmap_r. apply Forall_Forall2_diag, Forall_forall. intros h _. apply undo_known.
  - intros _. by eexists.
  - intros Hh. eexists. split; [by apply H4|]. apply frame_at_of.
  - intros (Hs & Hn & Hle). eexists. split; [by apply H5|]. rewrite Forall2_fmap_r. apply Forall_Forall2_diag, Forall_forall. intros h _. apply frame_at_of.
Qed.

(** ** Several sources behind one *)

(** The trait of a [MultiSource]: [at_call] is the cursor a call finds and the picks of
    the calls in flight with it. *)
Definition multi_source (srcs : list BlockSource) (at_call : ∀ A, Request A → Z * list Z) : BlockSource :=
  let self {A} (r : Request A) := {| sources := srcs; cursor := (at_call A r).1 |} in
  let others {A} (r : Request A) := (at_call A r).2 in {|
  get_block_hash h := (multi_get_block_hash (others (RHash h)) (self (RHash h)) h).2;
  get_block_raw hash := (multi_get_block_raw (others (RRaw hash)) (self (RRaw hash)) hash).2;
  get_block_spent_txouts hash := (multi_get_block_spent_txouts (others (RUndo hash)) (self (RUndo hash)) hash).2;
  get_blocks_spent_txouts hs := (multi_get_blocks_spent_txouts (others (RUndos hs)) (self (RUndos hs)) hs).2;
  get_best_height := (multi_get_best_height (others RBest) (self RBest)).2;
  get_block_by_height h := (multi_get_block_by_height (others (RByHeight h)) (self (RByHeight h)) h).2;
  get_block_range_by_height s n := (multi_get_block_range_by_height (others (RRange s n)) (self (RRange s n)) s n).2;
  supports_block_range_batches := multi_supports_block_range_batches {| sources := srcs; cursor := 0 |};
  supports_block_spent_txouts := multi_supports_block_spent_txouts {| sources := srcs; cursor := 0 |};
  prefers_height_fetch := multi_prefers_height_fetch {| sources := srcs; cursor := 0 |};
  source_name := ascii_bytes "multi" |}.

Lemma ask_multi srcs at_call {A} (r : Request A) :
  ask (multi_source srcs at_call) r =
  (multi_call (λ src, ask src r) (at_call A r).2 {| sources := srcs; cursor := (at_call A r).1 |}).2.
Proof. by destruct r. Qed.

(** A source all of whose picks answer answers; so does a call that runs alone when one
    source answers. *)
Definition reachable_answer {A} (srcs : list BlockSource) (at_call : ∀ A, Request A → Z * list Z) (r : Request A) : Prop :=
  Forall (λ src, is_ok (ask src r) = true) srcs ∨
  Exists (λ src, is_ok (ask src r) = true) srcs ∧ (at_call A r).2 = [] ∧ 0 ≤ (at_call A r).1 ∧ (at_call A r).1 + len srcs < 2 ^ 64.

(** C23: a [MultiSource] over sources that never answer wrongly is itself a source of the
    chain: it answers every request about it, and rightly, when for each request either
    every source answers (whatever the picks of the other calls in flight), or some
    source answers and the call runs alone. *)
Theorem multi_source_tells (srcs : list BlockSource) (at_call : ∀ A, Request A → Z * list Z) :
  Forall truthful srcs → srcs ≠ [] →
  (∀ A (r : Request A), about_chain r → reachable_answer srcs at_call r) →
  tells (multi_source srcs at_call).
Proof.
  intros Ht Hne Hr A r Ha. rewrite ask_multi. rewrite Forall_forall in Ht.
  set (call := λ src, ask src r). set (self := {| sources := srcs; cursor := (at_call A r).1 |}).
  assert (Hright : ∀ src a, src ∈ srcs → call src = Ok a → right r a).
  { intros src a Hs E. specialize (Ht src Hs A r Ha). unfold call in E. by rewrite E in Ht. }
  assert (Hnp : ∀ src, src ∈ srcs → no_panic (call src)).
  { intros src Hs m E. specialize (Ht src Hs A r Ha). unfold call in E. by rewrite E in Ht. }
  destruct (Hr A r Ha) as [Hall|(Hex & Ho & Hc & Hw)].
  - rewrite Forall_forall in Hall. pose proof (multi_answered call (at_call A r).2 self Hne) as H.
    revert H. destruct (multi_call call (at_call A r).2 self).2 as [a|e|p]; intros (src & Hs & E); cbn [sources self] in Hs.
    + exists a. split; [done|]. by eapply Hright.
    + specialize (Hall src Hs). unfold call in E. by rewrite E in Hall.
    + by destruct (Hnp src Hs p).
  - rewrite Ho. pose proof (multi_alone call self Hne Hc Hw Hnp) as H.
    destruct (multi_call call [] self).2 as [a|e|p]; cbn [sources self] in H; [|exfalso|done].
    + destruct H as (src & Hs & E). exists a. split; [done|]. by eapply Hright.
    + rewrite Exists_exists in Hex. destruct Hex as (src & Hs & Hok). destruct (H src Hs) as [e' E]. unfold call in E. by rewrite E in Hok.
Qed.

(** Sources that all tell the chain: whatever the cursor and the other calls. *)
Lemma multi_all_tell srcs at_call : Forall tells srcs → srcs ≠ [] → tells (multi_source srcs at_call).
Proof.
  intros Ht Hne A r Ha. rewrite ask_multi. rewrite Forall_forall in Ht.
  pose proof (multi_answered (λ src, ask src r) (at_call A r).2 {| sources := srcs; cursor := (at_call A r).1 |} Hne) as H.
  revert H. destruct (multi_call _ _ _).2 as [a|e|p]; intros (src & Hs & E); cbn [sources] in Hs; destruct (Ht src Hs A r Ha) as (a' & E' & Ha');
    rewrite E in E'; [|done..]. injection E' as <-. by exists a.
Qed.
End truth.
