(* ===== verification/SourceBuild.v ===== *)
(** * From the command line to a source

    Model of [build_source], which [stats/src/bin/main.rs] and [cli/src/main.rs] share:
    one source per URL or socket, several behind a [MultiSource].  What the sources talk
    to is the class [Backends]: a connection to a URL or a socket is a parameter.  The
    minimal gap between requests to an Esplora server delays answers and does not change
    them ([EsploraThrottle]). *)

From S2P Require Import Prelude Decimal UndoPayload Sources Tasks JsonWire Text Node MultiSource MultiServes RestSource RpcSource RpcAuth EsploraSource IpcSource.

(** The rest of the world: HTTP, JSON-RPC by URL and credentials, IPC by socket path and
    number of worker threads. *)
Class Backends := {
  bk_http :: HttpClient;
  bk_chain_info :: ChainInfoJson;
  bk_esplora :: EsploraServer;
  bk_rpc : bytes → bytes * bytes → RpcTransport;
  bk_ipc : bytes → nat → res ChainClient
}.

Record SourceArgs := {
  rpc_urls : list bytes; rpc_user : bytes; rpc_pass : bytes; rpc_cookie_file : option bytes;
  esplora_urls : list bytes; rest_urls : list bytes; ipc_paths : list bytes; ipc_threads : nat
}.

(** What other calls do to the state the sources share while they work: the draws from
    the request counter, the worker thread an IPC request gets, the cursor. *)
Record Interleaving := {
  il_next_id : Z; il_others : list Z; il_others' : list Z;
  il_thread : bytes → nat;
  il_at_call A : Request A → Z * list Z
}.

Section build.
Context `{HX : Hex, HD : !HexDecode, SC : !Scheduler, BK : !Backends}.
Context (env : Env) (ipc_feature : bool) (il : Interleaving).

(** [RpcSource::new_auto_auth]. *)
Definition rpc_new_auto_auth (url user pass : bytes) (cookie_file : option bytes) : res BlockSource :=
  auth ← resolve_auth env url user pass cookie_file;
  Ok (rpc_source (RT := bk_rpc url auth) (il_next_id il) (il_others il) (il_others' il) url).

(** [IpcSource::connect_with_threads]. *)
Definition ipc_connect_with_threads (path : bytes) (thread_count : nat) : res BlockSource :=
  client ← bk_ipc path (thread_pool thread_count);
  Ok (ipc_source (CC := client) true (il_thread il path) (ascii_bytes "ipc:" ++ path)).

Definition build_source (args : SourceArgs) : res BlockSource :=
  rpcs ← map_res (λ url, rpc_new_auto_auth url (rpc_user args) (rpc_pass args) (rpc_cookie_file args)) (rpc_urls args);
  let esploras := (λ base, esplora_source {| esplora_base := base |}) <$> esplora_urls args in
  let rests := (λ base, rest_source (rest_new base)) <$> rest_urls args in
  ipcs ← (if ipc_feature then map_res (λ path, ipc_connect_with_threads path (ipc_threads args)) (ipc_paths args)
          else if bool_decide (ipc_paths args ≠ []) then Err "--ipc requires building with --features ipc" else Ok []);
  let srcs := rpcs ++ esploras ++ rests ++ ipcs in
  match srcs with
  | [] => Err "supply at least one --rpc-url, --rest-url, --esplora, or --ipc source"
  | [src] => Ok src
  | _ => multi ← multi_new srcs; Ok (multi_source (sources multi) (il_at_call il))
  end.

(** ** Over honest nodes *)
Context (chain : Z → NodeBlock) (tip : Z) (args : SourceArgs).

(** Every URL and every socket leads to a node with the same chain; the draws of other
    calls stay below half the range of the counter; requests run on existing threads. *)
Record honest_backends : Prop := {
  hb_rpc url : url ∈ rpc_urls args → ∃ auth,
    resolve_auth env url (rpc_user args) (rpc_pass args) (rpc_cookie_file args) = Ok auth ∧ rpc_node (RT := bk_rpc url auth) chain tip;
  hb_esplora base : base ∈ esplora_urls args → esplora_node chain tip {| esplora_base := base |};
  hb_rest base : base ∈ rest_urls args → rest_node chain tip (rest_new base);
  hb_ipc path : path ∈ ipc_paths args → ipc_feature = true ∧ ∃ client,
    bk_ipc path (thread_pool (ipc_threads args)) = Ok client ∧ ipc_node (CC := client) chain tip (thread_pool (ipc_threads args));
  hb_some : rpc_urls args ++ esplora_urls args ++ rest_urls args ++ ipc_paths args ≠ [];
  hb_draws : Forall (Z.le 0) (il_others il) ∧ Forall (Z.le 0) (il_others' il) ∧
    sum_list_Z (il_others il) < 2 ^ 63 ∧ sum_list_Z (il_others' il) < 2 ^ 63;
  hb_thread path : path ∈ ipc_paths args → (il_thread il path < thread_pool (ipc_threads args))%nat
}.

(** A list of sources, each of which connects and tells the chain. *)
Lemma connect_all {A} (connect : A → res BlockSource) l :
  (∀ x, x ∈ l → ∃ src, connect x = Ok src ∧ tells chain tip src) →
  ∃ srcs, map_res connect l = Ok srcs ∧ length srcs = length l ∧ Forall (tells chain tip) srcs.
Proof.
  induction l as [|x l IH]; intros H; [by exists []|]. destruct (H x ltac:(left)) as (src & E & Hs).
  destruct IH as (srcs & El & Hl & Hf); [intros; apply H; by right|]. exists (src :: srcs). cbn [map_res]. rewrite E, El. rsimpl.
  split_and!; [done|by cbn; f_equal|by constructor].
Qed.

Lemma pick_source srcs : srcs ≠ [] → Forall (tells chain tip) srcs →
  ∃ source, match srcs with
            | [] => Err "supply at least one --rpc-url, --rest-url, --esplora, or --ipc source"
            | [src] => Ok src
            | _ => multi ← multi_new srcs; Ok (multi_source (sources multi) (il_at_call il))
            end = Ok source ∧ tells chain tip source.
Proof.
  intros Hne Hf. destruct srcs as [|s1 [|s2 srcs]]; [done|apply Forall_cons in Hf as [Hf _]; by exists s1|].
  eexists. split; [reflexivity|]. cbn [sources]. by apply multi_all_tell.
Qed.

Context (wf : node_wf chain tip) (honest : honest_backends).

Lemma rpcs_tell : ∃ srcs, map_res (λ url, rpc_new_auto_auth url (rpc_user args) (rpc_pass args) (rpc_cookie_file args)) (rpc_urls args) = Ok srcs ∧
  length srcs = length (rpc_urls args) ∧ Forall (tells chain tip) srcs.
Proof.
  apply connect_all. intros url Hu. destruct (hb_rpc honest url Hu) as (auth & E & Hn). unfold rpc_new_auto_auth. rewrite E. rsimpl.
  eexists. split; [reflexivity|]. destruct (hb_draws honest) as (? & ? & ? & ?). eapply serves_tells, rpc_serves; done.
Qed.
Lemma ipcs_tell : ∃ srcs, (if ipc_feature then map_res (λ path, ipc_connect_with_threads path (ipc_threads args)) (ipc_paths args)
    else if bool_decide (ipc_paths args ≠ []) then Err "--ipc requires building with --features ipc" else Ok []) = Ok srcs ∧
  length srcs = length (ipc_paths args) ∧ Forall (tells chain tip) srcs.
Proof.
  destruct (decide (ipc_paths args = [])) as [E|E].
  { rewrite E. exists []. rewrite bool_decide_false by (by intros []). by destruct ipc_feature. }
  assert (ipc_feature = true) as Hf.
  { destruct (ipc_paths args) as [|path paths] eqn:Ep; [done|]. apply (hb_ipc honest path). rewrite Ep. by left. }
  rewrite Hf. apply connect_all. intros path Hp. destruct (hb_ipc honest path Hp) as (_ & client & Ec & Hn).
  unfold ipc_connect_with_threads. rewrite Ec. rsimpl. eexists. split; [reflexivity|].
  eapply serves_tells, ipc_serves; [done|exact Hn|by apply (hb_thread honest)].
Qed.

(** The source built from the command line over honest nodes tells their chain: any
    mix of JSON-RPC, Esplora, REST and IPC nodes, alone or behind a [MultiSource],
    answers every request about the chain, and rightly, whatever ids, threads and cursor
    positions other calls leave to it and in whatever order requests complete. *)
Lemma build_source_tells : ∃ source, build_source args = Ok source ∧ tells chain tip source.
Proof.
  destruct rpcs_tell as (rpcs & Er & Lr & Fr). destruct ipcs_tell as (ipcs & Ei & Li & Fi).
  unfold build_source. rewrite Er. rsimpl. rewrite Ei. rsimpl. apply pick_source.
  - intros E%(f_equal length). pose proof (hb_some honest) as Hne. apply Hne. apply length_zero_iff_nil.
    rewrite !length_app, !length_fmap, Lr, Li in E. rewrite !length_app. exact E.
  - rewrite !Forall_app. split_and!; [done| | |done]; rewrite Forall_fmap; apply Forall_forall; intros base Hb; eapply serves_tells.
    + by apply esplora_serves, (hb_esplora honest).
    + by apply rest_serves, (hb_rest honest).
Qed.
End build.
