(* ===== verification/ToyNode.v ===== *)
(** * A concrete node

    The inputs of the witnesses about the sources: a node whose best chain starts with
    the two blocks of [LightIndexerToy] and goes on with six that are never decoded,
    behind each of the four interfaces.  Its HTTP pages are a table; the batch replies
    come in reverse order; the Esplora server refuses every first attempt. *)

From S2P Require Import Prelude Bits Decimal Helper TaggedHash UndoPayload ScriptClassify P2trIndexer SpTweak Sources Tasks JsonWire UtxoHash LightIndexer LightIndexerToy Text Node MultiSource MultiServes RestSource RpcSource RpcAuth EsploraSource IpcSource SourceBuild StatsScanRuns.
#[export] Existing Instance real_hex | 0.

(** ** The hex crate *)
Lemma digit_read n : 0 ≤ n < 16 → is_ascii_hexdigit (hex_digit n) = true ∧ hex_value (hex_digit n) = n.
Proof.
  intros Hn. rewrite hexdigit_range. unfold hex_digit, hex_value. repeat case_bool_decide; lia.
Qed.
Lemma byte_digits b : is_byte b → 0 ≤ b / 16 < 16 ∧ 0 ≤ b mod 16 < 16 ∧ 16 * (b / 16) + b mod 16 = b.
Proof. unfold is_byte. lia. Qed.
Lemma hex_bytes_cons x b : hex_bytes (x :: b) = hex_digit (x / 16) :: hex_digit (x mod 16) :: hex_bytes b.
Proof. done. Qed.
#[local] Obligation Tactic := idtac.
#[export] Program Instance real_hex_decode : HexDecode := {| hex_decode := hex_read |}.
Next Obligation.
  intros b Hb. cbn [hex_encode real_hex]. induction Hb as [|x b Hx Hb IH]; [constructor|]. rewrite hex_bytes_cons.
  destruct (byte_digits x Hx) as (H1 & H2 & _). constructor; [by apply digit_read|]. constructor; [by apply digit_read|]. exact IH.
Qed.
Next Obligation.
  intros b. cbn [hex_encode real_hex]. induction b as [|x b IH]; [done|]. rewrite hex_bytes_cons. cbn [length]. rewrite IH. lia.
Qed.
Next Obligation.
  intros b Hb. cbn [hex_encode real_hex]. induction Hb as [|x b Hx Hb IH]; [done|]. rewrite hex_bytes_cons. cbn [hex_read].
  destruct (byte_digits x Hx) as (H1 & H2 & H3). destruct (digit_read _ H1) as [-> ->], (digit_read _ H2) as [-> ->]. cbn [andb].
  rewrite IH. cbn [fmap res_fmap]. by rewrite H3.
Qed.
Next Obligation. apply hex_read_length. Qed.
Next Obligation. apply hex_read_digits. Qed.
Next Obligation. apply hex_read_no_panic. Qed.

(** ** The chain *)
Definition toy_node (h : Z) : NodeBlock :=
  if bool_decide (h < 2) then
    {| nb_hash := default [] (toy_hashes !! Z.to_nat h); nb_bytes := [h]; nb_undo := default {| undo_txs := [] |} (toy_undo !! Z.to_nat h) |}
  else {| nb_hash := replicate 32 12; nb_bytes := [2]; nb_undo := {| undo_txs := [[]] |} |}.
Definition toy_tip : Z := 7.
Lemma toy_heights h : 0 ≤ h ≤ toy_tip → h ∈ seqZ 0 8.
Proof. unfold toy_tip. rewrite elem_of_seqZ. lia. Qed.

(** A decidable fact about every height of the chain. *)
Lemma toy_forall (P : Z → Prop) `{!∀ h, Decision (P h)} : bool_decide (Forall P (seqZ 0 8)) = true → ∀ h, 0 ≤ h ≤ toy_tip → P h.
Proof. intros HP%bool_decide_eq_true h Hh%toy_heights. rewrite Forall_forall in HP. by apply HP. Qed.

Ltac each_height :=
  match goal with |- ∀ h, _ ≤ h ≤ _ → @?P h => apply (toy_forall P); vm_compute; reflexivity end.

Lemma toy_node_wf : node_wf toy_node toy_tip.
Proof.
  split; [done|]. apply (toy_forall (λ h, bytes_wf (nb_hash (toy_node h)) ∧ length (nb_hash (toy_node h)) = 32%nat)).
  vm_compute. reflexivity.
Qed.

(** ** HTTP: a table of pages *)
Definition toy_base : bytes := ascii_bytes "http://node".
Definition toy_rest : RestSource := rest_new (toy_base ++ ascii_bytes "/").
Definition rest_pages : list (bytes * bytes) :=
  (ascii_bytes "/rest/chaininfo.json", to_decimal toy_tip) ::
  (seqZ 0 8 ≫= λ h, let b := toy_node h in
    [(block_hash_path h, to_hex_display (nb_hash b) ++ [10]); (raw_path (nb_hash b), nb_bytes b); (undo_path (nb_hash b), hex_encode (payload_bytes (nb_undo b)) ++ [10])]).
Definition esplora_pages : list (bytes * bytes) :=
  (ascii_bytes "/blocks/tip/height", to_decimal toy_tip) ::
  (seqZ 0 8 ≫= λ h, let b := toy_node h in
    [(ascii_bytes "/block-height/" ++ to_decimal h, to_hex_display (nb_hash b));
     (ascii_bytes "/block/" ++ to_hex_display (nb_hash b) ++ ascii_bytes "/raw", nb_bytes b)]).
Definition page (pages : list (bytes * bytes)) (url : bytes) : res HttpResponse :=
  match List.find (λ p, bool_decide (toy_base ++ p.1 = url)) pages with
  | Some (_, body) => Ok {| resp_status := 200; resp_retry_after := None; resp_body := Ok body |}
  | None => Ok {| resp_status := 404; resp_retry_after := None; resp_body := Ok [] |}
  end.
#[export] Instance toy_http : HttpClient := {| http_get := page rest_pages; text_of s := s; text_ascii s _ := eq_refl |}.
#[export] Instance toy_chain_info : ChainInfoJson := {| parse_chain_info s := ok_or (parse_u64 s) "expected value" |}.

(** A page of the table, as a boolean. *)
Definition serves_page (r : res HttpResponse) (body : bytes) : Prop :=
  r = Ok {| resp_status := 200; resp_retry_after := None; resp_body := Ok body |}.
#[export] Instance res_eq_dec {A} `{!EqDecision A} : EqDecision (res A).
Proof. solve_decision. Defined.
#[export] Instance response_eq_dec : EqDecision HttpResponse.
Proof. solve_decision. Defined.
#[export] Instance serves_page_dec r body : Decision (serves_page r body).
Proof. unfold serves_page. apply _. Defined.

Lemma toy_rest_node : rest_node toy_node toy_tip toy_rest.
Proof.
  assert (Ha : ∀ path body, serves_page (http_get (url toy_rest path)) body → answers toy_rest path body) 
    by (intros path body E; eexists; by split_and!; [exact E| |]).
  split.
  - intros h Hh. apply Ha. revert h Hh. each_height.
  - intros h Hh. apply Ha. revert h Hh. each_height.
  - intros h Hh. split.
    + assert (Hu : payload_wf (nb_undo (toy_node h)) ∧ bytes_wf (payload_bytes (nb_undo (toy_node h))) ∧ head (undo_txs (nb_undo (toy_node h))) = Some []); [|by destruct Hu as (? & ? & ?); split].
      revert h Hh. unfold payload_wf; each_height.
    + exists (hex_encode (payload_bytes (nb_undo (toy_node h))) ++ [10]). split; [|by right]. apply Ha. revert h Hh. each_height.
  - exists (to_decimal toy_tip). split; [apply Ha; vm_compute; reflexivity|vm_compute; reflexivity].
Qed.

(** ** JSON-RPC *)
Definition toy_value (p : RpcParams) : RpcValue :=
  match p with
  | PEmpty => VNumber toy_tip
  | PHeight h => VString (to_hex_display (nb_hash (toy_node h)))
  | PBlock hash_hex _ => VString (hex_encode (nb_bytes (toy_node
      (default 0 (List.find (λ h, bool_decide (to_hex_display (nb_hash (toy_node h)) = hash_hex)) (seqZ 0 8))))))
  end.
Definition toy_transport : RpcTransport := {|
  rpc_post req := Ok (good_reply req (toy_value (rq_params req)));
  rpc_post_batch reqs := Ok (reverse ((λ req, good_reply req (toy_value (rq_params req))) <$> reqs)) |}.
#[local] Instance value_eq_dec : EqDecision RpcValue.
Proof. solve_decision. Defined.
Lemma toy_value_right m p v : node_value toy_node toy_tip m p v → toy_value p = v.
Proof.
  intros [h Hh|h Hh|]; [done| |done]. revert h Hh.
  each_height.
Qed.
Lemma toy_rpc_node : rpc_node (RT := toy_transport) toy_node toy_tip.
Proof.
  split.
  - intros id m p v Hv. cbn. unfold good_reply. cbn. by rewrite (toy_value_right _ _ _ Hv).
  - intros reqs vs _ _ Hvs. eexists. split; [reflexivity|]. rewrite reverse_Permutation.
    assert ((λ req, good_reply req (toy_value (rq_params req))) <$> reqs = zip_with good_reply reqs vs) as ->; [|done].
    induction Hvs as [|req v reqs vs (m & _ & Hv) _ IH]; [done|]. cbn. rewrite (toy_value_right _ _ _ Hv). f_equal. exact IH.
  - each_height.
Qed.

(** ** Esplora: one refusal, then the page *)
#[export] Instance toy_esplora : EsploraServer := {|
  http_attempt url attempt :=
    if bool_decide (attempt = 0%nat) then Ok {| resp_status := 429; resp_retry_after := Some (ascii_bytes "1"); resp_body := Ok [] |}
    else page esplora_pages url |}.
Lemma toy_esplora_node : esplora_node toy_node toy_tip {| esplora_base := toy_base |}.
Proof.
  assert (Ha : ∀ path body, serves_page (http_attempt (toy_base ++ path) 1) body → answers_in_time {| esplora_base := toy_base |} path body).
  { intros path body E. exists 1%nat, {| resp_status := 200; resp_retry_after := None; resp_body := Ok body |}. split; [lia|].
    split; [|by split_and!; [exact E| |]]. intros i Hi. assert (i = 0%nat) as -> by lia. cbn. split; [by intros [_ ?]|by left]. }
  split.
  - intros h Hh. apply Ha. revert h Hh. each_height.
  - intros h Hh. apply Ha. revert h Hh. each_height.
  - apply Ha. vm_compute. reflexivity.
Qed.

(** ** IPC *)
Definition found_at (h : Z) : FoundBlock :=
  {| fb_found := true; fb_height := h; fb_hash := Ok (nb_hash (toy_node h)); fb_data := Ok (nb_bytes (toy_node h)) |}.
Definition toy_client : ChainClient := {|
  chain_get_height _ := Ok (true, toy_tip);
  chain_get_block_hash _ h := Ok (nb_hash (toy_node h));
  chain_find_block _ hash := Ok (true, Ok (found_at (default 0 (List.find (λ h, bool_decide (nb_hash (toy_node h) = hash)) (seqZ 0 8)))));
  chain_find_first _ _ h := Ok (true, Ok (found_at h));
  chain_wait_if_tip_changed _ _ := Ok tt;
  chain_wait _ := Ok tt |}.
Lemma toy_ipc_node threads : ipc_node (CC := toy_client) toy_node toy_tip threads.
Proof.
  split; try done. intros t h _ Hh. eexists. split; [reflexivity|]. cbn. f_equal. revert h Hh.
  each_height.
Qed.

(** ** All four behind one command line *)
#[export] Instance toy_backends : Backends := {|
  bk_http := toy_http; bk_chain_info := toy_chain_info; bk_esplora := toy_esplora;
  bk_rpc _ _ := toy_transport; bk_ipc _ _ := Ok toy_client |}.
Definition toy_source_args : SourceArgs := {|
  rpc_urls := [ascii_bytes "http://node:18443"]; rpc_user := []; rpc_pass := []; rpc_cookie_file := None;
  esplora_urls := [toy_base]; rest_urls := [toy_base ++ ascii_bytes "/"]; ipc_paths := [ascii_bytes "/node.sock"]; ipc_threads := 0 |}.
(** Only the cookie of the regtest directory is readable. *)
Definition toy_env : Env := {|
  var_bitcoin_data_dir := None; var_home := Some (ascii_bytes "/home/u");
  read_to_string path := if bool_decide (path = ascii_bytes "/home/u/.bitcoin/regtest/.cookie") then Some (ascii_bytes "__cookie__:secret") else None |}.
Definition toy_interleaving : Interleaving := {|
  il_next_id := 2 ^ 64 - 1; il_others := [3; 0]; il_others' := [1]; il_thread _ := 0%nat; il_at_call _ _ := (5, [2; 1]) |}.
Lemma toy_honest : honest_backends toy_env true toy_interleaving toy_node toy_tip toy_source_args.
Proof.
  split.
  - intros url ->%list_elem_of_singleton. exists (ascii_bytes "__cookie__", ascii_bytes "secret"). split; [vm_compute; reflexivity|apply toy_rpc_node].
  - intros base ->%list_elem_of_singleton. apply toy_esplora_node.
  - intros base ->%list_elem_of_singleton. apply toy_rest_node.
  - intros path ->%list_elem_of_singleton. split; [done|]. exists toy_client. split; [done|apply toy_ipc_node].
  - done.
  - split_and!; [repeat constructor; lia|repeat constructor; lia|done|done].
  - intros path _. cbn. lia.
Qed.

(** ** A source that is down, before one that answers *)
Lemma down_truthful : truthful toy_node toy_tip down_source.
Proof.
  intros A r. destruct r as [h|hash|hash|hashes| |h|s n]; cbn [ask down_source default_source get_block_hash get_block_raw get_block_spent_txouts
    get_blocks_spent_txouts get_best_height get_block_by_height get_block_range_by_height right about_chain]; try done.
  - intros _ h _ _. by left.
  - intros (_ & hs & Hhs & ->). unfold default_blocks_spent_txouts. destruct (map_res default_spent_txouts _) as [us|e|p] eqn:E; [|done|].
    + apply map_res_Ok in E. intros hs' _ Heq. rewrite Heq in E. rewrite Forall2_fmap_l in E. eapply Forall2_impl; [exact E|]. intros h u [= <-]. by left.
    + exfalso. clear Hhs. revert E. induction hs as [|h hs IH]; [done|]. cbn. by destruct (map_res default_spent_txouts _).
  - intros (_ & Hn & _). destruct n as [|n]; [lia|]. unfold default_range. rewrite seqZ_cons by lia. done.
Qed.
Lemma multi_source_tells_witness : tells toy_node toy_tip (multi_source [down_source; rest_source toy_rest] (λ _ _, (4, []))).
Proof.
  assert (Hrest : tells toy_node toy_tip (rest_source toy_rest)) by (eapply serves_tells, rest_serves; [exact toy_node_wf|exact toy_rest_node]).
  apply (multi_source_tells toy_node toy_tip [down_source; rest_source toy_rest] (λ _ _, (4, []))); [|done|].
  - constructor; [exact down_truthful|]. constructor; [by apply tells_truthful|constructor].
  - intros A r Hr. right. split; [|split_and!; done]. apply Exists_cons. right. apply Exists_cons. left. by destruct (Hrest A r Hr) as (a & -> & _).
Defined.
