(* ===== verification/StatsMain.v ===== *)
(** * The command [btc-data-stats]

    Model of [main] and [build_sinks] in [stats/src/bin/main.rs]: the source of
    [SourceBuild], the CSV sink behind a fanout, and the scan.  The disk is the content
    of the CSV file and the checkpoint directory.  The printed
    report is in [Report]; parsing of the arguments is not modelled; the sizes of buffers, the reserves and the progress
    interval do not change what is written. *)

From S2P Require Import Prelude Decimal Helper TaggedHash ScriptClassify UndoPayload P2trIndexer SpTweak JsonWire Sources Tasks LightIndexer LightIndexerFacts Text Node MultiSource MultiServes RestSource RpcSource RpcAuth EsploraSource IpcSource SourceBuild TaprootSpend ScriptType Histogram CodecCost UtxoHash BlockStats ScanBlock Checkpoint StatsSinks StatsScan StatsScanRuns LightIndexerToy ToyNode.

Record StatsArgs := {
  sa_source : SourceArgs;
  sa_start : Z; sa_blocks : Z;
  sa_utxo_hash_window : Z; sa_finality_depth : Z;
  sa_resume : bool; sa_checkpoint_every : Z; sa_checkpoint_keep : nat;
  sa_source_batch_size : Z;
  sa_out_per_block : option string
}.
Record Disk := { dk_csv : bytes; dk_checkpoints : CheckpointDir }.

Definition scan_config (args : StatsArgs) : ScanConfig := {|
  sc_start := sa_start args; sc_blocks := sa_blocks args; sc_source_batch_size := sa_source_batch_size args;
  sc_utxo_hash_window := sa_utxo_hash_window args; sc_finality_depth := sa_finality_depth args;
  sc_checkpoints := {| every := sa_checkpoint_every args; keep := sa_checkpoint_keep args; cp_enabled := sa_resume args |} |}.

Section command.
Context `{HX : Hex, HD : !HexDecode, SC : !Scheduler, BK : !Backends, RB : !RustBitcoin, ST : !ScriptTemplates, SH : !Sha256, PC : !Postcard, BW : !BufWriter}.

(** [content]: of the file at the path, if one is given. *)
Definition build_sinks (args : StatsArgs) (content : bytes) : Fanout (S := csv_sink) :=
  fanout_new (S := csv_sink) match sa_out_per_block args with
    | Some p => [if sa_resume args then csv_open_append p content else csv_create p]
    | None => []
    end.

(** The world of the scan. *)
Definition fan_world (sinks : Fanout (S := csv_sink)) (dir : CheckpointDir) : World (SK := fanout_sink (S := csv_sink)) :=
  {| w_sink := (sinks : @SinkState (fanout_sink (S := csv_sink))); w_dir := dir |}.
Definition handles (w : World (SK := fanout_sink (S := csv_sink))) : list StatsCsvSink := fo_sinks (S := csv_sink) (w_sink w).

(** At the end the handles are dropped: what is on disk stays. *)
Definition stats_main (env : Env) (ipc_feature : bool) (il : Interleaving) (args : StatsArgs) (disk : Disk) : Disk * res Stats :=
  match build_source env ipc_feature il (sa_source args) with
  | Ok source =>
      let '(w, r) := scan source (scan_config args) (fan_world (build_sinks args (dk_csv disk)) (dk_checkpoints disk)) in
      ({| dk_csv := match handles w with s :: _ => csv_file s | [] => dk_csv disk end; dk_checkpoints := w_dir w |}, r)
  | Err e => (disk, Err e)
  | Panic p => (disk, Panic p)
  end.

(** ** From a node to rows *)
Context (path : string) (chain : Z → NodeBlock) (tip : Z) (frames : Z → PreparedBlockFrame) (start window hi : Z).

(** The blocks of the node from the start of the scan on, prepared. *)
Definition prepares : Prop := ∀ h, start ≤ h ≤ hi → prepare_raw_block (frame_at chain false h) = Ok (frames h).

Lemma prepare_frame_of h f : frame_of chain h f → prepare_raw_block f = prepare_raw_block (frame_at chain false h).
Proof. intros [E1 E2 E3 _]. unfold prepare_raw_block, decode_raw_block. cbn. by rewrite E1, E2, E3. Qed.
Lemma prepared_fields h : prepare_raw_block (frame_at chain false h) = Ok (frames h) →
  pf_height (frames h) = h ∧ pf_hash (frames h) = nb_hash (chain h).
Proof.
  unfold prepare_raw_block, decode_raw_block, prepare_decoded_block. cbn [rf_bytes frame_at rf_height rf_hash].
  intros (d & (b & _ & [= <-])%bind_Ok & (txs & _ & [= <-])%bind_Ok)%bind_Ok. done.
Qed.

(** A source that tells the chain serves the scanner. *)
Lemma tells_serves source : tells chain tip source → 0 ≤ start → hi ≤ tip → prepares → StatsScan.serves frames start hi source.
Proof.
  intros Ht Hs Hh Hp. split.
  - intros h Hr. destruct (Ht _ (RByHeight h)) as (f & E & Hf); [cbn; unfold in_chain; lia|]. exists f. split; [exact E|].
    rewrite (prepare_frame_of h f Hf). by apply Hp.
  - intros h Hr. destruct (Ht _ (RHash h)) as (hash & E & Hf); [cbn; unfold in_chain; lia|]. cbn in E, Hf. rewrite E, Hf.
    f_equal. symmetry. by apply prepared_fields, Hp.
  - intros s n Hr Hn Hle. destruct (Ht _ (RRange s (Z.to_nat n))) as (fs & E & Hf); [cbn [about_chain]; lia|]. exists fs. split; [exact E|].
    cbn in Hf. rewrite Z2Nat.id in Hf by lia. apply map_res_Ok. rewrite Forall2_fmap_r.
    apply Forall2_flip. rewrite Forall2_same_length_lookup in Hf |- *. destruct Hf as [Hl Hf]. split; [done|].
    intros i h f Hi Hfi. unfold flip. rewrite (prepare_frame_of h f (Hf i h f Hi Hfi)). apply Hp. apply lookup_seqZ in Hi. lia.
Qed.

(** ** The rows on disk *)

(** A disk between two runs with [--resume]: the file holds the rows of the ideal scan up
    to [k], or nothing yet; every checkpoint is one of that scan, and there is one as soon
    as a block is done. *)
Record disk_settled (k : Z) (disk : Disk) : Prop := {
  ds_rows : ∃ s rs, ideal frames start window k = Ok (s, rs) ∧ (dk_csv disk = csv_text rs ∨ dk_csv disk = [] ∧ rs = []);
  ds_dir : ∀ name, name ∈ list_checkpoints_newest_first (dk_checkpoints disk) → ∃ c, load_checkpoint (dk_checkpoints disk) name = Ok c ∧
    name = checkpoint_path (cp_height c) (cp_block_hash c) ∧ honest_checkpoint frames start window k c;
  ds_some : start ≤ k → list_checkpoints_newest_first (dk_checkpoints disk) ≠ []
}.
Lemma disk_world k disk : chain_ok (SK := csv_sink) frames start window hi → k ≤ hi → disk_settled k disk →
  settled (SK := fanout_sink (S := csv_sink)) frames start window k (fan_world (fanout_new (S := csv_sink) [csv_open_append path (dk_csv disk)]) (dk_checkpoints disk)).
Proof.
  intros [_ _ _ _ K5] Hk [(s & rs & Ei & Hcsv) Hdir Hne]. split; [|exact Hne]. split; [|exact Hdir]. exists s, rs. split; [exact Ei|].
  apply Forall_singleton. apply csv_open_holds; [exact Hcsv|by apply (K5 k s rs)].
Qed.

(** The scan keeps the number of handles. *)
Lemma fan_length {S : StatsSink} name (op : @SinkState S → @SinkState S * res unit) (self : Fanout) :
  length (fo_sinks (fan name op self).1) = length (fo_sinks self).
Proof. unfold fan. destruct (fanout_is_empty self); [done|]. cbn. by rewrite length_fmap. Qed.
Lemma scan_keeps_one source cfg c dir : ∃ c', handles (scan source cfg (fan_world (fanout_new (S := csv_sink) [c]) dir)).1 = [c'].
Proof.
  pose proof (scan_keeps (SK := fanout_sink (S := csv_sink)) (λ l : Fanout (S := csv_sink), length (fo_sinks (S := csv_sink) l) = 1%nat)) as H.
  specialize (H ltac:(intros r s <-; exact (fan_length _ (emit_block r) s)) ltac:(intros r s <-; exact (fan_length _ (emit_run r) s))
    ltac:(intros h s <-; exact (fan_length _ (rollback_to_height h) s)) ltac:(intros s <-; exact (fan_length _ flush s)) source cfg (fan_world (fanout_new (S := csv_sink) [c]) dir) eq_refl).
  unfold handles in *. destruct (fo_sinks _) as [|c' [|]]; [done| |done]. by exists c'.
Qed.

(** The rows of blocks on an honest chain can be written, whatever the sink law. *)
Lemma fanout_fits : chain_ok (SK := csv_sink) frames start window hi →
  ∀ k s rs, k ≤ hi → ideal frames start window k = Ok (s, rs) → Forall (row_fits (S := fanout_sink (S := csv_sink))) rs.
Proof. intros [_ _ _ _ K5]. exact K5. Qed.

Context (env : Env) (ipc_feature : bool) (il : Interleaving) (args : StatsArgs).
Context (wf : node_wf chain tip) (honest : honest_backends env ipc_feature il chain tip (sa_source args)).
Context (Hchain : chain_ok (SK := csv_sink) frames start window hi) (Hprep : prepares).

(** What the command line asks for: the window, rows to a file, checkpoints of some
    interval, and a range whose last height is [hi]. *)
Record asks : Prop := {
  ak_start : sa_start args = start;
  ak_window : sa_utxo_hash_window args = window;
  ak_out : sa_out_per_block args = Some path;
  ak_every : 0 < sa_checkpoint_every args < 2 ^ 64;
  ak_finality : 0 ≤ sa_finality_depth args;
  ak_safe : start ≤ saturating_sub tip (sa_finality_depth args);
  ak_end : hi = Z.min (saturating_add 64 start (saturating_sub (sa_blocks args) 1)) (saturating_sub tip (sa_finality_depth args))
}.

(** C4: the command over honest nodes.  Whatever the interfaces of the nodes, the batch
    size and the interleaving of the requests, it ends without an error, returns the
    totals of the ideal scan up to the last height asked for, and the CSV file is its
    rows.  Without [--resume] this holds on any disk, whose checkpoints stay as they
    are; with it, on a disk that earlier runs left, where it leaves a disk that the
    next run can start from. *)
Theorem stats_main_writes (disk : Disk) (k : Z) (Hask : asks) :
  (sa_resume args = true → start - 1 ≤ k ≤ hi ∧ disk_settled k disk) →
  ∃ disk' s rs, stats_main env ipc_feature il args disk = (disk', Ok (stats s)) ∧ ideal frames start window hi = Ok (s, rs) ∧
    dk_csv disk' = csv_text rs ∧
    (if sa_resume args then disk_settled hi disk' else dk_checkpoints disk' = dk_checkpoints disk).
Proof.
  intros Hres. destruct Hask as [A1 A2 A3 A4 A5 A6 A7]. pose proof Hchain as [K1 K2 K3 K4 K5].
  destruct (build_source_tells env ipc_feature il chain tip (sa_source args) wf honest) as (source & Es & Ht).
  assert (Hhi : hi ≤ tip) by (destruct (nw_tip _ _ wf); unfold saturating_sub in A7; lia).
  pose proof (tells_serves source Ht K1 Hhi Hprep) as Hserves.
  assert (Hbest : get_best_height source = Ok tip) by (destruct (Ht _ RBest I) as (t & E & ->); exact E).
  set (cfg := scan_config args).
  assert (He : Z.min (saturating_add 64 start (saturating_sub (sc_blocks cfg) 1)) (saturating_sub tip (sc_finality_depth cfg)) = hi) by done.
  assert (Hmain : ∀ c w' r, scan source cfg (fan_world (fanout_new (S := csv_sink) [c]) (dk_checkpoints disk)) = (w', r) →
    build_sinks args (dk_csv disk) = fanout_new (S := csv_sink) [c] → ∃ c', handles w' = [c'] ∧
    stats_main env ipc_feature il args disk = ({| dk_csv := csv_file c'; dk_checkpoints := w_dir w' |}, r)).
  { intros c w' r E Eb. destruct (scan_keeps_one source cfg c (dk_checkpoints disk)) as [c' Ec]. rewrite E in Ec.
    exists c'. split; [exact Ec|]. unfold stats_main. rewrite Es, Eb. fold cfg. rewrite E. cbn [fst] in Ec. by rewrite Ec. }
  unfold build_sinks in Hmain. rewrite A3 in Hmain. destruct (sa_resume args) eqn:Er.
  - destruct (Hres eq_refl) as [Hk Hd]. pose proof (disk_world k disk Hchain ltac:(lia) Hd) as Hw.
    destruct (scan_settled (SK := fanout_sink (S := csv_sink)) frames start window hi K3 K4 K1 K2 (fanout_fits Hchain)
      cfg A1 A2 ltac:(cbn; lia) Er ltac:(cbn; lia) source tip k _ Hserves Hbest Hw) as (w' & s & rs & E & Ei & Hs & Hdur);
      [lia|exact A6|rewrite He; lia|]. rewrite He in Ei, Hs. destruct (Hmain _ _ _ E eq_refl) as (c & Ec & Em).
    assert (Hc : csv_file c = csv_text rs).
    { apply csv_durable_file. pose proof (Hdur : Forall _ (handles w')) as Hf. rewrite Ec in Hf. by apply Forall_cons in Hf as [? _]. }
    exists {| dk_csv := csv_file c; dk_checkpoints := w_dir w' |}, s, rs. split_and!; [done|done|done|].
    destruct Hs as [[_ Hdir] Hne]. split; [|exact Hdir|exact Hne]. exists s, rs. split; [done|by left].
  - destruct (scan_plain (SK := fanout_sink (S := csv_sink)) (EL := fanout_emits (EL := created_emits)) frames start window hi K3 K4 K1 K2 (fanout_fits Hchain)
      cfg A1 A2 ltac:(cbn; lia) Er source tip (fan_world (fanout_new (S := csv_sink) [csv_create path]) (dk_checkpoints disk)) Hserves Hbest) as (w' & s & rs & E & Ei & Hdur & Hdir);
      [apply Forall_singleton, csv_create_holds|exact A6|by rewrite He|]. rewrite He in Ei. destruct (Hmain _ _ _ E eq_refl) as (c & Ec & Em).
    assert (Hc : csv_file c = csv_text rs).
    { apply created_durable_file. pose proof (Hdur : Forall _ (handles w')) as Hf. rewrite Ec in Hf. by apply Forall_cons in Hf as [? _]. }
    exists {| dk_csv := csv_file c; dk_checkpoints := w_dir w' |}, s, rs. by split_and!.
Qed.
End command.

(** ** The witness: four nodes, a fresh disk, batches of three *)
#[local] Existing Instances toy_buf toy_postcard.
Definition toy_stats_args (resume : bool) : StatsArgs := {|
  sa_source := toy_source_args; sa_start := 0; sa_blocks := 5; sa_utxo_hash_window := 1; sa_finality_depth := 6;
  sa_resume := resume; sa_checkpoint_every := 1; sa_checkpoint_keep := 2; sa_source_batch_size := 3; sa_out_per_block := Some ("rows.csv")%string |}.
Definition blank_disk : Disk := {| dk_csv := []; dk_checkpoints := None |}.

Lemma toy_prepares : prepares toy_node scan_chain 0 1.
Proof. intros h Hh. assert (h = 0 ∨ h = 1) as [->| ->] by lia; vm_compute; reflexivity. Qed.
Lemma blank_settled : disk_settled scan_chain 0 1 (-1) blank_disk.
Proof.
  split; [|by intros name ?%elem_of_nil|lia]. exists (scanner_new 1), []. split; [reflexivity|by right].
Qed.
Lemma toy_asks resume : asks "rows.csv" toy_tip 0 1 1 (toy_stats_args resume).
Proof. by split. Qed.

Lemma stats_main_writes_witness : ∃ disk' s rs,
  stats_main toy_env true toy_interleaving (toy_stats_args true) blank_disk = (disk', Ok (stats s)) ∧
  ideal scan_chain 0 1 1 = Ok (s, rs) ∧ dk_csv disk' = csv_text rs ∧ disk_settled scan_chain 0 1 1 disk'.
Proof.
  apply (stats_main_writes "rows.csv" toy_node toy_tip scan_chain 0 1 1 toy_env true toy_interleaving (toy_stats_args true) toy_node_wf toy_honest
    scan_chain_ok toy_prepares blank_disk (-1) (toy_asks true)).
  intros _. split; [lia|exact blank_settled].
Defined.
