(* ===== verification/F64.v ===== *)
(** * Floating point numbers

    What the reports of the statistics use of [f64]: conversion from an integer, the
    four operations, comparison and the fixed-precision formatting of the standard
    library.  A number is an IEEE 754 binary64 of the specification in the Standard
    Library, rounded to nearest, ties to even, so every report can be evaluated.

    The lemmas bound the magnitude of a result by the magnitudes of its arguments: they
    show that a computation on bounded integers with positive divisors is finite. *)

From S2P Require Import Prelude Decimal.
From Stdlib Require Import Floats.SpecFloat.

Definition f64 : Type := spec_float.

(** [z as f64]; for a duration and the literals too. *)
Definition of_int (z : Z) : f64 := binary_normalize 53 1024 z 0 false.
Definition f_add (x y : f64) : f64 := SFadd 53 1024 x y.
Definition f_mul (x y : f64) : f64 := SFmul 53 1024 x y.
Definition f_div (x y : f64) : f64 := SFdiv 53 1024 x y.
Definition f_ltb (x y : f64) : bool := SFltb x y.
(** [f64::max] on numbers. *)
Definition f_max (x y : f64) : f64 := if f_ltb x y then y else x.
(** A decimal literal [n / d]: the nearest number, as the quotient of exact ones is. *)
Definition lit (n d : Z) : f64 := f_div (of_int n) (of_int d).

(** [x.ceil() as u64], saturating; [NaN] is 0. *)
Definition ceil_u64 (x : f64) : Z :=
  match x with
  | S754_zero _ | S754_nan | S754_infinity true => 0
  | S754_infinity false => umax 64
  | S754_finite true _ _ => 0
  | S754_finite false m e =>
      let c := if bool_decide (0 ≤ e) then Z.pos m * 2 ^ e else - ((- Z.pos m) / 2 ^ (- e)) in
      Z.min c (umax 64)
  end.

(** [{:.prec}]: the exact value, rounded to [prec] decimals, ties to even. *)
Definition scaled (prec : nat) (m : positive) (e : Z) : Z :=
  let n := Z.pos m * 10 ^ Z.of_nat prec in
  if bool_decide (0 ≤ e) then n * 2 ^ e
  else
    let d := 2 ^ (- e) in
    let q := n / d in let r := n mod d in
    if bool_decide (2 * r < d) then q
    else if bool_decide (d < 2 * r) then q + 1
    else if Z.even q then q else q + 1.
Definition fixed_digits (prec : nat) (v : Z) : bytes :=
  let p := 10 ^ Z.of_nat prec in
  let whole := (λ d, 48 + d) <$> digits 400 (v / p) in
  if bool_decide (prec = 0%nat) then whole
  else whole ++ [46] ++ (let f := (λ d, 48 + d) <$> digits 400 (v mod p) in replicate (prec - length f) 48 ++ f).
Definition to_fixed (prec : nat) (x : f64) : bytes :=
  match x with
  | S754_nan => ascii_bytes "NaN"
  | S754_infinity s => (if s then [45] else []) ++ ascii_bytes "inf"
  | S754_zero s => (if s then [45] else []) ++ fixed_digits prec 0
  | S754_finite s m e => (if s then [45] else []) ++ fixed_digits prec (scaled prec m e)
  end.

Example prints_third : to_fixed 3 (f_div (of_int 1) (of_int 3)) = ascii_bytes "0.333".
Proof. vm_compute. reflexivity. Qed.
Example prints_tie : (to_fixed 1 (lit 1 4), to_fixed 1 (lit 3 4)) = (ascii_bytes "0.2", ascii_bytes "0.8").
Proof. vm_compute. reflexivity. Qed.
Example prints_tenth : to_fixed 20 (lit 1 10) = ascii_bytes "0.10000000000000000555".
Proof. vm_compute. reflexivity. Qed.
Example rounds_integer : to_fixed 1 (of_int (2 ^ 53 + 1)) = ascii_bytes "9007199254740992.0".
Proof. vm_compute. reflexivity. Qed.

(** ** Magnitudes *)

(** The position of the highest bit of [m * 2^e]. *)
Definition mag (m e : Z) : Z := Z.log2 m + 1 + e.
(** A zero or a positive number with a magnitude between the bounds. *)
Definition fin (lo hi : Z) (x : f64) : Prop :=
  match x with S754_zero false => True | S754_finite false m e => lo ≤ mag (Z.pos m) e ≤ hi | _ => False end.
Definition strictly (lo hi : Z) (x : f64) : Prop :=
  match x with S754_finite false m e => lo ≤ mag (Z.pos m) e ≤ hi | _ => False end.
Definition is_finite (x : f64) : Prop :=
  match x with S754_zero _ | S754_finite _ _ _ => True | _ => False end.

Lemma strictly_fin lo hi x : strictly lo hi x → fin lo hi x.
Proof. destruct x as [s|s| |s m e]; try done; by destruct s. Qed.
Lemma fin_finite lo hi x : fin lo hi x → is_finite x.
Proof. by destruct x as [s|s| |s m e]; try done; destruct s. Qed.
Lemma fin_weaken lo hi lo' hi' x : fin lo hi x → lo' ≤ lo → hi ≤ hi' → fin lo' hi' x.
Proof. destruct x as [s|s| |s m e]; try done; destruct s; cbn; intros; lia. Qed.
Lemma strictly_weaken lo hi lo' hi' x : strictly lo hi x → lo' ≤ lo → hi ≤ hi' → strictly lo' hi' x.
Proof. destruct x as [s|s| |s m e]; try done; destruct s; cbn; intros; lia. Qed.

Lemma digits2_log2 (p : positive) : Z.pos (digits2_pos p) = Z.log2 (Z.pos p) + 1.
Proof.
  induction p as [p IH|p IH|]; [| |done]; cbn [digits2_pos]; rewrite Pos2Z.inj_succ, IH.
  - rewrite Pos2Z.inj_xI, Z.log2_succ_double by lia. lia.
  - rewrite Pos2Z.inj_xO, Z.log2_double by lia. lia.
Qed.
Lemma Zdigits2_log2 m : 0 < m → Zdigits2 m = Z.log2 m + 1.
Proof. destruct m as [|p|p]; try lia. intros _. apply digits2_log2. Qed.

Lemma iter_shr (p : positive) mrs : 0 ≤ shr_m mrs →
  shr_m (iter_pos shr_1 p mrs) = shr_m mrs / 2 ^ Z.pos p.
Proof.
  assert (Hs : ∀ r, 0 ≤ shr_m r → shr_m (shr_1 r) = shr_m r / 2).
  { intros [[|[q|q|]|q] r s] H; cbn in H |- *; try lia. }
  revert mrs. induction p as [p IH|p IH|]; intros mrs H; cbn [iter_pos].
  - assert (0 ≤ shr_m (shr_1 mrs)) by (rewrite Hs by done; lia).
    assert (0 ≤ shr_m (iter_pos shr_1 p (shr_1 mrs))) by (rewrite IH by done; apply Z.div_pos; lia).
    rewrite !IH, Hs by done. rewrite !Z.div_div by lia. f_equal.
    replace (Z.pos p~1) with (1 + Z.pos p + Z.pos p) by lia. rewrite !Z.pow_add_r by lia. lia.
  - assert (0 ≤ shr_m (iter_pos shr_1 p mrs)) by (rewrite IH by done; apply Z.div_pos; lia).
    rewrite !IH by done. rewrite !Z.div_div by lia. f_equal.
    replace (Z.pos p~0) with (Z.pos p + Z.pos p) by lia. by rewrite Z.pow_add_r by lia.
  - by apply Hs.
Qed.

Lemma log2_div_pow m n : 0 < m → 0 ≤ n ≤ Z.log2 m → Z.log2 (m / 2 ^ n) = Z.log2 m - n.
Proof. intros Hm Hn. rewrite <- Z.shiftr_div_pow2 by lia. rewrite Z.log2_shiftr by lia. lia. Qed.

Lemma fexp_normal d : -1000 ≤ d → fexp 53 1024 d = d - 53.
Proof. intros H. unfold fexp, emin. lia. Qed.

(** A shift to 53 digits keeps the magnitude. *)
Lemma shr_fexp_mag m e l : 0 < m → -1000 ≤ mag m e →
  ∃ r e', shr_fexp 53 1024 m e l = (r, e') ∧ 0 < shr_m r ∧ mag (shr_m r) e' = mag m e ∧
    (Z.log2 (shr_m r) = Z.min 52 (Z.log2 m)) ∧ (Z.log2 m ≤ 52 → shr_m r = m ∧ e' = e).
Proof.
  intros Hm Hl. unfold mag in *. unfold shr_fexp. rewrite Zdigits2_log2, fexp_normal by lia.
  set (mrs := shr_record_of_loc m l).
  assert (Hr : shr_m mrs = m) by (unfold mrs; by destruct l as [|[]]).
  replace (Z.log2 m + 1 + e - 53 - e) with (Z.log2 m - 52) by lia.
  destruct (Z.log2 m - 52) as [|p|p] eqn:E; cbn [shr].
  - exists mrs, e. rewrite Hr. repeat split; lia.
  - exists (iter_pos shr_1 p mrs), (e + Z.pos p). rewrite iter_shr, Hr by lia.
    assert (Hg : Z.log2 (m / 2 ^ Z.pos p) = Z.log2 m - Z.pos p) by (apply log2_div_pow; lia).
    assert (0 < m / 2 ^ Z.pos p).
    { apply Z.div_str_pos. split; [lia|]. transitivity (2 ^ Z.log2 m); [apply Z.pow_le_mono_r; lia|].
      apply Z.log2_spec; lia. }
    rewrite Hg. repeat split; lia.
  - exists mrs, e. rewrite Hr. repeat split; lia.
Qed.

Lemma log2_succ_cases m : 0 < m → Z.log2 (m + 1) = Z.log2 m ∨ (Z.log2 (m + 1) = Z.log2 m + 1).
Proof. intros Hm. pose proof (Z.log2_succ_or m). unfold Z.succ in *. lia. Qed.

Lemma round_aux_fin m e l : 0 < m → -900 ≤ mag m e ≤ 900 → e ≤ 900 →
  strictly (mag m e) (mag m e + 1) (binary_round_aux 53 1024 false m e l).
Proof.
  intros Hm Hmag He. unfold binary_round_aux.
  destruct (shr_fexp_mag m e l Hm ltac:(lia)) as (r & e' & -> & Hr & Hg & Hlog & Hsame).
  set (m' := round_nearest_even (shr_m r) (loc_of_shr_record r)).
  assert (Hm' : m' = shr_m r ∨ m' = shr_m r + 1).
  { unfold m', round_nearest_even. destruct (loc_of_shr_record r) as [|[]]; [by left| |by left|by right].
    destruct (Z.even _); [by left|by right]. }
  assert (H0 : 0 < m') by lia.
  assert (Hg' : mag m' e' = mag m e ∨ mag m' e' = mag m e + 1).
  { unfold mag in *. destruct Hm' as [->| ->]; [left; lia|]. destruct (log2_succ_cases (shr_m r) Hr); lia. }
  destruct (shr_fexp_mag m' e' loc_Exact H0 ltac:(lia)) as (r2 & e2 & -> & Hr2 & Hg2 & Hlog2 & Hsame2).
  destruct (shr_m r2) as [|p|p] eqn:E; try lia.
  assert (Hle : e2 ≤ 971) by (unfold mag in *; pose proof (Z.log2_nonneg (Z.pos p)); lia).
  replace (e2 <=? 1024 - 53) with true by (symmetry; apply Z.leb_le; lia). cbn [strictly]. lia.
Qed.

(** The shift to the left that a conversion starts with. *)
Lemma shl_align_mag m e e' : mag (Z.pos (shl_align m e e').1) (shl_align m e e').2 = mag (Z.pos m) e ∧
  (shl_align m e e').2 = Z.min e e'.
Proof.
  unfold shl_align. destruct (e' - e) as [|p|p] eqn:E; cbn [fst snd]; [split; lia..|]. split; [|lia].
  unfold mag. assert (Hi : Z.pos (Pos.iter xO m p) = Z.pos m * 2 ^ Z.pos p).
  { clear E. induction p as [|p IH] using Pos.peano_ind; [by rewrite Z.pow_1_r, Z.mul_comm|].
    rewrite Pos.iter_succ, (Pos2Z.inj_xO (Pos.iter xO m p)), IH, Pos2Z.inj_succ, Z.pow_succ_r by lia. lia. }
  rewrite Hi, Z.log2_mul_pow2 by lia. lia.
Qed.

Lemma round_fin m e : -900 ≤ mag (Z.pos m) e ≤ 900 →
  strictly (mag (Z.pos m) e) (mag (Z.pos m) e + 1) (binary_round 53 1024 false m e).
Proof.
  intros H. unfold binary_round. set (e' := fexp 53 1024 (Z.pos (digits2_pos m) + e)).
  assert (He' : e' ≤ 900) by (unfold e'; rewrite digits2_log2; unfold mag in H; rewrite fexp_normal by lia; lia).
  destruct (shl_align_mag m e e') as [Hmag He].
  destruct (shl_align m e e') as [mz ez]. cbn [fst snd] in Hmag, He. rewrite <- Hmag.
  apply round_aux_fin; lia.
Qed.
Lemma of_int_strictly z w : 0 < w ≤ 512 → 1 ≤ z < 2 ^ w → strictly 1 (w + 1) (of_int z).
Proof.
  intros Hw Hz. destruct z as [|m|m]; try lia. unfold of_int, binary_normalize.
  assert (Hl : 0 ≤ Z.log2 (Z.pos m) < w) by (split; [apply Z.log2_nonneg|apply Z.log2_lt_pow2; lia]).
  assert (Hm : mag (Z.pos m) 0 = Z.log2 (Z.pos m) + 1) by (unfold mag; lia).
  eapply strictly_weaken; [apply round_fin; lia|lia..].
Qed.
Lemma of_int_fin z w : 0 < w ≤ 512 → 0 ≤ z < 2 ^ w → fin 1 (w + 1) (of_int z).
Proof.
  intros Hw Hz. destruct (decide (z = 0)) as [->|Hz0]; [done|]. apply strictly_fin, of_int_strictly; lia.
Qed.

Lemma f_mul_fin lo1 hi1 lo2 hi2 x y : fin lo1 hi1 x → strictly lo2 hi2 y →
  -800 ≤ lo1 + lo2 → hi1 + hi2 ≤ 800 → fin (lo1 + lo2 - 1) (hi1 + hi2 + 1) (f_mul y x).
Proof.
  destruct y as [s|s| |s m2 e2]; try done. destruct s; [done|].
  destruct x as [s|s| |s m1 e1]; try done; destruct s; try done. cbn [fin strictly].
  intros H1 H2 Hl Hh. unfold f_mul, SFmul. cbn [xorb].
  assert (Hg : mag (Z.pos (m2 * m1)) (e2 + e1) = mag (Z.pos m1) e1 + mag (Z.pos m2) e2 ∨
               mag (Z.pos (m2 * m1)) (e2 + e1) = mag (Z.pos m1) e1 + mag (Z.pos m2) e2 - 1).
  { unfold mag. rewrite Pos2Z.inj_mul.
    pose proof (Z.log2_mul_below (Z.pos m2) (Z.pos m1)). pose proof (Z.log2_mul_above (Z.pos m2) (Z.pos m1)). lia. }
  apply strictly_fin. eapply strictly_weaken; [apply round_aux_fin|..]; try lia.
  unfold mag in *. pose proof (Z.log2_nonneg (Z.pos m1)). pose proof (Z.log2_nonneg (Z.pos m2)). lia.
Qed.

(** The quotient has at least 53 digits before it is rounded. *)
Lemma quotient_mag m1 e1 m2 e2 : 0 < m1 → 0 < m2 →
  let d := mag m1 e1 - mag m2 e2 in -800 ≤ d ≤ 800 →
  ∃ q e' l, SFdiv_core_binary 53 1024 m1 e1 m2 e2 = (q, e', l) ∧ 0 < q ∧ d ≤ mag q e' ≤ d + 1 ∧ e' ≤ 800.
Proof.
  intros H1 H2 d Hd. unfold SFdiv_core_binary. rewrite !Zdigits2_log2 by done.
  replace (Z.log2 m1 + 1 + e1 - (Z.log2 m2 + 1 + e2)) with d by (unfold d, mag; lia).
  rewrite fexp_normal by lia. set (e' := Z.min (d - 53) (e1 - e2)). set (s := e1 - e2 - e').
  assert (Hs : 0 ≤ s) by lia.
  replace (match s with 0 => m1 | Z.pos _ => Z.shiftl m1 s | Z.neg _ => 0 end) with (m1 * 2 ^ s)
    by (destruct s; [lia|by rewrite Z.shiftl_mul_pow2|lia]).
  pose proof (Z.div_eucl_eq (m1 * 2 ^ s) m2) as Heq.
  assert (Hq : (Z.div_eucl (m1 * 2 ^ s) m2).1 = m1 * 2 ^ s / m2) by done.
  destruct (Z.div_eucl (m1 * 2 ^ s) m2) as [q r]. cbn [fst] in Hq. subst q.
  eexists _, _, _. split; [done|].
  assert (Hn : Z.log2 (m1 * 2 ^ s) = Z.log2 m1 + s) by (rewrite Z.log2_mul_pow2; lia).
  assert (Hgap : 53 ≤ Z.log2 m1 + 1 + s - (Z.log2 m2 + 1)) by (unfold s, e', d, mag in *; lia).
  set (n := m1 * 2 ^ s) in *. assert (0 < n) by (unfold n; lia).
  set (g := Z.log2 n - Z.log2 m2) in *. assert (53 ≤ g) by lia.
  pose proof (Z.log2_nonneg m2). pose proof (Z.log2_spec n ltac:(done)) as [Hn1 Hn2]. pose proof (Z.log2_spec m2 H2) as [Hm1 Hm2].
  assert (Hlow : 2 ^ (g - 1) ≤ n / m2).
  { apply Z.div_le_lower_bound; [done|]. transitivity (2 ^ Z.log2 n); [|done].
    replace (Z.log2 n) with (Z.succ (Z.log2 m2) + (g - 1)) by lia. rewrite Z.pow_add_r by lia.
    apply Z.mul_le_mono_nonneg_r; lia. }
  assert (Hhigh : n / m2 < 2 ^ (g + 1)).
  { apply Z.div_lt_upper_bound; [done|]. eapply Z.lt_le_trans; [exact Hn2|].
    replace (Z.succ (Z.log2 n)) with (Z.log2 m2 + (g + 1)) by lia. rewrite Z.pow_add_r by lia.
    apply Z.mul_le_mono_nonneg_r; lia. }
  assert (0 < 2 ^ (g - 1)) by lia.
  assert (Hlog : g - 1 ≤ Z.log2 (n / m2) < g + 1).
  { split; [apply Z.log2_le_pow2; lia|apply Z.log2_lt_pow2; lia]. }
  split; [lia|]. split; [|lia]. unfold d, mag, g, s in *. lia.
Qed.

Lemma f_div_fin lo1 hi1 lo2 hi2 x y : fin lo1 hi1 x → strictly lo2 hi2 y →
  -700 ≤ lo1 - hi2 → hi1 - lo2 ≤ 700 → fin (lo1 - hi2) (hi1 - lo2 + 2) (f_div x y).
Proof.
  destruct y as [s|s| |s m2 e2]; try done. destruct s; [done|].
  destruct x as [s|s| |s m1 e1]; try done; destruct s; try done. cbn [fin strictly].
  intros H1 H2 Hl Hh. unfold f_div, SFdiv. cbn [xorb].
  destruct (quotient_mag (Z.pos m1) e1 (Z.pos m2) e2) as (q & e' & l & -> & Hq & Hg & He); [lia..|].
  apply strictly_fin. eapply strictly_weaken; [apply round_aux_fin; lia|lia..].
Qed.
Lemma f_div_strictly lo1 hi1 lo2 hi2 x y : strictly lo1 hi1 x → strictly lo2 hi2 y →
  -700 ≤ lo1 - hi2 → hi1 - lo2 ≤ 700 → strictly (lo1 - hi2) (hi1 - lo2 + 2) (f_div x y).
Proof.
  intros H1 H2 Hl Hh. pose proof (f_div_fin _ _ _ _ _ _ (strictly_fin _ _ _ H1) H2 Hl Hh) as H.
  destruct x as [s|s| |s m1 e1]; try done. destruct s; [done|].
  destruct y as [s|s| |s m2 e2]; try done. destruct s; [done|]. cbn [strictly] in H1, H2.
  unfold f_div, SFdiv in *. cbn [xorb] in *.
  destruct (quotient_mag (Z.pos m1) e1 (Z.pos m2) e2) as (q & e' & l & E & Hq & Hg & He); [lia..|].
  rewrite E. eapply strictly_weaken; [apply round_aux_fin; lia|lia..].
Qed.

Lemma log2_add a b : 0 < a → 0 < b → Z.max (Z.log2 a) (Z.log2 b) ≤ Z.log2 (a + b) ≤ Z.max (Z.log2 a) (Z.log2 b) + 1.
Proof.
  intros Ha Hb. split; [apply Z.max_lub; apply Z.log2_le_mono; lia|].
  pose proof (Z.log2_spec a Ha) as [_ Ha2]. pose proof (Z.log2_spec b Hb) as [_ Hb2].
  pose proof (Z.log2_nonneg a). pose proof (Z.log2_nonneg b).
  set (k := Z.max (Z.log2 a) (Z.log2 b)). enough (Z.log2 (a + b) < Z.succ (k + 1)) by lia.
  apply Z.log2_lt_pow2; [lia|]. rewrite Z.pow_succ_r by lia.
  assert (2 ^ Z.succ (Z.log2 a) ≤ 2 ^ (k + 1)) by (apply Z.pow_le_mono_r; lia).
  assert (2 ^ Z.succ (Z.log2 b) ≤ 2 ^ (k + 1)) by (apply Z.pow_le_mono_r; lia). lia.
Qed.

Lemma f_add_fin lo hi x y : fin lo hi x → fin lo hi y → -800 ≤ lo → hi ≤ 800 → fin lo (hi + 2) (f_add x y).
Proof.
  intros Hx Hy Hl Hh. unfold f_add.
  destruct x as [s1|s1| |s1 m1 e1]; try done; destruct s1; try done;
    destruct y as [s2|s2| |s2 m2 e2]; try done; destruct s2; try done; cbn [SFadd fin] in *; [lia..|].
  set (ez := Z.min e1 e2).
  destruct (shl_align_mag m1 e1 ez) as [Hm1 He1]. destruct (shl_align_mag m2 e2 ez) as [Hm2 He2].
  replace (Z.min e1 ez) with ez in He1 by lia. replace (Z.min e2 ez) with ez in He2 by lia.
  rewrite He1 in Hm1. rewrite He2 in Hm2. cbn [cond_Zopp].
  set (p1 := (shl_align m1 e1 ez).1) in *. set (p2 := (shl_align m2 e2 ez).1) in *.
  change (Z.pos p1 + Z.pos p2) with (Z.pos (p1 + p2)). cbn [binary_normalize].
  assert (Hs : Z.max (mag (Z.pos p1) ez) (mag (Z.pos p2) ez) ≤ mag (Z.pos (p1 + p2)) ez
    ≤ Z.max (mag (Z.pos p1) ez) (mag (Z.pos p2) ez) + 1).
  { unfold mag. rewrite Pos2Z.inj_add. pose proof (log2_add (Z.pos p1) (Z.pos p2) eq_refl eq_refl). lia. }
  apply strictly_fin. eapply strictly_weaken; [apply round_fin; lia|lia..].
Qed.

Lemma f_max_strictly lo hi x y : fin lo hi x → strictly lo hi y → strictly lo hi (f_max x y).
Proof.
  intros Hx Hy. unfold f_max. destruct (f_ltb x y) eqn:E; [done|].
  destruct x as [s|s| |s m e]; try done; destruct s; try done.
  destruct y as [s|s| |s m' e']; try done; destruct s; try done.
Qed.
