(* ===== verification/Report.v ===== *)
(** * The printed reports of the statistics

    Model of the report a run prints on its standard output: [Log2Hist::print],
    [CodecEstimate::print_codec], [SortedUidCodecStats::print_report],
    [Stats::print_report] and [print_script_type_table] of [stats/src].  A report is a
    list of lines, a line a list of pieces: text, and the arguments of the format
    string with their width or precision; [render] makes the bytes.

    A printed float is a count scaled and divided by another: the theorem shows that for
    all counters in their width no division is by zero and nothing overflows, so no
    report ever shows [NaN] or [inf]. *)

From S2P Require Import Prelude Decimal Histogram CodecCost ScriptType TaprootSpend BlockStats StatsSinks F64.

Inductive arg := AStr (s : bytes) | AInt (n : Z) | AFix (prec : nat) (x : f64).
Inductive align := Plain | Right (width : nat) | Left (width : nat).
Inductive piece := Txt (s : string) | Arg (a : align) (x : arg).
Definition line := list piece.

Definition show_arg (x : arg) : bytes :=
  match x with AStr s => s | AInt n => to_decimal_128 n | AFix prec x => to_fixed prec x end.
(** Names are ASCII: their width is their length. *)
Definition pad (a : align) (s : bytes) : bytes :=
  match a with
  | Plain => s
  | Right w => replicate (w - length s) 32 ++ s
  | Left w => s ++ replicate (w - length s) 32
  end.
Definition show_piece (p : piece) : bytes :=
  match p with Txt s => ascii_bytes s | Arg a x => pad a (show_arg x) end.
Definition show_line (l : line) : bytes := (l ≫= show_piece) ++ [10].
Definition render (report : list line) : bytes := report ≫= show_line.

Definition int (n : Z) : piece := Arg Plain (AInt n).
Definition fix_ (prec : nat) (x : f64) : piece := Arg Plain (AFix prec x).

(** ** [histogram.rs] *)
Definition hist_mean (self : Log2Hist) : f64 :=
  let n := hist_count self in
  if bool_decide (n = 0) then of_int 0 else f_div (of_int (hist_sum self)) (of_int n).
(** [(p * n as f64).ceil() as u64]. *)
Definition percentile_target (p : f64) (n : Z) : Z := ceil_u64 (f_mul p (of_int n)).
Definition hist_percentile (self : Log2Hist) (p : f64) : Z := percentile self (percentile_target p).

(** [100.0 * a as f64 / d]. *)
Definition percent (a : Z) (d : f64) : f64 := f_div (f_mul (of_int 100) (of_int a)) d.

Definition bucket_line (n : Z) (entry : nat * Z) : list line :=
  let '(k, c) := entry in
  if bool_decide (c = 0) then []
  else
    let lo := Z.shiftl 1 (Z.of_nat k) in
    let hi := saturating_mul 64 lo 2 in
    [[Txt "    2^"; Arg (Left 2) (AInt (Z.of_nat k)); Txt " ("; Arg (Right 10) (AInt lo); Txt ".."; Arg (Left 10) (AInt hi);
      Txt "): "; Arg (Right 10) (AInt c); Txt "  ("; fix_ 2 (percent c (of_int n)); Txt "%)"]].
Definition hist_print (self : Log2Hist) (label : string) : list line :=
  let n := hist_count self in
  if bool_decide (n = 0) then [[Txt label; Txt ": (empty)"]]
  else
    [[Txt label; Txt ": n="; int n; Txt " mean="; fix_ 1 (hist_mean self); Txt " max="; int (hist_max self);
      Txt " p50="; int (hist_percentile self (lit 50 100)); Txt " p90="; int (hist_percentile self (lit 90 100));
      Txt " p99="; int (hist_percentile self (lit 99 100)); Txt " p99.9="; int (hist_percentile self (lit 999 1000));
      Txt " p99.99="; int (hist_percentile self (lit 9999 10000))];
     [Txt "  log2 histogram (bucket k = offsets in [2^k, 2^(k+1))):"]] ++
    (if bool_decide (0 < zeros self) then
       [[Txt "    0        : "; Arg (Right 10) (AInt (zeros self)); Txt "  ("; fix_ 2 (percent (zeros self) (of_int n)); Txt "%)"]]
     else []) ++
    (imap pair (buckets self) ≫= bucket_line n).

(** ** The codecs *)

(** [bits as f64 / 8.0 / n]. *)
Definition bytes_per_value (bits : Z) (n : f64) : f64 := f_div (f_div (of_int bits) (of_int 8)) n.

Definition print_codec (self : CodecEstimate) (label : string) : list line :=
  if bool_decide (es_values self = 0) then [[Txt label; Txt ": (empty)"]]
  else
    let n := of_int (es_values self) in
    let best := best_rice self in
    let escaped := best_escaped_rice self in
    [[Txt label; Txt ":"];
     [Txt "  values:             "; int (es_values self)];
     [Txt "  LEB128:             "; int (es_leb128_bytes self); Txt " bytes ("; fix_ 3 (f_div (of_int (es_leb128_bytes self)) n);
      Txt " bytes/value)"];
     [Txt "  Elias delta:        "; int (es_elias_delta_bits self); Txt " bits ("; fix_ 3 (bytes_per_value (es_elias_delta_bits self) n);
      Txt " bytes/value)"];
     [Txt "  Golomb-Rice best:   k="; int (Z.of_nat (rc_k best)); Txt " M="; int (Z.shiftl 1 (Z.of_nat (rc_k best))); Txt " ";
      int (rc_bits best); Txt " bits ("; fix_ 3 (bytes_per_value (rc_bits best) n); Txt " bytes/value)"];
     [Txt "  Rice+LEB128 escape: threshold="; int (ec_threshold escaped); Txt " k="; int (Z.of_nat (ec_k escaped)); Txt " ";
      int (ec_bits escaped); Txt " bits ("; fix_ 3 (bytes_per_value (ec_bits escaped) n); Txt " bytes/value)"]] ++
    hist_print (es_hist self) label.

Definition per_block_line (what : string) (bits values : Z) : list line :=
  if bool_decide (0 < values) then
    [[Txt "  per-block Rice best on "; Txt what; Txt " (+"; int PER_BLOCK_RICE_K_OVERHEAD_BITS; Txt " bits/block k): "; int bits;
      Txt " bits ("; fix_ 3 (bytes_per_value bits (of_int values)); Txt " bytes/value)"]]
  else [].
Definition print_sorted (self : SortedUidCodecStats) (label : string) : list line :=
  let values := of_int (Z.max (es_values (su_combined self)) 1) in
  [[Txt label; Txt ":"];
   [Txt "  blocks with spends: "; int (su_blocks_with_spends self)];
   [Txt "  Elias-Fano + 64-bit base: "; int (su_ef_bits_with_64bit_base self); Txt " bits (";
    fix_ 3 (bytes_per_value (su_ef_bits_with_64bit_base self) values); Txt " bytes/value)"]] ++
  per_block_line "deltas" (su_delta_best_bits self) (es_values (su_deltas self)) ++
  per_block_line "combined" (su_combined_best_bits self) (es_values (su_combined self)) ++
  print_codec (su_first_offsets self) "  first offset from block_anchor_last_uid" ++
  print_codec (su_deltas self) "  sorted intra-block deltas" ++
  print_codec (su_combined self) "  combined first-offset + deltas".

(** ** The summary of a run *)
Definition table_row (denom : f64) (name : string) (n : Z) : line :=
  [Txt "  "; Arg (Left 12) (AStr (ascii_bytes name)); Txt " "; Arg (Right 10) (AInt n); Txt "  ("; fix_ 2 (percent n denom); Txt "%)"].
Definition print_script_type_table (label : string) (c : TypeCounts) (total : Z) : list line :=
  let row := table_row (of_int (Z.max total 1)) in
  [[Txt label; Txt ": total="; int total];
   row "p2pk"%string (c_p2pk c); row "p2pkh"%string (c_p2pkh c); row "p2sh"%string (c_p2sh c);
   row "p2wpkh"%string (c_p2wpkh c); row "p2wsh"%string (c_p2wsh c); row "p2tr"%string (c_p2tr c);
   row "p2a"%string (c_p2a c); row "op_return"%string (c_op_return c); row "unknown"%string (c_unknown c)].

(** The sum of the counters, a [u64]. *)
Definition total_inputs (c : TypeCounts) : Z :=
  foldl (λ a b, wrap 64 (a + b)) (c_p2pk c)
    [c_p2pkh c; c_p2sh c; c_p2wpkh c; c_p2wsh c; c_p2tr c; c_p2a c; c_op_return c; c_unknown c].

(** [{label}{n} ({100.0 * n as f64 / d:.prec}{tail}]. *)
Definition share (label : string) (n : Z) (prec : nat) (d : f64) (tail : string) : line :=
  [Txt label; int n; Txt " ("; fix_ prec (percent n d); Txt tail].

Definition print_report (self : Stats) : list line :=
  let p2tr_denom := of_int (Z.max (st_p2tr_spends self) 1) in
  [[];
   [Txt "==== Scan Summary ===="];
   [Txt "Total outputs:       "; int (st_outputs self)];
   [Txt "  P2TR outputs:      "; int (st_p2tr_outputs self)];
   share "  P2TR reused:       " (st_p2tr_reused self) 1 (of_int (Z.max (st_p2tr_outputs self) 1)) "%)";
   [Txt "Total spends:        "; int (st_spends self)];
   [Txt "P2TR spends:         "; int (st_p2tr_spends self)];
   share "  Key-path:          " (st_p2tr_keypath_spends self) 1 p2tr_denom "%)";
   share "  Script-path:       " (st_p2tr_scriptpath_spends self) 1 p2tr_denom "%)";
   share "    NUMS internal key:    " (st_p2tr_nums_spends self) 2 p2tr_denom "%)";
   share "    Inscriptions (any):   " (st_p2tr_inscription_spends self) 2 p2tr_denom "%)";
   share "    NUMS ∩ inscription:   " (st_p2tr_nums_and_inscription_spends self) 2 p2tr_denom "%)";
   share "  SP-eligible:       " (st_p2tr_sp_eligible_spends self) 1 p2tr_denom "%)";
   [];
   [Txt "Same-tx spends (canary, should be 0):"];
   [Txt "  all:               "; int (st_same_tx_spends self)];
   [Txt "  P2TR:              "; int (st_p2tr_same_tx_spends self)];
   [Txt "Same-block spends (later tx, same block):"];
   share "  all:               " (st_same_block_spends self) 2 (of_int (Z.max (st_spends self) 1)) "% of spends)";
   share "  P2TR:              " (st_p2tr_same_block_spends self) 2 p2tr_denom "% of P2TR spends)";
   [];
   [Txt "SP-ineligible txs:   "; int (st_nonsp_txs self); Txt " (all P2TR inputs NUMS, no other input types)"];
   share "  Their outputs:     " (st_nonsp_tx_outputs self) 2 (of_int (Z.max (st_outputs self) 1)) "% of all outputs, filterable)";
   []] ++
  print_script_type_table "Outputs by script type" (st_script_outputs self) (st_outputs self) ++
  print_script_type_table "Inputs by spent script type" (st_script_inputs self) (total_inputs (st_script_inputs self)) ++
  [[]; [Txt "==== Spent-ID Sorted Delta Encoding ===="]] ++
  print_sorted (st_sorted_spent_ids self) "All spends" ++
  [[]] ++
  print_sorted (st_sorted_p2tr_spent_ids self) "P2TR spends".

(** ** Counters in their width *)
Definition u64s (l : list Z) : Prop := Forall (in_width 64) l.

Record hist_typed (h : Log2Hist) : Prop := {
  ht_zeros : in_width 64 (zeros h);
  ht_buckets : u64s (buckets h);
  ht_sum : in_width 128 (hist_sum h)
}.
Record estimate_typed (e : CodecEstimate) : Prop := {
  et_values : in_width 64 (es_values e);
  et_leb : in_width 128 (es_leb128_bytes e);
  et_elias : in_width 128 (es_elias_delta_bits e);
  et_rice : Forall (in_width 128) (es_rice_bits_by_k e);
  et_escaped : Forall (Forall (in_width 128)) (es_escaped_rice_bits e);
  et_hist : hist_typed (es_hist e)
}.
Record sorted_typed (s : SortedUidCodecStats) : Prop := {
  so_ef : in_width 128 (su_ef_bits_with_64bit_base s);
  so_delta : in_width 128 (su_delta_best_bits s);
  so_best : in_width 128 (su_combined_best_bits s);
  so_first : estimate_typed (su_first_offsets s);
  so_deltas : estimate_typed (su_deltas s);
  so_combined : estimate_typed (su_combined s)
}.
Definition counts_list (c : TypeCounts) : list Z :=
  [c_p2pk c; c_p2pkh c; c_p2sh c; c_p2wpkh c; c_p2wsh c; c_p2tr c; c_p2a c; c_op_return c; c_unknown c].
Record stats_typed (s : Stats) : Prop := {
  sy_counters : u64s [st_spends s; st_outputs s; st_p2tr_outputs s; st_p2tr_reused s; st_p2tr_spends s;
    st_p2tr_keypath_spends s; st_p2tr_scriptpath_spends s; st_p2tr_nums_spends s; st_p2tr_sp_eligible_spends s;
    st_p2tr_inscription_spends s; st_p2tr_nums_and_inscription_spends s; st_same_block_spends s;
    st_p2tr_same_block_spends s; st_nonsp_tx_outputs s];
  sy_outputs : u64s (counts_list (st_script_outputs s));
  sy_inputs : u64s (counts_list (st_script_inputs s));
  sy_sorted : sorted_typed (st_sorted_spent_ids s);
  sy_p2tr : sorted_typed (st_sorted_p2tr_spent_ids s)
}.

(** ** Nothing prints an infinite number *)
Definition printable (p : piece) : Prop := match p with Arg _ (AFix _ x) => is_finite x | _ => True end.
Definition prints_numbers (report : list line) : Prop := Forall (Forall printable) report.

Definition divisor (d : f64) : Prop := strictly 1 65 d.
Lemma divisor_of n : in_width 64 n → n ≠ 0 → divisor (of_int n).
Proof. intros H Hn. unfold in_width in H. apply (of_int_strictly n 64); lia. Qed.
Lemma divisor_max n : in_width 64 n → divisor (of_int (Z.max n 1)).
Proof. intros H. unfold in_width in H. apply (of_int_strictly _ 64); lia. Qed.

Lemma percent_finite a d : in_width 64 a → divisor d → is_finite (percent a d).
Proof.
  intros Ha Hd. eapply fin_finite, f_div_fin; [|exact Hd|..].
  - eapply f_mul_fin; [apply (of_int_fin a 64); [lia|exact Ha]|apply (of_int_strictly 100 7); lia|lia..].
  - lia.
  - lia.
Qed.
Lemma ratio_finite a d : in_width 128 a → divisor d → is_finite (f_div (of_int a) d).
Proof.
  intros Ha Hd. eapply fin_finite, f_div_fin; [apply (of_int_fin a 128); [lia|exact Ha]|exact Hd|lia..].
Qed.
Lemma bytes_per_value_finite a d : in_width 128 a → divisor d → is_finite (bytes_per_value a d).
Proof.
  intros Ha Hd. eapply fin_finite, f_div_fin; [|exact Hd|..].
  - eapply f_div_fin; [apply (of_int_fin a 128); [lia|exact Ha]|apply (of_int_strictly 8 4); lia|lia..].
  - lia.
  - lia.
Qed.
#[export] Hint Resolve percent_finite ratio_finite bytes_per_value_finite divisor_of divisor_max : reports.

(** Splits a report into its pieces; what is left are its numbers. *)
Ltac pieces :=
  repeat match goal with
  | |- prints_numbers (_ ++ _) => apply Forall_app; split
  | |- prints_numbers _ => unfold prints_numbers
  | |- Forall _ (_ ++ _) => apply Forall_app; split
  | |- Forall _ [] => constructor
  | |- Forall _ (_ :: _) => constructor
  | |- printable _ => first [exact I | cbn [printable fix_]]
  end.

Lemma share_prints label n prec d tail : in_width 64 n → divisor d → Forall printable (share label n prec d tail).
Proof. intros Hn Hd. unfold share. pieces. by apply percent_finite. Qed.
Lemma table_prints label c total : u64s (counts_list c) → in_width 64 total →
  prints_numbers (print_script_type_table label c total).
Proof.
  intros Hc Ht. unfold u64s, counts_list in Hc. apply divisor_max in Ht.
  repeat apply Forall_cons in Hc as [? Hc]. unfold print_script_type_table, table_row.
  pieces; by apply percent_finite.
Qed.
Lemma total_inputs_width c : in_width 64 (total_inputs c).
Proof. unfold total_inputs. cbn [foldl]. by apply wrap_width. Qed.

Lemma hist_prints h label : hist_typed h → prints_numbers (hist_print h label).
Proof.
  intros [Hz Hb Hs]. unfold hist_print. destruct (bool_decide _) eqn:E; [pieces|].
  apply bool_decide_eq_false in E.
  assert (Hd : divisor (of_int (hist_count h))) by (apply divisor_of; [by apply wrap_width|done]).
  pieces.
  - unfold hist_mean. rewrite bool_decide_false by done. by apply ratio_finite.
  - destruct (bool_decide _); pieces. by apply percent_finite.
  - apply Forall_forall. intros l Hl. apply list_elem_of_bind in Hl as ([k c] & Hl & Hin).
    apply elem_of_lookup_imap_1 in Hin as (i & c' & [= -> ->] & Hi). unfold bucket_line in Hl.
    destruct (bool_decide (c' = 0)); [by apply not_elem_of_nil in Hl|].
    apply list_elem_of_singleton in Hl as ->. pieces. apply percent_finite; [|done].
    eapply Forall_lookup_1; [exact Hb|exact Hi].
Qed.

Lemma best_of_width rows best : Forall (λ e, in_width 128 e.2) rows → in_width 128 (rc_bits best) →
  in_width 128 (rc_bits (foldl best_of best rows)).
Proof.
  intros Hr. revert best. induction Hr as [|e rows He Hr IH]; intros best Hb; [done|]. cbn [foldl]. apply IH.
  unfold best_of. by destruct (bool_decide _).
Qed.
Lemma best_rice_width e : estimate_typed e → in_width 128 (rc_bits (best_rice e)).
Proof.
  intros He. unfold best_rice. destruct (bool_decide _); [done|]. apply best_of_width; [|done].
  apply Forall_forall. intros x Hx. apply elem_of_lookup_imap_1 in Hx as (i & b & -> & Hi).
  eapply (Forall_lookup_1 _ _ _ _ (et_rice _ He)), Hi.
Qed.
Lemma best_escaped_of_width rows best : Forall (λ e, in_width 128 e.2.2) rows → in_width 128 (ec_bits best) →
  in_width 128 (ec_bits (foldl best_escaped_of best rows)).
Proof.
  intros Hr. revert best. induction Hr as [|[t [k b]] rows He Hr IH]; intros best Hb; [done|]. cbn [foldl]. apply IH.
  unfold best_escaped_of. by destruct (bool_decide _).
Qed.
Lemma best_escaped_width e : estimate_typed e → in_width 128 (ec_bits (best_escaped_rice e)).
Proof.
  intros He. unfold best_escaped_rice. destruct (bool_decide _); [done|]. apply best_escaped_of_width; [|done].
  apply Forall_forall. intros [t kb] Hx. apply list_elem_of_bind in Hx as ([t' row] & Hx & Hrow).
  apply list_elem_of_fmap in Hx as (kb' & [= -> ->] & Hk).
  apply elem_of_lookup_imap_1 in Hk as (i & b & -> & Hi). cbn [snd].
  apply elem_of_zip_r in Hrow. pose proof (et_escaped _ He) as Hf. rewrite Forall_forall in Hf.
  specialize (Hf row Hrow). eapply Forall_lookup_1; [exact Hf|exact Hi].
Qed.

Lemma codec_prints e label : estimate_typed e → prints_numbers (print_codec e label).
Proof.
  intros He. unfold print_codec. destruct (bool_decide _) eqn:E; [pieces|]. apply bool_decide_eq_false in E.
  assert (Hd : divisor (of_int (es_values e))) by (apply divisor_of; [apply et_values|]; done).
  pieces; [by apply ratio_finite, Hd; apply et_leb|apply bytes_per_value_finite; [|exact Hd]..|by apply hist_prints, et_hist].
  - by apply et_elias.
  - by apply best_rice_width.
  - by apply best_escaped_width.
Qed.
Lemma per_block_prints what bits n : in_width 128 bits → in_width 64 n → prints_numbers (per_block_line what bits n).
Proof.
  intros Hb Hn. unfold per_block_line. destruct (bool_decide _) eqn:E; [|pieces].
  apply bool_decide_eq_true in E. pieces. apply bytes_per_value_finite; [done|]. apply divisor_of; [done|lia].
Qed.
Lemma sorted_prints s label : sorted_typed s → prints_numbers (print_sorted s label).
Proof.
  intros [He Hd Hb Hf Hdl Hc]. unfold print_sorted. pieces.
  - apply bytes_per_value_finite; [done|]. by apply divisor_max, et_values.
  - apply per_block_prints; [done|by apply et_values].
  - apply per_block_prints; [done|by apply et_values].
  - by apply codec_prints.
  - by apply codec_prints.
  - by apply codec_prints.
Qed.

(** ** Property *)

(** Whatever the counters of a run are, every float its report prints is a finite
    number: no percentage and no mean divides by zero or overflows. *)
Theorem report_prints_numbers (self : Stats) (Hty : stats_typed self) : prints_numbers (print_report self).
Proof.
  destruct Hty as [Hc Ho Hi Hs Hp]. unfold u64s in Hc. repeat apply Forall_cons in Hc as [? Hc].
  unfold print_report. pieces; try (apply share_prints; [done|by apply divisor_max]).
  - by apply table_prints.
  - apply table_prints; [done|apply total_inputs_width].
  - by apply sorted_prints.
  - by apply sorted_prints.
Qed.

(** A run with three outputs, a third of them reused taproot outputs. *)
Definition demo_hist : Log2Hist := foldl hist_record hist_default [0; 3; 9; 9; 1000].
Definition demo_stats : Stats := {|
  st_spends := 3; st_outputs := 7; st_p2tr_outputs := 3; st_p2tr_reused := 1; st_p2tr_spends := 3;
  st_p2tr_keypath_spends := 2; st_p2tr_scriptpath_spends := 1; st_p2tr_nums_spends := 1;
  st_p2tr_sp_eligible_spends := 2; st_p2tr_inscription_spends := 0; st_p2tr_nums_and_inscription_spends := 0;
  st_same_tx_spends := 0; st_p2tr_same_tx_spends := 0; st_same_block_spends := 1;
  st_p2tr_same_block_spends := 0; st_nonsp_txs := 1; st_nonsp_tx_outputs := 2;
  st_script_outputs := counts_default; st_script_inputs := counts_default;
  st_sorted_spent_ids := sorted_stats_default; st_sorted_p2tr_spent_ids := sorted_stats_default |}.
Example reused_line : show_line (share "  P2TR reused:       " 1 1 (of_int 3) "%)") =
  ascii_bytes "  P2TR reused:       1 (33.3%)" ++ [10].
Proof. vm_compute. reflexivity. Qed.
Example hist_first_line : show_line (default [] (hist_print demo_hist "gaps" !! 0%nat)) =
  ascii_bytes "gaps: n=5 mean=204.2 max=1000 p50=15 p90=1023 p99=1023 p99.9=1023 p99.99=1023" ++ [10].
Proof. vm_compute. reflexivity. Qed.
Example hist_bucket_line : show_line (default [] (hist_print demo_hist "gaps" !! 4%nat)) =
  ascii_bytes "    2^3  (         8..16        ):          2  (40.00%)" ++ [10].
Proof. vm_compute. reflexivity. Qed.

Lemma demo_stats_typed : stats_typed demo_stats.
Proof.
  assert (H0 : ∀ w, 0 ≤ w → in_width w 0) by (intros w Hw; unfold in_width; lia).
  assert (H64 : ∀ n l, 0 ≤ n < 100 → u64s l → u64s (n :: l)) by (intros; constructor; [unfold in_width; lia|done]).
  assert (Hh : hist_typed hist_default) by (constructor; [by apply H0|by apply Forall_replicate, H0|by apply H0]).
  assert (He : estimate_typed estimate_default).
  { constructor; [by apply H0..|by apply Forall_replicate, H0| |exact Hh].
    by apply Forall_replicate, Forall_replicate, H0. }
  assert (Hs : sorted_typed sorted_stats_default) by (constructor; [by apply H0..|exact He|exact He|exact He]).
  constructor; [..|exact Hs|exact Hs]; repeat (apply H64; [cbn; lia|]); constructor.
Qed.
Lemma report_prints_numbers_witness :
  prints_numbers (print_report demo_stats) ∧ length (print_report demo_stats) = 59%nat.
Proof. split; [apply (report_prints_numbers demo_stats demo_stats_typed)|vm_compute; reflexivity]. Defined.
