(* ===== verification/FetchMain.v ===== *)
(** * The crate [cli]

    The command [btc-data] and the simulation of spend delays.  The command is a model of [main] in [cli/src/main.rs]: the blocks of a range are streamed from the
    source of [SourceBuild] in batches, counted and weighed.  Timing, progress lines and
    the parsing of the arguments are not modelled. *)

From S2P Require Import Prelude UndoPayload Decimal Tasks JsonWire Sources MultiSource LightIndexerToy BlockStats Text Node RestSource RpcSource RpcAuth EsploraSource IpcSource MultiServes SourceBuild ToyNode F64 Report.

(** The loop over the stream: blocks and bytes so far, both [u64]. *)
Definition fetch_item (acc : Z * Z) (item : res RawBlockFrame) : res (Z * Z) :=
  let '(count, bytes) := acc in
  frame ← item;
  Ok (wrap 64 (count + 1), wrap 64 (bytes + len (rf_bytes frame))).
Definition fetch_stream (stream : list (res RawBlockFrame)) : res (Z * Z) := fold_res fetch_item (0, 0) stream.

Section command.
Context `{HX : Hex, HD : !HexDecode, SC : !Scheduler, BK : !Backends}.

(** The command has its own copy of [build_source], the same text. *)
Definition fetch_build_source (env : Env) (ipc_feature : bool) (il : Interleaving) (args : SourceArgs) : res BlockSource :=
  build_source env ipc_feature il args.
Definition fetch_main (env : Env) (ipc_feature : bool) (il : Interleaving) (args : SourceArgs) (start blocks source_batch_size : Z) : res (Z * Z) :=
  source ← fetch_build_source env ipc_feature il args;
  fetch_stream (raw_block_stream_by_height_batched source start blocks source_batch_size).
End command.

(** ** The stream of a source that tells the chain *)
Section stream.
Context (chain : Z → NodeBlock) (tip : Z).

Lemma bind_streams {A} (g : A → list (res RawBlockFrame)) (hs : A → list Z) l :
  (∀ x, x ∈ l → ∃ fs, g x = Ok <$> fs ∧ Forall2 (frame_of chain) (hs x) fs) →
  ∃ fs, l ≫= g = Ok <$> fs ∧ Forall2 (frame_of chain) (l ≫= hs) fs.
Proof.
  induction l as [|x l IH]; intros H; [by exists []; split; [|constructor]|].
  destruct (H x ltac:(left)) as (f1 & E1 & F1). destruct IH as (f2 & E2 & F2); [intros; apply H; by right|].
  exists (f1 ++ f2). rewrite !bind_cons, E1, E2, fmap_app. split; [done|by apply Forall2_app].
Qed.

(** Batches or not, the stream holds the blocks of the range in height order. *)
Lemma tells_stream source start count batch_size : tells chain tip source → 0 ≤ start → 0 ≤ count → start + count ≤ tip + 1 → tip < 2 ^ 63 →
  ∃ fs, raw_block_stream_by_height_batched source start count batch_size = Ok <$> fs ∧ Forall2 (frame_of chain) (seqZ start count) fs.
Proof.
  intros Ht Hs Hc Hle Htip. unfold raw_block_stream_by_height_batched. set (b := Z.max batch_size 1). assert (Hb : 0 < b) by lia. unfold batch_count.
  destruct (decide (count = 0)) as [->|Hc0]; [rewrite bool_decide_true by done; exists []; by split; [|constructor]|].
  rewrite bool_decide_false by done. destruct (div_ceil_bounds count b) as [Hd Hd0]; [lia..|]. set (k := Z.to_nat (div_ceil count b)).
  replace (div_ceil count b) with (Z.of_nat k) in * by lia.
  pose proof (batches_tile start count b k Hs Hb ltac:(lia) ltac:(lia) Hc) as Htile. rewrite Z.min_r in Htile by lia. rewrite <-Htile.
  apply bind_streams. intros i Hi%elem_of_seqZ. unfold batch_of. assert (0 ≤ i * b < count) as Hx by nia. revert Hx. generalize (i * b) as x. intros x Hx.
  rewrite (wrap_small 64 x), (wrap_small 64 (start + x)), (wrap_small 64 (start + count)), wrap_small by (unfold in_width; lia).
  destruct (Ht _ (RRange (start + x) (Z.to_nat (Z.min (start + count - (start + x)) b)))) as (fs & E & Hf); [cbn [about_chain]; lia|].
  cbn [ask] in E. cbn [right] in Hf. rewrite Z2Nat.id in Hf by lia. exists fs. by rewrite E.
Qed.

Definition bytes_of (h : Z) : Z := len (nb_bytes (chain h)).
Definition total (l : list Z) : Z := foldr Z.add 0 l.

Lemma fetch_frames hs fs : Forall2 (frame_of chain) hs fs → ∀ count bytes,
  fold_res fetch_item (count, bytes) (Ok <$> fs) =
    Ok (if bool_decide (hs = []) then (count, bytes) else (wrap 64 (count + len hs), wrap 64 (bytes + total (bytes_of <$> hs)))).
Proof.
  induction 1 as [|h f hs fs [_ _ Hb _] _ IH]; intros count bytes; [done|]. rewrite fmap_cons.
  change (fold_res fetch_item (count, bytes) (Ok f :: (Ok <$> fs))) with
    (fold_res fetch_item (wrap 64 (count + 1), wrap 64 (bytes + len (rf_bytes f))) (Ok <$> fs)).
  rewrite IH, (bool_decide_false (h :: hs = [])) by (intros; discriminate).
  change (total (bytes_of <$> h :: hs)) with (bytes_of h + total (bytes_of <$> hs)). rewrite Hb. fold (bytes_of h).
  case_bool_decide as E.
  - subst hs. change (total (bytes_of <$> [])) with 0. by rewrite Z.add_0_r.
  - unfold wrap. rewrite !Zplus_mod_idemp_l.
    replace (count + 1 + len hs) with (count + len (h :: hs)) by (cbn [length]; lia). by rewrite Z.add_assoc.
Qed.
End stream.

(** C24: [btc-data] over honest nodes: for a range below the tip it ends without an error
    and reports the number of blocks asked for and the sum of their sizes, whatever the
    interfaces of the nodes, the batch size and the interleaving of the requests. *)
Theorem fetch_main_totals `{HX : Hex, HD : !HexDecode, SC : !Scheduler, BK : !Backends}
    (chain : Z → NodeBlock) (tip : Z) (env : Env) (ipc_feature : bool) (il : Interleaving) (args : SourceArgs) (start blocks batch_size : Z) :
  node_wf chain tip → honest_backends env ipc_feature il chain tip args → 0 ≤ start → 0 ≤ blocks → start + blocks ≤ tip + 1 →
  total (bytes_of chain <$> seqZ start blocks) < 2 ^ 64 →
  fetch_main env ipc_feature il args start blocks batch_size = Ok (blocks, total (bytes_of chain <$> seqZ start blocks)).
Proof.
  intros wf Hh Hs Hb Hle Hw. destruct (nw_tip _ _ wf) as [Ht0 Ht1]. assert (2 ^ 31 < 2 ^ 63) by done. assert (2 ^ 63 < 2 ^ 64) by done.
  destruct (build_source_tells env ipc_feature il chain tip args wf Hh) as (source & E & Ht). unfold fetch_main, fetch_build_source. rewrite E. rsimpl.
  destruct (tells_stream chain tip source start blocks batch_size Ht Hs Hb Hle ltac:(lia)) as (fs & -> & Hf).
  unfold fetch_stream. rewrite (fetch_frames chain _ fs Hf). case_bool_decide as En.
  { rewrite En. apply (f_equal length) in En. rewrite length_seqZ in En. cbn in *. do 2 f_equal. lia. }
  assert (0 ≤ total (bytes_of chain <$> seqZ start blocks)).
  { generalize (seqZ start blocks). intros l. unfold total, bytes_of. induction l as [|h l IH]; cbn [fmap list_fmap foldr] in *; lia. }
  rewrite length_seqZ, !Z.add_0_l, !wrap_small by (unfold in_width; lia). do 2 f_equal. lia.
Qed.

(** ** The witness: the eight blocks of the concrete node in batches of three *)
Lemma fetch_main_totals_witness :
  fetch_main toy_env true toy_interleaving toy_source_args 0 8 3 = Ok (8, total (bytes_of toy_node <$> seqZ 0 8)).
Proof.
  apply (fetch_main_totals toy_node toy_tip toy_env true toy_interleaving toy_source_args 0 8 3 toy_node_wf toy_honest); vm_compute; congruence.
Defined.

(** * The spend-delay simulation

    Model of [cli/src/simulation.rs]: the xorshift generator, the distribution of spend
    delays and the run that counts them.  No module of the crate declares the file, so
    it is not compiled; the model shows what it would do.

    The generator permutes the non-zero states and every delay it draws is in its range;
    one seed is mapped to the zero state, which the generator never leaves. *)

Definition SEED_MASK : Z := 0x9e3779b97f4a7c15.
(** [Xorshift64]: its state. *)
Definition rng_new (seed : Z) : Z := Z.lxor seed SEED_MASK.
(** [x ^= x << k] and [x ^= x >> k] on a [u64]. *)
Definition xor_shl (k x : Z) : Z := Z.lxor x (wrap 64 (Z.shiftl x k)).
Definition xor_shr (k x : Z) : Z := Z.lxor x (Z.shiftr x k).
Definition rng_next (state : Z) : Z :=
  let x := xor_shl 13 state in
  let x := xor_shr 7 x in
  xor_shl 17 x.
(** [f64] and [range]: the draw and the new state. *)
Definition rng_f64 (state : Z) : f64 * Z :=
  let state := rng_next state in (f_div (of_int (Z.shiftr state 11)) (of_int (Z.shiftl 1 53)), state).
Definition rng_range (state lo hi : Z) : Z * Z :=
  let state := rng_next state in (lo + state mod (hi - lo), state).

Definition sample_delay_ids (state : Z) : option Z * Z :=
  let '(p, state) := rng_f64 state in
  if f_ltb p (lit 5 100) then (None, state)
  else
    let '(p, state) := rng_f64 state in
    let '(lo, hi) :=
      if f_ltb p (lit 30 100) then (1, 100)
      else if f_ltb p (lit 65 100) then (100, 3000)
      else if f_ltb p (lit 85 100) then (3000, 50000)
      else if f_ltb p (lit 95 100) then (50000, 500000)
      else (500000, 10000000) in
    let '(delay, state) := rng_range state lo hi in (Some delay, state).

(** The loop: one output, and a spend if a delay is drawn. *)
Definition count_output (stats : Stats) : Stats := {|
  st_spends := st_spends stats; st_outputs := inc (st_outputs stats); st_p2tr_outputs := st_p2tr_outputs stats;
  st_p2tr_reused := st_p2tr_reused stats; st_p2tr_spends := st_p2tr_spends stats;
  st_p2tr_keypath_spends := st_p2tr_keypath_spends stats; st_p2tr_scriptpath_spends := st_p2tr_scriptpath_spends stats;
  st_p2tr_nums_spends := st_p2tr_nums_spends stats; st_p2tr_sp_eligible_spends := st_p2tr_sp_eligible_spends stats;
  st_p2tr_inscription_spends := st_p2tr_inscription_spends stats;
  st_p2tr_nums_and_inscription_spends := st_p2tr_nums_and_inscription_spends stats;
  st_same_tx_spends := st_same_tx_spends stats; st_p2tr_same_tx_spends := st_p2tr_same_tx_spends stats;
  st_same_block_spends := st_same_block_spends stats; st_p2tr_same_block_spends := st_p2tr_same_block_spends stats;
  st_nonsp_txs := st_nonsp_txs stats; st_nonsp_tx_outputs := st_nonsp_tx_outputs stats;
  st_script_outputs := st_script_outputs stats; st_script_inputs := st_script_inputs stats;
  st_sorted_spent_ids := st_sorted_spent_ids stats; st_sorted_p2tr_spent_ids := st_sorted_p2tr_spent_ids stats |}.
Definition simulate_one (stats : Stats) (rng : Z) : Stats * Z :=
  let stats := count_output stats in
  let '(delay, rng) := sample_delay_ids rng in
  (match delay with Some _ => record_spend Earlier stats | None => stats end, rng).
Fixpoint simulate (n : nat) (stats : Stats) (rng : Z) : Stats :=
  match n with
  | O => stats
  | S n => let '(stats, rng) := simulate_one stats rng in simulate n stats rng
  end.
Definition run (num_outputs seed : Z) : Stats * list line :=
  let stats := simulate (Z.to_nat num_outputs) stats_new (rng_new seed) in (stats, print_report stats).

(** ** The generator *)
Lemma xor_shl_width k x : in_width 64 x → in_width 64 (xor_shl k x).
Proof.
  intros Hx. unfold xor_shl. pose proof (wrap_width 64 (Z.shiftl x k) ltac:(lia)) as Hw. unfold in_width in *.
  split; [apply Z.lxor_nonneg; lia|]. apply Z.log2_lt_cancel. eapply Z.le_lt_trans; [apply Z.log2_lxor; lia|].
  rewrite Z.log2_pow2 by lia.
  assert (∀ y, 0 ≤ y < 2 ^ 64 → Z.log2 y < 64) as Hl.
  { intros y Hy. destruct (decide (y = 0)) as [->|]; [done|]. apply Z.log2_lt_pow2; lia. }
  apply Z.max_lub_lt; by apply Hl.
Qed.
Lemma xor_shr_width k x : 0 ≤ k → in_width 64 x → in_width 64 (xor_shr k x).
Proof.
  intros Hk Hx. unfold xor_shr, in_width in *. rewrite Z.shiftr_div_pow2 by done.
  assert (0 ≤ x / 2 ^ k ≤ x) by (split; [apply Z.div_pos; lia|apply Z.div_le_upper_bound; nia]).
  split; [apply Z.lxor_nonneg; lia|]. apply Z.log2_lt_cancel. eapply Z.le_lt_trans; [apply Z.log2_lxor; lia|].
  rewrite Z.log2_pow2 by lia. assert (Z.log2 (x / 2 ^ k) ≤ Z.log2 x) by (apply Z.log2_le_mono; lia).
  destruct (decide (x = 0)) as [->|]; [rewrite Z.div_0_l by lia; done|].
  assert (Z.log2 x < 64) by (apply Z.log2_lt_pow2; lia). lia.
Qed.

(** The shifts are injective at zero: a lowest bit survives. *)
Lemma xor_shl_zero k x : 0 < k → xor_shl k x = 0 → x = 0.
Proof.
  intros Hk H. apply Z.lxor_eq in H. apply Z.bits_inj_0. intros i.
  destruct (decide (i < 0)) as [Hi|Hi]; [by apply Z.testbit_neg_r|].
  apply (Z_lt_induction (λ i, Z.testbit x i = false)); [|lia]. clear i Hi. intros i IH.
  destruct (decide (i < 0)) as [Hi|Hi]; [by apply Z.testbit_neg_r|].
  rewrite H. unfold wrap. destruct (decide (i < 64)) as [Hlt|Hge].
  - rewrite Z.mod_pow2_bits_low, Z.shiftl_spec by lia.
    destruct (decide (i < k)) as [?|?]; [apply Z.testbit_neg_r; lia|apply IH; lia].
  - apply Z.mod_pow2_bits_high; lia.
Qed.
Lemma xor_shr_zero k x : 0 < k → 0 ≤ x → xor_shr k x = 0 → x = 0.
Proof.
  intros Hk Hx H. apply Z.lxor_eq in H. rewrite Z.shiftr_div_pow2 in H by lia.
  destruct (decide (x = 0)) as [?|Hne]; [done|]. assert (x / 2 ^ k < x); [|lia].
  apply Z.div_lt; [lia|]. apply Z.pow_gt_1; lia.
Qed.

(** ** Properties *)

(** The generator never reaches zero from another state: it keeps drawing. *)
Theorem rng_never_stuck (x : Z) (Hx : in_width 64 x) (Hn : x ≠ 0) :
  rng_next x ≠ 0 ∧ in_width 64 (rng_next x).
Proof.
  unfold rng_next. pose proof (xor_shl_width 13 x Hx) as H1. pose proof (xor_shr_width 7 _ ltac:(lia) H1) as H2.
  split; [|by apply xor_shl_width]. intros H. apply xor_shl_zero in H; [|lia].
  apply xor_shr_zero in H; [|lia|unfold in_width in H1; lia]. by apply xor_shl_zero in H.
Qed.
Lemma rng_never_stuck_witness : rng_next 1 ≠ 0 ∧ in_width 64 (rng_next 1).
Proof. apply (rng_never_stuck 1); [unfold in_width; lia|lia]. Defined.

(** Every delay is in the range of its case. *)
Theorem delay_in_range (state state' d : Z) (H : sample_delay_ids state = (Some d, state')) : 1 ≤ d < 10000000.
Proof.
  unfold sample_delay_ids in H. destruct (rng_f64 state) as [p s1]. destruct (f_ltb p _); [done|].
  destruct (rng_f64 s1) as [q s2]. unfold rng_range in H.
  destruct (f_ltb q (lit 30 100)); [|destruct (f_ltb q (lit 65 100)); [|destruct (f_ltb q (lit 85 100)); [|destruct (f_ltb q _)]]];
    injection H as <- <-;
    match goal with |- 1 ≤ _ + ?a mod ?b < _ => pose proof (Z.mod_pos_bound a b ltac:(lia)); lia end.
Qed.
Lemma delay_in_range_witness : ∃ d, (sample_delay_ids (rng_new 1)).1 = Some d ∧ 1 ≤ d < 10000000.
Proof.
  destruct (sample_delay_ids (rng_new 1)) as [[d|] s] eqn:E; [|vm_compute in E; discriminate E].
  exists d. split; [done|]. apply (delay_in_range (rng_new 1) s d E).
Defined.

(** The seed that is the mask itself: the state is zero for good, every output is one of
    the never spent five per cent. *)
Lemma stuck_at_zero n stats : st_spends (simulate n stats 0) = st_spends stats.
Proof.
  revert stats. induction n as [|n IH]; intros stats; [done|]. cbn [simulate]. unfold simulate_one.
  assert (sample_delay_ids 0 = (None, 0)) as -> by (vm_compute; reflexivity). by rewrite IH.
Qed.
Theorem mask_seed_spends_nothing (num_outputs : Z) : st_spends (run num_outputs SEED_MASK).1 = 0.
Proof. unfold run. cbn [fst]. unfold rng_new. rewrite Z.lxor_nilpotent. apply stuck_at_zero. Qed.

(** With another seed most outputs are spent. *)
Example simulation_spends : (λ s, (st_outputs s, st_spends s)) (run 200 7).1 = (200, 192).
Proof. vm_compute. reflexivity. Qed.
