(* ===== verification/IndexerMain.v ===== *)
(** * The command [light-indexer]

    The command line of [light-server/src/bin/light_indexer.rs]: the bundle of a block
    source, a tip watcher and an undo source, the [run] command over it, and the three
    commands that ask a source one question.  What the commands print is their result;
    of the tracing, [LightIndexerFacts] has the line of a range.  The [run] command makes one pass per tip signal: their
    number is an argument. *)

From S2P Require Import Prelude Bits Decimal Helper TaggedHash Bitmap SpentIds OutputHash LightBlock LightValid LightWire CutThrough UndoPayload P2trIndexer P2trFacts Indexer ScriptClassify SpTweak Kv IndexStore IndexerCache ArchiveBackend FileArchive JsonWire Profile Sources Tasks LightIndexer LightIndexerFacts LightIndexerSync LightIndexerRun Text Node MultiSource MultiServes RestSource RpcSource RpcAuth EsploraSource IpcSource SourceBuild LightIndexerToy ToyNode.

Inductive SourceKind := Ipc | Rest.
Record SourceCli := {
  cli_source : SourceKind; cli_ipc_socket : option bytes; cli_ipc_threads : nat; cli_rest_url : option bytes
}.
(** The watcher polls a source, or waits for a notification of a Core node. *)
Inductive TipWatcher := PollingTipWatcher (source : BlockSource) | IpcTipWatcher (client : ChainClient) (thread : nat).
Record SourceBundle := { sb_source : BlockSource; sb_watcher : TipWatcher; sb_undo_source : BlockSource }.

Section bundle.
Context `{HX : Hex, HD : !HexDecode, SC : !Scheduler, BK : !Backends}.
Context (il : Interleaving).

Definition build_ipc_bundle (self : SourceCli) : res SourceBundle :=
  socket ← ok_or (cli_ipc_socket self) "--ipc-socket is required when --source ipc is selected";
  rest_url ← ok_or (cli_rest_url self) "--rest-url is required when --source ipc is selected because undo data is fetched from /rest/spenttxouts";
  client ← bk_ipc socket (thread_pool (cli_ipc_threads self));
  Ok {| sb_source := ipc_source (CC := client) true (il_thread il socket) (ascii_bytes "ipc:" ++ socket);
        sb_watcher := IpcTipWatcher client (il_thread il socket);
        sb_undo_source := rest_source (rest_new rest_url) |}.
Definition build_bundle (self : SourceCli) : res SourceBundle :=
  match cli_source self with
  | Ipc => build_ipc_bundle self
  | Rest =>
      rest_url ← ok_or (cli_rest_url self) "--rest-url is required when --source rest is selected";
      let source := rest_source (rest_new rest_url) in
      Ok {| sb_source := source; sb_watcher := PollingTipWatcher source; sb_undo_source := source |}
  end.
Definition cli_build_source (self : SourceCli) : res BlockSource := sb_source <$> build_bundle self.

(** ** The three questions *)
Definition source_tip_command (self : SourceCli) : res (bytes * Z * bytes) :=
  src ← cli_build_source self;
  tip ← get_best_height src;
  hash ← get_block_hash src tip;
  Ok (source_name src, tip, display_hash hash).
(** The line and the file that is written. *)
Definition fetch_block_command (self : SourceCli) (height : Z) (output : bool) : res ((bytes * Z * bytes * Z) * option bytes) :=
  src ← cli_build_source self;
  frame ← get_block_by_height src height;
  Ok ((source_name src, rf_height frame, display_hash (rf_hash frame), len (rf_bytes frame)), if output then Some (rf_bytes frame) else None).
Definition fetch_range_command (self : SourceCli) (start_height : Z) (count : nat) : res (bytes * Z * Z * Z * Z) :=
  _ ← ensure (bool_decide (0 < count)%nat) "count must be greater than zero";
  src ← cli_build_source self;
  frames ← get_block_range_by_height src start_height count;
  let total_bytes := foldl (λ acc f, wrap 64 (acc + len (rf_bytes f))) 0 frames in
  let end_height := default start_height (rf_height <$> last frames) in
  Ok (source_name src, start_height, end_height, len frames, total_bytes).
End bundle.

(** ** Filling in the undo data *)
Section undo.
Context (chain : Z → NodeBlock) (tip : Z).
Abbreviation hash_at := (λ h, nb_hash (chain h)).
Abbreviation undo_at := (λ h, Some (nb_undo (chain h))).

Definition missing_from (k : nat) (frames : list RawBlockFrame) : list (nat * bytes) :=
  omap (λ '(i, f), match rf_spent_txouts f with None => Some (i, rf_hash f) | Some _ => None end) (imap (λ i f, ((k + i)%nat, f)) frames).
Definition fill (acc : list RawBlockFrame) (u : (nat * bytes) * option BlockSpentTxOuts) : list RawBlockFrame :=
  let '((i, _), undo) := u in alter (set_undo undo) i acc.

Lemma missing_from_cons k f frames : missing_from k (f :: frames) =
  match rf_spent_txouts f with None => (k, rf_hash f) :: missing_from (S k) frames | Some _ => missing_from (S k) frames end.
Proof.
  unfold missing_from. rewrite imap_cons. cbn [omap list_omap]. rewrite Nat.add_0_r.
  assert (imap (λ i f0, ((k + S i)%nat, f0)) frames = imap (λ i f0, ((S k + i)%nat, f0)) frames) as E by (apply imap_ext; intros i x _; f_equal; lia).
  unfold compose. rewrite E. by destruct (rf_spent_txouts f).
Qed.

Lemma fill_spec hs frames : Forall2 (frame_of chain) hs frames → ∀ pre,
  ∃ mhs, (missing_from (length pre) frames).*2 = hash_at <$> mhs ∧ (∀ h, h ∈ mhs → h ∈ hs) ∧
    foldl fill (pre ++ frames) (zip (missing_from (length pre) frames) (undo_at <$> mhs)) = pre ++ (frame_at chain true <$> hs).
Proof.
  induction 1 as [|h f hs frames [F1 F2 F3 F4] _ IH]; intros pre.
  { exists []. split; [done|]. split; [done|]. done. }
  rewrite missing_from_cons. destruct (rf_spent_txouts f) as [u|] eqn:Eu.
  - destruct (IH (pre ++ [f])) as (mhs & E1 & E2 & E3). rewrite length_app, Nat.add_1_r in E1, E3. exists mhs. split; [done|].
    split; [intros; right; by apply E2|]. rewrite <-!app_assoc in E3. cbn [app] in E3. rewrite E3, fmap_cons. do 2 f_equal.
    destruct F4 as [|[= ->]]; [done|]. unfold frame_at. destruct f. cbn in *. by subst.
  - destruct (IH (pre ++ [frame_at chain true h])) as (mhs & E1 & E2 & E3). rewrite length_app, Nat.add_1_r in E1, E3. exists (h :: mhs).
    split; [by rewrite !fmap_cons, E1, F2|]. split; [intros x [->|]%elem_of_cons; [left|right; by apply E2]|].
    rewrite fmap_cons. cbn [zip zip_with foldl fill]. rewrite <-!app_assoc in E3. cbn [app] in E3. rewrite fmap_cons, <-E3. f_equal.
    rewrite alter_app_r_alt, Nat.sub_diag by lia. cbn. do 2 f_equal. unfold set_undo, frame_at. by rewrite F1, F2, F3.
Qed.

(** Frames of the chain, completed by a source that knows the spent outputs. *)
Lemma attach_undo_ok undo_source hs frames : serves_chain chain tip true undo_source → Forall (in_chain tip) hs → Forall2 (frame_of chain) hs frames →
  attach_undo undo_source frames = Ok (frame_at chain true <$> hs).
Proof.
  intros Hs Hh Hf. destruct (fill_spec hs frames Hf []) as (mhs & E1 & E2 & E3). cbn [app length] in *.
  change (missing_from 0 frames) with (missing_undo frames) in *. unfold attach_undo. case_bool_decide as Em.
  { rewrite Em in E3. cbn in E3. by rewrite E3. }
  assert (Hm : mhs ≠ []) by (intros ->; apply Em; cbn in E1; by destruct (missing_undo frames)).
  rewrite E1, (sc_undos _ _ _ _ Hs) by (first [done|apply Forall_forall; intros h Hin; rewrite Forall_forall in Hh; by apply Hh, E2]).
  rsimpl. assert (length (missing_undo frames) = length mhs) as El.
  { apply (f_equal length) in E1. by rewrite !length_fmap in E1. }
  rewrite bool_decide_true by (by rewrite length_fmap). cbn [ensure]. rsimpl. f_equal. exact E3.
Qed.
End undo.

Section command.
Context `{HX : Hex, HD : !HexDecode, SD : !Scheduler, BK : !Backends, RB : !RustBitcoin, SC : !Secp, HH : !Hash160, ST : !ScriptTemplates, SH : !Sha256,
          KV : !KvStore, CL : !CapnpPacked light_block, CS : !CapnpPacked stored_light_block, MJ : !ManifestJson}.

(** [run]: the bundle, then the passes over it; the checks on the sizes come first. *)
Definition index_main (il : Interleaving) (cli : SourceCli) (file_archive : FileArchive) (index_store : Db) (network : ArchiveNetwork)
    (finality_depth catchup_batch_size flush_count memory_budget_mb : Z) (passes : nat) : FileArchive * Db * res (Z * P2trIndexerState) :=
  match (_ ← ensure (bool_decide (0 < catchup_batch_size)) "catchup_batch_size must be greater than zero";
         _ ← ensure (bool_decide (0 < flush_count)) "flush_blocks must be greater than zero";
         build_bundle il cli) with
  | Ok bundle =>
      run_command file_archive index_store network (sb_undo_source bundle) finality_depth catchup_batch_size flush_count memory_budget_mb
        (replicate passes (sb_source bundle, sb_undo_source bundle))
  | Err e => (file_archive, index_store, Err e)
  | Panic p => (file_archive, index_store, Panic p)
  end.

Context (chain : Z → NodeBlock) (tip : Z) (scans : Z → BlockScanInput).

(** The blocks of a range of the node, decoded with their spent outputs. *)
Definition decodes (h : Z) (n : nat) : Prop := ∀ i, h ≤ i < h + Z.of_nat n →
  decode_block_frame i (nb_hash (chain i)) (nb_bytes (chain i)) (Some (nb_undo (chain i))) = Ok (scans i).
Lemma decoded_height i undo hash bs s : decode_block_frame i hash bs undo = Ok s → bk_height s = i.
Proof. unfold decode_block_frame. intros H. res_inv. done. Qed.

(** A source that tells the chain and one that knows the spent outputs serve the indexer. *)
Lemma tells_serves_indexer source undo_source h n : tells chain tip source → serves_chain chain tip true undo_source →
  0 ≤ h → h + Z.of_nat n ≤ tip + 1 → decodes h n → LightIndexerSync.serves scans source undo_source h n.
Proof.
  intros Ht Hu Hh Hn Hd s k Hs Hk Hle. set (hs := seqZ s (Z.of_nat k)).
  destruct (Ht _ (RRange s k)) as (frames & E & Hf); [cbn [about_chain]; lia|]. cbn [ask] in E. cbn [right] in Hf. fold hs in Hf.
  assert (Hin : ∀ i, i ∈ hs → s ≤ i < s + Z.of_nat k) by (intros i Hi; apply elem_of_seqZ in Hi; lia).
  unfold fetch_and_decode_chunk. rewrite E. rsimpl. assert (Hlen : length frames = k).
  { rewrite <-(Forall2_length _ _ _ Hf). unfold hs. rewrite length_seqZ. lia. }
  rewrite bool_decide_true by lia. cbn [ensure]. rsimpl.
  rewrite (attach_undo_ok chain tip undo_source hs frames Hu) by (first [done|apply Forall_forall; intros i Hi; specialize (Hin i Hi); unfold in_chain; lia]).
  rsimpl. assert (decode_task <$> (frame_at chain true <$> hs) = Ok <$> (scans <$> hs)) as ->.
  { rewrite <-!list_fmap_compose. apply list_fmap_ext. intros j i Hi. apply list_elem_of_lookup_2, Hin in Hi.
    unfold compose, decode_task, frame_at. cbn [rf_spent_txouts rf_height rf_hash rf_bytes ok_or]. rsimpl. by rewrite Hd by lia. }
  destruct (sorted_completion bk_height (scans <$> hs) s (Z.of_nat k)) as (ys & -> & Hys).
  { rewrite <-list_fmap_compose. rewrite <-(list_fmap_id (seqZ s (Z.of_nat k))). apply list_fmap_ext. intros j i Hi. apply list_elem_of_lookup_2, Hin in Hi.
    cbn. eapply decoded_height, Hd. lia. }
  rsimpl. exists k. eexists. split; [lia|]. unfold height_le. by rewrite Hys.
Qed.

(** The nodes behind the command line. *)
Record honest_bundle (il : Interleaving) (cli : SourceCli) : Prop := {
  ho_rest : ∃ rest_url, cli_rest_url cli = Some rest_url ∧ rest_node chain tip (rest_new rest_url);
  ho_ipc : cli_source cli = Ipc → ∃ socket client, cli_ipc_socket cli = Some socket ∧
    bk_ipc socket (thread_pool (cli_ipc_threads cli)) = Ok client ∧ ipc_node (CC := client) chain tip (thread_pool (cli_ipc_threads cli)) ∧
    (il_thread il socket < thread_pool (cli_ipc_threads cli))%nat
}.
Lemma bundle_ok il cli : node_wf chain tip → honest_bundle il cli →
  ∃ bundle, build_bundle il cli = Ok bundle ∧ tells chain tip (sb_source bundle) ∧ serves_chain chain tip true (sb_undo_source bundle).
Proof.
  intros wf [(rest_url & Er & Hr) Hi]. pose proof (rest_serves chain tip (rest_new rest_url) wf Hr) as Hs. unfold build_bundle. destruct (cli_source cli) eqn:Ek.
  - destruct (Hi eq_refl) as (socket & client & Es & Ec & Hn & Ht). unfold build_ipc_bundle. rewrite Es, Er. cbn [ok_or]. rsimpl. rewrite Ec. rsimpl.
    eexists. split; [reflexivity|]. split; [|exact Hs]. cbn [sb_source]. by eapply serves_tells, ipc_serves.
  - rewrite Er. cbn [ok_or]. rsimpl. eexists. split; [reflexivity|]. split; [by eapply serves_tells|exact Hs].
Qed.

(** Over honest nodes the command is [run_command] with passes that can index the chain. *)
Lemma index_main_runs (il : Interleaving) (cli : SourceCli) (network : ArchiveNetwork) (fs : FileArchive) (d : Db)
    (h : Z) (n passes : nat) (finality_depth batch flush memory_mb : Z)
  (wf : node_wf chain tip) (Hhonest : honest_bundle il cli) (Hdec : decodes h n) (Hh : 0 ≤ h)
  (Hbatch : 0 < batch) (Hflush : 0 < flush) (Hfin : 0 ≤ finality_depth)
  (Htip : h + Z.of_nat n = saturating_sub tip finality_depth + 1) :
  ∃ undo_source ps, supports_block_spent_txouts undo_source = true ∧ length ps = passes ∧ Forall (pass_ready scans tip h n) ps ∧
    index_main il cli fs d network finality_depth batch flush memory_mb passes =
      run_command fs d network undo_source finality_depth batch flush memory_mb ps.
Proof.
  destruct (bundle_ok il cli wf Hhonest) as (bundle & E & Ht & Hu).
  exists (sb_undo_source bundle), (replicate passes (sb_source bundle, sb_undo_source bundle)).
  unfold index_main. rewrite (bool_decide_true (0 < batch)), (bool_decide_true (0 < flush)) by done. cbn [ensure]. rsimpl. rewrite E.
  destruct (nw_tip _ _ wf) as [Htip0 _]. split_and!; [by apply (sc_flag _ _ _ _ Hu)|by rewrite length_replicate| |done].
  apply Forall_forall. intros p ->%elem_of_replicate_inv. split_and!; cbn [fst snd].
  - destruct (Ht _ RBest I) as (b & Eb & ->). exact Eb.
  - destruct (Ht _ (RHash tip)) as (b & Eb & _); [cbn; unfold in_chain; lia|]. cbn in Eb. by rewrite Eb.
  - apply tells_serves_indexer; [done|done|lia| |done]. unfold saturating_sub in Htip. lia.
Qed.

(** C1: [light-indexer run] over honest nodes, from REST alone or from IPC with REST for
    the spent outputs.  Started on files and a database that stand for some indexer state
    and archive (as an empty directory does), with a node whose finalized blocks decode to
    a well-formed chain, the command reaches the finalized tip after at most one pass per
    block and leaves files and a database that stand for the archive of all the blocks
    with all their spends marked, whatever the batch size, the flush size, the memory
    budget and the order in which requests and decoding tasks complete. *)
Theorem index_main_archives (il : Interleaving) (cli : SourceCli) (network : ArchiveNetwork) (fs : FileArchive) (d : Db)
    (full : P2trIndexerState) (A : archive_map) (h : Z) (n passes : nat) (t : option IndexTip) (finality_depth batch flush memory_mb : Z)
  (wf : node_wf chain tip) (Hhonest : honest_bundle il cli) (Hdec : decodes h n)
  (Hfm : fits_marked) (Hrest : at_rest network fs d full A h t) (Hready : ready scans full t h n)
  (Hbatch : 0 < batch) (Hflush : 0 < flush) (Hfin : 0 ≤ finality_depth)
  (Htip : h + Z.of_nat n = saturating_sub tip finality_depth + 1) (Henough : (n ≤ passes)%nat) :
  ∃ outs fulln fs' d' state', apply_blocks full (segment scans h n) = Ok (outs, fulln) ∧
    index_main il cli fs d network finality_depth batch flush memory_mb passes = (fs', d', Ok (h + Z.of_nat n, state')) ∧
    at_rest network fs' d' fulln (archive_after A outs) (h + Z.of_nat n) (tip_after_run scans t fulln h n).
Proof.
  pose proof (gr_bounds _ _ _ _ (rd_chain _ _ _ _ _ Hready)) as [Hh _].
  destruct (index_main_runs il cli network fs d h n passes finality_depth batch flush memory_mb)
    as (undo_source & ps & Hundo & Hlen & Hps & ->); [done..|].
  apply (run_command_rest scans network fs d full A h n t undo_source finality_depth batch flush memory_mb tip); try done. lia.
Qed.
End command.

(** ** The witness: blocks over IPC, spent outputs over REST, an empty archive *)
Definition toy_cli (kind : SourceKind) : SourceCli := {|
  cli_source := kind; cli_ipc_socket := Some (ascii_bytes "/node.sock"); cli_ipc_threads := 4; cli_rest_url := Some (toy_base ++ ascii_bytes "/") |}.
Lemma toy_bundle kind : honest_bundle toy_node toy_tip toy_interleaving (toy_cli kind).
Proof.
  split; [eexists; split; [reflexivity|exact toy_rest_node]|]. intros _. exists (ascii_bytes "/node.sock"), toy_client.
  split_and!; [done|done|apply toy_ipc_node|cbn; lia].
Qed.
Lemma toy_decodes : decodes toy_node toy_chain 0 2.
Proof. intros i Hi. assert (i = 0 ∨ i = 1) as [->| ->] by lia; vm_compute; reflexivity. Qed.

Lemma index_main_archives_witness :
  ∃ outs fulln fs' d' state', apply_blocks (restore_at_uid 0) (segment toy_chain 0 2) = Ok (outs, fulln) ∧
    index_main toy_interleaving (toy_cli Ipc) archive_new demo_db Regtest 6 16 1 4096 2 = (fs', d', Ok (2, state')) ∧
    at_rest Regtest fs' d' fulln (archive_after ∅ outs) 2 (tip_after_run toy_chain None fulln 0 2).
Proof.
  apply (index_main_archives toy_node toy_tip toy_chain toy_interleaving (toy_cli Ipc) Regtest archive_new demo_db (restore_at_uid 0) ∅ 0 2 2 None 6 16 1 4096);
    [exact toy_node_wf|apply toy_bundle|exact toy_decodes|by intros s s' msg msg' _ _ _ _|apply toy_at_rest|apply toy_ready|done|done|done|done|done].
Defined.

(** The three questions. *)
Example toy_source_tip : source_tip_command toy_interleaving (toy_cli Rest) = Ok (toy_base, 7, display_hash (replicate 32 12)).
Proof. vm_compute. reflexivity. Qed.
Example toy_fetch_range : fetch_range_command toy_interleaving (toy_cli Ipc) 0 3 = Ok (ascii_bytes "ipc:/node.sock", 0, 2, 3, 3).
Proof. vm_compute. reflexivity. Qed.
