(* ===== verification/ArchiveStats.v ===== *)
(** * The command [light-archive-stats]

    Model of [light-server/src/bin/light_archive_stats.rs]: one CSV row per block of an
    archive, comparing the stored block with the response derived from it.  The state is
    the content of the CSV file, if it exists; the standard library's [BufWriter] writes
    what it holds when it is dropped, so the rows before a failure stay.  Parsing of the
    arguments and the progress lines are not modelled. *)

From S2P Require Import Prelude Bits EliasDelta Decimal Helper TaggedHash Bitmap SpentIds OutputHash LightBlock LightValid LightFilter LightWire ArchiveBackend FileArchive StatsSinks.

Definition CSV_HEADER : list bytes := ascii_bytes <$> [
  "height"; "stored_block_capnp_bytes"; "response_block_capnp_bytes_labels100"; "response_block_capnp_bytes_labels2";
  "estimated_response_block_bytes_with_full_output_keys_labels100"; "stored_block_minus_response_labels100_bytes";
  "cutthrough_start"; "cutthrough_tip"; "filter_reuse"; "stored_skipped_tx_count_for_tweaks";
  "response_skipped_tx_count_for_tweaks"; "stored_skipped_tx_bitmap_bytes"; "response_skipped_tx_bitmap_bytes";
  "response_skipped_tx_u16_list_bytes"; "response_skipped_tx_bitmap_savings_vs_u16_list_bytes";
  "stored_static_skipped_p2tr_output_slots"; "stored_total_p2tr_output_slot_count"; "stored_indexed_output_count";
  "response_candidate_output_count"; "filtered_omitted_output_count"; "stored_tweak_entry_count";
  "response_tweak_entry_count"; "filtered_omitted_tweak_entry_count"; "stored_spend_entry_count";
  "response_spent_id_count"; "filtered_omitted_spent_id_count"; "response_truncated_output_hash_bits_per_output";
  "response_truncated_output_hash_data_bytes"; "spent_id_codec"; "response_spent_ids_data_bytes";
  "response_spent_ids_naive_u64_list_bytes"; "response_spent_ids_naive_u32_list_bytes";
  "spent_id_elias_delta_ascending_absolute_bytes"; "spent_id_elias_delta_ascending_absolute_savings_vs_u64_bytes";
  "spent_id_elias_delta_ascending_absolute_savings_vs_u32_bytes"]%string.

Record ArchiveStatsArgs := {
  as_start : option Z; as_end : option Z; as_truncate : bool;
  as_cutthrough_start : option Z; as_cutthrough_tip : option Z; as_filter_reuse : bool
}.

(** [prefix.parse::<u64>()] of a name that ends in [.capnp]. *)
Definition discovered (name : bytes) : option Z := strip_suffix (ascii_bytes ".capnp") name ≫= parse_u64.
Definition discover_block_heights (dir : option (gmap bytes bytes)) : res (list Z) :=
  dir ← ok_or dir "failed to read blocks dir";
  Ok (merge_sort Z.le (omap discovered (map_to_list dir).*1)).

Definition open_csv (content : option bytes) (truncate : bool) : bytes :=
  let needs_header := truncate || bool_decide (length (default [] content) = 0%nat) in
  let content := if truncate then [] else default [] content in
  if needs_header then content ++ join_comma CSV_HEADER ++ [10] else content.

(** ** One row *)

(** [to_string] of an [i64]. *)
Definition to_decimal_signed (n : Z) : bytes := if bool_decide (n < 0) then 45 :: to_decimal (- n) else to_decimal n.
Definition byte_savings (before after : Z) : Z := before - after.
Definition optional_u64 (value : option Z) : bytes := default [] (to_decimal <$> value).
Definition bool_to_string (b : bool) : bytes := ascii_bytes (if b then "true" else "false").

(** One iteration over the sorted UIDs: the state is [prev] and [encoded_values]. *)
Definition ascending_step (st : option Z * list Z) (uid : Z) : res (option Z * list Z) :=
  let '(prev, encoded_values) := st in
  value ← match prev with
          | None => ok_or (checked_add 64 uid 1) "spent uid overflow while Elias-delta encoding first value"
          | Some prev_uid => ok_or (checked_sub uid prev_uid) "spent ids not sorted while ascending delta encoding"
          end;
  _ ← ensure (bool_decide (0 < value)) "duplicate spent uid cannot be Elias-delta encoded as a positive delta";
  Ok (Some uid, encoded_values ++ [value]).
Definition spent_id_elias_delta_ascending_absolute_bytes (spent_ids : list Z) : res Z :=
  if bool_decide (spent_ids = []) then Ok 0
  else
    '(_, encoded_values) ← fold_res ascending_step (None, []) (merge_sort Z.le spent_ids);
    stream ← encode_elias_delta_values encoded_values;
    Ok (len stream).

Record SpentIdEncodingStats := { ascending_absolute_bytes : Z }.
Definition spent_id_encoding_stats (spent_ids : list Z) : res SpentIdEncodingStats :=
  n ← spent_id_elias_delta_ascending_absolute_bytes spent_ids;
  Ok {| ascending_absolute_bytes := n |}.

Definition with_labels (filter : StoredBlockResponseFilter) (l : Z) : StoredBlockResponseFilter := {|
  cutthrough_start := cutthrough_start filter; cutthrough_tip := cutthrough_tip filter;
  filter_reuse := filter_reuse filter; labels := Some l |}.

Section archive_stats.
Context `{CL : !CapnpPacked light_block, CS : !CapnpPacked stored_light_block, SH : !Sha256}.

Definition packed_response_bytes (response : LightBlockInput) : res bytes :=
  message ← encode_light_block response; to_packed_bytes message.
Definition packed_response_len (response : LightBlockInput) : res Z :=
  packed ← packed_response_bytes response; Ok (len packed).

(** The [path] is read once: [file] is what it holds. *)
Definition block_stats_row (height : Z) (file : option bytes) (filter : StoredBlockResponseFilter) : res bytes :=
  stored_bytes ← ok_or file "No such file or directory";
  stored ← decode_stored_light_block stored_bytes;
  let response_for_label_budget l := to_filtered_response_input stored (with_labels filter l) in
  response ← response_for_label_budget RESPONSE_LABEL_BUDGET_HUNDRED;
  response_100_bytes ← packed_response_bytes response;
  response_2 ← response_for_label_budget RESPONSE_LABEL_BUDGET_TWO;
  response_2_bytes_len ← packed_response_len response_2;
  response_output_count ← light_block_output_count response;
  let estimated_response_full_key_bytes :=
    saturating_add 64 (saturating_sub (len response_100_bytes) (len (lb_truncated_output_hashes response)))
      (saturating_mul 64 response_output_count 32) in
  let stored_p2tr_output_count := len (sb_outputs stored) + len (sb_skipped_outputs stored) in
  spent_ids ← decode_light_block_spent_ids response;
  _ ← ensure (bool_decide (lb_spent_count response = len spent_ids))
    "response spent_count does not match decoded spent IDs at block";
  let stored_outputs := len (sb_outputs stored) in
  let response_outputs := response_output_count in
  let stored_tweaks := len (sb_tweaks stored) in
  let response_tweaks := len (lb_tweaks response) in
  let stored_spends := len (sb_spends stored) in
  let response_spends := len spent_ids in
  stored_skipped_tx_count ← skipped_txs_for_tweaks_count (sb_tx_count stored) (sb_skipped_txs_for_tweaks stored);
  response_skipped_tx_count ← skipped_txs_for_tweaks_count (lb_tx_count response) (lb_skipped_txs_for_tweaks response);
  let response_skipped_tx_u16_list_bytes := response_skipped_tx_count * 2 in
  let response_skipped_tx_bitmap_bytes := len (lb_skipped_txs_for_tweaks response) in
  let spent_id_list_bytes := response_spends * 8 in
  let spent_id_list_u32_bytes := response_spends * 4 in
  spent_id_stats ← spent_id_encoding_stats spent_ids;
  Ok (join_comma [
    to_decimal height;
    to_decimal (len stored_bytes);
    to_decimal (len response_100_bytes);
    to_decimal response_2_bytes_len;
    to_decimal estimated_response_full_key_bytes;
    to_decimal_signed (len stored_bytes - len response_100_bytes);
    optional_u64 (cutthrough_start filter);
    optional_u64 (cutthrough_tip filter);
    bool_to_string (filter_reuse filter);
    to_decimal stored_skipped_tx_count;
    to_decimal response_skipped_tx_count;
    to_decimal (len (sb_skipped_txs_for_tweaks stored));
    to_decimal response_skipped_tx_bitmap_bytes;
    to_decimal response_skipped_tx_u16_list_bytes;
    to_decimal_signed (byte_savings response_skipped_tx_u16_list_bytes response_skipped_tx_bitmap_bytes);
    to_decimal (len (sb_skipped_outputs stored));
    to_decimal stored_p2tr_output_count;
    to_decimal stored_outputs;
    to_decimal response_outputs;
    to_decimal (saturating_sub stored_outputs response_outputs);
    to_decimal stored_tweaks;
    to_decimal response_tweaks;
    to_decimal (saturating_sub stored_tweaks response_tweaks);
    to_decimal stored_spends;
    to_decimal response_spends;
    to_decimal (saturating_sub stored_spends response_spends);
    to_decimal (lb_truncated_output_hash_bits response);
    to_decimal (len (lb_truncated_output_hashes response));
    ascii_bytes "elias_delta_ascending_absolute";
    to_decimal (len (lb_spent_ids response));
    to_decimal spent_id_list_bytes;
    to_decimal spent_id_list_u32_bytes;
    to_decimal (ascending_absolute_bytes spent_id_stats);
    to_decimal_signed (byte_savings spent_id_list_bytes (ascending_absolute_bytes spent_id_stats));
    to_decimal_signed (byte_savings spent_id_list_u32_bytes (ascending_absolute_bytes spent_id_stats))]).

(** ** The command *)

(** The loop over the heights: the state is the file and [rows]. *)
Fixpoint append_rows (fs : FileArchive) (filter : StoredBlockResponseFilter) (heights : list Z) (csv : bytes) (rows : nat)
    : bytes * res nat :=
  match heights with
  | [] => (csv, Ok rows)
  | height :: heights =>
      match block_stats_row height (files fs !! block_path height) filter with
      | Ok row => append_rows fs filter heights (csv ++ row ++ [10]) (S rows)
      | Err e => (csv, Err e)
      | Panic p => (csv, Panic p)
      end
  end.

Definition retain_start (args : ArchiveStatsArgs) (heights : list Z) : list Z :=
  match as_start args with Some s => filter (λ h, s ≤ h) heights | None => heights end.
Definition retain_end (args : ArchiveStatsArgs) (heights : list Z) : list Z :=
  match as_end args with Some e => filter (λ h, h ≤ e) heights | None => heights end.

(** The tip of the filter is the last height of the request, not of the archive. *)
Definition response_filter (args : ArchiveStatsArgs) (archive_tip : Z) : StoredBlockResponseFilter := {|
  cutthrough_start := as_cutthrough_start args;
  cutthrough_tip := (λ _, default archive_tip (as_cutthrough_tip args)) <$> as_cutthrough_start args;
  filter_reuse := as_filter_reuse args; labels := None |}.

Definition light_archive_stats (fs : FileArchive) (args : ArchiveStatsArgs) (csv : option bytes) : option bytes * res nat :=
  match
    heights ← discover_block_heights (blocks_dir fs);
    let heights := retain_end args (retain_start args heights) in
    _ ← ensure (negb (bool_decide (heights = []))) "no .capnp block files found for requested range";
    archive_tip ← ok_or (last heights) "no .capnp block files found";
    Ok (heights, archive_tip)
  with
  | Ok (heights, archive_tip) =>
      let '(content, r) := append_rows fs (response_filter args archive_tip) heights (open_csv csv (as_truncate args)) 0 in
      (Some content, r)
  | Err e => (csv, Err e)
  | Panic p => (csv, Panic p)
  end.
End archive_stats.

(** ** The spent-UID stream, a second time *)

Lemma ascending_step_Ok st uid st' : ascending_step st uid = Ok st' ↔ spent_step st uid = Ok st'.
Proof.
  destruct st as [[p|] vs]; unfold ascending_step, spent_step;
    [destruct (checked_sub uid p)|destruct (checked_add 64 uid 1)]; rsimpl; try done.
Qed.
Lemma ascending_fold_Ok st ids st' : fold_res ascending_step st ids = Ok st' ↔ fold_res spent_step st ids = Ok st'.
Proof.
  revert st; induction ids as [|u ids IH]; intros st; [done|]. cbn [fold_res]. rewrite !bind_Ok.
  split; intros (st1 & H1 & H2); exists st1; (split; [by apply ascending_step_Ok|by apply IH]).
Qed.

(** The report's own encoder gives the length of the stream a response carries. *)
Lemma ascending_bytes_stream ids count stream :
  encode_spent_ids_elias_delta_ascending_absolute ids = Ok (count, stream) →
  spent_id_elias_delta_ascending_absolute_bytes (merge_sort Z.le ids) = Ok (len stream).
Proof.
  unfold encode_spent_ids_elias_delta_ascending_absolute, spent_id_elias_delta_ascending_absolute_bytes.
  assert (merge_sort Z.le (merge_sort Z.le ids) = merge_sort Z.le ids) as ->.
  { apply (StronglySorted_unique Z.le); [apply (StronglySorted_merge_sort Z.le)..|apply merge_sort_Permutation]. }
  case_bool_decide as E; [by intros [= <- <-]|].
  intros ([p vs] & Hf & (c & _ & (bs & Hs & [= <- <-])%bind_Ok)%bind_Ok)%bind_Ok.
  apply ascending_fold_Ok in Hf. rewrite Hf. rsimpl. by rewrite Hs.
Qed.

(** ** What a row says *)

(** The response to a block: the tweaks it keeps, and how its streams relate to the
    outputs and the spends that the filter keeps. *)
Definition served_tweaks (s : StoredLightBlockInput) (f : StoredBlockResponseFilter) : list TweakEntryInput :=
  if negb (filter_reuse f) && bool_decide (cutthrough_start f = None) then sb_tweaks s
  else omap (kept_entry (sb_height s) f) (group_outputs (sb_tweaks s) (sb_outputs s)).
Record counted (s : StoredLightBlockInput) (f : StoredBlockResponseFilter) (r : LightBlockInput) : Prop := {
  ct_txs : lb_tx_count r = sb_tx_count s;
  ct_tweaks : lb_tweaks r = served_tweaks s f;
  ct_declared : declared (lb_tweaks r) = length (kept_outputs (sb_height s) f (sb_outputs s));
  ct_bits : lb_truncated_output_hash_bits r = choose_truncated_output_hash_bits
    (length (kept_outputs (sb_height s) f (sb_outputs s))) (sb_raw_block_bytes s) (response_label_budget (labels f));
  ct_spends : encode_spent_ids_elias_delta_ascending_absolute (spent_uid <$> kept_spends (sb_height s) f (sb_spends s))
    = Ok (lb_spent_count r, lb_spent_ids r);
  ct_typed : light_typed r;
  ct_valid : light_valid r
}.

Lemma filter_everything {A} (P : A → Prop) `{!∀ x, Decision (P x)} (l : list A) : (∀ x, P x) → filter P l = l.
Proof. intros Hall. induction l as [|x l IH]; [done|]. by rewrite filter_cons_True, IH. Qed.
Lemma keeps_all_outputs s f : filter_reuse f = false → cutthrough_start f = None →
  kept_outputs (sb_height s) f (sb_outputs s) = sb_outputs s.
Proof. intros Hr Hc. apply filter_everything. intros o. unfold kept, should_omit_stored_output. by rewrite Hr, Hc. Qed.
Lemma keeps_all_spends s f : cutthrough_start f = None → kept_spends (sb_height s) f (sb_spends s) = sb_spends s.
Proof. intros Hc. apply filter_everything. intros e. unfold should_omit_stored_spend. by rewrite Hc. Qed.

(** The tweaks and the spent stream of a filtered response. *)
Lemma filtered_shape `{!Sha256} s f r : stored_typed s → stored_valid s → sb_raw_block_bytes s ≠ 0 → filtering f →
  to_filtered_response_input s f = Ok r →
  lb_tweaks r = omap (kept_entry (sb_height s) f) (group_outputs (sb_tweaks s) (sb_outputs s)) ∧
  encode_spent_ids_elias_delta_ascending_absolute (spent_uid <$> kept_spends (sb_height s) f (sb_spends s))
    = Ok (lb_spent_count r, lb_spent_ids r).
Proof.
  intros Ht Hv Hraw Hf. unfold to_filtered_response_input.
  assert (negb (filter_reuse f) && bool_decide (cutthrough_start f = None) = false) as ->.
  { destruct Hf as [-> | Hf]; [done|]. by rewrite bool_decide_false, andb_false_r. }
  destruct (filter_block s f Ht Hv Hraw) as (st & indexes & -> & Hst & _ & Htws & _).
  rsimpl. rewrite Hst. rsimpl. fold (kept_spends (sb_height s) f (sb_spends s)).
  intros ([] & _ & ([count stream] & He & (bs & _ & ([] & _ & [= <-])%bind_Ok)%bind_Ok)%bind_Ok)%bind_Ok.
  split; [exact Htws|exact He].
Qed.

Lemma response_counted `{!Sha256} s f : stored_typed s → stored_valid s → sb_raw_block_bytes s ≠ 0 →
  Forall (λ e, spent_uid e < U64_MAX) (sb_spends s) → ∃ r, to_filtered_response_input s f = Ok r ∧ counted s f r.
Proof.
  intros Ht Hv Hraw Hmax. pose proof (sv_declared s Hv) as Hd. rewrite bool_decide_false in Hd by done.
  destruct (negb (filter_reuse f) && bool_decide (cutthrough_start f = None)) eqn:E.
  - destruct (to_response_ok s (labels f) Ht Hv) as (c & st & He & Hr & Hty & Hlv).
    pose proof E as [Hru Hct]%andb_true_iff. apply negb_true_iff in Hru. apply bool_decide_eq_true_1 in Hct.
    eexists. split; [unfold to_filtered_response_input; by rewrite E|].
    constructor; rewrite ?keeps_all_outputs, ?keeps_all_spends by done; try done.
    unfold served_tweaks. by rewrite E.
  - assert (filtering f) as Hf.
    { unfold filtering. destruct (filter_reuse f); [by left|right]. by apply bool_decide_eq_false in E. }
    destruct (filtered_response_serves s f Ht Hv Hraw Hmax Hf) as (r & Hr & Hs).
    destruct (filtered_shape s f r Ht Hv Hraw Hf Hr) as [Htw He].
    exists r. split; [done|]. destruct Hs as [(_ & _ & _ & _ & Hn) _ Hb _ _ Hty Hlv].
    constructor; try done; rewrite Htw; [unfold served_tweaks; by rewrite E|].
    apply declared_kept; [apply Ht|done].
Qed.

(** The columns of a row, from the block, the filter and the sizes of the messages. *)
Definition row_spec (h : Z) (s : StoredLightBlockInput) (f : StoredBlockResponseFilter) (stored_len len_100 len_2 : Z) : list bytes :=
  let outputs := length (kept_outputs (sb_height s) f (sb_outputs s)) in
  let spends := kept_spends (sb_height s) f (sb_spends s) in
  let tweaks := served_tweaks s f in
  let bits := choose_truncated_output_hash_bits outputs (sb_raw_block_bytes s) RESPONSE_LABEL_BUDGET_HUNDRED in
  let hashes := Z.of_nat (bytes_for (outputs * Z.to_nat bits)) in
  let stream := Z.of_nat (bytes_for (length (delta_stream (deltas (-1) (merge_sort Z.le (spent_uid <$> spends)))))) in
  let bitmap := (sb_tx_count s + 7) / 8 in
  let skipped := sb_tx_count s - len tweaks in [
    to_decimal h; to_decimal stored_len; to_decimal len_100; to_decimal len_2;
    to_decimal (saturating_add 64 (saturating_sub len_100 hashes) (32 * Z.of_nat outputs));
    to_decimal_signed (stored_len - len_100);
    optional_u64 (cutthrough_start f); optional_u64 (cutthrough_tip f); bool_to_string (filter_reuse f);
    to_decimal (sb_tx_count s - len (sb_tweaks s)); to_decimal skipped;
    to_decimal bitmap; to_decimal bitmap; to_decimal (skipped * 2); to_decimal_signed (skipped * 2 - bitmap);
    to_decimal (len (sb_skipped_outputs s)); to_decimal (len (sb_outputs s) + len (sb_skipped_outputs s));
    to_decimal (len (sb_outputs s)); to_decimal (Z.of_nat outputs); to_decimal (len (sb_outputs s) - Z.of_nat outputs);
    to_decimal (len (sb_tweaks s)); to_decimal (len tweaks); to_decimal (len (sb_tweaks s) - len tweaks);
    to_decimal (len (sb_spends s)); to_decimal (len spends); to_decimal (len (sb_spends s) - len spends);
    to_decimal bits; to_decimal hashes; ascii_bytes "elias_delta_ascending_absolute";
    to_decimal stream; to_decimal (len spends * 8); to_decimal (len spends * 4); to_decimal stream;
    to_decimal_signed (len spends * 8 - stream); to_decimal_signed (len spends * 4 - stream)].

Lemma length_omap_le {A B} (f : A → option B) (l : list A) : (length (omap f l) ≤ length l)%nat.
Proof. induction l as [|x l IH]; [done|]. cbn [omap list_omap]. destruct (f x); cbn [length]; lia. Qed.
Lemma served_tweaks_le s f : (length (served_tweaks s f) ≤ length (sb_tweaks s))%nat.
Proof.
  unfold served_tweaks. destruct (negb _ && _); [done|].
  pose proof (length_omap_le (kept_entry (sb_height s) f) (group_outputs (sb_tweaks s) (sb_outputs s))) as Hl.
  by rewrite length_group_outputs in Hl.
Qed.
Lemma saturating_sub_small a b : b ≤ a → saturating_sub a b = a - b.
Proof. unfold saturating_sub. lia. Qed.

(** The number of skipped transactions, from a well-formed bitmap. *)
Lemma skipped_count_dense n bm (tweaks : nat) : in_width 16 n → bitmap_wf n bm → tweaks = length (dense_indexes n bm) →
  skipped_txs_for_tweaks_count n bm = Ok (n - Z.of_nat tweaks) ∧ len bm = (n + 7) / 8.
Proof.
  intros Hn Hb ->. pose proof (skipped_dense_length n bm) as Hl. rewrite skipped_count_spec by done.
  unfold in_width in Hn. destruct Hb as (_ & -> & _). split; [f_equal; lia|lia].
Qed.

(** What the report reads from the response for a hundred labels. *)
Record response_columns (s : StoredLightBlockInput) (f : StoredBlockResponseFilter) (r : LightBlockInput) : Prop := {
  rc_outputs : light_block_output_count r = Ok (len (kept_outputs (sb_height s) f (sb_outputs s)));
  rc_small : len (kept_outputs (sb_height s) f (sb_outputs s)) ≤ 65535;
  rc_spends : ∃ ids, decode_light_block_spent_ids r = Ok ids ∧ lb_spent_count r = len ids ∧
    len ids = len (kept_spends (sb_height s) f (sb_spends s)) ∧
    spent_id_encoding_stats ids = Ok {| ascending_absolute_bytes := len (lb_spent_ids r) |};
  rc_stream : length (lb_spent_ids r) =
    bytes_for (length (delta_stream (deltas (-1) (merge_sort Z.le (spent_uid <$> kept_spends (sb_height s) f (sb_spends s))))));
  rc_skipped : skipped_txs_for_tweaks_count (lb_tx_count r) (lb_skipped_txs_for_tweaks r) = Ok (sb_tx_count s - len (served_tweaks s f));
  rc_bitmap : len (lb_skipped_txs_for_tweaks r) = (sb_tx_count s + 7) / 8;
  rc_tweaks : length (lb_tweaks r) = length (served_tweaks s f);
  rc_hashes : length (lb_truncated_output_hashes r) =
    bytes_for (length (kept_outputs (sb_height s) f (sb_outputs s)) * Z.to_nat (lb_truncated_output_hash_bits r))
}.

Lemma counted_columns s f r : stored_typed s → stored_valid s → counted s f r → response_columns s f r.
Proof.
  intros Ht Hv [Hn Htw Hd Hb He Hty Hlv].
  assert (uids_wf (spent_uid <$> kept_spends (sb_height s) f (sb_spends s))) as Hw.
  { apply stored_uids_wf. eapply Forall_sublist_sub; [apply kept_spends_sublist|apply Ht]. }
  destruct (spent_ids_decode_encoded _ _ _ Hw He) as [_ Hdec].
  pose proof (proj1 (encode_spent_ids_ok_iff _ Hw)) as Hiff. rewrite He in Hiff. destruct (Hiff eq_refl) as (Hnd & Hmax & Hlen).
  pose proof (length_kept (sb_height s) f (sb_outputs s)). pose proof (sv_outputs s Hv).
  destruct (skipped_count_dense (lb_tx_count r) (lb_skipped_txs_for_tweaks r) (length (lb_tweaks r)))
    as [Hsk Hbm]; [apply Hty|apply Hlv|apply Hlv|].
  constructor.
  - rewrite output_count_spec by (done || apply Hlv). by rewrite Hd.
  - lia.
  - eexists. assert (decode_light_block_spent_ids r = Ok (merge_sort Z.le (spent_uid <$> kept_spends (sb_height s) f (sb_spends s)))) as Hds.
    { unfold decode_light_block_spent_ids. by destruct (lb_spent_id_codec r). }
    split_and!; [exact Hds|by rewrite (decoded_count r _ Hty Hds)|by rewrite merge_sort_Permutation, length_fmap|].
    unfold spent_id_encoding_stats. by rewrite (ascending_bytes_stream _ _ _ He).
  - destruct (encode_spent_ids_spec _ Hw Hnd Hmax) as [He' _]. rewrite He, try_from_ok in He' by done.
    injection He' as _ ->. by rewrite length_pack.
  - by rewrite Hsk, Hn, Htw.
  - by rewrite Hbm, Hn.
  - by rewrite Htw.
  - rewrite (lv_hashes r Hlv). by rewrite Hd.
Qed.

Section rows.
Context `{CL : !CapnpPacked light_block, CS : !CapnpPacked stored_light_block, SH : !Sha256}.

(** The row of the block [s] of height [h]: the columns of [row_spec] with the sizes of
    the stored message and of the two messages that the server sends. *)
Definition row_of (fs : FileArchive) (f : StoredBlockResponseFilter) (h : Z) (s : StoredLightBlockInput) (row : bytes) : Prop :=
  ∃ stored sent_100 sent_2, files fs !! block_path h = Some stored ∧
    stored_light_block_to_filtered_response_bytes stored (with_labels f 100) = Ok (sent_100, sb_block_hash s) ∧
    stored_light_block_to_filtered_response_bytes stored (with_labels f 2) = Ok (sent_2, sb_block_hash s) ∧
    row = join_comma (row_spec h s f (len stored) (len sent_100) (len sent_2)).

(** A block that can be served under every filter. *)
Definition servable (s : StoredLightBlockInput) : Prop :=
  sb_raw_block_bytes s ≠ 0 ∧ Forall (λ e, spent_uid e < U64_MAX) (sb_spends s).

Lemma archived_valid fs h s : archived fs h s → stored_typed s ∧ stored_valid s.
Proof.
  intros (Ht & _ & msg & He & _). split; [done|]. unfold encode_stored_light_block in He.
  apply bind_Ok in He as ([] & Hval & _). by apply validate_stored_ok in Hval.
Qed.

(** The message of the response for a label budget. *)
Lemma served_message s f : stored_typed s → stored_valid s → servable s →
  ∃ r m, to_filtered_response_input s f = Ok r ∧ counted s f r ∧ encode_light_block r = Ok m ∧
    packed_response_bytes r = Ok (write_message m).
Proof.
  intros Ht Hv [Hraw Hmax]. destruct (response_counted s f Ht Hv Hraw Hmax) as (r & Hr & Hc).
  pose proof (encode_light_ok r (proj2 (validate_light_ok r (ct_typed _ _ _ Hc)) (ct_valid _ _ _ Hc))) as Ho.
  destruct (encode_light_block r) as [m| |] eqn:E; [|done..]. exists r, m. split_and!; [done..|].
  unfold packed_response_bytes. by rewrite E.
Qed.

Lemma block_row_of fs f h s : archived fs h s → servable s →
  ∃ row, block_stats_row h (files fs !! block_path h) f = Ok row ∧ row_of fs f h s row.
Proof.
  intros Ha Hs. destruct (archived_decode fs h s Ha) as (bs & Hl & Hd). destruct (archived_valid fs h s Ha) as [Ht Hv].
  destruct (served_message s (with_labels f 100) Ht Hv Hs) as (r1 & m1 & Hr1 & Hc1 & He1 & Hp1).
  destruct (served_message s (with_labels f 2) Ht Hv Hs) as (r2 & m2 & Hr2 & Hc2 & He2 & Hp2).
  pose proof (counted_columns s _ r1 Ht Hv Hc1) as [Co Cs (ids & Hids & Hn & Hni & Hst) Cl Ck Cb Ct Ch].
  destruct (skipped_count_dense (sb_tx_count s) (sb_skipped_txs_for_tweaks s) (length (sb_tweaks s)))
    as [Hsk Hbm]; [apply Ht|apply Hv|apply Hv|].
  unfold block_stats_row, packed_response_len, RESPONSE_LABEL_BUDGET_HUNDRED, RESPONSE_LABEL_BUDGET_TWO.
  rewrite Hl. rsimpl. rewrite Hd. rsimpl. rewrite Hr1. rsimpl. rewrite Hp1. rsimpl. rewrite Hr2. rsimpl. rewrite Hp2. rsimpl.
  rewrite Co. rsimpl. rewrite Hids. rsimpl. rewrite bool_decide_true by done. rsimpl. rewrite Hsk. rsimpl. rewrite Ck. rsimpl.
  rewrite Hst. rsimpl. eexists. split; [done|].
  exists bs, (write_message m1), (write_message m2). split_and!; [done| | |].
  1,2: unfold stored_light_block_to_filtered_response_bytes; rewrite Hd; rsimpl; rewrite ?Hr1, ?Hr2; rsimpl; rewrite ?He1, ?He2; done.
  f_equal. unfold row_spec. cbv zeta. rewrite Hni, Cb, Hbm, Cl, Ct, Ch. cbn [ascending_absolute_bytes].
  rewrite (ct_bits _ _ _ Hc1). cbn [with_labels labels]. change (response_label_budget (Some 100)) with RESPONSE_LABEL_BUDGET_HUNDRED.
  change (kept_outputs (sb_height s) (with_labels f 100)) with (kept_outputs (sb_height s) f) in *.
  change (kept_spends (sb_height s) (with_labels f 100)) with (kept_spends (sb_height s) f).
  change (served_tweaks s (with_labels f 100)) with (served_tweaks s f).
  pose proof (length_kept (sb_height s) f (sb_outputs s)). pose proof (served_tweaks_le s f).
  pose proof (sublist_length _ _ (kept_spends_sublist (sb_height s) f (sb_spends s))).
  rewrite !(saturating_sub_small (len (sb_outputs s))), !(saturating_sub_small (len (sb_tweaks s))),
    !(saturating_sub_small (len (sb_spends s))) by lia.
  unfold byte_savings, saturating_mul, umax. rewrite Z.min_l by lia. by rewrite (Z.mul_comm _ 32).
Qed.
End rows.

(** ** The heights of an archive *)

(** Every file that the command takes for a block is one the archive wrote. *)
Definition own_names (dir : gmap bytes bytes) (heights : gset Z) : Prop :=
  (∀ name h, name ∈ dom dir → discovered name = Some h → h ∈ heights ∧ name = block_path h) ∧
  ∀ h, h ∈ heights → in_width 64 h ∧ block_path h ∈ dom dir.

Lemma discovered_path h : in_width 64 h → discovered (block_path h) = Some h.
Proof. intros Hh. unfold discovered, block_path. rewrite strip_suffix_app. cbn. by apply parse_decimal_padded. Qed.

Lemma NoDup_omap_paths dir heights names : own_names dir heights → NoDup names → (∀ n, n ∈ names → n ∈ dom dir) → NoDup (omap discovered names).
Proof.
  intros [Hown _] Hn. induction Hn as [|n names Hni _ IH]; intros Hd; [constructor|]. cbn [omap list_omap].
  assert (NoDup (omap discovered names)) as Hrest by (apply IH; intros; apply Hd; by constructor).
  destruct (discovered n) as [h|] eqn:E; [|done]. constructor; [|done].
  intros (n' & Hn' & E')%list_elem_of_omap.
  destruct (Hown n h (Hd n ltac:(by constructor)) E) as [_ ->]. destruct (Hown n' h (Hd n' ltac:(by constructor)) E') as [_ ->]. done.
Qed.

Lemma discover_heights dir heights : own_names dir heights →
  ∃ hs, discover_block_heights (Some dir) = Ok hs ∧ StronglySorted Z.lt hs ∧ ∀ h, h ∈ hs ↔ h ∈ heights.
Proof.
  intros Hown. eexists. split; [reflexivity|].
  assert (NoDup (omap discovered (map_to_list dir).*1)) as Hn.
  { apply (NoDup_omap_paths dir heights); [done|apply NoDup_fst_map_to_list|].
    intros n ([n' v] & -> & Hv%elem_of_map_to_list)%list_elem_of_fmap. by apply elem_of_dom_2 in Hv. }
  split; [by apply sorted_ids_lt|]. intros h. rewrite merge_sort_Permutation, list_elem_of_omap. split.
  - intros (n & ([n' v] & -> & Hv%elem_of_map_to_list)%list_elem_of_fmap & E). apply (proj1 Hown _ h (elem_of_dom_2 _ _ _ Hv) E).
  - intros Hh. destruct (proj2 Hown h Hh) as [Hw [v Hv]%elem_of_dom]. exists (block_path h).
    split; [|by apply discovered_path]. apply list_elem_of_fmap. exists (block_path h, v). split; [done|by apply elem_of_map_to_list].
Qed.

(** The heights of a request. *)
Definition in_request (args : ArchiveStatsArgs) (h : Z) : Prop :=
  from_option (λ s, s ≤ h) True (as_start args) ∧ from_option (λ e, h ≤ e) True (as_end args).

Lemma filter_sorted (P : Z → Prop) `{!∀ x, Decision (P x)} l : StronglySorted Z.lt l → StronglySorted Z.lt (filter P l).
Proof.
  induction 1 as [|x l Hl IH Hx]; [constructor|]. rewrite filter_cons. case_decide; [|done]. constructor; [done|].
  apply Forall_forall. intros y [_ Hy]%list_elem_of_filter. by apply (proj1 (Forall_forall _ _) Hx).
Qed.
Lemma retained_heights args hs : StronglySorted Z.lt hs →
  StronglySorted Z.lt (retain_end args (retain_start args hs)) ∧
  ∀ h, h ∈ retain_end args (retain_start args hs) ↔ h ∈ hs ∧ in_request args h.
Proof.
  intros Hs. unfold retain_end, retain_start, in_request.
  destruct (as_start args), (as_end args); cbn [from_option]; (split; [by repeat apply filter_sorted|]);
    intros h; rewrite ?list_elem_of_filter; tauto.
Qed.

Section command.
Context `{CL : !CapnpPacked light_block, CS : !CapnpPacked stored_light_block, SH : !Sha256}.

Lemma append_rows_ok fs f hs csv n :
  (∀ h, h ∈ hs → ∃ s, archived fs h s ∧ servable s) →
  ∃ rows, Forall2 (λ h row, ∃ s, archived fs h s ∧ row_of fs f h s row) hs rows ∧
    append_rows fs f hs csv n = (csv ++ (rows ≫= λ row, row ++ [10]), Ok (n + length hs)%nat).
Proof.
  revert csv n. induction hs as [|h hs IH]; intros csv n Hall; cbn [append_rows].
  { exists []. split; [constructor|]. cbn. by rewrite app_nil_r, Nat.add_0_r. }
  destruct (Hall h ltac:(by constructor)) as (s & Ha & Hs). destruct (block_row_of fs f h s Ha Hs) as (row & -> & Hrow).
  destruct (IH (csv ++ row ++ [10]) (S n)) as (rows & Hrows & ->); [intros; apply Hall; by constructor|].
  exists (row :: rows). split; [constructor; [by exists s|done]|]. rewrite bind_cons, <-!app_assoc. cbn [length].
  by replace (S n + length hs)%nat with (n + S (length hs))%nat by lia.
Qed.

End command.

(** The report over the archive of one block, onto no file. *)
#[local] Existing Instances toy_sha256.
#[local] Instance toy_light_block : CapnpPacked light_block := toy_capnp light_block.
#[local] Instance toy_stored_block : CapnpPacked stored_light_block := toy_capnp stored_light_block.
Definition demo_args : ArchiveStatsArgs := {| as_start := Some 3; as_end := None; as_truncate := false;
  as_cutthrough_start := Some 5; as_cutthrough_tip := None; as_filter_reuse := false |}.

Lemma demo_own_names : own_names (files demo_archive) (dom demo_blocks).
Proof.
  unfold demo_blocks, demo_archive, write_block_bytes, files. cbn [blocks_dir archive_new default id]. rewrite dom_singleton_L. split.
  - intros name h [v Hn]%elem_of_dom E. apply lookup_insert_Some in Hn as [[<- _]|[_ Hn]].
    + rewrite discovered_path in E by (split; lia). injection E as <-. set_solver.
    + apply lookup_delete_Some in Hn as [? Hn]. by rewrite lookup_insert_ne in Hn.
  - intros h ->%elem_of_singleton. split; [split; lia|]. apply elem_of_dom. rewrite lookup_insert_eq. by eexists.
Qed.

