(* ===== verification/StatsWire.v ===== *)
(** * Statistics on the wire

    Model of [stats/src/stats.rs]: the messages of [stats/schema] that the encoders
    build.  A field that no setter writes holds the default of the schema; the packing
    of a message into bytes is outside. *)

From S2P Require Import Prelude Decimal JsonWire Text TaprootSpend ScriptType Histogram CodecCost BlockStats StatsSinks StatsScanRuns LightIndexerToy ToyNode.
From coqutil Require Import Datatypes.RecordSetters.

(** ** The schema *)
Record block_stats := {
  w_height : Z; w_last_global_id : Z; w_output_count : Z; w_p2tr_output_count : Z; w_p2tr_reused_count : Z;
  w_spends : Z; w_p2tr_spends : Z; w_p2tr_keypath_spends : Z; w_p2tr_scriptpath_spends : Z; w_p2tr_nums_spends : Z;
  w_p2tr_sp_eligible_spends : Z; w_nonsp_txs : Z; w_nonsp_tx_outputs : Z; w_utxo_hash : bytes; w_utxo_hash_window : Z;
  w_p2tr_inscription_spends : Z; w_p2tr_nums_and_inscription_spends : Z;
  w_script_outputs : TypeCounts; w_script_inputs : TypeCounts;
  w_sorted_spent_values : Z; w_sorted_spent_leb128_bytes : Z; w_sorted_spent_rice_best_k : nat;
  w_sorted_spent_rice_best_bits : Z; w_sorted_spent_elias_delta_bits : Z; w_sorted_spent_ef_bits : Z;
  w_sorted_p2tr_spent_values : Z; w_sorted_p2tr_spent_leb128_bytes : Z; w_sorted_p2tr_spent_rice_best_k : nat;
  w_sorted_p2tr_spent_rice_best_bits : Z; w_sorted_p2tr_spent_elias_delta_bits : Z; w_sorted_p2tr_spent_ef_bits : Z
}.
Definition block_stats_default : block_stats := {|
  w_height := 0; w_last_global_id := 0; w_output_count := 0; w_p2tr_output_count := 0; w_p2tr_reused_count := 0;
  w_spends := 0; w_p2tr_spends := 0; w_p2tr_keypath_spends := 0; w_p2tr_scriptpath_spends := 0; w_p2tr_nums_spends := 0;
  w_p2tr_sp_eligible_spends := 0; w_nonsp_txs := 0; w_nonsp_tx_outputs := 0; w_utxo_hash := []; w_utxo_hash_window := 0;
  w_p2tr_inscription_spends := 0; w_p2tr_nums_and_inscription_spends := 0;
  w_script_outputs := counts_default; w_script_inputs := counts_default;
  w_sorted_spent_values := 0; w_sorted_spent_leb128_bytes := 0; w_sorted_spent_rice_best_k := 0;
  w_sorted_spent_rice_best_bits := 0; w_sorted_spent_elias_delta_bits := 0; w_sorted_spent_ef_bits := 0;
  w_sorted_p2tr_spent_values := 0; w_sorted_p2tr_spent_leb128_bytes := 0; w_sorted_p2tr_spent_rice_best_k := 0;
  w_sorted_p2tr_spent_rice_best_bits := 0; w_sorted_p2tr_spent_elias_delta_bits := 0; w_sorted_p2tr_spent_ef_bits := 0 |}.
Record log2_hist := { w_zeros : Z; w_buckets : list Z; w_sum : Z; w_max : Z }.
Definition log2_hist_default : log2_hist := {| w_zeros := 0; w_buckets := []; w_sum := 0; w_max := 0 |}.
Record stats_message := { w_block : block_stats }.

(** ** The encoders *)

Definition u128_to_u64 (value : Z) : Z := Z.min value (umax 64).

Section encode.
Context `{HX : Hex, HD : !HexDecode}.

(** [hex::decode(..).unwrap_or_default()]. *)
Definition decode_or_default (text : bytes) : bytes := match hex_decode text with Ok b => b | _ => [] end.

Definition fill_block_stats (b : block_stats) (src : BlockStats) : block_stats :=
  let b := b {{
    w_height := row_height src; w_last_global_id := row_last_global_id src; w_output_count := row_output_count src;
    w_p2tr_output_count := row_p2tr_output_count src; w_p2tr_reused_count := row_p2tr_reused_count src;
    w_spends := row_spends src; w_p2tr_spends := row_p2tr_spends src; w_p2tr_keypath_spends := row_p2tr_keypath_spends src;
    w_p2tr_scriptpath_spends := row_p2tr_scriptpath_spends src; w_p2tr_nums_spends := row_p2tr_nums_spends src;
    w_p2tr_sp_eligible_spends := row_p2tr_sp_eligible_spends src; w_nonsp_txs := row_nonsp_txs src;
    w_nonsp_tx_outputs := row_nonsp_tx_outputs src }} in
  let b := b {{ w_utxo_hash := decode_or_default (row_utxo_hash src); w_utxo_hash_window := row_utxo_hash_window src }} in
  let b := b {{
    w_sorted_spent_values := row_sorted_spent_values src;
    w_sorted_spent_leb128_bytes := u128_to_u64 (row_sorted_spent_leb128_bytes src);
    w_sorted_spent_rice_best_k := row_sorted_spent_rice_best_k src;
    w_sorted_spent_rice_best_bits := u128_to_u64 (row_sorted_spent_rice_best_bits src);
    w_sorted_spent_elias_delta_bits := u128_to_u64 (row_sorted_spent_elias_delta_bits src);
    w_sorted_spent_ef_bits := u128_to_u64 (row_sorted_spent_ef_bits src) }} in
  b {{
    w_sorted_p2tr_spent_values := row_sorted_p2tr_spent_values src;
    w_sorted_p2tr_spent_leb128_bytes := u128_to_u64 (row_sorted_p2tr_spent_leb128_bytes src);
    w_sorted_p2tr_spent_rice_best_k := row_sorted_p2tr_spent_rice_best_k src;
    w_sorted_p2tr_spent_rice_best_bits := u128_to_u64 (row_sorted_p2tr_spent_rice_best_bits src);
    w_sorted_p2tr_spent_elias_delta_bits := u128_to_u64 (row_sorted_p2tr_spent_elias_delta_bits src);
    w_sorted_p2tr_spent_ef_bits := u128_to_u64 (row_sorted_p2tr_spent_ef_bits src) }}.

(** [init_buckets(64)] zeroes the list; the loop sets its elements. *)
Definition fill_log2_hist (b : log2_hist) (src : Log2Hist) : log2_hist :=
  let b := b {{ w_zeros := zeros src }} in
  let b := b {{ w_buckets := foldl (λ bs '(i, v), <[i := v]> bs) (replicate 64 0) (imap pair (buckets src)) }} in
  b {{ w_sum := Z.min (hist_sum src) (umax 64); w_max := hist_max src }}.

Definition encode_block_stats (src : BlockStats) : block_stats := fill_block_stats block_stats_default src.
Definition encode_log2_hist (src : Log2Hist) : log2_hist := fill_log2_hist log2_hist_default src.

Definition stats_to_block_snapshot (s : Stats) (height last_global_id : Z) (utxo_hash : bytes) (utxo_hash_window : Z) : BlockStats :=
  let combined := su_combined (st_sorted_spent_ids s) in
  let p2tr_combined := su_combined (st_sorted_p2tr_spent_ids s) in
  let sorted_spent_rice := best_rice combined in
  let sorted_p2tr_spent_rice := best_rice p2tr_combined in
  row_default {{
    row_height := height; row_last_global_id := last_global_id; row_output_count := st_outputs s;
    row_p2tr_output_count := st_p2tr_outputs s; row_p2tr_reused_count := st_p2tr_reused s; row_spends := st_spends s;
    row_p2tr_spends := st_p2tr_spends s; row_p2tr_keypath_spends := st_p2tr_keypath_spends s;
    row_p2tr_scriptpath_spends := st_p2tr_scriptpath_spends s; row_p2tr_nums_spends := st_p2tr_nums_spends s;
    row_p2tr_sp_eligible_spends := st_p2tr_sp_eligible_spends s; row_p2tr_inscription_spends := st_p2tr_inscription_spends s;
    row_p2tr_nums_and_inscription_spends := st_p2tr_nums_and_inscription_spends s; row_nonsp_txs := st_nonsp_txs s;
    row_nonsp_tx_outputs := st_nonsp_tx_outputs s; row_sorted_spent_values := es_values combined;
    row_sorted_spent_leb128_bytes := es_leb128_bytes combined; row_sorted_spent_rice_best_k := rc_k sorted_spent_rice;
    row_sorted_spent_rice_best_bits := rc_bits sorted_spent_rice; row_sorted_spent_elias_delta_bits := es_elias_delta_bits combined;
    row_sorted_spent_ef_bits := su_ef_bits_with_64bit_base (st_sorted_spent_ids s);
    row_sorted_p2tr_spent_values := es_values p2tr_combined; row_sorted_p2tr_spent_leb128_bytes := es_leb128_bytes p2tr_combined;
    row_sorted_p2tr_spent_rice_best_k := rc_k sorted_p2tr_spent_rice;
    row_sorted_p2tr_spent_rice_best_bits := rc_bits sorted_p2tr_spent_rice;
    row_sorted_p2tr_spent_elias_delta_bits := es_elias_delta_bits p2tr_combined;
    row_sorted_p2tr_spent_ef_bits := su_ef_bits_with_64bit_base (st_sorted_p2tr_spent_ids s);
    row_utxo_hash := hex_encode utxo_hash; row_utxo_hash_window := utxo_hash_window }}.

Definition encode_stats (src : Stats) (height last_global_id : Z) (utxo_hash : bytes) (utxo_hash_window : Z) : stats_message :=
  {| w_block := fill_block_stats block_stats_default (stats_to_block_snapshot src height last_global_id utxo_hash utxo_hash_window) |}.
End encode.

(** ** What a reader finds *)

Lemma set_all {A} k (pre l suf : list A) : length pre = k → length suf = length l →
  foldl (λ bs '(i, v), <[i := v]> bs) (pre ++ suf) (imap (λ i v, (k + i, v)%nat) l) = pre ++ l.
Proof.
  revert k pre suf. induction l as [|v l IH]; intros k pre [|w suf] Hp Hl; try done. cbn [imap foldl].
  rewrite Nat.add_0_r, insert_app_r_alt, <-Hp, Nat.sub_diag by lia. cbn [insert list_insert].
  rewrite (imap_ext _ (λ i v, (S (length pre) + i, v)%nat)) by (intros; simpl; f_equal; lia).
  change (v :: suf) with ([v] ++ suf). change (v :: l) with ([v] ++ l). rewrite !app_assoc.
  apply IH; [rewrite length_app; simpl; lia|by injection Hl].
Qed.

Section facts.
Context `{HX : Hex, HD : !HexDecode}.

(** The row that a message carries: the fields of a row that no setter writes are lost. *)
Definition read_block_stats (m : block_stats) : BlockStats := row_default {{
  row_height := w_height m; row_last_global_id := w_last_global_id m; row_output_count := w_output_count m;
  row_p2tr_output_count := w_p2tr_output_count m; row_p2tr_reused_count := w_p2tr_reused_count m; row_spends := w_spends m;
  row_p2tr_spends := w_p2tr_spends m; row_p2tr_keypath_spends := w_p2tr_keypath_spends m;
  row_p2tr_scriptpath_spends := w_p2tr_scriptpath_spends m; row_p2tr_nums_spends := w_p2tr_nums_spends m;
  row_p2tr_sp_eligible_spends := w_p2tr_sp_eligible_spends m; row_p2tr_inscription_spends := w_p2tr_inscription_spends m;
  row_p2tr_nums_and_inscription_spends := w_p2tr_nums_and_inscription_spends m; row_nonsp_txs := w_nonsp_txs m;
  row_nonsp_tx_outputs := w_nonsp_tx_outputs m; row_script_outputs := w_script_outputs m; row_script_inputs := w_script_inputs m;
  row_sorted_spent_values := w_sorted_spent_values m; row_sorted_spent_leb128_bytes := w_sorted_spent_leb128_bytes m;
  row_sorted_spent_rice_best_k := w_sorted_spent_rice_best_k m; row_sorted_spent_rice_best_bits := w_sorted_spent_rice_best_bits m;
  row_sorted_spent_elias_delta_bits := w_sorted_spent_elias_delta_bits m; row_sorted_spent_ef_bits := w_sorted_spent_ef_bits m;
  row_sorted_p2tr_spent_values := w_sorted_p2tr_spent_values m; row_sorted_p2tr_spent_leb128_bytes := w_sorted_p2tr_spent_leb128_bytes m;
  row_sorted_p2tr_spent_rice_best_k := w_sorted_p2tr_spent_rice_best_k m;
  row_sorted_p2tr_spent_rice_best_bits := w_sorted_p2tr_spent_rice_best_bits m;
  row_sorted_p2tr_spent_elias_delta_bits := w_sorted_p2tr_spent_elias_delta_bits m;
  row_sorted_p2tr_spent_ef_bits := w_sorted_p2tr_spent_ef_bits m;
  row_utxo_hash := hex_encode (w_utxo_hash m); row_utxo_hash_window := w_utxo_hash_window m }}.

(** The row without what the message drops. *)
Definition carried (r : BlockStats) : BlockStats := r {{
  row_block_hash := []; row_stats_version := 0; row_local := local_default; row_chain := chain_default;
  row_p2tr_inscription_spends := 0; row_p2tr_nums_and_inscription_spends := 0;
  row_script_outputs := counts_default; row_script_inputs := counts_default }}.

(** The sizes of the row fit the 64-bit fields, and its hash is the text of bytes. *)
Definition row_fits_wire (r : BlockStats) : Prop :=
  Forall (λ v, v < 2 ^ 64) [row_sorted_spent_leb128_bytes r; row_sorted_spent_rice_best_bits r;
    row_sorted_spent_elias_delta_bits r; row_sorted_spent_ef_bits r; row_sorted_p2tr_spent_leb128_bytes r;
    row_sorted_p2tr_spent_rice_best_bits r; row_sorted_p2tr_spent_elias_delta_bits r; row_sorted_p2tr_spent_ef_bits r] ∧
  ∃ d, bytes_wf d ∧ row_utxo_hash r = hex_encode d.

Lemma u128_to_u64_small v : v < 2 ^ 64 → u128_to_u64 v = v.
Proof. unfold u128_to_u64, umax. lia. Qed.
Lemma decode_or_default_hex d : bytes_wf d → decode_or_default (hex_encode d) = d.
Proof. intros Hd. unfold decode_or_default. by rewrite hex_decode_encode. Qed.

(** The statistics of a block survive the wire up to what the message drops: the
    block hash and version, the two inscription counters and the script breakdowns. *)
Theorem block_stats_wire (r : BlockStats) : row_fits_wire r → read_block_stats (encode_block_stats r) = carried r.
Proof.
  intros [Hf (d & Hd & E)].
  repeat match goal with H : Forall _ (_ :: _) |- _ => apply Forall_cons in H as [? H] end.
  unfold encode_block_stats, fill_block_stats. rewrite E, (decode_or_default_hex d Hd).
  rewrite !u128_to_u64_small by done. unfold read_block_stats, carried. destruct r. cbn in *. by subst.
Qed.

(** The counters that the message cannot tell apart. *)
Theorem wire_drops_inscriptions (r : BlockStats) (n m : Z) (outs ins : TypeCounts) :
  encode_block_stats (r {{ row_p2tr_inscription_spends := n; row_p2tr_nums_and_inscription_spends := m;
    row_script_outputs := outs; row_script_inputs := ins }}) = encode_block_stats r.
Proof. by destruct r. Qed.

(** A histogram survives the wire when its sum fits 64 bits; otherwise the sum, and
    nothing else, is clamped. *)
Theorem log2_hist_wire (h : Log2Hist) : length (buckets h) = 64%nat →
  let m := encode_log2_hist h in
  hist_deserialize (w_zeros m) (w_buckets m) (w_sum m) (w_max m)
  = Ok {| zeros := zeros h; buckets := buckets h; hist_sum := Z.min (hist_sum h) (umax 64); hist_max := hist_max h |}.
Proof.
  intros Hl m. subst m.
  pose proof (set_all 0 [] (buckets h) (replicate 64 0) eq_refl ltac:(by rewrite length_replicate)) as Hs.
  transitivity (hist_deserialize (zeros h) (foldl (λ bs '(i, v), <[i := v]> bs) (replicate 64 0) (imap pair (buckets h)))
    (Z.min (hist_sum h) (umax 64)) (hist_max h)); [reflexivity|].
  change (imap pair (buckets h)) with (imap (λ i v, (0 + i, v)%nat) (buckets h)). cbn [app] in Hs. rewrite Hs.
  unfold hist_deserialize. by rewrite bool_decide_true.
Qed.
End facts.

Lemma block_stats_wire_witness :
  let r := row_default {{ row_height := 7; row_p2tr_inscription_spends := 3; row_utxo_hash := hex_encode [1; 255] }} in
  read_block_stats (encode_block_stats r) = carried r.
Proof.
  intros r. apply (block_stats_wire r). split; [repeat constructor; cbn; lia|]. exists [1; 255].
  split; [repeat constructor; unfold is_byte; lia|done].
Defined.

Lemma log2_hist_wire_witness :
  let m := encode_log2_hist (hist_record hist_default 5) in
  hist_deserialize (w_zeros m) (w_buckets m) (w_sum m) (w_max m) = Ok (hist_record hist_default 5).
Proof. apply (log2_hist_wire (hist_record hist_default 5)). reflexivity. Defined.
