(* ===== verification/BlockWire.v ===== *)
(** * Blocks on the wire

    Model of [encoding/capnp/src/block.rs]: the message of
    [encoding/capnp/schema/block.capnp] that [encode_block] builds from a parsed
    block.  The accessors of rust-bitcoin's types are the parameter [BlockAccessors]; a
    list of a message is indexed by a [u32], and a set outside of it panics.  The packing
    into bytes is capnp's. *)

From S2P Require Import Prelude.

(** What the encoder reads of rust-bitcoin's types. *)
Class BlockAccessors := {
  Blk : Type; Tx : Type; Vin : Type; Vout : Type;
  h_version : Blk → Z; h_prev_blockhash : Blk → bytes; h_merkle_root : Blk → bytes;
  h_time : Blk → Z; h_bits : Blk → Z; h_nonce : Blk → Z; b_txdata : Blk → list Tx;
  t_compute_txid : Tx → bytes; t_compute_wtxid : Tx → bytes; t_version : Tx → Z; t_lock_time : Tx → Z;
  t_is_coinbase : Tx → bool; t_input : Tx → list Vin; t_output : Tx → list Vout;
  i_txid : Vin → bytes; i_vout : Vin → Z; i_script_sig : Vin → bytes; i_sequence : Vin → Z; i_witness : Vin → list bytes;
  o_value : Vout → Z; o_script_pubkey : Vout → bytes
}.

(** ** The schema *)
Record tx_in := { m_prev_txid : bytes; m_prev_vout : Z; m_script_sig : bytes; m_sequence : Z; m_witness : list bytes }.
Record tx_out := { m_value : Z; m_script_pubkey : bytes }.
Record transaction := {
  m_txid : bytes; m_wtxid : bytes; m_version : Z; m_locktime : Z; m_inputs : list tx_in; m_outputs : list tx_out; m_is_coinbase : bool
}.
Record block := {
  m_height : Z; m_hash : bytes; m_block_version : Z; m_prev_hash : bytes; m_merkle_root : bytes; m_time : Z; m_bits : Z;
  m_nonce : Z; m_transactions : list transaction
}.
Definition tx_in_default : tx_in := {| m_prev_txid := []; m_prev_vout := 0; m_script_sig := []; m_sequence := 0; m_witness := [] |}.
Definition tx_out_default : tx_out := {| m_value := 0; m_script_pubkey := [] |}.
Definition transaction_default : transaction := {|
  m_txid := []; m_wtxid := []; m_version := 0; m_locktime := 0; m_inputs := []; m_outputs := []; m_is_coinbase := false |}.

(** [init_<list>(l.len() as u32)], and the loop that fills its elements in order. *)
Definition fill_at {A B} (fill : A → res B) (ms : list B) (entry : nat * A) : res (list B) :=
  let '(i, x) := entry in
  _ ← expect (ms !! Z.to_nat (wrap 32 (Z.of_nat i))) "index out of bounds";
  m ← fill x;
  Ok (<[Z.to_nat (wrap 32 (Z.of_nat i)) := m]> ms).
Definition fill_list {A B} (d : B) (fill : A → res B) (l : list A) : res (list B) :=
  fold_res (fill_at fill) (replicate (Z.to_nat (wrap 32 (len l))) d) (imap pair l).

Section encoder.
Context `{BA : !BlockAccessors}.

Record ParsedBlock := { p_height : Z; p_hash : bytes; p_block : Blk }.

Definition fill_vout (vout : Vout) : res tx_out := Ok {| m_value := o_value vout; m_script_pubkey := o_script_pubkey vout |}.
Definition fill_vin (vin : Vin) : res tx_in :=
  witness ← fill_list [] Ok (i_witness vin);
  Ok {| m_prev_txid := i_txid vin; m_prev_vout := i_vout vin; m_script_sig := i_script_sig vin; m_sequence := i_sequence vin;
        m_witness := witness |}.
Definition fill_tx (tx : Tx) : res transaction :=
  inputs ← fill_list tx_in_default fill_vin (t_input tx);
  outputs ← fill_list tx_out_default fill_vout (t_output tx);
  Ok {| m_txid := t_compute_txid tx; m_wtxid := t_compute_wtxid tx; m_version := t_version tx; m_locktime := t_lock_time tx;
        m_inputs := inputs; m_outputs := outputs; m_is_coinbase := t_is_coinbase tx |}.
(** [encode_block] and [fill_block]. *)
Definition encode_block (parsed : ParsedBlock) : res block :=
  let b := p_block parsed in
  transactions ← fill_list transaction_default fill_tx (b_txdata b);
  Ok {| m_height := p_height parsed; m_hash := p_hash parsed; m_block_version := h_version b; m_prev_hash := h_prev_blockhash b;
        m_merkle_root := h_merkle_root b; m_time := h_time b; m_bits := h_bits b; m_nonce := h_nonce b; m_transactions := transactions |}.

(** ** What the message holds *)

Lemma fill_at_ok {A B} (fill : A → res B) pre (b : B) suf x y : Z.of_nat (length pre) < 2 ^ 32 → fill x = Ok y →
  fill_at fill (pre ++ b :: suf) (length pre, x) = Ok ((pre ++ [y]) ++ suf).
Proof.
  intros Hl Hx. unfold fill_at. rewrite wrap_small by (unfold in_width; lia).
  rewrite Nat2Z.id, list_lookup_middle by done. cbn [expect]. rsimpl. rewrite Hx. rsimpl.
  rewrite insert_app_r_alt, Nat.sub_diag by lia. cbn [insert list_insert]. by rewrite <-app_assoc.
Qed.
Lemma fill_list_ok {A B} (d : B) (fill : A → res B) (g : A → B) l :
  len l < 2 ^ 32 → Forall (λ x, fill x = Ok (g x)) l → fill_list d fill l = Ok (g <$> l).
Proof.
  intros Hl Hg. unfold fill_list. rewrite wrap_small by (unfold in_width; lia). rewrite Nat2Z.id.
  enough (∀ pre suf k, length pre = k → length suf = length l → Z.of_nat k + len l < 2 ^ 32 →
    fold_res (fill_at fill) (pre ++ suf) (imap (λ i x, (k + i, x)%nat) l) = Ok (pre ++ (g <$> l))) as H.
  { apply (H [] (replicate (length l) d) 0%nat); [done|apply length_replicate|lia]. }
  clear Hl. induction Hg as [|x l Hx Hg IH]; intros pre [|b suf] k Hp Hs Hk; try done. cbn [imap fold_res length] in *.
  rewrite Nat.add_0_r, <-Hp, (fill_at_ok fill pre b suf x (g x)) by (done || lia). rsimpl.
  rewrite (imap_ext _ (λ i v, (S (length pre) + i, v)%nat)) by (intros; simpl; f_equal; lia).
  rewrite IH by (rewrite ?length_app; simpl in *; lia).
  rewrite fmap_cons, <-app_assoc. done.
Qed.

(** The lists of a block are shorter than 2^32, as in every block that fits the
    consensus limits. *)
Definition vin_small (i : Vin) : Prop := len (i_witness i) < 2 ^ 32.
Definition tx_small (t : Tx) : Prop := len (t_input t) < 2 ^ 32 ∧ len (t_output t) < 2 ^ 32 ∧ Forall vin_small (t_input t).
Definition blk_small (b : Blk) : Prop := len (b_txdata b) < 2 ^ 32 ∧ Forall tx_small (b_txdata b).

Definition wire_vin (i : Vin) : tx_in := {|
  m_prev_txid := i_txid i; m_prev_vout := i_vout i; m_script_sig := i_script_sig i; m_sequence := i_sequence i; m_witness := i_witness i |}.
Definition wire_vout (o : Vout) : tx_out := {| m_value := o_value o; m_script_pubkey := o_script_pubkey o |}.
Definition wire_tx (t : Tx) : transaction := {|
  m_txid := t_compute_txid t; m_wtxid := t_compute_wtxid t; m_version := t_version t; m_locktime := t_lock_time t;
  m_inputs := wire_vin <$> t_input t; m_outputs := wire_vout <$> t_output t; m_is_coinbase := t_is_coinbase t |}.

Lemma fill_vin_ok i : vin_small i → fill_vin i = Ok (wire_vin i).
Proof.
  intros Hi. unfold fill_vin. rewrite (fill_list_ok [] Ok id) by (done || apply Forall_true; done). rsimpl. by rewrite list_fmap_id.
Qed.
Lemma fill_tx_ok t : tx_small t → fill_tx t = Ok (wire_tx t).
Proof.
  intros (Hi & Ho & Hv). unfold fill_tx.
  rewrite (fill_list_ok _ _ wire_vin) by (done || (eapply Forall_impl; [exact Hv|apply fill_vin_ok])). rsimpl.
  by rewrite (fill_list_ok _ _ wire_vout) by (done || apply Forall_true; done).
Qed.

(** The encoder does not panic on a block within the limits, and its message holds
    every transaction, input, witness item and output, in order. *)
Theorem encode_block_lossless (parsed : ParsedBlock) : blk_small (p_block parsed) →
  ∃ m, encode_block parsed = Ok m ∧ m_height m = p_height parsed ∧ m_hash m = p_hash parsed ∧
    m_prev_hash m = h_prev_blockhash (p_block parsed) ∧ m_merkle_root m = h_merkle_root (p_block parsed) ∧
    m_transactions m = wire_tx <$> b_txdata (p_block parsed).
Proof.
  intros [Hl Ht]. unfold encode_block.
  rewrite (fill_list_ok _ _ wire_tx) by (done || (eapply Forall_impl; [exact Ht|apply fill_tx_ok])). rsimpl. by eexists.
Qed.
End encoder.

(** A block of one transaction: its inputs and outputs are numbers. *)
Definition toy_accessors : BlockAccessors := {|
  Blk := list (list Z * list Z); Tx := list Z * list Z; Vin := Z; Vout := Z;
  h_version _ := 2; h_prev_blockhash _ := [0]; h_merkle_root _ := [1]; h_time _ := 3; h_bits _ := 4; h_nonce _ := 5; b_txdata b := b;
  t_compute_txid _ := [6]; t_compute_wtxid _ := [7]; t_version _ := 1; t_lock_time _ := 0; t_is_coinbase _ := true;
  t_input := fst; t_output := snd; i_txid i := [i]; i_vout i := i; i_script_sig _ := []; i_sequence _ := 0; i_witness i := [[i]; []];
  o_value o := o; o_script_pubkey o := [o] |}.
Definition toy_parsed : ParsedBlock (BA := toy_accessors) := {| p_height := 9; p_hash := [8]; p_block := [([1; 2], [3])] : Blk (BlockAccessors := toy_accessors) |}.

Lemma encode_block_lossless_witness :
  ∃ m, encode_block toy_parsed = Ok m ∧ m_height m = 9 ∧ m_hash m = [8] ∧ m_prev_hash m = [0] ∧ m_merkle_root m = [1] ∧
    m_transactions m = wire_tx <$> ([([1; 2], [3])] : list (Tx (BlockAccessors := toy_accessors))).
Proof.
  apply (encode_block_lossless toy_parsed). split; [cbn; lia|].
  apply Forall_singleton. split; [cbn; lia|]. split; [cbn; lia|]. repeat constructor; unfold vin_small; cbn; lia.
Defined.
