(* ===== verification/Fixture.v ===== *)
(** * The fixture archive

    Model of [fixture_blocks], [write_fixture_archive] and [deterministic_txid] of
    [light-server/src/bin/light_indexer.rs]: a small archive of made-up blocks, run
    through the indexer from a fresh state with reuse tracking.  The printed line is not
    modelled; heights wrap, as the unchecked sums of an optimised build do. *)

From S2P Require Import Prelude Bits Decimal Helper TaggedHash Bitmap SpentIds OutputHash LightBlock LightValid LightFilter LightWire CutThrough P2trIndexer P2trFacts Indexer Kv IndexStore IndexerCache ArchiveBackend FileArchive JsonWire Profile.

Definition deterministic_txid (height n : Z) : bytes := le_bytes 8 height ++ n :: replicate 23 n.
Definition fixture_hash (height : Z) : bytes := le_bytes 8 height ++ replicate 24 0.

Definition fixture_output (vout : Z) (k : option bytes) : TxOutputScan := {|
  to_vout := vout; to_value_sat := 0; to_script_pubkey := []; to_p2tr_xonly_key := k;
  to_is_p2tr := bool_decide (is_Some k); to_is_nums := false |}.
Definition fixture_txs (height : Z) (previous_indexed_outpoint : option OutPointKey) : list TxScanInput := [
  {| tx_txid := deterministic_txid height 0; tx_tx_index := 0; tx_inputs := [];
     tx_outputs := [fixture_output 0 None; fixture_output 1 (Some (replicate 32 (wrap 8 height)))];
     tx_silent_payment_tweak := Some (replicate 33 1) |};
  {| tx_txid := deterministic_txid height 1; tx_tx_index := 1;
     tx_inputs := match previous_indexed_outpoint with
                  | Some previous_output => [{| ti_previous_output := previous_output; ti_script_sig := []; ti_witness := [] |}]
                  | None => []
                  end;
     tx_outputs := [fixture_output 0 (Some (replicate 32 (wrap 8 (wrap 64 (height + 1)))))];
     tx_silent_payment_tweak := Some (replicate 33 2) |}].

Record FixtureBlock := {
  fb_height : Z; fb_hash : bytes; fb_prev_hash : bytes; fb_anchor_last_uid : Z; fb_bytes : bytes; fb_stats : BlockScopeStats
}.
(** The variables of the loop. *)
Record FixtureLoop := {
  fl_state : P2trIndexerState; fl_tip_hash : bytes; fl_previous : option OutPointKey; fl_blocks : list FixtureBlock
}.

Section fixture.
Context `{CL : !CapnpPacked light_block, CS : !CapnpPacked stored_light_block, SH : !Sha256, MJ : !ManifestJson, HX : !Hex}.

Definition fixture_step (start_height : Z) (st : FixtureLoop) (i : Z) : res FixtureLoop :=
  let height := wrap 64 (start_height + i) in
  let prev_hash := fl_tip_hash st in
  let hash := fixture_hash height in
  '(applied, state) ← apply_block_with_stats (fl_state st) {|
    bk_height := height; bk_block_hash := hash; bk_previous_block_hash := prev_hash; bk_raw_block_bytes := 1000;
    bk_txs := fixture_txs height (fl_previous st) |};
  message ← encode_stored_light_block (ab_storage_block applied);
  bs ← to_packed_bytes message;
  Ok {| fl_state := state; fl_tip_hash := hash;
        fl_previous := Some {| op_txid := deterministic_txid height 1; op_vout := 0 |};
        fl_blocks := fl_blocks st ++ [{| fb_height := height; fb_hash := hash; fb_prev_hash := prev_hash;
          fb_anchor_last_uid := last_uid state; fb_bytes := bs; fb_stats := ab_stats applied |}] |}.

Definition fixture_blocks (start_height count : Z) : res (list FixtureBlock * Z * bytes * Z) :=
  _ ← ensure (bool_decide (0 < count)) "count must be greater than zero";
  st ← fold_res (fixture_step start_height)
    {| fl_state := indexer_new; fl_tip_hash := replicate 32 0; fl_previous := None; fl_blocks := [] |} (seqZ 0 count);
  Ok (fl_blocks st, wrap 64 (start_height + count - 1), fl_tip_hash st, last_uid (fl_state st)).

Definition fixture_manifest (network : ArchiveNetwork) (tip_height : Z) (tip_hash : bytes) : Manifest := {|
  version := WIRE_VERSION; ArchiveBackend.network := network_as_str network; genesis_hash := None; finality_depth := 6;
  suggested_reorg_cache_depth := 144; max_range_count := DEFAULT_MAX_RANGE_COUNT;
  mf_tip := Some {| height := tip_height; block_hash := hex_encode tip_hash |} |}.

Definition write_fixture_archive (archive : FileArchive) (network : ArchiveNetwork) (start_height count : Z) : FileArchive * res unit :=
  match fixture_blocks start_height count with
  | Ok (blocks, tip_height, tip_hash, _) =>
      let archive := foldl (λ fs b, write_block_bytes fs (fb_height b) (fb_bytes b)) archive blocks in
      (write_manifest archive (fixture_manifest network tip_height tip_hash), Ok tt)
  | Err e => (archive, Err e)
  | Panic p => (archive, Panic p)
  end.

(** [Command::Fixture]: without [--start-height], the default of the network. *)
Definition fixture_command (archive : FileArchive) (network : ArchiveNetwork) (start_height : option Z) (count : Z) : FileArchive * res unit :=
  write_fixture_archive archive network (default (default_start_height network) start_height) count.
End fixture.

(** ** The made-up blocks *)

Lemma deterministic_txid_inj h n h' n' : in_width 64 h → in_width 64 h' →
  deterministic_txid h n = deterministic_txid h' n' → h = h' ∧ n = n'.
Proof.
  intros Hh Hh' E. unfold deterministic_txid in E. apply app_inj_1 in E as [E1 E2]; [|by rewrite !length_le_bytes].
  injection E2 as E2 _. split; [|done]. apply (f_equal from_le) in E1.
  by rewrite !from_le_le_bytes in E1 by (unfold in_width in *; lia).
Qed.
Lemma fixture_hash_wf h : array_wf 32 (fixture_hash h).
Proof.
  unfold fixture_hash. split; [by rewrite length_app, length_le_bytes, length_replicate|].
  apply Forall_app. split; [apply le_bytes_wf|]. apply Forall_replicate. unfold is_byte. lia.
Qed.
Lemma replicate_wf n k : is_byte k → array_wf n (replicate n k).
Proof. intros Hk. split; [apply length_replicate|by apply Forall_replicate]. Qed.
Lemma wrap_byte x : is_byte (wrap 8 x).
Proof. apply (wrap_width 8 x). lia. Qed.

(** The block of a height. *)
Definition fixture_scan (height : Z) (prev_hash : bytes) (previous : option OutPointKey) : BlockScanInput := {|
  bk_height := height; bk_block_hash := fixture_hash height; bk_previous_block_hash := prev_hash; bk_raw_block_bytes := 1000;
  bk_txs := fixture_txs height previous |}.

Lemma fixture_p2tr h previous : ∃ tx1 tx2, fixture_txs h previous = [tx1; tx2] ∧
  tx_txid tx1 = deterministic_txid h 0 ∧ tx_txid tx2 = deterministic_txid h 1 ∧
  p2tr_outs (fixture_txs h previous) = [(tx1, fixture_output 1 (Some (replicate 32 (wrap 8 h))));
    (tx2, fixture_output 0 (Some (replicate 32 (wrap 8 (wrap 64 (h + 1))))))] ∧
  dense_from 0 (p2tr_outs (fixture_txs h previous)) = [(0, (tx1, fixture_output 1 (Some (replicate 32 (wrap 8 h)))));
    (1, (tx2, fixture_output 0 (Some (replicate 32 (wrap 8 (wrap 64 (h + 1)))))))].
Proof. by eexists _, _. Qed.

Lemma fixture_scan_wf h prev_hash previous : in_width 32 h → array_wf 32 prev_hash → block_wf (fixture_scan h prev_hash previous).
Proof.
  intros Hh Hp. constructor; cbn [fixture_scan bk_height bk_block_hash bk_previous_block_hash bk_raw_block_bytes bk_txs]; try done.
  - split; [apply fixture_hash_wf|done].
  - by intros [|[|i]] tx [= <-].
  - intros tx t Htx Ht. unfold fixture_txs in Htx. list_cases; subst tx; injection Ht as <-; typed_tac.
  - intros tx o Htx Hout Hpt. unfold fixture_txs in Htx.
    list_cases; subst tx; cbn [tx_outputs] in Hout; list_cases; subst o; try discriminate Hpt;
      (eexists; split; [reflexivity|apply replicate_wf, wrap_byte]).
  - by destruct previous.
Qed.

(** ** The loop *)

(** The coin that a block leaves for the next one. *)
Definition fixture_point (h : Z) : OutPointKey := {| op_txid := deterministic_txid h 1; op_vout := 0 |}.

(** The stored block of a height: two outputs, both unspent, and the spend of the
    second output of the block before. *)
Record fixture_block (start h : Z) (s : StoredLightBlockInput) : Prop := {
  fx_typed : stored_typed s;
  fx_valid : stored_valid s;
  fx_header : sb_height s = h ∧ sb_block_hash s = fixture_hash h ∧
    sb_previous_block_hash s = if bool_decide (h = start) then replicate 32 0 else fixture_hash (h - 1);
  fx_first_uid : sb_first_uid s = 1 + 2 * (h - start);
  fx_keys : key <$> sb_outputs s = [replicate 32 (wrap 8 h); replicate 32 (wrap 8 (h + 1))];
  fx_unspent : Forall (λ o, spent_height o = STORAGE_SPENT_HEIGHT_UNSPENT) (sb_outputs s);
  fx_spends : sb_spends s = if bool_decide (h = start) then []
    else [{| spent_uid := 2 * (h - start); creation_height := h - 1 |}]
}.

(** Between two passes, after the blocks below [h]. *)
Record fixture_inv (start h : Z) (st : FixtureLoop) : Prop := {
  fi_wf : indexer_wf h (fl_state st);
  fi_next : next_uid (fl_state st) = 2 * (h - start);
  fi_tip : fl_tip_hash st = if bool_decide (h = start) then replicate 32 0 else fixture_hash (h - 1);
  fi_previous : fl_previous st = if bool_decide (h = start) then None else Some (fixture_point (h - 1));
  fi_coin : h ≠ start → ∃ s, outpoint_to_spend (fl_state st) !! fixture_point (h - 1) = Some s ∧
    sl_uid s = 2 * (h - start) ∧ sl_creation_height s = h - 1;
  fi_old : ∀ o s, outpoint_to_spend (fl_state st) !! o = Some s → ∃ h' n, start ≤ h' < h ∧ op_txid o = deterministic_txid h' n
}.

Section loop.
Context `{SH : !Sha256}.

Lemma fixture_points h previous : points (fixture_txs h previous) = [{| op_txid := deterministic_txid h 0; op_vout := 1 |}; fixture_point h].
Proof. reflexivity. Qed.
Lemma fixture_named h previous : named (fixture_txs h previous) = option_list previous.
Proof. by destruct previous. Qed.

Lemma fixture_txids h previous tx : tx ∈ fixture_txs h previous → ∃ n, tx_txid tx = deterministic_txid h n.
Proof. unfold fixture_txs. intros Htx. list_cases; subst tx; by eexists. Qed.

(** The spends of a block. *)
Lemma fixture_spends start h st out self' :
  in_width 32 h → 0 ≤ start ≤ h → fixture_inv start h st →
  block_result (fl_state st) (fixture_scan h (fl_tip_hash st) (fl_previous st)) out self' →
  apply_block_with_stats (fl_state st) (fixture_scan h (fl_tip_hash st) (fl_previous st)) = Ok (out, self') →
  sb_spends (ab_storage_block out) = if bool_decide (h = start) then [] else [{| spent_uid := 2 * (h - start); creation_height := h - 1 |}].
Proof.
  intros Hw Hh [_ _ _ Hp Hc _] R Ha. pose proof (br_spends _ _ _ _ R) as Hl. cbn [fixture_scan bk_txs] in Hl.
  assert (len (fixture_txs h (fl_previous st) ≫= tx_inputs) = if bool_decide (h = start) then 0 else 1) as El.
  { rewrite Hp. by case_bool_decide. }
  rewrite El in Hl. case_bool_decide as E; [by destruct (sb_spends _); [|cbn in Hl; lia]|].
  destruct (Hc E) as (s & Hs & Hu & Hcr).
  destruct (coins_block (outpoint_to_spend (fl_state st)) (fixture_point (h - 1)) (fl_state st)
    (fixture_scan h (fl_tip_hash st) (fl_previous st)) out self' eq_refl) as (a & Ht & _ & _ & Es & _); [|exact Ha|].
  - intros tx o Htx Ho Hpt Ep. cbn [fixture_scan bk_txs] in Htx.
    apply fixture_txids in Htx as [n Hn]. apply (f_equal op_txid) in Ep. cbn [op_txid fixture_point] in Ep. rewrite Hn in Ep.
    apply deterministic_txid_inj in Ep as [Ep _]; [lia|..]; unfold in_width in *; lia.
  - destruct (Ht s Hs) as [Hin _]. destruct Hin as [_ Hin]; [cbn [fixture_scan bk_txs]; rewrite Hp; by left|].
    rewrite Hu, Hcr in Hin. rewrite <-Es in *. destruct (acc_spends a) as [|e [|]]; [by apply elem_of_nil in Hin| |cbn in Hl; lia].
    by apply list_elem_of_singleton in Hin as ->.
Qed.

Lemma spend_all_other (m : index_map) l o : (∀ x, x ∈ l → su_outpoint x ≠ o) → spend_all m l !! o = m !! o.
Proof.
  revert m. induction l as [|x l IH]; intros m Hl; [done|]. cbn [foldl].
  rewrite IH by (intros; apply Hl; by right). rewrite lookup_delete_ne; [done|]. apply Hl. by left.
Qed.

Lemma fixture_pass start h st : in_width 32 h → 0 ≤ start ≤ h → fixture_inv start h st →
  ∃ out self', apply_block_with_stats (fl_state st) (fixture_scan h (fl_tip_hash st) (fl_previous st)) = Ok (out, self') ∧
    fixture_block start h (ab_storage_block out) ∧
    ∀ blocks, fixture_inv start (h + 1)
      {| fl_state := self'; fl_tip_hash := fixture_hash h; fl_previous := Some (fixture_point h); fl_blocks := blocks |}.
Proof.
  intros Hw Hh Hinv. pose proof Hinv as [Hwf Hnext Htip Hprev Hcoin Hold].
  assert (Hb : block_wf (fixture_scan h (fl_tip_hash st) (fl_previous st))).
  { apply fixture_scan_wf; [done|]. rewrite Htip. case_bool_decide; [|apply fixture_hash_wf]. apply replicate_wf. unfold is_byte. lia. }
  destruct (apply_block_ok (fl_state st) (fixture_scan h (fl_tip_hash st) (fl_previous st)) h Hwf (Z.le_refl h) Hb) as (out & self' & Ha & R); [unfold in_width in Hw; lia|].
  pose proof (fixture_spends start h st out self' Hw Hh Hinv R Ha) as Hsp. exists out, self'. split; [done|].
  destruct (fixture_p2tr h (fl_previous st)) as (tx1 & tx2 & _ & Ht1 & Ht2 & Ho & Hd).
  pose proof R as [Rn Rwf (Rh & Rb & Rp & _) Rf _ Ro Rc _ _ Rt Rv _ _]. cbn [fixture_scan bk_txs bk_height bk_block_hash bk_previous_block_hash] in *.
  rewrite Hd in Ro, Rc. rewrite Ho in Rn. cbn [length] in Rn. split.
  { apply Forall2_cons_inv_r in Ro as (o1 & os1 & (K1 & _ & U1 & _) & Ro & Eo).
    apply Forall2_cons_inv_r in Ro as (o2 & os2 & (K2 & _ & U2 & _) & Ro & ->). apply Forall2_nil_inv_r in Ro as ->.
    constructor; [done|done|by rewrite Rh, Rb, Rp|rewrite Rf, Hnext; lia| | |done]; rewrite Eo.
    - rewrite !fmap_cons. cbn [to_p2tr_xonly_key fixture_output snd] in K1, K2.
      rewrite (wrap_small 64) in K2 by (unfold in_width in *; lia). apply (inj Some) in K1 as <-, K2 as <-. done.
    - by repeat constructor. }
  intros blocks. pose proof (ledger_block _ _ _ _ Ha) as [Ls Lc Lp Li _]. cbn [fixture_scan bk_txs bk_height] in *.
  apply Forall2_cons_inv_r in Rc as (c1 & cs1 & (C1 & P1 & _) & Rc & Ec).
  apply Forall2_cons_inv_r in Rc as (c2 & cs2 & (C2 & P2 & _) & Rc & ->). apply Forall2_nil_inv_r in Rc as ->. cbn [fst snd] in *.
  assert (ue_outpoint (cu_entry c2) = fixture_point h) as P2' by (by rewrite P2, Ht2).
  constructor; cbn [fl_state fl_tip_hash fl_previous]; rewrite ?bool_decide_false by lia; rewrite ?Z.add_simpl_r; try done.
  - destruct Rwf as [? Rwf]. split; [done|]. eapply spends_wf_mono; [| |exact Rwf]; lia.
  - lia.
  - intros _. rewrite Li; rewrite ?fixture_points.
    + rewrite Ec. cbn [foldl]. exists (created_lookup c2). split; [|split].
      * rewrite spend_all_other; [unfold add_created; rewrite P2'; by rewrite lookup_insert_eq|].
        intros x Hx Ex. apply Lp in Hx as [Hx _]. rewrite Ex, fixture_named, Hprev in Hx. case_bool_decide; [by apply elem_of_nil in Hx|].
        apply list_elem_of_singleton in Hx. apply (f_equal op_txid), deterministic_txid_inj in Hx as [Hx _]; unfold in_width in *; lia.
      * cbn. lia.
      * cbn. apply Lc. rewrite Ec. right. left.
    + apply NoDup_cons. split; [|apply NoDup_singleton]. intros Hx%list_elem_of_singleton. by apply (f_equal op_vout) in Hx.
    + intros o Hpo. destruct (outpoint_to_spend (fl_state st) !! o) as [s|] eqn:E; [exfalso|done].
      destruct (Hold o s E) as (h' & n & Hh' & Et). list_cases; subst o; cbn [op_txid fixture_point] in Et;
        apply deterministic_txid_inj in Et as [Et _]; unfold in_width in *; lia.
  - intros o s [Hs|(c & Hc & <- & _)]%Ls.
    + destruct (Hold o s Hs) as (h' & n & Hh' & Et). exists h', n. split; [lia|done].
    + apply Lc in Hc as [Hc _]. rewrite fixture_points in Hc. exists h. list_cases; rewrite Hc; eexists; (split; [lia|reflexivity]).
Qed.
End loop.

(** ** The archive *)
Section archive.
Context `{CL : !CapnpPacked light_block, CS : !CapnpPacked stored_light_block, SH : !Sha256, MJ : !ManifestJson, HX : !Hex}.

(** The payload of a height. *)
Definition fixture_payload (start h : Z) (b : FixtureBlock) : Prop :=
  fb_height b = h ∧ ∃ s msg, fixture_block start h s ∧ encode_stored_light_block s = Ok msg ∧ fb_bytes b = write_message msg.

Lemma fixture_step_ok start i st : 0 ≤ start → 0 ≤ i → start + i < 2 ^ 32 → fixture_inv start (start + i) st →
  ∃ st' b, fixture_step start st i = Ok st' ∧ fixture_inv start (start + i + 1) st' ∧
    fl_blocks st' = fl_blocks st ++ [b] ∧ fixture_payload start (start + i) b ∧ fl_tip_hash st' = fixture_hash (start + i).
Proof.
  intros Hs Hi Hw Hinv. unfold fixture_step. rewrite (wrap_small 64) by (unfold in_width; lia). cbv zeta.
  destruct (fixture_pass start (start + i) st) as (out & self' & Ha & Hb & Hn); [unfold in_width; lia|lia|done|].
  unfold fixture_scan in Ha. rewrite Ha. rsimpl.
  pose proof (encode_stored_ok _ (fx_typed _ _ _ Hb) (proj2 (validate_stored_ok _ (fx_typed _ _ _ Hb)) (fx_valid _ _ _ Hb))) as Ho.
  destruct (encode_stored_light_block (ab_storage_block out)) as [msg| |] eqn:E; [|done..]. unfold to_packed_bytes. rsimpl.
  eexists _, _. split; [reflexivity|]. split_and!; [apply Hn|reflexivity| |done]. split; [done|]. by exists (ab_storage_block out), msg.
Qed.

Lemma fixture_loop start i n st : 0 ≤ start → 0 ≤ i → start + i + Z.of_nat n ≤ 2 ^ 32 → fixture_inv start (start + i) st →
  ∃ st' bs, fold_res (fixture_step start) st (seqZ i (Z.of_nat n)) = Ok st' ∧ fl_blocks st' = fl_blocks st ++ bs ∧
    Forall2 (fixture_payload start) (seqZ (start + i) (Z.of_nat n)) bs ∧
    fl_tip_hash st' = if bool_decide (n = 0%nat) then fl_tip_hash st else fixture_hash (start + i + Z.of_nat n - 1).
Proof.
  revert i st. induction n as [|n IH]; intros i st Hs Hi Hw Hinv.
  { exists st, []. rewrite app_nil_r. split_and!; [done..|constructor|done]. }
  rewrite (seqZ_cons i), (seqZ_cons (start + i)) by lia. cbn [fold_res].
  destruct (fixture_step_ok start i st) as (st1 & b & -> & Hinv1 & Hb1 & Hp & Ht1); [lia..|done|]. rsimpl.
  replace (Z.pred (Z.of_nat (S n))) with (Z.of_nat n) by lia. replace (Z.succ (start + i)) with (start + Z.succ i) by lia.
  destruct (IH (Z.succ i) st1) as (st2 & bs & Hf & Hb2 & Hps & Ht2);
    [lia..|by replace (start + Z.succ i) with (start + i + 1) by lia|].
  exists st2, (b :: bs). split; [exact Hf|]. split; [by rewrite Hb2, Hb1, <-app_assoc|]. split; [by constructor|].
  rewrite Ht2, (bool_decide_false (S n = 0%nat)) by done. case_bool_decide as En; [subst n; rewrite Ht1|]; f_equal; lia.
Qed.

Lemma fixture_init start : fixture_inv start start {| fl_state := indexer_new; fl_tip_hash := replicate 32 0; fl_previous := None; fl_blocks := [] |}.
Proof.
  constructor; cbn [fl_state fl_tip_hash fl_previous indexer_new next_uid outpoint_to_spend]; rewrite ?bool_decide_true by done; try done; try lia.
Qed.

(** Writing the payloads. *)
Definition fixture_fits (start : Z) : Prop :=
  ∀ h s msg, fixture_block start h s → encode_stored_light_block s = Ok msg → capnp_fits msg.
Lemma fixture_writes start hs bs fs m : fixture_fits start → Forall (in_width 64) hs → NoDup hs → Forall2 (fixture_payload start) hs bs → holds_blocks fs m →
  ∃ m', holds_blocks (foldl (λ fs b, write_block_bytes fs (fb_height b) (fb_bytes b)) fs bs) m' ∧
    ∀ h, if bool_decide (h ∈ hs) then ∃ s, fixture_block start h s ∧ m' !! h = Some (norm_stored s) else m' !! h = m !! h.
Proof.
  intros Hfits Hw Hn Hp. revert fs m. induction Hp as [|h b hs bs [Eh (s & msg & Hs & He & Eb)] Hp IH]; intros fs m Hm.
  { exists m. split; [done|]. intros h. by rewrite bool_decide_false by apply not_elem_of_nil. }
  apply Forall_cons in Hw as [Hw Hws]. apply NoDup_cons in Hn as [Hni Hn]. cbn [foldl]. rewrite Eh, Eb.
  destruct (IH Hws Hn (write_block_bytes fs h (write_message msg)) (<[h := norm_stored s]> m)) as (m' & Hm' & Hl).
  { pose proof (fx_typed _ _ _ Hs). pose proof (fx_valid _ _ _ Hs).
    apply holds_write; [done|done|by apply norm_stored_typed|apply norm_twice|by rewrite encode_norm|by eapply Hfits]. }
  exists m'. split; [done|]. intros h'. specialize (Hl h'). case_bool_decide as H1; case_bool_decide as H2; try done.
  - destruct H2. by right.
  - apply elem_of_cons in H2 as [->|]; [|done]. exists s. split; [done|]. by rewrite Hl, lookup_insert_eq.
  - rewrite not_elem_of_cons in H2. rewrite Hl, lookup_insert_ne by naive_solver. done.
Qed.

(** The fixture command leaves a sound archive.  For a range of heights below
    2^32 it ends without an error; the files are the messages of valid blocks, one per
    height and no other; UIDs count the outputs through the range, and each block
    spends the second output of the block before; the manifest names the last height. *)
Theorem fixture_archive (network : ArchiveNetwork) (start_height : option Z) (count : Z) :
  let start := default (default_start_height network) start_height in
  0 ≤ start → 0 < count → start + count ≤ 2 ^ 32 → fixture_fits start →
  ∃ fs m, fixture_command archive_new network start_height count = (fs, Ok tt) ∧ holds_blocks fs m ∧
    (∀ h, if bool_decide (start ≤ h < start + count) then ∃ s, fixture_block start h s ∧ m !! h = Some (norm_stored s) else m !! h = None) ∧
    file_tip fs = Ok (Some {| height := start + count - 1; block_hash := hex_encode (fixture_hash (start + count - 1)) |}).
Proof.
  intros start Hs Hc Hw Hfits. unfold fixture_command, write_fixture_archive, fixture_blocks. fold start.
  rewrite bool_decide_true by done. cbn [ensure]. rsimpl.
  destruct (fixture_loop start 0 (Z.to_nat count) {| fl_state := indexer_new; fl_tip_hash := replicate 32 0; fl_previous := None; fl_blocks := [] |})
    as (st & bs & Hf & Hb & Hp & Ht); [lia..|rewrite Z.add_0_r; apply fixture_init|].
  rewrite Z2Nat.id, Z.add_0_r in * by lia. rewrite bool_decide_false in Ht by lia. cbn [fl_blocks app] in Hb. rewrite Hf. rsimpl.
  rewrite (wrap_small 64) by (unfold in_width; lia). rewrite Hb, Ht.
  destruct (fixture_writes start (seqZ start count) bs archive_new ∅ Hfits) as (m & Hm & Hl).
  - apply Forall_forall. intros h Hh%elem_of_seqZ. unfold in_width. lia.
  - apply NoDup_seqZ.
  - done.
  - intros h _. by rewrite lookup_empty.
  - eexists _, m. split; [reflexivity|]. split_and!.
    + exact Hm.
    + intros h. specialize (Hl h). case_bool_decide as H1; case_bool_decide as H2; rewrite elem_of_seqZ in *; try lia; [done|].
      by rewrite Hl, lookup_empty.
    + unfold file_tip, write_manifest, read_manifest. cbn [manifest_file ok_or]. rsimpl. by rewrite from_json_to_vec.
Qed.
End archive.

(** The archive of the fixture is not folded forward: the command never marks the
    outputs that a later block spends.  A cut-through response then leaves out the
    spend, and keeps the output it spends. *)
Theorem fixture_cutthrough_unbalanced (start h : Z) (s s' : StoredLightBlockInput) (reuse : bool) (l : option Z) :
  start ≤ h → fixture_block start h s → fixture_block start (h + 1) s' →
  let f := {| cutthrough_start := Some start; cutthrough_tip := None; filter_reuse := false; labels := l |} in
  h + 1 ≤ U64_MAX →
  spent_uid <$> sb_spends s' = [sb_first_uid s + 1] ∧ kept_outputs (sb_height s) f (sb_outputs s) = sb_outputs s ∧
  kept_spends (sb_height s') f (sb_spends s') = [].
Proof.
  intros Hh Hs Hs' f Hmax. pose proof (fx_spends _ _ _ Hs') as Hsp. rewrite bool_decide_false in Hsp by lia. split_and!.
  - rewrite Hsp, (fx_first_uid _ _ _ Hs). cbn. f_equal. lia.
  - unfold kept_outputs. pose proof (fx_unspent _ _ _ Hs) as Hu. induction Hu as [|o os Ho _ IH]; [done|].
    rewrite filter_cons_True, IH; [done|]. unfold kept, should_omit_stored_output. cbn.
    by rewrite Ho, (bool_decide_false (_ ≠ _)), andb_false_r by (intros E; by destruct E).
  - rewrite Hsp. unfold kept_spends. rewrite filter_cons_False; [done|]. unfold should_omit_stored_spend. cbn.
    destruct (fx_header _ _ _ Hs') as (-> & _). rewrite !bool_decide_true by lia. done.
Qed.

#[local] Existing Instances toy_sha256 toy_json.
#[local] Instance fixture_light : CapnpPacked light_block := toy_capnp light_block.
#[local] Instance fixture_stored : CapnpPacked stored_light_block := toy_capnp stored_light_block.
#[local] Instance fixture_hex : Hex := {| hex_encode b := b |}.

Lemma fixture_archive_witness :
  ∃ fs m, fixture_command archive_new Mainnet (Some 0) 2 = (fs, Ok tt) ∧ holds_blocks fs m ∧
    (∀ h, if bool_decide (0 ≤ h < 0 + 2) then ∃ s, fixture_block 0 h s ∧ m !! h = Some (norm_stored s) else m !! h = None) ∧
    file_tip fs = Ok (Some {| height := 0 + 2 - 1; block_hash := fixture_hash (0 + 2 - 1) |}).
Proof.
  destruct (fixture_archive Mainnet (Some 0) 2) as (fs & m & E & Hm & Hl & Ht); [cbn; lia..|done|].
  exists fs, m. split; [exact E|]. split; [exact Hm|]. split; [exact Hl|]. exact Ht.
Defined.

(** Two blocks, computed: the second spends the UID 2. *)
Example fixture_two_blocks :
  match fixture_blocks 0 2 with
  | Ok (bs, tip, _, last) =>
      ((λ b, match decode_stored_light_block (fb_bytes b) with Ok s => Some (spent_uid <$> sb_spends s) | _ => None end) <$> bs, tip, last)
  | _ => ([], 0, 0)
  end = ([Some []; Some [2]], 1, 4).
Proof. vm_compute. reflexivity. Qed.
