(* ===== verification/ArchiveCoins.v ===== *)
(** * The archive the indexer leaves, as a light client reads it

    A client that syncs from the blocks the indexer archived, cut through or not, ends
    with the coins the indexer holds.  The spends a block records are those of the coins
    its inputs name; every output is marked with the height of the block that spends it;
    so spend records and spent heights agree on every range ([chain_consistent]). *)

From S2P Require Import Prelude Bits Decimal Helper TaggedHash Bitmap SpentIds OutputHash LightBlock LightValid LightWire LightFilter CutThrough UndoPayload P2trIndexer P2trFacts Indexer ScriptClassify SpTweak Kv IndexStore IndexerCache ArchiveBackend FileArchive JsonWire Profile Sources Tasks LightIndexer LightIndexerFacts LightIndexerSync LightIndexerToy LightIndexerRun.

(** ** What flows through a block *)

(** A spent coin's record, against the coin. *)
Definition spends_coin (x : SpentScopedUtxo) (s : SpendLookup) : Prop :=
  su_uid x = sl_uid s ∧ su_creation_height x = sl_creation_height s ∧ su_output_index x = sl_output_index s.

Record flow (m0 : index_map) (ins pts : list OutPointKey) (m : index_map) (created : list CreatedScopedUtxo)
    (spent : list SpentScopedUtxo) (outputs : list StoredOutputEntryInput) : Prop := {
  fl_source : ∀ o s, m !! o = Some s → coin_of m0 created o s;
  (** the k-th created coin is the k-th stored output *)
  fl_index : length created = length outputs ∧
    ∀ k c, created !! k = Some c → ue_output_index (cu_entry c) = Z.of_nat k;
  fl_points : ∀ c, c ∈ created → ue_outpoint (cu_entry c) ∈ pts;
  fl_spent : ∀ x, x ∈ spent → ∃ s, coin_of m0 created (su_outpoint x) s ∧ spends_coin x s;
  (** each input spends at most one coin *)
  fl_once : (su_outpoint <$> spent) `sublist_of` ins;
  (** no coin is lost: it is held or its spend recorded *)
  fl_kept : NoDup pts → (∀ o, o ∈ pts → m0 !! o = None) → ∀ o s, coin_of m0 created o s →
    m !! o = Some s ∨ ∃ x, x ∈ spent ∧ su_outpoint x = o ∧ spends_coin x s
}.

(** What an input step records of the coin it spends. *)
Lemma input_spends b tx a i a' : apply_input b tx a i = Ok a' →
  acc_created a' = acc_created a ∧ acc_outputs a' = acc_outputs a ∧
  ((outpoint_to_spend (acc_self a') = outpoint_to_spend (acc_self a) ∧ acc_spent a' = acc_spent a) ∨
   ∃ s x, outpoint_to_spend (acc_self a) !! ti_previous_output i = Some s ∧ su_outpoint x = ti_previous_output i ∧
    spends_coin x s ∧
    outpoint_to_spend (acc_self a') = delete (ti_previous_output i) (outpoint_to_spend (acc_self a)) ∧
    acc_spent a' = acc_spent a ++ [x]).
Proof.
  unfold apply_input. destruct (outpoint_to_spend (acc_self a) !! ti_previous_output i) as [s|] eqn:E.
  - intros (h & _ & [= <-])%bind_Ok. split_and!; [done|done|]. right. eexists s, _. cbn.
    split_and!; [done| | |reflexivity|reflexivity]; done.
  - intros [= <-]. split_and!; [done|done|]. by left.
Qed.

Lemma flow_input b m0 ins pts a tx i a' :
  at_acc (flow m0) ins pts a → apply_input b tx a i = Ok a' → at_acc (flow m0) (ins ++ [ti_previous_output i]) pts a'.
Proof.
  unfold at_acc. intros [Hs Hi Hp Hsp Ho Hk] (Ec & Eo & [(Em & Es)|(s & x & En & E1 & E2 & Em & Es)])%input_spends;
    rewrite ?Ec, ?Eo, ?Em, ?Es.
  - split; try done. by apply sublist_inserts_r.
  - split; [| done | done | | |].
    + intros o c [_ Hoc]%lookup_delete_Some. by apply Hs.
    + intros y [Hy| ->%list_elem_of_singleton]%elem_of_app; [by apply Hsp|]. exists s. rewrite E1. split; [by apply Hs|done].
    + rewrite fmap_app. apply sublist_app; [done|]. cbn. by rewrite E1.
    + intros Hn Hf o c Hc. destruct (Hk Hn Hf o c Hc) as [Hm|(y & Hy & ?)].
      * rewrite lookup_delete. case_decide as Ed; [|by left]. subst o. rewrite En in Hm. injection Hm as ->.
        right. exists x. split; [|done]. apply elem_of_app. right. by apply list_elem_of_singleton.
      * right. exists y. split; [|done]. apply elem_of_app. by left.
Qed.

Lemma flow_output b m0 ins pts fu t tx o t' :
  at_acc (flow m0) ins pts (ta_acc t) → apply_output b fu tx t o = Ok t' →
  at_acc (flow m0) ins (pts ++ if to_is_p2tr o then [out_point (tx, o)] else []) (ta_acc t').
Proof.
  unfold at_acc. intros [Hs [Hl Hi] Hp Hsp Ho Hk] [(Em & Ec & Es & Eo)|(Et & c & e & E1 & E2 & E3 & E4 & Em & Ec & Es & Eo)]%output_step;
    rewrite ?Ec, ?Eo, ?Em, ?Es.
  - split; try done.
    + intros y Hy. apply elem_of_app. left. by apply Hp.
    + intros Hn Hf. apply Hk; [by apply NoDup_app in Hn as [? _]|]. intros o' Ho'. apply Hf, elem_of_app. by left.
  - rewrite Et. assert (acc_created (ta_acc t) ⊆ acc_created (ta_acc t) ++ [c]) as Hsub by set_solver. split.
    + intros o' s. unfold add_created. intros [[<- <-]|[_ Hm]]%lookup_insert_Some.
      * right. exists c. rewrite elem_of_app, list_elem_of_singleton. tauto.
      * eapply coin_of_mono; [|by apply Hs]. done.
    + rewrite !length_app, Hl. split; [done|]. intros k y [Hy|[Hle [Hk0 <-]%list_lookup_singleton_Some]]%lookup_app_Some; [by apply Hi|].
      rewrite E3. lia.
    + intros y [Hy| ->%list_elem_of_singleton]%elem_of_app; rewrite elem_of_app; [left; by apply Hp|right].
      rewrite E1. by apply list_elem_of_singleton.
    + intros y Hy. destruct (Hsp y Hy) as (s & Hcs & ?). exists s. split; [by eapply coin_of_mono|done].
    + done.
    + intros Hn Hf o' s Hc. apply NoDup_app in Hn as (Hn & Hdis & _).
      assert (Hf' : ∀ o, o ∈ pts → m0 !! o = None) by (intros; apply Hf, elem_of_app; by left).
      assert (Hnew : out_point (tx, o) ∈ [out_point (tx, o)]) by by apply list_elem_of_singleton.
      assert (Hold : coin_of m0 (acc_created (ta_acc t)) o' s → o' ≠ out_point (tx, o)).
      { intros [Hm|(c' & Hc' & Eo' & _)] ->.
        - rewrite Hf in Hm; [done|]. apply elem_of_app. by right.
        - apply (Hdis (ue_outpoint (cu_entry c'))); [by apply Hp|by rewrite Eo']. }
      unfold add_created. destruct Hc as [Hm|(c' & [Hc'| ->%list_elem_of_singleton]%elem_of_app & Eo' & Es')].
      * rewrite lookup_insert_ne by (rewrite E1; apply not_eq_sym, Hold; by left). apply Hk; [done..|by left].
      * rewrite lookup_insert_ne by (rewrite E1; apply not_eq_sym, Hold; right; by exists c'). apply Hk; [done..|right; by exists c'].
      * left. rewrite <-Eo', <-Es'. apply lookup_insert_eq.
Qed.

Lemma flow_block `{SH : !Sha256} self b out self' : apply_block_with_stats self b = Ok (out, self') →
  flow (outpoint_to_spend self) (named (bk_txs b)) (points (bk_txs b)) (outpoint_to_spend self')
    (ab_created_utxos out) (ab_spent_utxos out) (sb_outputs (ab_storage_block out)).
Proof.
  apply (walk_block (flow (outpoint_to_spend self)) b).
  - intros. by eapply flow_input.
  - intros. by eapply flow_output.
  - split; try done.
    + intros o s Hs. by left.
    + by intros c ?%not_elem_of_nil.
    + by intros c ?%not_elem_of_nil.
    + intros _ _ o s [?|(c & ?%not_elem_of_nil & _)]; [by left|done].
Qed.

(** The spend entries of the stored block are the spent coins' records. *)
Definition entry_of (x : SpentScopedUtxo) : StoredSpendEntryInput :=
  {| spent_uid := su_uid x; creation_height := su_creation_height x |}.
Definition entries (a : BlockAcc) : Prop := acc_spends a = entry_of <$> acc_spent a.

Lemma entries_input b tx a i a' : apply_input b tx a i = Ok a' → entries a → entries a'.
Proof.
  unfold apply_input, entries. destruct (_ !! _); [|by intros [= ->]].
  intros (c & [-> _]%try_from_Ok & [= <-])%bind_Ok E. cbn. by rewrite fmap_app, E.
Qed.
Lemma entries_output b fu tx t o t' : apply_output b fu tx t o = Ok t' → entries (ta_acc t) → entries (ta_acc t').
Proof.
  unfold entries. intros H E. unfold apply_output in H. destruct (negb (to_is_p2tr o)); [by injection H as <-|].
  apply bind_Ok in H as (? & _ & H). apply bind_Ok in H as (? & _ & H). apply bind_Ok in H as (k & _ & H).
  destruct (see_key _ _). destruct (_ || _); [by injection H as <-|].
  do 3 (apply bind_Ok in H as (? & _ & H)). by injection H as <-.
Qed.
Lemma entries_tx b fu n a tx a' : apply_tx b fu n a tx = Ok a' → entries a → entries a'.
Proof.
  intros H Hu. unfold apply_tx in H. apply bind_Ok in H as (a1 & H1 & H). apply bind_Ok in H as (t & H2 & H).
  apply (fold_res_ind (apply_input b tx) (λ _, entries)) in H1; [|done|by intros _ x s1 s2 ? Hs; eapply entries_input].
  apply (fold_res_ind (apply_output b fu tx) (λ _ t, entries (ta_acc t))) in H2;
    [|done|by intros _ x s1 s2 ? Hs; eapply entries_output].
  case_bool_decide; [|apply bind_Ok in H as (? & _ & H)].
  - destruct (tx_silent_payment_tweak tx); by injection H as <-.
  - by injection H as <-.
Qed.
Lemma entries_block `{SH : !Sha256} self b out self' : apply_block_with_stats self b = Ok (out, self') →
  sb_spends (ab_storage_block out) = entry_of <$> ab_spent_utxos out.
Proof.
  intros R. unfold apply_block_with_stats, finish_block in R.
  apply bind_Ok in R as (n & _ & R). apply bind_Ok in R as (bm & _ & R). apply bind_Ok in R as (a & Hf & R).
  do 4 (apply bind_Ok in R as (? & _ & R)). injection R as <- <-. cbn.
  apply (fold_res_ind _ (λ _, entries)) in Hf; [exact Hf|done|]. intros _ tx a1 a2 Hu Htx. by eapply entries_tx.
Qed.

(** ** The coins of a block *)

(** The UIDs of the coins held. *)
Definition held_uids (m : index_map) : gset Z := list_to_set ((λ p, sl_uid p.2) <$> map_to_list m).
Lemma elem_of_held m u : u ∈ held_uids m ↔ ∃ o s, m !! o = Some s ∧ sl_uid s = u.
Proof.
  unfold held_uids. rewrite elem_of_list_to_set, list_elem_of_fmap. split.
  - intros ([o s] & -> & Hin%elem_of_map_to_list). by exists o, s.
  - intros (o & s & Hs & <-). exists (o, s). split; [done|by apply elem_of_map_to_list].
Qed.

(** An unfiltered response adds the block's UIDs and removes the recorded spends. *)
Lemma client_apply_default coins s u : u ∈ client_apply filter_default coins s ↔
  (u ∈ coins ∨ u ∈ (created s).*1) ∧ u ∉ spent_uid <$> sb_spends s.
Proof.
  unfold client_apply, served_uids, served_spends, kept_spends.
  rewrite elem_of_difference, elem_of_union, !elem_of_list_to_set, !list_elem_of_fmap.
  setoid_rewrite list_elem_of_filter. split.
  - intros [Hu Hn]. split; [|by intros (e & ? & ?); apply Hn; exists e]. destruct Hu as [|(c & ? & _ & ?)]; [by left|right; by exists c].
  - intros [Hu Hn]. split; [|by intros (e & ? & _ & ?); apply Hn; exists e]. destruct Hu as [|(c & ? & ?)]; [by left|right; by exists c].
Qed.

(** A client that applies the unfiltered block moves as the indexer does. *)
Lemma client_block `{SH : !Sha256} self b out self' :
  apply_block_with_stats self b = Ok (out, self') → block_result self b out self' →
  NoDup (points (bk_txs b)) → (∀ o, o ∈ points (bk_txs b) → outpoint_to_spend self !! o = None) →
  client_apply filter_default (held_uids (outpoint_to_spend self)) (ab_storage_block out) = held_uids (outpoint_to_spend self').
Proof.
  intros Ha R Hn Hf. destruct (flow_block _ _ _ _ Ha) as [Hs _ _ Hsp _ Hk]. specialize (Hk Hn Hf).
  apply leibniz_equiv. intros u. rewrite client_apply_default, (block_uids _ _ _ _ R), !elem_of_held. split.
  - intros [Hu Hns]. assert (∃ o s, coin_of (outpoint_to_spend self) (ab_created_utxos out) o s ∧ sl_uid s = u) as (o & s & Hc & Eu).
    { destruct Hu as [(o & s & Hm & ?)|(c & -> & Hc)%list_elem_of_fmap]; [exists o, s; split; [by left|done]|].
      exists (ue_outpoint (cu_entry c)), (created_lookup c). split; [right; by exists c|done]. }
    destruct (Hk o s Hc) as [Hm|(x & Hx & _ & Ex & _)]; [by exists o, s|]. destruct Hns.
    rewrite (entries_block _ _ _ _ Ha), <-list_fmap_compose. apply list_elem_of_fmap. exists x. split; [|done]. cbn. congruence.
  - intros (o & s & Hm & <-). split; [|by eapply br_spent_fresh].
    destruct (Hs o s Hm) as [Hm0|(c & Hc & _ & <-)]; [left; by exists o, s|right].
    apply list_elem_of_fmap. by exists c.
Qed.

(** ** What flows through a chain *)

Record chain_flow (m0 : index_map) (blocks : list BlockScanInput) (outs : list AppliedBlock) : Prop := {
  cf_index : ∀ out, out ∈ outs → length (ab_created_utxos out) = length (sb_outputs (ab_storage_block out)) ∧
    ∀ k c, ab_created_utxos out !! k = Some c → ue_output_index (cu_entry c) = Z.of_nat k;
  cf_entries : ∀ out, out ∈ outs → sb_spends (ab_storage_block out) = entry_of <$> ab_spent_utxos out;
  cf_spent : ∀ out x, out ∈ outs → x ∈ ab_spent_utxos out →
    ∃ s, (m0 !! su_outpoint x = Some s ∨ created_in outs (su_outpoint x) s) ∧ spends_coin x s;
  cf_once : (su_outpoint <$> (outs ≫= ab_spent_utxos)) `sublist_of` named (txs_of blocks)
}.

Lemma created_in_cons out outs o s : created_in outs o s → created_in (out :: outs) o s.
Proof. intros (out' & c & ? & ?). exists out', c. split; [by right|done]. Qed.
Lemma coin_of_created m0 out outs o s : coin_of m0 (ab_created_utxos out) o s → m0 !! o = Some s ∨ created_in (out :: outs) o s.
Proof. intros [?|(c & ? & ? & ?)]; [by left|right]. exists out, c. split_and!; [left|done..]. Qed.

Lemma flow_chain `{SH : !Sha256} self blocks outs self' : apply_blocks self blocks = Ok (outs, self') →
  chain_flow (outpoint_to_spend self) blocks outs.
Proof.
  revert self outs. induction blocks as [|b blocks IH]; intros self outs H; cbn [apply_blocks] in H.
  { injection H as <- <-. split; [by intros ? ?%not_elem_of_nil|by intros ? ?%not_elem_of_nil|by intros ? ? ?%not_elem_of_nil|done]. }
  apply bind_Ok in H as ([out self1] & Hb & H). apply bind_Ok in H as ([outs' self2] & Hbs & [= <- <-]).
  pose proof (flow_block self b out self1 Hb) as [Hs Hi _ Hsp Ho _]. pose proof (entries_block _ _ _ _ Hb) as He.
  destruct (IH self1 outs' Hbs) as [Hi1 He1 Hs1 Ho1]. split.
  - by intros out' [->|?]%elem_of_cons; [|apply Hi1].
  - by intros out' [->|?]%elem_of_cons; [|apply He1].
  - intros out' x [->|Hout]%elem_of_cons Hx.
    + destruct (Hsp x Hx) as (s & Hc & ?). exists s. split; [by apply coin_of_created|done].
    + destruct (Hs1 out' x Hout Hx) as (s & [Hc%Hs%(coin_of_created _ _ outs')|Hc%(created_in_cons out)] & ?);
        exists s; (split; [done || by right|done]).
  - rewrite bind_cons, fmap_app, txs_of_cons, named_app. by apply sublist_app.
Qed.

(** ** What marking does to an output *)

Lemma marks_effect l m c s : m !! c = Some s → Forall (λ x : spend, 0 ≤ x.1.2) l →
  ∃ s', (foldl mark1 (m, 0%nat) l).1 !! c = Some s' ∧ ∀ k o', sb_outputs s' !! k = Some o' →
    (∃ o, sb_outputs s !! k = Some o ∧ spent_height o' = spent_height o ∧ ∀ t, (c, Z.of_nat k, t) ∉ l) ∨
    (c, Z.of_nat k, spent_height o') ∈ l.
Proof.
  intros Hm Hl. revert m s Hm. induction Hl as [|[[ci i] hs] l Hi Hl IH]; intros m s Hm.
  { exists s. split; [done|]. intros k o' Ho. left. exists o'. split_and!; [done..|]. intros t. apply not_elem_of_nil. }
  cbn [foldl mark1]. cbn in Hi. destruct (decide (ci = c)) as [->|Hne].
  - rewrite Hm, (mark_one_count s 0%nat). rewrite marks_count.
    destruct (IH (<[c := (mark_one (s, 0%nat) (i, hs)).1]> m) (mark_one (s, 0%nat) (i, hs)).1) as (s' & Hs' & Hk); [apply lookup_insert_eq|].
    exists s'. split; [exact Hs'|]. intros k o' Ho. rewrite elem_of_cons. destruct (Hk k o' Ho) as [(o1 & Ho1 & E & Hn)|?]; [|by right; right].
    unfold mark_one in Ho1. cbn [fst snd] in Ho1. setoid_rewrite not_elem_of_cons.
    destruct (decide (k = Z.to_nat i)) as [->|Hki].
    + rewrite Z2Nat.id in * by done. right. left. f_equal. rewrite E.
      destruct (sb_outputs s !! Z.to_nat i) as [o|] eqn:Eo; [|cbn in Ho1; congruence].
      case_bool_decide as Eh; cbn in Ho1; [|rewrite Eo in Ho1; injection Ho1 as <-; by destruct (decide (spent_height o = hs))].
      rewrite list_lookup_insert_eq in Ho1 by by eapply lookup_lt_Some. by injection Ho1 as <-.
    + left. exists o1. split_and!; [|done|].
      * destruct (sb_outputs s !! Z.to_nat i); [|done]. case_bool_decide; [|done]. cbn in Ho1. by rewrite list_lookup_insert_ne in Ho1.
      * intros t. split; [intros [= E' _]; lia|apply Hn].
  - assert (∃ m', (mark1 (m, 0%nat) (ci, i, hs)).1 = m' ∧ m' !! c = Some s) as (m' & Em & Hm').
    { cbn [mark1]. destruct (m !! ci) as [st|]; [|by exists m]. destruct (mark_one (st, 0%nat) (i, hs)) as [st' n'].
      exists (<[ci := st']> m). split; [done|]. by rewrite lookup_insert_ne. }
    destruct (IH m' s Hm') as (s' & Hs' & Hk). exists s'. split.
    + cbn [mark1] in Em. destruct (match m !! ci with Some _ => _ | None => _ end) as [m1 n1]. cbn in Em. subst m1. by rewrite marks_count.
    + intros k o' Ho. rewrite elem_of_cons. setoid_rewrite not_elem_of_cons.
      destruct (Hk k o' Ho) as [(o & Ho1 & E & Hn)|?]; [left|by right; right].
      exists o. split_and!; [done..|]. intros t. split; [by intros [= <- _ _]|apply Hn].
Qed.

(** ** Archived blocks *)

(** What a client reads of heights [a], [a + 1], ... of an archive. *)
Definition archived_range (M : archive_map) (a : Z) (n : nat) : list StoredLightBlockInput :=
  omap (λ i, M !! i) (seqZ a (Z.of_nat n)).

Lemma elem_of_range M a n s : s ∈ archived_range M a n ↔ ∃ i, a ≤ i < a + Z.of_nat n ∧ M !! i = Some s.
Proof.
  unfold archived_range. rewrite list_elem_of_omap. split.
  - intros (i & Hi%elem_of_seqZ & ?). by exists i.
  - intros (i & Hi & ?). exists i. split; [by apply elem_of_seqZ|done].
Qed.
Lemma range_snoc M a n s : M !! (a + Z.of_nat n) = Some s → archived_range M a (S n) = archived_range M a n ++ [s].
Proof.
  intros Hs. unfold archived_range. replace (Z.of_nat (S n)) with (Z.of_nat n + 1) by lia.
  rewrite seqZ_app, omap_app by lia. f_equal. rewrite seqZ_cons by lia. cbn. by rewrite Hs.
Qed.

(** The creation UIDs of a block survive normalisation and marking. *)
Lemma created_marked s s' : marked_from (norm_stored s) s' → (created s').*1 = (created s).*1.
Proof.
  intros Hm. pose proof (marked_from_length _ _ Hm) as Hl. destruct Hm as (os & -> & _).
  change (length os = length (sb_outputs s)) in Hl. unfold created, dense_slots.
  change (sb_outputs (set_outputs (norm_stored s) os)) with os.
  change (sb_skipped_outputs (set_outputs (norm_stored s) os)) with (sb_skipped_outputs s).
  change (sb_first_uid (set_outputs (norm_stored s) os)) with (sb_first_uid s). rewrite Hl. clear -Hl.
  generalize ((λ slot, sb_first_uid s + slot) <$> filter (λ slot, slot ∉ sb_skipped_outputs s)
    (seqZ 0 (len (sb_outputs s) + len (sb_skipped_outputs s)))). intros l. generalize dependent (sb_outputs s).
  revert os. induction l as [|u l IH]; intros os os' Hl; [done|]. destruct os, os'; try discriminate; [done|].
  cbn [zip zip_with]. rewrite !fmap_cons. f_equal. apply IH. by injection Hl.
Qed.
Lemma created_lookup_output s k u o : created s !! k = Some (u, o) → (created s).*1 !! k = Some u ∧ sb_outputs s !! k = Some o.
Proof.
  intros Hk. split; [by rewrite list_lookup_fmap, Hk|]. unfold created in Hk.
  apply lookup_zip_with_Some in Hk as (? & ? & [= -> ->] & _ & ?). done.
Qed.

(** ** The archive of a chain is consistent *)

Lemma filter_sublist {A} (P : A → Prop) `{∀ x, Decision (P x)} (l k : list A) :
  l `sublist_of` k → Forall P l → l `sublist_of` filter P k.
Proof.
  induction 1 as [|x l k _ IH|x l k _ IH]; intros Hl; [done| |].
  - apply Forall_cons in Hl as [Hx Hl]. rewrite filter_cons_True by done. by constructor; apply IH.
  - rewrite filter_cons. case_decide; [constructor|]; by apply IH.
Qed.
Lemma nodup_fmap_inj {A B} (f : A → B) l x y : NoDup (f <$> l) → x ∈ l → y ∈ l → f x = f y → x = y.
Proof.
  intros Hn [i Hi]%list_elem_of_lookup [j Hj]%list_elem_of_lookup E.
  assert (i = j) as ->; [|congruence]. eapply NoDup_lookup; [exact Hn| |]; rewrite list_lookup_fmap.
  - by rewrite Hi.
  - by rewrite Hj, E.
Qed.

Section archive.
Context `{RB : !RustBitcoin, SD : !Scheduler, SC : !Secp, HH : !Hash160, ST : !ScriptTemplates, SH : !Sha256, KV : !KvStore,
          CL : !CapnpPacked light_block, CS : !CapnpPacked stored_light_block, MJ : !ManifestJson, HX : !Hex}.
Context (chain : Z → BlockScanInput) (full fulln : P2trIndexerState) (A : archive_map) (h : Z) (n : nat) (outs : list AppliedBlock).
Abbreviation segment := (segment chain).
Context (Hgood : good_range chain (outpoint_to_spend full) h n) (Hwf : indexer_wf h full)
  (Hcoins : coins_archived (outpoint_to_spend full) A h)
  (Hcap : next_uid full + 65538 * (Z.of_nat n + 1) < 2 ^ 64)
  (Hrun : apply_blocks full (segment h n) = Ok (outs, fulln)).
Abbreviation height out := (sb_height (ab_storage_block out)).
Abbreviation M := (archive_after A outs).

Lemma seg_wf : chain_wf h (segment h n).
Proof. by eapply segment_chain_wf. Qed.
Lemma seg_results : Forall2 (results (next_uid full) (next_uid fulln)) (segment h n) outs.
Proof. eapply chain_results; [exact Hwf|apply seg_wf| |exact Hrun]. by rewrite length_segment. Qed.
Lemma seg_uids : Forall (λ u, next_uid full < u ≤ next_uid fulln) (outs ≫= λ out, (created (ab_storage_block out)).*1) ∧
  NoDup (outs ≫= λ out, (created (ab_storage_block out)).*1).
Proof.
  destruct (apply_blocks_ok h full (segment h n) Hwf seg_wf) as (outs' & full' & E & _ & _ & _ & Hu & Hn); [by rewrite length_segment|].
  rewrite Hrun in E. injection E as <- <-. by split.
Qed.
Lemma seg_heights : (λ out, height out) <$> outs = seqZ h (Z.of_nat n).
Proof. eapply outs_heights; [intros i Hi; by apply (gr_block _ _ _ _ Hgood)|apply seg_results]. Qed.

Lemma out_range out : out ∈ outs → h ≤ height out < h + Z.of_nat n.
Proof.
  intros Hin. apply elem_of_seqZ. rewrite <-seg_heights. apply list_elem_of_fmap. by exists out.
Qed.
Lemma out_at i : h ≤ i < h + Z.of_nat n → ∃ out, out ∈ outs ∧ height out = i.
Proof.
  intros Hi%elem_of_seqZ. rewrite <-seg_heights in Hi. apply list_elem_of_fmap in Hi as (out & -> & ?). by exists out.
Qed.
Lemma out_eq out out' : out ∈ outs → out' ∈ outs → height out = height out' → out = out'.
Proof. apply (nodup_fmap_inj (λ out, height out)). rewrite seg_heights. apply NoDup_seqZ. Qed.
Lemma out_result out : out ∈ outs → ∃ b, b ∈ segment h n ∧ results (next_uid full) (next_uid fulln) b out ∧ recorded b out ∧ bk_height b = height out.
Proof.
  intros [i Hi]%list_elem_of_lookup. destruct (Forall2_lookup_r _ _ _ _ _ seg_results Hi) as (b & Hb & Hr).
  destruct (Forall2_lookup_r _ _ _ _ _ (cl_recorded _ _ _ _ (ledger_chain _ _ _ _ Hrun)) Hi) as (b' & Hb' & Hrec). simplify_eq.
  exists b. split_and!; [by eapply list_elem_of_lookup_2|done|done|]. symmetry. by eapply results_header.
Qed.

(** A coin spent in the range and created in it is the output its record points at. *)
Lemma spent_created out x : out ∈ outs → x ∈ ab_spent_utxos out → h ≤ su_creation_height x →
  ∃ out' k c, out' ∈ outs ∧ ab_created_utxos out' !! k = Some c ∧ su_output_index x = Z.of_nat k ∧
    height out' = su_creation_height x ∧ ue_uid (cu_entry c) = su_uid x ∧ ue_outpoint (cu_entry c) = su_outpoint x.
Proof.
  intros Hout Hx Hge. pose proof (flow_chain _ _ _ _ Hrun) as [Hi _ Hs _].
  destruct (Hs out x Hout Hx) as (s & [Hm|(out' & c & Hout' & Hc & Eo & <-)] & Eu & Eh & Ei).
  { destruct (Hcoins _ _ Hm) as [? _]. lia. }
  destruct (out_result out' Hout') as (b & _ & _ & [Hrec _] & Hb). destruct (Hrec c Hc) as (_ & Hch & _).
  apply list_elem_of_lookup in Hc as [k Hk]. destruct (Hi out' Hout') as [_ Hki]. specialize (Hki k c Hk).
  exists out', k, c. unfold created_lookup in *. cbn in *. split_and!; [done|done|congruence..].
Qed.

(** No outpoint is spent twice. *)
Lemma spent_once out out' x x' : out ∈ outs → out' ∈ outs → x ∈ ab_spent_utxos out → x' ∈ ab_spent_utxos out' →
  su_outpoint x = su_outpoint x' → x = x'.
Proof.
  intros Ho Ho' Hx Hx'. apply (nodup_fmap_inj su_outpoint (outs ≫= ab_spent_utxos)).
  2,3: apply list_elem_of_bind; by eexists.
  pose proof (flow_chain _ _ _ _ Hrun) as [_ _ Hs Honce]. eapply sublist_NoDup; [apply (gr_once _ _ _ _ Hgood)|].
  apply filter_sublist; [done|]. apply Forall_fmap, Forall_forall. intros y (o & Hy & Hin)%list_elem_of_bind. cbn. intros E.
  destruct (Hs o y Hin Hy) as (s & [Hm|(o' & c & Hin' & Hc & Eo & _)] & _).
  { rewrite E, (gr_null _ _ _ _ Hgood) in Hm. done. }
  destruct (out_result o' Hin') as (b & Hb & _ & [Hrec _] & _). destruct (Hrec c Hc) as (Hp & _).
  destruct (gr_fresh _ _ _ _ Hgood (ue_outpoint (cu_entry c))) as (_ & Hne & _); [|congruence].
  unfold points, p2tr_outs, txs_of in *. apply list_elem_of_fmap in Hp as (p & -> & Hp). apply list_elem_of_fmap_2.
  apply list_elem_of_bind in Hp as (tx & Hp & Htx). apply list_elem_of_bind. exists tx. split; [done|].
  apply list_elem_of_bind. by exists b.
Qed.

(** The archived version of a block's result: its UIDs, its spends, and every output
    marked with the height of the block that spends it. *)
Record stands_for (out : AppliedBlock) (s : StoredLightBlockInput) : Prop := {
  sf_lookup : M !! height out = Some s;
  sf_height : sb_height s = height out;
  sf_uids : (created s).*1 = (λ c, ue_uid (cu_entry c)) <$> ab_created_utxos out;
  sf_spends : sb_spends s = entry_of <$> ab_spent_utxos out;
  sf_length : length (sb_outputs s) = length (ab_created_utxos out);
  sf_raw : sb_raw_block_bytes s ≠ 0;
  sf_marks : ∀ k o, sb_outputs s !! k = Some o →
    (spent_height o = STORAGE_SPENT_HEIGHT_UNSPENT ∧ ∀ t, (height out, Z.of_nat k, t) ∉ spends_of outs) ∨
    (height out, Z.of_nat k, spent_height o) ∈ spends_of outs
}.

Lemma spends_of_elem x : x ∈ spends_of outs ↔ ∃ out sp, out ∈ outs ∧ sp ∈ ab_spent_utxos out ∧
  x = (su_creation_height sp, su_output_index sp, su_spent_height sp).
Proof.
  unfold spends_of. rewrite list_elem_of_bind. setoid_rewrite list_elem_of_fmap. split.
  - intros (out & (sp & -> & ?) & ?). by exists out, sp.
  - intros (out & sp & ? & ? & ->). exists out. split; [by exists sp|done].
Qed.

Lemma archived_block out : out ∈ outs → ∃ s, stands_for out s.
Proof.
  intros Hout. destruct (out_result out Hout) as (b & Hb & (s0 & s1 & R & _) & _ & Hbh).
  pose proof (flow_chain _ _ _ _ Hrun) as [Hi He _ _]. destruct (Hi out Hout) as [Hlen _].
  assert (foldl store_block A outs !! height out = Some (norm_stored (ab_storage_block out))) as Hst.
  { apply stored_lookup; [rewrite seg_heights; apply NoDup_seqZ|done|done]. }
  destruct (marks_effect (spends_of outs) _ _ _ Hst) as (s & Hs & Hk).
  { apply Forall_forall. intros x (out' & sp & Hout' & Hsp & ->)%spends_of_elem. cbn.
    destruct (cl_spent _ _ _ _ (ledger_chain _ _ _ _ Hrun) out' sp Hout' Hsp) as (c & [Hc|Hc] & _ & ->).
    - by destruct (Hcoins _ _ Hc) as (_ & ? & _).
    - destruct Hc as (o2 & c2 & Ho2 & Hc2 & _ & <-). destruct (out_result o2 Ho2) as (b2 & _ & _ & [Hrec _] & _).
      destruct (Hrec c2 Hc2) as (_ & _ & ?). unfold created_lookup. cbn. lia. }
  exists s. pose proof Hs as (s2 & Hs2 & Hm)%marks_keep. rewrite Hst in Hs2. injection Hs2 as <-.
  pose proof (marked_from_length _ _ Hm) as Hl. change (length (sb_outputs s) = length (sb_outputs (ab_storage_block out))) in Hl.
  split; [exact Hs| | | |congruence| |].
  - by destruct Hm as (os & -> & _).
  - by rewrite (created_marked _ _ Hm), (block_uids _ _ _ _ R).
  - rewrite <-He by done. by destruct Hm as (os & -> & _).
  - destruct (br_header _ _ _ _ R) as (_ & _ & _ & Er). apply segment_elem in Hb as (i & -> & Hb).
    pose proof (bw_raw _ (proj2 (gr_block _ _ _ _ Hgood i Hb))). destruct Hm as (os & -> & _). cbn. lia.
  - intros k o Ho. destruct (Hk k o Ho) as [(o0 & Ho0 & E & Hn)|?]; [left|by right]. split; [|done].
    destruct (Forall2_lookup_l _ _ _ _ _ (br_outputs _ _ _ _ R) Ho0) as (sp & _ & _ & _ & Hu & _). congruence.
Qed.
Lemma archived_at i s : h ≤ i < h + Z.of_nat n → M !! i = Some s → ∃ out, out ∈ outs ∧ height out = i ∧ stands_for out s.
Proof.
  intros Hi Hs. destruct (out_at i Hi) as (out & Hout & <-). exists out. split_and!; [done|done|].
  destruct (archived_block out Hout) as (s' & Hs'). pose proof (sf_lookup _ _ Hs'). congruence.
Qed.

(** The created pairs of an archived block are its coins with their stored outputs. *)
Lemma created_coin out s u o : stands_for out s → (u, o) ∈ created s →
  ∃ k c, ab_created_utxos out !! k = Some c ∧ ue_uid (cu_entry c) = u ∧ sb_outputs s !! k = Some o.
Proof.
  intros Hs [k [Hu Ho]%created_lookup_output]%list_elem_of_lookup. rewrite (sf_uids _ _ Hs), list_lookup_fmap in Hu.
  destruct (ab_created_utxos out !! k) as [c|] eqn:E; [|done]. injection Hu as <-. by exists k, c.
Qed.
Lemma coin_created out s k c : stands_for out s → ab_created_utxos out !! k = Some c →
  ∃ o, (ue_uid (cu_entry c), o) ∈ created s ∧ sb_outputs s !! k = Some o.
Proof.
  intros Hs Hk. assert ((created s).*1 !! k = Some (ue_uid (cu_entry c))) as Hu by (by rewrite (sf_uids _ _ Hs), list_lookup_fmap, Hk).
  rewrite list_lookup_fmap in Hu. destruct (created s !! k) as [[u o]|] eqn:E; [|done]. injection Hu as ->.
  exists o. split; [by eapply list_elem_of_lookup_2|by apply created_lookup_output in E as [_ ?]].
Qed.

(** A UID names one coin of the chain. *)
Lemma uid_once out out' c c' : out ∈ outs → out' ∈ outs → c ∈ ab_created_utxos out → c' ∈ ab_created_utxos out' →
  ue_uid (cu_entry c) = ue_uid (cu_entry c') → c = c'.
Proof.
  intros Ho Ho' Hc Hc'. apply (nodup_fmap_inj (λ c, ue_uid (cu_entry c)) (outs ≫= ab_created_utxos)).
  2,3: apply list_elem_of_bind; by eexists.
  destruct seg_uids as [_ Hn]. enough ((λ c, ue_uid (cu_entry c)) <$> (outs ≫= ab_created_utxos) =
    outs ≫= λ out, (created (ab_storage_block out)).*1) as -> by done.
  assert (∀ l, (∀ out, out ∈ l → out ∈ outs) → (λ c, ue_uid (cu_entry c)) <$> (l ≫= ab_created_utxos) =
    l ≫= λ out, (created (ab_storage_block out)).*1) as Hall; [|by apply Hall].
  induction l as [|o l IH]; intros Hin; [done|]. rewrite !bind_cons, fmap_app, IH by (intros; apply Hin; by right).
  destruct (out_result o (Hin o (list_elem_of_here _ _))) as (b & _ & (s0 & s1 & R & _) & _). by rewrite (block_uids _ _ _ _ R).
Qed.
Lemma uid_fresh out c : out ∈ outs → c ∈ ab_created_utxos out → next_uid full < ue_uid (cu_entry c) ≤ next_uid fulln.
Proof.
  intros Ho Hc. destruct seg_uids as [Hu _]. rewrite Forall_forall in Hu. apply Hu, list_elem_of_bind. exists out. split; [|done].
  destruct (out_result out Ho) as (b & _ & (s0 & s1 & R & _) & _). rewrite (block_uids _ _ _ _ R). apply list_elem_of_fmap. by exists c.
Qed.
Lemma spent_at out x : out ∈ outs → x ∈ ab_spent_utxos out → su_spent_height x = height out ∧ su_creation_height x ≤ height out.
Proof.
  intros Ho Hx. destruct (out_result out Ho) as (b & _ & (s0 & s1 & R & _) & [_ Hrec] & Hb).
  destruct (Hrec x Hx) as [_ ->]. split; [done|]. pose proof (sv_creation _ (br_valid _ _ _ _ R)) as Hc.
  rewrite (cf_entries _ _ _ (flow_chain _ _ _ _ Hrun) out Ho), Forall_fmap, Forall_forall in Hc. by apply Hc.
Qed.

Lemma range_nth a k i : h ≤ a → a + Z.of_nat k ≤ h + Z.of_nat n → (i < k)%nat → ∃ out s, out ∈ outs ∧
  height out = a + Z.of_nat i ∧ stands_for out s ∧ M !! (a + Z.of_nat i) = Some s.
Proof.
  intros Ha Hk Hi. destruct (out_at (a + Z.of_nat i)) as (out & Hout & E); [lia|].
  destruct (archived_block out Hout) as [s Hs]. exists out, s. split_and!; [done..|]. rewrite <-E. apply (sf_lookup _ _ Hs).
Qed.
Lemma range_sorted a k : h ≤ a → a + Z.of_nat k ≤ h + Z.of_nat n →
  StronglySorted (λ s s', sb_height s < sb_height s') (archived_range M a k).
Proof.
  intros Ha. induction k as [|k IH]; intros Hk; [constructor|].
  destruct (range_nth a (S k) k) as (out & s & Hout & E & Hs & Hl); [done..|lia|]. rewrite (range_snoc _ _ _ s) by done.
  apply StronglySorted_app_2; [|apply IH; lia|repeat constructor].
  intros s' s2 (i & Hi & Hs')%elem_of_range ->%list_elem_of_singleton. destruct (archived_at i s') as (out' & _ & <- & Hst); [lia|done|].
  rewrite (sf_height _ _ Hs), (sf_height _ _ Hst). lia.
Qed.
Lemma range_unique a k : h ≤ a → a + Z.of_nat k ≤ h + Z.of_nat n →
  NoDup (archived_range M a k ≫= λ s, (created s).*1).
Proof.
  intros Ha. induction k as [|k IH]; intros Hk; [constructor|].
  destruct (range_nth a (S k) k) as (out & s & Hout & E & Hs & Hl); [done..|lia|]. rewrite (range_snoc _ _ _ s), bind_app, bind_cons, app_nil_r by done.
  apply NoDup_app. split; [apply IH; lia|]. split.
  - intros u (s' & Hu & (i & Hi & Hs')%elem_of_range)%list_elem_of_bind. destruct (archived_at i s') as (out' & Hout' & <- & Hst); [lia|done|].
    rewrite (sf_uids _ _ Hst) in Hu. rewrite (sf_uids _ _ Hs). intros (c & -> & Hc)%list_elem_of_fmap.
    apply list_elem_of_fmap in Hu as (c' & Eu & Hc'). assert (c = c') as -> by (by eapply uid_once; [exact Hout|exact Hout'|..]).
    destruct (out_result out Hout) as (b & _ & _ & [Hrec _] & Hb), (out_result out' Hout') as (b' & _ & _ & [Hrec' _] & Hb').
    destruct (Hrec c' Hc) as (_ & E1 & _), (Hrec' c' Hc') as (_ & E2 & _). lia.
  - destruct (out_result out Hout) as (b & _ & (s0 & s1 & R & _) & _). rewrite (sf_uids _ _ Hs), <-(block_uids _ _ _ _ R).
    by eapply block_uids_nodup.
Qed.

(** A recorded spend of a coin created at [a] or later is marked on its output. *)
Lemma spend_marked out x : out ∈ outs → x ∈ ab_spent_utxos out → h ≤ su_creation_height x →
  ∃ out' s o, out' ∈ outs ∧ height out' = su_creation_height x ∧ stands_for out' s ∧ (su_uid x, o) ∈ created s ∧
    spent_height o = height out.
Proof.
  intros Hout Hx Hge. destruct (spent_created out x Hout Hx Hge) as (out' & k & c & Hout' & Hk & Ei & Eh & Eu & Eo).
  destruct (archived_block out' Hout') as [s Hs]. destruct (coin_created out' s k c Hs Hk) as (o & Hc & Ho).
  exists out', s, o. rewrite <-Eu. split_and!; [done..|]. destruct (spent_at out x Hout Hx) as [Et _].
  destruct (sf_marks _ _ Hs k o Ho) as [[_ Hn]|Hm].
  - destruct (Hn (height out)). apply spends_of_elem. exists out, x. split_and!; [done..|]. by rewrite Eh, Ei, Et.
  - apply spends_of_elem in Hm as (out2 & x2 & Hout2 & Hx2 & [= E1 E2 ->]).
    destruct (spent_created out2 x2 Hout2 Hx2) as (out3 & k2 & c2 & Hout3 & Hk2 & Ei2 & Eh2 & Eu2 & Eo2); [lia|].
    assert (out3 = out') as -> by (apply out_eq; [done..|congruence]).
    assert (k2 = k) as -> by lia. assert (c2 = c) as -> by congruence.
    assert (x2 = x) as -> by (eapply spent_once; [exact Hout2|exact Hout|done|done|congruence]). done.
Qed.

(** Every range of the archive is consistent, whatever was marked above it. *)
Lemma range_consistent a k : h ≤ a → a + Z.of_nat k ≤ h + Z.of_nat n →
  chain_consistent a (a + Z.of_nat k - 1) (archived_range M a k).
Proof.
  intros Ha Hk.
  assert (Hat : ∀ s, s ∈ archived_range M a k → ∃ out, out ∈ outs ∧ a ≤ height out < a + Z.of_nat k ∧ stands_for out s).
  { intros s (i & Hi & Hs)%elem_of_range. destruct (archived_at i s) as (out & Hout & <- & ?); [lia|done|]. by exists out. }
  assert (Hin : ∀ out s, a ≤ height out < a + Z.of_nat k → stands_for out s → s ∈ archived_range M a k).
  { intros out s Hr Hs. apply elem_of_range. exists (height out). split; [done|apply (sf_lookup _ _ Hs)]. }
  split.
  - apply Forall_forall. intros s (out & _ & ? & Hs)%Hat. rewrite (sf_height _ _ Hs). lia.
  - by apply range_sorted.
  - by apply range_unique.
  - intros s u o (out & Hout & Hr & Hs)%Hat Ho Hne Hle.
    destruct (created_coin out s u o Hs Ho) as (j & c & Hc & Eu & Hoj).
    destruct (sf_marks _ _ Hs j o Hoj) as [[? _]|Hm]; [done|].
    apply spends_of_elem in Hm as (out' & x & Hout' & Hx & [= E1 E2 E3]). destruct (spent_at out' x Hout' Hx) as [Et Hc'].
    rewrite (sf_height _ _ Hs). split; [lia|]. destruct (archived_block out' Hout') as [s' Hs'].
    exists s', (entry_of x). split_and!.
    + apply (Hin out'); [lia|done].
    + rewrite (sf_height _ _ Hs'). congruence.
    + rewrite (sf_spends _ _ Hs'). by apply list_elem_of_fmap_2.
    + destruct (spent_created out' x Hout' Hx) as (out2 & k2 & c2 & Hout2 & Hk2 & Ei2 & Eh2 & Eu2 & _); [lia|].
      assert (out2 = out) as -> by (apply out_eq; [done..|congruence]). cbn. rewrite <-Eu2, <-Eu.
      assert (k2 = j) as -> by lia. congruence.
  - intros s e (out & Hout & Hr & Hs)%Hat He Hge. rewrite (sf_spends _ _ Hs) in He. apply list_elem_of_fmap in He as (x & -> & Hx).
    cbn in Hge. destruct (spend_marked out x Hout Hx) as (out' & s' & o & Hout' & Eh & Hs' & Hc & Ht); [lia|].
    destruct (spent_at out x Hout Hx) as [_ Hle]. exists s', o. rewrite (sf_height _ _ Hs). split_and!; [|done..]. apply (Hin out'); [lia|done].
  - intros s e s' o (out & Hout & Hr & Hs)%Hat He (out' & Hout' & Hr' & Hs')%Hat Ho.
    rewrite (sf_spends _ _ Hs) in He. apply list_elem_of_fmap in He as (x & -> & Hx). cbn in *. rewrite (sf_height _ _ Hs').
    destruct (created_coin out' s' _ o Hs' Ho) as (j & c & Hc & Eu & _). apply list_elem_of_lookup_2 in Hc.
    destruct (cf_spent _ _ _ (flow_chain _ _ _ _ Hrun) out x Hout Hx) as (y & [Hy|(out2 & c2 & Hout2 & Hc2 & _ & <-)] & Ey & Eh & _).
    + pose proof (sw_uid _ _ _ (proj2 Hwf) _ _ Hy). pose proof (uid_fresh out' c Hout' Hc). lia.
    + assert (c2 = c) as ->. { eapply uid_once; [exact Hout2|exact Hout'|done|done|]. rewrite Eu, Ey. done. }
      rewrite Eh. cbn. destruct (out_result out' Hout') as (b & _ & _ & [Hrec _] & <-). by apply Hrec.
Qed.

(** The UIDs spent are those of coins that exist. *)
Lemma spent_uid_bound out x : out ∈ outs → x ∈ ab_spent_utxos out → su_uid x ≤ next_uid fulln.
Proof.
  intros Hout Hx. destruct (chain_results h full (segment h n) outs fulln Hwf seg_wf) as (Hn & _); [by rewrite length_segment|done|].
  destruct (cf_spent _ _ _ (flow_chain _ _ _ _ Hrun) out x Hout Hx) as (y & [Hy|(out2 & c2 & Hout2 & Hc2 & _ & <-)] & -> & _).
  - pose proof (sw_uid _ _ _ (proj2 Hwf) _ _ Hy). lia.
  - by apply (uid_fresh out2 c2).
Qed.

(** ** The client's coins *)

Lemma outs_prefix j outsj fullj : (j ≤ n)%nat → apply_blocks full (segment h j) = Ok (outsj, fullj) → outsj ⊆ outs.
Proof.
  intros Hj Ha. pose proof Hrun as Hr. rewrite (segment_split chain h j n Hj) in Hr.
  apply apply_blocks_app in Hr as (o1 & s1 & o2 & H1 & _ & ->). rewrite Ha in H1. injection H1 as <- <-. set_solver.
Qed.

Lemma run_prefix_any j : (j ≤ n)%nat → ∃ outsj fullj, apply_blocks full (segment h j) = Ok (outsj, fullj).
Proof.
  intros Hj. pose proof Hrun as Hr. rewrite (segment_split chain h j n Hj) in Hr.
  apply apply_blocks_app in Hr as (o1 & s1 & o2 & H1 & _). by exists o1, s1.
Qed.
Lemma txs_of_one a : txs_of (segment a 1) = bk_txs (chain a).
Proof. exact (app_nil_r (bk_txs (chain a))). Qed.

(** The next block, from the indexer's state before it. *)
Lemma next_block j outsj fullj : (j < n)%nat → apply_blocks full (segment h j) = Ok (outsj, fullj) →
  ∃ out fullj', apply_blocks full (segment h (S j)) = Ok (outsj ++ [out], fullj') ∧
    apply_block_with_stats fullj (chain (h + Z.of_nat j)) = Ok (out, fullj') ∧
    block_result fullj (chain (h + Z.of_nat j)) out fullj'.
Proof.
  intros Hj Ha. destruct (gr_bounds _ _ _ _ Hgood) as [H0 Hb].
  destruct (gr_block _ _ _ _ Hgood (h + Z.of_nat j)) as [Hh Hbw]; [lia|].
  assert (good_range chain (outpoint_to_spend full) h j) as Hgj by (apply (good_prefix chain _ _ _ n); [lia|done]).
  destruct (chain_results h full (segment h j) outsj fullj Hwf) as (Hn & _ & Hwj); [by eapply segment_chain_wf| |done|].
  { rewrite length_segment. lia. }
  rewrite length_segment in Hn.
  destruct (apply_block_ok fullj (chain (h + Z.of_nat j)) (h + Z.of_nat j)) as (out & fullj' & Hap & R); [|lia|done|lia|].
  { apply Hwj; [lia|]. intros b (i & -> & Hi)%segment_elem. destruct (gr_block _ _ _ _ Hgood i); lia. }
  exists out, fullj'. split_and!; [|done|done]. replace (S j) with (j + 1)%nat by lia. rewrite segment_app.
  apply apply_blocks_app. exists outsj, fullj, [out]. split_and!; [done| |done].
  assert (segment (h + Z.of_nat j) 1 = [chain (h + Z.of_nat j)]) as -> by done. cbn [apply_blocks]. by rewrite Hap.
Qed.

(** From the coins at any height, the unfiltered blocks lead to the coins at a later one. *)
Lemma range_synced j k outsj fullj outsk fullk : (j + k ≤ n)%nat →
  apply_blocks full (segment h j) = Ok (outsj, fullj) → apply_blocks full (segment h (j + k)) = Ok (outsk, fullk) →
  client_sync filter_default (held_uids (outpoint_to_spend fullj)) (archived_range M (h + Z.of_nat j) k) =
    held_uids (outpoint_to_spend fullk).
Proof.
  intros Hjk Hj. revert outsk fullk. induction k as [|k IH]; intros outsk fullk Hk.
  { rewrite Nat.add_0_r, Hj in Hk. by injection Hk as <- <-. }
  assert (∃ o1 s1, apply_blocks full (segment h (j + k)) = Ok (o1, s1)) as (o1 & s1 & H1).
  { rewrite Nat.add_succ_r, <-Nat.add_1_r, segment_app in Hk. apply apply_blocks_app in Hk as (o1 & s1 & _ & H1 & _). by exists o1, s1. }
  destruct (next_block (j + k) o1 s1) as (out & s2 & H2 & Hap & R); [lia|done|].
  rewrite Nat.add_succ_r in Hk. rewrite H2 in Hk. injection Hk as <- <-.
  assert (out ∈ outs) as Hout. { eapply (outs_prefix (S (j + k))); [lia|exact H2|]. apply elem_of_app. right. by apply list_elem_of_singleton. }
  destruct (archived_block out Hout) as [s Hs]. destruct (br_header _ _ _ _ R) as (Eh & _).
  rewrite (proj1 (gr_block _ _ _ _ Hgood (h + Z.of_nat (j + k)) ltac:(lia))) in Eh.
  rewrite (range_snoc _ _ _ s).
  2:{ rewrite <-Z.add_assoc, <-Nat2Z.inj_add, <-Eh. apply (sf_lookup _ _ Hs). }
  rewrite sync_app, (IH ltac:(lia) o1 s1 H1). cbn [client_sync foldl].
  rewrite <-(client_block s1 _ out s2 Hap R).
  - apply leibniz_equiv. intros u. rewrite !client_apply_default, (sf_uids _ _ Hs), (sf_spends _ _ Hs), (block_uids _ _ _ _ R).
    by rewrite (entries_block _ _ _ _ Hap).
  - pose proof (gr_points _ _ _ _ (good_suffix chain full h n (j + k) o1 s1 ltac:(lia) Hgood H1)) as Hn.
    rewrite (segment_split chain _ 1), txs_of_app, points_app, txs_of_one in Hn by lia. by apply NoDup_app in Hn as [Hn _].
  - intros o Ho. apply (gr_fresh _ _ _ _ (good_suffix chain full h n (j + k) o1 s1 ltac:(lia) Hgood H1)).
    rewrite (segment_split chain _ 1), txs_of_app, points_app, txs_of_one by lia. apply elem_of_app. by left.
Qed.

(** The blocks above a height create none of the coins held at it. *)
Lemma range_fresh j k outsj fullj s u : (j + k ≤ n)%nat → apply_blocks full (segment h j) = Ok (outsj, fullj) →
  s ∈ archived_range M (h + Z.of_nat j) k → u ∈ (created s).*1 → u ∉ held_uids (outpoint_to_spend fullj).
Proof.
  intros Hjk Hj (i & Hi & Hs)%elem_of_range Hu (o & c & Hc & <-)%elem_of_held.
  destruct (archived_at i s) as (out & Hout & <- & Hst); [lia|done|]. rewrite (sf_uids _ _ Hst) in Hu.
  apply list_elem_of_fmap in Hu as (x & Eu & Hx).
  destruct (cl_source _ _ _ _ (ledger_chain _ _ _ _ Hj) o c Hc) as [Hm|(out' & c' & Hin' & Hc' & _ & <-)].
  - pose proof (sw_uid _ _ _ (proj2 Hwf) _ _ Hm). pose proof (uid_fresh out x Hout Hx). lia.
  - assert (out' ∈ outs) as Hout' by (by eapply outs_prefix; [|exact Hj|]; [lia|]).
    assert (x = c') as -> by (by eapply uid_once; [exact Hout|exact Hout'|..]).
    destruct (out_result out Hout) as (b & _ & _ & [Hrec _] & Hb). destruct (Hrec c' Hx) as (_ & E & _).
    apply list_elem_of_lookup in Hin' as [p Hp].
    destruct (Forall2_lookup_r _ _ _ _ _ (cl_recorded _ _ _ _ (ledger_chain _ _ _ _ Hj)) Hp) as (b' & Hb' & [Hrec' _]).
    destruct (Hrec' c' Hc') as (_ & E' & _). apply segment_lookup in Hb' as [-> Hpj].
    destruct (gr_block _ _ _ _ Hgood (h + Z.of_nat p)) as [? _]; [lia|]. lia.
Qed.
End archive.

(** ** Property *)
Section property.
Context `{RB : !RustBitcoin, SD : !Scheduler, SC : !Secp, HH : !Hash160, ST : !ScriptTemplates, SH : !Sha256, KV : !KvStore,
          CL : !CapnpPacked light_block, CS : !CapnpPacked stored_light_block, MJ : !ManifestJson, HX : !Hex}.

(** C3: a client synced from the indexer's archive holds the indexer's coins.  Take the
    archive after the indexer has applied [n] blocks from height [h], whatever it held
    before.  A client that has the coins of the chain up to some height, and folds the
    next [k] archived blocks, ends with exactly the coins of the chain [k] blocks later:
    the UIDs of the P2TR outputs in scope that are not spent.  The cut-through responses
    for that range lead to the same coins as the unfiltered ones, even though the archive
    may already carry marks of spends above the range. *)
Theorem archive_client_coins (chain : Z → BlockScanInput) (full fulln : P2trIndexerState) (A : archive_map) (h : Z) (n : nat)
    (outs : list AppliedBlock) (j k : nat) (outsj outsk : list AppliedBlock) (fullj fullk : P2trIndexerState)
  (Hgood : good_range chain (outpoint_to_spend full) h n) (Hwf : indexer_wf h full)
  (Hcoins : coins_archived (outpoint_to_spend full) A h)
  (Hcap : next_uid full + 65538 * (Z.of_nat n + 1) < 2 ^ 64)
  (Hrun : apply_blocks full (segment chain h n) = Ok (outs, fulln)) (Hjk : (j + k ≤ n)%nat)
  (Hj : apply_blocks full (segment chain h j) = Ok (outsj, fullj))
  (Hk : apply_blocks full (segment chain h (j + k)) = Ok (outsk, fullk)) :
  let blocks := archived_range (archive_after A outs) (h + Z.of_nat j) k in
  let coins := held_uids (outpoint_to_spend fullj) in
  client_sync filter_default coins blocks = held_uids (outpoint_to_spend fullk) ∧
  client_sync (cutthrough (h + Z.of_nat j) (h + Z.of_nat j + Z.of_nat k - 1)) coins blocks = held_uids (outpoint_to_spend fullk).
Proof.
  intros blocks coins.
  assert (client_sync filter_default coins blocks = held_uids (outpoint_to_spend fullk)) as E by by eapply range_synced.
  split; [exact E|]. rewrite <-E. apply cutthrough_same.
  - pose proof (gr_bounds _ _ _ _ Hgood). unfold STORAGE_SPENT_HEIGHT_UNSPENT. lia.
  - eapply range_consistent; [exact Hgood|exact Hwf|exact Hcoins|exact Hcap|exact Hrun|lia|lia].
  - intros s u. by eapply range_fresh.
Qed.
End property.

(** ** The witness: the chain of two blocks *)
#[local] Existing Instances toy_bitcoin toy_scheduler toy_secp toy_hash160 std_templates toy_sha256 memory_store toy_json toy_hex.

Lemma toy_applies j : (j ≤ 2)%nat → ∃ outs full, apply_blocks (restore_at_uid 0) (segment toy_chain 0 j) = Ok (outs, full).
Proof.
  intros Hj. destruct (apply_blocks_ok 0 (restore_at_uid 0) (segment toy_chain 0 j)) as (outs & full & E & _).
  - by apply restore_at_uid_wf.
  - eapply segment_chain_wf; [|done]. eapply good_prefix; [exact Hj|apply toy_good].
  - rewrite length_segment. change (next_uid (restore_at_uid 0)) with 0. lia.
  - by exists outs, full.
Qed.

(** A client that has the first block takes the second. *)
Lemma archive_client_coins_witness :
  ∃ outs fulln outs1 full1, apply_blocks (restore_at_uid 0) (segment toy_chain 0 2) = Ok (outs, fulln) ∧
    apply_blocks (restore_at_uid 0) (segment toy_chain 0 1) = Ok (outs1, full1) ∧
    let blocks := archived_range (archive_after ∅ outs) (0 + Z.of_nat 1) 1 in
    let coins := held_uids (outpoint_to_spend full1) in
    client_sync filter_default coins blocks = held_uids (outpoint_to_spend fulln) ∧
    client_sync (cutthrough (0 + Z.of_nat 1) (0 + Z.of_nat 1 + Z.of_nat 1 - 1)) coins blocks = held_uids (outpoint_to_spend fulln).
Proof.
  destruct (toy_applies 2) as (outs & fulln & E2); [lia|]. destruct (toy_applies 1) as (outs1 & full1 & E1); [lia|].
  exists outs, fulln, outs1, full1. split; [exact E2|]. split; [exact E1|].
  apply (archive_client_coins toy_chain (restore_at_uid 0) fulln ∅ 0 2 outs 1 1 outs1 outs full1 fulln);
    [apply toy_good|by apply restore_at_uid_wf|exact (sy_coins _ _ _ _ _ _ _ _ (rt_synced _ _ _ _ _ _ _ toy_at_rest))|done|exact E2|lia|exact E1|exact E2].
Defined.

(** UID 1 is created by the first block and spent by the second, which creates UID 2.
    From the start, the cut-through responses never mention UID 1. *)
Definition toy_archive : list StoredLightBlockInput :=
  match apply_blocks (restore_at_uid 0) (segment toy_chain 0 2) with
  | Ok (outs, _) => archived_range (archive_after ∅ outs) 0 2
  | _ => []
  end.
Example toy_client : (elements (client_sync filter_default ∅ (take 1 toy_archive)),
    elements (client_sync (cutthrough 0 1) ∅ (take 1 toy_archive)),
    elements (client_sync filter_default ∅ toy_archive), elements (client_sync (cutthrough 0 1) ∅ toy_archive)) =
  ([1], [], [2], [2]).
Proof. vm_compute. reflexivity. Qed.
