(* ===== verification/ServedArchive.v ===== *)
(** * From the indexer's command to the client's coins

    The server on the archive that the indexer command leaves: it has a tip and a
    manifest, it answers at every height the command has indexed, and a client that
    pages through the cut-through responses ends with the coins the indexer holds.
    [CommandLine] takes it to the commands as they are deployed. *)

From S2P Require Import Prelude Bits Decimal Helper TaggedHash Bitmap SpentIds OutputHash LightBlock LightValid LightFilter LightWire RangeFrame CutThrough UndoPayload P2trIndexer P2trFacts Indexer ScriptClassify SpTweak Kv IndexStore IndexerCache ArchiveBackend FileArchive JsonWire Profile Sources Tasks Server ServerFacts ServerSync LightIndexer LightIndexerFacts LightIndexerSync LightIndexerToy LightIndexerRun ArchiveCoins.

Section served.
Context `{RB : !RustBitcoin, SD : !Scheduler, SC : !Secp, HH : !Hash160, ST : !ScriptTemplates, SH : !Sha256, KV : !KvStore,
          CL : !CapnpPacked light_block, CS : !CapnpPacked stored_light_block, MJ : !ManifestJson, HX : !Hex, JO : !JsonOut}.

(** ** The client *)

(** The UIDs a response says are spent. *)
Definition read_spends (b : bytes) : gset Z :=
  match decode_light_block b ≫= decode_light_block_spent_ids with Ok us => list_to_set us | _ => ∅ end.
(** A wallet's coins after a response: [found] are the outputs it recognised in it. *)
Definition wallet_step (coins : gset Z) (p : bytes * gset Z) : gset Z := (coins ∪ p.2) ∖ read_spends p.1.

(** The response [b] carries the block [s] under the filter [f]. *)
Definition carries (f : StoredBlockResponseFilter) (b : bytes) (s : StoredLightBlockInput) : Prop :=
  ∃ r, decode_light_block b = Ok r ∧ LightFilter.serves s f r.

Lemma carries_spends f b s : carries f b s → read_spends b = served_spends f s.
Proof.
  intros (r & Hd & Hs). unfold read_spends, served_spends. rewrite Hd. rsimpl. rewrite (sr_spends _ _ _ Hs).
  apply leibniz_equiv. intros u. rewrite !elem_of_list_to_set. by rewrite merge_sort_Permutation.
Qed.

(** A wallet that recognises the served outputs moves as the client of [CutThrough]. *)
Lemma wallet_sync f coins ms blocks : Forall2 (carries f) ms blocks →
  foldl wallet_step coins (zip ms (served_uids f <$> blocks)) = client_sync f coins blocks.
Proof.
  intros Hc. revert coins. induction Hc as [|b s ms blocks Hb _ IH]; intros coins; [done|].
  rewrite fmap_cons. cbn [zip zip_with client_sync foldl]. rewrite IH. f_equal.
  unfold wallet_step, client_apply. cbn [fst snd]. by rewrite (carries_spends f b s).
Qed.

(** The filters of a range query: only the cut-through fields and the reuse flag omit. *)
Lemma client_sync_labels f start tip coins blocks :
  cutthrough_start f = Some start → cutthrough_tip f = Some tip → filter_reuse f = false →
  client_sync f coins blocks = client_sync (cutthrough start tip) coins blocks.
Proof. destruct f as [a b c d]. cbn. intros -> -> ->. done. Qed.

(** ** The server on the archive *)

Definition server_on (fs : FileArchive) (max_count max_bytes : Z) : AppState :=
  {| archive := fs : Archive; max_range_count := max_count; max_response_bytes := max_bytes |}.
Definition tip_of (network : ArchiveNetwork) (chain : Z → BlockScanInput) (last : Z) : ChainTip :=
  {| height := last; block_hash := display_hash (bk_block_hash (chain last)) |}.

(** The responses for [blocks] stay below the reader limits and the frame's item size. *)
Definition responses_fit (f : StoredBlockResponseFilter) (blocks : list StoredLightBlockInput) : Prop :=
  ∀ s r m, s ∈ blocks → to_filtered_response_input s f = Ok r → encode_light_block r = Ok m →
    capnp_fits m ∧ len (write_message m) < 2 ^ 32 - 4.

Lemma server_serving fs max_count max_bytes m t :
  manifest_file fs = Some (to_vec_pretty m) → mf_tip m = Some t → 0 ≤ height t < 2 ^ 32 - 1 →
  0 ≤ max_count < 2 ^ 32 → 0 ≤ max_bytes < 2 ^ 63 → serving (server_on fs max_count max_bytes) t m.
Proof.
  intros Hm Ht Hh Hc Hb. assert (read_manifest fs = Ok m) as Hr.
  { unfold read_manifest. rewrite Hm. rsimpl. apply from_json_to_vec. }
  split; [|exact Hr|done..]. change (archive_tip (archive (server_on fs max_count max_bytes))) with (file_tip fs).
  unfold file_tip. by rewrite Hr, Ht.
Qed.

(** An archived block is answered, and the answer carries it. *)
Lemma archived_answer fs f i s :
  archived fs i s → filtering f → sb_raw_block_bytes s ≠ 0 → Forall (λ e, spent_uid e < U64_MAX) (sb_spends s) →
  (∀ r m, to_filtered_response_input s f = Ok r → encode_light_block r = Ok m → capnp_fits m ∧ len (write_message m) < 2 ^ 32 - 4) →
  ∃ b, answers (fs : Archive) f i b ∧ (∀ b', answers (fs : Archive) f i b' → b' = b) ∧ carries f b s.
Proof.
  intros (Ht & Hn & msg & He & Hf & Hl) Hfil Hraw Hmax Hfit.
  assert (Hval : validate_stored_light_block_input s = Ok tt).
  { unfold encode_stored_light_block in He. by apply bind_Ok in He as ([] & ? & _). }
  destruct (filtered_bytes_ok s f Ht Hval Hraw Hmax Hfil) as (m & m' & r & E & Er & Em & Hb & Hd & Hs).
  { intros m. rewrite He. by intros [= <-]. }
  { rewrite Hn. intros r m Hr Hm. by apply (Hfit r m). }
  rewrite He in E. injection E as <-. rewrite Hn in *. destruct (Hfit r m' Er Em) as [_ Hlen].
  assert (read_block_filtered_with_hash fs i f = Ok {| payload := write_message m'; served_block_hash := sb_block_hash s |}) as Hread.
  { unfold read_block_filtered_with_hash, read_stored_block. rewrite Hl. rsimpl. rewrite Hb. by rsimpl. }
  exists (write_message m'). split_and!.
  - by eexists.
  - intros b' (sv & Hsv & <- & _). change (read_block_filtered_with_hash fs i f = Ok sv) in Hsv. rewrite Hread in Hsv. by injection Hsv as <-.
  - by eexists.
Qed.

(** Below its first block the archive has no files: a query that starts there is
    acceptable, and fails with status 500. *)
Lemma range_below_archive fs M max_count max_bytes t m q accept format :
  holds_blocks fs M → in_width 64 (q_start q) → M !! q_start q = None →
  serving (server_on fs max_count max_bytes) t m → query_typed q → acceptable (server_on fs max_count max_bytes) t q →
  response_format accept = Ok format →
  block_range (server_on fs max_count max_bytes) q accept = AErr (internal "No such file or directory").
Proof.
  intros Hh Hw Hn Hs Ht Ha Hf. eapply range_missing_start; [exact Hs|exact Ht|exact Ha|exact Hf|].
  pose proof (Hh (q_start q) Hw) as Hfile. rewrite Hn in Hfile.
  change (read_block_filtered_with_hash fs (q_start q) (query_filter t q) = Err "No such file or directory").
  unfold read_block_filtered_with_hash, read_stored_block. by rewrite Hfile.
Qed.

(** ** The responses for a range *)

Section range.
Context (chain : Z → BlockScanInput) (full fulln : P2trIndexerState) (A : archive_map) (h : Z) (n : nat) (outs : list AppliedBlock).
Context (Hgood : good_range chain (outpoint_to_spend full) h n) (Hwf : indexer_wf h full)
  (Hcoins : coins_archived (outpoint_to_spend full) A h)
  (Hcap : next_uid full + 65538 * (Z.of_nat n + 1) < 2 ^ 64)
  (Hrun : apply_blocks full (segment chain h n) = Ok (outs, fulln)).
Abbreviation M := (archive_after A outs).

Lemma range_lookup a k : h ≤ a → a + Z.of_nat k ≤ h + Z.of_nat n →
  length (archived_range M a k) = k ∧
  ∀ i, (i < k)%nat → ∃ out s, out ∈ outs ∧ stands_for A outs out s ∧
    archived_range M a k !! i = Some s ∧ M !! (a + Z.of_nat i) = Some s.
Proof.
  intros Ha. induction k as [|k IH]; intros Hk; [split; [done|lia]|].
  destruct IH as [Hl IH]; [lia|].
  destruct (range_nth chain full fulln A h n outs Hgood Hwf Hcoins Hcap Hrun a (S k) k) as (out & s & Hout & _ & Hs & E); [lia..|].
  rewrite (range_snoc _ _ _ s), length_app by done. simpl length. split; [lia|]. intros i Hi.
  destruct (decide (i = k)) as [->|].
  - exists out, s. split_and!; [done..| |done]. rewrite lookup_app_r by lia. by rewrite Hl, Nat.sub_diag.
  - destruct (IH i) as (out' & s' & ? & ? & ? & ?); [lia|]. exists out', s'. split_and!; [done..| |done]. by rewrite lookup_app_l by lia.
Qed.

Lemma range_carried (fs : FileArchive) f a k : holds_blocks fs M → h ≤ a → a + Z.of_nat k ≤ h + Z.of_nat n →
  filtering f → responses_fit f (archived_range M a k) →
  (∀ i, a ≤ i < a + Z.of_nat k → ∃ b, answers (fs : Archive) f i b) ∧
  ∀ ms, consecutive (fs : Archive) f a ms → length ms = k → Forall2 (carries f) ms (archived_range M a k).
Proof.
  intros Hh Ha Hk Hf Hfit. destruct (gr_bounds _ _ _ _ Hgood) as [H0 H1]. destruct (range_lookup a k Ha Hk) as [Hl Hlk].
  assert (Hall : ∀ i, (i < k)%nat → ∃ s b, archived_range M a k !! i = Some s ∧ answers (fs : Archive) f (a + Z.of_nat i) b ∧
    (∀ b', answers (fs : Archive) f (a + Z.of_nat i) b' → b' = b) ∧ carries f b s).
  { intros i Hi. destruct (Hlk i Hi) as (out & s & Hout & Hs & Hr & Hm). exists s.
    pose proof (Hh (a + Z.of_nat i) ltac:(unfold in_width; lia)) as Har. rewrite Hm in Har.
    destruct (archived_answer fs f (a + Z.of_nat i) s Har Hf) as (b & Hb & Hu & Hc); [apply (sf_raw _ _ _ _ Hs)| | |by exists b].
    - rewrite (sf_spends _ _ _ _ Hs), Forall_fmap. apply Forall_forall. intros x Hx. cbn.
      pose proof (spent_uid_bound chain full fulln h n outs Hgood Hwf Hcap Hrun out x Hout Hx).
      destruct (chain_results h full (segment chain h n) outs fulln Hwf) as (Hn & _); [by eapply segment_chain_wf| |done|].
      { by rewrite length_segment. } rewrite length_segment in Hn. unfold U64_MAX, umax. lia.
    - intros r m. apply Hfit. by eapply list_elem_of_lookup_2. }
  split.
  - intros i Hi. destruct (Hall (Z.to_nat (i - a))) as (_ & b & _ & Hb & _); [lia|]. exists b.
    by replace (a + Z.of_nat (Z.to_nat (i - a))) with i in Hb by lia.
  - intros ms Hms Hlen. apply Forall2_same_length_lookup. split; [by rewrite Hl|]. intros i b s Hb Hs.
    destruct (Hall i) as (s' & b' & Hs' & _ & Hu & Hc); [rewrite <-Hlen; by eapply lookup_lt_Some|].
    rewrite Hs in Hs'. injection Hs' as <-. by rewrite (Hu b (Hms i b Hb)).
Qed.
End range.

(** ** Property *)

(** A query for everything from [start] to the tip, cut through from [start]. *)
Record asks_cutthrough (q : SyncRangeQuery) (max_count max_bytes start : Z) (n : nat) : Prop := {
  aq_start : q_start q = start;
  aq_cut : q_cutthrough_start q = Some start ∧ q_cutthrough q = false ∧ q_cutthrough_tip q = None;
  aq_reuse : q_filter_reuse q = false;
  aq_typed : query_typed q;
  aq_count : Z.of_nat n ≤ default max_count (q_count q) ≤ max_count;
  aq_bytes : 0 < default max_bytes (q_max_bytes q) ≤ max_bytes
}.

Lemma query_acceptable fs max_count max_bytes t q start n :
  asks_cutthrough q max_count max_bytes start n → (0 < n)%nat → height t = start + Z.of_nat n - 1 →
  acceptable (server_on fs max_count max_bytes) t q ∧ last_wanted (server_on fs max_count max_bytes) t q = height t ∧
  cut_start q = Some start.
Proof.
  intros [Hs (Hc & Hf & Htip) _ _ Hcount Hbytes] Hn Ht.
  assert (cut_start q = Some start) as Ecut by (unfold cut_start; rewrite Hf, Hc; done).
  assert (last_wanted (server_on fs max_count max_bytes) t q = height t) as El.
  { unfold last_wanted, wanted. cbn [server_on max_range_count]. lia. }
  split_and!; [|done|done]. split.
  - unfold wanted. cbn [server_on max_range_count]. lia.
  - unfold byte_cap. cbn [server_on max_response_bytes]. lia.
  - lia.
  - rewrite Ecut, Htip, El. intros x [= <-]. simpl default. lia.
Qed.

(** From the node to the wallet.  Started at rest, with sources that serve a
    well-formed chain up to the finalized tip, the indexer command archives it.  A server
    on the files it leaves answers a client that follows the pages of [/blocks/light]
    from any indexed height to the tip, with cut-through from that height: the responses
    carry the archived blocks one by one, and a wallet that starts with the coins of the
    chain below that height, adds the outputs it recognises in the responses and removes
    the UIDs the responses say are spent, ends with exactly the coins that the indexer
    holds at the tip.  The command ends at rest again, as it started: the theorem applies
    to its next run and the sync after it. *)
Lemma archive_synced (chain : Z → BlockScanInput) (network : ArchiveNetwork) (fs : FileArchive) (d : Db)
    (full : P2trIndexerState) (A : archive_map) (h : Z) (n : nat) (t : option IndexTip) (undo_source : BlockSource)
    (finality_depth batch flush memory_mb best : Z) (passes : list (BlockSource * BlockSource))
    (max_count max_bytes : Z) (q : SyncRangeQuery) (j fuel : nat)
  (Hfm : fits_marked) (Hrest : at_rest network fs d full A h t) (Hready : ready chain full t h n)
  (Hbatch : 0 < batch) (Hflush : 0 < flush) (Hundo : supports_block_spent_txouts undo_source = true)
  (Htip : h + Z.of_nat n = saturating_sub best finality_depth + 1)
  (Hpasses : Forall (pass_ready chain best h n) passes) (Henough : (n ≤ length passes)%nat)
  (Hj : (j < n)%nat) (Hcount : max_count < 2 ^ 32) (Hbytes : max_bytes < 2 ^ 63)
  (Hq : asks_cutthrough q max_count max_bytes (h + Z.of_nat j) (n - j)) (Hfuel : (n - j ≤ fuel)%nat)
  (Hfit : ∀ outs fulln, apply_blocks full (segment chain h n) = Ok (outs, fulln) →
     responses_fit (query_filter (tip_of network chain (h + Z.of_nat n - 1)) q)
       (archived_range (archive_after A outs) (h + Z.of_nat j) (n - j))) :
  ∃ outs fulln outsj fullj fs' d' state' ms,
    apply_blocks full (segment chain h n) = Ok (outs, fulln) ∧ apply_blocks full (segment chain h j) = Ok (outsj, fullj) ∧
    run_command fs d network undo_source finality_depth batch flush memory_mb passes = (fs', d', Ok (h + Z.of_nat n, state')) ∧
    at_rest network fs' d' fulln (archive_after A outs) (h + Z.of_nat n) (tip_after_run chain t fulln h n) ∧
    sync fuel (server_on fs' max_count max_bytes) q = Some ms ∧
    let f := query_filter (tip_of network chain (h + Z.of_nat n - 1)) q in
    let blocks := archived_range (archive_after A outs) (h + Z.of_nat j) (n - j) in
    Forall2 (carries f) ms blocks ∧
    foldl wallet_step (held_uids (outpoint_to_spend fullj)) (zip ms (served_uids f <$> blocks)) =
      held_uids (outpoint_to_spend fulln).
Proof.
  destruct (run_command_ends chain network fs d full A h n t undo_source finality_depth batch flush memory_mb best passes)
    as (outs & fulln & fs' & d' & state' & Ha & E & Hrest' & Hm); [done..|]. pose proof Hrest' as [Hsy _ _ _].
  pose proof Hready as [Hgood _ Hcap _]. destruct (gr_bounds _ _ _ _ Hgood) as [H0 H1].
  destruct Hrest as [[_ _ _ Hcoins Hwf _ _] _ _ _]. pose proof (sy_blocks _ _ _ _ _ _ _ _ Hsy) as Hholds.
  destruct (run_prefix_any chain full fulln h n outs Ha j) as (outsj & fullj & Hfj); [lia|].
  set (tp := tip_of network chain (h + Z.of_nat n - 1)) in *.
  unfold manifest_after_run in Hm. rewrite bool_decide_false in Hm by lia.
  assert (0 ≤ max_count ∧ 0 < max_bytes) as [? ?] by (destruct Hq as [_ _ _ _ ? ?]; lia).
  pose proof (server_serving fs' max_count max_bytes _ tp Hm eq_refl ltac:(cbn; lia) ltac:(lia) ltac:(lia)) as Hserving.
  destruct (query_acceptable fs' max_count max_bytes tp q _ _ Hq) as (Hacc & Hlast & Hcut); [lia|cbn; lia|].
  pose proof Hq as [Hqs (_ & Hqf & Hqt) Hqr Hqty _ _].
  assert (filtering (query_filter tp q)) as Hfil by (right; cbn; by rewrite Hcut).
  destruct (range_carried chain full fulln A h n outs Hgood Hwf Hcoins Hcap Ha fs' (query_filter tp q) (h + Z.of_nat j) (n - j))
    as [Hans Hcar]; [done|lia|lia|done|by eapply Hfit|].
  destruct (sync_ends (server_on fs' max_count max_bytes) tp _ q fuel Hserving) as (ms & Esync & Hcons & Hlen); [|done..|cbn; lia|].
  { intros i Hi. apply Hans. cbn in Hi. lia. }
  exists outs, fulln, outsj, fullj, fs', d', state', ms. do 5 (split; [done|]). intros f blocks.
  assert (Forall2 (carries f) ms blocks) as Hc.
  { apply Hcar; [by rewrite <-Hqs|]. rewrite Hlast, Hqs in Hlen. cbn in Hlen. lia. }
  split; [exact Hc|]. rewrite (wallet_sync f) by done.
  rewrite (client_sync_labels f (h + Z.of_nat j) (h + Z.of_nat j + Z.of_nat (n - j) - 1)); [|done| |done].
  2:{ unfold f, query_filter. cbn [cutthrough_tip]. rewrite Hcut, Hqt. cbn. f_equal. lia. }
  rewrite cutthrough_same.
  - eapply range_synced; [exact Hgood|exact Hwf|exact Hcoins|exact Hcap|exact Ha| |exact Hfj|]; [lia|].
    by replace (j + (n - j))%nat with n by lia.
  - unfold STORAGE_SPENT_HEIGHT_UNSPENT. lia.
  - eapply range_consistent; [exact Hgood|exact Hwf|exact Hcoins|exact Hcap|exact Ha|lia|lia].
  - intros s u Hs Hu. eapply (range_fresh chain full fulln A h n outs Hgood Hwf Hcoins Hcap Ha j (n - j)); [lia|exact Hfj|exact Hs|exact Hu].
Qed.
End served.

(** ** The witness: the chain of two blocks, served from its first *)
#[local] Existing Instances toy_bitcoin toy_scheduler toy_secp toy_hash160 std_templates toy_sha256 memory_store toy_json toy_hex.
#[local] Instance served_out : JsonOut := {|
  block_json := λ _, []; range_json := λ _, []; manifest_json := λ _, []; tip_json := λ _, [] |}.

Definition toy_query : SyncRangeQuery := {|
  q_start := 0; q_count := None; q_cutthrough := false; q_cutthrough_start := Some 0; q_cutthrough_tip := None;
  q_filter_reuse := false; q_labels := Some 2; q_max_bytes := None |}.
Lemma toy_query_asks : asks_cutthrough toy_query 10 12 (0 + Z.of_nat 0) (2 - 0).
Proof. split; cbn; [done|done|done| |lia|lia]. by split_and!. Qed.

Lemma archive_synced_witness :
  ∃ outs fulln outsj fullj fs' d' state' ms,
    apply_blocks (restore_at_uid 0) (segment toy_chain 0 2) = Ok (outs, fulln) ∧
    apply_blocks (restore_at_uid 0) (segment toy_chain 0 0) = Ok (outsj, fullj) ∧
    run_command archive_new demo_db Regtest toy_undo_source 6 16 1 4096
      [(toy_source, toy_undo_source); (toy_source, toy_undo_source)] = (fs', d', Ok (0 + Z.of_nat 2, state')) ∧
    at_rest Regtest fs' d' fulln (archive_after ∅ outs) (0 + Z.of_nat 2) (tip_after_run toy_chain None fulln 0 2) ∧
    sync 2 (server_on fs' 10 12) toy_query = Some ms ∧
    let f := query_filter (tip_of Regtest toy_chain (0 + Z.of_nat 2 - 1)) toy_query in
    let blocks := archived_range (archive_after ∅ outs) (0 + Z.of_nat 0) (2 - 0) in
    Forall2 (carries f) ms blocks ∧
    foldl wallet_step (held_uids (outpoint_to_spend fullj)) (zip ms (served_uids f <$> blocks)) =
      held_uids (outpoint_to_spend fulln).
Proof.
  apply (archive_synced toy_chain Regtest archive_new demo_db (restore_at_uid 0) ∅ 0 2 None toy_undo_source 6 16 1 4096 7
    [(toy_source, toy_undo_source); (toy_source, toy_undo_source)] 10 12 toy_query 0 2);
    [by intros s s' msg msg' _ _ _ _|apply toy_at_rest|apply toy_ready|done|done|done|done|apply toy_passes|done|lia|done|done|
     exact toy_query_asks|lia|by intros outs fulln _ s r m _ _ _].
Defined.

(** The byte cap fits no second block: two pages, the second with the one coin left. *)
Example toy_sync : match run_command archive_new demo_db Regtest toy_undo_source 6 16 1 4096
    [(toy_source, toy_undo_source); (toy_source, toy_undo_source)] with
  | (fs', _, Ok _) => (length <$> sync 2 (server_on fs' 10 12) toy_query, sync 1 (server_on fs' 10 12) toy_query)
  | _ => (None, None) end = (Some 2%nat, None).
Proof. vm_compute. reflexivity. Qed.
