(* ===== verification/ScanMetrics.v ===== *)
(** * Timing of a scan

    Model of [PrepareMetrics], [ProcessMetrics] and [ScanMetrics] of [stats/src/scan.rs]:
    what the scan adds to its timers, the progress lines with the time since the last
    line, and the summary.  A [Duration] is its number of nanoseconds; a sum that leaves
    the range panics.  What a clock measured is the argument of an event: the events of a
    run are those [scan] has, in any order.

    The theorem: the intervals the progress lines print partition the run, for every
    timer the lines show. *)

From S2P Require Import Prelude Decimal ScanBlock BlockStats F64 Report.

(** ** Durations *)
Definition NANOS_PER_SEC : Z := 10 ^ 9.
Definition duration_max : Z := 2 ^ 64 * NANOS_PER_SEC - 1.
Definition dur_add (a b : Z) : res Z :=
  if bool_decide (a + b ≤ duration_max) then Ok (a + b) else Panic "overflow when adding durations".
(** [Duration::as_secs_f64]. *)
Definition as_secs_f64 (d : Z) : f64 :=
  f_add (of_int (d / NANOS_PER_SEC)) (f_div (of_int (d mod NANOS_PER_SEC)) (of_int NANOS_PER_SEC)).

(** ** The timers *)
Record PrepareMetrics := { pm_txid_compute : Z; pm_output_classify : Z; pm_p2tr_spend_classify : Z }.
Definition prepare_default : PrepareMetrics := Build_PrepareMetrics 0 0 0.
Definition prepare_saturating_delta (self previous : PrepareMetrics) : PrepareMetrics := {|
  pm_txid_compute := saturating_sub (pm_txid_compute self) (pm_txid_compute previous);
  pm_output_classify := saturating_sub (pm_output_classify self) (pm_output_classify previous);
  pm_p2tr_spend_classify := saturating_sub (pm_p2tr_spend_classify self) (pm_p2tr_spend_classify previous) |}.

Record ProcessMetrics := {
  pr_input_remove : Z; pr_input_accounting : Z; pr_p2tr_spend : Z; pr_output_classify : Z;
  pr_output_accounting : Z; pr_seen_keys : Z; pr_utxo_insert : Z; pr_utxo_hash : Z; pr_row_build : Z
}.
Definition process_default : ProcessMetrics := Build_ProcessMetrics 0 0 0 0 0 0 0 0 0.
Definition process_saturating_delta (self previous : ProcessMetrics) : ProcessMetrics := {|
  pr_input_remove := saturating_sub (pr_input_remove self) (pr_input_remove previous);
  pr_input_accounting := saturating_sub (pr_input_accounting self) (pr_input_accounting previous);
  pr_p2tr_spend := saturating_sub (pr_p2tr_spend self) (pr_p2tr_spend previous);
  pr_output_classify := saturating_sub (pr_output_classify self) (pr_output_classify previous);
  pr_output_accounting := saturating_sub (pr_output_accounting self) (pr_output_accounting previous);
  pr_seen_keys := saturating_sub (pr_seen_keys self) (pr_seen_keys previous);
  pr_utxo_insert := saturating_sub (pr_utxo_insert self) (pr_utxo_insert previous);
  pr_utxo_hash := saturating_sub (pr_utxo_hash self) (pr_utxo_hash previous);
  pr_row_build := saturating_sub (pr_row_build self) (pr_row_build previous) |}.
Definition total_accounted (self : ProcessMetrics) : res Z :=
  fold_res dur_add (pr_input_remove self)
    [pr_input_accounting self; pr_p2tr_spend self; pr_output_classify self; pr_output_accounting self;
     pr_seen_keys self; pr_utxo_insert self; pr_utxo_hash self; pr_row_build self].

Record ScanMetrics := {
  sm_fetch_wait : Z; sm_process : Z; sm_sink : Z; sm_checkpoint : Z;
  sm_process_detail : ProcessMetrics; sm_prepare_detail : PrepareMetrics; sm_blocks : Z;
  sm_last_report_fetch_wait : Z; sm_last_report_process : Z; sm_last_report_sink : Z; sm_last_report_checkpoint : Z;
  sm_last_report_process_detail : ProcessMetrics; sm_last_report_prepare_detail : PrepareMetrics; sm_last_report_blocks : Z
}.
Definition metrics_default : ScanMetrics := {|
  sm_fetch_wait := 0; sm_process := 0; sm_sink := 0; sm_checkpoint := 0;
  sm_process_detail := process_default; sm_prepare_detail := prepare_default; sm_blocks := 0;
  sm_last_report_fetch_wait := 0; sm_last_report_process := 0; sm_last_report_sink := 0; sm_last_report_checkpoint := 0;
  sm_last_report_process_detail := process_default; sm_last_report_prepare_detail := prepare_default; sm_last_report_blocks := 0 |}.

(** ** The running totals *)

(** The fields a timer moves; the fields of the last report stay. *)
Definition with_totals (self : ScanMetrics) (fetch_wait process sink checkpoint : Z) (detail : ProcessMetrics)
    (prepare : PrepareMetrics) (blocks : Z) : ScanMetrics := {|
  sm_fetch_wait := fetch_wait; sm_process := process; sm_sink := sink; sm_checkpoint := checkpoint;
  sm_process_detail := detail; sm_prepare_detail := prepare; sm_blocks := blocks;
  sm_last_report_fetch_wait := sm_last_report_fetch_wait self; sm_last_report_process := sm_last_report_process self;
  sm_last_report_sink := sm_last_report_sink self; sm_last_report_checkpoint := sm_last_report_checkpoint self;
  sm_last_report_process_detail := sm_last_report_process_detail self;
  sm_last_report_prepare_detail := sm_last_report_prepare_detail self; sm_last_report_blocks := sm_last_report_blocks self |}.
Definition add_fetch_wait (self : ScanMetrics) (dt : Z) : res ScanMetrics :=
  t ← dur_add (sm_fetch_wait self) dt;
  Ok (with_totals self t (sm_process self) (sm_sink self) (sm_checkpoint self) (sm_process_detail self) (sm_prepare_detail self) (sm_blocks self)).
Definition add_process (self : ScanMetrics) (dt : Z) : res ScanMetrics :=
  t ← dur_add (sm_process self) dt;
  Ok (with_totals self (sm_fetch_wait self) t (sm_sink self) (sm_checkpoint self) (sm_process_detail self) (sm_prepare_detail self) (sm_blocks self)).
Definition add_sink (self : ScanMetrics) (dt : Z) : res ScanMetrics :=
  t ← dur_add (sm_sink self) dt;
  Ok (with_totals self (sm_fetch_wait self) (sm_process self) t (sm_checkpoint self) (sm_process_detail self) (sm_prepare_detail self) (sm_blocks self)).
Definition add_checkpoint (self : ScanMetrics) (dt : Z) : res ScanMetrics :=
  t ← dur_add (sm_checkpoint self) dt;
  Ok (with_totals self (sm_fetch_wait self) (sm_process self) (sm_sink self) t (sm_process_detail self) (sm_prepare_detail self) (sm_blocks self)).

(** The timers of the commit of a block that the scan adds to. *)
Inductive detail := DInputRemove | DInputAccounting | DP2trSpend | DOutputAccounting | DSeenKeys | DUtxoInsert | DUtxoHash | DRowBuild.
Definition add_detail (p : ProcessMetrics) (d : detail) (dt : Z) : res ProcessMetrics :=
  let '(Build_ProcessMetrics a b c e f g h i j) := p in
  match d with
  | DInputRemove => t ← dur_add a dt; Ok (Build_ProcessMetrics t b c e f g h i j)
  | DInputAccounting => t ← dur_add b dt; Ok (Build_ProcessMetrics a t c e f g h i j)
  | DP2trSpend => t ← dur_add c dt; Ok (Build_ProcessMetrics a b t e f g h i j)
  | DOutputAccounting => t ← dur_add f dt; Ok (Build_ProcessMetrics a b c e t g h i j)
  | DSeenKeys => t ← dur_add g dt; Ok (Build_ProcessMetrics a b c e f t h i j)
  | DUtxoInsert => t ← dur_add h dt; Ok (Build_ProcessMetrics a b c e f g t i j)
  | DUtxoHash => t ← dur_add i dt; Ok (Build_ProcessMetrics a b c e f g h t j)
  | DRowBuild => t ← dur_add j dt; Ok (Build_ProcessMetrics a b c e f g h i t)
  end.
(** The timings that came with a prepared frame. *)
Definition add_prepare (p frame : PrepareMetrics) : res PrepareMetrics :=
  a ← dur_add (pm_txid_compute p) (pm_txid_compute frame);
  b ← dur_add (pm_output_classify p) (pm_output_classify frame);
  c ← dur_add (pm_p2tr_spend_classify p) (pm_p2tr_spend_classify frame);
  Ok (Build_PrepareMetrics a b c).

(** ** Progress *)
Definition secs (prec : nat) (d : Z) : piece := fix_ prec (as_secs_f64 d).

(** What a progress line shows of the time since the last one. *)
Record Interval := {
  iv_fetch : Z; iv_process : Z; iv_sink : Z; iv_checkpoint : Z; iv_detail : ProcessMetrics; iv_prepare : PrepareMetrics
}.
Definition interval (self : ScanMetrics) : Interval := {|
  iv_fetch := saturating_sub (sm_fetch_wait self) (sm_last_report_fetch_wait self);
  iv_process := saturating_sub (sm_process self) (sm_last_report_process self);
  iv_sink := saturating_sub (sm_sink self) (sm_last_report_sink self);
  iv_checkpoint := saturating_sub (sm_checkpoint self) (sm_last_report_checkpoint self);
  iv_detail := process_saturating_delta (sm_process_detail self) (sm_last_report_process_detail self);
  iv_prepare := prepare_saturating_delta (sm_prepare_detail self) (sm_last_report_prepare_detail self) |}.

(** [(height - scan_start) as f64 / elapsed.as_secs_f64().max(0.001)]. *)
Definition blocks_per_second (height scan_start elapsed : Z) : f64 :=
  f_div (of_int (wrap 64 (height - scan_start))) (f_max (as_secs_f64 elapsed) (lit 1 1000)).

Definition progress_lines (self : ScanMetrics) (iv : Interval) (other_process : Z) (elapsed : Z) (state : StatsScannerState)
    (height scan_start : Z) : list line :=
  let bps := blocks_per_second height scan_start elapsed in
  let interval_blocks := Z.max (saturating_sub (sm_blocks self) (sm_last_report_blocks self)) 1 in
  let d := iv_detail iv in
  [[Txt "  h="; Arg (Right 7) (AInt height); Txt " blocks="; Arg (Right 7) (AInt (sm_blocks self));
    Txt " last_id="; Arg (Right 12) (AInt (last_id state)); Txt " utxo="; Arg (Right 10) (AInt (Z.of_nat (size (utxo state))));
    Txt " seen_keys="; Arg (Right 10) (AInt (Z.of_nat (size (seen_keys state)))); Txt " missing="; Arg (Right 6) (AInt (missing state));
    Txt " "; Arg (Right 5) (AFix 1 bps); Txt " blk/s | fetch+decode+prepare="; secs 1 (sm_fetch_wait self);
    Txt "s (+"; secs 2 (iv_fetch iv); Txt "s/"; int interval_blocks; Txt ") process="; secs 1 (sm_process self);
    Txt "s (+"; secs 2 (iv_process iv); Txt "s/"; int interval_blocks; Txt ") sink="; secs 1 (sm_sink self);
    Txt "s checkpoint="; secs 1 (sm_checkpoint self); Txt "s"];
   [Txt "      prepare delta: txid_compute="; secs 2 (pm_txid_compute (iv_prepare iv)); Txt "s output_classify=";
    secs 2 (pm_output_classify (iv_prepare iv)); Txt "s"];
   [Txt "      process delta: input_remove="; secs 2 (pr_input_remove d); Txt "s input_accounting="; secs 2 (pr_input_accounting d);
    Txt "s p2tr_spend="; secs 2 (pr_p2tr_spend d); Txt "s output_classify="; secs 2 (pr_output_classify d);
    Txt "s output_accounting="; secs 2 (pr_output_accounting d); Txt "s seen_keys="; secs 2 (pr_seen_keys d);
    Txt "s utxo_insert="; secs 2 (pr_utxo_insert d); Txt "s utxo_hash="; secs 2 (pr_utxo_hash d); Txt "s row="; secs 2 (pr_row_build d);
    Txt "s other="; secs 2 other_process; Txt "s sink_delta="; secs 2 (iv_sink iv); Txt "s checkpoint_delta=";
    secs 2 (iv_checkpoint iv); Txt "s"]].

Definition mark_reported (self : ScanMetrics) : ScanMetrics := {|
  sm_fetch_wait := sm_fetch_wait self; sm_process := sm_process self; sm_sink := sm_sink self; sm_checkpoint := sm_checkpoint self;
  sm_process_detail := sm_process_detail self; sm_prepare_detail := sm_prepare_detail self; sm_blocks := sm_blocks self;
  sm_last_report_fetch_wait := sm_fetch_wait self; sm_last_report_process := sm_process self;
  sm_last_report_sink := sm_sink self; sm_last_report_checkpoint := sm_checkpoint self;
  sm_last_report_process_detail := sm_process_detail self; sm_last_report_prepare_detail := sm_prepare_detail self;
  sm_last_report_blocks := sm_blocks self |}.
Definition print_progress (self : ScanMetrics) (elapsed : Z) (state : StatsScannerState) (height scan_start : Z)
    : res (ScanMetrics * list line) :=
  let iv := interval self in
  accounted ← total_accounted (iv_detail iv);
  let other_process := saturating_sub (iv_process iv) accounted in
  Ok (mark_reported self, progress_lines self iv other_process elapsed state height scan_start).

(** The condition of the call in [scan]. *)
Definition progress_due (progress h scan_start : Z) : bool :=
  bool_decide (0 < progress) && bool_decide (wrap 64 (h - scan_start) mod progress = 0).

Definition print_summary (self : ScanMetrics) (elapsed : Z) : res (list line) :=
  let p := sm_prepare_detail self in
  let d := sm_process_detail self in
  accounted ← total_accounted d;
  Ok [[Txt "Timing: total="; secs 1 elapsed; Txt "s fetch_decode_prepare_wait="; secs 1 (sm_fetch_wait self); Txt "s process=";
       secs 1 (sm_process self); Txt "s sink="; secs 1 (sm_sink self); Txt "s checkpoint="; secs 1 (sm_checkpoint self);
       Txt "s blocks="; int (sm_blocks self)];
      [Txt "Prepare detail: txid_compute="; secs 1 (pm_txid_compute p); Txt "s output_classify="; secs 1 (pm_output_classify p);
       Txt "s p2tr_spend_classify="; secs 1 (pm_p2tr_spend_classify p); Txt "s"];
      [Txt "Process detail: input_remove="; secs 1 (pr_input_remove d); Txt "s input_accounting="; secs 1 (pr_input_accounting d);
       Txt "s p2tr_spend="; secs 1 (pr_p2tr_spend d); Txt "s output_classify="; secs 1 (pr_output_classify d);
       Txt "s output_accounting="; secs 1 (pr_output_accounting d); Txt "s seen_keys="; secs 1 (pr_seen_keys d);
       Txt "s utxo_insert="; secs 1 (pr_utxo_insert d); Txt "s utxo_hash="; secs 1 (pr_utxo_hash d); Txt "s row=";
       secs 1 (pr_row_build d); Txt "s other="; secs 1 (saturating_sub (sm_process self) accounted); Txt "s"]].

(** ** A run *)
Inductive timing :=
  | TFetch (dt : Z) | TPrepare (p : PrepareMetrics) | TDetail (d : detail) (dt : Z) | TProcess (dt : Z)
  | TSink (dt : Z) | TBlock | TCheckpoint (dt : Z)
  | TProgress (elapsed : Z) (state : StatsScannerState) (height scan_start : Z).

(** The timers and what was printed so far. *)
Record Clock := { ck_metrics : ScanMetrics; ck_intervals : list Interval; ck_output : list line }.
Definition clock_new : Clock := {| ck_metrics := metrics_default; ck_intervals := []; ck_output := [] |}.
Definition tick (c : Clock) (m : ScanMetrics) : Clock :=
  {| ck_metrics := m; ck_intervals := ck_intervals c; ck_output := ck_output c |}.
Definition set_detail (m : ScanMetrics) (d : ProcessMetrics) : ScanMetrics :=
  with_totals m (sm_fetch_wait m) (sm_process m) (sm_sink m) (sm_checkpoint m) d (sm_prepare_detail m) (sm_blocks m).
Definition set_prepare (m : ScanMetrics) (p : PrepareMetrics) : ScanMetrics :=
  with_totals m (sm_fetch_wait m) (sm_process m) (sm_sink m) (sm_checkpoint m) (sm_process_detail m) p (sm_blocks m).
Definition count_block (m : ScanMetrics) : ScanMetrics :=
  with_totals m (sm_fetch_wait m) (sm_process m) (sm_sink m) (sm_checkpoint m) (sm_process_detail m) (sm_prepare_detail m)
    (wrap 64 (sm_blocks m + 1)).

Definition timed_step (c : Clock) (e : timing) : res Clock :=
  let m := ck_metrics c in
  match e with
  | TFetch dt => m ← add_fetch_wait m dt; Ok (tick c m)
  | TPrepare p => p ← add_prepare (sm_prepare_detail m) p; Ok (tick c (set_prepare m p))
  | TDetail d dt => p ← add_detail (sm_process_detail m) d dt; Ok (tick c (set_detail m p))
  | TProcess dt => m ← add_process m dt; Ok (tick c m)
  | TSink dt => m ← add_sink m dt; Ok (tick c m)
  | TBlock => Ok (tick c (count_block m))
  | TCheckpoint dt => m ← add_checkpoint m dt; Ok (tick c m)
  | TProgress elapsed state height scan_start =>
      '(m', lines) ← print_progress m elapsed state height scan_start;
      Ok {| ck_metrics := m'; ck_intervals := ck_intervals c ++ [interval m]; ck_output := ck_output c ++ lines |}
  end.
Definition timed_run (c : Clock) (events : list timing) : res Clock := fold_res timed_step c events.

(** The timers a progress line shows: the running total, the total at the last line and
    the time between. *)
Definition shown : list ((ScanMetrics → Z) * (ScanMetrics → Z) * (Interval → Z)) := [
  (sm_fetch_wait, sm_last_report_fetch_wait, iv_fetch);
  (sm_process, sm_last_report_process, iv_process);
  (sm_sink, sm_last_report_sink, iv_sink);
  (sm_checkpoint, sm_last_report_checkpoint, iv_checkpoint);
  (λ m, pr_input_remove (sm_process_detail m), λ m, pr_input_remove (sm_last_report_process_detail m), λ i, pr_input_remove (iv_detail i));
  (λ m, pr_input_accounting (sm_process_detail m), λ m, pr_input_accounting (sm_last_report_process_detail m), λ i, pr_input_accounting (iv_detail i));
  (λ m, pr_p2tr_spend (sm_process_detail m), λ m, pr_p2tr_spend (sm_last_report_process_detail m), λ i, pr_p2tr_spend (iv_detail i));
  (λ m, pr_output_classify (sm_process_detail m), λ m, pr_output_classify (sm_last_report_process_detail m), λ i, pr_output_classify (iv_detail i));
  (λ m, pr_output_accounting (sm_process_detail m), λ m, pr_output_accounting (sm_last_report_process_detail m), λ i, pr_output_accounting (iv_detail i));
  (λ m, pr_seen_keys (sm_process_detail m), λ m, pr_seen_keys (sm_last_report_process_detail m), λ i, pr_seen_keys (iv_detail i));
  (λ m, pr_utxo_insert (sm_process_detail m), λ m, pr_utxo_insert (sm_last_report_process_detail m), λ i, pr_utxo_insert (iv_detail i));
  (λ m, pr_utxo_hash (sm_process_detail m), λ m, pr_utxo_hash (sm_last_report_process_detail m), λ i, pr_utxo_hash (iv_detail i));
  (λ m, pr_row_build (sm_process_detail m), λ m, pr_row_build (sm_last_report_process_detail m), λ i, pr_row_build (iv_detail i));
  (λ m, pm_txid_compute (sm_prepare_detail m), λ m, pm_txid_compute (sm_last_report_prepare_detail m), λ i, pm_txid_compute (iv_prepare i));
  (λ m, pm_output_classify (sm_prepare_detail m), λ m, pm_output_classify (sm_last_report_prepare_detail m), λ i, pm_output_classify (iv_prepare i))].

Definition nonnegative (e : timing) : Prop :=
  match e with
  | TFetch dt | TDetail _ dt | TProcess dt | TSink dt | TCheckpoint dt => 0 ≤ dt
  | TPrepare p => 0 ≤ pm_txid_compute p ∧ 0 ≤ pm_output_classify p ∧ 0 ≤ pm_p2tr_spend_classify p
  | TBlock => True
  | TProgress elapsed _ _ _ => 0 ≤ elapsed ≤ duration_max
  end.

(** ** The lines partition the run *)
Definition sum_intervals (f : Interval → Z) (ivs : list Interval) : Z := foldr Z.add 0 (f <$> ivs).
Definition partitioned (c : Clock) (t : (ScanMetrics → Z) * (ScanMetrics → Z) * (Interval → Z)) : Prop :=
  sum_intervals t.2 (ck_intervals c) = t.1.2 (ck_metrics c) ∧
  0 ≤ t.1.2 (ck_metrics c) ≤ t.1.1 (ck_metrics c) ∧ t.1.1 (ck_metrics c) ≤ duration_max.

Lemma dur_add_ok a b c : dur_add a b = Ok c → c = a + b ∧ a + b ≤ duration_max.
Proof. unfold dur_add. destruct (bool_decide _) eqn:E; [|done]. apply bool_decide_eq_true in E. by intros [= <-]. Qed.

(** A step that only adds to totals. *)
Definition advances (m m' : ScanMetrics) : Prop :=
  Forall (λ t, t.1.2 m' = t.1.2 m ∧ t.1.1 m ≤ t.1.1 m' ∧ (t.1.1 m ≤ duration_max → t.1.1 m' ≤ duration_max)) shown.
Lemma advance c m' : Forall (partitioned c) shown → advances (ck_metrics c) m' → Forall (partitioned (tick c m')) shown.
Proof.
  intros Hp Ha. apply Forall_forall. intros t Ht. unfold advances in Ha. rewrite !Forall_forall in *.
  destruct (Hp t Ht) as (H1 & H2 & H3). destruct (Ha t Ht) as (H4 & H5 & H6).
  unfold partitioned. cbn [tick ck_metrics ck_intervals]. rewrite H4. split; [done|]. split; [lia|auto].
Qed.

Ltac each_timer tac := unfold advances, shown; repeat (apply Forall_cons; split); [..|by apply Forall_nil];
  cbn [fst snd with_totals set_detail set_prepare count_block sm_fetch_wait sm_process sm_sink sm_checkpoint sm_process_detail
       sm_prepare_detail sm_last_report_fetch_wait sm_last_report_process sm_last_report_sink sm_last_report_checkpoint
       sm_last_report_process_detail sm_last_report_prepare_detail]; tac; (split; [reflexivity|split; lia]).

Lemma totals_advance m f p s c d q b :
  sm_fetch_wait m ≤ f ≤ Z.max (sm_fetch_wait m) duration_max → sm_process m ≤ p ≤ Z.max (sm_process m) duration_max →
  sm_sink m ≤ s ≤ Z.max (sm_sink m) duration_max → sm_checkpoint m ≤ c ≤ Z.max (sm_checkpoint m) duration_max →
  d = sm_process_detail m → q = sm_prepare_detail m → advances m (with_totals m f p s c d q b).
Proof. intros Hf Hp Hs Hc -> ->. each_timer idtac. Qed.

Lemma detail_advance m d dt p : 0 ≤ dt → add_detail (sm_process_detail m) d dt = Ok p → advances m (set_detail m p).
Proof.
  intros Hdt. unfold add_detail. destruct (sm_process_detail m) as [] eqn:E.
  destruct d; intros H; destruct (dur_add _ _) as [t|?|?] eqn:Ed; try discriminate H;
    apply dur_add_ok in Ed as [-> Hm]; injection H as <-; each_timer ltac:(rewrite ?E; cbn).
Qed.

Lemma prepare_advance m p q :
  0 ≤ pm_txid_compute p ∧ 0 ≤ pm_output_classify p ∧ 0 ≤ pm_p2tr_spend_classify p →
  add_prepare (sm_prepare_detail m) p = Ok q → advances m (set_prepare m q).
Proof.
  intros Hp H. unfold add_prepare in H.
  destruct (dur_add (pm_txid_compute _) _) as [a|?|?] eqn:Ea; [|discriminate H..].
  destruct (dur_add (pm_output_classify _) _) as [b|?|?] eqn:Eb; [|discriminate H..].
  destruct (dur_add (pm_p2tr_spend_classify _) _) as [d|?|?] eqn:Ed; [|discriminate H..].
  apply dur_add_ok in Ea as [-> Ha], Eb as [-> Hb]. injection H as <-. each_timer ltac:(cbn).
Qed.

Lemma report_partition c lines : Forall (partitioned c) shown →
  Forall (partitioned {| ck_metrics := mark_reported (ck_metrics c); ck_intervals := ck_intervals c ++ [interval (ck_metrics c)];
                         ck_output := lines |}) shown.
Proof.
  intros Hp. assert (Hs : ∀ f ivs i, sum_intervals f (ivs ++ [i]) = sum_intervals f ivs + f i).
  { intros f ivs i. unfold sum_intervals. rewrite fmap_app, foldr_app. cbn [fmap list_fmap foldr].
    generalize (f i). intros z. induction ivs as [|x l IH]; [cbn; lia|]. rewrite !fmap_cons. cbn [foldr]. lia. }
  unfold shown in *. repeat (apply Forall_cons in Hp as [? Hp]).
  repeat (apply Forall_cons; split); [..|by apply Forall_nil]; unfold partitioned in *;
    cbn [fst snd ck_metrics ck_intervals mark_reported sm_fetch_wait sm_process sm_sink sm_checkpoint sm_process_detail
       sm_prepare_detail sm_last_report_fetch_wait sm_last_report_process sm_last_report_sink sm_last_report_checkpoint
       sm_last_report_process_detail sm_last_report_prepare_detail] in *;
    rewrite Hs; cbn [interval iv_fetch iv_process iv_sink iv_checkpoint iv_detail iv_prepare process_saturating_delta
      prepare_saturating_delta pr_input_remove pr_input_accounting pr_p2tr_spend pr_output_classify pr_output_accounting
      pr_seen_keys pr_utxo_insert pr_utxo_hash pr_row_build pm_txid_compute pm_output_classify];
    unfold saturating_sub; lia.
Qed.

Lemma timed_step_partition c e c' : nonnegative e → Forall (partitioned c) shown → timed_step c e = Ok c' →
  Forall (partitioned c') shown.
Proof.
  intros He Hp H. destruct e as [dt|p|d dt|dt|dt| |dt|el st h s0]; cbn [timed_step nonnegative] in *.
  - unfold add_fetch_wait in H. destruct (dur_add _ _) as [t|?|?] eqn:E; [|discriminate H..]. apply dur_add_ok in E as [-> Hm].
    injection H as <-. apply advance; [done|]. apply totals_advance; lia || done.
  - destruct (add_prepare _ _) as [q|?|?] eqn:E; [|discriminate H..]. injection H as <-.
    apply advance; [done|]. by eapply prepare_advance.
  - destruct (add_detail _ _ _) as [q|?|?] eqn:E; [|discriminate H..]. injection H as <-.
    apply advance; [done|]. by eapply detail_advance.
  - unfold add_process in H. destruct (dur_add _ _) as [t|?|?] eqn:E; [|discriminate H..]. apply dur_add_ok in E as [-> Hm].
    injection H as <-. apply advance; [done|]. apply totals_advance; lia || done.
  - unfold add_sink in H. destruct (dur_add _ _) as [t|?|?] eqn:E; [|discriminate H..]. apply dur_add_ok in E as [-> Hm].
    injection H as <-. apply advance; [done|]. apply totals_advance; lia || done.
  - injection H as <-. apply advance; [done|]. apply totals_advance; lia || done.
  - unfold add_checkpoint in H. destruct (dur_add _ _) as [t|?|?] eqn:E; [|discriminate H..]. apply dur_add_ok in E as [-> Hm].
    injection H as <-. apply advance; [done|]. apply totals_advance; lia || done.
  - unfold print_progress in H. destruct (total_accounted _) as [a|?|?]; [|discriminate H..]. injection H as <-.
    by apply report_partition.
Qed.

Lemma clock_new_partition : Forall (partitioned clock_new) shown.
Proof. unfold shown. repeat constructor; vm_compute; congruence. Qed.

Lemma timed_run_partition events c c' : Forall nonnegative events → Forall (partitioned c) shown →
  timed_run c events = Ok c' → Forall (partitioned c') shown.
Proof.
  intros He. revert c. induction He as [|e events He Hes IH]; intros c Hp H; [by injection H as <-|].
  unfold timed_run in H. cbn [fold_res] in H. destruct (timed_step c e) as [c1|?|?] eqn:E; [|discriminate H..].
  eapply IH; [|exact H]. by eapply timed_step_partition.
Qed.

(** ** The lines print numbers *)
Lemma as_secs_fin d : 0 ≤ d ≤ duration_max → fin (-40) 67 (as_secs_f64 d).
Proof.
  intros Hd. unfold duration_max, NANOS_PER_SEC in Hd. unfold as_secs_f64, NANOS_PER_SEC.
  assert (Hm : 0 ≤ d mod 10 ^ 9 < 2 ^ 30) by lia.
  apply (f_add_fin (-40) 65); [..|lia|lia].
  - eapply fin_weaken; [apply (of_int_fin _ 64); lia|lia..].
  - eapply fin_weaken; [eapply f_div_fin; [apply (of_int_fin _ 30); [lia|exact Hm]|apply (of_int_strictly (10 ^ 9) 30); lia|lia..]|lia..].
Qed.
Lemma secs_printable prec d : 0 ≤ d ≤ duration_max → printable (secs prec d).
Proof. intros Hd. by eapply fin_finite, as_secs_fin. Qed.
Lemma blocks_per_second_finite h s elapsed : 0 ≤ elapsed ≤ duration_max → is_finite (blocks_per_second h s elapsed).
Proof.
  intros He. eapply fin_finite, f_div_fin.
  - apply (of_int_fin _ 64); [lia|]. by apply wrap_width.
  - apply f_max_strictly; [by apply as_secs_fin|]. vm_compute. split; congruence.
  - lia.
  - lia.
Qed.

(** Each timer of a progress line is between zero and the largest duration. *)
Definition in_range (d : Z) : Prop := 0 ≤ d ≤ duration_max.
Lemma partitioned_range c t : partitioned c t → in_range (t.1.1 (ck_metrics c)) ∧
  in_range (saturating_sub (t.1.1 (ck_metrics c)) (t.1.2 (ck_metrics c))).
Proof. intros (H1 & H2 & H3). unfold in_range, saturating_sub. lia. Qed.

Lemma progress_prints c other elapsed state h s : Forall (partitioned c) shown → in_range other → in_range elapsed →
  prints_numbers (progress_lines (ck_metrics c) (interval (ck_metrics c)) other elapsed state h s).
Proof.
  intros Hp Ho He.
  assert (Hr : Forall (λ t, in_range (t.1.1 (ck_metrics c)) ∧
    in_range (saturating_sub (t.1.1 (ck_metrics c)) (t.1.2 (ck_metrics c)))) shown).
  { eapply Forall_impl; [exact Hp|]. intros t. apply partitioned_range. }
  unfold shown in Hr. repeat (apply Forall_cons in Hr as [[? ?] Hr]). cbn [fst snd] in *.
  unfold prints_numbers, progress_lines. pieces; first [by apply secs_printable|by apply blocks_per_second_finite|exact I].
Qed.

(** ** No sum of durations overflows *)
Definition process_sum (p : ProcessMetrics) : Z :=
  pr_input_remove p + pr_input_accounting p + pr_p2tr_spend p + pr_output_classify p + pr_output_accounting p +
  pr_seen_keys p + pr_utxo_insert p + pr_utxo_hash p + pr_row_build p.
Definition prepare_sum (p : PrepareMetrics) : Z := pm_txid_compute p + pm_output_classify p + pm_p2tr_spend_classify p.
Definition load (m : ScanMetrics) : Z :=
  sm_fetch_wait m + sm_process m + sm_sink m + sm_checkpoint m + process_sum (sm_process_detail m) + prepare_sum (sm_prepare_detail m).
Definition time_of (e : timing) : Z :=
  match e with
  | TFetch dt | TDetail _ dt | TProcess dt | TSink dt | TCheckpoint dt => dt
  | TPrepare p => prepare_sum p
  | TBlock | TProgress _ _ _ _ => 0
  end.
Definition total_time (events : list timing) : Z := foldr Z.add 0 (time_of <$> events).

Record clock_ok (c : Clock) : Prop := {
  co_shown : Forall (partitioned c) shown;
  co_unshown : 0 ≤ pm_p2tr_spend_classify (sm_prepare_detail (ck_metrics c));
  co_idle : pr_output_classify (sm_process_detail (ck_metrics c)) = 0;
  co_output : prints_numbers (ck_output c)
}.

Lemma dur_add_fits a b : a + b ≤ duration_max → dur_add a b = Ok (a + b).
Proof. intros H. unfold dur_add. by rewrite bool_decide_true. Qed.
Lemma total_accounted_fits p : 0 ≤ pr_input_remove p → Forall (Z.le 0) [pr_input_accounting p; pr_p2tr_spend p; pr_output_classify p;
    pr_output_accounting p; pr_seen_keys p; pr_utxo_insert p; pr_utxo_hash p; pr_row_build p] → process_sum p ≤ duration_max →
  total_accounted p = Ok (process_sum p).
Proof.
  intros H0 Hf Hs. unfold process_sum in *. repeat (apply Forall_cons in Hf as [? Hf]).
  unfold total_accounted. cbn [fold_res]. repeat (rewrite dur_add_fits by lia; cbn [mbind res_bind]). done.
Qed.
Lemma totals_nonneg c : clock_ok c → let m := ck_metrics c in let p := sm_process_detail m in let q := sm_prepare_detail m in
  Forall (Z.le 0) [sm_fetch_wait m; sm_process m; sm_sink m; sm_checkpoint m; pm_txid_compute q; pm_output_classify q;
    pm_p2tr_spend_classify q; pr_input_remove p; pr_input_accounting p; pr_p2tr_spend p; pr_output_classify p;
    pr_output_accounting p; pr_seen_keys p; pr_utxo_insert p; pr_utxo_hash p; pr_row_build p].
Proof.
  intros [Hp Hu _ _] m p q.
  assert (Hr : Forall (λ t, 0 ≤ t.1.1 (ck_metrics c)) shown).
  { eapply Forall_impl; [exact Hp|]. intros t Ht. apply partitioned_range in Ht as [[Ht _] _]. exact Ht. }
  unfold shown in Hr. repeat (apply Forall_cons in Hr as [? Hr]). repeat constructor; done.
Qed.

(** A step that adds to one total. *)
Lemma detail_step p d dt : process_sum p + dt ≤ duration_max → 0 ≤ pr_input_remove p → Forall (Z.le 0) [pr_input_accounting p;
    pr_p2tr_spend p; pr_output_classify p; pr_output_accounting p; pr_seen_keys p; pr_utxo_insert p; pr_utxo_hash p; pr_row_build p] →
  ∃ p', add_detail p d dt = Ok p' ∧ process_sum p' = process_sum p + dt ∧ pr_output_classify p' = pr_output_classify p.
Proof.
  intros Hs H0 Hf. repeat (apply Forall_cons in Hf as [? Hf]). destruct p. unfold process_sum in *. cbn in *.
  destruct d; cbn [add_detail]; rewrite dur_add_fits by lia; eexists; (split; [reflexivity|cbn; split; [lia|done]]).
Qed.

Lemma timed_step_ok c e : clock_ok c → nonnegative e → load (ck_metrics c) + time_of e ≤ duration_max →
  ∃ c', timed_step c e = Ok c' ∧ clock_ok c' ∧ load (ck_metrics c') = load (ck_metrics c) + time_of e.
Proof.
  intros Hc He Hl. pose proof (totals_nonneg c Hc) as Hn. cbn zeta in Hn.
  pose proof Hc as [Hp Hu Hi Ho]. pose proof Hn as Hall. repeat (apply Forall_cons in Hn as [? Hn]).
  assert (Hstep : ∀ c', timed_step c e = Ok c' → Forall (partitioned c') shown) by (intros c'; by apply timed_step_partition).
  assert (Hd : Forall (Z.le 0) (drop 8 _)) by apply Forall_drop, Hall. cbn [drop] in Hd.
  unfold load, process_sum, prepare_sum in Hl.
  destruct e as [dt|p|d dt|dt|dt| |dt|el st h s0]; cbn [timed_step nonnegative time_of] in *.
  - unfold add_fetch_wait in *. rewrite dur_add_fits in * by lia. eexists. split; [reflexivity|].
    split; [by constructor; [apply Hstep| | |]|unfold load; cbn; lia].
  - unfold add_prepare in *. unfold prepare_sum in Hl. rewrite !dur_add_fits in * by lia. eexists. split; [reflexivity|].
    split; [constructor; [by apply Hstep|cbn; lia|done..]|unfold load, prepare_sum; cbn; lia].
  - destruct (detail_step (sm_process_detail (ck_metrics c)) d dt) as (p' & E & Hs & Hid); [unfold process_sum; lia|done|done|].
    rewrite E in *. eexists. split; [reflexivity|].
    split; [constructor; [by apply Hstep|done|cbn; by rewrite Hid|done]|unfold load; cbn; lia].
  - unfold add_process in *. rewrite dur_add_fits in * by lia. eexists. split; [reflexivity|].
    split; [by constructor; [apply Hstep| | |]|unfold load; cbn; lia].
  - unfold add_sink in *. rewrite dur_add_fits in * by lia. eexists. split; [reflexivity|].
    split; [by constructor; [apply Hstep| | |]|unfold load; cbn; lia].
  - eexists. split; [reflexivity|]. split; [by constructor; [apply Hstep| | |]|unfold load; cbn; lia].
  - unfold add_checkpoint in *. rewrite dur_add_fits in * by lia. eexists. split; [reflexivity|].
    split; [by constructor; [apply Hstep| | |]|unfold load; cbn; lia].
  - unfold print_progress in *. set (iv := interval (ck_metrics c)) in *.
    assert (Hb : Forall (λ t, 0 ≤ saturating_sub (t.1.1 (ck_metrics c)) (t.1.2 (ck_metrics c)) ≤ t.1.1 (ck_metrics c)) shown).
    { eapply Forall_impl; [exact Hp|]. intros t (? & ? & ?). unfold saturating_sub. lia. }
    unfold shown in Hb. repeat (apply Forall_cons in Hb as [? Hb]). cbn [fst snd] in *.
    assert (Ha : total_accounted (iv_detail iv) = Ok (process_sum (iv_detail iv))).
    { apply total_accounted_fits; [cbn; lia|repeat constructor; cbn; lia|unfold process_sum; cbn; lia]. }
    rewrite Ha in *. eexists. split; [reflexivity|]. split; [|unfold load; cbn; lia].
    constructor; [by apply Hstep|done|done|]. cbn [ck_output]. apply Forall_app. split; [done|].
    apply progress_prints; [done| |done].
    assert (Hs : 0 ≤ process_sum (iv_detail iv)) by (unfold process_sum; cbn; lia).
    assert (Hq : 0 ≤ iv_process iv ≤ duration_max) by (cbn [iv interval iv_process]; lia).
    revert Hs Hq. generalize (process_sum (iv_detail iv)), (iv_process iv). unfold in_range, saturating_sub. lia.
Qed.

Lemma timed_run_ok events c : clock_ok c → Forall nonnegative events → load (ck_metrics c) + total_time events ≤ duration_max →
  ∃ c', timed_run c events = Ok c' ∧ clock_ok c'.
Proof.
  intros Hc He. revert c Hc. induction He as [|e events He Hes IH]; intros c Hc Hl; [by exists c|].
  assert (Ht : 0 ≤ total_time events).
  { clear IH Hl Hc. induction Hes as [|x l Hx Hl IH]; [done|]. unfold total_time in *. rewrite fmap_cons. cbn [foldr].
    enough (0 ≤ time_of x) by lia. destruct x; cbn in *; unfold prepare_sum; lia. }
  unfold total_time in *. rewrite fmap_cons in Hl. cbn [foldr] in Hl.
  destruct (timed_step_ok c e Hc He) as (c1 & E & Hc1 & Hl1); [lia|].
  destruct (IH c1 Hc1) as (c' & E' & Hc'); [lia|]. exists c'. split; [|done].
  unfold timed_run in *. cbn [fold_res]. by rewrite E.
Qed.

(** ** Property *)

(** However a scan spends its time, as long as the whole fits a [Duration]: the
    metrics never panic; for every timer a progress line shows, the intervals printed so
    far add up to the total of the last line, and that to no more than the total; every
    number printed is finite; and the line's [output_classify] of the process detail is
    zero, whatever happens, since nothing adds to it. *)
Theorem progress_partitions_run (events : list timing) (He : Forall nonnegative events)
    (Ht : total_time events ≤ duration_max) :
  ∃ c, timed_run clock_new events = Ok c ∧
    Forall (λ t, sum_intervals t.2 (ck_intervals c) = t.1.2 (ck_metrics c) ∧
                 0 ≤ t.1.2 (ck_metrics c) ≤ t.1.1 (ck_metrics c)) shown ∧
    prints_numbers (ck_output c) ∧ pr_output_classify (sm_process_detail (ck_metrics c)) = 0.
Proof.
  destruct (timed_run_ok events clock_new) as (c & E & Hc); [|done|exact Ht|].
  { constructor; [apply clock_new_partition|done|done|constructor]. }
  exists c. destruct Hc as [Hp _ Hi Ho]. split_and!; [done| |done|done].
  eapply Forall_impl; [exact Hp|]. intros t (H1 & H2 & H3). done.
Qed.

Definition demo_events : list timing :=
  [TFetch (3 * 10 ^ 9); TPrepare {| pm_txid_compute := 10; pm_output_classify := 20; pm_p2tr_spend_classify := 5 |};
   TDetail DInputRemove (10 ^ 8); TProcess (5 * 10 ^ 8); TSink (10 ^ 7); TBlock; TCheckpoint (10 ^ 9);
   TProgress (6 * 10 ^ 9) (scanner_new 0) 11 1; TFetch (10 ^ 9); TProgress (8 * 10 ^ 9) (scanner_new 0) 21 1].
Lemma progress_partitions_run_witness :
  ∃ c, timed_run clock_new demo_events = Ok c ∧ iv_fetch <$> ck_intervals c = [3 * 10 ^ 9; 10 ^ 9] ∧ prints_numbers (ck_output c).
Proof.
  destruct (progress_partitions_run demo_events) as (c & E & _ & Ho & _).
  - repeat constructor; vm_compute; congruence.
  - vm_compute. congruence.
  - exists c. split; [exact E|]. split; [|exact Ho]. vm_compute in E. injection E as <-. vm_compute. reflexivity.
Defined.
Example progress_line : (c ← timed_run clock_new demo_events; Ok (show_line (default [] (ck_output c !! 0%nat)))) =
  Ok (ascii_bytes (
    "  h=     11 blocks=      1 last_id=           0 utxo=         0 seen_keys=         0 missing=     0   1.7 blk/s | " ++
    "fetch+decode+prepare=3.0s (+3.00s/1) process=0.5s (+0.50s/1) sink=0.0s checkpoint=1.0s")%string ++ [10]).
Proof. vm_compute. reflexivity. Qed.
