(* ===== verification/UnitTests.v ===== *)
(** * The unit tests of the repository

    The [#[test]] functions of [light-server/src], [core/src] and [stats/src], translated
    like the rest of the code, and an executable SHA-256 to run them with. *)

From S2P Require Import Prelude Bits EliasDelta Helper RangeFrame UndoPayload Bitmap SpentIds TaggedHash OutputHash LightBlock LightWire P2trIndexer ScriptClassify ScriptType SpTweak Decimal ArchiveBackend FileArchive Server Profile TaprootSpend StatsSinks.

(** * SHA-256

    An executable instance of the class [Sha256]: the digest of FIPS 180-4.  The crate
    calls [sha2]; the theorems hold for any instance, and this one is what the unit
    tests of the crate run with.  The constants are computed from the primes, as the
    standard defines them. *)

(** The first [n] primes, by trial division. *)
Fixpoint primes_from (fuel : nat) (n : nat) (p : Z) (acc : list Z) : list Z :=
  match fuel with
  | O => acc
  | S fuel =>
      if bool_decide (length acc = n) then acc
      else primes_from fuel n (p + 1) (if existsb (λ q, (p mod q =? 0)) acc then acc else acc ++ [p])
  end.
Definition primes (n : nat) : list Z := primes_from 400 n 2 [].

(** The integer cube root, bit by bit from bit [k - 1] down. *)
Fixpoint cube_root (k : nat) (r x : Z) : Z :=
  match k with
  | O => r
  | S k => let r' := r + 2 ^ Z.of_nat k in cube_root k (if r' * r' * r' <=? x then r' else r) x
  end.

(** The first 32 bits of the fractional parts of cube and square roots of primes. *)
Definition round_constants : list Z :=
  Eval vm_compute in (λ p, cube_root 36 0 (p * 2 ^ 96) mod 2 ^ 32) <$> primes 64.
Definition initial_state : list Z :=
  Eval vm_compute in (λ p, Z.sqrt (p * 2 ^ 64) mod 2 ^ 32) <$> primes 8.

Definition rotr (n x : Z) : Z := Z.lor (Z.shiftr x n) (wrap 32 (Z.shiftl x (32 - n))).
Definition big_sigma0 (x : Z) : Z := Z.lxor (Z.lxor (rotr 2 x) (rotr 13 x)) (rotr 22 x).
Definition big_sigma1 (x : Z) : Z := Z.lxor (Z.lxor (rotr 6 x) (rotr 11 x)) (rotr 25 x).
Definition small_sigma0 (x : Z) : Z := Z.lxor (Z.lxor (rotr 7 x) (rotr 18 x)) (Z.shiftr x 3).
Definition small_sigma1 (x : Z) : Z := Z.lxor (Z.lxor (rotr 17 x) (rotr 19 x)) (Z.shiftr x 10).
Definition choose (x y z : Z) : Z := Z.lxor (Z.land x y) (Z.land (umax 32 - x) z).
Definition majority (x y z : Z) : Z := Z.lxor (Z.lxor (Z.land x y) (Z.land x z)) (Z.land y z).

(** The message with its padding: a one bit, zeros, the length in bits. *)
Definition padded (m : bytes) : bytes :=
  let zeros := Z.to_nat ((55 - len m) mod 64) in
  m ++ 128 :: replicate zeros 0 ++ be_bytes 8 (wrap 64 (8 * len m)).
Fixpoint words (fuel : nat) (m : bytes) : list Z :=
  match fuel, m with
  | S fuel, _ :: _ => from_be (take 4 m) :: words fuel (drop 4 m)
  | _, _ => []
  end.

(** The message schedule: the last sixteen words, newest first, give the next. *)
Fixpoint schedule (n : nat) (recent : list Z) : list Z :=
  match n with
  | O => []
  | S n =>
      let at_ i := default 0 (recent !! (i - 1)%nat) in
      let w := wrap 32 (small_sigma1 (at_ 2%nat) + at_ 7%nat + small_sigma0 (at_ 15%nat) + at_ 16%nat) in
      w :: schedule n (w :: take 15 recent)
  end.
Definition message_schedule (block : list Z) : list Z := block ++ schedule 48 (reverse block).

Definition compress_round (s : list Z) (kw : Z * Z) : list Z :=
  match s with
  | [a; b; c; d; e; f; g; h] =>
      let t1 := h + big_sigma1 e + choose e f g + kw.1 + kw.2 in
      let t2 := big_sigma0 a + majority a b c in
      [wrap 32 (t1 + t2); a; b; c; wrap 32 (d + t1); e; f; g]
  | _ => s
  end.
Definition compress (s : list Z) (block : list Z) : list Z :=
  zip_with (λ x y, wrap 32 (x + y)) s (foldl compress_round s (zip round_constants (message_schedule block))).
Fixpoint digest_blocks (fuel : nat) (s ws : list Z) : list Z :=
  match fuel, ws with
  | S fuel, _ :: _ => digest_blocks fuel (compress s (take 16 ws)) (drop 16 ws)
  | _, _ => s
  end.
Definition sha256_digest (m : bytes) : bytes :=
  let ws := words (length (padded m)) (padded m) in digest_blocks (length ws) initial_state ws ≫= be_bytes 4.

(** ** The digest has 32 bytes *)

Lemma compress_round_length s kw : length s = 8%nat → length (compress_round s kw) = 8%nat.
Proof. intros H. do 9 (destruct s as [|? s]; try discriminate H). done. Qed.
Lemma compress_length s block : length s = 8%nat → length (compress s block) = 8%nat.
Proof.
  intros H. unfold compress. rewrite length_zip_with, H.
  enough (length (foldl compress_round s (zip round_constants (message_schedule block))) = 8%nat) as -> by done.
  generalize (zip round_constants (message_schedule block)). intros l. revert s H.
  induction l as [|kw l IH]; intros s H; [done|]. cbn [foldl]. by apply IH, compress_round_length.
Qed.
Lemma digest_blocks_length fuel s ws : length s = 8%nat → length (digest_blocks fuel s ws) = 8%nat.
Proof.
  revert s ws. induction fuel as [|fuel IH]; intros s ws H; [done|]. cbn [digest_blocks].
  destruct ws; [done|]. by apply IH, compress_length.
Qed.
Lemma be_words_wf l : length (l ≫= be_bytes 4) = (4 * length l)%nat ∧ bytes_wf (l ≫= be_bytes 4).
Proof.
  induction l as [|x l [IHl IHw]]; [by split; [|constructor]|]. rewrite bind_cons. split.
  - rewrite length_app, length_be_bytes, IHl. cbn [length]. lia.
  - apply Forall_app. split; [apply be_bytes_wf|done].
Qed.
Lemma sha256_digest_wf m : array_wf 32 (sha256_digest m).
Proof.
  unfold sha256_digest. cbn zeta. set (s := digest_blocks _ _ _).
  assert (length s = 8%nat) as H by by apply digest_blocks_length.
  destruct (be_words_wf s) as [Hl Hw]. split; [rewrite Hl; lia|done].
Qed.

Definition fips_sha256 : Sha256 := {| sha256 := sha256_digest; sha256_wf := sha256_digest_wf |}.

(** ** Known answers, and the tags of the crate *)
Example sha256_abc : from_be (sha256_digest (ascii_bytes "abc")) =
  0xba7816bf8f01cfea414140de5dae2223b00361a396177a9cb410ff61f20015ad.
Proof. vm_compute. reflexivity. Qed.
Example sha256_empty : from_be (sha256_digest []) =
  0xe3b0c44298fc1c149afbf4c8996fb92427ae41e4649b934ca495991b7852b855.
Proof. vm_compute. reflexivity. Qed.

(** The constants of [tagged_hash.rs] are the hashes of their tags. *)
Example inputs_tag : sha256_digest (ascii_bytes "BIP0352/Inputs") = BIP352_INPUTS_TAG_HASH.
Proof. vm_compute. reflexivity. Qed.

(** * The unit tests of the light server

    The [#[test]] functions of [light-server/src] and [core/src], translated like the
    rest of the code: a test is a computation that panics where an assertion fails or
    an [unwrap] finds an error.  Each one is run on the model with the real SHA-256 and
    ends in [Ok tt], as [cargo test] has it for the crate. *)

(** [assert!(b)], [Result::unwrap] and [assert!(r.is_err())]. *)
Definition assert (b : bool) : res unit := if b then Ok tt else Panic "assertion failed".
Definition unwrap {A} (r : res A) : res A := match r with Err e => Panic e | _ => r end.
Definition assert_err {A} (r : res A) : res unit := assert (is_err r).
Definition unwrap_err {A} (r : api A) : res ApiError := match r with AErr e => Ok e | _ => Panic "called unwrap_err on an Ok value" end.
Definition unwrap_api {A} (r : api A) : res A := match r with AOk a => Ok a | _ => Panic "called unwrap on an Err value" end.
Definition assert_eq {A} `{!EqDecision A} (x y : A) : res unit := assert (bool_decide (x = y)).

(** ** [index.rs] *)
Section index_tests.
Context `{!Sha256, !CapnpPacked light_block, !CapnpPacked stored_light_block}.

Definition skipped_txs_for_tweaks_bitmap_from_indexes (tx_count : Z) (skipped_txs_for_tweaks : list Z) : res bytes :=
  bitmap ← empty_skipped_txs_for_tweaks_bitmap tx_count;
  fold_res (λ bitmap tx_index, set_skipped_tx_in_bitmap tx_count bitmap tx_index) bitmap skipped_txs_for_tweaks.

(** The two assignments every test that builds a stored block ends with. *)
Definition with_precomputed_hashes (stored : StoredLightBlockInput) : res StoredLightBlockInput :=
  two ← unwrap (build_stored_truncated_output_hashes (sb_raw_block_bytes stored) (sb_outputs stored) RESPONSE_LABEL_BUDGET_TWO);
  hundred ← unwrap (build_stored_truncated_output_hashes (sb_raw_block_bytes stored) (sb_outputs stored) RESPONSE_LABEL_BUDGET_HUNDRED);
  Ok {| sb_height := sb_height stored; sb_block_hash := sb_block_hash stored;
        sb_previous_block_hash := sb_previous_block_hash stored; sb_first_uid := sb_first_uid stored;
        sb_tx_count := sb_tx_count stored; sb_skipped_txs_for_tweaks := sb_skipped_txs_for_tweaks stored;
        sb_tweaks := sb_tweaks stored; sb_skipped_outputs := sb_skipped_outputs stored;
        sb_outputs := sb_outputs stored; sb_spends := sb_spends stored; sb_raw_block_bytes := sb_raw_block_bytes stored;
        sb_truncated_output_hash_for_two_labels := two; sb_truncated_output_hash_for_hundred_labels := hundred |}.

Definition tweak_of (count n : Z) : TweakEntryInput := {| output_count := count; tweak := replicate 33 n |}.
Definition output_of (n spent flags : Z) : StoredOutputEntryInput :=
  {| key := replicate 32 n; spent_height := spent; flags := flags |}.

Definition stored_block_for_test : res StoredLightBlockInput :=
  bitmap ← unwrap (skipped_txs_for_tweaks_bitmap_from_indexes 3 [0; 2]);
  with_precomputed_hashes {|
    sb_height := 100; sb_block_hash := replicate 32 1; sb_previous_block_hash := replicate 32 2;
    sb_first_uid := 42; sb_tx_count := 3; sb_skipped_txs_for_tweaks := bitmap;
    sb_tweaks := [tweak_of 1 9]; sb_skipped_outputs := [1];
    sb_outputs := [output_of 3 STORAGE_SPENT_HEIGHT_UNSPENT STORAGE_OUTPUT_FLAG_REUSED];
    sb_spends := [{| spent_uid := 41; creation_height := 99 |}];
    sb_raw_block_bytes := 2500000;
    sb_truncated_output_hash_for_two_labels := []; sb_truncated_output_hash_for_hundred_labels := [] |}.

Definition TRUNCATED_OUTPUT_HASH_DOMAIN : bytes := ascii_bytes "bitcoindata/light-truncated-output-hash/v1".
Definition truncated_output_hash_uses_bip340_tagged_hash : res unit :=
  let key := replicate 32 3 in
  let tag_hash := sha256 TRUNCATED_OUTPUT_HASH_DOMAIN in
  assert_eq TRUNCATED_OUTPUT_HASH_TAG_HASH tag_hash;;
  let expected := sha256 (tag_hash ++ tag_hash ++ key) in
  assert_eq (digest_32 truncated_output_hash_hasher key) expected.

Definition spent_ids_elias_delta_ascending_absolute_roundtrip : res unit :=
  let ids := [0; 41; 41000; 1000000] in
  '(count, bs) ← unwrap (encode_spent_ids_elias_delta_ascending_absolute ids);
  assert_eq count (wrap 32 (len ids));;
  decoded ← unwrap (decode_spent_ids_elias_delta_ascending_absolute count bs);
  assert_eq decoded ids.

Definition encodes_typed_light_block_with_flat_tweaks : res unit :=
  bitmap ← unwrap (skipped_txs_for_tweaks_bitmap_from_indexes 3 [0; 2]);
  '(_, spent_ids) ← unwrap (encode_spent_ids_elias_delta_ascending_absolute [41]);
  let input := {|
    lb_height := 100; lb_block_hash := replicate 32 1; lb_previous_block_hash := replicate 32 2;
    lb_first_uid := 42; lb_tx_count := 3; lb_skipped_txs_for_tweaks := bitmap;
    lb_tweaks := [tweak_of 1 9]; lb_truncated_output_hash_bits := 8; lb_truncated_output_hashes := [3];
    lb_spent_id_codec := EliasDeltaAscendingAbsolute; lb_spent_count := 1; lb_spent_ids := spent_ids |} in
  msg ← unwrap (encode_light_block input);
  bs ← unwrap (to_packed_bytes msg);
  assert (negb (bool_decide (bs = [])));;
  block ← unwrap (read_message bs : res light_block);
  assert_eq (l_tx_count block) 3;;
  assert_eq (l_skipped_txs_for_tweaks block) [5];;
  assert_eq (l_tweak_count block) 1;;
  assert_eq (l_tweak_output_counts block) [1; 0];;
  assert_eq (l_tx_tweaks block) (replicate 32 9);;
  decoded ← unwrap (decode_light_block bs);
  assert_eq (lb_tx_count decoded) 3;;
  assert_eq (lb_skipped_txs_for_tweaks decoded) [5];;
  assert_eq (length (lb_tweaks decoded)) 1%nat;;
  first ← index (lb_tweaks decoded) 0;
  assert_eq (output_count first) 1;;
  let expected_tweak := <[0%nat := 2]> (replicate 33 9) in
  assert_eq (tweak first) expected_tweak.

Definition rejects_malformed_flat_tweak_lengths : res unit :=
  assert_err (decode_flat_tweaks 1 [1] (replicate 32 9));;
  assert_err (decode_flat_tweaks 1 [1; 0] (replicate 31 9)).

Definition skipped_txs_for_tweaks_bitmap_roundtrip_and_padding_validation : res unit :=
  bitmap ← unwrap (skipped_txs_for_tweaks_bitmap_from_indexes 10 [0; 3; 9]);
  assert_eq bitmap [9; 2];;
  indexes ← unwrap (skipped_txs_for_tweaks_indexes 10 bitmap);
  assert_eq indexes [0; 3; 9];;
  count ← unwrap (skipped_txs_for_tweaks_count 10 bitmap);
  assert_eq count 3;;
  assert_err (validate_skipped_txs_for_tweaks 10 [9; 130]).

Definition encodes_and_decodes_stored_light_block_to_response : res unit :=
  stored ← stored_block_for_test;
  msg ← unwrap (encode_stored_light_block stored);
  bs ← unwrap (to_packed_bytes msg);
  decoded ← unwrap (decode_stored_light_block bs);
  output ← index (sb_outputs decoded) 0;
  assert_eq (spent_height output) STORAGE_SPENT_HEIGHT_UNSPENT;;
  assert_eq (Z.land (flags output) STORAGE_OUTPUT_FLAG_REUSED) STORAGE_OUTPUT_FLAG_REUSED;;
  spend ← index (sb_spends decoded) 0;
  assert_eq (creation_height spend) 99;;
  assert_eq (sb_skipped_outputs decoded) [1];;
  assert_eq (sb_raw_block_bytes decoded) 2500000;;
  '(response_bytes, block_hash) ← unwrap (stored_light_block_to_response_bytes bs);
  assert_eq block_hash (replicate 32 1);;
  assert (negb (bool_decide (response_bytes = []))).

Definition validates_tweak_output_counts_match_truncated_output_hash_stream : res unit :=
  bitmap ← unwrap (empty_skipped_txs_for_tweaks_bitmap 1);
  assert_err (validate_light_block_input {|
    lb_height := 100; lb_block_hash := replicate 32 1; lb_previous_block_hash := replicate 32 2;
    lb_first_uid := 42; lb_tx_count := 1; lb_skipped_txs_for_tweaks := bitmap;
    lb_tweaks := [tweak_of 2 9]; lb_truncated_output_hash_bits := 8; lb_truncated_output_hashes := [3];
    lb_spent_id_codec := EliasDeltaAscendingAbsolute; lb_spent_count := 0; lb_spent_ids := [] |}).

Definition reuse_filter : StoredBlockResponseFilter :=
  {| cutthrough_start := None; cutthrough_tip := None; filter_reuse := true; labels := None |}.

Definition filters_reused_outputs_and_recomputes_dense_tweak_counts : res unit :=
  bitmap ← unwrap (skipped_txs_for_tweaks_bitmap_from_indexes 2 [0]);
  stored ← with_precomputed_hashes {|
    sb_height := 100; sb_block_hash := replicate 32 1; sb_previous_block_hash := replicate 32 2;
    sb_first_uid := 10; sb_tx_count := 2; sb_skipped_txs_for_tweaks := bitmap;
    sb_tweaks := [tweak_of 2 9]; sb_skipped_outputs := [];
    sb_outputs := [output_of 3 STORAGE_SPENT_HEIGHT_UNSPENT 0;
                   output_of 4 STORAGE_SPENT_HEIGHT_UNSPENT STORAGE_OUTPUT_FLAG_REUSED];
    sb_spends := []; sb_raw_block_bytes := 2500000;
    sb_truncated_output_hash_for_two_labels := []; sb_truncated_output_hash_for_hundred_labels := [] |};
  response ← unwrap (to_filtered_response_input stored reuse_filter);
  count ← unwrap (light_block_output_count response);
  assert_eq count 1;;
  first ← index (lb_tweaks response) 0;
  assert_eq (output_count first) 1.

Definition cutthrough_filters_outputs_tweaks_skipped_txs_and_spent_ids : res unit :=
  bitmap ← unwrap (skipped_txs_for_tweaks_bitmap_from_indexes 3 [0]);
  stored ← with_precomputed_hashes {|
    sb_height := 200; sb_block_hash := replicate 32 1; sb_previous_block_hash := replicate 32 2;
    sb_first_uid := 1000; sb_tx_count := 3; sb_skipped_txs_for_tweaks := bitmap;
    sb_tweaks := [tweak_of 2 9; tweak_of 1 8]; sb_skipped_outputs := [];
    sb_outputs := [output_of 3 STORAGE_SPENT_HEIGHT_UNSPENT 0; output_of 4 250 0; output_of 5 210 0];
    sb_spends := [{| spent_uid := 100; creation_height := 149 |}; {| spent_uid := 101; creation_height := 150 |}];
    sb_raw_block_bytes := 2500000;
    sb_truncated_output_hash_for_two_labels := []; sb_truncated_output_hash_for_hundred_labels := [] |};
  response ← unwrap (to_filtered_response_input stored {|
    cutthrough_start := Some 150; cutthrough_tip := Some 300; filter_reuse := false;
    labels := Some RESPONSE_LABEL_BUDGET_TWO |});
  count ← unwrap (light_block_output_count response);
  assert_eq count 1;;
  assert_eq (length (lb_tweaks response)) 1%nat;;
  first ← index (lb_tweaks response) 0;
  assert_eq (output_count first) 1;;
  assert_eq (tweak first) (replicate 33 9);;
  assert_eq (lb_skipped_txs_for_tweaks response) [5];;
  spent ← unwrap (decode_light_block_spent_ids response);
  assert_eq spent [100];;
  let expected_bits := choose_truncated_output_hash_bits 1 (sb_raw_block_bytes stored) RESPONSE_LABEL_BUDGET_TWO in
  output ← index (sb_outputs stored) 0;
  expected_hashes ← unwrap (pack_truncated_output_hash_from_keys [key output] expected_bits);
  assert_eq (lb_truncated_output_hash_bits response) expected_bits;;
  assert_eq (lb_truncated_output_hashes response) expected_hashes.

Definition filtered_response_omits_zero_output_reused_tweak_and_adds_skipped_tx : res unit :=
  bitmap ← unwrap (empty_skipped_txs_for_tweaks_bitmap 1);
  stored ← with_precomputed_hashes {|
    sb_height := 100; sb_block_hash := replicate 32 1; sb_previous_block_hash := replicate 32 2;
    sb_first_uid := 10; sb_tx_count := 1; sb_skipped_txs_for_tweaks := bitmap;
    sb_tweaks := [tweak_of 1 9]; sb_skipped_outputs := [];
    sb_outputs := [output_of 4 STORAGE_SPENT_HEIGHT_UNSPENT STORAGE_OUTPUT_FLAG_REUSED];
    sb_spends := []; sb_raw_block_bytes := 2500000;
    sb_truncated_output_hash_for_two_labels := []; sb_truncated_output_hash_for_hundred_labels := [] |};
  response ← unwrap (to_filtered_response_input stored reuse_filter);
  count ← unwrap (light_block_output_count response);
  assert_eq count 0;;
  assert (bool_decide (lb_tweaks response = []));;
  assert_eq (lb_skipped_txs_for_tweaks response) [1];;
  assert_eq (lb_truncated_output_hash_bits response) 0;;
  assert (bool_decide (lb_truncated_output_hashes response = [])).

Definition unfiltered_response_uses_precomputed_hashes_and_encoded_spent_ids : res unit :=
  stored ← stored_block_for_test;
  response ← unwrap (to_response_input_for_labels stored (Some RESPONSE_LABEL_BUDGET_TWO));
  assert_eq (lb_truncated_output_hashes response) (sb_truncated_output_hash_for_two_labels stored);;
  assert_eq (lb_spent_count response) 1;;
  spent ← unwrap (decode_light_block_spent_ids response);
  assert_eq spent [41].

End index_tests.

(** ** [p2tr_indexer.rs] *)
Definition txid (n : Z) : bytes := replicate 32 n.
Definition xonly_key (n : Z) : bytes := replicate 32 n.

Definition test_output (vout : Z) (key : option bytes) (is_p2tr is_nums : bool) : TxOutputScan :=
  {| to_vout := vout; to_value_sat := 0; to_script_pubkey := []; to_p2tr_xonly_key := key;
     to_is_p2tr := is_p2tr; to_is_nums := is_nums |}.
Definition test_block (h hash prev : Z) (tx : TxScanInput) : BlockScanInput :=
  {| bk_height := h; bk_block_hash := replicate 32 hash; bk_previous_block_hash := replicate 32 prev;
     bk_raw_block_bytes := 1000; bk_txs := [tx] |}.

Section indexer_tests.
Context `{!Sha256}.

Definition p2tr_sp_counts_nums_slots_but_skips_nums_outputs : res unit :=
  let block := test_block 1 1 0 {|
    tx_txid := txid 10; tx_tx_index := 0; tx_inputs := []; tx_silent_payment_tweak := Some (replicate 33 9);
    tx_outputs := [test_output 0 (Some (xonly_key 1)) true false; test_output 1 (Some (xonly_key 1)) true false;
                   test_output 2 (Some (xonly_key 2)) true true] |} in
  '(applied, _) ← unwrap (apply_block_with_stats indexer_new block);
  count ← unwrap (light_block_output_count (ab_light_block applied));
  assert_eq count 2;;
  assert_eq (lb_first_uid (ab_light_block applied)) 1;;
  created ← index (ab_created_utxos applied) 1;
  assert (cu_is_reused created);;
  output ← index (sb_outputs (ab_storage_block applied)) 1;
  assert_eq (Z.land (flags output) STORAGE_OUTPUT_FLAG_REUSED) STORAGE_OUTPUT_FLAG_REUSED;;
  assert_eq (sb_skipped_outputs (ab_storage_block applied)) [2];;
  assert_eq (bs_p2tr_nums_count (ab_stats applied)) 1;;
  assert_eq (bs_p2tr_reused_count (ab_stats applied)) 1;;
  assert_eq (bs_indexed_output_count (ab_stats applied)) 2.

Definition tracks_spends_in_scope : res unit :=
  let state := indexer_new in
  let block1 := test_block 1 1 0 {|
    tx_txid := txid 10; tx_tx_index := 0; tx_inputs := []; tx_silent_payment_tweak := Some (replicate 33 9);
    tx_outputs := [test_output 0 None false false; test_output 1 (Some (xonly_key 1)) true false] |} in
  '(light1, state) ← unwrap (apply_block state block1);
  count ← unwrap (light_block_output_count light1);
  assert_eq count 1;;
  assert_eq (lb_first_uid light1) 1;;
  let block2 := test_block 2 2 1 {|
    tx_txid := txid 11; tx_tx_index := 0;
    tx_inputs := [{| ti_previous_output := {| op_txid := txid 10; op_vout := 1 |}; ti_script_sig := []; ti_witness := [] |}];
    tx_silent_payment_tweak := Some (replicate 33 8);
    tx_outputs := [test_output 0 (Some (xonly_key 2)) true false] |} in
  '(light2, state) ← unwrap (apply_block state block2);
  spent ← unwrap (decode_light_block_spent_ids light2);
  assert_eq spent [1];;
  assert_eq (lb_first_uid light2) 2;;
  assert_eq (live_uids_sorted state) [2].

End indexer_tests.

(** ** [sp_tweak.rs] *)
Section scan_tests.
Context `{!Secp, !Hash160, !ScriptTemplates, !Sha256}.

Definition GENERATOR_XONLY : bytes :=
  be_bytes 32 0x79be667ef9dcbbac55a06295ce870b07029bfcdb2dce28d959f2815b16f81798.
Definition GENERATOR_COMPRESSED : bytes := 2 :: GENERATOR_XONLY.

Definition outpoint (n : Z) : OutPointKey := {| op_txid := replicate 32 n; op_vout := 0 |}.
Definition tx_input (n : Z) (script_sig : bytes) (witness : list bytes) (prevout : option PrevoutInfo) : TxInputContext :=
  {| previous_output := outpoint n; script_sig := script_sig; witness := witness; prevout := prevout |}.

Definition is_computed (status : ScanPointStatus) : bool :=
  match status with Computed _ => true | _ => false end.
Definition is_ineligible (reason : ScanPointIneligibleReason) (status : ScanPointStatus) : bool :=
  match status, reason with
  | Ineligible NoEligibleInputs, NoEligibleInputs => true
  | Ineligible WitnessVersionGreaterThanOne, WitnessVersionGreaterThanOne => true
  | Ineligible PublicKeySumInfinity, PublicKeySumInfinity => true
  | _, _ => false
  end.

Definition empty_prevouts_are_ineligible : res unit :=
  status ← unwrap (compute_tx_scan_point []);
  assert (is_ineligible NoEligibleInputs status).

Definition missing_prevout_blocks_partial_computation : res unit :=
  status ← unwrap (compute_tx_scan_point [tx_input 1 [] [] None]);
  assert (match status with MissingPrevout 1 => true | _ => false end).

Definition p2tr_prevout_with_witness_computes_scan_point : res unit :=
  xonly_key ← expect (xonly_from_slice GENERATOR_XONLY) "malformed public key";
  status ← unwrap (compute_tx_scan_point
    [tx_input 1 [] [replicate 64 1] (Some {| script := PP2tr xonly_key |})]);
  match status with
  | Computed tweak => assert_eq (length tweak) 33%nat
  | _ => Panic "expected computed scan point"
  end.

Definition p2wpkh_prevout : PrevoutInfo := {| script := PP2wpkh (hash160 GENERATOR_COMPRESSED) |}.

Definition p2wpkh_prevout_computes_scan_point_from_witness_pubkey : res unit :=
  status ← unwrap (compute_tx_scan_point
    [tx_input 2 [] [replicate 64 1; GENERATOR_COMPRESSED] (Some p2wpkh_prevout)]);
  assert (is_computed status).

Definition segwit_version_greater_than_one_makes_transaction_ineligible : res unit :=
  status ← unwrap (compute_tx_scan_point [tx_input 3 [] [] (Some {| script := PWitnessUnknown 2 |})]);
  assert (is_ineligible WitnessVersionGreaterThanOne status).

Definition non_eligible_input_is_skipped_not_treated_as_missing : res unit :=
  status ← unwrap (compute_tx_scan_point
    [tx_input 4 [] [replicate 64 1; GENERATOR_COMPRESSED] (Some p2wpkh_prevout);
     tx_input 5 [] [] (Some {| script := POther |})]);
  assert (is_computed status).

End scan_tests.

(** ** [script_classify.rs] *)
Section classify_tests.
Context `{!ScriptTemplates}.

Definition extracts_p2tr_xonly_key_after_rust_bitcoin_classification : res unit :=
  let script := [81; 32] ++ replicate 32 7 in
  extracted ← extract_p2tr_xonly script;
  assert_eq extracted (Some (replicate 32 7));;
  assert (is_p2tr script);;
  kind ← classify_script script;
  assert_eq kind (KP2tr (replicate 32 7)).

Definition extracts_payloads_from_common_templates : res unit :=
  p2pkh ← classify_script ([118; 169; 20] ++ replicate 20 1 ++ [136; 172]);
  match p2pkh with KP2pkh hash160 => assert_eq hash160 (replicate 20 1) | _ => Panic "expected P2PKH" end;;
  p2wpkh ← classify_script ([0; 20] ++ replicate 20 2);
  match p2wpkh with KP2wpkh hash160 => assert_eq hash160 (replicate 20 2) | _ => Panic "expected P2WPKH" end;;
  p2wsh ← classify_script ([0; 32] ++ replicate 32 3);
  match p2wsh with KP2wsh sha256 => assert_eq sha256 (replicate 32 3) | _ => Panic "expected P2WSH" end;;
  kind ← classify_script [106; 1; 0];
  assert_eq kind KOpReturn;;
  assert (is_op_return [106; 1; 0]).

Definition classifies_unknown_segwit_versions_after_known_templates : res unit :=
  kind ← classify_script ([82; 32] ++ replicate 32 4);
  assert_eq kind (KWitnessUnknown 2 32).

End classify_tests.

(** ** [range.rs], [profile.rs], [codec/elias_delta.rs] and [core/src/block.rs] *)
Definition range_roundtrip : res unit :=
  body ← unwrap (frame_range [ascii_bytes "a"; ascii_bytes "bc"]);
  parsed ← unwrap (parse_range body);
  assert_eq parsed [ascii_bytes "a"; ascii_bytes "bc"].
Definition range_rejects_trailing_bytes : res unit :=
  body ← unwrap (frame_range [ascii_bytes "a"]);
  assert_err (parse_range (body ++ [0])).

Definition p2tr_archive_defaults_to_taproot_activation_on_mainnet : res unit :=
  assert_eq (default_start_height Mainnet) MAINNET_TAPROOT_ACTIVATION_HEIGHT.
Definition p2tr_archive_defaults_to_taproot_activation_on_testnet : res unit :=
  assert_eq (default_start_height Testnet) TESTNET_TAPROOT_ACTIVATION_HEIGHT.
Definition non_taproot_activation_networks_default_to_zero : res unit :=
  assert_eq (default_start_height Signet) 0;;
  assert_eq (default_start_height Regtest) 0;;
  assert_eq (default_start_height Fixture) 0.

Definition roundtrip_elias_delta : res unit :=
  let values := [1; 2; 3; 4; 5; 17; 255; 256; 257; 65535; 1000000; umax 32] in
  bs ← unwrap (encode_elias_delta_values values);
  decoded ← unwrap (decode_elias_delta_values bs (length values));
  assert_eq decoded values.

Definition decodes_empty_block_undo : res unit :=
  decoded ← unwrap (decode_spent_txouts_payload [0]);
  assert_eq decoded {| undo_txs := [] |}.
Definition decodes_raw_txout_payload : res unit :=
  let payload := [1] ++ [1] ++ le_bytes 8 1309258 ++ [34] ++ [81; 32] ++ replicate 32 66 in
  decoded ← unwrap (decode_spent_txouts_payload payload);
  assert_eq (length (undo_txs decoded)) 1%nat;;
  tx ← index (undo_txs decoded) 0;
  assert_eq (length tx) 1%nat;;
  txout ← index tx 0;
  assert_eq (value_sat txout) 1309258;;
  assert_eq (length (script_pubkey txout)) 34%nat;;
  prefix ← slice (script_pubkey txout) 0 2;
  assert_eq prefix [81; 32].

(** ** [server.rs] *)
Definition tip (h : Z) : ChainTip :=
  {| height := h; block_hash := ascii_bytes "0000000000000000000000000000000000000000000000000000000000000000" |}.
Definition manifest (tip_height : Z) : Manifest :=
  {| version := WIRE_VERSION; network := ascii_bytes "regtest"; genesis_hash := None; finality_depth := 6;
     suggested_reorg_cache_depth := 100; ArchiveBackend.max_range_count := 1000; mf_tip := Some (tip tip_height) |}.

Definition resolves_cutthrough_tip_with_explicit_value : res unit :=
  resolved ← unwrap_api (resolve_cutthrough_tip (Some 100) (Some 150) (tip 200));
  assert_eq resolved (Some 150).
Definition rejects_cutthrough_tip_below_start : res unit :=
  err ← unwrap_err (resolve_cutthrough_tip (Some 100) (Some 99) (tip 200));
  assert_eq (status err) 400.
Definition rejects_cutthrough_tip_above_served_tip : res unit :=
  err ← unwrap_err (resolve_cutthrough_tip (Some 100) (Some 201) (tip 200));
  assert_eq (status err) 400.
Definition rejects_cutthrough_tip_below_required_response_height : res unit :=
  err ← unwrap_err (ensure_cutthrough_tip_covers_height (Some 150) 151);
  assert_eq (status err) 400.
Definition accepts_cutthrough_tip_at_required_response_height : res unit :=
  unwrap_api (ensure_cutthrough_tip_covers_height (Some 151) 151).
Definition implicit_cutthrough_tip_is_dynamic_cache : res unit :=
  let manifest := manifest 200 in
  assert_eq (filtered_cache_control manifest (tip 200) 100 (Some 50) None) (ascii_bytes "no-cache").
Definition explicit_cutthrough_tip_uses_normal_cache_rules : res unit :=
  let manifest := manifest 200 in
  assert_eq (filtered_cache_control manifest (tip 200) 100 (Some 50) (Some 200))
    (ascii_bytes "public, max-age=31536000, immutable").

(** ** [storage/files.rs] *)
Section archive_tests.
Context `{!Sha256, !CapnpPacked light_block, !CapnpPacked stored_light_block, !ManifestJson}.

Definition stored_block (h : Z) : res StoredLightBlockInput :=
  bitmap ← unwrap (empty_skipped_txs_for_tweaks_bitmap 1);
  with_precomputed_hashes {|
    sb_height := h; sb_block_hash := replicate 32 1; sb_previous_block_hash := replicate 32 2;
    sb_first_uid := 10; sb_tx_count := 1; sb_skipped_txs_for_tweaks := bitmap;
    sb_tweaks := [tweak_of 2 9]; sb_skipped_outputs := [];
    sb_outputs := [output_of 3 STORAGE_SPENT_HEIGHT_UNSPENT 0; output_of 4 STORAGE_SPENT_HEIGHT_UNSPENT 0];
    sb_spends := [{| spent_uid := 10; creation_height := wrap 32 h |}]; sb_raw_block_bytes := 2500000;
    sb_truncated_output_hash_for_two_labels := []; sb_truncated_output_hash_for_hundred_labels := [] |}.

(** The archive of [temp_archive], in a directory of its own; removing the directory
    at the end leaves nothing to check. *)
Definition mark_spent_outputs_updates_creation_block_once_per_call : res unit :=
  let archive := archive_new in
  stored ← stored_block 100;
  msg ← encode_stored_light_block stored;
  bs ← to_packed_bytes msg;
  let archive := write_block_bytes archive 100 bs in
  let '(archive, updated) := mark_spent_outputs archive [(100, 1, 250)] in
  updated ← updated;
  assert_eq updated 1%nat;;
  bs ← read_stored_block archive 100;
  stored ← decode_stored_light_block bs;
  first ← index (sb_outputs stored) 0;
  assert_eq (spent_height first) STORAGE_SPENT_HEIGHT_UNSPENT;;
  second ← index (sb_outputs stored) 1;
  assert_eq (spent_height second) 250.

Definition mark_spent_outputs_skips_missing_creation_blocks : res unit :=
  let '(_, updated) := mark_spent_outputs archive_new [(999, 0, 250)] in
  updated ← updated;
  assert_eq updated 0%nat.

End archive_tests.

(** ** The tests pass *)
#[local] Existing Instances fips_sha256 toy_secp toy_hash160 std_templates toy_json.
#[local] Instance test_light : CapnpPacked light_block := toy_capnp light_block.
#[local] Instance test_stored : CapnpPacked stored_light_block := toy_capnp stored_light_block.

Definition index_suite : list (res unit) := [
  truncated_output_hash_uses_bip340_tagged_hash; spent_ids_elias_delta_ascending_absolute_roundtrip;
  encodes_typed_light_block_with_flat_tweaks; rejects_malformed_flat_tweak_lengths;
  skipped_txs_for_tweaks_bitmap_roundtrip_and_padding_validation;
  encodes_and_decodes_stored_light_block_to_response;
  validates_tweak_output_counts_match_truncated_output_hash_stream;
  filters_reused_outputs_and_recomputes_dense_tweak_counts;
  cutthrough_filters_outputs_tweaks_skipped_txs_and_spent_ids;
  filtered_response_omits_zero_output_reused_tweak_and_adds_skipped_tx;
  unfiltered_response_uses_precomputed_hashes_and_encoded_spent_ids].
Definition indexer_suite : list (res unit) := [p2tr_sp_counts_nums_slots_but_skips_nums_outputs; tracks_spends_in_scope].
Definition scan_suite : list (res unit) := [
  empty_prevouts_are_ineligible; missing_prevout_blocks_partial_computation;
  p2tr_prevout_with_witness_computes_scan_point; p2wpkh_prevout_computes_scan_point_from_witness_pubkey;
  segwit_version_greater_than_one_makes_transaction_ineligible;
  non_eligible_input_is_skipped_not_treated_as_missing].
Definition small_suite : list (res unit) := [
  extracts_p2tr_xonly_key_after_rust_bitcoin_classification; extracts_payloads_from_common_templates;
  classifies_unknown_segwit_versions_after_known_templates; range_roundtrip; range_rejects_trailing_bytes;
  p2tr_archive_defaults_to_taproot_activation_on_mainnet; p2tr_archive_defaults_to_taproot_activation_on_testnet;
  non_taproot_activation_networks_default_to_zero; roundtrip_elias_delta; decodes_empty_block_undo;
  decodes_raw_txout_payload].
Definition server_suite : list (res unit) := [
  resolves_cutthrough_tip_with_explicit_value; rejects_cutthrough_tip_below_start;
  rejects_cutthrough_tip_above_served_tip; rejects_cutthrough_tip_below_required_response_height;
  accepts_cutthrough_tip_at_required_response_height; implicit_cutthrough_tip_is_dynamic_cache;
  explicit_cutthrough_tip_uses_normal_cache_rules].
Definition archive_suite : list (res unit) := [
  mark_spent_outputs_updates_creation_block_once_per_call; mark_spent_outputs_skips_missing_creation_blocks].
Definition passes (test : res unit) : bool := match test with Ok _ => true | _ => false end.

Example index_tests_pass : forallb passes index_suite = true.
Proof. vm_compute. reflexivity. Qed.
Example indexer_tests_pass : forallb passes indexer_suite = true.
Proof. vm_compute. reflexivity. Qed.
Example scan_tests_pass : forallb passes scan_suite = true.
Proof. vm_compute. reflexivity. Qed.
Example small_tests_pass : forallb passes small_suite = true.
Proof. vm_compute. reflexivity. Qed.
Example server_tests_pass : forallb passes server_suite = true.
Proof. vm_compute. reflexivity. Qed.
Example archive_tests_pass : forallb passes archive_suite = true.
Proof. vm_compute. reflexivity. Qed.

(** * The unit tests of the statistics

    The [#[test]] functions of [stats/src], run in the same way. *)

Section script_type_tests.
Context `{!ScriptTemplates}.

Definition detects_p2tr : res unit :=
  assert_eq (classify_script_type ([81; 32] ++ replicate 32 0)) P2tr.
Definition detects_p2wpkh : res unit :=
  assert_eq (classify_script_type ([0; 20] ++ replicate 20 0)) P2wpkh.
Definition detects_p2a : res unit := assert_eq (classify_script_type [81; 2; 78; 115]) P2a.
Definition detects_op_return : res unit := assert_eq (classify_script_type [106; 4; 222; 173; 190; 239]) OpReturn.
Definition unknown_script : res unit := assert_eq (classify_script_type [85; 85; 85]) Unknown.

End script_type_tests.

Definition header_column_count_matches_row : res unit :=
  let header_cols := length (split_on 44 BLOCK_STATS_HEADER) in
  assert_eq header_cols 49%nat.

(** ** [transaction.rs] *)
Definition witness_from_items (items : list bytes) : list bytes := foldl (λ witness item, witness ++ [item]) [] items.
Definition key_witness : list bytes := witness_from_items [replicate 64 0].
Definition script_path_witness (internal_key script : bytes) : list bytes :=
  let control := [192] ++ internal_key in witness_from_items [script; control].

(** The assertions on a classified spend. *)
Definition assert_spend (witness : list bytes) (p : SpendPath) (is_inscription : bool) : res unit :=
  c ← classify_p2tr_spend witness;
  assert_eq (path c) p;;
  assert (eqb (inscription c) is_inscription).

Definition key_path_test : res unit := assert_spend key_witness Key false.
Definition nums_inscription : res unit :=
  let script := [32] ++ replicate 32 0 ++ [172] ++ [0; 99; 3] ++ ascii_bytes "ord" ++ [104] in
  assert_spend (script_path_witness NUMS_H_XONLY script) ScriptNums true.
Definition non_nums_inscription : res unit :=
  let script := 172 :: [0; 99; 3] ++ ascii_bytes "ord" ++ [104] in
  let other_key := replicate 32 170 in
  assert_spend (script_path_witness other_key script) ScriptNonNums true.
Definition non_nums_no_inscription : res unit :=
  let other_key := replicate 32 170 in
  assert_spend (script_path_witness other_key [172]) ScriptNonNums false.
Definition nums_without_envelope : res unit :=
  assert_spend (script_path_witness NUMS_H_XONLY [172]) ScriptNums false.
Definition annex_stripped_for_key_path : res unit :=
  assert_spend (witness_from_items [replicate 64 0; [80; 1]]) Key false.
Definition annex_stripped_for_script_path : res unit :=
  let other_key := replicate 32 170 in
  let control := [192] ++ other_key in
  assert_spend (witness_from_items [[172]; control; [80; 1]]) ScriptNonNums false.

(** ** The tests pass *)
#[local] Existing Instance std_templates.
Definition script_type_suite : list (res unit) :=
  [detects_p2tr; detects_p2wpkh; detects_p2a; detects_op_return; unknown_script; header_column_count_matches_row].
Definition spend_suite : list (res unit) := [
  key_path_test; nums_inscription; non_nums_inscription; non_nums_no_inscription; nums_without_envelope;
  annex_stripped_for_key_path; annex_stripped_for_script_path].

Example script_type_tests_pass : forallb passes script_type_suite = true.
Proof. vm_compute. reflexivity. Qed.
Example spend_tests_pass : forallb passes spend_suite = true.
Proof. vm_compute. reflexivity. Qed.
