(* ===== verification/CommandLine.v ===== *)
(** * The commands over one disk

    Model of the [main] functions of [light-server/src/bin/light_indexer.rs] and
    [light_server.rs], and of [serve], its router and the conversion of errors in
    [light-server/src/server.rs].  The disk maps a path to the archive below it and to
    the database below it; a path that does not exist is an empty one.  The extractors of
    axum, which read a height or a query from a request, and what it answers when they
    fail are the class [Axum].

    The theorem composes the two programs: the indexer runs, a server starts on the
    directory it wrote, and a wallet that pages over HTTP ends with the indexer's coins. *)

From S2P Require Import Prelude Bits Decimal Helper TaggedHash Bitmap SpentIds OutputHash LightBlock LightValid LightFilter LightWire RangeFrame CutThrough UndoPayload P2trIndexer P2trFacts Indexer ScriptClassify SpTweak Kv IndexStore IndexerCache ArchiveBackend FileArchive JsonWire Profile Sources Tasks Server ServerFacts ServerSync LightIndexer LightIndexerFacts LightIndexerSync LightIndexerToy LightIndexerRun ArchiveCoins ServedArchive Text Node MultiSource MultiServes RestSource RpcSource RpcAuth EsploraSource IpcSource SourceBuild ToyNode IndexerMain Fixture.
From stdpp Require Import functions.
#[local] Open Scope Z_scope.

(** ** The commands of the indexer *)
Inductive Command :=
  | CFixture (archive : bytes) (network : ArchiveNetwork) (start_height : option Z) (count : Z)
  | CRun (source : SourceCli) (archive_dir index_db_dir : bytes) (network : ArchiveNetwork)
      (finality_depth catchup_batch_size flush_blocks memory_budget_mb : Z) (once : bool)
  | CSourceTip (source : SourceCli)
  | CFetchBlock (source : SourceCli) (height : Z) (output : option bytes)
  | CFetchRange (source : SourceCli) (start_height : Z) (count : nat).

(** What a command prints or ends with. *)
Inductive Output :=
  | OFixture
  | ORun (next_height : Z)
  | OTip (name : bytes) (best : Z) (hash : bytes)
  | OBlock (name : bytes) (height : Z) (hash : bytes) (size : Z)
  | ORange (name : bytes) (first last count total : Z).

Section commands.
Context `{HX : Hex, HD : !HexDecode, SD : !Scheduler, BK : !Backends, RB : !RustBitcoin, SC : !Secp, HH : !Hash160, ST : !ScriptTemplates, SH : !Sha256,
          KV : !KvStore, CL : !CapnpPacked light_block, CS : !CapnpPacked stored_light_block, MJ : !ManifestJson}.

Record Disk := { dk_archives : bytes → FileArchive; dk_stores : bytes → Db; dk_files : bytes → option bytes }.
Definition set_archive (disk : Disk) (path : bytes) (fs : FileArchive) : Disk :=
  {| dk_archives := <[path := fs]> (dk_archives disk); dk_stores := dk_stores disk; dk_files := dk_files disk |}.
Definition set_store (disk : Disk) (path : bytes) (d : Db) : Disk :=
  {| dk_archives := dk_archives disk; dk_stores := <[path := d]> (dk_stores disk); dk_files := dk_files disk |}.
Definition set_file (disk : Disk) (path : bytes) (bs : bytes) : Disk :=
  {| dk_archives := dk_archives disk; dk_stores := dk_stores disk; dk_files := <[path := Some bs]> (dk_files disk) |}.

(** [main]: without [--once] the run goes on for as many passes as there is time for. *)
Definition indexer_main (il : Interleaving) (passes : nat) (command : Command) (disk : Disk) : Disk * res Output :=
  match command with
  | CFixture archive network start_height count =>
      let '(fs, r) := fixture_command (dk_archives disk archive) network start_height count in
      (set_archive disk archive fs, (λ _, OFixture) <$> r)
  | CRun source archive_dir index_db_dir network finality_depth catchup_batch_size flush_blocks memory_budget_mb once =>
      let '(fs, d, r) := index_main il source (dk_archives disk archive_dir) (dk_stores disk index_db_dir) network
        finality_depth catchup_batch_size flush_blocks memory_budget_mb (if once then 1%nat else passes) in
      (set_store (set_archive disk archive_dir fs) index_db_dir d, (λ x, ORun x.1) <$> r)
  | CSourceTip source => (disk, (λ '(name, best, hash), OTip name best hash) <$> source_tip_command il source)
  | CFetchBlock source height output =>
      match fetch_block_command il source height (bool_decide (is_Some output)) with
      | Ok ((name, h, hash, size), bs) =>
          (match output, bs with Some path, Some bs => set_file disk path bs | _, _ => disk end, Ok (OBlock name h hash size))
      | Err e => (disk, Err e)
      | Panic p => (disk, Panic p)
      end
  | CFetchRange source start_height count =>
      (disk, (λ '(name, first, last, n, total), ORange name first last n total) <$> fetch_range_command il source start_height count)
  end.
End commands.

(** ** The server *)

(** What axum does with a request before a handler runs. *)
Class Axum := {
  parse_height : bytes → option Z;
  range_query : bytes → option SyncRangeQuery;
  block_query : bytes → option SingleBlockQuery;
  path_rejection : bytes → Response;
  query_rejection : bytes → Response;
  print_range_query : SyncRangeQuery → bytes;
  range_query_print q : range_query (print_range_query q) = Some q;
  error_json : string → bytes;
  health_json : bool → Z → bytes
}.
Record HttpRequest := { rq_path : bytes; rq_query : bytes; rq_accept : option bytes }.

(** The routes of the router; a parameter matches any segment but the empty one. *)
Inductive Route := RHealth | RManifest | RTip | RBlockRange | RSingleBlock (height : bytes) | RNotFound.
Definition route (path : bytes) : Route :=
  let seg s := ascii_bytes s in
  match split_on 47 path with
  | [[]; a] =>
      if bool_decide (a = seg "health"%string) then RHealth
      else if bool_decide (a = seg "manifest"%string) then RManifest
      else if bool_decide (a = seg "tip"%string) then RTip
      else RNotFound
  | [[]; a; b] => if bool_decide (a = seg "blocks"%string) && bool_decide (b = seg "light"%string) then RBlockRange else RNotFound
  | [[]; a; h; b] =>
      if bool_decide (a = seg "blocks"%string) && bool_decide (b = seg "light"%string) && negb (bool_decide (h = []))
      then RSingleBlock h else RNotFound
  | _ => RNotFound
  end.

Section server.
Context `{AX : !Axum, HX : !Hex, JO : !JsonOut, SH : !Sha256, CL : !CapnpPacked light_block, CS : !CapnpPacked stored_light_block, MJ : !ManifestJson}.

(** [Json(value)] as a response, and [ApiError::into_response]. *)
Definition json_body (status : Z) (body : bytes) : Response :=
  {| rs_status := status; rs_headers := insert_header (ascii_bytes "content-type") (ascii_bytes "application/json") []; rs_body := body |}.
Definition health : Response := json_body 200 (health_json true WIRE_VERSION).
Definition into_response (r : api Response) : res Response :=
  match r with
  | AOk r => Ok r
  | AErr e => Ok (json_body (status e) (error_json (error e)))
  | APanic p => Panic p
  end.
Definition api_map {A B} (f : A → B) (r : api A) : api B :=
  match r with AOk a => AOk (f a) | AErr e => AErr e | APanic p => APanic p end.

(** One request; a handler that panics drops the connection. *)
Definition handle (state : AppState) (rq : HttpRequest) : res Response :=
  match route (rq_path rq) with
  | RHealth => Ok health
  | RManifest => into_response (api_map (json_body 200) (manifest_handler state))
  | RTip => into_response (api_map (json_body 200) (tip_handler state))
  | RBlockRange =>
      match range_query (rq_query rq) with
      | Some q => into_response (block_range state q (rq_accept rq))
      | None => Ok (query_rejection (rq_query rq))
      end
  | RSingleBlock height =>
      match parse_height height with
      | None => Ok (path_rejection height)
      | Some h =>
          match block_query (rq_query rq) with
          | Some q => into_response (single_block state h q (rq_accept rq))
          | None => Ok (query_rejection (rq_query rq))
          end
      end
  | RNotFound => Ok {| rs_status := 404; rs_headers := []; rs_body := [] |}
  end.

(** [main] of the server: what it serves, if it can listen. *)
Record ServerArgs := { sa_bind : bytes; sa_archive : bytes; sa_max_range_count : Z; sa_max_response_bytes : Z }.
Definition serve (listen : bytes → option string) (config : ServerConfig) (archive : FileArchive) : res AppState :=
  let state := {| Server.archive := archive; Server.max_range_count := cfg_max_range_count config; max_response_bytes := cfg_max_response_bytes config |} in
  match listen (bind config) with Some e => Err e | None => Ok state end.
Definition server_main `{KV : !KvStore} (listen : bytes → option string) (args : ServerArgs) (disk : Disk) : res AppState :=
  let archive := dk_archives disk (sa_archive args) in
  let config := {| bind := sa_bind args; cfg_max_range_count := sa_max_range_count args; cfg_max_response_bytes := sa_max_response_bytes args |} in
  serve listen config archive.

(** ** The client over HTTP *)
Definition range_request (q : SyncRangeQuery) : HttpRequest :=
  {| rq_path := ascii_bytes "/blocks/light"; rq_query := print_range_query q; rq_accept := None |}.
(** The loop of the README over responses of the status 200. *)
Fixpoint http_sync (fuel : nat) (state : AppState) (q : SyncRangeQuery) : option (list bytes) :=
  match fuel with
  | O => None
  | S fuel =>
      match handle state (range_request q) with
      | Ok r =>
          if bool_decide (rs_status r = 200) then
            p ← read_page r;
            if pg_complete p then Some (pg_blocks p)
            else n ← pg_next p; rest ← http_sync fuel state (at_start n q); Some (pg_blocks p ++ rest)
          else None
      | _ => None
      end
  end.
End server.

(** ** The two programs together *)

Section deployed.
Context `{HX : Hex, HD : !HexDecode, SD : !Scheduler, BK : !Backends, RB : !RustBitcoin, SC : !Secp, HH : !Hash160, ST : !ScriptTemplates, SH : !Sha256,
          KV : !KvStore, CL : !CapnpPacked light_block, CS : !CapnpPacked stored_light_block, MJ : !ManifestJson, JO : !JsonOut, AX : !Axum}.

(** The route and the query string lead to the handler with the query that was asked. *)
Lemma handle_range state q : handle state (range_request q) = into_response (block_range state q None).
Proof. unfold handle, range_request. cbn [rq_path rq_query rq_accept]. by rewrite range_query_print. Qed.
Lemma status_bind {A} (P : Response → Prop) (m : api A) (f : A → api Response) :
  (∀ a r, f a = AOk r → P r) → ∀ r, m ≫= f = AOk r → P r.
Proof. intros Hf r. destruct m as [a|e|p]; cbn; [apply Hf|done|done]. Qed.
Lemma range_body_ok format info messages cc r : range_body format info messages cc = Ok r → rs_status r = 200.
Proof. unfold range_body. destruct format; intros H; res_inv; done. Qed.
Lemma range_headers_status r info : rs_status (add_range_headers r info) = rs_status r.
Proof. unfold add_range_headers. by destruct (ri_next_start info). Qed.
Lemma block_range_status state q accept r : block_range state q accept = AOk r → rs_status r = 200.
Proof.
  unfold block_range. cbv zeta. revert r. do 11 (apply status_bind; intros ?). intros r.
  destruct (bool_decide _); [done|]. revert r. apply status_bind. intros count r.
  destruct (range_body _ _ _ _) as [b|e|p] eqn:E; [|done..]. intros [= <-].
  rewrite range_headers_status. by eapply range_body_ok.
Qed.
Lemma http_sync_same fuel state q ms : sync fuel state q = Some ms → http_sync fuel state q = Some ms.
Proof.
  revert q ms. induction fuel as [|fuel IH]; intros q ms H; [done|]. cbn [sync http_sync] in *. rewrite handle_range.
  destruct (block_range state q None) as [r|e|p] eqn:E; try done. cbn [into_response].
  rewrite bool_decide_true by (by eapply block_range_status).
  destruct (read_page r) as [p|]; [|done]. cbn [mbind option_bind] in *. destruct (pg_complete p); [done|].
  destruct (pg_next p) as [n|]; [|done]. cbn [mbind option_bind] in *.
  destruct (sync fuel state (at_start n q)) as [rest|] eqn:Es; [|done]. by rewrite (IH _ _ Es).
Qed.

(** C2: from the node to the wallet, through both programs.  The indexer command runs over
    honest nodes on a disk at rest, with a node whose finalized blocks decode to a
    well-formed chain: it archives the chain up to the finalized tip and leaves the disk
    at rest again, so the theorem applies to its next run.  A server started on the
    directory it wrote answers a client that follows the pages of [/blocks/light] over
    HTTP from any indexed height to the tip, with cut-through from that height: the
    responses carry the archived blocks one by one, and a wallet that starts with the
    coins of the chain below that height, adds the outputs it recognises in the responses
    and removes the UIDs the responses say are spent, ends with exactly the coins that the
    indexer holds at the tip. *)
Theorem deployed_wallet_synced (il : Interleaving) (cli : SourceCli) (network : ArchiveNetwork) (archive_dir index_db_dir : bytes) (disk : Disk)
    (chain : Z → NodeBlock) (tip : Z) (scans : Z → BlockScanInput)
    (full : P2trIndexerState) (A : archive_map) (h : Z) (n passes : nat) (t : option IndexTip)
    (finality_depth batch flush memory_mb : Z) (once : bool)
    (listen : bytes → option string) (address : bytes) (max_count max_bytes : Z) (q : SyncRangeQuery) (j fuel : nat)
  (wf : node_wf chain tip) (Hhonest : honest_bundle chain tip il cli) (Hdec : decodes chain scans h n)
  (Hfm : fits_marked) (Hrest : at_rest network (dk_archives disk archive_dir) (dk_stores disk index_db_dir) full A h t)
  (Hready : ready scans full t h n) (Hbatch : 0 < batch) (Hflush : 0 < flush) (Hfin : 0 ≤ finality_depth)
  (Htip : h + Z.of_nat n = saturating_sub tip finality_depth + 1) (Henough : (n ≤ if once then 1 else passes)%nat)
  (Hlisten : listen address = None) (Hj : (j < n)%nat) (Hcount : max_count < 2 ^ 32) (Hbytes : max_bytes < 2 ^ 63)
  (Hq : asks_cutthrough q max_count max_bytes (h + Z.of_nat j) (n - j)) (Hfuel : (n - j ≤ fuel)%nat)
  (Hfit : ∀ outs fulln, apply_blocks full (segment scans h n) = Ok (outs, fulln) →
     responses_fit (query_filter (tip_of network scans (h + Z.of_nat n - 1)) q)
       (archived_range (archive_after A outs) (h + Z.of_nat j) (n - j))) :
  ∃ outs fulln outsj fullj disk' state ms,
    apply_blocks full (segment scans h n) = Ok (outs, fulln) ∧ apply_blocks full (segment scans h j) = Ok (outsj, fullj) ∧
    indexer_main il passes (CRun cli archive_dir index_db_dir network finality_depth batch flush memory_mb once) disk =
      (disk', Ok (ORun (h + Z.of_nat n))) ∧
    at_rest network (dk_archives disk' archive_dir) (dk_stores disk' index_db_dir) fulln (archive_after A outs) (h + Z.of_nat n)
      (tip_after_run scans t fulln h n) ∧
    server_main listen {| sa_bind := address; sa_archive := archive_dir; sa_max_range_count := max_count; sa_max_response_bytes := max_bytes |} disk' =
      Ok state ∧
    http_sync fuel state q = Some ms ∧
    let f := query_filter (tip_of network scans (h + Z.of_nat n - 1)) q in
    let blocks := archived_range (archive_after A outs) (h + Z.of_nat j) (n - j) in
    Forall2 (carries f) ms blocks ∧
    foldl wallet_step (held_uids (outpoint_to_spend fullj)) (zip ms (served_uids f <$> blocks)) =
      held_uids (outpoint_to_spend fulln).
Proof.
  pose proof (gr_bounds _ _ _ _ (rd_chain _ _ _ _ _ Hready)) as [Hh _].
  destruct (index_main_runs chain tip scans il cli network (dk_archives disk archive_dir) (dk_stores disk index_db_dir) h n
    (if once then 1 else passes)%nat finality_depth batch flush memory_mb) as (undo_source & ps & Hundo & Hlen & Hps & Hrun); [done..|].
  destruct (archive_synced scans network (dk_archives disk archive_dir) (dk_stores disk index_db_dir) full A h n t undo_source
    finality_depth batch flush memory_mb tip ps max_count max_bytes q j fuel)
    as (outs & fulln & outsj & fullj & fs' & d' & st & ms & Ha & Haj & E & Hr & Hs & Hw); [done..|lia|done|done|done|done|done|done|].
  exists outs, fulln, outsj, fullj, (set_store (set_archive disk archive_dir fs') index_db_dir d'), (server_on fs' max_count max_bytes), ms.
  do 2 (split; [done|]). unfold indexer_main. rewrite Hrun, E. cbn [set_store set_archive dk_archives dk_stores].
  rewrite !fn_lookup_insert. do 2 (split; [done|]). unfold server_main. cbn [sa_archive sa_bind set_store set_archive dk_archives].
  rewrite fn_lookup_insert. unfold serve. cbn [bind]. rewrite Hlisten. split; [done|]. split; [|exact Hw].
  by apply http_sync_same.
Qed.
End deployed.

(** ** The witness: the chain of two blocks, indexed over IPC and served from its first *)
#[local] Existing Instances toy_bitcoin toy_scheduler toy_secp toy_hash160 std_templates toy_sha256 memory_store toy_json.
#[local] Instance deployed_out : JsonOut := {|
  block_json := λ _, []; range_json := λ _, []; manifest_json := λ _, []; tip_json := λ _, [] |}.

(** Query strings as one number. *)
Definition query_tuple (q : SyncRangeQuery) :=
  (q_start q, q_count q, q_cutthrough q, q_cutthrough_start q, q_cutthrough_tip q, q_filter_reuse q, q_labels q, q_max_bytes q).
Definition tuple_query '(a, b, c, d, e, f, g, h) : SyncRangeQuery := Build_SyncRangeQuery a b c d e f g h.
Definition read_query (bs : bytes) : option SyncRangeQuery :=
  match bs with [Z.pos p] => tuple_query <$> decode p | _ => None end.
Definition print_query (q : SyncRangeQuery) : bytes := [Z.pos (encode (query_tuple q))].
Lemma read_print_query q : read_query (print_query q) = Some q.
Proof. unfold read_query, print_query. rewrite decode_encode. by destruct q. Qed.
#[local] Instance toy_axum : Axum := {|
  parse_height := parse_u64; range_query := read_query; block_query := λ _, None;
  path_rejection := λ _, {| rs_status := 400; rs_headers := []; rs_body := [] |};
  query_rejection := λ _, {| rs_status := 400; rs_headers := []; rs_body := [] |};
  print_range_query := print_query; range_query_print := read_print_query;
  error_json := ascii_bytes; health_json := λ _ _, [] |}.

Definition toy_disk : Disk := {| dk_archives := λ _, archive_new; dk_stores := λ _, demo_db; dk_files := λ _, None |}.
Definition toy_path (s : string) : bytes := ascii_bytes s.
Definition toy_run : Command := CRun (toy_cli Ipc) (toy_path "lightdata") (toy_path "rocksdb") Regtest 6 16 1 4096 false.

Lemma deployed_wallet_synced_witness :
  ∃ outs fulln outsj fullj disk' state ms,
    apply_blocks (restore_at_uid 0) (segment toy_chain 0 2) = Ok (outs, fulln) ∧
    apply_blocks (restore_at_uid 0) (segment toy_chain 0 0) = Ok (outsj, fullj) ∧
    indexer_main toy_interleaving 2 toy_run toy_disk = (disk', Ok (ORun (0 + Z.of_nat 2))) ∧
    at_rest Regtest (dk_archives disk' (toy_path "lightdata")) (dk_stores disk' (toy_path "rocksdb")) fulln (archive_after ∅ outs)
      (0 + Z.of_nat 2) (tip_after_run toy_chain None fulln 0 2) ∧
    server_main (λ _, None) {| sa_bind := []; sa_archive := toy_path "lightdata"; sa_max_range_count := 10; sa_max_response_bytes := 12 |} disk' =
      Ok state ∧
    http_sync 2 state toy_query = Some ms ∧
    let f := query_filter (tip_of Regtest toy_chain (0 + Z.of_nat 2 - 1)) toy_query in
    let blocks := archived_range (archive_after ∅ outs) (0 + Z.of_nat 0) (2 - 0) in
    Forall2 (carries f) ms blocks ∧
    foldl wallet_step (held_uids (outpoint_to_spend fullj)) (zip ms (served_uids f <$> blocks)) =
      held_uids (outpoint_to_spend fulln).
Proof.
  apply (deployed_wallet_synced toy_interleaving (toy_cli Ipc) Regtest (toy_path "lightdata") (toy_path "rocksdb") toy_disk
    toy_node toy_tip toy_chain (restore_at_uid 0) ∅ 0 2 2 None 6 16 1 4096 false (λ _, None) [] 10 12 toy_query 0 2);
    [exact toy_node_wf|apply toy_bundle|exact toy_decodes|by intros s s' msg msg' _ _ _ _|apply toy_at_rest|apply toy_ready|done|done|done|done|done|
     done|lia|done|done|exact toy_query_asks|lia|by intros outs fulln _ s r m _ _ _].
Defined.

(** The routes, and the answers of a server on an empty directory. *)
Example toy_routes : route <$> (toy_path <$> ["/health"; "/tip"; "/blocks/light"; "/blocks/7/light"; "/blocks//light"; "/blocks"; "health"]%string) =
  [RHealth; RTip; RBlockRange; RSingleBlock [55]; RNotFound; RNotFound; RNotFound].
Proof. vm_compute. reflexivity. Qed.
Example empty_server : (λ p, rs_status <$> handle (server_on archive_new 10 12) {| rq_path := toy_path p; rq_query := []; rq_accept := None |}) <$>
    ["/health"; "/tip"; "/manifest"; "/blocks/light"; "/blocks/x/light"; "/nothing"]%string =
  [Ok 200; Ok 500; Ok 500; Ok 400; Ok 400; Ok 404].
Proof. vm_compute. reflexivity. Qed.
